(* ===== verification/_CoqProject ===== *)
-Q . S2P
Prelude.v
RaftTypes.v
RaftNode.v
RaftVote.v
RaftWf.v
RaftSafe.v
RaftLeader.v
RaftSpec.v
RaftProps.v
RaftCluster.v
RaftDemo.v
ElectionSafety.v
ElectionProps.v
LogTree.v
RaftLogs.v
RaftMoves.v
RaftHandlers.v
SafetyInv.v
SafetySteps.v
SafetyLocal.v
SafetyTerms.v
SafetyLeader.v
SafetyFollower.v
SafetyRun.v
Scheduler.v
SharedLog.v
SafetyProps.v
LabRpc.v
LabRpcProps.v
RaftApply.v
Delivery.v
SnapMoves.v
Replica.v
NetOps.v
RaftConfig.v
HarnessLogs.v
HarnessNet.v
HarnessChecks.v
HarnessDemo.v
SvcConfig.v
SvcNet.v
SvcServers.v
SvcProps.v
KvSrv.v
KvRaft.v
KvSession.v
KvProps.v
KvDemo.v
KvCluster.v
KvClusterDemo.v
KvReplica.v
ReplicaRun.v
Bitset.v
KvModel.v
Linked.v
Checker.v
CheckerSpec.v
CheckerProof.v
Linear.v
LinProps.v
LinEvents.v
Visual.v
VisualProps.v
Shard.v
ShardServers.v
ShardKvServer.v
ShardConfig.v
ShardNet.v
ShardHarness.v
ShardTests.v
SvcInst.v
SvcDemo.v
KvSrvConfig.v
MrCoordinator.v
MrProps.v
MrWorker.v
MrEquiv.v
MrApps.v
Labgob.v
LabgobProps.v
