(* ===== verification/Prelude.v ===== *)
(** * Verification of the 6.5840 laboratories: Raft, two key/value services, MapReduce

    The repository holds Go packages under src/src: a Raft library (raft), a
    key/value service replicated with it (kvraft), a key/value service with one
    server (kvsrv), a MapReduce coordinator and worker (mr, main/mrsequential.go), a
    linearizability checker (porcupine, models), a simulated network (labrpc), clerks for
    two sharded services whose servers are empty (shardctrler, shardkv), and the harnesses
    that the tests of these packages run them in (config.go).  This library models them as
    executable functions and step relations and proves what makes them correct.

    ** How code becomes definitions

    A handler or a critical section under one mutex is one function of the state monad
    [M] of this file: it maps the object to the mutated object and an outcome, a value
    or a run-time panic (index out of range, write to a nil map), and a panic keeps the
    mutations made before it.  A goroutine that releases the lock is split where it
    does, and step relations interleave the pieces.  Reads of the clock and of the
    random generator are arguments ([Tick], [Env]).  Go int is Z: terms, indices and
    sequence numbers are counters that would need 2^63 increments to overflow; where
    width matters the code's conversion is written out (float64 in
    [float64_of_int], the 32-bit hash in [MrWorker.fnv_step], 64-bit words in
    [Bitset]).  Slices are lists of values; where two slices share an array and one is
    written through the other, the arrays are modelled (SharedLog, and the job lists of
    MrCoordinator).

    ** Raft

    - RaftTypes: raftStruct.go, persister.go, the structs of raft.go; the labgob
      encoder is the class [LabGob] with its round-trip law [LabGobOk], and a concrete
      instance.
    - RaftNode: every operation of raft.go.  The split goroutines are: ticker
      ([ticker_begin], [onVoteReply], [keepWaiting], [ticker_decide]),
      sendLogTicketCore ([sendLogTicketCore_begin], [sendLog_reply]), sendSnapShot
      ([sendSnapShot_begin], [sendSnapShot_reply]), applyTicket
      ([applyTicket_waits], [_collect], [_gate], [_finish]) and the goroutine of
      RequestInstallSnapShot ([installSnapshotDone]).  Loops without structural
      recursion have fuel: [advanceCommit_loop] gets the number of indices above
      commitIndex and [backoff_loop] the distance to the first entry, which the
      specifications in RaftLeader show to be enough.
    - RaftWf, RaftSafe, RaftLeader, RaftSpec: the invariant of a peer and weakest
      preconditions of every operation.  RaftVote: terms, votes and what is on stable
      storage.  RaftProps: the theorems about one peer (no panic, AppendEntries on
      every branch, commit rules of leader and follower, votes, snapshots, recovery,
      back-off, what leaders send, Start, the apply batch), and an execution in which a
      leader panics.
    - RaftCluster: peers, RPCs in flight (lost, delayed, reordered, at most once),
      crashes at any point and restarts from storage, as a step relation;
      RaftDemo runs it.  The arguments of an RPC are values from the end of the critical
      section that prepares them; SharedLog takes the entries of AppendEntries from
      the array they share with rf.log instead.  ElectionSafety and ElectionProps: one leader per term,
      one vote per term, durability and monotone terms over all executions.
    - LogTree: logs, the tree they form under the prefix order, acknowledged and
      committed logs, leader completeness and agreement of committed logs as facts of
      trees.  RaftLogs: rf.log as a log compacted at an index.  RaftMoves,
      RaftHandlers: what each operation does to log, role, vote and commitIndex.
      SafetyInv: the invariant of a cluster over auxiliary state (the whole log of
      every peer, the tree, the elections, the acknowledgements); SafetySteps,
      SafetyLocal, SafetyTerms, SafetyLeader, SafetyFollower: every step keeps it;
      SafetyRun: executions.  SafetyProps: log matching, leader completeness, agreement
      of committed entries, state machine safety of what appliers collect, and that no
      operation offered by the cluster panics.  These theorems are about executions
      whose indices stay within 2^53, the bound up to which float64, in which a
      follower takes the minimum of LeaderCommit and its last index, is exact, and in
      which no message is overwritten before it is encoded.
    - Scheduler: events that name the goroutine or message that moves next, and a
      function that runs them; what it computes is an execution of RaftCluster.
    - SharedLog: the arrays behind the logs.  [Memory] has a heap of arrays, the slice that
      is each peer's rf.log, and the slices of the messages that wait to be encoded:
      raft.go:905 makes such a slice, Call encodes it after rf.mu was released, and
      raft.go:484 may write into the array in between.  [wire R] puts the memory under a
      step relation with a cluster, for RaftCluster, Delivery and Replica alike (the
      classes [ClusterState] and [OwnLogs]), and makes encoding a step that replaces the
      entries by what the slice shows then.  [intact R] are the steps that leave what the
      waiting messages show as it is; executions of [intact R] are executions of [R].  The theorems
      that depend on the contents of AppendEntries are stated for [intact] executions:
      nothing in raft.go makes an execution intact, and [Delayed] is an execution from the
      start, with seven peers, in which a message is overwritten and two peers come to
      hold different committed entries at one index.
    - RaftApply: applyTicket and the snapshot goroutines with their two mutexes and
      condition variables as a step relation; delivery is in order, the
      [continue] that keeps applySeqMu locked leads to a deadlock, and a snapshot goroutine
      that finds commitIndex already raised leaves the applier asleep.
    - Delivery: a cluster with the messages that the appliers of all incarnations of its
      peers send; without snapshots they agree on every index and each incarnation sends
      the indices from 1 on in order.  Its events extend those of Scheduler.
    - SnapMoves: what each operation does to snapshots and to the tasks that deliver them.
      Replica: a service with snapshots on a cluster, for any server that is a [Consumer]
      and keeps the promises of [ConsumerOk] (it handles what its peer delivers and may ask
      for a snapshot while it does).  The servers of all peers hold states of committed
      prefixes, a snapshot that a peer keeps is one of its committed prefix, and every
      message can be handled, in executions that are intact, whose indices stay within 2^53
      and in which every snapshot goroutine runs before its peer has delivered past its
      index ([in_time]); nothing in raft.go ensures the last.
    - LabRpc: labrpc/labrpc.go, the network (end points, servers, services, dispatch,
      statistics) and the life of every RPC, three goroutines whose pieces a step
      relation interleaves with the operations on the network.  LabRpcProps: a call is
      handled at most once, a deleted server does not answer, a call can complete, and
      calls pass through the stages that RaftCluster gives them.

    ** Services

    - KvSrv: package kvsrv, server and clerk; requests take effect exactly once.
    - KvRaft: package kvraft, server and clerk, above the interface [RaftSvc] to Raft;
      KvSession: the abstract session machine, the law class [RaftSvcOk] and its
      instance for the Raft of RaftNode; KvProps: refinement, exactly once, snapshots,
      the clerk; KvDemo: codecs, witnesses, and two executions in which the service
      misleads a client or a replica.
    - KvCluster: the servers of kvraft on the peers of a cluster, one for each incarnation,
      configured without snapshots.  Two servers have always applied operations of which
      one sequence is a prefix of the other, so that servers that have applied equally
      much have equal stores and duplicate tables, and no message is refused.
      KvClusterDemo: a scheduler for it and a run of a Put.
    - KvReplica: the server of kvraft is a consumer in the sense of Replica; its replicas
      agree while logs are compacted and snapshots are installed, what is on disk is the
      session of the commands that the log has lost, and nothing stops a replica.
      ReplicaRun: a scheduler for such a service, and a run in which a peer that was cut
      off is brought up to date with a snapshot.
    - Bitset, KvModel: porcupine/bitset.go, the history types of porcupine and the
      key/value model of models/kv.go, with the justification of its partition by key.
    - Linked, Checker: porcupine/checker.go, the doubly linked list of entries in a heap
      of nodes, the search and the driver over the partitions.  The search loop has as
      fuel a bound on the configurations it can visit; [checkSingle_correct] shows that
      it ends within it.  CheckerSpec, CheckerProof: the search visits configurations
      (sets of linearized calls with a state) and decides whether a history can be
      linearized.  Linear: linearizability of operations, its locality under
      partitions.  LinProps, LinEvents: the verdicts of CheckOperations and
      CheckEvents are right, what a timeout and an empty history give.  Visual,
      VisualProps: computeVisualizationData of visualization.go, which never panics on
      what the checker reports and points to a longest prefix of each operation.
    - Shard: the clerks of shardctrler and shardkv.  ShardServers, ShardKvServer: their
      servers, which start a Raft peer and have empty handlers.
    - MrCoordinator, MrProps: the coordinator as a step relation of handlers and
      timers, with the replies that workers hold: only a job that was given to a worker is
      reported, so that a job whose worker died is done again only because its timer
      fires.  Phases, no job lost, completion possible even when all workers have died.
      MrWorker, MrEquiv: the
      worker and the sequential program; both print the same lines when keys and values
      are UTF-8, because intermediate pairs go through encoding/json, which replaces other
      bytes ([json_string]).  MrApps: the
      applications of mrapps; the word count counts words, and the applications that
      measure parallelism and count jobs by the files of other processes count exactly.
    - Labgob, LabgobProps: labgob/labgob.go, the walk over types, which may be recursive,
      and the look at the value that is decoded into; the fuel of the walk is the number
      of types that have not been checked, which is shown to be enough.

    ** Test harnesses

    - NetOps: slices indexed by server and loops that make, enable and disable end points
      of the network, shared by the harnesses.
    - RaftConfig: raft/config.go.  HarnessNet: after any sequence of starts, crashes,
      connections and disconnections a request gets through exactly between connected
      servers and to the labrpc server of the receiver's latest start ([cf_objects] is the
      list of labrpc servers made so far, each with its owner), and a restart is a crash
      step of RaftCluster.  HarnessLogs: the readers of
      the apply channels accept every execution of a cluster, and what the function one
      reports is what they have recorded.  HarnessChecks:
      checkOneLeader, which asks the servers one after the other while the cluster runs,
      never finds two leaders of a term.  HarnessDemo: runs.
    - SvcConfig: kvraft/config.go, for any server that fits the class [SmrServer];
      SvcInst has the instances, the server of kvraft and the one of shardctrler, whose
      config.go is the same code.  SvcNet: connections, partition and make_partition.
      SvcServers: starting and shutting down servers.  SvcProps: a configuration is made
      with all servers connected, a restart keeps storage and clerks, a clerk gets a handle
      on every server, the leader is cut off from a majority.  SvcDemo: runs.
    - KvSrvConfig: kvsrv/config.go; clerks stay connected.
    - ShardConfig: shardkv/config.go, groups of servers and services of controllers on one
      network; controller services are objects in a store, random names a sequence.
      ShardNet: every operation has a closed form of what it leaves.  ShardHarness:
      the invariant and the operations that keep it.  ShardTests: whatever the
      tests do, running servers reach their group and the controllers, clerks reach the
      controller service they were made for, servers that are down are cut off, a restart keeps storage, joining announces the names under which
      servers are registered; and the sizes for which the harness works at all.

    ** Not modelled

    encoding/gob (an encoder, used through what it documents), reflection in labrpc (a
    method is a function from argument bytes to reply bytes), the time limits of the
    harnesses, the JSON and HTML output of the visualization of porcupine, the main programs
    other than mrsequential, random ids (nrand), debug printing, sleeping times.  Memory
    sharing between goroutines outside the locks (RestoreSnapShot runs without the server's
    lock) is not modelled.

    ** Further work

    The readers of the apply channels with snapshots (applierSnap) on executions of a
    cluster; an applier and a snapshot goroutine in any order, for a server that compares
    the index of a snapshot. *)
From Stdlib Require Import ZArith Lia Ascii.
From stdpp Require Import base list numbers strings pretty gmap relations.

#[global] Open Scope Z_scope.

(** ** Run-time panics and the monad of the handlers

    A Go statement either completes or panics (index out of range, nil map
    write, ...).  A handler runs against a mutable object: it is a function
    from the object to the mutated object and the outcome.  A panic keeps the
    mutations made before it. *)

Inductive res (A : Type) : Type :=
| Ret (a : A)
| Panic.
Arguments Ret {A} a.
Arguments Panic {A}.

Definition M (S A : Type) : Type := S -> S * res A.

Definition m_bind {S A B : Type} (f : A -> M S B) (m : M S A) : M S B :=
  fun s => match m s with
           | (s', Ret a) => f a s'
           | (s', Panic) => (s', Panic)
           end.

#[global] Instance M_ret {S} : MRet (M S) := fun A a s => (s, Ret a).
#[global] Instance M_bind {S} : MBind (M S) := fun A B f m => m_bind f m.

Definition gets {S A : Type} (f : S -> A) : M S A := fun s => (s, Ret (f s)).
Definition modify {S : Type} (f : S -> S) : M S unit := fun s => (f s, Ret tt).
Definition lift {S A : Type} (r : res A) : M S A := fun s => (s, r).
Definition when {S : Type} (b : bool) (m : M S unit) : M S unit :=
  if b then m else mret tt.

(** Running a handler and asking for its outcome. *)
Definition returns {A : Type} (r : res A) : Prop := exists a, r = Ret a.

(** ** Go slices as lists

    Indexing with a Go [int]: out of range panics. *)

Definition go_idx {A : Type} (l : list A) (i : Z) : res A :=
  if i <? 0 then Panic
  else match l !! Z.to_nat i with Some x => Ret x | None => Panic end.

Definition in_range {A : Type} (l : list A) (i : Z) : bool :=
  (0 <=? i) && (i <=? Z.of_nat (length l)).

(** [l[i:]] *)
Definition go_from {A : Type} (l : list A) (i : Z) : res (list A) :=
  if in_range l i then Ret (drop (Z.to_nat i) l) else Panic.

(** [l[:j]], for [j] at most the length *)
Definition go_to {A : Type} (l : list A) (j : Z) : res (list A) :=
  if in_range l j then Ret (take (Z.to_nat j) l) else Panic.

(** [l[i] = x] *)
Definition go_set {A : Type} (l : list A) (i : Z) (x : A) : res (list A) :=
  if (0 <=? i) && (i <? Z.of_nat (length l))
  then Ret (<[Z.to_nat i := x]> l) else Panic.

(** ** Loops *)

(** [for _, x := range l { body x }] *)
Fixpoint m_for {S A : Type} (l : list A) (body : A -> M S unit) : M S unit :=
  match l with
  | [] => mret tt
  | x :: l' => body x;; m_for l' body
  end.

(** the same, collecting one result per iteration *)
Fixpoint m_map {S A B : Type} (f : A -> M S B) (l : list A) : M S (list B) :=
  match l with
  | [] => mret []
  | x :: l' => y ← f x; ys ← m_map f l'; mret (y :: ys)
  end.

(** the indices [0 .. n-1] as Go ints *)
Definition range (n : nat) : list Z := Z.of_nat <$> seq 0 n.

(** ** Executions *)

(** What holds at the start and is kept by every step holds all along. *)
Lemma rtc_preserves {A : Type} (R : relation A) (P : A -> Prop) (x y : A) :
  (forall a b, P a -> R a b -> P b) -> P x -> rtc R x y -> P y.
Proof. intros Hs Hx Hr. induction Hr as [|a b c Hab _ IH]; eauto. Qed.

(** ** float64

    Conversion of an int to the nearest float64, ties to even, as the integer
    that float denotes. *)
Definition float64_of_int (x : Z) : Z :=
  let a := Z.abs x in
  if a <? 2 ^ 53 then x
  else
    let e := Z.log2 a - 52 in
    let q := a / 2 ^ e in
    let r := a mod 2 ^ e in
    let half := 2 ^ (e - 1) in
    let q' := if (half <? r) || ((half =? r) && Z.odd q) then q + 1 else q in
    Z.sgn x * (q' * 2 ^ e).

(** ** Weakest preconditions

    [wp m Q s]: run from [s], [m] does not panic and ends in a result and a
    state related by [Q].  [keeps R m]: whatever the outcome, a panic
    included, the state before and after are related by [R]. *)

Definition wp {S A : Type} (m : M S A) (Q : A -> S -> Prop) (s : S) : Prop :=
  match m s with
  | (s', Ret a) => Q a s'
  | (_, Panic) => False
  end.

Definition keeps {S A : Type} (R : S -> S -> Prop) (m : M S A) : Prop :=
  forall s, R s (fst (m s)).

Section Wp.
Context {S A B : Type}.
Implicit Types (s : S) (m : M S A).

Lemma wp_bind m (f : A -> M S B) Q s :
  wp (m ≫= f) Q s = wp m (fun a => wp (f a) Q) s.
Proof. unfold wp, mbind, M_bind, m_bind. by destruct (m s) as [s' [a|]]. Qed.

Lemma wp_ret (a : A) Q s : wp (mret a) Q s = Q a s.
Proof. done. Qed.

Lemma wp_gets (f : S -> A) Q s : wp (gets f) Q s = Q (f s) s.
Proof. done. Qed.

Lemma wp_modify (f : S -> S) Q s : wp (modify f) Q s = Q tt (f s).
Proof. done. Qed.

Lemma wp_lift (a : A) Q s : wp (lift (Ret a)) Q s = Q a s.
Proof. done. Qed.

Lemma wp_mono m (P Q : A -> S -> Prop) s :
  wp m P s -> (forall a s', P a s' -> Q a s') -> wp m Q s.
Proof. unfold wp. destruct (m s) as [s' [a|]]; auto. Qed.

Lemma wp_when (b : bool) (m : M S unit) Q s :
  (b = true -> wp m Q s) -> (b = false -> Q tt s) -> wp (when b m) Q s.
Proof. destruct b; intros Ht Hf; [by apply Ht|by apply Hf]. Qed.

Lemma wp_run m Q s : wp m Q s -> exists s' a, m s = (s', Ret a) /\ Q a s'.
Proof. unfold wp. destruct (m s) as [s' [a|]]; [eauto|done]. Qed.

Lemma bind_run m (f : A -> M S B) s s' a : m s = (s', Ret a) -> (m ≫= f) s = f a s'.
Proof. unfold mbind, M_bind, m_bind. by intros ->. Qed.

Lemma wp_intro m Q s s' a : m s = (s', Ret a) -> Q a s' -> wp m Q s.
Proof. unfold wp. by intros ->. Qed.

End Wp.

(** Evaluate the head of a [wp] goal as far as it is straight-line code. *)
Ltac wp_simp :=
  repeat first [ rewrite wp_bind | rewrite wp_gets | rewrite wp_modify
               | rewrite wp_ret | rewrite wp_lift ]; simpl.

Section Keeps.
Context {S : Type} (R : S -> S -> Prop) `{!PreOrder R}.

Lemma keeps_ret {A} (a : A) : keeps R (mret a).
Proof. intros s. reflexivity. Qed.

Lemma keeps_gets {A} (f : S -> A) : keeps R (gets f).
Proof. intros s. reflexivity. Qed.

Lemma keeps_lift {A} (r : res A) : keeps R (lift r).
Proof. intros s. reflexivity. Qed.

Lemma keeps_bind {A B} (m : M S A) (f : A -> M S B) :
  keeps R m -> (forall a, keeps R (f a)) -> keeps R (m ≫= f).
Proof.
  intros Hm Hf s. unfold mbind, M_bind, m_bind. specialize (Hm s).
  destruct (m s) as [s' [a|]]; simpl in *; [|done].
  etrans; [exact Hm|apply Hf].
Qed.

Lemma keeps_when b (m : M S unit) : keeps R m -> keeps R (when b m).
Proof. destruct b; [done|]. intros _. apply keeps_ret. Qed.

Lemma keeps_modify (f : S -> S) : (forall s, R s (f s)) -> keeps R (modify f).
Proof. done. Qed.

Lemma keeps_m_for {A} (l : list A) (body : A -> M S unit) :
  (forall x, keeps R (body x)) -> keeps R (m_for l body).
Proof.
  intros Hb. induction l as [|x l IH]; simpl; [apply keeps_ret|].
  apply keeps_bind; auto.
Qed.

Lemma keeps_m_map {A B} (f : A -> M S B) (l : list A) :
  (forall x, keeps R (f x)) -> keeps R (m_map f l).
Proof.
  intros Hf. induction l as [|x l IH]; simpl; [apply keeps_ret|].
  apply keeps_bind; [apply Hf|]. intros y. apply keeps_bind; [done|].
  intros ys. apply keeps_ret.
Qed.

End Keeps.

(** Facts [keeps R op] about the operations of a component go here. *)
Create HintDb keeps.

(** Decompose a [keeps] goal along the program text, stopping at operations
    the hint database knows. *)
Ltac keeps_step :=
  first
    [ solve [eauto with keeps nocore]
    | match goal with
      | |- keeps _ (match ?x with _ => _ end) => destruct x
      | |- keeps _ (_ ≫= _) => apply keeps_bind; [apply _| |intros ?]
      | |- keeps _ (when _ _) => apply keeps_when; [apply _|]
      | |- keeps _ (m_for _ _) => apply keeps_m_for; [apply _|intros ?]
      | |- keeps _ (m_map _ _) => apply keeps_m_map; [apply _|intros ?]
      | |- keeps _ (gets _) => apply keeps_gets; apply _
      | |- keeps _ (lift _) => apply keeps_lift; apply _
      | |- keeps _ (mret _) => apply keeps_ret; apply _
      end ].
Ltac keeps_auto := repeat keeps_step.

(** Turn boolean tests on Z in hypotheses into propositions. *)
Ltac zify_bool :=
  repeat match goal with
  | H : andb _ _ = true |- _ => apply andb_true_iff in H as [? ?]
  | H : andb _ _ = false |- _ => apply andb_false_iff in H
  | H : orb _ _ = true |- _ => apply orb_true_iff in H
  | H : orb _ _ = false |- _ => apply orb_false_iff in H as [? ?]
  | H : negb _ = true |- _ => apply negb_true_iff in H
  | H : negb _ = false |- _ => apply negb_false_iff in H
  | H : (_ <? _) = true |- _ => apply Z.ltb_lt in H
  | H : (_ <? _) = false |- _ => apply Z.ltb_ge in H
  | H : (_ <=? _) = true |- _ => apply Z.leb_le in H
  | H : (_ <=? _) = false |- _ => apply Z.leb_gt in H
  | H : (_ =? _) = true |- _ => apply Z.eqb_eq in H
  | H : (_ =? _) = false |- _ => apply Z.eqb_neq in H
  end.

(** ** Facts about Go slices *)

Section GoSlice.
Context {A : Type}.
Implicit Types l : list A.

Lemma go_idx_lookup l i x :
  go_idx l i = Ret x <-> 0 <= i /\ l !! Z.to_nat i = Some x.
Proof.
  unfold go_idx. destruct (Z.ltb_spec i 0); split.
  - done.
  - lia.
  - destruct (l !! Z.to_nat i) eqn:E; [|done]. intros [= ->]. split; [lia|done].
  - by intros [_ ->].
Qed.

Lemma go_idx_ok l i : 0 <= i < Z.of_nat (length l) -> exists x, go_idx l i = Ret x.
Proof.
  intros Hi. destruct (lookup_lt_is_Some_2 l (Z.to_nat i)) as [x Hx]; [lia|].
  exists x. apply go_idx_lookup. split; [lia|done].
Qed.

Lemma go_from_ok l i :
  0 <= i <= Z.of_nat (length l) -> go_from l i = Ret (drop (Z.to_nat i) l).
Proof.
  intros Hi. unfold go_from, in_range.
  destruct (Z.leb_spec 0 i), (Z.leb_spec i (Z.of_nat (length l))); simpl; lia || done.
Qed.

Lemma go_to_ok l i :
  0 <= i <= Z.of_nat (length l) -> go_to l i = Ret (take (Z.to_nat i) l).
Proof.
  intros Hi. unfold go_to, in_range.
  destruct (Z.leb_spec 0 i), (Z.leb_spec i (Z.of_nat (length l))); simpl; lia || done.
Qed.

Lemma go_set_ok l i x :
  0 <= i < Z.of_nat (length l) -> go_set l i x = Ret (<[Z.to_nat i := x]> l).
Proof.
  intros Hi. unfold go_set.
  destruct (Z.leb_spec 0 i), (Z.ltb_spec i (Z.of_nat (length l))); simpl; lia || done.
Qed.

Lemma elem_of_range n i : i ∈ range n <-> 0 <= i < Z.of_nat n.
Proof.
  unfold range. rewrite list_elem_of_fmap. split.
  - intros (k & -> & Hk%elem_of_seq). lia.
  - intros Hi. exists (Z.to_nat i). rewrite elem_of_seq. lia.
Qed.

End GoSlice.

Lemma float64_of_int_exact x : Z.abs x <= 2 ^ 53 -> float64_of_int x = x.
Proof.
  intros Hx. unfold float64_of_int. destruct (Z.ltb_spec (Z.abs x) (2 ^ 53)); [done|].
  assert (Ha : Z.abs x = 2 ^ 53) by lia. rewrite Ha.
  replace x with (Z.sgn x * 2 ^ 53) at 2 by lia. reflexivity.
Qed.

(** Loops: [I done s] holds after the iterations for [done]. *)
Lemma wp_m_for {S A : Type} (l : list A) (body : A -> M S unit)
    (I : list A -> S -> Prop) (s : S) :
  I [] s ->
  (forall l1 x l2 s', l = l1 ++ x :: l2 -> I l1 s' ->
     wp (body x) (fun _ => I (l1 ++ [x])) s') ->
  wp (m_for l body) (fun _ => I l) s.
Proof.
  intros H0 Hstep.
  enough (Hgen : forall l2 l1 s, l = l1 ++ l2 -> I l1 s ->
            wp (m_for l2 body) (fun _ => I l) s) by (by apply (Hgen l [])).
  induction l2 as [|x l2 IH]; intros l1 s1 -> HI; simpl.
  - rewrite wp_ret. by rewrite app_nil_r.
  - rewrite wp_bind. eapply wp_mono; [by eapply Hstep|].
    intros u s2 Hs2. simpl in Hs2. apply (IH (l1 ++ [x])); [by rewrite <- app_assoc|done].
Qed.

Lemma wp_m_map {S A B : Type} (f : A -> M S B) (l : list A)
    (I : list A -> list B -> S -> Prop) (s : S) :
  I [] [] s ->
  (forall l1 x l2 ys s', l = l1 ++ x :: l2 -> I l1 ys s' ->
     wp (f x) (fun y => I (l1 ++ [x]) (ys ++ [y])) s') ->
  wp (m_map f l) (fun ys => I l ys) s.
Proof.
  intros H0 Hstep.
  enough (Hgen : forall l2 l1 ys1 s, l = l1 ++ l2 -> I l1 ys1 s ->
            wp (m_map f l2) (fun ys => I l (ys1 ++ ys)) s) by (by apply (Hgen l [] [])).
  induction l2 as [|x l2 IH]; intros l1 ys1 s1 -> HI; simpl.
  - rewrite wp_ret. by rewrite !app_nil_r.
  - rewrite wp_bind. eapply wp_mono; [by eapply Hstep|].
    intros y s2 Hs2. simpl. rewrite wp_bind.
    eapply wp_mono; [apply (IH (l1 ++ [x])); [by rewrite <- app_assoc|exact Hs2]|].
    intros ys s3 Hs3. simpl in *. rewrite wp_ret.
    by rewrite <- app_assoc in Hs3.
Qed.

(** An array filled from the left: the first [k] cells already have their
    final content [T]. *)
Definition filled {A : Type} (k : nat) (T l0 : list A) : list A := take k T ++ drop k l0.

Lemma filled_step {A : Type} (k : nat) (T l0 : list A) (x : A) :
  length l0 = length T -> T !! k = Some x ->
  <[k := x]> (filled k T l0) = filled (S k) T l0.
Proof.
  intros Hlen Hx. unfold filled. pose proof (lookup_lt_Some _ _ _ Hx) as Hk.
  destruct (lookup_lt_is_Some_2 l0 k) as [y Hy]; [lia|].
  rewrite (drop_S _ _ _ Hy), (take_S_r _ _ _ Hx), <- app_assoc.
  rewrite insert_app_r_alt by (rewrite length_take; lia).
  replace (k - length (take k T))%nat with 0%nat by (rewrite length_take; lia). done.
Qed.

Lemma length_filled {A : Type} (k : nat) (T l0 : list A) :
  length l0 = length T -> length (filled k T l0) = length l0.
Proof. intros. unfold filled. rewrite length_app, length_take, length_drop. lia. Qed.

Lemma range_split n l1 i l2 :
  range n = l1 ++ i :: l2 -> i = Z.of_nat (length l1) /\ (length l1 < n)%nat.
Proof.
  intros Hr. assert (Hi : range n !! length l1 = Some i) by (by rewrite Hr, list_lookup_middle).
  unfold range in Hi. rewrite list_lookup_fmap in Hi.
  destruct (seq 0 n !! length l1) as [k|] eqn:Hk; simplify_eq/=.
  apply lookup_seq in Hk as [-> ?]. split; [lia|done].
Qed.

Lemma NoDup_submseteq_sub {A : Type} (l k : list A) : l ⊆+ k -> NoDup k -> NoDup l.
Proof.
  intros [k' Hk]%submseteq_Permutation Hn. rewrite Hk in Hn.
  by apply NoDup_app in Hn as (? & _ & _).
Qed.

(** Unfold the monad in a goal that runs a program on a state. *)
Ltac m_exec :=
  unfold when, gets, modify, lift, mret, M_ret, mbind, M_bind, m_bind; simpl.

Lemma list_filter_ext_in {A : Type} (P Q : A -> Prop)
    `{!forall x, Decision (P x), !forall x, Decision (Q x)} (l : list A) :
  (forall x, x ∈ l -> P x <-> Q x) -> filter P l = filter Q l.
Proof.
  induction l as [|x l IH]; intros Hpq; [done|].
  rewrite !filter_cons, IH by (intros y Hy; apply Hpq; by right).
  assert (Hx : P x <-> Q x) by (apply Hpq; left).
  destruct (decide (P x)), (decide (Q x)); tauto.
Qed.

Lemma filter_fmap_list {A B : Type} (f : A -> B) (P : B -> Prop) `{!forall x, Decision (P x)} (l : list A) :
  filter P (f <$> l) = f <$> filter (fun x => P (f x)) l.
Proof.
  induction l as [|x l IH]; [done|]. rewrite fmap_cons, !filter_cons, IH. by case_decide.
Qed.

(** ** Numbers in names *)

(** [c] does not occur. *)
Fixpoint free_of (c : ascii) (s : string) : Prop :=
  match s with EmptyString => True | String a s' => a <> c /\ free_of c s' end.

Lemma split_at (c : ascii) (a a' b b' : string) :
  free_of c a -> free_of c a' -> a +:+ String c b = a' +:+ String c b' -> a = a' /\ b = b'.
Proof.
  revert a'. induction a as [|x a IH]; intros [|x' a']; simpl; intros Ha Ha' E.
  - by injection E.
  - injection E as -> _. by destruct Ha'.
  - injection E as -> _. by destruct Ha.
  - injection E as -> E. destruct (IH a') as [-> ->]; tauto.
Qed.

Lemma pretty_go_free (x : N) (s : string) : free_of "-"%char s -> free_of "-"%char (pretty_N_go x s).
Proof.
  revert s. induction (N.lt_wf_0 x) as [x _ IH]; intros s Hs.
  destruct (decide (x = 0)%N) as [->|Hx]; [done|]. rewrite pretty_N_go_step by lia. apply IH; [apply N.div_lt; lia|].
  split; [|done]. unfold pretty_N_char. by repeat case_match.
Qed.

Lemma pretty_free (z : Z) : 0 <= z -> free_of "-"%char (pretty z).
Proof.
  intros Hz. unfold pretty, pretty_Z. destruct z as [|p|p]; [by repeat split|apply (pretty_go_free (N.pos p) ""); done|lia].
Qed.
