(* ===== verification/RaftTypes.v ===== *)
(** Data of package raft: the RPC argument and reply structs of raftStruct.go,
    log entries and the peer object of raft.go, the Persister of persister.go,
    and the interface to the labgob encoder that persist/readPersist use. *)
From Stdlib Require Import ZArith Lia.
From stdpp Require Import base list numbers.
From S2P Require Import Prelude.

Abbreviation bytes := (list Z).

(** ** raftStruct.go *)

Record HeartBeatArgs := mkHeartBeatArgs { hb_Term : Z; hb_CandidateId : Z }.

Record HeartBeatReply := mkHeartBeatReply { hbr_Term : Z }.

Inductive MsgType := UnKnowMgsType | HeartBeatMsgType | LogMsgType.

(** A log entry carries the term of the leader that created it, its index in
    the whole log and the command; [Data] is nil in the dummy entry. *)
Record LogEntry (D : Type) := mkLogEntry
  { le_Term : Z; le_Index : Z; le_Data : option D }.
Arguments mkLogEntry {D}.
Arguments le_Term {D}.
Arguments le_Index {D}.
Arguments le_Data {D}.

Record SendLogArgs (D : Type) := mkSendLogArgs
  { sl_Term : Z;
    sl_LeaderId : Z;
    sl_PrevLogIndex : Z;
    sl_PrevLogTerm : Z;
    sl_Entries : list (LogEntry D);
    sl_LeaderCommit : Z;
    sl_MsgType : MsgType;
    sl_ShouldSendSnapShot : bool }.
Arguments mkSendLogArgs {D}.
Arguments sl_Term {D}.
Arguments sl_LeaderId {D}.
Arguments sl_PrevLogIndex {D}.
Arguments sl_PrevLogTerm {D}.
Arguments sl_Entries {D}.
Arguments sl_LeaderCommit {D}.
Arguments sl_MsgType {D}.
Arguments sl_ShouldSendSnapShot {D}.

Record SendLogReply := mkSendLogReply
  { slr_Term : Z; slr_Success : bool; slr_SavedLogIndex : Z }.

Record RequestVoteArgs := mkRequestVoteArgs
  { rv_Term : Z; rv_CandidateId : Z; rv_LastLogIndex : Z; rv_LastLogTerm : Z }.

Record RequestVoteReply := mkRequestVoteReply
  { rvr_Term : Z; rvr_VoteGranted : bool }.

Record RequestSnapShotArgs := mkRequestSnapShotArgs
  { rs_Term : Z;
    rs_LeaderId : Z;
    rs_LastIncludedIndex : Z;
    rs_LastIncludedTerm : Z;
    rs_Offset : Z;
    rs_Data : bytes;
    rs_Done : bool }.

Record RequestSnapShotReply := mkRequestSnapShotReply { rsr_Term : Z }.

(** ** raft.go: messages to the service and roles *)

Record ApplyMsg (D : Type) := mkApplyMsg
  { am_CommandValid : bool;
    am_Command : option D;
    am_CommandIndex : Z;
    am_SnapshotValid : bool;
    am_Snapshot : bytes;
    am_SnapshotTerm : Z;
    am_SnapshotIndex : Z }.
Arguments mkApplyMsg {D}.
Arguments am_CommandValid {D}.
Arguments am_Command {D}.
Arguments am_CommandIndex {D}.
Arguments am_SnapshotValid {D}.
Arguments am_Snapshot {D}.
Arguments am_SnapshotTerm {D}.
Arguments am_SnapshotIndex {D}.

Inductive ServerState := UnknownState | Leader | Follower | Candidate.

#[global] Instance ServerState_eq_dec : EqDecision ServerState.
Proof. solve_decision. Defined.

Definition is_state (s t : ServerState) : bool := bool_decide (s = t).

(** ** persister.go

    [ReadRaftState] and [ReadSnapshot] return copies and [Save] stores copies,
    so that no reference to the stored bytes escapes: values suffice. *)

Record Persister := mkPersister { ps_raftstate : bytes; ps_snapshot : bytes }.

Definition MakePersister : Persister := mkPersister [] [].

Definition clone (orig : bytes) : bytes := orig.

Definition Copy (ps : Persister) : Persister :=
  mkPersister (ps_raftstate ps) (ps_snapshot ps).

Definition ReadRaftState (ps : Persister) : bytes := clone (ps_raftstate ps).

Definition RaftStateSize (ps : Persister) : Z := Z.of_nat (length (ps_raftstate ps)).

Definition Save (raftstate snapshot : bytes) (ps : Persister) : Persister :=
  mkPersister (clone raftstate) (clone snapshot).

Definition ReadSnapshot (ps : Persister) : bytes := clone (ps_snapshot ps).

Definition SnapshotSize (ps : Persister) : Z := Z.of_nat (length (ps_snapshot ps)).

(** ** The encoder

    labgob wraps encoding/gob.  [enc_state t v l] is the content of the buffer
    after the three Encode calls of persist; [dec_state] is the three Decode
    calls of readPersist, [None] when one of them returns an error.  What the
    code relies on: decoding an encoding gives the values back, and an
    encoding is not empty. *)

Class LabGob (D : Type) :=
  { enc_state : Z -> Z -> list (LogEntry D) -> bytes;
    dec_state : bytes -> option (Z * Z * list (LogEntry D)) }.

Class LabGobOk (D : Type) `{LabGob D} : Prop :=
  { dec_enc : forall t v l, dec_state (enc_state t v l) = Some (t, v, l);
    enc_nonempty : forall t v l, enc_state t v l <> [] }.

(** ** The peer object of raft.go

    The mutexes and condition variables are not fields: every operation below
    is one critical section of [rf.mu].  [applyCh] is the output of the
    operations that send on it. *)

Record Raft (D : Type) := mkRaft
  { peers : nat;  (* len(rf.peers), the number of servers *)
    me : Z;  (* this peer's index into peers *)
    persister : Persister;  (* the persisted state *)
    dead : Z;  (* set by Kill, an int32 flag *)
    applySignals : nat;  (* Signal calls made on applyCond so far *)
    state : ServerState;  (* role *)
    startElectionTime : Z;  (* last reset of the election timer, in ms *)
    electionInterval : Z;  (* length of the election timer, in ms *)
    currentTerm : Z;  (* current term *)
    voteFor : Z;  (* candidate voted for in currentTerm, -1 for none *)
    log : list (LogEntry D);  (* dummy entry followed by the live suffix *)
    snapshot : bytes;  (* service snapshot *)
    commitIndex : Z;  (* highest index known committed *)
    lastApplied : Z;  (* highest index handed to the service *)
    nextIndex : list Z;  (* per peer, next index to send *)
    matchIndex : list Z }.  (* per peer, highest index known replicated *)
Arguments mkRaft {D}.
Arguments peers {D}.
Arguments me {D}.
Arguments persister {D}.
Arguments dead {D}.
Arguments applySignals {D}.
Arguments state {D}.
Arguments startElectionTime {D}.
Arguments electionInterval {D}.
Arguments currentTerm {D}.
Arguments voteFor {D}.
Arguments log {D}.
Arguments snapshot {D}.
Arguments commitIndex {D}.
Arguments lastApplied {D}.
Arguments nextIndex {D}.
Arguments matchIndex {D}.

(** Field updates, one per field the code assigns. *)

Section Setters.
Context {D : Type}.

Definition set_persister (x : Persister) (rf : Raft D) : Raft D :=
   mkRaft (peers rf) (me rf) x (dead rf) (applySignals rf) (state rf) (startElectionTime rf)
    (electionInterval rf) (currentTerm rf) (voteFor rf) (log rf) (snapshot rf)
    (commitIndex rf) (lastApplied rf) (nextIndex rf) (matchIndex rf).
Definition set_dead (x : Z) (rf : Raft D) : Raft D :=
   mkRaft (peers rf) (me rf) (persister rf) x (applySignals rf) (state rf)
    (startElectionTime rf) (electionInterval rf) (currentTerm rf) (voteFor rf) (log rf)
    (snapshot rf) (commitIndex rf) (lastApplied rf) (nextIndex rf) (matchIndex rf).
Definition set_applySignals (x : nat) (rf : Raft D) : Raft D :=
   mkRaft (peers rf) (me rf) (persister rf) (dead rf) x (state rf) (startElectionTime rf)
    (electionInterval rf) (currentTerm rf) (voteFor rf) (log rf) (snapshot rf)
    (commitIndex rf) (lastApplied rf) (nextIndex rf) (matchIndex rf).
Definition set_state (x : ServerState) (rf : Raft D) : Raft D :=
   mkRaft (peers rf) (me rf) (persister rf) (dead rf) (applySignals rf) x
    (startElectionTime rf) (electionInterval rf) (currentTerm rf) (voteFor rf) (log rf)
    (snapshot rf) (commitIndex rf) (lastApplied rf) (nextIndex rf) (matchIndex rf).
Definition set_startElectionTime (x : Z) (rf : Raft D) : Raft D :=
   mkRaft (peers rf) (me rf) (persister rf) (dead rf) (applySignals rf) (state rf) x
    (electionInterval rf) (currentTerm rf) (voteFor rf) (log rf) (snapshot rf)
    (commitIndex rf) (lastApplied rf) (nextIndex rf) (matchIndex rf).
Definition set_electionInterval (x : Z) (rf : Raft D) : Raft D :=
   mkRaft (peers rf) (me rf) (persister rf) (dead rf) (applySignals rf) (state rf)
    (startElectionTime rf) x (currentTerm rf) (voteFor rf) (log rf) (snapshot rf)
    (commitIndex rf) (lastApplied rf) (nextIndex rf) (matchIndex rf).
Definition set_currentTerm (x : Z) (rf : Raft D) : Raft D :=
   mkRaft (peers rf) (me rf) (persister rf) (dead rf) (applySignals rf) (state rf)
    (startElectionTime rf) (electionInterval rf) x (voteFor rf) (log rf) (snapshot rf)
    (commitIndex rf) (lastApplied rf) (nextIndex rf) (matchIndex rf).
Definition set_voteFor (x : Z) (rf : Raft D) : Raft D :=
   mkRaft (peers rf) (me rf) (persister rf) (dead rf) (applySignals rf) (state rf)
    (startElectionTime rf) (electionInterval rf) (currentTerm rf) x (log rf) (snapshot rf)
    (commitIndex rf) (lastApplied rf) (nextIndex rf) (matchIndex rf).
Definition set_log (x : list (LogEntry D)) (rf : Raft D) : Raft D :=
   mkRaft (peers rf) (me rf) (persister rf) (dead rf) (applySignals rf) (state rf)
    (startElectionTime rf) (electionInterval rf) (currentTerm rf) (voteFor rf) x
    (snapshot rf) (commitIndex rf) (lastApplied rf) (nextIndex rf) (matchIndex rf).
Definition set_snapshot (x : bytes) (rf : Raft D) : Raft D :=
   mkRaft (peers rf) (me rf) (persister rf) (dead rf) (applySignals rf) (state rf)
    (startElectionTime rf) (electionInterval rf) (currentTerm rf) (voteFor rf) (log rf) x
    (commitIndex rf) (lastApplied rf) (nextIndex rf) (matchIndex rf).
Definition set_commitIndex (x : Z) (rf : Raft D) : Raft D :=
   mkRaft (peers rf) (me rf) (persister rf) (dead rf) (applySignals rf) (state rf)
    (startElectionTime rf) (electionInterval rf) (currentTerm rf) (voteFor rf) (log rf)
    (snapshot rf) x (lastApplied rf) (nextIndex rf) (matchIndex rf).
Definition set_lastApplied (x : Z) (rf : Raft D) : Raft D :=
   mkRaft (peers rf) (me rf) (persister rf) (dead rf) (applySignals rf) (state rf)
    (startElectionTime rf) (electionInterval rf) (currentTerm rf) (voteFor rf) (log rf)
    (snapshot rf) (commitIndex rf) x (nextIndex rf) (matchIndex rf).
Definition set_nextIndex (x : list Z) (rf : Raft D) : Raft D :=
   mkRaft (peers rf) (me rf) (persister rf) (dead rf) (applySignals rf) (state rf)
    (startElectionTime rf) (electionInterval rf) (currentTerm rf) (voteFor rf) (log rf)
    (snapshot rf) (commitIndex rf) (lastApplied rf) x (matchIndex rf).
Definition set_matchIndex (x : list Z) (rf : Raft D) : Raft D :=
   mkRaft (peers rf) (me rf) (persister rf) (dead rf) (applySignals rf) (state rf)
    (startElectionTime rf) (electionInterval rf) (currentTerm rf) (voteFor rf) (log rf)
    (snapshot rf) (commitIndex rf) (lastApplied rf) (nextIndex rf) x.

End Setters.
(** ** A concrete encoder

    Shows that the interface above can be met: integers are written one after
    the other, an entry as its term, its index, a tag for nil and its data. *)

Module ListGob.

Definition enc_entry (e : LogEntry Z) : bytes :=
  [le_Term e; le_Index e]
    ++ match le_Data e with None => [0; 0] | Some d => [1; d] end.

Definition enc (t v : Z) (l : list (LogEntry Z)) : bytes :=
  t :: v :: concat (map enc_entry l).

Fixpoint dec_entries (bs : bytes) : option (list (LogEntry Z)) :=
  match bs with
  | [] => Some []
  | t :: i :: tag :: d :: rest =>
      l ← dec_entries rest;
      Some (mkLogEntry t i (if tag =? 0 then None else Some d) :: l)
  | _ => None
  end.

Definition dec (bs : bytes) : option (Z * Z * list (LogEntry Z)) :=
  match bs with
  | t :: v :: rest => l ← dec_entries rest; Some (t, v, l)
  | _ => None
  end.

#[export] Instance gob : LabGob Z := { enc_state := enc; dec_state := dec }.

Lemma dec_entries_enc (l : list (LogEntry Z)) :
  dec_entries (concat (map enc_entry l)) = Some l.
Proof.
  induction l as [|[t i d] l IH]; [done|].
  cbn [map concat]. destruct d as [d|]; cbn; by rewrite IH.
Qed.

#[export] Instance gob_ok : LabGobOk Z.
Proof.
  split; [|done]. intros t v l. cbn. by rewrite dec_entries_enc.
Qed.

End ListGob.
