(* ===== verification/RaftNode.v ===== *)
(** Operations of one Raft peer (src/src/raft/raft.go): every RPC handler,
    every critical section of the background goroutines, and the API the
    service calls.  Each definition is one critical section of [rf.mu]; the
    goroutines that span several critical sections are split at the points
    where they release the lock. *)
From Stdlib Require Import ZArith Lia.
From stdpp Require Import base list numbers.
From S2P Require Import Prelude RaftTypes.

(** What time.Now() (in ms) and rand.Intn(200) answer to one call of
    SetElectionTime; an operation reads [env 0], [env 1], ... in order. *)
Record Tick := mkTick { tk_now : Z; tk_rnd : Z }.
Definition Env := nat -> Tick.

Section Node.
Context {D : Type} `{LabGob D}.

Abbreviation RM := (M (Raft D)).

(** ** Timers, persistence *)

Definition SetElectionTime (tk : Tick) (interval : Z) : RM unit :=
  modify (set_startElectionTime (tk_now tk));;
  modify (set_electionInterval (tk_rnd tk + 150 + interval)).

Definition GetState : RM (Z * bool) :=
  term ← gets currentTerm;
  st ← gets state;
  mret (term, is_state st Leader).

Definition persist : RM unit :=
  term ← gets currentTerm;
  vote ← gets voteFor;
  lg ← gets log;
  snap ← gets snapshot;
  ps ← gets persister;
  modify (set_persister (Save (enc_state term vote lg) snap ps)).

Definition GetFirstLog : RM (LogEntry D) :=
  lg ← gets log; lift (go_idx lg 0).

Definition GetLastLog : RM (LogEntry D) :=
  lg ← gets log; lift (go_idx lg (Z.of_nat (length lg) - 1)).

(** [rf.log[index - rf.GetFirstLog().Index]] *)
Definition logAt (index : Z) : RM (LogEntry D) :=
  first ← GetFirstLog;
  lg ← gets log; lift (go_idx lg (index - le_Index first)).

Definition readPersist (data : bytes) : RM unit :=
  if Z.of_nat (length data) <? 1 then mret tt
  else match dec_state data with
       | None => mret tt
       | Some (term, vote, lg) =>
           modify (set_currentTerm term);;
           modify (set_voteFor vote);;
           modify (set_log lg);;
           first ← GetFirstLog;
           modify (set_lastApplied (le_Index first));;
           modify (set_commitIndex (le_Index first))
       end.

Definition applySignal : RM unit :=
  n ← gets applySignals; modify (set_applySignals (S n)).

(** ** Term changes *)

Definition AddCurrentTerm (tk : Tick) (term : Z) : RM unit :=
  cur ← gets currentTerm;
  if term <=? cur then mret tt
  else
    modify (set_currentTerm term);;
    modify (set_state Follower);;
    modify (set_voteFor (-1));;
    SetElectionTime tk 0;;
    persist.

(** ** Snapshot: the service trims the log *)

Definition Snapshot (index : Z) (snap : bytes) : RM unit :=
  firstLog ← GetFirstLog;
  lastLog ← GetLastLog;
  if index <=? le_Index firstLog then mret tt
  else if le_Index lastLog <? index then mret tt
  else
    lg ← gets log;
    at_index ← lift (go_idx lg (index - le_Index firstLog));
    tail ← lift (go_from lg (index - le_Index firstLog + 1));
    modify (set_log (mkLogEntry (le_Term at_index) (le_Index at_index) None :: tail));;
    modify (set_snapshot snap);;
    persist.

(** ** RequestVote *)

(** The body, before the deferred function; its result is reply.VoteGranted. *)
Definition RequestVote_body (env : Env) (args : RequestVoteArgs) : RM bool :=
  cur ← gets currentTerm;
  if rv_Term args <? cur then mret false
  else
    when (cur <? rv_Term args) (AddCurrentTerm (env 0%nat) (rv_Term args));;
    cur ← gets currentTerm;
    vote ← gets voteFor;
    if (rv_Term args =? cur) && (vote =? rv_CandidateId args) then
      modify (set_voteFor (rv_CandidateId args));; mret true
    else if negb (vote =? -1) then mret false
    else
      lg ← gets log;
      local ← (if negb (Z.of_nat (length lg) =? 0)
               then l ← GetLastLog; mret (le_Index l, le_Term l)
               else mret (-1, -1));
      let '(localLastIndex, localLastTerm) := local in
      if (localLastTerm <? rv_LastLogTerm args)
         || ((rv_LastLogTerm args =? localLastTerm)
             && (localLastIndex <=? rv_LastLogIndex args))
      then modify (set_voteFor (rv_CandidateId args));; mret true
      else mret false.

Definition RequestVote (env : Env) (args : RequestVoteArgs) : RM RequestVoteReply :=
  replyTerm ← gets currentTerm;
  granted ← RequestVote_body env args;
  when granted (SetElectionTime (env 1%nat) 300;; modify (set_state Follower);; persist);;
  mret (mkRequestVoteReply replyTerm granted).

(** ** RequestHeartBeat *)

Definition RequestHeartBeat (env : Env) (args : HeartBeatArgs) : RM HeartBeatReply :=
  replyTerm ← gets currentTerm;
  let reply := mkHeartBeatReply replyTerm in
  if hb_Term args <? replyTerm then mret reply
  else
    st ← gets state;
    when ((hb_Term args =? replyTerm) && is_state st Candidate)
      (modify (set_state Follower));;
    cur ← gets currentTerm;
    if cur <? hb_Term args then
      AddCurrentTerm (env 0%nat) (hb_Term args);; mret reply
    else
      SetElectionTime (env 0%nat) 200;; mret reply.

(** ** RequestInstallSnapShot

    The second component of the result is the argument of the goroutine that
    delivers the snapshot to the service, when one is started. *)

Definition snapshot_covered (args : RequestSnapShotArgs) : RM bool :=
  first ← GetFirstLog;
  if rs_LastIncludedIndex args <=? le_Index first then mret true
  else
    last ← GetLastLog;
    if rs_LastIncludedIndex args <=? le_Index last then
      e ← logAt (rs_LastIncludedIndex args);
      mret (le_Term e =? rs_LastIncludedTerm args)
    else mret false.

Definition snapshot_conflicts (args : RequestSnapShotArgs) : RM bool :=
  last ← GetLastLog;
  if le_Index last <? rs_LastIncludedIndex args then mret true
  else
    e ← logAt (rs_LastIncludedIndex args);
    mret ((rs_LastIncludedIndex args <=? le_Index last)
          && negb (le_Term e =? rs_LastIncludedTerm args)).

Definition RequestInstallSnapShot_body (env : Env) (args : RequestSnapShotArgs)
    : RM (option (Z * Z)) :=
  cur ← gets currentTerm;
  if rs_Term args <? cur then mret None
  else
    when (cur <? rs_Term args) (AddCurrentTerm (env 0%nat) (rs_Term args));;
    st ← gets state;
    when (is_state st Candidate) (modify (set_state Follower));;
    covered ← snapshot_covered args;
    if covered : bool then mret None
    else
      conflicts ← snapshot_conflicts args;
      if conflicts : bool then
        modify (set_log [mkLogEntry (rs_LastIncludedTerm args)
                                    (rs_LastIncludedIndex args) None]);;
        modify (set_snapshot (rs_Data args));;
        SetElectionTime (env 1%nat) 200;;
        mret (Some (rs_LastIncludedIndex args, rs_LastIncludedTerm args))
      else mret None.

Definition RequestInstallSnapShot (env : Env) (args : RequestSnapShotArgs)
    : RM (RequestSnapShotReply * option (Z * Z)) :=
  replyTerm ← gets currentTerm;
  spawned ← RequestInstallSnapShot_body env args;
  persist;;
  mret (mkRequestSnapShotReply replyTerm, spawned).

(** The goroutine, after its send on applyCh: what it does under [rf.mu]. *)
Definition installSnapshotDone (lastIncludedIndex : Z) : RM unit :=
  applied ← gets lastApplied;
  when (applied <? lastIncludedIndex) (modify (set_lastApplied lastIncludedIndex));;
  commit ← gets commitIndex;
  when (commit <? lastIncludedIndex)
    (modify (set_commitIndex lastIncludedIndex);; applySignal).

(** ** RequestSendLog (AppendEntries) *)

(** [for firstBig ...]: the entries from the first one whose index is above
    [first]; all of them when there is none. *)
Fixpoint cut_entries (first : Z) (entries : list (LogEntry D)) : option (list (LogEntry D)) :=
  match entries with
  | [] => None
  | e :: rest => if first <? le_Index e then Some entries else cut_entries first rest
  end.

(** Lines 445-464: [None] when the handler has already answered success,
    otherwise the adjusted PrevLogIndex, PrevLogTerm and Entries. *)
Definition adjust_args (args : SendLogArgs D)
    : RM (option (Z * Z * list (LogEntry D))) :=
  first ← GetFirstLog;
  if (sl_PrevLogIndex args <? le_Index first)
     && (0 <? Z.of_nat (length (sl_Entries args))) then
    argsLast ← lift (go_idx (sl_Entries args) (Z.of_nat (length (sl_Entries args)) - 1));
    if le_Index argsLast <=? le_Index first then mret None
    else
      let entries := default (sl_Entries args)
                       (cut_entries (le_Index first) (sl_Entries args)) in
      mret (Some (le_Index first, le_Term first, entries))
  else mret (Some (sl_PrevLogIndex args, sl_PrevLogTerm args, sl_Entries args)).

(** Lines 480-486: append unless the last entry sent is already there. *)
Definition append_entries (prevIndex : Z) (entries : list (LogEntry D)) : RM unit :=
  if 0 <? Z.of_nat (length entries) then
    argsLast ← lift (go_idx entries (Z.of_nat (length entries) - 1));
    last ← GetLastLog;
    present ← (if le_Index argsLast <=? le_Index last
               then e ← logAt (le_Index argsLast); mret (le_Term e =? le_Term argsLast)
               else mret false);
    if present : bool then mret tt
    else
      first ← GetFirstLog;
      lg ← gets log;
      kept ← lift (go_to lg (prevIndex - le_Index first + 1));
      modify (set_log (kept ++ entries))
  else mret tt.

(** Lines 490-497 *)
Definition follower_commit (leaderCommit : Z) : RM unit :=
  commit ← gets commitIndex;
  if commit <? leaderCommit then
    last ← GetLastLog;
    let newCommitIndex :=
      Z.min (float64_of_int leaderCommit) (float64_of_int (le_Index last)) in
    when (commit <? newCommitIndex)
      (modify (set_commitIndex newCommitIndex);; applySignal)
  else mret tt.

(** The body before the deferred function; its result is reply.Success. *)
Definition RequestSendLog_body (env : Env) (args : SendLogArgs D) : RM bool :=
  cur ← gets currentTerm;
  if sl_Term args <? cur then mret false
  else
    when (cur <? sl_Term args) (AddCurrentTerm (env 0%nat) (sl_Term args));;
    last ← GetLastLog;
    if le_Index last <? sl_PrevLogIndex args then mret false
    else
      adjusted ← adjust_args args;
      match adjusted with
      | None => mret true
      | Some (prevIndex, prevTerm, entries) =>
          first ← GetFirstLog;
          mismatch ← (if le_Index first <? prevIndex
                      then e ← logAt prevIndex; mret (negb (le_Term e =? prevTerm))
                      else mret false);
          if mismatch : bool then mret false
          else
            st ← gets state;
            when (is_state st Candidate) (modify (set_state Follower));;
            append_entries prevIndex entries;;
            persist;;
            follower_commit (sl_LeaderCommit args);;
            mret true
      end.

Definition RequestSendLog (env : Env) (args : SendLogArgs D) : RM SendLogReply :=
  success ← RequestSendLog_body env args;
  cur ← gets currentTerm;
  when (cur <=? sl_Term args) (SetElectionTime (env 1%nat) 200);;
  mret (mkSendLogReply cur success 0).

(** ** Start: the service submits a command

    Besides its result, Start spawns one run of sendLogTicketCore. *)

Definition Start (command : D) : RM (Z * Z * bool) :=
  st ← gets state;
  if negb (is_state st Leader) then
    cur ← gets currentTerm; mret (0, cur, false)
  else
    cur ← gets currentTerm;
    last ← GetLastLog;
    let entry := mkLogEntry cur (le_Index last + 1) (Some command) in
    lg ← gets log;
    modify (set_log (lg ++ [entry]));;
    self ← gets me;
    mi ← gets matchIndex;
    mi' ← lift (go_set mi self (le_Index entry));
    modify (set_matchIndex mi');;
    persist;;
    mret (le_Index entry, le_Term entry, true).

Definition Kill : RM unit := modify (set_dead 1).

Definition killed : RM bool := z ← gets dead; mret (z =? 1).

(** ** heartBeat (no longer started by Make): what one round sends *)

Definition heartBeat_round : RM (list (Z * HeartBeatArgs)) :=
  st ← gets state;
  self ← gets me;
  cur ← gets currentTerm;
  n ← gets peers;
  if is_state st Leader
  then mret ((fun i => (i, mkHeartBeatArgs cur self)) <$>
               filter (fun i => negb (i =? self)) (range n))
  else mret [].

(** ** Advancing commitIndex on the leader

    The loop of lines 742-779 and, identically, of lines 985-1007.  [fuel] is
    the number of iterations still allowed; the callers pass the number of
    indices above commitIndex. *)

Definition matchCount (mi : list Z) (index : Z) : Z :=
  Z.of_nat (length (filter (fun m => index <=? m) mi)).

Fixpoint advanceCommit_loop (fuel : nat) (beginIndex : Z) : RM unit :=
  match fuel with
  | O => mret tt
  | S fuel' =>
      last ← GetLastLog;
      if beginIndex <=? le_Index last then
        mi ← gets matchIndex;
        n ← gets peers;
        if matchCount mi beginIndex <=? Z.of_nat n ÷ 2 then mret tt
        else
          commit ← gets commitIndex;
          (if commit <? beginIndex then
             cur ← gets currentTerm;
             e ← logAt beginIndex;
             when (cur =? le_Term e) (modify (set_commitIndex beginIndex);; applySignal)
           else mret tt);;
          advanceCommit_loop fuel' (beginIndex + 1)
      else mret tt
  end.

Definition advanceCommit : RM unit :=
  last ← GetLastLog;
  commit ← gets commitIndex;
  advanceCommit_loop (Z.to_nat (le_Index last - commit)) (commit + 1).

(** ** sendSnapShot *)

(** What the goroutine remembers between its two critical sections. *)
Record SnapCtx := mkSnapCtx
  { sc_leaderTerm : Z; sc_nextIndex : Z; sc_matchIndex : Z; sc_lastLogIndex : Z }.

Definition sendSnapShot_begin (peer : Z) : RM (option (RequestSnapShotArgs * SnapCtx)) :=
  st ← gets state;
  if negb (is_state st Leader) then mret None
  else
    cur ← gets currentTerm;
    ni ← gets nextIndex;
    sendNextIndex ← lift (go_idx ni peer);
    mi ← gets matchIndex;
    sendMatchIndex ← lift (go_idx mi peer);
    first ← GetFirstLog;
    self ← gets me;
    snap ← gets snapshot;
    mret (Some (mkRequestSnapShotArgs cur self (le_Index first) (le_Term first) 0 snap true,
                mkSnapCtx cur sendNextIndex sendMatchIndex (le_Index first))).

Definition sendSnapShot_reply (env : Env) (peer : Z) (ctx : SnapCtx)
    (reply : RequestSnapShotReply) : RM unit :=
  cur ← gets currentTerm;
  if cur <? rsr_Term reply then AddCurrentTerm (env 0%nat) (rsr_Term reply)
  else
    st ← gets state;
    if is_state st Leader && (cur =? sc_leaderTerm ctx) then
      ni ← gets nextIndex;
      next ← lift (go_idx ni peer);
      (if (next =? sc_nextIndex ctx) && (next <? sc_lastLogIndex ctx + 1) then
         ni' ← lift (go_set ni peer (sc_lastLogIndex ctx + 1));
         modify (set_nextIndex ni')
       else mret tt);;
      mi ← gets matchIndex;
      mtch ← lift (go_idx mi peer);
      (if (mtch =? sc_matchIndex ctx) && (mtch <? sc_lastLogIndex ctx) then
         mi' ← lift (go_set mi peer (sc_lastLogIndex ctx));
         modify (set_matchIndex mi')
       else mret tt);;
      advanceCommit
    else mret tt.

(** ** sendLogTicketCore *)

Definition zeroSendLogArgs : SendLogArgs D :=
  mkSendLogArgs 0 0 0 0 [] 0 UnKnowMgsType false.

(** One iteration of the loop of lines 858-918: the arguments for peer [i] and
    recodeNextIndex[i]. *)
Definition prepareSendLog (i : Z) : RM (SendLogArgs D * Z) :=
  self ← gets me;
  if i =? self then mret (zeroSendLogArgs, 0)
  else
    first ← GetFirstLog;
    ni ← gets nextIndex;
    next ← (if negb (le_Term first =? -1) then lift (go_idx ni i) else mret 0);
    if negb (le_Term first =? -1) && (next <=? le_Index first) then
      mret (mkSendLogArgs 0 0 0 0 [] 0 UnKnowMgsType true, 0)
    else
      next ← lift (go_idx ni i);
      (if (le_Term first =? -1) && (next =? le_Index first) then
         ni' ← lift (go_set ni i (le_Index first + 1)); modify (set_nextIndex ni')
       else mret tt);;
      ni ← gets nextIndex;
      next ← lift (go_idx ni i);
      (if next <? 0 then ni' ← lift (go_set ni i 0); modify (set_nextIndex ni')
       else mret tt);;
      cur ← gets currentTerm;
      ni ← gets nextIndex;
      next ← lift (go_idx ni i);
      lg ← gets log;
      preLog ← lift (go_idx lg (next - le_Index first - 1));
      entries ← lift (go_from lg (next - le_Index first));
      commit ← gets commitIndex;
      let msgType := if Z.of_nat (length entries) =? 0 then HeartBeatMsgType else LogMsgType in
      mret (mkSendLogArgs cur self (le_Index preLog) (le_Term preLog) entries commit
              msgType false, next).

(** The critical section: nothing unless leader, otherwise one element per peer. *)
Definition sendLogTicketCore_begin : RM (option (list (SendLogArgs D * Z))) :=
  st ← gets state;
  if negb (is_state st Leader) then mret None
  else
    n ← gets peers;
    l ← m_map prepareSendLog (range n);
    mret (Some l).

(** Lines 1034-1038: walk back over the entries that have the term found at
    [back].  [fuel] bounds the iterations. *)
Fixpoint backoff_loop (fuel : nat) (lg : list (LogEntry D)) (first nowNextTerm back : Z)
    : res Z :=
  match fuel with
  | O => Ret back
  | S fuel' =>
      if first <=? back then
        match go_idx lg (back - first) with
        | Ret e => if le_Term e =? nowNextTerm
                   then backoff_loop fuel' lg first nowNextTerm (back - 1)
                   else Ret back
        | Panic => Panic
        end
      else Ret back
  end.

(** Lines 1012-1042: the follower refused. *)
Definition backoff (i recodeNextIndex : Z) : RM unit :=
  ni ← gets nextIndex;
  next ← lift (go_idx ni i);
  if next =? recodeNextIndex then
    let backNextIndex := next - 1 in
    first ← GetFirstLog;
    if backNextIndex <=? le_Index first then
      ni' ← lift (go_set ni i (le_Index first)); modify (set_nextIndex ni')
    else
      last ← GetLastLog;
      let back := if le_Index last <? backNextIndex then le_Index last else backNextIndex in
      e ← logAt back;
      lg ← gets log;
      back' ← lift (backoff_loop (Z.to_nat (back - le_Index first + 1)) lg
                      (le_Index first) (le_Term e) back);
      ni' ← lift (go_set ni i (back' + 1)); modify (set_nextIndex ni')
  else mret tt.

(** Lines 974-1010: the follower stored [toSendEntries]. *)
Definition onSendLogSuccess (i : Z) (toSendEntries : list (LogEntry D)) : RM unit :=
  if 0 <? Z.of_nat (length toSendEntries) then
    lastEntry ← lift (go_idx toSendEntries (Z.of_nat (length toSendEntries) - 1));
    mi ← gets matchIndex;
    mtch ← lift (go_idx mi i);
    (if mtch <? le_Index lastEntry then
       mi' ← lift (go_set mi i (le_Index lastEntry)); modify (set_matchIndex mi')
     else mret tt);;
    ni ← gets nextIndex;
    next ← lift (go_idx ni i);
    (if next <? le_Index lastEntry + 1 then
       ni' ← lift (go_set ni i (le_Index lastEntry + 1)); modify (set_nextIndex ni')
     else mret tt);;
    advanceCommit
  else mret tt.

(** The goroutine after its RPC returned [ok = true]. *)
Definition sendLog_reply (env : Env) (i : Z) (args : SendLogArgs D)
    (recodeNextIndex : Z) (reply : SendLogReply) : RM unit :=
  cur ← gets currentTerm;
  if cur <? slr_Term reply then AddCurrentTerm (env 0%nat) (slr_Term reply)
  else
    st ← gets state;
    if is_state st Leader && (cur =? sl_Term args) then
      if slr_Success reply
      then onSendLogSuccess i (sl_Entries args)
      else backoff i recodeNextIndex
    else mret tt.

(** ** ticker *)

(** The first critical section: start an election when the timer has run out. *)
Definition ticker_begin (now : Z) (env : Env) : RM (option RequestVoteArgs) :=
  start ← gets startElectionTime;
  interval ← gets electionInterval;
  st ← gets state;
  if (interval <? now - start) && (is_state st Follower || is_state st Candidate) then
    SetElectionTime (env 0%nat) 600;;
    cur ← gets currentTerm;
    modify (set_currentTerm (cur + 1));;
    modify (set_state Candidate);;
    self ← gets me;
    modify (set_voteFor self);;
    persist;;
    cur ← gets currentTerm;
    lg ← gets log;
    if Z.of_nat (length lg) =? 0 then
      mret (Some (mkRequestVoteArgs cur self (-1) (-1)))
    else
      tempLog ← lift (go_idx lg (Z.of_nat (length lg) - 1));
      mret (Some (mkRequestVoteArgs cur self (le_Index tempLog) (le_Term tempLog)))
  else mret None.

(** The variables the goroutines of one election share. *)
Record Tally := mkTally { finishRequest : Z; voteCount : Z; rpcFailCount : Z }.

Definition tally0 : Tally := mkTally 1 1 0.

(** A vote RPC has returned; [None] is [ok = false]. *)
Definition onVoteReply (env : Env) (reply : option RequestVoteReply) (t : Tally) : RM Tally :=
  match reply with
  | Some r =>
      let t' := mkTally (finishRequest t + 1)
                        (if rvr_VoteGranted r then voteCount t + 1 else voteCount t)
                        (rpcFailCount t) in
      cur ← gets currentTerm;
      when (cur <? rvr_Term r) (AddCurrentTerm (env 0%nat) (rvr_Term r));;
      mret t'
  | None => mret (mkTally (finishRequest t + 1) (voteCount t) (rpcFailCount t + 1))
  end.

(** Line 1147: keep waiting. *)
Definition keepWaiting (n : nat) (t : Tally) : bool :=
  (voteCount t <=? Z.of_nat n ÷ 2)
  && (finishRequest t <? Z.of_nat n)
  && (Z.of_nat n ÷ 2 <? voteCount t + (Z.of_nat n - finishRequest t)).

Definition resetRaftIndex : RM unit :=
  ni ← gets nextIndex;
  m_for (range (length ni)) (fun i =>
    lg ← gets log;
    e ← (if Z.of_nat (length lg) =? 1 then lift (go_idx lg 0)
         else lift (go_idx lg (Z.of_nat (length lg) - 1)));
    ni ← gets nextIndex;
    ni' ← lift (go_set ni i (le_Index e + 1));
    modify (set_nextIndex ni');;
    mi ← gets matchIndex;
    mi' ← lift (go_set mi i 0);
    modify (set_matchIndex mi');;
    self ← gets me;
    if i =? self then
      last ← GetLastLog;
      mi ← gets matchIndex;
      mi' ← lift (go_set mi i (le_Index last));
      modify (set_matchIndex mi')
    else mret tt).

(** Lines 1154-1160 *)
Definition ticker_decide (args : RequestVoteArgs) (t : Tally) : RM unit :=
  cur ← gets currentTerm;
  st ← gets state;
  n ← gets peers;
  if (cur =? rv_Term args) && is_state st Candidate then
    if Z.of_nat n ÷ 2 <? voteCount t then
      modify (set_state Leader);; resetRaftIndex
    else mret tt
  else mret tt.

(** ** applyTicket *)

(** Line 791: the condition under which applyTicket waits. *)
Definition applyTicket_waits : RM bool :=
  applied ← gets lastApplied;
  commit ← gets commitIndex;
  if commit <=? applied then mret true
  else first ← GetFirstLog; mret (applied <? le_Index first).

(** Lines 800-807: the entries to hand to the service. *)
Definition applyTicket_collect : RM (list (LogEntry D)) :=
  applied ← gets lastApplied;
  commit ← gets commitIndex;
  m_map (fun k => logAt (applied + 1 + k)) (range (Z.to_nat (commit - applied))).

(** Lines 816-823, under applySeqMu: wait for the predecessor of the batch to be
    applied, skip the batch when a snapshot has overtaken it, or send it. *)
Inductive Gate := GateWait | GateSkip | GateSend.

Definition applyTicket_gate (batch : list (LogEntry D)) : RM Gate :=
  firstLog ← lift (go_idx batch 0);
  applied ← gets lastApplied;
  if negb (le_Index firstLog =? applied + 1) && (applied <? le_Index firstLog)
  then mret GateWait
  else if le_Index firstLog <=? applied then mret GateSkip
  else mret GateSend.

Definition commandMsg (e : LogEntry D) : ApplyMsg D :=
  mkApplyMsg true (le_Data e) (le_Index e) false [] 0 0.

Definition snapshotMsg (snap : bytes) (index term : Z) : ApplyMsg D :=
  mkApplyMsg false None 0 true snap term index.

(** Lines 838-841: after the batch has been sent. *)
Definition applyTicket_finish (batch : list (LogEntry D)) : RM unit :=
  match list.last batch with
  | Some e =>
      applied ← gets lastApplied;
      when (applied <? le_Index e) (modify (set_lastApplied (le_Index e)))
  | None => mret tt
  end.

Definition GetRaftStateSize : RM Z := ps ← gets persister; mret (RaftStateSize ps).

(** ** Make *)

Definition Make (n : nat) (self now : Z) (ps : Persister) : Raft D * res unit :=
  let rf := mkRaft n self ps 0 0 Follower now 0 0 (-1) [mkLogEntry (-1) 0 None] []
              0 0 (replicate n 0) (replicate n 0) in
  (readPersist (ReadRaftState ps);;
   modify (set_snapshot (ReadSnapshot ps));;
   resetRaftIndex) rf.

End Node.
