(* ===== verification/RaftVote.v ===== *)
(** Term, vote and persistence discipline of one peer: which term/vote changes
    each operation may make, and that what is on stable storage at the end of
    an operation is what the peer holds in memory. *)
From Stdlib Require Import ZArith Lia.
From stdpp Require Import base list numbers.
From S2P Require Import Prelude RaftTypes RaftNode.

Section Vote.
Context {D : Type} `{LabGob D}.
Implicit Types rf : Raft D.

(** ** Definitions *)

(** Terms only grow, a vote cast in a term is never changed within that term,
    and nothing but [ticker_decide] makes a leader. *)
Record vote_le rf rf' : Prop :=
  { vl_peers : peers rf' = peers rf;
    vl_me : me rf' = me rf;
    vl_term : currentTerm rf <= currentTerm rf';
    vl_vote : currentTerm rf' = currentTerm rf -> voteFor rf <> -1 ->
              voteFor rf' = voteFor rf;
    vl_leader : state rf' = Leader ->
                state rf = Leader /\ currentTerm rf' = currentTerm rf }.

(** Term, vote, log and snapshot as Make would read them back. *)
Definition recovered (ps : Persister) : Z * Z * list (LogEntry D) * bytes :=
  if Z.of_nat (length (ReadRaftState ps)) <? 1
  then (0, -1, [mkLogEntry (-1) 0 None], ReadSnapshot ps)
  else match dec_state (ReadRaftState ps) with
       | Some (t, v, l) => (t, v, l, ReadSnapshot ps)
       | None => (0, -1, [mkLogEntry (-1) 0 None], ReadSnapshot ps)
       end.

Definition persisted rf : Prop :=
  recovered (persister rf) = (currentTerm rf, voteFor rf, log rf, snapshot rf).

(** Everything a peer can be asked to do, as one type of operations. *)
Inductive NodeOp :=
| OpSnapshot (index : Z) (snap : bytes)
| OpRequestVote (args : RequestVoteArgs)
| OpRequestHeartBeat (args : HeartBeatArgs)
| OpRequestInstallSnapShot (args : RequestSnapShotArgs)
| OpInstallSnapshotDone (lastIncludedIndex : Z)
| OpRequestSendLog (args : SendLogArgs D)
| OpStart (command : D)
| OpKill
| OpSendSnapShot (peer : Z)
| OpSnapShotReply (peer : Z) (ctx : SnapCtx) (reply : RequestSnapShotReply)
| OpSendLogCore
| OpSendLogReply (peer : Z) (args : SendLogArgs D) (recode : Z) (reply : SendLogReply)
| OpTicker (now : Z)
| OpVoteReply (reply : option RequestVoteReply) (t : Tally)
| OpDecide (args : RequestVoteArgs) (t : Tally)
| OpApplyCollect
| OpApplyFinish (batch : list (LogEntry D)).

Definition ignore {S A : Type} (m : M S A) : M S unit := m;; mret tt.

Definition exec (env : Env) (op : NodeOp) : M (Raft D) unit :=
  match op with
  | OpSnapshot i s => Snapshot i s
  | OpRequestVote a => ignore (RequestVote env a)
  | OpRequestHeartBeat a => ignore (RequestHeartBeat env a)
  | OpRequestInstallSnapShot a => ignore (RequestInstallSnapShot env a)
  | OpInstallSnapshotDone i => installSnapshotDone i
  | OpRequestSendLog a => ignore (RequestSendLog env a)
  | OpStart c => ignore (Start c)
  | OpKill => Kill
  | OpSendSnapShot p => ignore (sendSnapShot_begin p)
  | OpSnapShotReply p c r => sendSnapShot_reply env p c r
  | OpSendLogCore => ignore sendLogTicketCore_begin
  | OpSendLogReply p a n r => sendLog_reply env p a n r
  | OpTicker now => ignore (ticker_begin now env)
  | OpVoteReply r t => ignore (onVoteReply env r t)
  | OpDecide a t => ticker_decide a t
  | OpApplyCollect => ignore applyTicket_collect
  | OpApplyFinish b => applyTicket_finish b
  end.

(** The part of a peer that elections and recovery depend on. *)
Definition core rf :=
  (peers rf, me rf, persister rf, state rf, currentTerm rf, voteFor rf, log rf, snapshot rf).

Definition core_eq rf rf' : Prop := core rf' = core rf.

(** ** Lemmas on [vote_le] *)

#[export] Instance core_eq_preorder : PreOrder core_eq.
Proof. split; unfold core_eq; [done|]. intros x y z ? ?; congruence. Qed.

#[export] Instance vote_le_preorder : PreOrder vote_le.
Proof.
  split.
  - intros rf. by split.
  - intros x y z [p1 m1 t1 v1 l1] [p2 m2 t2 v2 l2]. split; try congruence; [lia| |].
    + intros Ht Hv. rewrite v2; [apply v1; [lia|done]|lia|].
      rewrite v1; [done|lia|done].
    + intros Hl. destruct (l2 Hl) as [Hl' ?]. destruct (l1 Hl') as [? ?]. split; [done|lia].
Qed.

(** Assignments to fields other than term, vote and role, or stepping down. *)
Definition frame (f : Raft D -> Raft D) : Prop := forall rf, vote_le rf (f rf).

Lemma vote_le_down rf : vote_le rf (set_state Follower rf).
Proof. by split. Qed.

Lemma keeps_persist : keeps vote_le persist.
Proof. intros rf. by split. Qed.

Lemma keeps_SetElectionTime tk i : keeps vote_le (SetElectionTime tk i).
Proof. intros rf. by split. Qed.

Lemma keeps_AddCurrentTerm tk t : keeps vote_le (AddCurrentTerm tk t).
Proof.
  intros rf. unfold AddCurrentTerm, SetElectionTime, persist. m_exec.
  destruct (Z.leb_spec t (currentTerm rf)); [reflexivity|].
  split; simpl; try done; lia.
Qed.

(** Reading the log changes nothing. *)
Lemma keeps_GetFirstLog (R : relation (Raft D)) `{!PreOrder R} : keeps R GetFirstLog.
Proof. unfold GetFirstLog. keeps_auto. Qed.

Lemma keeps_GetLastLog (R : relation (Raft D)) `{!PreOrder R} : keeps R GetLastLog.
Proof. unfold GetLastLog. keeps_auto. Qed.

Lemma keeps_logAt (R : relation (Raft D)) `{!PreOrder R} i : keeps R (logAt i).
Proof.
  unfold logAt. apply keeps_bind; [apply _|by apply keeps_GetFirstLog|intros ?]. keeps_auto.
Qed.

End Vote.

#[export] Hint Resolve keeps_persist keeps_SetElectionTime keeps_AddCurrentTerm : keeps.
#[export] Hint Extern 1 (keeps _ GetFirstLog) => apply keeps_GetFirstLog; apply _ : keeps.
#[export] Hint Extern 1 (keeps _ GetLastLog) => apply keeps_GetLastLog; apply _ : keeps.
#[export] Hint Extern 1 (keeps _ (logAt _)) => apply keeps_logAt; apply _ : keeps.
(** a plain assignment to a field that [vote_le] does not restrict *)
#[export] Hint Extern 1 (keeps vote_le (modify _)) =>
  apply keeps_modify; intros ?; by split : keeps.

#[export] Hint Extern 1 (keeps core_eq (modify _)) =>
  apply keeps_modify; intros ?; reflexivity : keeps.

Section Ops.
Context {D : Type} `{LabGob D}.
Implicit Types rf : Raft D.

Lemma keeps_RequestVote_body env args : keeps vote_le (RequestVote_body env args).
Proof.
  unfold RequestVote_body. apply keeps_bind; [apply _|keeps_auto|intros cur].
  case_match; [keeps_auto|].
  apply keeps_bind; [apply _|keeps_auto|intros _]. intros rf.
  unfold GetLastLog. m_exec. repeat case_match; simplify_eq/=; zify_bool; try reflexivity.
  all: split; simpl; try done; try lia.
Qed.
#[local] Hint Resolve keeps_RequestVote_body : keeps.

Lemma keeps_append_entries p es : keeps vote_le (append_entries (D:=D) p es).
Proof. unfold append_entries. keeps_auto. Qed.

Lemma keeps_applySignal : keeps vote_le (applySignal (D:=D)).
Proof. unfold applySignal. keeps_auto. Qed.
#[local] Hint Resolve keeps_append_entries keeps_applySignal : keeps.

Lemma keeps_follower_commit c : keeps vote_le (follower_commit (D:=D) c).
Proof. unfold follower_commit. keeps_auto. Qed.
#[local] Hint Resolve keeps_follower_commit : keeps.

Lemma keeps_advanceCommit : keeps vote_le (advanceCommit (D:=D)).
Proof.
  unfold advanceCommit. keeps_auto. generalize (a0 + 1). generalize (Z.to_nat (le_Index a - a0)).
  intros fuel. induction fuel; intros i; simpl; keeps_auto.
Qed.
#[local] Hint Resolve keeps_advanceCommit : keeps.

Lemma keeps_ticker_begin now env : keeps vote_le (ticker_begin (D:=D) now env).
Proof.
  intros rf. unfold ticker_begin, SetElectionTime, persist. m_exec.
  repeat case_match; simplify_eq/=; try reflexivity; split; simpl; try done; lia.
Qed.

#[local] Hint Resolve keeps_ticker_begin : keeps.

Lemma keeps_resetRaftIndex : keeps vote_le (resetRaftIndex (D:=D)).
Proof. unfold resetRaftIndex. keeps_auto. Qed.
#[local] Hint Resolve keeps_resetRaftIndex : keeps.

Lemma keeps_prepareSendLog i : keeps vote_le (prepareSendLog (D:=D) i).
Proof. unfold prepareSendLog. keeps_auto. Qed.
#[local] Hint Resolve keeps_prepareSendLog : keeps.

Lemma core_resetRaftIndex : keeps core_eq (resetRaftIndex (D:=D)).
Proof. unfold resetRaftIndex. keeps_auto. Qed.

(** The operations that make a leader are [OpDecide] only. *)
Definition is_decide (op : NodeOp (D:=D)) : bool :=
  match op with OpDecide _ _ => true | _ => false end.

Lemma exec_vote_le env (op : NodeOp) :
  is_decide op = false -> keeps vote_le (exec (D:=D) env op).
Proof.
  destruct op; try done; intros _; simpl; unfold ignore, Snapshot, RequestVote,
    RequestHeartBeat, RequestInstallSnapShot, RequestInstallSnapShot_body, snapshot_covered,
    snapshot_conflicts, installSnapshotDone, RequestSendLog, RequestSendLog_body, adjust_args,
    Start, Kill, sendSnapShot_begin, sendSnapShot_reply, sendLogTicketCore_begin,
    sendLog_reply, onSendLogSuccess, backoff, onVoteReply, applyTicket_collect,
    applyTicket_finish; keeps_auto.
Qed.

Lemma decide_vote_le args t rf :
  let rf' := fst (ticker_decide args t rf) in
  (rf' = rf \/ (state rf = Candidate /\ currentTerm rf = rv_Term args
      /\ Z.of_nat (peers rf) ÷ 2 < voteCount t
      /\ core rf' = core (set_state Leader rf))).
Proof.
  unfold ticker_decide. m_exec. case_match eqn:E1; [|by left].
  case_match eqn:E2; [|by left]. right. zify_bool.
  unfold is_state in *. rewrite bool_decide_eq_true in H1.
  split_and!; try done. apply core_resetRaftIndex.
Qed.

End Ops.

(** ** Persistence *)

Section Persist.
Context {D : Type} `{LabGobOk D}.
Implicit Types rf : Raft D.

Definition persisted_le rf rf' : Prop := persisted rf -> persisted rf'.

#[export] Instance persisted_le_preorder : PreOrder persisted_le.
Proof. split; unfold persisted_le; [by intros ? ?|]. intros x y z ? ?; auto. Qed.

Lemma persisted_save rf ps :
  persisted (set_persister (Save (enc_state (currentTerm rf) (voteFor rf) (log rf))
                                 (snapshot rf) ps) rf).
Proof.
  unfold persisted, recovered. simpl. unfold ReadRaftState, clone. simpl.
  unfold clone. rewrite dec_enc.
  pose proof (enc_nonempty (currentTerm rf) (voteFor rf) (log rf)) as Hne.
  destruct (enc_state _ _ _); [done|].
  destruct (Z.ltb_spec (Z.of_nat (length (z :: l))) 1); [simpl in *; lia|done].
Qed.

Lemma stored_persist : keeps persisted_le (persist (D:=D)).
Proof. intros rf _. apply persisted_save. Qed.

Lemma stored_AddCurrentTerm tk t : keeps persisted_le (AddCurrentTerm (D:=D) tk t).
Proof.
  intros rf Hp. unfold AddCurrentTerm, SetElectionTime, persist. m_exec.
  case_match; [done|]. refine (persisted_save _ _).
Qed.

(** Operations that leave [core] alone. *)
Lemma core_stored {A} (m : M (Raft D) A) :
  keeps core_eq m -> keeps persisted_le m.
Proof.
  intros Hm rf Hp. specialize (Hm rf). unfold core_eq, core in Hm. unfold persisted in *.
  congruence.
Qed.

End Persist.

#[export] Hint Resolve stored_persist stored_AddCurrentTerm : keeps.
#[export] Hint Extern 1 (keeps persisted_le (modify _)) =>
  apply keeps_modify; intros ? Hp; exact Hp : keeps.
#[export] Hint Extern 2 (keeps persisted_le (_ ;; persist)) =>
  intros ? _; refine (persisted_save _ _) : keeps.
#[export] Hint Extern 2 (keeps persisted_le (_ ;; _ ;; persist)) =>
  intros ? _; refine (persisted_save _ _) : keeps.

Section PersistOps.
Context {D : Type} `{LabGobOk D}.
Implicit Types rf : Raft D.

Lemma stored_Snapshot i s : keeps persisted_le (Snapshot (D:=D) i s).
Proof. unfold Snapshot. keeps_auto. Qed.

(** The body of RequestVote leaves an unpersisted vote only when it grants. *)
Lemma stored_RequestVote_refused env a rf :
  persisted rf ->
  match RequestVote_body env a rf with
  | (_, Ret true) => True
  | (rf', _) => persisted rf'
  end.
Proof.
  intros Hp. unfold RequestVote_body, GetLastLog. m_exec.
  pose proof (stored_AddCurrentTerm (env 0%nat) (rv_Term a) rf Hp) as Ha. simpl in Ha.
  repeat case_match; simplify_eq/=; try done;
    match goal with E : AddCurrentTerm _ _ _ = _ |- _ => by rewrite E in Ha end.
Qed.

Lemma stored_RequestVote env a : keeps persisted_le (RequestVote (D:=D) env a).
Proof.
  intros rf Hp. unfold RequestVote. m_exec. unfold mbind, M_bind, m_bind.
  pose proof (stored_RequestVote_refused env a rf Hp) as Hr.
  destruct (RequestVote_body env a rf) as [rf' [[]|]]; simpl in *; try by apply Hr.
  unfold SetElectionTime, persist. m_exec. refine (persisted_save _ _).
Qed.

(** A body followed by a persist: what matters is that the body is persisted
    where it panics. *)
Definition panic_stored {A} (m : M (Raft D) A) : Prop :=
  forall rf, persisted rf ->
  match m rf with (rf', Panic) => persisted rf' | _ => True end.

Lemma panic_stored_bind {A B} (m : M (Raft D) A) (f : A -> M (Raft D) B) :
  keeps persisted_le m -> (forall a, panic_stored (f a)) -> panic_stored (m ≫= f).
Proof.
  intros Hm Hf rf Hp. unfold mbind, M_bind, m_bind. specialize (Hm rf Hp).
  destruct (m rf) as [rf' [a|]]; simpl in *; [by apply Hf|done].
Qed.

Lemma stored_then_persist {A B} (m : M (Raft D) A) (k : A -> M (Raft D) B) :
  panic_stored m -> (forall a, keeps persisted_le (k a)) ->
  keeps persisted_le (a ← m; persist;; k a).
Proof.
  intros Hm Hk rf Hp. unfold mbind, M_bind, m_bind. specialize (Hm rf Hp).
  destruct (m rf) as [rf' [a|]]; simpl in *; [|done].
  apply Hk. refine (persisted_save _ _).
Qed.

Lemma stored_RequestInstallSnapShot env a :
  keeps persisted_le (RequestInstallSnapShot (D:=D) env a).
Proof.
  unfold RequestInstallSnapShot. apply keeps_bind; [apply _|keeps_auto|intros r].
  apply (stored_then_persist _ (fun x => mret (mkRequestSnapShotReply r, x))); [|intros ?; keeps_auto].
  unfold RequestInstallSnapShot_body, snapshot_covered, snapshot_conflicts.
  repeat first [ apply panic_stored_bind; [solve [keeps_auto]|intros ?]
               | case_match | intros ? ?; exact I ].
Qed.

Lemma stored_append_persist {A} p es (k : M (Raft D) A) :
  keeps persisted_le k -> keeps persisted_le (append_entries p es;; persist;; k).
Proof.
  intros Hk. apply (stored_then_persist _ (fun _ => k)); [|done].
  unfold append_entries.
  repeat first [ apply panic_stored_bind; [solve [keeps_auto]|intros ?]
               | case_match | intros ? ?; exact I ].
Qed.

Lemma stored_RequestSendLog env a : keeps persisted_le (RequestSendLog (D:=D) env a).
Proof.
  unfold RequestSendLog, RequestSendLog_body, adjust_args, follower_commit, applySignal,
    SetElectionTime.
  repeat first [apply stored_append_persist | keeps_step].
Qed.

(** A panic that loses a log entry of the peer but not its term or vote. *)
Definition lost_entry (rf : Raft D) (out : Raft D * res unit) : Prop :=
  snd out = Panic /\ persister (fst out) = persister rf
  /\ currentTerm (fst out) = currentTerm rf /\ voteFor (fst out) = voteFor rf.

(** The assignment to matchIndex[me] in Start can panic, before the persist. *)
Lemma stored_Start c rf :
  persisted rf -> persisted (fst (Start c rf)) \/ lost_entry rf (ignore (Start c) rf).
Proof.
  intros Hp. unfold ignore, Start, GetLastLog, persist. m_exec.
  repeat (case_match; simplify_eq/=); try (by left); [|by right].
  left. refine (persisted_save _ _).
Qed.

Lemma stored_ticker_begin now env : keeps persisted_le (ticker_begin (D:=D) now env).
Proof.
  intros rf Hp. unfold ticker_begin, SetElectionTime, persist. m_exec.
  repeat (case_match; simplify_eq/=); try done; refine (persisted_save _ _).
Qed.

Lemma stored_advanceCommit : keeps core_eq (advanceCommit (D:=D)).
Proof.
  unfold advanceCommit, applySignal. keeps_auto.
  match goal with |- keeps _ (advanceCommit_loop ?f ?i) => generalize i; induction f end;
    intros i; simpl; unfold applySignal; keeps_auto.
Qed.
#[local] Hint Resolve stored_advanceCommit core_resetRaftIndex : keeps.

(** Operations that change neither term, vote, log, snapshot nor storage. *)
Definition volatile_op (op : NodeOp (D:=D)) : bool :=
  match op with
  | OpInstallSnapshotDone _ | OpKill | OpSendSnapShot _ | OpSendLogCore
  | OpApplyCollect | OpApplyFinish _ => true
  | _ => false
  end.

Lemma volatile_core env op : volatile_op op = true -> keeps core_eq (exec (D:=D) env op).
Proof.
  destruct op; try done; intros _; simpl; unfold ignore, installSnapshotDone, applySignal,
    Kill, sendSnapShot_begin, sendLogTicketCore_begin, prepareSendLog, applyTicket_collect,
    applyTicket_finish; keeps_auto.
Qed.
#[local] Hint Resolve stored_Snapshot stored_RequestVote stored_RequestInstallSnapShot
  stored_RequestSendLog stored_ticker_begin : keeps.

Lemma stored_advance : keeps persisted_le (advanceCommit (D:=D)).
Proof. apply core_stored, stored_advanceCommit. Qed.
#[local] Hint Resolve stored_advance : keeps.

Lemma exec_stored env op rf :
  persisted rf ->
  persisted (fst (exec env op rf)) \/ lost_entry rf (exec env op rf).
Proof.
  intros Hp. destruct (volatile_op op) eqn:Hv.
  { left. by apply (core_stored _ (volatile_core env op Hv)). }
  destruct op as [| | | | | |c| | | | | | | | | |]; try done; simpl; unfold ignore.
  6: { destruct (stored_Start c rf Hp) as [Hs|]; [left|by right].
       unfold mbind, M_bind, m_bind. by destruct (Start c rf) as [rf' [|]]. }
  all: left; revert rf Hp; match goal with |- forall rf, persisted rf -> persisted (fst (?m rf)) =>
         enough (Hk : keeps persisted_le m) by (intros; by apply Hk) end.
  all: unfold RequestHeartBeat, SetElectionTime, sendSnapShot_reply, sendLog_reply,
         onSendLogSuccess, backoff, onVoteReply; keeps_auto.
  unfold ticker_decide. keeps_auto. apply core_stored. apply core_resetRaftIndex.
Qed.

(** ** Recovery *)

Lemma resetRaftIndex_frame rf :
  core (fst (resetRaftIndex rf)) = core rf
  /\ lastApplied (fst (resetRaftIndex rf)) = lastApplied rf
  /\ commitIndex (fst (resetRaftIndex rf)) = commitIndex rf.
Proof.
  set (R := fun a b : Raft D => core b = core a /\ lastApplied b = lastApplied a
                               /\ commitIndex b = commitIndex a).
  assert (HP : PreOrder R).
  { split; unfold R; [done|]. intros x y z (?&?&?) (?&?&?). split_and!; congruence. }
  assert (Hm : forall f, (forall s, R s (f s)) -> keeps R (modify f)) by done.
  enough (Hk : keeps R resetRaftIndex) by apply (Hk rf).
  unfold resetRaftIndex. keeps_auto; apply Hm; done.
Qed.

Lemma ignore_ret {S A} (m : M S A) s s' a : m s = (s', Ret a) -> ignore m s = (s', Ret tt).
Proof. unfold ignore, mbind, M_bind, m_bind. by intros ->. Qed.

(** What a completed operation does to term, vote and storage. *)
Lemma exec_ret env op rf rf' :
  exec env op rf = (rf', Ret tt) -> persisted rf ->
  persisted rf' /\ (is_decide op = false -> vote_le rf rf').
Proof.
  intros Hex Hp. split.
  - destruct (exec_stored env op rf Hp) as [Hs|[Hs _]]; rewrite Hex in Hs; done.
  - intros Hd. pose proof (exec_vote_le env op Hd rf) as Hv. by rewrite Hex in Hv.
Qed.

(** A peer made from storage holds what the storage says. *)
Lemma Make_ret n self now ps rf' :
  Make n self now ps = (rf', Ret tt) ->
  recovered ps = (currentTerm rf', voteFor rf', log rf', snapshot rf')
  /\ peers rf' = n /\ me rf' = self /\ persister rf' = ps /\ state rf' = Follower
  /\ lastApplied rf' = commitIndex rf'.
Proof.
  unfold Make. set (rf0 := mkRaft _ _ _ _ _ _ _ _ _ _ _ _ _ _ _ _).
  unfold mbind at 1, M_bind, m_bind.
  assert (Hr : match readPersist (ReadRaftState ps) rf0 with
    | (rf1, Ret _) => recovered ps = (currentTerm rf1, voteFor rf1, log rf1, ReadSnapshot ps)
        /\ peers rf1 = n /\ me rf1 = self /\ persister rf1 = ps /\ state rf1 = Follower
        /\ lastApplied rf1 = commitIndex rf1
    | _ => True end).
  { unfold readPersist, recovered, GetFirstLog. m_exec.
    repeat (case_match; simplify_eq/=; try done). }
  destruct (readPersist (ReadRaftState ps) rf0) as [rf1 [|]]; [|done].
  unfold mbind, M_bind, m_bind. simpl. set (rf2 := set_snapshot _ rf1).
  pose proof (resetRaftIndex_frame rf2) as (Hc & Ha & Hi).
  destruct (resetRaftIndex rf2) as [rf3 [|]]; [|done]. simpl in *. intros [= <-].
  unfold core, rf2 in *. simpl in *. destruct Hr as (Hr & ? & ? & ? & ? & ?).
  simplify_eq. split_and!; congruence.
Qed.

End PersistOps.
