(* ===== verification/RaftWf.v ===== *)
(** Well-formedness of a peer: the log is a non-empty run of consecutive
    indices whose first element is the dummy entry, the per-peer arrays have
    one cell per peer, and a leader's nextIndex stays inside its log.  Every
    operation preserves it and none of them panics on a well-formed peer. *)
From Stdlib Require Import ZArith Lia.
From stdpp Require Import base list numbers.
From S2P Require Import Prelude RaftTypes RaftNode RaftVote.

Section Log.
Context {D : Type}.
Implicit Types l : list (LogEntry D).

(** ** Logs *)

(** The entries of [l] have indices [i], [i+1], ... *)
Definition contig (i : Z) l : Prop :=
  forall k e, l !! k = Some e -> le_Index e = i + Z.of_nat k.

Definition firstIndex l : Z := default 0 (le_Index <$> head l).
Definition lastIndex l : Z := firstIndex l + Z.of_nat (length l) - 1.

(** The entry with index [i], the dummy included. *)
Definition entryAt l (i : Z) : option (LogEntry D) :=
  if firstIndex l <=? i then l !! Z.to_nat (i - firstIndex l) else None.

(** Reference definition of the log update of AppendEntries: nothing when the
    last entry sent is present, otherwise cut after [prevIndex] and append. *)
Definition merge_log l (prevIndex : Z) (es : list (LogEntry D)) : list (LogEntry D) :=
  match list.last es with
  | None => l
  | Some e =>
      if decide (le_Term <$> entryAt l (le_Index e) = Some (le_Term e)) then l
      else take (Z.to_nat (prevIndex - firstIndex l + 1)) l ++ es
  end.

(** The dummy is either the one Make creates or the trace of a snapshot. *)
Definition dummy_ok (e : LogEntry D) : Prop :=
  (le_Term e = -1 /\ le_Index e = 0) \/ (0 <= le_Term e /\ 0 <= le_Index e).

Record log_ok l : Prop :=
  { lo_contig : contig (firstIndex l) l;
    lo_dummy : exists e, l !! 0%nat = Some e /\ dummy_ok e;
    lo_terms : forall k e, l !! S k = Some e -> 0 <= le_Term e }.

Lemma contig_app i l1 l2 :
  contig i (l1 ++ l2) <-> contig i l1 /\ contig (i + Z.of_nat (length l1)) l2.
Proof.
  split.
  - intros Hc. split; intros k e Hk.
    + apply Hc. by apply lookup_app_l_Some.
    + rewrite (Hc (length l1 + k)%nat e); [lia|]. rewrite lookup_app_r by lia.
      by replace (length l1 + k - length l1)%nat with k by lia.
  - intros [H1 H2] k e [Hk|[? Hk]]%lookup_app_Some; [by apply H1|].
    rewrite (H2 _ _ Hk). lia.
Qed.

Lemma contig_cons i e l : contig i (e :: l) <-> le_Index e = i /\ contig (i + 1) l.
Proof.
  rewrite (contig_app i [e] l). simpl. replace (Z.of_nat 1) with 1 by lia. split.
  - intros [Hc ?]. split; [|done]. specialize (Hc 0%nat e). lia || (rewrite Hc; [lia|done]).
  - intros [He ?]. split; [|done]. intros k e' Hk.
    destruct k; simplify_eq/=; lia.
Qed.

Lemma log_ok_length l : log_ok l -> (0 < length l)%nat.
Proof. intros [_ (e & He & _) _]. by destruct l; simpl; [|lia]. Qed.

Lemma log_ok_nonneg l : log_ok l -> 0 <= firstIndex l <= lastIndex l.
Proof.
  intros Hl. pose proof (log_ok_length l Hl). destruct Hl as [_ (e & He & Hd) _].
  destruct l as [|e' l]; simplify_eq/=. unfold lastIndex, firstIndex. simpl.
  destruct Hd; lia.
Qed.

(** Indexing relative to the dummy. *)
Lemma log_ok_lookup l i :
  log_ok l -> firstIndex l <= i <= lastIndex l ->
  exists e, go_idx l (i - firstIndex l) = Ret e
         /\ l !! Z.to_nat (i - firstIndex l) = Some e /\ le_Index e = i.
Proof.
  intros Hl Hi. unfold lastIndex in Hi.
  destruct (go_idx_ok l (i - firstIndex l)) as [e He]; [lia|].
  exists e. split; [done|]. apply go_idx_lookup in He as [? He]. split; [done|].
  rewrite (lo_contig l Hl _ _ He). lia.
Qed.

Lemma log_ok_take l k :
  log_ok l -> (0 < k)%nat -> log_ok (take k l) /\ firstIndex (take k l) = firstIndex l.
Proof.
  intros [Hc (e & He & Hd) Ht] Hk.
  assert (Hf : firstIndex (take k l) = firstIndex l) by (by destruct l, k; simpl in *; try lia).
  split; [|done]. split.
  - rewrite Hf. intros j x [Hx _]%lookup_take_Some. by apply Hc.
  - exists e. rewrite lookup_take_lt by lia. done.
  - intros j x [Hx _]%lookup_take_Some. by eapply Ht.
Qed.

Lemma log_ok_app l es :
  log_ok l -> contig (lastIndex l + 1) es -> Forall (fun e => 0 <= le_Term e) es ->
  log_ok (l ++ es) /\ firstIndex (l ++ es) = firstIndex l.
Proof.
  intros Hl Hc Hf. pose proof (log_ok_length l Hl) as Hn. destruct Hl as [Hc1 (e & He & Hd) Ht].
  assert (Hfi : firstIndex (l ++ es) = firstIndex l) by (by destruct l; simpl in *; [lia|]).
  split; [|done]. split.
  - rewrite Hfi. apply contig_app. split; [done|].
    unfold lastIndex in Hc. by replace (firstIndex l + Z.of_nat (length l) - 1 + 1)
      with (firstIndex l + Z.of_nat (length l)) in Hc by lia.
  - exists e. rewrite lookup_app_l by lia. done.
  - intros k x [Hx|[_ Hx]]%lookup_app_Some; [by eapply Ht|].
    rewrite Forall_lookup in Hf. by eapply Hf.
Qed.

(** Cutting the log at index [i] and putting a dummy there. *)
Lemma log_ok_cut l i t :
  log_ok l -> firstIndex l <= i <= lastIndex l -> 0 <= t ->
  let l' := mkLogEntry t i None :: drop (Z.to_nat (i - firstIndex l + 1)) l in
  log_ok l' /\ firstIndex l' = i /\ lastIndex l' = lastIndex l.
Proof.
  intros Hl Hi Ht l'. pose proof (log_ok_nonneg l Hl).
  assert (Hfi : firstIndex l' = i) by done.
  split; [|split; [done|]].
  - split.
    + rewrite Hfi. unfold l'. apply contig_cons. split; [done|].
      intros k e Hk. rewrite lookup_drop in Hk. rewrite (lo_contig l Hl _ _ Hk). lia.
    + eexists. split; [done|]. right. simpl. lia.
    + intros k e Hk. simpl in Hk. rewrite lookup_drop in Hk.
      replace (Z.to_nat (i - firstIndex l + 1) + k)%nat
        with (S (Z.to_nat (i - firstIndex l) + k)) in Hk by lia.
      by eapply (lo_terms l Hl).
  - unfold lastIndex in *. rewrite Hfi. unfold l'. simpl. rewrite length_drop. lia.
Qed.

Lemma log_ok_single t i : 0 <= t -> 0 <= i -> log_ok [mkLogEntry t i None : LogEntry D].
Proof.
  intros Ht Hi. split.
  - intros [|k] e He; simplify_eq/=; unfold firstIndex; simpl; lia.
  - eexists. split; [done|]. right. simpl. lia.
  - done.
Qed.

Lemma log_ok_last l :
  log_ok l -> exists e, go_idx l (Z.of_nat (length l) - 1) = Ret e
                     /\ l !! (length l - 1)%nat = Some e /\ le_Index e = lastIndex l.
Proof.
  intros Hl. pose proof (log_ok_length l Hl). pose proof (log_ok_nonneg l Hl).
  destruct (log_ok_lookup l (lastIndex l) Hl) as (e & Hi & He & Hx); [lia|].
  unfold lastIndex in *. exists e.
  replace (firstIndex l + Z.of_nat (length l) - 1 - firstIndex l)
    with (Z.of_nat (length l) - 1) in * by lia.
  replace (Z.to_nat (Z.of_nat (length l) - 1)) with (length l - 1)%nat in * by lia. done.
Qed.

Lemma go_idx_last l :
  l <> [] -> exists e, go_idx l (Z.of_nat (length l) - 1) = Ret e /\ list.last l = Some e.
Proof.
  intros Hl. destruct l as [|x l'] using rev_ind; [done|]. exists x.
  rewrite last_snoc. split; [|done]. apply go_idx_lookup. rewrite length_app. simpl.
  split; [lia|]. replace (Z.to_nat (Z.of_nat (length l' + 1) - 1)) with (length l') by lia.
  by rewrite list_lookup_middle.
Qed.

Lemma contig_last i l e :
  contig i l -> list.last l = Some e -> le_Index e = i + Z.of_nat (length l) - 1.
Proof.
  intros Hc He. rewrite last_lookup in He. rewrite (Hc _ _ He).
  assert (length l <> 0)%nat by (by destruct l). lia.
Qed.

Lemma entryAt_last_index l i : log_ok l -> is_Some (entryAt l i) -> i <= lastIndex l.
Proof.
  unfold entryAt, lastIndex. intros Hl. case_match; [|by intros [? ?]].
  intros Hk%lookup_lt_is_Some. pose proof (log_ok_length l Hl). lia.
Qed.

Lemma merge_log_ok l p es :
  log_ok l -> (es = [] \/ firstIndex l <= p <= lastIndex l) -> contig (p + 1) es ->
  Forall (fun e => 0 <= le_Term e) es ->
  log_ok (merge_log l p es) /\ firstIndex (merge_log l p es) = firstIndex l.
Proof.
  intros Hl Hp Hc Ht. unfold merge_log. destruct (list.last es) as [e|] eqn:He; [|done].
  case_decide; [done|]. destruct Hp as [->|Hp]; [done|].
  destruct (log_ok_take l (Z.to_nat (p - firstIndex l + 1)) Hl) as [Hk Hf]; [lia|].
  destruct (log_ok_app (take (Z.to_nat (p - firstIndex l + 1)) l) es Hk) as [? ?]; [|done|].
  - unfold lastIndex in *. rewrite Hf, length_take.
    match goal with |- contig ?x _ => by replace x with (p + 1) by lia end.
  - split; [done|congruence].
Qed.

End Log.

Section Peer.
Context {D : Type} `{LabGob D}.
Implicit Types (rf : Raft D) (l : list (LogEntry D)).

(** ** Well-formed peers *)

Record wf rf : Prop :=
  { wf_log : log_ok (log rf);
    wf_ni : length (nextIndex rf) = peers rf;
    wf_mi : length (matchIndex rf) = peers rf;
    wf_me : 0 <= me rf < Z.of_nat (peers rf);
    wf_term : 0 <= currentTerm rf;
    wf_next : state rf = Leader ->
              Forall (fun x => 0 <= x <= lastIndex (log rf) + 1) (nextIndex rf) }.

(** What an operation relies on: arguments built by a well-formed leader, a
    leader gets no request of its own term, commitIndex not below the log. *)
Definition op_pre rf (op : NodeOp (D:=D)) : Prop :=
  match op with
  | OpRequestInstallSnapShot a =>
      0 <= rs_LastIncludedTerm a /\ (rs_Term a = currentTerm rf -> state rf <> Leader)
  | OpRequestSendLog a =>
      contig (sl_PrevLogIndex a + 1) (sl_Entries a)
      /\ Forall (fun e => 0 <= le_Term e) (sl_Entries a)
      /\ (sl_Term a = currentTerm rf -> state rf <> Leader)
  | OpSendSnapShot p => 0 <= p < Z.of_nat (peers rf)
  | OpSnapShotReply p ctx _ =>
      0 <= p < Z.of_nat (peers rf) /\ firstIndex (log rf) <= commitIndex rf + 1
      /\ 0 <= sc_lastLogIndex ctx <= lastIndex (log rf)
  | OpSendLogReply p a _ _ =>
      0 <= p < Z.of_nat (peers rf) /\ firstIndex (log rf) <= commitIndex rf + 1
      /\ (forall e, list.last (sl_Entries a) = Some e -> 0 <= le_Index e <= lastIndex (log rf))
  | OpApplyCollect =>
      firstIndex (log rf) <= lastApplied rf + 1 /\ commitIndex rf <= lastIndex (log rf)
  | _ => True
  end.

(** ** Reading the log *)

Lemma wp_GetFirstLog (Q : LogEntry D -> Raft D -> Prop) rf :
  log_ok (log rf) ->
  (forall e, log rf !! 0%nat = Some e -> le_Index e = firstIndex (log rf) -> dummy_ok e ->
     Q e rf) ->
  wp GetFirstLog Q rf.
Proof.
  intros Hl HQ. destruct (lo_dummy _ Hl) as (e & He & Hd). unfold GetFirstLog. wp_simp.
  rewrite (proj2 (go_idx_lookup (log rf) 0 e)); [|by split]. wp_simp. apply HQ; [done| |done].
  unfold firstIndex. by destruct (log rf); simplify_eq/=.
Qed.

Lemma wp_GetLastLog (Q : LogEntry D -> Raft D -> Prop) rf :
  log_ok (log rf) ->
  (forall e, log rf !! (length (log rf) - 1)%nat = Some e -> le_Index e = lastIndex (log rf) ->
     Q e rf) ->
  wp GetLastLog Q rf.
Proof.
  intros Hl HQ. destruct (log_ok_last _ Hl) as (e & He & Hk & Hi). unfold GetLastLog. wp_simp.
  rewrite He. wp_simp. auto.
Qed.

Lemma wp_logAt i (Q : LogEntry D -> Raft D -> Prop) rf :
  log_ok (log rf) -> firstIndex (log rf) <= i <= lastIndex (log rf) ->
  (forall e, log rf !! Z.to_nat (i - firstIndex (log rf)) = Some e -> le_Index e = i -> Q e rf) ->
  wp (logAt i) Q rf.
Proof.
  intros Hl Hi HQ. destruct (log_ok_lookup _ i Hl Hi) as (e & He & Hk & Hx). unfold logAt.
  wp_simp. apply wp_GetFirstLog; [done|]. intros e0 _ He0 _. wp_simp. rewrite He0, He. wp_simp.
  auto.
Qed.

(** ** Stepping down *)

Lemma wf_AddCurrentTerm tk t rf :
  wf rf -> wp (AddCurrentTerm tk t) (fun _ rf' =>
    wf rf' /\ log rf' = log rf /\ currentTerm rf' = Z.max (currentTerm rf) t
    /\ commitIndex rf' = commitIndex rf
    /\ (currentTerm rf < t -> state rf' = Follower /\ voteFor rf' = -1)
    /\ (t <= currentTerm rf -> rf' = rf)) rf.
Proof.
  intros [Hl Hni Hmi Hme Ht Hn]. unfold AddCurrentTerm, SetElectionTime, persist. wp_simp.
  destruct (Z.leb_spec t (currentTerm rf)); wp_simp.
  - split_and!; try done; lia.
  - split_and!; try done; try lia. split; simpl; try done; lia.
Qed.

Lemma wf_add_when tk t rf :
  wf rf -> wp (when (currentTerm rf <? t) (AddCurrentTerm tk t)) (fun _ rf' =>
    wf rf' /\ log rf' = log rf /\ currentTerm rf' = Z.max (currentTerm rf) t
    /\ commitIndex rf' = commitIndex rf
    /\ (currentTerm rf < t -> state rf' = Follower /\ voteFor rf' = -1)
    /\ (t <= currentTerm rf -> rf' = rf)) rf.
Proof.
  intros Hwf. apply wp_when; intros E; zify_bool; [by apply wf_AddCurrentTerm|].
  split_and!; try done; lia.
Qed.

End Peer.
