(* ===== verification/RaftSafe.v ===== *)
(** No operation of a well-formed peer panics, and each leaves the peer
    well-formed. *)
From Stdlib Require Import ZArith Lia.
From stdpp Require Import base list numbers.
From S2P Require Import Prelude RaftTypes RaftNode RaftVote RaftWf.

Section Safe.
Context {D : Type} `{LabGob D}.
Implicit Types (rf : Raft D) (l : list (LogEntry D)).

(** [wf] after assignments to fields it does not mention, or to role/vote. *)
Lemma wf_frame rf rf' :
  wf rf -> peers rf' = peers rf -> me rf' = me rf -> log rf' = log rf ->
  nextIndex rf' = nextIndex rf -> matchIndex rf' = matchIndex rf ->
  currentTerm rf <= currentTerm rf' -> (state rf' = Leader -> state rf = Leader) -> wf rf'.
Proof.
  intros [Hl Hni Hmi Hme Ht Hn] E1 E2 E3 E4 E5 Hle Hs.
  split; rewrite ?E1, ?E2, ?E3, ?E4, ?E5; auto; lia.
Qed.

(** Replacing the log of a peer that does not lead. *)
Lemma wf_new_log rf l :
  wf rf -> log_ok l -> state rf <> Leader -> wf (set_log l rf).
Proof. intros [Hl Hni Hmi Hme Ht Hn] Hok Hs. by split. Qed.

Lemma wf_Snapshot index snap rf :
  wf rf -> wp (Snapshot index snap) (fun _ rf' => wf rf') rf.
Proof.
  intros Hwf. pose proof (wf_log _ Hwf) as Hl. unfold Snapshot. wp_simp.
  apply wp_GetFirstLog; [done|]. intros first Hf Hfi _. wp_simp.
  apply wp_GetLastLog; [done|]. intros last _ Hla.
  destruct (Z.leb_spec index (le_Index first)); [done|].
  destruct (Z.ltb_spec (le_Index last) index); [done|]. wp_simp.
  destruct (log_ok_lookup _ index Hl) as (e & He & Hk & Hx); [lia|].
  rewrite Hfi, He. wp_simp. pose proof (log_ok_nonneg _ Hl).
  unfold lastIndex in *. rewrite go_from_ok by lia. unfold persist. wp_simp.
  assert (Hte : 0 <= le_Term e).
  { replace (Z.to_nat (index - firstIndex (log rf)))
      with (S (Z.to_nat (index - firstIndex (log rf) - 1))) in Hk by lia.
    by eapply (lo_terms _ Hl). }
  destruct (log_ok_cut (log rf) (le_Index e) (le_Term e) Hl) as (Hok & _ & Hlast);
    [unfold lastIndex; lia|done|]. rewrite Hx in *.
  destruct Hwf. split; simpl; try done. intros Hs. rewrite Hlast. auto.
Qed.

Lemma wf_RequestVote env a rf :
  wf rf -> wp (RequestVote env a) (fun _ rf' => wf rf') rf.
Proof.
  intros Hwf. unfold RequestVote, RequestVote_body. wp_simp.
  set (Q := fun (granted : bool) rf' => wf rf').
  match goal with |- wp ?m _ _ => assert (Hb : wp m Q rf) end.
  { destruct (Z.ltb_spec (rv_Term a) (currentTerm rf)); [done|]. wp_simp.
    eapply wp_mono; [by apply wf_add_when|]. intros ? rf1 (Hwf1 & _). wp_simp.
    case_match; [wp_simp; by eapply wf_frame|].
    case_match; [wp_simp; done|]. wp_simp.
    pose proof (log_ok_length _ (wf_log _ Hwf1)).
    case_match; zify_bool; [|lia]. wp_simp.
    apply wp_GetLastLog; [apply Hwf1|]. intros e _ _. wp_simp.
    case_match; wp_simp; [by eapply wf_frame|done]. }
  eapply wp_mono; [exact Hb|]. intros g rf' Hwf'. wp_simp.
  apply wp_when; intros _; unfold SetElectionTime, persist; wp_simp; [|done].
  by eapply wf_frame.
Qed.

Lemma wf_RequestHeartBeat env a rf :
  wf rf -> wp (RequestHeartBeat env a) (fun _ rf' => wf rf') rf.
Proof.
  intros Hwf. unfold RequestHeartBeat. wp_simp.
  case_match; [done|]. wp_simp.
  match goal with |- wp ?m _ _ => assert (Hb : wp m (fun _ rf' => wf rf') rf) end.
  { apply wp_when; intros _; wp_simp; [by eapply wf_frame|done]. }
  eapply wp_mono; [exact Hb|]. intros ? rf' Hwf'. wp_simp. case_match; wp_simp.
  - eapply wp_mono; [by apply wf_AddCurrentTerm|]. by intros ? ? [? _].
  - unfold SetElectionTime. wp_simp. by apply (wf_frame rf').
Qed.

Lemma wf_installSnapshotDone i rf :
  wf rf -> wp (installSnapshotDone i) (fun _ rf' => wf rf') rf.
Proof.
  intros Hwf. unfold installSnapshotDone, applySignal. wp_simp.
  apply wp_when; intros _; wp_simp; (apply wp_when; intros _; wp_simp); try done;
    by eapply wf_frame.
Qed.

(** A candidate that hears from a leader steps down. *)
Lemma wp_step_down (Q : unit -> Raft D -> Prop) rf :
  (is_state (state rf) Candidate = true -> Q tt (set_state Follower rf)) ->
  (is_state (state rf) Candidate = false -> Q tt rf) ->
  wp (when (is_state (state rf) Candidate) (modify (set_state Follower))) Q rf.
Proof. intros. by apply wp_when. Qed.

Lemma wp_snapshot_covered a rf :
  wf rf -> wp (snapshot_covered a) (fun b rf' => rf' = rf /\
    (b = false -> firstIndex (log rf) < rs_LastIncludedIndex a)) rf.
Proof.
  intros Hwf. pose proof (wf_log _ Hwf) as Hl. unfold snapshot_covered. wp_simp.
  apply wp_GetFirstLog; [done|]. intros first _ Hfi _.
  destruct (Z.leb_spec (rs_LastIncludedIndex a) (le_Index first)); wp_simp; [done|].
  apply wp_GetLastLog; [done|]. intros last _ Hla.
  destruct (Z.leb_spec (rs_LastIncludedIndex a) (le_Index last)); wp_simp; [|split; [done|lia]].
  apply wp_logAt; [done|lia|]. intros e _ _. wp_simp. split; [done|lia].
Qed.

Lemma wp_snapshot_conflicts a rf :
  wf rf -> firstIndex (log rf) < rs_LastIncludedIndex a ->
  wp (snapshot_conflicts a) (fun _ rf' => rf' = rf) rf.
Proof.
  intros Hwf Hlt. pose proof (wf_log _ Hwf) as Hl. unfold snapshot_conflicts. wp_simp.
  apply wp_GetLastLog; [done|]. intros last _ Hla.
  destruct (Z.ltb_spec (le_Index last) (rs_LastIncludedIndex a)); wp_simp; [done|].
  apply wp_logAt; [done|lia|]. intros e _ _. by wp_simp.
Qed.

Lemma wf_RequestInstallSnapShot env a rf :
  wf rf -> op_pre rf (OpRequestInstallSnapShot a) ->
  wp (RequestInstallSnapShot env a) (fun _ rf' => wf rf') rf.
Proof.
  intros Hwf [Hlt Hnl]. unfold RequestInstallSnapShot. wp_simp.
  assert (Hb : wp (RequestInstallSnapShot_body env a) (fun _ rf' => wf rf') rf).
  { unfold RequestInstallSnapShot_body. wp_simp.
    destruct (Z.ltb_spec (rs_Term a) (currentTerm rf)); [done|]. wp_simp.
    eapply wp_mono; [by apply wf_add_when|].
    intros ? rf1 (Hwf1 & Hlog & _ & _ & Hnew & Hold). wp_simp.
    assert (Hnl1 : state rf1 <> Leader).
    { destruct (decide (currentTerm rf < rs_Term a)) as [Hg|Hg].
      - by rewrite (proj1 (Hnew Hg)).
      - rewrite Hold by lia. apply Hnl. lia. }
    apply (wp_mono _ (fun _ rf2 => wf rf2 /\ state rf2 <> Leader)).
    { apply wp_step_down; intros _; split; try done. by eapply wf_frame. }
    intros ? rf2 [Hwf2 Hnl2]. wp_simp.
    eapply wp_mono; [by apply wp_snapshot_covered|]. intros [] rf3 [-> Hlt3]; wp_simp; [done|].
    eapply wp_mono; [apply wp_snapshot_conflicts; auto|]. intros [] rf4 ->; wp_simp; [|done].
    unfold SetElectionTime. wp_simp. specialize (Hlt3 eq_refl).
    pose proof (log_ok_nonneg _ (wf_log _ Hwf2)).
    eapply (wf_frame (set_log [mkLogEntry (rs_LastIncludedTerm a) (rs_LastIncludedIndex a) None]
                        rf2)); try done.
    apply wf_new_log; [done|apply log_ok_single; lia|done]. }
  eapply wp_mono; [exact Hb|]. intros o rf' Hwf'. unfold persist. wp_simp. by apply (wf_frame rf').
Qed.

(** ** RequestSendLog *)

(** commitIndex after hearing leaderCommit, for a log that ends at [last]. *)
Definition commit_target (commit leaderCommit last : Z) : Z :=
  let newCommitIndex := Z.min (float64_of_int leaderCommit) (float64_of_int last) in
  if (commit <? leaderCommit) && (commit <? newCommitIndex) then newCommitIndex else commit.

Lemma commit_target_exact commit leaderCommit last :
  Z.abs leaderCommit <= 2 ^ 53 -> Z.abs last <= 2 ^ 53 ->
  commit_target commit leaderCommit last = Z.max commit (Z.min leaderCommit last).
Proof.
  intros Hc Hl. unfold commit_target. rewrite !float64_of_int_exact by done.
  destruct (Z.ltb_spec commit leaderCommit), (Z.ltb_spec commit (Z.min leaderCommit last));
    simpl; lia.
Qed.

Lemma cut_entries_contig first i (es : list (LogEntry D)) :
  contig i es -> i <= first + 1 < i + Z.of_nat (length es) ->
  cut_entries first es = Some (drop (Z.to_nat (first + 1 - i)) es).
Proof.
  revert i. induction es as [|e es IH]; intros i Hc Hi; simpl in *; [lia|].
  apply contig_cons in Hc as [He Hc].
  destruct (Z.ltb_spec first (le_Index e)).
  - by replace (Z.to_nat (first + 1 - i)) with 0%nat by lia.
  - rewrite (IH (i + 1)) by (done || lia).
    by replace (Z.to_nat (first + 1 - i)) with (S (Z.to_nat (first + 1 - (i + 1)))) by lia.
Qed.

Lemma contig_drop i k (es : list (LogEntry D)) :
  contig i es -> contig (i + Z.of_nat k) (drop k es).
Proof. intros Hc j e Hj. rewrite lookup_drop in Hj. rewrite (Hc _ _ Hj). lia. Qed.

(** What the handler works with after lines 445-464. *)
Definition adjusted rf (a : SendLogArgs D) (p t : Z) (es : list (LogEntry D)) : Prop :=
  (p = sl_PrevLogIndex a /\ t = sl_PrevLogTerm a /\ es = sl_Entries a
   /\ (es = [] \/ firstIndex (log rf) <= p))
  \/ (sl_PrevLogIndex a < firstIndex (log rf) /\ p = firstIndex (log rf)
      /\ es = drop (Z.to_nat (firstIndex (log rf) - sl_PrevLogIndex a)) (sl_Entries a)
      /\ es <> []).

Lemma wp_adjust_args a rf :
  log_ok (log rf) -> contig (sl_PrevLogIndex a + 1) (sl_Entries a) ->
  wp (adjust_args a) (fun o rf' => rf' = rf /\
    match o with
    | None => sl_Entries a <> []
              /\ sl_PrevLogIndex a + Z.of_nat (length (sl_Entries a)) <= firstIndex (log rf)
    | Some (p, t, es) => adjusted rf a p t es
    end) rf.
Proof.
  intros Hl Hc. unfold adjust_args, adjusted. wp_simp.
  apply wp_GetFirstLog; [done|]. intros first _ Hfi _. rewrite Hfi.
  destruct (Z.ltb_spec (sl_PrevLogIndex a) (firstIndex (log rf))); simpl; cycle 1.
  { wp_simp. split; [done|]. left. split_and!; auto. }
  destruct (Z.ltb_spec 0 (Z.of_nat (length (sl_Entries a)))); cycle 1.
  { wp_simp. split; [done|]. left. split_and!; auto. left.
    apply nil_length_inv. lia. }
  destruct (go_idx_last (sl_Entries a)) as (e & He & Hlast).
  { intros E. rewrite E in *. simpl in *. lia. }
  wp_simp. rewrite He. wp_simp.
  pose proof (contig_last _ _ _ Hc Hlast) as Hie.
  destruct (Z.leb_spec (le_Index e) (firstIndex (log rf))); wp_simp; (split; [done|]).
  { split; [|lia]. by destruct (sl_Entries a). }
  right. rewrite (cut_entries_contig _ (sl_PrevLogIndex a + 1)) by (done || lia). simpl.
  replace (firstIndex (log rf) + 1 - (sl_PrevLogIndex a + 1))
    with (firstIndex (log rf) - sl_PrevLogIndex a) by lia.
  split_and!; try done. intros E%(f_equal length). rewrite length_drop in E. simpl in E. lia.
Qed.

(** Replacing the log by what it already is. *)
Lemma set_log_id rf : set_log (log rf) rf = rf.
Proof. by destruct rf. Qed.

Lemma set_state_id rf : set_state (state rf) rf = rf.
Proof. by destruct rf. Qed.

Lemma wp_append_entries p es rf (Q : unit -> Raft D -> Prop) :
  log_ok (log rf) -> (es = [] \/ firstIndex (log rf) <= p) -> p <= lastIndex (log rf) ->
  contig (p + 1) es ->
  Q tt (set_log (merge_log (log rf) p es) rf) -> wp (append_entries p es) Q rf.
Proof.
  intros Hl Hp Hpl Hc HQ. unfold append_entries.
  destruct (Z.ltb_spec 0 (Z.of_nat (length es))) as [Hn|Hn]; cycle 1.
  { assert (es = []) as -> by (apply nil_length_inv; lia).
    change (merge_log (log rf) p []) with (log rf) in HQ.
    wp_simp. by rewrite set_log_id in HQ. }
  destruct Hp as [->|Hp]; [simpl in Hn; lia|].
  destruct (go_idx_last es) as (e & He & Hlast); [by intros ->|].
  pose proof (contig_last _ _ _ Hc Hlast) as Hie. unfold merge_log in HQ. rewrite Hlast in HQ.
  wp_simp. rewrite He. wp_simp. apply wp_GetLastLog; [done|]. intros last _ Hla.
  assert (Happ : Q tt (set_log (take (Z.to_nat (p - firstIndex (log rf) + 1)) (log rf) ++ es) rf) ->
     wp (first ← GetFirstLog; lg ← gets log;
         kept ← lift (go_to lg (p - le_Index first + 1)); modify (set_log (kept ++ es))) Q rf).
  { intros HQ'. wp_simp. apply wp_GetFirstLog; [done|]. intros first _ Hfi _. wp_simp.
    rewrite Hfi. unfold lastIndex in *. rewrite go_to_ok by lia. by wp_simp. }
  rewrite wp_bind in Happ.
  destruct (Z.leb_spec (le_Index e) (le_Index last)); wp_simp; cycle 1.
  { apply Happ. rewrite decide_False in HQ; [done|].
    intros E. assert (is_Some (entryAt (log rf) (le_Index e))) as Hs
      by (destruct (entryAt (log rf) (le_Index e)); [eauto|done]).
    pose proof (entryAt_last_index _ _ Hl Hs). lia. }
  apply wp_logAt; [done|lia|]. intros x Hx _. wp_simp.
  assert (Hat : entryAt (log rf) (le_Index e) = Some x).
  { unfold entryAt. destruct (Z.leb_spec (firstIndex (log rf)) (le_Index e)); [done|lia]. }
  rewrite Hat in HQ. simpl in HQ.
  destruct (Z.eqb_spec (le_Term x) (le_Term e)) as [E|E]; case_decide; try congruence.
  - wp_simp. by rewrite set_log_id in HQ.
  - wp_simp. by apply Happ.
Qed.

Lemma wp_follower_commit c rf :
  log_ok (log rf) ->
  wp (follower_commit c) (fun _ rf' =>
    (rf' = rf \/ exists k, rf' = set_applySignals (S (applySignals rf)) (set_commitIndex k rf))
    /\ commitIndex rf' = commit_target (commitIndex rf) c (lastIndex (log rf))) rf.
Proof.
  intros Hl. unfold follower_commit, commit_target, applySignal. wp_simp.
  destruct (commitIndex rf <? c); simpl; [|by wp_simp; auto]. wp_simp.
  apply wp_GetLastLog; [done|]. intros e _ He. wp_simp. rewrite He.
  apply wp_when; intros ->; wp_simp; eauto.
Qed.

(** The handler, without the timer of the deferred function: which branch it
    takes and what it leaves behind. *)
Definition sendlog_ready env (a : SendLogArgs D) rf : Raft D :=
  fst (when (currentTerm rf <? sl_Term a) (AddCurrentTerm (env 0%nat) (sl_Term a)) rf).

Inductive sendlog_outcome env (a : SendLogArgs D) rf : bool -> Raft D -> Prop :=
| SO_stale :
    sl_Term a < currentTerm rf -> sendlog_outcome env a rf false rf
| SO_missing rf1 :
    currentTerm rf <= sl_Term a -> rf1 = sendlog_ready env a rf ->
    lastIndex (log rf) < sl_PrevLogIndex a -> sendlog_outcome env a rf false rf1
| SO_covered rf1 :
    currentTerm rf <= sl_Term a -> rf1 = sendlog_ready env a rf ->
    sl_Entries a <> [] ->
    sl_PrevLogIndex a + Z.of_nat (length (sl_Entries a)) <= firstIndex (log rf) ->
    sendlog_outcome env a rf true rf1
| SO_mismatch rf1 p t es e :
    currentTerm rf <= sl_Term a -> rf1 = sendlog_ready env a rf ->
    adjusted rf1 a p t es -> firstIndex (log rf) < p <= lastIndex (log rf) ->
    entryAt (log rf) p = Some e -> le_Term e <> t -> sendlog_outcome env a rf false rf1
| SO_accept rf1 rf2 p t es :
    currentTerm rf <= sl_Term a -> rf1 = sendlog_ready env a rf ->
    adjusted rf1 a p t es -> p <= lastIndex (log rf) ->
    (firstIndex (log rf) < p -> le_Term <$> entryAt (log rf) p = Some t) ->
    log rf2 = merge_log (log rf) p es ->
    currentTerm rf2 = sl_Term a -> voteFor rf2 = voteFor rf1 ->
    state rf2 = (if is_state (state rf1) Candidate then Follower else state rf1) ->
    commitIndex rf2 = commit_target (commitIndex rf) (sl_LeaderCommit a) (lastIndex (log rf2)) ->
    (peers rf2, me rf2, nextIndex rf2, matchIndex rf2, lastApplied rf2, snapshot rf2)
      = (peers rf, me rf, nextIndex rf, matchIndex rf, lastApplied rf, snapshot rf) ->
    sendlog_outcome env a rf true rf2.

Lemma when_add_run tk t rf :
  exists rf1, when (currentTerm rf <? t) (AddCurrentTerm tk t) rf = (rf1, Ret tt)
    /\ (wf rf -> wf rf1)
    /\ log rf1 = log rf /\ currentTerm rf1 = Z.max (currentTerm rf) t
    /\ (currentTerm rf < t -> state rf1 = Follower /\ voteFor rf1 = -1)
    /\ (t <= currentTerm rf -> rf1 = rf)
    /\ (peers rf1, me rf1, nextIndex rf1, matchIndex rf1, lastApplied rf1, snapshot rf1,
        commitIndex rf1)
       = (peers rf, me rf, nextIndex rf, matchIndex rf, lastApplied rf, snapshot rf,
          commitIndex rf).
Proof.
  destruct (Z.ltb_spec (currentTerm rf) t); [|exists rf; split_and!; try done; lia].
  assert (Hw : wf rf -> wf (fst (AddCurrentTerm tk t rf))).
  { intros Hwf. pose proof (wf_AddCurrentTerm tk t rf Hwf) as Hp.
    apply wp_run in Hp as (? & ? & -> & ? & _). done. }
  revert Hw. simpl. unfold AddCurrentTerm, SetElectionTime, persist. m_exec.
  destruct (Z.leb_spec t (currentTerm rf)); [lia|]. simpl. intros Hw.
  eexists. split_and!; try done; simpl; lia.
Qed.

(** The entries the handler works with keep consecutive indices. *)
Lemma adjusted_contig rf a p t es :
  adjusted rf a p t es -> contig (sl_PrevLogIndex a + 1) (sl_Entries a) -> contig (p + 1) es.
Proof.
  intros [(->&_&->&_)|(?&->&->&_)] Hc; [done|].
  replace (firstIndex (log rf) + 1) with
    (sl_PrevLogIndex a + 1 + Z.of_nat (Z.to_nat (firstIndex (log rf) - sl_PrevLogIndex a)))
    by lia. by apply contig_drop.
Qed.

Lemma adjusted_terms rf a p t es :
  adjusted rf a p t es -> Forall (fun e => 0 <= le_Term e) (sl_Entries a) ->
  Forall (fun e => 0 <= le_Term e) es.
Proof. intros [(_&_&->&_)|(_&_&->&_)] Ht; [done|by apply Forall_drop]. Qed.

Lemma adjusted_prev rf a p t es :
  adjusted rf a p t es -> log_ok (log rf) -> sl_PrevLogIndex a <= lastIndex (log rf) ->
  p <= lastIndex (log rf) /\ (es = [] \/ firstIndex (log rf) <= p).
Proof.
  intros Hadj Hl Hp. pose proof (log_ok_nonneg _ Hl).
  destruct Hadj as [(->&_&_&?)|(_&->&_&_)]; (split; [lia|]); [done|right; lia].
Qed.

(** Lines 474-499, once the consistency check has passed. *)
Lemma wp_sendlog_accept env a rf rf1 p t es :
  rf1 = sendlog_ready env a rf ->
  log_ok (log rf1) -> log rf1 = log rf -> currentTerm rf1 = sl_Term a ->
  currentTerm rf <= sl_Term a ->
  (peers rf1, me rf1, nextIndex rf1, matchIndex rf1, lastApplied rf1, snapshot rf1,
   commitIndex rf1)
  = (peers rf, me rf, nextIndex rf, matchIndex rf, lastApplied rf, snapshot rf,
     commitIndex rf) ->
  adjusted rf1 a p t es -> sl_PrevLogIndex a <= lastIndex (log rf1) ->
  contig (sl_PrevLogIndex a + 1) (sl_Entries a) ->
  Forall (fun e => 0 <= le_Term e) (sl_Entries a) ->
  (firstIndex (log rf) < p -> le_Term <$> entryAt (log rf) p = Some t) ->
  wp (st ← gets state; when (is_state st Candidate) (modify (set_state Follower));;
      append_entries p es;; persist;; follower_commit (sl_LeaderCommit a);; mret true)
    (sendlog_outcome env a rf) rf1.
Proof.
  intros Hready Hl Hlog Hterm Hle Hfr Hadj Hprev Hc Hts Hm. wp_simp.
  destruct (adjusted_prev _ _ _ _ _ Hadj Hl Hprev) as [Hp Hpf].
  pose proof (adjusted_contig _ _ _ _ _ Hadj Hc) as Hces.
  apply (wp_mono _ (fun _ rf' => rf' =
    set_state (if is_state (state rf1) Candidate then Follower else state rf1) rf1)).
  { apply wp_step_down; intros ->; [done|]. by rewrite set_state_id. }
  intros ? rf2 ->. wp_simp. apply wp_append_entries; simpl; try done.
  unfold persist. wp_simp. set (rf2 := set_persister _ _).
  assert (Hlog2 : log rf2 = merge_log (log rf) p es) by (simpl; by rewrite Hlog).
  eapply wp_mono.
  { apply wp_follower_commit. rewrite Hlog2, <- Hlog. apply merge_log_ok; try done.
    - destruct Hpf; [by left|right; lia].
    - by eapply adjusted_terms. }
  intros ? rf3 [Hrf3 Hci]. wp_simp.
  assert (Hl3 : log rf3 = log rf2) by (by destruct Hrf3 as [->|[? ->]]).
  eapply (SO_accept env a rf rf1 rf3 p t es); try done.
  - by rewrite <- Hlog.
  - by rewrite Hl3.
  - transitivity (currentTerm rf1); [by destruct Hrf3 as [->|[? ->]]|lia].
  - by destruct Hrf3 as [->|[? ->]].
  - by destruct Hrf3 as [->|[? ->]].
  - rewrite Hci, Hl3. f_equal. simpl. congruence.
  - transitivity (peers rf1, me rf1, nextIndex rf1, matchIndex rf1, lastApplied rf1,
                  snapshot rf1); [by destruct Hrf3 as [->|[? ->]]|congruence].
Qed.

(** RequestSendLog takes exactly one of the branches above, without panic. *)
Lemma wp_RequestSendLog_body env a rf :
  log_ok (log rf) -> contig (sl_PrevLogIndex a + 1) (sl_Entries a) ->
  Forall (fun e => 0 <= le_Term e) (sl_Entries a) ->
  wp (RequestSendLog_body env a) (sendlog_outcome env a rf) rf.
Proof.
  intros Hl Hc Hts. unfold RequestSendLog_body. wp_simp.
  destruct (Z.ltb_spec (sl_Term a) (currentTerm rf)); wp_simp; [by constructor|].
  destruct (when_add_run (env 0%nat) (sl_Term a) rf)
    as (rf1 & Hrun & _ & Hlog & Hterm & _ & _ & Hfr).
  assert (Hready : rf1 = sendlog_ready env a rf) by (unfold sendlog_ready; by rewrite Hrun).
  eapply wp_intro; [exact Hrun|]. wp_simp. rewrite <- Hlog in Hl.
  apply wp_GetLastLog; [done|]. intros last _ Hla.
  destruct (Z.ltb_spec (le_Index last) (sl_PrevLogIndex a)).
  { wp_simp. eapply SO_missing; [done|done|]. rewrite <- Hlog. lia. }
  wp_simp. eapply wp_mono; [by apply wp_adjust_args|]. intros [[[p t] es]|] rf1' [-> Hadj];
    cycle 1. { wp_simp. rewrite Hlog in Hadj. destruct Hadj. by apply SO_covered. }
  wp_simp. apply wp_GetFirstLog; [done|]. intros first _ Hfi _.
  destruct (adjusted_prev _ _ _ _ _ Hadj Hl) as [Hp _]; [lia|].
  assert (Hok := wp_sendlog_accept env a rf rf1 p t es Hready Hl Hlog
                   ltac:(lia) H0 Hfr Hadj ltac:(lia) Hc Hts).
  rewrite Hfi. rewrite wp_bind. rewrite Hlog in *.
  destruct (Z.ltb_spec (firstIndex (log rf)) p); cycle 1.
  { rewrite wp_ret. apply Hok. lia. }
  rewrite wp_bind. apply wp_logAt; rewrite ?Hlog; [done|lia|].
  intros e He _. rewrite wp_ret.
  assert (Hat : entryAt (log rf) p = Some e).
  { unfold entryAt. destruct (Z.leb_spec (firstIndex (log rf)) p); [done|lia]. }
  destruct (Z.eqb_spec (le_Term e) t) as [Et|Et]; simpl.
  - apply Hok. rewrite Hat. simpl. by rewrite Et.
  - wp_simp. by eapply SO_mismatch.
Qed.

Lemma wf_RequestSendLog env a rf :
  wf rf -> op_pre rf (OpRequestSendLog a) ->
  wp (RequestSendLog env a) (fun _ rf' => wf rf') rf.
Proof.
  intros Hwf (Hc & Ht & Hnl). unfold RequestSendLog. wp_simp.
  eapply wp_mono; [by apply wp_RequestSendLog_body; [apply Hwf| |]|].
  destruct (when_add_run (env 0%nat) (sl_Term a) rf)
    as (rf1 & Hrun & Hwf1 & Hlog & Hterm & Hnew & Hold & _).
  specialize (Hwf1 Hwf).
  assert (Hr : sendlog_ready env a rf = rf1) by (unfold sendlog_ready; by rewrite Hrun).
  intros b rf2 Hout.
  assert (Hwf2 : wf rf2).
  { destruct Hout as [|? ? ->|? ? ->|rf1' p t es e ? ->|? rf2 p t es Hle -> Hadj Hp ? Hl2 Hct Hv Hst _ Hfr];
      rewrite ?Hr; try done. rewrite Hr in *.
    assert (Hnl1 : state rf1 <> Leader).
    { destruct (decide (currentTerm rf < sl_Term a)) as [Hg|Hg].
      - by rewrite (proj1 (Hnew Hg)).
      - rewrite Hold by lia. apply Hnl. lia. }
    pose proof (log_ok_nonneg _ (wf_log _ Hwf1)).
    pose proof (wf_log _ Hwf1) as Hl1. rewrite Hlog in Hl1.
    destruct (merge_log_ok (log rf) p es) as [Hok _]; try done.
    { destruct Hadj as [(_&_&_&[?|?])|(_&->&_)]; rewrite ?Hlog in *;
        [by left|right; lia|right; lia]. }
    { by eapply adjusted_contig. }
    { by eapply adjusted_terms. }
    injection Hfr as Hf1 Hf2 Hf3 Hf4 _ _. destruct Hwf.
    split; rewrite ?Hl2, ?Hct, ?Hf1, ?Hf2, ?Hf3, ?Hf4; try done; [lia|].
    rewrite Hst. unfold is_state. by case_bool_decide. }
  wp_simp. apply wp_when; intros _; unfold SetElectionTime; wp_simp; [|done].
  by apply (wf_frame rf2).
Qed.

End Safe.
