(* ===== verification/RaftLeader.v ===== *)
(** The leader's side of a peer: commitIndex advance, nextIndex back-off, the
    arguments it sends, and the operations that elect it. *)
From Stdlib Require Import ZArith Lia.
From stdpp Require Import base list numbers.
From S2P Require Import Prelude RaftTypes RaftNode RaftVote RaftWf RaftSafe.

Section Leader.
Context {D : Type} `{LabGob D}.
Implicit Types (rf : Raft D) (l : list (LogEntry D)).

(** ** Definitions *)

(** A majority of the peers is known to hold index [i]. *)
Definition majority rf (i : Z) : Prop :=
  Z.of_nat (peers rf) ÷ 2 < matchCount (matchIndex rf) i.

(** Index [i] may be committed by counting replicas: it is replicated on a
    majority and was created in the leader's own term. *)
Definition committable rf (i : Z) : Prop :=
  majority rf i /\ le_Term <$> entryAt (log rf) i = Some (currentTerm rf).

(** A peer that differs in commitIndex (and in the number of signals) only. *)
Definition with_commit rf (c : Z) (s : nat) : Raft D :=
  set_applySignals s (set_commitIndex c rf).

(** Reference for the commit rule: the largest committable index above the
    current commitIndex, if there is one. *)
Definition commit_advanced rf (c : Z) : Prop :=
  (c = commitIndex rf \/ (commitIndex rf < c <= lastIndex (log rf) /\ committable rf c))
  /\ forall i, c < i <= lastIndex (log rf) -> ~ committable rf i.

(** ** advanceCommit *)

Lemma matchCount_antitone mi i j : i <= j -> matchCount mi j <= matchCount mi i.
Proof.
  intros Hij. unfold matchCount. induction mi as [|m mi IH]; [done|].
  rewrite !filter_cons. repeat case_decide; simpl; try lia.
  exfalso. match goal with H1 : Is_true _, H2 : ~ Is_true _ |- _ => apply H2; revert H1 end.
  destruct (Z.leb_spec j m), (Z.leb_spec i m); simpl; try done; lia.
Qed.

Lemma entryAt_ok l i :
  log_ok l -> firstIndex l <= i <= lastIndex l ->
  exists e, entryAt l i = Some e /\ l !! Z.to_nat (i - firstIndex l) = Some e
         /\ le_Index e = i.
Proof.
  intros Hl Hi. destruct (log_ok_lookup l i Hl Hi) as (e & _ & He & Hx). exists e.
  unfold entryAt. destruct (Z.leb_spec (firstIndex l) i); [done|lia].
Qed.

(** The loop from [b] with commitIndex [c] and all indices of (c, b) ruled out. *)
Lemma wp_advanceCommit_loop fuel b c s rf0 :
  log_ok (log rf0) -> firstIndex (log rf0) <= b -> c < b ->
  lastIndex (log rf0) - b + 1 <= Z.of_nat fuel ->
  (c = commitIndex rf0 \/ (commitIndex rf0 < c <= lastIndex (log rf0) /\ committable rf0 c)) ->
  commitIndex rf0 <= c ->
  (forall i, c < i < b -> ~ committable rf0 i) ->
  wp (advanceCommit_loop fuel b)
    (fun _ rf' => exists c' s', rf' = with_commit rf0 c' s' /\ commit_advanced rf0 c')
    (with_commit rf0 c s).
Proof.
  intros Hl. revert b c s. induction fuel as [|fuel IH]; intros b c s Hb Hcb Hf Hc Hc0 Hno; simpl.
  { wp_simp. exists c, s. split; [done|]. split; [done|]. intros i Hi. apply Hno. lia. }
  wp_simp. apply wp_GetLastLog; [done|]. simpl. intros last _ Hla.
  destruct (Z.leb_spec b (le_Index last)); wp_simp; cycle 1.
  { exists c, s. split; [done|]. split; [done|]. intros i Hi. apply Hno. lia. }
  destruct (Z.leb_spec (matchCount (matchIndex rf0) b) (Z.of_nat (peers rf0) ÷ 2)) as [Hm|Hm].
  { wp_simp. exists c, s. split; [done|]. split; [done|]. intros i Hi [Hmaj Ht].
    destruct (decide (i < b)); [by apply (Hno i); [lia|split]|].
    unfold majority in Hmaj. pose proof (matchCount_antitone (matchIndex rf0) b i). lia. }
  wp_simp. destruct (Z.ltb_spec c b); [|lia]. wp_simp.
  apply wp_logAt; simpl; [done|lia|]. intros e He Hie. wp_simp.
  destruct (entryAt_ok (log rf0) b Hl) as (e' & Hat & He' & _); [lia|]. simplify_eq.
  apply wp_when; intros E; zify_bool; unfold applySignal; wp_simp.
  - apply (IH (le_Index e + 1) (le_Index e) (S s)); try lia.
    right. split; [lia|]. split; [done|]. rewrite Hat. simpl. by rewrite E.
  - apply (IH (le_Index e + 1) c s); try lia; [done|]. intros i Hi [Hmaj Ht].
    destruct (decide (i = le_Index e)) as [->|]; [|by apply (Hno i); [lia|split]].
    rewrite Hat in Ht. simplify_eq/=.
Qed.

Lemma wp_advanceCommit rf :
  log_ok (log rf) -> firstIndex (log rf) <= commitIndex rf + 1 ->
  wp advanceCommit
    (fun _ rf' => exists c s, rf' = with_commit rf c s /\ commit_advanced rf c) rf.
Proof.
  intros Hl Hci. unfold advanceCommit. wp_simp. apply wp_GetLastLog; [done|].
  intros e _ He. wp_simp. rewrite He.
  assert (Hid : rf = with_commit rf (commitIndex rf) (applySignals rf)) by (by destruct rf).
  pose proof (wp_advanceCommit_loop (Z.to_nat (lastIndex (log rf) - commitIndex rf))
                (commitIndex rf + 1) (commitIndex rf) (applySignals rf) rf) as Hw.
  rewrite <- Hid in Hw. apply Hw; try done; try lia.
Qed.

(** ** Back-off of nextIndex *)

Lemma backoff_loop_spec fuel l t b :
  log_ok l -> firstIndex l - 1 <= b <= lastIndex l ->
  b - firstIndex l + 1 <= Z.of_nat fuel ->
  exists b', backoff_loop fuel l (firstIndex l) t b = Ret b'
    /\ firstIndex l - 1 <= b' <= b
    /\ (forall i, b' < i <= b -> le_Term <$> entryAt l i = Some t)
    /\ (firstIndex l <= b' -> le_Term <$> entryAt l b' <> Some t).
Proof.
  intros Hl. revert b. induction fuel as [|fuel IH]; intros b Hb Hf; simpl.
  { exists b. split_and!; try done; lia. }
  destruct (Z.leb_spec (firstIndex l) b); cycle 1.
  { exists b. split_and!; try done; lia. }
  destruct (log_ok_lookup l b Hl) as (e & -> & He & Hie); [lia|].
  destruct (entryAt_ok l b Hl) as (e' & Hat & He' & _); [lia|]. simplify_eq.
  destruct (Z.eqb_spec (le_Term e) t) as [Ht|Ht]; cycle 1.
  { exists (le_Index e). split_and!; try done; try lia. intros _. rewrite Hat. simpl. congruence. }
  destruct (IH (le_Index e - 1)) as (b' & Hrun & Hb' & Hall & Hstop); try lia.
  exists b'. split_and!; try done; try lia. intros i Hi.
  destruct (decide (i = le_Index e)) as [->|]; [rewrite Hat; simpl; congruence|].
  apply Hall. lia.
Qed.

Lemma Forall_go_set (P : Z -> Prop) (xs : list Z) i x :
  Forall P xs -> P x -> Forall P (<[i := x]> xs).
Proof. intros Hf Hx. by apply Forall_insert. Qed.

(** [wf] after an update of the leader's arrays. *)
Lemma wf_arrays rf ni mi :
  wf rf -> length ni = peers rf -> length mi = peers rf ->
  (state rf = Leader -> Forall (fun x => 0 <= x <= lastIndex (log rf) + 1) ni) ->
  wf (set_matchIndex mi (set_nextIndex ni rf)).
Proof. intros [] Hni Hmi Hn. by split. Qed.

Lemma wf_set_next rf i x :
  wf rf -> (state rf = Leader -> 0 <= x <= lastIndex (log rf) + 1) ->
  wf (set_nextIndex (<[i := x]> (nextIndex rf)) rf).
Proof.
  intros [] Hx. split; simpl; try done; [by rewrite length_insert|].
  intros Hs. apply Forall_go_set; auto.
Qed.

Lemma wf_set_match rf i x :
  wf rf -> wf (set_matchIndex (<[i := x]> (matchIndex rf)) rf).
Proof. intros []. split; simpl; try done. by rewrite length_insert. Qed.

Lemma wf_with_commit rf c s : wf rf -> wf (with_commit rf c s).
Proof. intros Hwf. by apply (wf_frame rf). Qed.

(** After a refusal the leader steps back before the run of entries of one
    term that ends just below the old nextIndex; if that falls off the log it
    will send its snapshot. *)
Lemma wp_backoff i recode rf next :
  wf rf -> state rf = Leader -> nextIndex rf !! Z.to_nat i = Some next -> 0 <= i ->
  wp (backoff i recode) (fun _ rf' =>
    exists next', rf' = set_nextIndex (<[Z.to_nat i := next']> (nextIndex rf)) rf
      /\ (next <> recode -> next' = next)
      /\ (next = recode -> next - 1 <= firstIndex (log rf) -> next' = firstIndex (log rf))
      /\ (next = recode -> firstIndex (log rf) < next - 1 ->
          firstIndex (log rf) <= next' < next
          /\ (exists t, forall j, next' <= j < next -> j <= lastIndex (log rf) ->
               le_Term <$> entryAt (log rf) j = Some t)
          /\ (firstIndex (log rf) < next' ->
              le_Term <$> entryAt (log rf) (next' - 1)
              <> le_Term <$> entryAt (log rf) next'))
      /\ 0 <= next' <= lastIndex (log rf) + 1) rf.
Proof.
  intros Hwf Hs Hn Hi. pose proof (wf_log _ Hwf) as Hl. pose proof (log_ok_nonneg _ Hl).
  pose proof (lookup_lt_Some _ _ _ Hn) as Hlt.
  assert (Hnr : 0 <= next <= lastIndex (log rf) + 1).
  { pose proof (wf_next _ Hwf Hs) as Hf. rewrite Forall_lookup in Hf. by eapply Hf. }
  unfold backoff. wp_simp. rewrite (proj2 (go_idx_lookup _ i next)) by done. wp_simp.
  destruct (Z.eqb_spec next recode) as [->|Hne]; cycle 1.
  { wp_simp. exists next. rewrite list_insert_id by done. split_and!; try done;
      try (intros; congruence). all: try lia. by destruct rf. }
  wp_simp. apply wp_GetFirstLog; [done|]. intros first _ Hfi _. rewrite Hfi.
  destruct (Z.leb_spec (recode - 1) (firstIndex (log rf))).
  { wp_simp. rewrite go_set_ok by lia. wp_simp. eexists. split_and!; try done; lia. }
  wp_simp. apply wp_GetLastLog; [done|]. intros last _ Hla. rewrite Hla.
  set (back := if _ <? _ then _ else _).
  assert (Hback : back = recode - 1) by (unfold back; case_match; zify_bool; lia).
  wp_simp. apply wp_logAt; [done|lia|]. intros e He Hie. wp_simp.
  destruct (entryAt_ok (log rf) back Hl) as (e' & Hat & He' & _); [lia|].
  assert (e' = e) as -> by congruence. clear He'.
  destruct (backoff_loop_spec (Z.to_nat (back - firstIndex (log rf) + 1)) (log rf)
              (le_Term e) back Hl) as (b' & -> & Hb' & Hall & Hstop); try lia.
  wp_simp. rewrite go_set_ok by lia. wp_simp. exists (b' + 1).
  assert (b' < back).
  { destruct (decide (b' = back)) as [->|]; [|lia]. exfalso. apply Hstop; [lia|].
    by rewrite Hat. }
  split_and!; try done; try lia. intros _ _. split_and!; try lia.
  - exists (le_Term e). intros j Hj _. apply Hall. lia.
  - intros Hgt. replace (b' + 1 - 1) with b' by lia. rewrite (Hall (b' + 1)) by lia.
    apply Hstop. lia.
Qed.

Lemma wf_sendLog_reply env i a recode r rf :
  wf rf -> op_pre rf (OpSendLogReply i a recode r) ->
  wp (sendLog_reply env i a recode r) (fun _ rf' => wf rf') rf.
Proof.
  intros Hwf ([Hi0 Hi1] & Hci & Hent). unfold sendLog_reply. wp_simp.
  destruct (currentTerm rf <? slr_Term r).
  { eapply wp_mono; [by apply wf_AddCurrentTerm|]. by intros ? ? [? _]. }
  wp_simp. case_match eqn:Hc; [|done]. apply andb_true_iff in Hc as [Hs _].
  apply bool_decide_eq_true in Hs. pose proof (wf_ni _ Hwf). pose proof (wf_mi _ Hwf).
  destruct (slr_Success r).
  - unfold onSendLogSuccess. destruct (Z.ltb_spec 0 (Z.of_nat (length (sl_Entries a)))); [|done].
    destruct (go_idx_last (sl_Entries a)) as (e & He & Hlast);
      [intros E; rewrite E in *; simpl in *; lia|].
    specialize (Hent e Hlast). wp_simp. rewrite He. wp_simp.
    destruct (go_idx_ok (matchIndex rf) i) as [m Hm]; [lia|]. rewrite Hm. wp_simp.
    apply (wp_mono _ (fun _ rf1 => wf rf1 /\ log rf1 = log rf /\ commitIndex rf1 = commitIndex rf
                                   /\ peers rf1 = peers rf)).
    { case_match; wp_simp; [|done]. rewrite go_set_ok by lia. wp_simp.
      split_and!; try done. by apply wf_set_match. }
    intros ? rf1 (Hwf1 & Hl1 & Hc1 & Hp1). wp_simp. pose proof (wf_ni _ Hwf1).
    destruct (go_idx_ok (nextIndex rf1) i) as [n Hn]; [lia|]. rewrite Hn. wp_simp.
    apply (wp_mono _ (fun _ rf2 => wf rf2 /\ log rf2 = log rf /\ commitIndex rf2 = commitIndex rf)).
    { case_match; wp_simp; [|done]. rewrite go_set_ok by lia. wp_simp.
      split_and!; try done. apply wf_set_next; [done|]. rewrite Hl1. lia. }
    intros ? rf2 (Hwf2 & Hl2 & Hc2). eapply wp_mono; [apply wp_advanceCommit|].
    + apply Hwf2.
    + by rewrite Hl2, Hc2.
    + intros ? rf3 (c & s & -> & _). by apply wf_with_commit.
  - destruct (lookup_lt_is_Some_2 (nextIndex rf) (Z.to_nat i)) as [next Hn]; [lia|].
    eapply wp_mono; [by eapply wp_backoff|]. intros ? ? (n' & -> & _ & _ & _ & Hn').
    by apply wf_set_next.
Qed.

Lemma wf_sendSnapShot_reply env i ctx r rf :
  wf rf -> op_pre rf (OpSnapShotReply i ctx r) ->
  wp (sendSnapShot_reply env i ctx r) (fun _ rf' => wf rf') rf.
Proof.
  intros Hwf ([Hi0 Hi1] & Hci & Hctx). unfold sendSnapShot_reply. wp_simp.
  destruct (currentTerm rf <? rsr_Term r).
  { eapply wp_mono; [by apply wf_AddCurrentTerm|]. by intros ? ? [? _]. }
  wp_simp. case_match; [|done]. pose proof (wf_ni _ Hwf). pose proof (wf_mi _ Hwf).
  wp_simp. destruct (go_idx_ok (nextIndex rf) i) as [n Hn]; [lia|]. rewrite Hn. wp_simp.
  apply (wp_mono _ (fun _ rf1 => wf rf1 /\ log rf1 = log rf /\ commitIndex rf1 = commitIndex rf
                                 /\ peers rf1 = peers rf)).
  { case_match; wp_simp; [|done]. rewrite go_set_ok by lia. wp_simp.
    split_and!; try done. apply wf_set_next; [done|]. lia. }
  intros ? rf1 (Hwf1 & Hl1 & Hc1 & Hp1). wp_simp. pose proof (wf_mi _ Hwf1).
  destruct (go_idx_ok (matchIndex rf1) i) as [m Hm]; [lia|]. rewrite Hm. wp_simp.
  apply (wp_mono _ (fun _ rf2 => wf rf2 /\ log rf2 = log rf /\ commitIndex rf2 = commitIndex rf)).
  { case_match; wp_simp; [|done]. rewrite go_set_ok by lia. wp_simp.
    split_and!; try done. by apply wf_set_match. }
  intros ? rf2 (Hwf2 & Hl2 & Hc2). eapply wp_mono; [apply wp_advanceCommit|].
  - apply Hwf2.
  - by rewrite Hl2, Hc2.
  - intros ? rf3 (c & s & -> & _). by apply wf_with_commit.
Qed.

Lemma wf_sendSnapShot_begin i rf :
  wf rf -> 0 <= i < Z.of_nat (peers rf) ->
  wp (sendSnapShot_begin i) (fun _ rf' => wf rf') rf.
Proof.
  intros Hwf Hi. pose proof (wf_ni _ Hwf). pose proof (wf_mi _ Hwf).
  unfold sendSnapShot_begin. wp_simp. case_match; [done|]. wp_simp.
  destruct (go_idx_ok (nextIndex rf) i) as [n Hn]; [lia|]. rewrite Hn. wp_simp.
  destruct (go_idx_ok (matchIndex rf) i) as [m Hm]; [lia|]. rewrite Hm. wp_simp.
  apply wp_GetFirstLog; [apply Hwf|]. intros e _ _ _. by wp_simp.
Qed.

(** ** Start *)

Lemma wp_Start c rf :
  wf rf -> wp (Start c) (fun r rf' =>
    wf rf' /\
    if is_state (state rf) Leader then
      r = (lastIndex (log rf) + 1, currentTerm rf, true)
      /\ log rf' = log rf ++ [mkLogEntry (currentTerm rf) (lastIndex (log rf) + 1) (Some c)]
      /\ matchIndex rf' = <[Z.to_nat (me rf) := lastIndex (log rf) + 1]> (matchIndex rf)
      /\ (currentTerm rf', voteFor rf', state rf', nextIndex rf', commitIndex rf')
         = (currentTerm rf, voteFor rf, state rf, nextIndex rf, commitIndex rf)
    else r = (0, currentTerm rf, false) /\ rf' = rf) rf.
Proof.
  intros Hwf. pose proof (wf_log _ Hwf) as Hl. pose proof (wf_mi _ Hwf). pose proof (wf_me _ Hwf).
  unfold Start. wp_simp. destruct (is_state (state rf) Leader); [|by wp_simp].
  simpl. wp_simp. apply wp_GetLastLog; [done|]. intros e _ He. wp_simp.
  rewrite go_set_ok by lia. unfold persist. wp_simp. rewrite He. split; [|done].
  set (es := [mkLogEntry (currentTerm rf) (lastIndex (log rf) + 1) (Some c)]).
  destruct (log_ok_app (log rf) es Hl) as [Hok Hf].
  { apply contig_cons. split; [done|]. by intros k x Hx. }
  { constructor; [apply Hwf|constructor]. }
  destruct Hwf as [_ Hni Hmi Hme Htm Hnx]. split; simpl; try done; [by rewrite length_insert|].
  intros Hs. eapply Forall_impl; [|by apply Hnx]. simpl. unfold lastIndex in *.
  intros x Hx. unfold es in *. rewrite Hf, length_app. simpl. lia.
Qed.

(** ** sendLogTicketCore *)

(** What a receiver may rely on in arguments built by this leader: they carry
    the whole log above PrevLogIndex, in order. *)
Definition args_of rf (a : SendLogArgs D) : Prop :=
  sl_Term a = currentTerm rf /\ sl_LeaderId a = me rf /\ sl_LeaderCommit a = commitIndex rf
  /\ contig (sl_PrevLogIndex a + 1) (sl_Entries a)
  /\ Forall (fun e => 0 <= le_Term e) (sl_Entries a)
  /\ firstIndex (log rf) <= sl_PrevLogIndex a
  /\ sl_PrevLogIndex a + Z.of_nat (length (sl_Entries a)) = lastIndex (log rf)
  /\ le_Term <$> entryAt (log rf) (sl_PrevLogIndex a) = Some (sl_PrevLogTerm a)
  /\ sl_Entries a = drop (Z.to_nat (sl_PrevLogIndex a + 1 - firstIndex (log rf))) (log rf).

(** The three kinds of element sendLogTicketCore prepares. *)
Definition prepared rf (i : Z) (x : SendLogArgs D * Z) : Prop :=
  (i = me rf /\ x = (zeroSendLogArgs, 0))
  \/ (i <> me rf /\ sl_ShouldSendSnapShot (fst x) = true)
  \/ (i <> me rf /\ sl_ShouldSendSnapShot (fst x) = false /\ args_of rf (fst x)
      /\ snd x = sl_PrevLogIndex (fst x) + 1).

Lemma args_from_log rf next (first : LogEntry D) :
  wf rf -> firstIndex (log rf) < next <= lastIndex (log rf) + 1 ->
  le_Index first = firstIndex (log rf) ->
  exists pre, go_idx (log rf) (next - le_Index first - 1) = Ret pre
    /\ go_from (log rf) (next - le_Index first)
       = Ret (drop (Z.to_nat (next - firstIndex (log rf))) (log rf))
    /\ forall mt, args_of rf (mkSendLogArgs (currentTerm rf) (me rf) (le_Index pre) (le_Term pre)
         (drop (Z.to_nat (next - firstIndex (log rf))) (log rf)) (commitIndex rf) mt false)
    /\ next = le_Index pre + 1.
Proof.
  intros Hwf Hnext Hfi. pose proof (wf_log _ Hwf) as Hl. rewrite Hfi.
  destruct (log_ok_lookup (log rf) (next - 1) Hl) as (pre & Hg & Hk & Hi); [lia|].
  exists pre. replace (next - 1 - firstIndex (log rf)) with (next - firstIndex (log rf) - 1) in * by lia.
  split; [done|]. unfold lastIndex in *. rewrite go_from_ok by lia. split; [done|].
  intros mt. split; [|lia]. unfold args_of. simpl.
  destruct (entryAt_ok (log rf) (next - 1) Hl) as (e' & Hat & He' & _); [unfold lastIndex; lia|].
  replace (next - 1 - firstIndex (log rf)) with (next - firstIndex (log rf) - 1) in He' by lia.
  simplify_eq. rewrite Hi. split_and!; try done; try lia.
  - replace (next - 1 + 1) with (firstIndex (log rf) + Z.of_nat (Z.to_nat (next - firstIndex (log rf)))) by lia.
    apply contig_drop, Hl.
  - apply Forall_lookup. intros k e Hke. rewrite lookup_drop in Hke.
    replace (Z.to_nat (next - firstIndex (log rf)) + k)%nat
      with (S (Z.to_nat (next - firstIndex (log rf) - 1) + k)) in Hke by lia.
    by eapply (lo_terms _ Hl).
  - rewrite length_drop. unfold lastIndex. lia.
  - by rewrite Hat.
  - f_equal. lia.
Qed.

Lemma wp_prepareSendLog i rf :
  wf rf -> state rf = Leader -> 0 <= i < Z.of_nat (peers rf) ->
  wp (prepareSendLog i) (fun x rf' =>
    prepared rf i x /\ wf rf' /\ exists ni, rf' = set_nextIndex ni rf) rf.
Proof.
  intros Hwf Hs Hi. pose proof (wf_log _ Hwf) as Hl. pose proof (wf_ni _ Hwf) as Hni.
  assert (Hid : rf = set_nextIndex (nextIndex rf) rf) by (by destruct rf).
  unfold prepareSendLog, prepared. wp_simp.
  destruct (Z.eqb_spec i (me rf)) as [->|Hme]; wp_simp; [split_and!; eauto|].
  apply wp_GetFirstLog; [done|]. intros first _ Hfi Hd. wp_simp.
  destruct (lookup_lt_is_Some_2 (nextIndex rf) (Z.to_nat i)) as [next Hn]; [lia|].
  assert (Hgi : go_idx (nextIndex rf) i = Ret next) by (apply go_idx_lookup; split; [lia|done]).
  assert (Hr : 0 <= next <= lastIndex (log rf) + 1).
  { pose proof (wf_next _ Hwf Hs) as Hf. rewrite Forall_lookup in Hf. by eapply Hf. }
  pose proof (log_ok_nonneg _ Hl).
  destruct (Z.eqb_spec (le_Term first) (-1)) as [Ht|Ht]; simpl; wp_simp; rewrite Hgi; wp_simp.
  - destruct Hd as [[_ Hf0]|?]; [|lia].
    apply (wp_mono _ (fun _ rf1 => exists next', rf1 =
             set_nextIndex (<[Z.to_nat i := next']> (nextIndex rf)) rf
             /\ 1 <= next' <= lastIndex (log rf) + 1)).
    { destruct (Z.eqb_spec next (le_Index first)); wp_simp.
      - rewrite go_set_ok by lia. wp_simp. eexists. split; [done|]. lia.
      - exists next. rewrite list_insert_id by done. split; [done|]. lia. }
    intros ? rf1 (next' & -> & Hn'). wp_simp.
    assert (Hgi' : go_idx (<[Z.to_nat i := next']> (nextIndex rf)) i = Ret next').
    { apply go_idx_lookup. split; [lia|]. apply list_lookup_insert_eq. lia. }
    rewrite Hgi'. wp_simp. destruct (Z.ltb_spec next' 0); [lia|]. wp_simp. rewrite Hgi'. wp_simp.
    destruct (args_from_log rf next' first Hwf) as (pre & -> & Hfrom & Ha); [lia|done|].
    wp_simp. rewrite Hfrom. wp_simp. destruct (Ha
      (if Z.of_nat (length (drop (Z.to_nat (next' - firstIndex (log rf))) (log rf))) =? 0
       then HeartBeatMsgType else LogMsgType)) as [? ?].
    split_and!; [by auto 10|apply wf_set_next; [done|lia]|eauto].
  - destruct (Z.leb_spec next (le_Index first)); wp_simp; [split_and!; eauto|].
    repeat (rewrite Hgi; wp_simp). destruct (Z.ltb_spec next 0); [lia|].
    wp_simp. repeat (rewrite Hgi; wp_simp).
    destruct (args_from_log rf next first Hwf) as (pre & -> & Hfrom & Ha); [lia|done|].
    wp_simp. rewrite Hfrom. wp_simp. destruct (Ha
      (if Z.of_nat (length (drop (Z.to_nat (next - firstIndex (log rf))) (log rf))) =? 0
       then HeartBeatMsgType else LogMsgType)) as [? ?].
    split_and!; [by auto 10|done|eauto].
Qed.

Lemma wp_sendLogTicketCore_begin rf :
  wf rf -> wp sendLogTicketCore_begin (fun o rf' =>
    wf rf' /\ (exists ni, rf' = set_nextIndex ni rf)
    /\ match o with
       | None => state rf <> Leader
       | Some xs => state rf = Leader /\ Forall2 (prepared rf) (range (peers rf)) xs
       end) rf.
Proof.
  intros Hwf. unfold sendLogTicketCore_begin. wp_simp.
  assert (Hid : rf = set_nextIndex (nextIndex rf) rf) by (by destruct rf).
  unfold is_state. case_bool_decide as Hs; simpl; wp_simp; [|by eauto].
  eapply (wp_mono _ (fun xs rf' => wf rf' /\ (exists ni, rf' = set_nextIndex ni rf)
                                  /\ Forall2 (prepared rf) (range (peers rf)) xs)).
  - apply (wp_m_map _ _ (fun done xs rf' => wf rf' /\ (exists ni, rf' = set_nextIndex ni rf)
                                           /\ Forall2 (prepared rf) done xs)).
    { split_and!; eauto. }
    intros l1 i l2 ys rf' Hr (Hwf' & (ni & ->) & Hf).
    assert (Hi : i ∈ range (peers rf)) by (rewrite Hr; apply elem_of_app; right; left).
    apply elem_of_range in Hi.
    eapply wp_mono; [by apply wp_prepareSendLog|].
    intros x rf2 (Hx & Hwf2 & ni2 & ->). split_and!; [done|by eexists|].
    apply Forall2_app; [done|]. by constructor.
  - intros xs rf' (? & ? & ?). wp_simp. auto.
Qed.

(** ** Becoming leader *)

(** resetRaftIndex makes every follower's nextIndex point just past the log and
    clears matchIndex, except for the peer itself. *)
Lemma wp_resetRaftIndex rf :
  log_ok (log rf) -> length (nextIndex rf) = peers rf -> length (matchIndex rf) = peers rf ->
  0 <= me rf < Z.of_nat (peers rf) ->
  wp resetRaftIndex (fun _ rf' =>
    rf' = set_matchIndex (<[Z.to_nat (me rf) := lastIndex (log rf)]> (replicate (peers rf) 0))
            (set_nextIndex (replicate (peers rf) (lastIndex (log rf) + 1)) rf)) rf.
Proof.
  intros Hl Hni Hmi Hme.
  set (T1 := replicate (peers rf) (lastIndex (log rf) + 1)).
  set (T2 := <[Z.to_nat (me rf) := lastIndex (log rf)]> (replicate (peers rf) 0)).
  assert (HT1 : length T1 = peers rf) by (unfold T1; by rewrite length_replicate).
  assert (HT2 : length T2 = peers rf) by (unfold T2; by rewrite length_insert, length_replicate).
  unfold resetRaftIndex. wp_simp. rewrite Hni.
  set (I := fun (done : list Z) rf' =>
    rf' = set_matchIndex (filled (length done) T2 (matchIndex rf))
            (set_nextIndex (filled (length done) T1 (nextIndex rf)) rf)).
  eapply wp_mono.
  - apply (wp_m_for _ _ I). { unfold I, filled. simpl. by destruct rf. }
    intros l1 i l2 rf1 Hr ->. destruct (range_split _ _ _ _ Hr) as [-> Hk]. simpl.
    set (k := length l1) in *. wp_simp.
    destruct (log_ok_last _ Hl) as (e & He & _ & Hie).
    assert (Hhead : (if Z.of_nat (length (log rf)) =? 1 then lift (go_idx (log rf) 0)
                     else lift (go_idx (log rf) (Z.of_nat (length (log rf)) - 1)))
                    = lift (S:=Raft D) (Ret e)).
    { destruct (Z.eqb_spec (Z.of_nat (length (log rf))) 1) as [E|E]; [|by rewrite He].
      rewrite E in He. by rewrite <- He. }
    rewrite Hhead. wp_simp.
    rewrite go_set_ok by (rewrite length_filled; lia). wp_simp.
    rewrite go_set_ok by (rewrite length_filled; lia). wp_simp.
    rewrite !Nat2Z.id.
    assert (Hnext : <[k := le_Index e + 1]> (filled k T1 (nextIndex rf))
                    = filled (S k) T1 (nextIndex rf)).
    { rewrite Hie. apply filled_step; [lia|]. unfold T1. apply lookup_replicate. done. }
    rewrite Hnext. unfold I. rewrite length_app. simpl. replace (length l1 + 1)%nat with (S k) by lia.
    destruct (Z.eqb_spec (Z.of_nat k) (me rf)) as [Eme|Eme]; wp_simp.
    + apply wp_GetLastLog; simpl; [done|]. intros e' _ He'. wp_simp.
      rewrite go_set_ok by (rewrite length_insert, length_filled; lia). wp_simp.
      rewrite !Nat2Z.id, list_insert_insert_eq, He'.
      rewrite (filled_step k T2) by
        (lia || (unfold T2; replace (Z.to_nat (me rf)) with k by lia;
                 apply list_lookup_insert_eq; rewrite length_replicate; lia)). done.
    + rewrite (filled_step k T2); [done|lia|]. unfold T2.
      rewrite list_lookup_insert_ne by lia. by apply lookup_replicate.
  - intros ? rf' ->. unfold filled, range. rewrite length_fmap, length_seq.
    rewrite !take_ge, !drop_ge, !app_nil_r by lia. done.
Qed.

Lemma wf_ticker_decide a t rf :
  wf rf -> wp (ticker_decide a t) (fun _ rf' => wf rf') rf.
Proof.
  intros Hwf. unfold ticker_decide. wp_simp. repeat (case_match; [|done]). wp_simp.
  eapply wp_mono; [apply (wp_resetRaftIndex (set_state Leader rf)); apply Hwf|]. intros ? rf' ->. simpl.
  pose proof (log_ok_nonneg _ (wf_log _ Hwf)). destruct Hwf.
  split; simpl; try done; rewrite ?length_insert, ?length_replicate; try done.
  intros _. apply Forall_replicate. lia.
Qed.

Lemma wf_ticker_begin now env rf :
  wf rf -> wp (ticker_begin now env) (fun _ rf' => wf rf') rf.
Proof.
  intros Hwf. unfold ticker_begin, SetElectionTime, persist. wp_simp. case_match; [|done].
  wp_simp. case_match; wp_simp.
  - by apply (wf_frame rf); simpl; try lia.
  - destruct (log_ok_last _ (wf_log _ Hwf)) as (e & -> & _). wp_simp.
    by apply (wf_frame rf); simpl; try lia.
Qed.

Lemma wf_onVoteReply env r t rf :
  wf rf -> wp (onVoteReply env r t) (fun _ rf' => wf rf') rf.
Proof.
  intros Hwf. unfold onVoteReply. destruct r as [r|]; wp_simp; [|done].
  eapply wp_mono; [by apply wf_add_when|]. intros ? ? [? _]. by wp_simp.
Qed.

(** ** applyTicket *)

(** The batch is the committed suffix of the log that has not been applied. *)
Lemma wp_applyTicket_collect rf :
  log_ok (log rf) -> firstIndex (log rf) <= lastApplied rf + 1 ->
  commitIndex rf <= lastIndex (log rf) ->
  wp applyTicket_collect (fun batch rf' => rf' = rf
    /\ length batch = Z.to_nat (commitIndex rf - lastApplied rf)
    /\ contig (lastApplied rf + 1) batch
    /\ forall k e, batch !! k = Some e ->
         entryAt (log rf) (lastApplied rf + 1 + Z.of_nat k) = Some e) rf.
Proof.
  intros Hl Hf Hc. unfold applyTicket_collect. wp_simp.
  eapply wp_mono.
  - apply (wp_m_map _ _ (fun done batch rf' => rf' = rf /\ length batch = length done
      /\ forall k e, batch !! k = Some e ->
           entryAt (log rf) (lastApplied rf + 1 + Z.of_nat k) = Some e
           /\ le_Index e = lastApplied rf + 1 + Z.of_nat k)).
    { done. }
    intros l1 i l2 ys rf' Hr (-> & Hlen & Hys). destruct (range_split _ _ _ _ Hr) as [-> Hk].
    set (j := lastApplied rf + 1 + Z.of_nat (length l1)).
    destruct (entryAt_ok (log rf) j Hl) as (e & Hat & He & Hie); [unfold j; lia|].
    apply wp_logAt; [done|unfold j; lia|]. intros e' He' _. fold j in He'. simplify_eq.
    split_and!; [done|rewrite !length_app; simpl; lia|].
    intros k x [Hx|[? Hx]]%lookup_app_Some; [by apply Hys|].
    destruct (k - length ys)%nat eqn:Ek; simplify_eq/=.
    assert (k = length l1) as -> by lia. done.
  - intros batch rf' (-> & Hlen & Hb). unfold range in Hlen.
    rewrite length_fmap, length_seq in Hlen. split_and!; try done.
    + intros k e He. apply (Hb k e He).
    + intros k e He. apply (Hb k e He).
Qed.

Lemma wf_applyTicket_finish b rf :
  wf rf -> wp (applyTicket_finish b) (fun _ rf' => wf rf') rf.
Proof.
  intros Hwf. unfold applyTicket_finish. destruct (list.last b); wp_simp; [|done].
  apply wp_when; intros _; wp_simp; [by apply (wf_frame rf)|done].
Qed.

(** ** All operations *)

Lemma wp_ignore {A} (m : M (Raft D) A) Q rf :
  wp m (fun _ rf' => Q rf') rf -> wp (ignore m) (fun _ rf' => Q rf') rf.
Proof. intros Hm. unfold ignore. rewrite wp_bind. eapply wp_mono; [exact Hm|]. done. Qed.

Lemma wf_exec env op rf :
  wf rf -> op_pre rf op -> wp (exec env op) (fun _ rf' => wf rf') rf.
Proof.
  intros Hwf Hpre. destruct op; simpl; try (apply wp_ignore).
  - by apply wf_Snapshot.
  - by apply wf_RequestVote.
  - by apply wf_RequestHeartBeat.
  - by apply wf_RequestInstallSnapShot.
  - by apply wf_installSnapshotDone.
  - by apply wf_RequestSendLog.
  - eapply wp_mono; [by apply wp_Start|]. by intros ? ? [? _].
  - unfold Kill. wp_simp. by apply (wf_frame rf).
  - by apply wf_sendSnapShot_begin.
  - by apply wf_sendSnapShot_reply.
  - eapply wp_mono; [by apply wp_sendLogTicketCore_begin|]. by intros ? ? [? _].
  - by apply wf_sendLog_reply.
  - by apply wf_ticker_begin.
  - by apply wf_onVoteReply.
  - by apply wf_ticker_decide.
  - destruct Hpre. eapply wp_mono; [apply wp_applyTicket_collect; try done; apply Hwf|].
    by intros ? ? [-> _].
  - by apply wf_applyTicket_finish.
Qed.

End Leader.
