(* ===== verification/RaftSpec.v ===== *)
(** Specifications of the operations of one peer that serve as interface to the
    theorems: votes, log updates, snapshots, recovery. *)
From Stdlib Require Import ZArith Lia.
From stdpp Require Import base list numbers.
From S2P Require Import Prelude RaftTypes RaftNode RaftVote RaftWf RaftSafe RaftLeader.

(** ** Supporting definitions and lemmas *)

Section Specs.
Context {D : Type} `{LabGob D}.
Implicit Types (rf : Raft D) (l : list (LogEntry D)).

(** Raft's order on logs: the last term decides, then the length. *)
Definition up_to_date (lastTerm lastIndex localTerm localIndex : Z) : Prop :=
  localTerm < lastTerm \/ (lastTerm = localTerm /\ localIndex <= lastIndex).

Definition lastTerm l : Z := default (-1) (le_Term <$> list.last l).

(** When a vote may be granted: the request is not from the past, and the voter
    has already voted for this candidate in that term, or has no vote in that
    term and does not have a more complete log. *)
Definition may_grant (a : RequestVoteArgs) rf : Prop :=
  currentTerm rf <= rv_Term a
  /\ ((rv_Term a = currentTerm rf /\ voteFor rf = rv_CandidateId a)
      \/ ((rv_Term a > currentTerm rf \/ voteFor rf = -1)
          /\ up_to_date (rv_LastLogTerm a) (rv_LastLogIndex a)
               (lastTerm (log rf)) (lastIndex (log rf)))).

Lemma lastTerm_entry l e : l !! (length l - 1)%nat = Some e -> lastTerm l = le_Term e.
Proof.
  intros He. unfold lastTerm. rewrite last_lookup.
  replace (Init.Nat.pred (length l)) with (length l - 1)%nat by lia. by rewrite He.
Qed.

(** The body of RequestVote, once the term has been caught up with. *)
Lemma vote_body_caught_up env a rf :
  log_ok (log rf) -> 0 <= rv_CandidateId a -> currentTerm rf <= rv_Term a ->
  exists rf1, when (currentTerm rf <? rv_Term a) (AddCurrentTerm (env 0%nat) (rv_Term a)) rf = (rf1, Ret tt)
    /\ log rf1 = log rf /\ currentTerm rf1 = rv_Term a
    /\ (rv_Term a <= currentTerm rf -> rf1 = rf)
    /\ exists g : bool, RequestVote_body env a rf
         = ((if g then set_voteFor (rv_CandidateId a) rf1 else rf1), Ret g)
    /\ (g = true <-> may_grant a rf).
Proof.
  intros Hl Hid Hle. destruct (when_add_run (env 0%nat) (rv_Term a) rf)
    as (rf1 & Hrun & _ & Hlog & Hterm & Hnew & Hold & _).
  rewrite Z.max_r in Hterm by done.
  exists rf1. split_and!; try done. unfold may_grant.
  assert (Hv : voteFor rf1 = -1 <-> rv_Term a > currentTerm rf \/ voteFor rf = -1).
  { destruct (decide (currentTerm rf < rv_Term a)) as [Hg|Hg].
    - rewrite (proj2 (Hnew Hg)). split; [left; lia|done].
    - rewrite Hold by lia. split; [by right|]. intros [?|?]; [lia|done]. }
  assert (Hsame : voteFor rf1 = rv_CandidateId a ->
                  rv_Term a = currentTerm rf /\ voteFor rf = rv_CandidateId a).
  { intros E. destruct (decide (currentTerm rf < rv_Term a)) as [Hg|Hg].
    - rewrite (proj2 (Hnew Hg)) in E. lia.
    - rewrite Hold in E by lia. split; [lia|done]. }
  unfold RequestVote_body. m_exec. destruct (Z.ltb_spec (rv_Term a) (currentTerm rf)); [lia|].
  unfold when in Hrun. m_exec. unfold mret, M_ret in Hrun. rewrite Hrun.
  rewrite Hterm, Z.eqb_refl. simpl.
  destruct (Z.eqb_spec (voteFor rf1) (rv_CandidateId a)) as [E|E].
  { exists true. split; [done|]. split; [|done]. intros _. split; [done|]. left. auto. }
  destruct (Z.eqb_spec (voteFor rf1) (-1)) as [E1|E1]; simpl; cycle 1.
  { exists false. split; [done|]. split; [done|].
    intros [_ [[? ?]|[? _]]]; [rewrite Hold in E by lia; done|]. exfalso. by apply E1, Hv. }
  destruct (log_ok_last _ Hl) as (e & He & Hk & Hi). pose proof (log_ok_length _ Hl).
  unfold GetLastLog. rewrite Hlog.
  destruct (Z.eqb_spec (Z.of_nat (length (log rf))) 0); [lia|]. m_exec. rewrite Hlog, He.
  rewrite (lastTerm_entry _ _ Hk), <- Hi. unfold up_to_date.
  match goal with |- context [if ?b then _ else _] => destruct b eqn:Eb end;
    [exists true|exists false]; split; try done; zify_bool.
  - split; [|done]. intros _. split; [done|]. right. split; [by apply Hv|].
    destruct Eb as [?|?]; zify_bool; lia.
  - split; [done|]. intros [_ [[? ?]|[_ Hup]]]; [rewrite Hold in E by lia; done|].
    match goal with Hd : _ = false \/ _ = false |- _ => destruct Hd end; zify_bool; lia.
Qed.

Lemma wp_RequestVote env a rf :
  log_ok (log rf) -> 0 <= rv_CandidateId a ->
  wp (RequestVote env a) (fun r rf' =>
    rvr_Term r = currentTerm rf
    /\ log rf' = log rf
    /\ (rvr_VoteGranted r = true <-> may_grant a rf)
    /\ (rvr_VoteGranted r = true ->
          voteFor rf' = rv_CandidateId a /\ currentTerm rf' = rv_Term a /\ state rf' = Follower
          /\ startElectionTime rf' = tk_now (env 1%nat))
    /\ (rvr_VoteGranted r = false ->
          currentTerm rf' = Z.max (currentTerm rf) (rv_Term a)
          /\ (rv_Term a <= currentTerm rf -> rf' = rf))) rf.
Proof.
  intros Hl Hid. unfold RequestVote. wp_simp.
  destruct (decide (currentTerm rf <= rv_Term a)) as [Hle|Hgt]; cycle 1.
  { assert (Hb : RequestVote_body env a rf = (rf, Ret false)).
    { unfold RequestVote_body. m_exec. destruct (Z.ltb_spec (rv_Term a) (currentTerm rf)); [done|lia]. }
    eapply wp_intro; [exact Hb|]. wp_simp. simpl. split_and!; try done; [|intros; split; [lia|done]].
    split; [done|]. intros [? _]. lia. }
  destruct (vote_body_caught_up env a rf Hl Hid Hle)
    as (rf1 & _ & Hlog & Hterm & Hold & g & Hb & Hg).
  eapply wp_intro; [exact Hb|]. unfold SetElectionTime, persist.
  destruct g; simpl; wp_simp; split_and!; try done.
  intros _. rewrite Hterm. split; [lia|done].
Qed.

(** ** Logs *)

Lemma firstIndex_take l k : (0 < k)%nat -> firstIndex (take k l) = firstIndex l.
Proof. intros. unfold firstIndex. destruct l, k; simpl; done || lia. Qed.

Lemma firstIndex_app l es : l <> [] -> firstIndex (l ++ es) = firstIndex l.
Proof. by destruct l. Qed.

(** The log after cutting behind [p] and appending. *)
Lemma entryAt_cut_append l p es i :
  firstIndex l <= p <= lastIndex l ->
  let l' := take (Z.to_nat (p - firstIndex l + 1)) l ++ es in
  firstIndex l' = firstIndex l
  /\ (i <= p -> entryAt l' i = entryAt l i)
  /\ (p < i -> entryAt l' i = es !! Z.to_nat (i - p - 1)).
Proof.
  intros Hp l'. unfold lastIndex in Hp.
  assert (Hlen : length (take (Z.to_nat (p - firstIndex l + 1)) l) = Z.to_nat (p - firstIndex l + 1))
    by (rewrite length_take; lia).
  assert (Hf : firstIndex l' = firstIndex l).
  { unfold l'. rewrite firstIndex_app; [apply firstIndex_take; lia|].
    intros E. rewrite E in Hlen. simpl in Hlen. lia. }
  split; [done|]. unfold entryAt. rewrite Hf. unfold l'.
  split; intros Hi; destruct (Z.leb_spec (firstIndex l) i); try done; try lia.
  - rewrite lookup_app_l by lia. by rewrite lookup_take_lt by lia.
  - rewrite lookup_app_r by lia. f_equal. lia.
Qed.

(** Same, for the update of AppendEntries. *)
Lemma merge_log_spec l p es :
  firstIndex l <= p <= lastIndex l -> contig (p + 1) es ->
  let l' := merge_log l p es in
  firstIndex l' = firstIndex l
  /\ (forall i, i <= p -> entryAt l' i = entryAt l i)
  /\ (forall e, list.last es = Some e ->
        le_Term <$> entryAt l' (le_Index e) = Some (le_Term e))
  /\ (l' = l \/ forall k, entryAt l' (p + 1 + Z.of_nat k) = es !! k)
  /\ merge_log l' p es = l'.
Proof.
  intros Hp Hc l'. unfold l', merge_log. destruct (list.last es) as [e|] eqn:Hlast; [|by split_and!; auto].
  case_decide as Hd.
  { split_and!; try done; [intros e' [= <-]; done|by left|]. by rewrite decide_True. }
  pose proof (contig_last _ _ _ Hc Hlast) as Hie. pose proof Hlast as Hl2. rewrite last_lookup in Hl2.
  assert (Hne : (0 < length es)%nat) by (destruct es; simpl in *; [done|lia]).
  assert (Hx : le_Term <$> entryAt (take (Z.to_nat (p - firstIndex l + 1)) l ++ es) (le_Index e)
               = Some (le_Term e)).
  { destruct (entryAt_cut_append l p es (le_Index e) Hp) as (_ & _ & ->); [|lia].
    replace (Z.to_nat (le_Index e - p - 1)) with (Init.Nat.pred (length es)) by lia. by rewrite Hl2. }
  split_and!.
  - by apply entryAt_cut_append.
  - intros i Hi. by apply entryAt_cut_append.
  - by intros e' [= <-].
  - right. intros k. destruct (entryAt_cut_append l p es (p + 1 + Z.of_nat k) Hp) as (_ & _ & ->);
      [f_equal; lia|lia].
  - by rewrite decide_True.
Qed.

(** ** Snapshots *)

Lemma wp_Snapshot index snap rf :
  log_ok (log rf) ->
  wp (Snapshot index snap) (fun _ rf' =>
    if decide (firstIndex (log rf) < index <= lastIndex (log rf)) then
      firstIndex (log rf') = index /\ lastIndex (log rf') = lastIndex (log rf)
      /\ (forall i, index < i -> entryAt (log rf') i = entryAt (log rf) i)
      /\ le_Term <$> entryAt (log rf') index = le_Term <$> entryAt (log rf) index
      /\ snapshot rf' = snap /\ persister rf' = Save (enc_state (currentTerm rf) (voteFor rf) (log rf')) snap (persister rf)
      /\ (currentTerm rf', voteFor rf', state rf', commitIndex rf', lastApplied rf', nextIndex rf', matchIndex rf')
         = (currentTerm rf, voteFor rf, state rf, commitIndex rf, lastApplied rf, nextIndex rf, matchIndex rf)
    else rf' = rf) rf.
Proof.
  intros Hl. unfold Snapshot. wp_simp.
  apply wp_GetFirstLog; [done|]. intros first _ Hfi _. wp_simp.
  apply wp_GetLastLog; [done|]. intros last _ Hla. rewrite Hfi, Hla.
  destruct (Z.leb_spec index (firstIndex (log rf))); [wp_simp; rewrite decide_False by lia; done|].
  destruct (Z.ltb_spec (lastIndex (log rf)) index); [wp_simp; rewrite decide_False by lia; done|].
  wp_simp. destruct (entryAt_ok _ index Hl) as (e & Hat & Hk & Hx); [lia|].
  destruct (log_ok_lookup _ index Hl) as (e' & He' & Hk' & _); [lia|]. simplify_eq.
  rewrite He'. wp_simp. pose proof (log_ok_nonneg _ Hl).
  unfold lastIndex in *. rewrite go_from_ok by lia. unfold persist. wp_simp.
  rewrite decide_True by lia. simpl. set (k := Z.to_nat _).
  assert (Hlen : length (drop k (log rf)) = (length (log rf) - k)%nat) by apply length_drop.
  split_and!; try done.
  - unfold firstIndex at 1. simpl. lia.
  - intros i Hi. unfold entryAt. unfold firstIndex at 1 2. simpl.
    destruct (Z.leb_spec (le_Index e) i), (Z.leb_spec (firstIndex (log rf)) i); try lia.
    replace (Z.to_nat (i - le_Index e)) with (S (Z.to_nat (i - le_Index e - 1))) by lia. simpl.
    rewrite lookup_drop. f_equal. unfold k. lia.
  - rewrite Hat. unfold entryAt, firstIndex. simpl. rewrite Z.leb_refl.
    by replace (Z.to_nat (le_Index e - le_Index e)) with 0%nat by lia.
Qed.

(** The receiver already has everything the snapshot stands for. *)
Definition holds_snapshot rf (a : RequestSnapShotArgs) : Prop :=
  rs_LastIncludedIndex a <= firstIndex (log rf)
  \/ le_Term <$> entryAt (log rf) (rs_LastIncludedIndex a) = Some (rs_LastIncludedTerm a).

Lemma entryAt_beyond l i : log_ok l -> lastIndex l < i -> entryAt l i = None.
Proof.
  intros Hl Hi. pose proof (log_ok_nonneg _ Hl). unfold entryAt, lastIndex in *.
  case_match; [|done]. apply lookup_ge_None. lia.
Qed.

Lemma wp_covered a rf :
  log_ok (log rf) ->
  wp (snapshot_covered a) (fun b rf' => rf' = rf /\ (b = true <-> holds_snapshot rf a)) rf.
Proof.
  intros Hl. unfold snapshot_covered, holds_snapshot. wp_simp.
  apply wp_GetFirstLog; [done|]. intros first _ Hfi _. rewrite Hfi.
  destruct (Z.leb_spec (rs_LastIncludedIndex a) (firstIndex (log rf))); wp_simp.
  { split; [done|]. split; [by left|done]. }
  apply wp_GetLastLog; [done|]. intros last _ Hla. rewrite Hla.
  destruct (Z.leb_spec (rs_LastIncludedIndex a) (lastIndex (log rf))); wp_simp; cycle 1.
  { split; [done|]. split; [done|]. intros [?|He]; [lia|]. by rewrite entryAt_beyond in He. }
  destruct (entryAt_ok (log rf) (rs_LastIncludedIndex a) Hl) as (e & Hat & He & _); [lia|].
  apply wp_logAt; [done|lia|]. intros e' He' _. wp_simp. simplify_eq. split; [done|].
  rewrite Hat. simpl. rewrite Z.eqb_eq. split; [intros ->; by right|]. intros [?|[= ->]]; [lia|done].
Qed.

Lemma wp_conflicts a rf :
  log_ok (log rf) -> ~ holds_snapshot rf a ->
  wp (snapshot_conflicts a) (fun b rf' => rf' = rf /\ b = true) rf.
Proof.
  intros Hl Hn. unfold holds_snapshot in Hn. unfold snapshot_conflicts. wp_simp.
  apply wp_GetLastLog; [done|]. intros last _ Hla. rewrite Hla.
  destruct (Z.ltb_spec (lastIndex (log rf)) (rs_LastIncludedIndex a)); wp_simp; [done|].
  destruct (entryAt_ok (log rf) (rs_LastIncludedIndex a) Hl) as (e & Hat & He & _); [lia|].
  apply wp_logAt; [done|lia|]. intros e' He' _. wp_simp. simplify_eq. split; [done|].
  rewrite Hat in Hn. simpl in Hn. apply andb_true_intro. split; [apply Z.leb_le; lia|].
  apply negb_true_iff, Z.eqb_neq. intros E. apply Hn. right. by rewrite E.
Qed.

Lemma wp_RequestInstallSnapShot env a rf :
  log_ok (log rf) ->
  wp (RequestInstallSnapShot env a) (fun r rf' =>
    rsr_Term (fst r) = currentTerm rf
    /\ currentTerm rf' = Z.max (currentTerm rf) (rs_Term a)
    /\ (commitIndex rf', lastApplied rf') = (commitIndex rf, lastApplied rf)
    /\ match snd r with
       | Some (i, t) =>
           (i, t) = (rs_LastIncludedIndex a, rs_LastIncludedTerm a)
           /\ currentTerm rf <= rs_Term a /\ ~ holds_snapshot rf a
           /\ log rf' = [mkLogEntry t i None] /\ snapshot rf' = rs_Data a
       | None => (rs_Term a < currentTerm rf \/ holds_snapshot rf a)
           /\ log rf' = log rf /\ snapshot rf' = snapshot rf
       end) rf.
Proof.
  intros Hl. unfold RequestInstallSnapShot, RequestInstallSnapShot_body. wp_simp.
  destruct (Z.ltb_spec (rs_Term a) (currentTerm rf)).
  { unfold persist. wp_simp. split_and!; auto; lia. }
  destruct (when_add_run (env 0%nat) (rs_Term a) rf)
    as (rf1 & Hrun & _ & Hlog & Hterm & _ & _ & Hfr). injection Hfr as ? ? ? ? ? ? ?.
  rewrite !wp_bind. eapply wp_intro; [exact Hrun|]. wp_simp.
  set (rf2 := if is_state (state rf1) Candidate then set_state Follower rf1 else rf1).
  assert (Hrf2 : log rf2 = log rf /\ currentTerm rf2 = currentTerm rf1 /\ snapshot rf2 = snapshot rf
            /\ commitIndex rf2 = commitIndex rf /\ lastApplied rf2 = lastApplied rf)
    by (unfold rf2; destruct (is_state _ _); done).
  destruct Hrf2 as (Hlog2 & Ht2 & Hs2 & Hc2 & Ha2).
  assert (Hhold : holds_snapshot rf2 a <-> holds_snapshot rf a)
    by (unfold holds_snapshot; by rewrite Hlog2).
  apply (wp_mono _ (fun _ rf' => rf' = rf2)).
  { apply wp_step_down; unfold rf2; by intros ->. }
  intros ? ? ->. wp_simp. eapply wp_mono; [apply wp_covered; by rewrite Hlog2|].
  intros b ? [-> Hb]. destruct b.
  { unfold persist. wp_simp. split_and!; try done; [lia|congruence|]. right. by apply Hhold, Hb. }
  wp_simp. assert (Hnot : ~ holds_snapshot rf2 a) by (intros Hx; by apply Hb in Hx).
  eapply wp_mono; [apply wp_conflicts; [by rewrite Hlog2|done]|]. intros ? ? [-> ->].
  unfold persist, SetElectionTime. wp_simp. split_and!; try done; [lia|congruence|].
  by rewrite <- Hhold.
Qed.

(** ** Make *)

(** What Make builds from storage. *)
Lemma wp_Make n self now ps t v l sn :
  recovered ps = (t, v, l, sn) -> log_ok l -> 0 <= self < Z.of_nat n ->
  exists rf, Make n self now ps = (rf, Ret tt)
    /\ (peers rf, me rf, persister rf, state rf) = (n, self, ps, Follower)
    /\ (currentTerm rf, voteFor rf, log rf, snapshot rf) = (t, v, l, sn)
    /\ commitIndex rf = firstIndex l /\ lastApplied rf = firstIndex l
    /\ nextIndex rf = replicate n (lastIndex l + 1)
    /\ matchIndex rf = <[Z.to_nat self := lastIndex l]> (replicate n 0).
Proof.
  intros Hrec Hl Hself. unfold Make. set (rf0 := mkRaft _ _ _ _ _ _ _ _ _ _ _ _ _ _ _ _).
  assert (Hr : exists rf1, readPersist (ReadRaftState ps) rf0 = (rf1, Ret tt)
    /\ (peers rf1, me rf1, persister rf1, state rf1) = (n, self, ps, Follower)
    /\ (currentTerm rf1, voteFor rf1, log rf1, ReadSnapshot ps) = (t, v, l, sn)
    /\ commitIndex rf1 = firstIndex l /\ lastApplied rf1 = firstIndex l
    /\ nextIndex rf1 = replicate n 0 /\ matchIndex rf1 = replicate n 0).
  { unfold readPersist, recovered, GetFirstLog in *. m_exec.
    destruct (Z.of_nat (length (ReadRaftState ps)) <? 1).
    { injection Hrec as <- <- <- <-. exists rf0. by split_and!. }
    destruct (dec_state (ReadRaftState ps)) as [[[t' v'] l']|].
    - injection Hrec as <- <- <- <-. destruct (lo_dummy _ Hl) as (e & He & _).
      rewrite (proj2 (go_idx_lookup l' 0 e)) by (by split).
      eexists. split; [done|]. simpl. unfold firstIndex.
      destruct l' as [|x l']; simplify_eq/=. by split_and!.
    - injection Hrec as <- <- <- <-. exists rf0. by split_and!. }
  destruct Hr as (rf1 & Hrun & Hid & Hst & Hc & Ha & Hni & Hmi). m_exec. rewrite Hrun.
  injection Hid as Hp Hm Hps Hs. injection Hst as Ht Hv Hlg Hsn.
  set (rf2 := set_snapshot _ rf1). assert (Hl2 : log rf2 = l) by done.
  assert (Hw := wp_resetRaftIndex rf2). simpl in Hw.
  rewrite Hlg, Hni, Hmi, Hp, Hm, !length_replicate in Hw.
  destruct (wp_run _ _ _ (Hw Hl eq_refl eq_refl Hself)) as (rf3 & [] & Hrun3 & ->).
  eexists. split; [exact Hrun3|]. simpl. unfold rf2. simpl. split_and!; congruence.
Qed.

End Specs.
