(* ===== verification/RaftProps.v ===== *)
(** The theorems about one peer: what each operation of raft.go does on every
    branch, and that none of them panics on a well-formed peer. *)
From Stdlib Require Import ZArith Lia.
From stdpp Require Import base list numbers.
From S2P Require Import Prelude RaftTypes RaftNode RaftVote RaftWf RaftSafe RaftLeader RaftSpec.

Section Props.
Context {D : Type} `{LabGob D}.
Implicit Types (rf : Raft D) (l : list (LogEntry D)).

(** C8.  No panic, and well-formedness is preserved: on a well-formed peer every
    operation whose arguments meet its precondition completes and leaves the
    peer well formed. *)
Theorem operations_safe env op rf :
  wf rf -> op_pre rf op -> exists rf', exec env op rf = (rf', Ret tt) /\ wf rf'.
Proof.
  intros Hwf Hpre. destruct (wp_run _ _ _ (wf_exec env op rf Hwf Hpre)) as (rf' & [] & ? & ?). eauto.
Qed.

(** C9.  AppendEntries takes exactly one of five branches (stale term, missing
    predecessor, entries already covered by the snapshot, conflicting
    predecessor, accepted), with the success flag, the log (the reference
    update [merge_log]) and the commitIndex of that branch; it answers the term
    it ends in and restarts the timer unless the sender is from the past. *)
Theorem append_entries_branches env a rf :
  log_ok (log rf) -> contig (sl_PrevLogIndex a + 1) (sl_Entries a) ->
  Forall (fun e => 0 <= le_Term e) (sl_Entries a) ->
  exists rf1 r rf', RequestSendLog env a rf = (rf', Ret r)
    /\ sendlog_outcome env a rf (slr_Success r) rf1
    /\ slr_Term r = currentTerm rf1
    /\ rf' = (if currentTerm rf1 <=? sl_Term a
              then set_electionInterval (tk_rnd (env 1%nat) + 150 + 200)
                     (set_startElectionTime (tk_now (env 1%nat)) rf1)
              else rf1).
Proof.
  intros Hl Hc Ht. destruct (wp_run _ _ _ (wp_RequestSendLog_body env a rf Hl Hc Ht))
    as (rf1 & b & Hrun & Hout).
  exists rf1, (mkSendLogReply (currentTerm rf1) b 0). unfold RequestSendLog, SetElectionTime.
  m_exec. rewrite Hrun. by destruct (currentTerm rf1 <=? sl_Term a); eexists.
Qed.

(** An entry with the index and the term of the last one of [es] is in the log. *)
Definition last_present (es : list (LogEntry D)) l : Prop :=
  exists e x, list.last es = Some e /\ entryAt l (le_Index e) = Some x /\ le_Term x = le_Term e.

Lemma run_append_entries p es rf :
  log_ok (log rf) -> firstIndex (log rf) <= p <= lastIndex (log rf) -> contig (p + 1) es ->
  append_entries p es rf = (set_log (merge_log (log rf) p es) rf, Ret tt).
Proof.
  intros Hl Hp Hc. destruct (wp_run (append_entries p es) (fun _ rf' => rf' = set_log (merge_log (log rf) p es) rf) rf)
    as (rf' & [] & Hrun & ->); [|done].
  apply wp_append_entries; auto; lia.
Qed.

Lemma merge_log_present l p es : es = [] \/ last_present es l -> merge_log l p es = l.
Proof.
  intros [->|(e & x & He & Hx & Ht)]; [done|]. unfold merge_log. rewrite He, Hx. simpl. by rewrite decide_True by congruence.
Qed.

Lemma merge_log_absent l p es :
  es <> [] -> ~ last_present es l -> merge_log l p es = take (Z.to_nat (p - firstIndex l + 1)) l ++ es.
Proof.
  intros Hne Hno. unfold merge_log. destruct (list.last es) as [e|] eqn:He; [|by apply last_None in He].
  case_decide as Hd; [|done]. destruct (entryAt l (le_Index e)) as [x|] eqn:Hx; [|done]. injection Hd as Hd.
  destruct Hno. by exists e, x.
Qed.

(** C10.  The log update of AppendEntries (raft.go:480-486), for entries that continue
    PrevLogIndex: when nothing was sent, or the log has an entry with the index and the
    term of the last one sent, the peer does not change at all, so that a late message
    does not remove what came after it; otherwise the log becomes its part up to
    PrevLogIndex followed by exactly what was sent.  In both cases nothing at or below
    PrevLogIndex changes, an entry with the index and term of the last one sent is there
    afterwards, and running the code again on the same entries changes nothing. *)
Theorem append_entries_log p (es : list (LogEntry D)) rf :
  log_ok (log rf) -> firstIndex (log rf) <= p <= lastIndex (log rf) -> contig (p + 1) es -> Forall (fun e => 0 <= le_Term e) es ->
  exists rf', append_entries p es rf = (rf', Ret tt)
    /\ (es = [] \/ last_present es (log rf) -> rf' = rf)
    /\ (es <> [] -> ~ last_present es (log rf) -> rf' = set_log (take (Z.to_nat (p - firstIndex (log rf) + 1)) (log rf) ++ es) rf)
    /\ (forall i, i <= p -> entryAt (log rf') i = entryAt (log rf) i)
    /\ (es <> [] -> last_present es (log rf'))
    /\ append_entries p es rf' = (rf', Ret tt).
Proof.
  intros Hl Hp Hc Ht. exists (set_log (merge_log (log rf) p es) rf). rewrite run_append_entries by done.
  destruct (merge_log_spec (log rf) p es Hp Hc) as (Hf & Hlow & Hlast & _ & Hagain).
  assert (Hthere : es <> [] -> last_present es (merge_log (log rf) p es)).
  { intros Hne. destruct (list.last es) as [e|] eqn:He; [|by apply last_None in He]. specialize (Hlast e eq_refl).
    destruct (entryAt (merge_log (log rf) p es) (le_Index e)) as [x|] eqn:Hx; [|done]. injection Hlast as Hx'. by exists e, x. }
  split; [done|]. split; [intros Hpre; by rewrite merge_log_present, set_log_id|]. split; [intros; by rewrite merge_log_absent|].
  split; [done|]. split; [done|]. destruct (merge_log_ok (log rf) p es Hl (or_intror Hp) Hc Ht) as [Hok _].
  rewrite run_append_entries; simpl; [by rewrite Hagain|done| |done]. rewrite Hf. split; [lia|].
  destruct (decide (es = [])) as [->|Hne]; [unfold merge_log; simpl; lia|]. destruct (Hthere Hne) as (e & x & He & Hx & _).
  pose proof (entryAt_last_index _ _ Hok ltac:(by eexists)). pose proof (contig_last _ _ _ Hc He). lia.
Qed.

(** C11.  Commit rule: advanceCommit moves commitIndex to the largest index above
    it that a majority stores and that was created in the leader's own term,
    and changes nothing else. *)
Theorem advance_commit_largest rf :
  log_ok (log rf) -> firstIndex (log rf) <= commitIndex rf + 1 ->
  exists c s, advanceCommit rf = (with_commit rf c s, Ret tt) /\ commit_advanced rf c.
Proof.
  intros Hl Hf. destruct (wp_run _ _ _ (wp_advanceCommit rf Hl Hf)) as (rf' & [] & Hr & c & s & -> & Hc).
  eauto.
Qed.

(** All entries of the message are below the receiver's snapshot. *)
Definition below_snapshot (a : SendLogArgs D) l : Prop :=
  sl_Entries a <> [] /\ sl_PrevLogIndex a + Z.of_nat (length (sl_Entries a)) <= firstIndex l.

Lemma adjusted_above rf a p t es : adjusted rf a p t es -> ~ below_snapshot a (log rf).
Proof.
  intros [(-> & _ & -> & [?|?])|(Hlt & _ & -> & Hne)] [Hn Hle]; [done| |].
  - destruct (sl_Entries a); [done|]. simpl in *. lia.
  - apply Hne, drop_ge. lia.
Qed.

Lemma commit_target_grows commit leaderCommit last : commit <= commit_target commit leaderCommit last.
Proof. unfold commit_target. destruct (_ && _) eqn:E; [|lia]. apply andb_true_iff in E as [_ ?%Z.ltb_lt]. lia. Qed.

(** C12.  A follower's commitIndex after AppendEntries, on every branch of the handler: it
    never decreases; when the message is refused, or all its entries are below the
    follower's snapshot, it does not change; when the message is accepted and not below the
    snapshot, it is max(old, min(LeaderCommit, last index of the new log)), provided
    LeaderCommit and this last index are within 2^53, where the conversion of the code
    through float64 is exact. *)
Theorem follower_commit_exact env a rf :
  log_ok (log rf) -> contig (sl_PrevLogIndex a + 1) (sl_Entries a) -> Forall (fun e => 0 <= le_Term e) (sl_Entries a) ->
  exists r rf', RequestSendLog env a rf = (rf', Ret r)
    /\ commitIndex rf <= commitIndex rf'
    /\ (slr_Success r = false \/ below_snapshot a (log rf) -> commitIndex rf' = commitIndex rf)
    /\ (slr_Success r = true -> ~ below_snapshot a (log rf) ->
        Z.abs (sl_LeaderCommit a) <= 2 ^ 53 -> lastIndex (log rf') <= 2 ^ 53 ->
        commitIndex rf' = Z.max (commitIndex rf) (Z.min (sl_LeaderCommit a) (lastIndex (log rf')))).
Proof.
  intros Hl Hc Ht. destruct (wp_run _ _ _ (wp_RequestSendLog_body env a rf Hl Hc Ht)) as (rf1 & b & Hrun & Hout).
  exists (mkSendLogReply (currentTerm rf1) b 0), (if currentTerm rf1 <=? sl_Term a
              then set_electionInterval (tk_rnd (env 1%nat) + 150 + 200) (set_startElectionTime (tk_now (env 1%nat)) rf1) else rf1).
  split; [unfold RequestSendLog, SetElectionTime; m_exec; rewrite Hrun; by destruct (currentTerm rf1 <=? sl_Term a)|].
  set (rf' := if _ <=? _ then _ else _).
  assert (E : commitIndex rf' = commitIndex rf1 /\ log rf' = log rf1) by (unfold rf'; by destruct (_ <=? _)). destruct E as [-> ->]. simpl.
  assert (Hr : forall rf2, rf2 = sendlog_ready env a rf -> commitIndex rf2 = commitIndex rf /\ log rf2 = log rf).
  { intros rf2 ->. unfold sendlog_ready. destruct (when_add_run (env 0%nat) (sl_Term a) rf) as (x & -> & _ & El & _ & _ & _ & Ec).
    injection Ec as _ _ _ _ _ _ Ec. done. }
  destruct Hout as [Hst|rf1 _ [-> _]%Hr _|rf1 _ [-> _]%Hr Hne Hle|rf1 p t es e _ [-> _]%Hr _ _ _ _|rf1 rf2 p t es _ [_ El]%Hr Hadj Hp _ Hlog _ _ _ Hci _].
  - split_and!; (done || lia).
  - split_and!; (done || lia).
  - split_and!; [lia|done|]. intros _ Hno. destruct Hno. by split.
  - split_and!; (done || lia).
  - pose proof (adjusted_above _ _ _ _ _ Hadj) as Hab. rewrite El in Hab. rewrite Hci. split; [apply commit_target_grows|]. split; [by intros [?|?]|].
    intros _ _ Hlc Hla. apply commit_target_exact; [done|].
    destruct (merge_log_ok (log rf) p es) as [Hok _]; [done| |by eapply adjusted_contig|by eapply adjusted_terms|].
    + destruct Hadj as [(_ & _ & _ & [?|?])|(_ & -> & _)]; rewrite ?El in *; [by left|right; lia..].
    + pose proof (log_ok_nonneg _ Hok). rewrite Hlog in *. lia.
Qed.

(** C13.  RequestVote grants exactly when it may: the term is not old, and the
    peer has voted for this candidate in that term or is free to vote and the
    candidate's log is at least as up to date.  A granted vote is recorded; a
    refusal still catches up with the term, and changes nothing otherwise. *)
Theorem request_vote_grants env a rf :
  log_ok (log rf) -> 0 <= rv_CandidateId a ->
  exists r rf', RequestVote env a rf = (rf', Ret r)
    /\ rvr_Term r = currentTerm rf /\ log rf' = log rf
    /\ (rvr_VoteGranted r = true <-> may_grant a rf)
    /\ (rvr_VoteGranted r = true ->
          voteFor rf' = rv_CandidateId a /\ currentTerm rf' = rv_Term a /\ state rf' = Follower
          /\ startElectionTime rf' = tk_now (env 1%nat))
    /\ (rvr_VoteGranted r = false ->
          currentTerm rf' = Z.max (currentTerm rf) (rv_Term a)
          /\ (rv_Term a <= currentTerm rf -> rf' = rf)).
Proof.
  intros Hl Hid. destruct (wp_run _ _ _ (wp_RequestVote env a rf Hl Hid)) as (rf' & r & ? & ?). eauto.
Qed.

(** Snapshot trims the log at an index inside it: the entries above stay as
    they are, the dummy keeps the term of the index, the snapshot and the
    trimmed log are stored, and nothing else changes; outside the log it does
    nothing. *)
Theorem snapshot_trims index snap rf :
  log_ok (log rf) ->
  exists rf', Snapshot index snap rf = (rf', Ret tt)
    /\ if decide (firstIndex (log rf) < index <= lastIndex (log rf)) then
         firstIndex (log rf') = index /\ lastIndex (log rf') = lastIndex (log rf)
         /\ (forall i, index < i -> entryAt (log rf') i = entryAt (log rf) i)
         /\ le_Term <$> entryAt (log rf') index = le_Term <$> entryAt (log rf) index
         /\ snapshot rf' = snap
         /\ persister rf'
            = Save (enc_state (currentTerm rf) (voteFor rf) (log rf')) snap (persister rf)
         /\ (currentTerm rf', voteFor rf', state rf', commitIndex rf', lastApplied rf',
             nextIndex rf', matchIndex rf')
            = (currentTerm rf, voteFor rf, state rf, commitIndex rf, lastApplied rf,
               nextIndex rf, matchIndex rf)
       else rf' = rf.
Proof.
  intros Hl. destruct (wp_run _ _ _ (wp_Snapshot index snap rf Hl)) as (rf' & [] & ? & ?). eauto.
Qed.

(** InstallSnapshot replaces the log exactly when the request is not stale
    and the peer does not hold what the snapshot stands for; commitIndex and
    lastApplied are left to the goroutine it then starts. *)
Theorem install_snapshot_effect env a rf :
  log_ok (log rf) ->
  exists r spawned rf', RequestInstallSnapShot env a rf = (rf', Ret (r, spawned))
    /\ rsr_Term r = currentTerm rf
    /\ currentTerm rf' = Z.max (currentTerm rf) (rs_Term a)
    /\ (commitIndex rf', lastApplied rf') = (commitIndex rf, lastApplied rf)
    /\ match spawned with
       | Some (i, t) =>
           (i, t) = (rs_LastIncludedIndex a, rs_LastIncludedTerm a)
           /\ currentTerm rf <= rs_Term a /\ ~ holds_snapshot rf a
           /\ log rf' = [mkLogEntry t i None] /\ snapshot rf' = rs_Data a
       | None => (rs_Term a < currentTerm rf \/ holds_snapshot rf a)
           /\ log rf' = log rf /\ snapshot rf' = snapshot rf
       end.
Proof.
  intros Hl. destruct (wp_run _ _ _ (wp_RequestInstallSnapShot env a rf Hl)) as (rf' & [r sp] & ? & ?).
  eauto.
Qed.

(** Recovery: a peer made from the storage of a stored, well-formed peer is
    well formed and has the same term, vote, log and snapshot; it is a
    follower, and restarts applying from its snapshot. *)
Theorem restart_recovers now rf :
  wf rf -> persisted rf ->
  exists rf', Make (peers rf) (me rf) now (persister rf) = (rf', Ret tt) /\ wf rf' /\ persisted rf'
    /\ (currentTerm rf', voteFor rf', log rf', snapshot rf')
       = (currentTerm rf, voteFor rf, log rf, snapshot rf)
    /\ state rf' = Follower
    /\ commitIndex rf' = firstIndex (log rf) /\ lastApplied rf' = firstIndex (log rf).
Proof.
  intros Hwf Hp. destruct Hwf as [Hl Hni Hmi Hme Ht Hn].
  destruct (wp_Make _ (me rf) now _ _ _ _ _ Hp Hl Hme)
    as (rf' & Hrun & Hid & Hst & Hc & Ha & Hni' & Hmi').
  injection Hid as Hp1 Hm1 Hps Hs. injection Hst as Ht1 Hv1 Hl1 Hs1. exists rf'.
  split_and!; try done; try congruence.
  - split; rewrite ?Hl1, ?Hp1, ?Hni', ?Hmi', ?Hm1, ?Ht1, ?length_insert, ?length_replicate, ?Hs; done.
Qed.

(** Back-off: when a follower refuses and nothing else moved its nextIndex,
    the leader steps back to the start of the run of entries of one term just
    below it (strictly below the old value), or to the snapshot; a late refusal
    changes nothing. *)
Theorem backoff_to_term_start i recode rf next :
  wf rf -> state rf = Leader -> nextIndex rf !! Z.to_nat i = Some next -> 0 <= i ->
  exists next', backoff i recode rf
      = (set_nextIndex (<[Z.to_nat i := next']> (nextIndex rf)) rf, Ret tt)
    /\ (next <> recode -> next' = next)
    /\ (next = recode -> next - 1 <= firstIndex (log rf) -> next' = firstIndex (log rf))
    /\ (next = recode -> firstIndex (log rf) < next - 1 ->
        firstIndex (log rf) <= next' < next
        /\ (exists t, forall j, next' <= j < next -> j <= lastIndex (log rf) ->
             le_Term <$> entryAt (log rf) j = Some t)
        /\ (firstIndex (log rf) < next' ->
            le_Term <$> entryAt (log rf) (next' - 1) <> le_Term <$> entryAt (log rf) next'))
    /\ 0 <= next' <= lastIndex (log rf) + 1.
Proof.
  intros Hwf Hs Hn Hi.
  destruct (wp_run _ _ _ (wp_backoff i recode rf next Hwf Hs Hn Hi)) as (rf' & [] & Hr & n' & -> & ?).
  eauto.
Qed.

(** What a leader sends meets what a receiver needs: every message
    sendLogTicketCore prepares is its own slot, a request to send the snapshot
    instead, or the whole log above PrevLogIndex with the term of that entry,
    the leader's term and commitIndex, contiguous and with valid terms. *)
Theorem leader_messages rf :
  wf rf ->
  exists o rf', sendLogTicketCore_begin rf = (rf', Ret o) /\ wf rf'
    /\ (exists ni, rf' = set_nextIndex ni rf)
    /\ match o with
       | None => state rf <> Leader
       | Some xs => state rf = Leader /\ Forall2 (prepared rf) (range (peers rf)) xs
       end.
Proof.
  intros Hwf. destruct (wp_run _ _ _ (wp_sendLogTicketCore_begin rf Hwf)) as (rf' & o & ? & ?). eauto.
Qed.

(** Start appends the command at the next index of the leader's term and
    reports that index and term; on any other peer it changes nothing. *)
Theorem start_appends c rf :
  wf rf ->
  exists r rf', Start c rf = (rf', Ret r) /\ wf rf' /\
    if is_state (state rf) Leader then
      r = (lastIndex (log rf) + 1, currentTerm rf, true)
      /\ log rf' = log rf ++ [mkLogEntry (currentTerm rf) (lastIndex (log rf) + 1) (Some c)]
      /\ matchIndex rf' = <[Z.to_nat (me rf) := lastIndex (log rf) + 1]> (matchIndex rf)
      /\ (currentTerm rf', voteFor rf', state rf', nextIndex rf', commitIndex rf')
         = (currentTerm rf, voteFor rf, state rf, nextIndex rf, commitIndex rf)
    else r = (0, currentTerm rf, false) /\ rf' = rf.
Proof. intros Hwf. destruct (wp_run _ _ _ (wp_Start c rf Hwf)) as (rf' & r & ? & ? & ?). eauto 10. Qed.

(** The batch applyTicket hands to the service is exactly the committed
    entries above lastApplied, in index order. *)
Theorem apply_batch_in_order rf :
  log_ok (log rf) -> firstIndex (log rf) <= lastApplied rf + 1 ->
  commitIndex rf <= lastIndex (log rf) ->
  exists batch, applyTicket_collect rf = (rf, Ret batch)
    /\ length batch = Z.to_nat (commitIndex rf - lastApplied rf)
    /\ contig (lastApplied rf + 1) batch
    /\ forall k e, batch !! k = Some e ->
         entryAt (log rf) (lastApplied rf + 1 + Z.of_nat k) = Some e.
Proof.
  intros Hl Hf Hc. destruct (wp_run _ _ _ (wp_applyTicket_collect rf Hl Hf Hc))
    as (rf' & b & Hr & -> & ?). eauto.
Qed.

(** Winning an election: a candidate that is still in the term it asked
    votes for and has more than half of them becomes leader with every
    nextIndex just past its log and matchIndex cleared but for itself; in any
    other case the decision changes nothing. *)
Theorem decide_leader args t rf :
  wf rf ->
  ticker_decide args t rf
  = (if decide (currentTerm rf = rv_Term args /\ state rf = Candidate
                /\ Z.of_nat (peers rf) ÷ 2 < voteCount t)
     then set_matchIndex (<[Z.to_nat (me rf) := lastIndex (log rf)]> (replicate (peers rf) 0))
            (set_nextIndex (replicate (peers rf) (lastIndex (log rf) + 1)) (set_state Leader rf))
     else rf, Ret tt).
Proof.
  intros Hwf. unfold ticker_decide. m_exec. unfold is_state.
  destruct (Z.eqb_spec (currentTerm rf) (rv_Term args)); [|by rewrite decide_False by tauto].
  case_bool_decide; simpl; [|by rewrite decide_False by tauto].
  destruct (Z.ltb_spec (Z.of_nat (peers rf) ÷ 2) (voteCount t));
    [|rewrite decide_False; [done|lia]]. rewrite decide_True by done.
  destruct Hwf as [Hl Hni Hmi Hme _ _].
  destruct (wp_run _ _ _ (wp_resetRaftIndex (set_state Leader rf) Hl Hni Hmi Hme))
    as (rf' & [] & Hr & ->). exact Hr.
Qed.

End Props.

(** ** Witnesses: a leader of term 2 with three entries, and a follower *)

Module PeerWitness.
Import ListGob.

Definition entries : list (LogEntry Z) :=
  [mkLogEntry 1 1 (Some 10); mkLogEntry 1 2 (Some 20); mkLogEntry 2 3 (Some 30)].
Definition dummy : LogEntry Z := mkLogEntry (-1) 0 None.
Definition full : list (LogEntry Z) := dummy :: entries.
Definition stored (t v : Z) (l : list (LogEntry Z)) : Persister := mkPersister (enc t v l) [].

Definition lead : Raft Z :=
  mkRaft 3 0 (stored 2 0 full) 0 0 Leader 0 0 2 0 full [] 0 0 [4; 3; 4] [3; 3; 0].
Definition cand : Raft Z :=
  mkRaft 3 0 (stored 2 0 full) 0 0 Candidate 0 0 2 0 full [] 0 0 [1; 1; 1] [0; 0; 0].
Definition foll : Raft Z :=
  mkRaft 3 1 (stored 1 (-1) (take 3 full)) 0 0 Follower 0 0 1 (-1) (take 3 full) [] 0 0
    [1; 1; 1] [0; 0; 0].
Definition env0 : Env := fun _ => mkTick 7 0.

Lemma contig_entries : contig 1 entries.
Proof. intros [|[|[|k]]] e He; simplify_eq/=; reflexivity. Qed.

Lemma full_ok : log_ok full.
Proof.
  split.
  - intros [|[|[|[|k]]]] e He; simplify_eq/=; reflexivity.
  - exists dummy. split; [reflexivity|]. by left.
  - intros [|[|[|k]]] e He; simplify_eq/=; lia.
Qed.

Lemma foll_ok : log_ok (log foll).
Proof. by apply (log_ok_take full 3 full_ok ltac:(lia)). Qed.

Lemma lead_wf : wf lead.
Proof.
  split; try (simpl; lia); [apply full_ok|]. intros _. repeat constructor; vm_compute; discriminate.
Qed.

Lemma foll_wf : wf foll.
Proof. split; try (simpl; lia); [apply foll_ok|discriminate]. Qed.

Lemma cand_wf : wf cand.
Proof. split; try (simpl; lia); [apply full_ok|discriminate]. Qed.

Definition request : SendLogArgs Z := mkSendLogArgs 2 0 2 1 [mkLogEntry 2 3 (Some 30)] 2 LogMsgType false.

Lemma request_contig : contig (sl_PrevLogIndex request + 1) (sl_Entries request).
Proof. intros [|k] e He; simplify_eq/=; reflexivity. Qed.

Lemma request_terms : Forall (fun e => 0 <= le_Term e) (sl_Entries request).
Proof. by repeat constructor. Qed.

Lemma operations_safe_witness :
  exists rf', exec env0 (OpRequestSendLog request) foll = (rf', Ret tt) /\ wf rf'.
Proof.
  apply (operations_safe env0 (OpRequestSendLog request) foll foll_wf).
  split; [apply request_contig|]. split; [apply request_terms|]. by intros _.
Defined.

Lemma append_entries_branches_witness :
  exists rf1 r rf', RequestSendLog env0 request foll = (rf', Ret r)
    /\ sendlog_outcome env0 request foll (slr_Success r) rf1.
Proof.
  destruct (append_entries_branches env0 request foll foll_ok request_contig request_terms)
    as (rf1 & r & rf' & H1 & H2 & _).
  exists rf1, r, rf'. split; [exact H1|exact H2].
Defined.

(** A new entry is appended; a late message with the first entry only changes nothing. *)
Lemma append_entries_log_witness :
  (exists rf', append_entries 2 [mkLogEntry 2 3 (Some 30)] foll = (rf', Ret tt) /\ log rf' = full)
  /\ append_entries 0 [mkLogEntry 1 1 (Some 10)] foll = (foll, Ret tt).
Proof.
  split.
  - destruct (append_entries_log 2 [mkLogEntry 2 3 (Some 30)] foll foll_ok
      ltac:(vm_compute; split; discriminate) request_contig request_terms) as (rf' & H1 & _ & H2 & _).
    exists rf'. split; [exact H1|]. rewrite H2; [reflexivity|discriminate|].
    intros (e & x & [= <-] & Hx & _). vm_compute in Hx. discriminate Hx.
  - destruct (append_entries_log 0 [mkLogEntry 1 1 (Some 10)] foll foll_ok
      ltac:(vm_compute; split; discriminate) ltac:(by intros [|k] e He; simplify_eq/=) ltac:(by repeat constructor)) as (rf' & H1 & H2 & _).
    rewrite H2 in H1; [exact H1|]. right. exists (mkLogEntry 1 1 (Some 10)), (mkLogEntry 1 1 (Some 10)).
    split; [reflexivity|]. split; vm_compute; reflexivity.
Defined.

(** peers 0 and 1 hold index 3, which is of term 2 *)
Lemma advance_commit_largest_witness :
  exists c s, advanceCommit lead = (with_commit lead c s, Ret tt) /\ commit_advanced lead c.
Proof. apply (advance_commit_largest lead full_ok). vm_compute. discriminate. Defined.

Lemma follower_commit_exact_witness :
  exists r rf', RequestSendLog env0 request foll = (rf', Ret r) /\ slr_Success r = true /\ commitIndex rf' = 2.
Proof.
  destruct (follower_commit_exact env0 request foll foll_ok request_contig request_terms) as (r & rf' & H1 & _ & _ & H2).
  exists r, rf'. split; [exact H1|]. vm_compute in H1. injection H1 as <- <-. split; [reflexivity|].
  rewrite H2; [reflexivity|reflexivity|intros [_ Hle]; by vm_compute in Hle|vm_compute; discriminate|vm_compute; discriminate].
Defined.

Lemma request_vote_grants_witness :
  exists r rf', RequestVote env0 (mkRequestVoteArgs 2 0 3 2) foll = (rf', Ret r)
    /\ rvr_VoteGranted r = true.
Proof.
  destruct (request_vote_grants env0 (mkRequestVoteArgs 2 0 3 2) foll foll_ok ltac:(simpl; lia))
    as (r & rf' & H1 & _ & _ & H2 & _).
  exists r, rf'. split; [exact H1|]. apply H2. vm_compute. split; [discriminate|]. right.
  split; [left; reflexivity|]. left. reflexivity.
Defined.

Lemma snapshot_trims_witness :
  exists rf', Snapshot 2 [1] lead = (rf', Ret tt) /\ firstIndex (log rf') = 2.
Proof.
  destruct (snapshot_trims 2 [1] lead full_ok) as (rf' & H1 & H2). exists rf'.
  split; [exact H1|]. exact (proj1 H2).
Defined.

Lemma install_snapshot_effect_witness :
  exists r spawned rf',
    RequestInstallSnapShot env0 (mkRequestSnapShotArgs 2 0 5 2 0 [1] true) foll
      = (rf', Ret (r, spawned)) /\ currentTerm rf' = 2.
Proof.
  destruct (install_snapshot_effect env0 (mkRequestSnapShotArgs 2 0 5 2 0 [1] true) foll foll_ok)
    as (r & sp & rf' & H1 & _ & H2 & _).
  exists r, sp, rf'. split; [exact H1|exact H2].
Defined.

Lemma restart_recovers_witness :
  exists rf', Make 3 0 5 (persister lead) = (rf', Ret tt) /\ wf rf' /\ state rf' = Follower.
Proof.
  destruct (restart_recovers 5 lead lead_wf) as (rf' & H1 & H2 & _ & _ & H3 & _); [reflexivity|].
  exists rf'. split; [exact H1|]. split; [exact H2|exact H3].
Defined.

Lemma backoff_to_term_start_witness :
  exists next', backoff 1 3 lead
    = (set_nextIndex (<[1%nat := next']> (nextIndex lead)) lead, Ret tt) /\ 0 <= next' < 3.
Proof.
  destruct (backoff_to_term_start 1 3 lead 3 lead_wf eq_refl eq_refl ltac:(lia))
    as (n & H1 & _ & _ & H2 & _).
  exists n. split; [exact H1|]. apply H2; [reflexivity|]. vm_compute. reflexivity.
Defined.

Lemma leader_messages_witness :
  exists o rf', sendLogTicketCore_begin lead = (rf', Ret o) /\ wf rf' /\ o <> None.
Proof.
  destruct (leader_messages lead lead_wf) as (o & rf' & H1 & H2 & _ & H3).
  exists o, rf'. split; [exact H1|]. split; [exact H2|]. intros ->. apply H3. reflexivity.
Defined.

Lemma start_appends_witness :
  exists rf', Start 40 lead = (rf', Ret (4, 2, true)) /\ wf rf'.
Proof.
  destruct (start_appends 40 lead lead_wf) as (r & rf' & H1 & H2 & H3 & _).
  exists rf'. rewrite H1, H3. split; [reflexivity|exact H2].
Defined.

Lemma apply_batch_in_order_witness :
  exists batch, applyTicket_collect (set_commitIndex 3 lead) = (set_commitIndex 3 lead, Ret batch)
    /\ length batch = 3%nat.
Proof.
  destruct (apply_batch_in_order (set_commitIndex 3 lead) full_ok ltac:(vm_compute; discriminate)
    ltac:(vm_compute; discriminate)) as (b & H1 & H2 & _).
  exists b. split; [exact H1|exact H2].
Defined.

Lemma decide_leader_witness :
  state (fst (ticker_decide (mkRequestVoteArgs 2 0 3 2) (mkTally 2 2 0) cand)) = Leader.
Proof.
  rewrite (decide_leader (mkRequestVoteArgs 2 0 3 2) (mkTally 2 2 0) cand cand_wf). reflexivity.
Defined.

End PeerWitness.

(** ** A leader whose snapshot has not been delivered yet *)

Module LaggingLeader.
Import ListGob.

Definition env0 : Env := fun _ => mkTick 7 0.

Definition fresh : Raft Z := fst (Make 3 0 0 MakePersister).

(** The peer installs a snapshot up to index 5; before the goroutine that moves
    commitIndex has run, it wins term 2, a command is submitted, and a follower
    acknowledges it. *)
Definition rise : M (Raft Z) unit :=
  exec env0 (OpRequestInstallSnapShot (mkRequestSnapShotArgs 1 1 5 1 0 [9] true));;
  exec env0 (OpTicker 1000);;
  exec env0 (OpDecide (mkRequestVoteArgs 2 0 5 1) (mkTally 2 2 0));;
  exec env0 (OpStart 60).

Definition ack : NodeOp :=
  OpSendLogReply 1 (mkSendLogArgs 2 0 5 1 [mkLogEntry 2 6 (Some 60)] 0 LogMsgType false) 6
    (mkSendLogReply 2 true 0).

(** C38.  A leader can panic: commitIndex stays behind the log until the goroutine
    of RequestInstallSnapShot has delivered the snapshot, and if the peer becomes
    leader in that window, the first acknowledged entry makes the commit loop
    index rf.log with a negative number. *)
Theorem leader_panics_before_delivery :
  exists rf', rise fresh = (rf', Ret tt) /\ state rf' = Leader
    /\ commitIndex rf' + 1 < firstIndex (log rf')
    /\ snd (exec env0 ack rf') = Panic.
Proof. eexists. split; [vm_compute; reflexivity|]. vm_compute. by split_and!. Qed.

End LaggingLeader.
