(* ===== verification/RaftCluster.v ===== *)
(** A cluster of Raft peers exchanging RPCs over a network that loses, delays
    and reorders messages, with peers that crash and restart.

    One step is one critical section of one peer, one event of the network, or
    a crash.  An RPC is a [Call]: it sits in [requests] until its handler runs
    or it is lost, then in [responses] (with [None] for [ok = false]) until the
    goroutine that made the call resumes.  Each request is handled at most once
    and each call resumes at most once; a call can fail while its request is still
    in transit, and then nobody waits for the answer.  LabRpcProps shows that the calls of
    package labrpc behave like this.  The arguments of a call are values from the end of the
    critical section that prepares them.  For the entries of AppendEntries this is what
    happens only as long as nobody writes into the array they share with rf.log before
    Call encodes them; SharedLog adds the arrays and the encoding to this relation, and
    the theorems that depend on those entries are stated there and after.  [incs] numbers
    the incarnations of a peer: the goroutines of a crashed incarnation are
    gone, so what is addressed to them is discarded. *)
From Stdlib Require Import ZArith Lia.
From stdpp Require Import base list numbers relations.
From S2P Require Import Prelude RaftTypes RaftNode RaftVote.

Section Cluster.
Context {D : Type} `{LabGob D}.

(** ** State *)

(** An RPC in progress, with what its goroutine remembers. *)
Inductive Request :=
| ReqVote (a : RequestVoteArgs)
| ReqLog (a : SendLogArgs D) (recodeNextIndex : Z)
| ReqSnap (a : RequestSnapShotArgs) (ctx : SnapCtx).

(** [c_inc] is the incarnation that waits for the answer, if one still does. *)
Record Call := mkCall { c_src : nat; c_inc : option nat; c_dst : nat; c_req : Request }.

Definition detached (call : Call) : Call := mkCall (c_src call) None (c_dst call) (c_req call).

Inductive Response :=
| RepVote (r : RequestVoteReply)
| RepLog (r : SendLogReply)
| RepSnap (r : RequestSnapShotReply).

(** An election whose goroutine has not yet decided; [el_granters] lists the
    peers whose votes were counted (auxiliary, not read by any step). *)
Record Election := mkElection
  { el_src : nat; el_args : RequestVoteArgs; el_tally : Tally; el_granters : list nat }.

(** Goroutines between two critical sections that wait for no RPC. *)
Inductive Task :=
| TSendSnapShot (src inc peer : nat)
| TInstalled (peer inc : nat) (lastIncludedIndex : Z)
| TApply (peer inc : nat) (batch : list (LogEntry D)).

Record Cluster := mkCluster
  { nodes : list (Raft D);
    incs : list nat;
    elections : list Election;
    requests : list Call;
    responses : list (Call * option Response);
    tasks : list Task }.

Definition set_node (i : nat) (rf : Raft D) (c : Cluster) : Cluster :=
  mkCluster (<[i := rf]> (nodes c)) (incs c) (elections c) (requests c) (responses c) (tasks c).

Definition add_requests (l : list Call) (c : Cluster) : Cluster :=
  mkCluster (nodes c) (incs c) (elections c) (l ++ requests c) (responses c) (tasks c).

Definition set_requests (l : list Call) (c : Cluster) : Cluster :=
  mkCluster (nodes c) (incs c) (elections c) l (responses c) (tasks c).

Definition set_responses (l : list (Call * option Response)) (c : Cluster) : Cluster :=
  mkCluster (nodes c) (incs c) (elections c) (requests c) l (tasks c).

Definition set_elections (l : list Election) (c : Cluster) : Cluster :=
  mkCluster (nodes c) (incs c) l (requests c) (responses c) (tasks c).

Definition set_tasks (l : list Task) (c : Cluster) : Cluster :=
  mkCluster (nodes c) (incs c) (elections c) (requests c) (responses c) l.

(** ** What goroutines send *)

(** The peers an iteration [for i := range rf.peers] does not skip. *)
Definition others (n self : nat) : list nat := filter (fun j => j <> self) (seq 0 n).

Definition vote_calls (n self inc : nat) (a : RequestVoteArgs) : list Call :=
  (fun j => mkCall self (Some inc) j (ReqVote a)) <$> others n self.

(** Lines 924-1046: an RPC for each prepared element, or a sendSnapShot. *)
Definition log_calls (self inc : nat) (xs : list (SendLogArgs D * Z)) : list Call :=
  omap (fun jx => let '(j, (a, recode)) := jx in
          if decide (j = self) then None
          else if sl_ShouldSendSnapShot a then None
          else Some (mkCall self (Some inc) j (ReqLog a recode)))
       (imap pair xs).

Definition snap_tasks (self inc : nat) (xs : list (SendLogArgs D * Z)) : list Task :=
  omap (fun jx => let '(j, (a, _)) := jx in
          if decide (j = self) then None
          else if sl_ShouldSendSnapShot a then Some (TSendSnapShot self inc j) else None)
       (imap pair xs).

(** ** Crash and restart

    A peer stops between two critical sections, or because an operation
    panics; it comes back as a fresh object made from what was on storage. *)
Definition stops_at (rf rf0 : Raft D) : Prop :=
  rf0 = rf \/ exists env op, exec env op rf = (rf0, Panic).

Definition restart (i : nat) (rf : Raft D) (c : Cluster) : Cluster :=
  mkCluster (<[i := rf]> (nodes c)) (alter S i (incs c))
    (filter (fun e => el_src e <> i) (elections c)) (requests c) (responses c) (tasks c).

(** ** Steps *)

Inductive step (c : Cluster) : Cluster -> Prop :=
| step_tick i inc rf rf' now env o :
    nodes c !! i = Some rf -> incs c !! i = Some inc ->
    ticker_begin now env rf = (rf', Ret o) ->
    step c (match o with
            | None => set_node i rf' c
            | Some a => set_elections (mkElection i a tally0 [] :: elections c)
                          (add_requests (vote_calls (length (nodes c)) i inc a)
                             (set_node i rf' c))
            end)
| step_decide e e1 e2 rf rf' :
    elections c = e1 ++ e :: e2 -> nodes c !! el_src e = Some rf ->
    keepWaiting (length (nodes c)) (el_tally e) = false ->
    ticker_decide (el_args e) (el_tally e) rf = (rf', Ret tt) ->
    step c (set_elections (e1 ++ e2) (set_node (el_src e) rf' c))
| step_start i rf rf' cmd r :
    nodes c !! i = Some rf -> Start cmd rf = (rf', Ret r) -> step c (set_node i rf' c)
| step_sendlog i inc rf rf' o :
    nodes c !! i = Some rf -> incs c !! i = Some inc ->
    sendLogTicketCore_begin rf = (rf', Ret o) ->
    step c (match o with
            | None => set_node i rf' c
            | Some xs => set_tasks (snap_tasks i inc xs ++ tasks c)
                           (add_requests (log_calls i inc xs) (set_node i rf' c))
            end)
| step_sendsnap i inc j t1 t2 rf rf' o :
    tasks c = t1 ++ TSendSnapShot i inc j :: t2 ->
    nodes c !! i = Some rf -> incs c !! i = Some inc ->
    sendSnapShot_begin (Z.of_nat j) rf = (rf', Ret o) ->
    step c (set_tasks (t1 ++ t2)
              (match o with
               | None => set_node i rf' c
               | Some (a, ctx) => add_requests [mkCall i (Some inc) j (ReqSnap a ctx)] (set_node i rf' c)
               end))
| step_deliver_vote l1 call l2 a rf rf' env r :
    requests c = l1 ++ call :: l2 -> c_req call = ReqVote a ->
    nodes c !! c_dst call = Some rf -> RequestVote env a rf = (rf', Ret r) ->
    step c (set_responses ((call, Some (RepVote r)) :: responses c)
              (set_requests (l1 ++ l2) (set_node (c_dst call) rf' c)))
| step_deliver_log l1 call l2 a recode rf rf' env r :
    requests c = l1 ++ call :: l2 -> c_req call = ReqLog a recode ->
    nodes c !! c_dst call = Some rf -> RequestSendLog env a rf = (rf', Ret r) ->
    step c (set_responses ((call, Some (RepLog r)) :: responses c)
              (set_requests (l1 ++ l2) (set_node (c_dst call) rf' c)))
| step_deliver_snap l1 call l2 a ctx rf rf' inc env r spawned :
    requests c = l1 ++ call :: l2 -> c_req call = ReqSnap a ctx ->
    nodes c !! c_dst call = Some rf -> incs c !! c_dst call = Some inc ->
    RequestInstallSnapShot env a rf = (rf', Ret (r, spawned)) ->
    step c (set_tasks (match spawned with
                       | Some (lastIncludedIndex, _) =>
                           TInstalled (c_dst call) inc lastIncludedIndex :: tasks c
                       | None => tasks c
                       end)
              (set_responses ((call, Some (RepSnap r)) :: responses c)
                (set_requests (l1 ++ l2) (set_node (c_dst call) rf' c))))
| step_lose_request l1 call l2 :
    requests c = l1 ++ call :: l2 ->
    step c (set_responses ((call, None) :: responses c) (set_requests (l1 ++ l2) c))
| step_detach l1 call l2 :
    requests c = l1 ++ call :: l2 -> c_inc call <> None ->
    step c (set_responses ((call, None) :: responses c) (set_requests (l1 ++ detached call :: l2) c))
| step_lose_response l1 call r l2 :
    responses c = l1 ++ (call, r) :: l2 ->
    step c (set_responses (l1 ++ (call, None) :: l2) c)
| step_vote_reply l1 call r l2 a e1 e e2 rf rf' env t inc :
    responses c = l1 ++ (call, r) :: l2 -> c_req call = ReqVote a ->
    c_inc call = Some inc -> incs c !! c_src call = Some inc -> nodes c !! c_src call = Some rf ->
    elections c = e1 ++ e :: e2 -> el_src e = c_src call -> el_args e = a ->
    let reply := match r with Some (RepVote v) => Some v | _ => None end in
    onVoteReply env reply (el_tally e) rf = (rf', Ret t) ->
    let granters := match reply with
                    | Some v => if rvr_VoteGranted v then c_dst call :: el_granters e
                                else el_granters e
                    | None => el_granters e
                    end in
    step c (set_elections (e1 ++ mkElection (el_src e) a t granters :: e2)
              (set_responses (l1 ++ l2) (set_node (c_src call) rf' c)))
| step_vote_late l1 call r l2 a rf rf' env t t' inc :
    responses c = l1 ++ (call, r) :: l2 -> c_req call = ReqVote a ->
    c_inc call = Some inc -> incs c !! c_src call = Some inc -> nodes c !! c_src call = Some rf ->
    (forall e, e ∈ elections c -> el_src e = c_src call -> el_args e <> a) ->
    onVoteReply env (match r with Some (RepVote v) => Some v | _ => None end) t rf
      = (rf', Ret t') ->
    step c (set_responses (l1 ++ l2) (set_node (c_src call) rf' c))
| step_log_reply l1 call r l2 a recode rf rf' env inc :
    responses c = l1 ++ (call, Some (RepLog r)) :: l2 -> c_req call = ReqLog a recode ->
    c_inc call = Some inc -> incs c !! c_src call = Some inc -> nodes c !! c_src call = Some rf ->
    sendLog_reply env (Z.of_nat (c_dst call)) a recode r rf = (rf', Ret tt) ->
    step c (set_responses (l1 ++ l2) (set_node (c_src call) rf' c))
| step_snap_reply l1 call r l2 a ctx rf rf' env inc :
    responses c = l1 ++ (call, Some (RepSnap r)) :: l2 -> c_req call = ReqSnap a ctx ->
    c_inc call = Some inc -> incs c !! c_src call = Some inc -> nodes c !! c_src call = Some rf ->
    sendSnapShot_reply env (Z.of_nat (c_dst call)) ctx r rf = (rf', Ret tt) ->
    step c (set_responses (l1 ++ l2) (set_node (c_src call) rf' c))
| step_discard l1 call r l2 :
    responses c = l1 ++ (call, r) :: l2 ->
    ((r = None /\ forall a, c_req call <> ReqVote a)
     \/ incs c !! c_src call <> c_inc call) ->
    step c (set_responses (l1 ++ l2) c)
| step_installed t1 i inc lastIncludedIndex t2 rf rf' :
    tasks c = t1 ++ TInstalled i inc lastIncludedIndex :: t2 ->
    incs c !! i = Some inc -> nodes c !! i = Some rf ->
    installSnapshotDone lastIncludedIndex rf = (rf', Ret tt) ->
    step c (set_tasks (t1 ++ t2) (set_node i rf' c))
| step_service_snapshot i rf rf' index snap :
    nodes c !! i = Some rf -> index <= commitIndex rf ->
    Snapshot index snap rf = (rf', Ret tt) -> step c (set_node i rf' c)
| step_apply_collect i inc rf rf' batch :
    nodes c !! i = Some rf -> incs c !! i = Some inc ->
    (forall b, TApply i inc b ∉ tasks c) ->
    applyTicket_waits rf = (rf, Ret false) ->
    applyTicket_collect rf = (rf', Ret batch) ->
    step c (set_tasks (TApply i inc batch :: tasks c) (set_node i rf' c))
| step_apply_finish t1 i inc batch t2 rf rf' :
    tasks c = t1 ++ TApply i inc batch :: t2 ->
    incs c !! i = Some inc -> nodes c !! i = Some rf ->
    applyTicket_gate batch rf = (rf, Ret GateSend) ->
    applyTicket_finish batch rf = (rf', Ret tt) ->
    step c (set_tasks (t1 ++ t2) (set_node i rf' c))
| step_crash i rf rf0 rf' now :
    nodes c !! i = Some rf -> stops_at rf rf0 ->
    Make (peers rf) (me rf) now (persister rf0) = (rf', Ret tt) ->
    step c (restart i rf' c).

(** [n] peers started on blank storage. *)
Definition init_nodes (n : nat) (now : nat -> Z) : list (Raft D) :=
  (fun i => fst (Make n (Z.of_nat i) (now i) MakePersister)) <$> seq 0 n.

Definition init (n : nat) (now : nat -> Z) : Cluster :=
  mkCluster (init_nodes n now) (replicate n 0%nat) [] [] [] [].

Definition reachable (n : nat) (c : Cluster) : Prop :=
  exists now, rtc step (init n now) c.

(** What one step does to the peers: nothing, one operation of one of them, or
    a restart of one of them. *)
Definition node_move (rf rf' : Raft D) : Prop :=
  (exists env op, exec env op rf = (rf', Ret tt))
  \/ (exists rf0 now, stops_at rf rf0 /\ Make (peers rf) (me rf) now (persister rf0) = (rf', Ret tt)).

Definition any_env : Env := fun _ => mkTick 0 0.

Local Ltac moved i env op :=
  right; exists i; do 2 eexists; split; [eassumption|]; split; [done|]; left;
  exists env, op; first [eassumption|eapply ignore_ret; eassumption].

Lemma step_nodes (c c' : Cluster) :
  step c c' ->
  nodes c' = nodes c \/
  exists i rf rf', nodes c !! i = Some rf /\ nodes c' = <[i := rf']> (nodes c) /\ node_move rf rf'.
Proof.
  intros Hst. destruct Hst as
    [i inc rf rf' now env o| e | i rf rf' cmd r | i inc rf rf' o
    | i inc j t1 t2 rf rf' o | l1 call l2 a rf rf' env | l1 call l2 a recode rf rf' env
    | l1 call l2 a ctx rf rf' inc env
    | | | | l1 call r l2 a e1 e e2 rf rf' env t inc ? ? ? ? ? ? ? ? reply
    | l1 call r l2 a rf rf' env t t' | l1 call r l2 a recode rf rf' env
    | l1 call r l2 a ctx rf rf' env |
    | t1 i inc lii | i rf rf' index snap | i inc rf rf' batch | t1 i inc batch | i rf rf0 rf' now ].
  all: try (by left).
  - destruct o; moved i env (OpTicker (D:=D) now).
  - moved (el_src e) any_env (OpDecide (D:=D) (el_args e) (el_tally e)).
  - moved i any_env (OpStart cmd).
  - destruct o; moved i any_env (OpSendLogCore (D:=D)).
  - destruct o as [[]|]; moved i any_env (OpSendSnapShot (D:=D) (Z.of_nat j)).
  - moved (c_dst call) env (OpRequestVote (D:=D) a).
  - moved (c_dst call) env (OpRequestSendLog a).
  - moved (c_dst call) env (OpRequestInstallSnapShot (D:=D) a).
  - moved (c_src call) env (OpVoteReply (D:=D) reply (el_tally e)).
  - moved (c_src call)
      env (OpVoteReply (D:=D) (match r with Some (RepVote v) => Some v | _ => None end) t).
  - moved (c_src call) env (OpSendLogReply (Z.of_nat (c_dst call)) a recode r).
  - moved (c_src call) env (OpSnapShotReply (D:=D) (Z.of_nat (c_dst call)) ctx r).
  - moved i any_env (OpInstallSnapshotDone (D:=D) lii).
  - moved i any_env (OpSnapshot (D:=D) index snap).
  - moved i any_env (OpApplyCollect (D:=D)).
  - moved i any_env (OpApplyFinish batch).
  - right. exists i, rf, rf'. split; [done|]. split; [done|]. right. by exists rf0, now.
Qed.

End Cluster.
