(* ===== verification/RaftDemo.v ===== *)
(** A concrete execution of a three-peer cluster, for the witnesses of the
    cluster theorems: peer 0 times out, wins the vote of peer 1, becomes leader
    of term 1, appends a command, replicates it to peer 1 and commits it; its next
    message tells peer 1, which commits it too. *)
From Stdlib Require Import ZArith Lia.
From stdpp Require Import base list numbers relations.
From S2P Require Import Prelude RaftTypes RaftNode RaftVote RaftCluster.

Module Demo.
Import ListGob.

Abbreviation cluster := (Cluster (D:=Z)).

Definition env0 : Env := fun _ => mkTick 7 0.
Definition boot : nat -> Z := fun _ => 0.
Definition c0 : cluster := Eval vm_compute in init 3 boot.

(** The peer an operation leaves behind. *)
Definition after {A} (m : M (Raft Z) A) (c : cluster) (i : nat) : list (Raft Z) :=
  alter (fun rf => fst (m rf)) i (nodes c).

Definition voteArgs : RequestVoteArgs := mkRequestVoteArgs 1 0 0 (-1).
Definition voteCall (j : nat) : Call (D:=Z) := mkCall 0 (Some 0%nat) j (ReqVote voteArgs).
Definition granted_by (j : nat) : Call (D:=Z) * option Response :=
  (voteCall j, Some (RepVote (mkRequestVoteReply 0 true))).

(** peer 0 starts an election *)
Definition c1 : cluster := Eval vm_compute in
  mkCluster (after (ticker_begin 1000 env0) c0 0) [0; 0; 0]%nat
    [mkElection 0 voteArgs tally0 []] [voteCall 1; voteCall 2] [] [].
(** peer 1 grants its vote *)
Definition c2 : cluster := Eval vm_compute in
  mkCluster (after (RequestVote env0 voteArgs) c1 1) [0; 0; 0]%nat
    (elections c1) [voteCall 2] [granted_by 1] [].
(** peer 0 counts it *)
Definition c3 : cluster := Eval vm_compute in
  mkCluster (nodes c2) [0; 0; 0]%nat
    [mkElection 0 voteArgs (mkTally 2 2 0) [1%nat]] [voteCall 2] [] [].
(** and becomes leader *)
Definition c4 : cluster := Eval vm_compute in
  mkCluster (after (ticker_decide voteArgs (mkTally 2 2 0)) c3 0) [0; 0; 0]%nat
    [] [voteCall 2] [] [].
(** a command is submitted *)
Definition c5 : cluster := Eval vm_compute in
  mkCluster (after (Start 42) c4 0) [0; 0; 0]%nat [] [voteCall 2] [] [].

Definition logArgs : SendLogArgs Z :=
  mkSendLogArgs 1 0 0 (-1) [mkLogEntry 1 1 (Some 42)] 0 LogMsgType false.
Definition logCall (j : nat) : Call (D:=Z) := mkCall 0 (Some 0%nat) j (ReqLog logArgs 1).

(** it is sent to the peers *)
Definition c6 : cluster := Eval vm_compute in
  mkCluster (nodes c5) [0; 0; 0]%nat [] [logCall 1; logCall 2; voteCall 2] [] [].
(** peer 1 stores it *)
Definition c7 : cluster := Eval vm_compute in
  mkCluster (after (RequestSendLog env0 logArgs) c6 1) [0; 0; 0]%nat []
    [logCall 2; voteCall 2] [(logCall 1, Some (RepLog (mkSendLogReply 1 true 0)))] [].
(** and peer 0 commits it *)
Definition c8 : cluster := Eval vm_compute in
  mkCluster (after (sendLog_reply env0 1 logArgs 1 (mkSendLogReply 1 true 0)) c7 0)
    [0; 0; 0]%nat [] [logCall 2; voteCall 2] [] [].

(** the next round of messages *)
Definition heartArgs : SendLogArgs Z := mkSendLogArgs 1 0 1 1 [] 1 HeartBeatMsgType false.
Definition heartCall : Call (D:=Z) := mkCall 0 (Some 0%nat) 1 (ReqLog heartArgs 2).
Definition logCall2 : Call (D:=Z) :=
  mkCall 0 (Some 0%nat) 2 (ReqLog (mkSendLogArgs 1 0 0 (-1) [mkLogEntry 1 1 (Some 42)] 1 LogMsgType false) 1).
Definition c9 : cluster := Eval vm_compute in
  mkCluster (nodes c8) [0; 0; 0]%nat [] [heartCall; logCall2; logCall 2; voteCall 2] [] [].
(** peer 1 commits the command *)
Definition c10 : cluster := Eval vm_compute in
  mkCluster (after (RequestSendLog env0 heartArgs) c9 1) [0; 0; 0]%nat []
    [logCall2; logCall 2; voteCall 2] [(heartCall, Some (RepLog (mkSendLogReply 1 true 0)))] [].

Lemma step_eq (c c' c'' : cluster) : step c c' -> c' = c'' -> step c c''.
Proof. by intros ? <-. Qed.

Local Ltac calc := vm_compute; reflexivity.

Lemma step_01 : step c0 c1.
Proof. eapply step_eq; [eapply (step_tick _ 0 0 _ _ 1000 env0 (Some voteArgs)); calc|calc]. Qed.

Lemma step_12 : step c1 c2.
Proof.
  eapply step_eq; [eapply (step_deliver_vote _ [] (voteCall 1) [voteCall 2] voteArgs _ _ env0); calc|calc]. Qed.

Lemma step_23 : step c2 c3.
Proof.
  eapply step_eq; [eapply (step_vote_reply _ [] (voteCall 1) (snd (granted_by 1)) [] voteArgs []
    (mkElection 0 voteArgs tally0 []) [] _ _ env0); calc|calc]. Qed.

Lemma step_34 : step c3 c4.
Proof.
  eapply step_eq; [eapply (step_decide _ (mkElection 0 voteArgs (mkTally 2 2 0) [1%nat]) [] []); calc|calc]. Qed.

Lemma step_45 : step c4 c5.
Proof. eapply step_eq; [eapply (step_start _ 0 _ _ 42); calc|calc]. Qed.

Lemma step_56 : step c5 c6.
Proof. eapply step_eq; [eapply (step_sendlog _ 0 0); calc|calc]. Qed.

Lemma step_67 : step c6 c7.
Proof.
  eapply step_eq.
  - eapply (step_deliver_log _ [] (logCall 1) [logCall 2; voteCall 2] logArgs 1 _ _ env0).
    + calc.
    + calc.
    + calc.
    + calc.
  - calc.
Qed.

Lemma step_78 : step c7 c8.
Proof. eapply step_eq; [eapply (step_log_reply _ [] (logCall 1) (mkSendLogReply 1 true 0) [] logArgs 1 _ _ env0); calc|calc]. Qed.

Lemma step_89 : step c8 c9.
Proof. eapply step_eq; [eapply (step_sendlog _ 0 0); calc|calc]. Qed.

Lemma step_9_10 : step c9 c10.
Proof.
  eapply step_eq.
  - eapply (step_deliver_log _ [] heartCall [logCall2; logCall 2; voteCall 2] heartArgs 2 _ _ env0).
    + calc.
    + calc.
    + calc.
    + calc.
  - calc.
Qed.

Lemma run_04 : rtc step c0 c4.
Proof.
  eapply rtc_l; [apply step_01|]. eapply rtc_l; [apply step_12|].
  eapply rtc_l; [apply step_23|]. eapply rtc_l; [apply step_34|]. done.
Qed.

Lemma run_48 : rtc step c4 c8.
Proof.
  eapply rtc_l; [apply step_45|]. eapply rtc_l; [apply step_56|].
  eapply rtc_l; [apply step_67|]. eapply rtc_l; [apply step_78|]. done.
Qed.

End Demo.
