(* ===== verification/ElectionSafety.v ===== *)
(** Election safety: in every execution of the cluster, with message loss,
    reordering and crashes, at most one peer is ever leader in a given term.

    The proof records every vote a peer ever held in a history [h] and shows
    that a peer votes at most once per term (across restarts, because the vote
    is on storage before it is answered), that every counted vote is in the
    history, and that a leader's votes form a majority. *)
From Stdlib Require Import ZArith Lia.
From stdpp Require Import base list numbers relations.
From S2P Require Import Prelude RaftTypes RaftNode RaftVote RaftWf RaftLeader RaftCluster.

Section Election.
Context {D : Type} `{LabGobOk D}.
Implicit Types (rf : Raft D) (c : Cluster (D:=D)).

(** ** The history of votes *)

(** (voter, term, candidate) *)
Definition Vote : Type := nat * Z * Z.
Definition History := list Vote.

Definition held_votes (ns : list (Raft D)) : History :=
  omap (fun irf => let '(i, rf) := irf in
          if decide (voteFor rf = -1) then None else Some (i, currentTerm rf, voteFor rf))
       (imap pair ns).

(** Executions together with the votes seen so far. *)
Inductive run (n : nat) (now : nat -> Z) : Cluster (D:=D) -> History -> Prop :=
| run_init : run n now (init n now) (held_votes (nodes (init n now)))
| run_step c c' h :
    run n now c h -> step c c' -> run n now c' (held_votes (nodes c') ++ h).

(** ** Vote traffic *)

(** (candidate, term, voter) of a vote RPC whose answer is awaited *)
Definition Key : Type := nat * Z * nat.

Definition vote_key (call : Call (D:=D)) : option Key :=
  match c_inc call, c_req call with
  | Some _, ReqVote a => Some (c_src call, rv_Term a, c_dst call)
  | _, _ => None
  end.

Definition keys c : list Key :=
  omap vote_key (requests c) ++ omap (fun cr => vote_key (fst cr)) (responses c).

Definition granted (r : option Response) : bool :=
  match r with Some (RepVote v) => rvr_VoteGranted v | _ => false end.

(** ** The invariant *)

(** Every vote of the history is the current one of its voter or is from an
    older term, and there is one per voter and term. *)
Record votes_ok (ns : list (Raft D)) (h : History) : Prop :=
  { vo_real : forall j t x, (j, t, x) ∈ h -> x <> -1;
    vo_unique : forall j t x y, (j, t, x) ∈ h -> (j, t, y) ∈ h -> x = y;
    vo_past : forall j t x, (j, t, x) ∈ h -> exists rf, ns !! j = Some rf /\
                (t < currentTerm rf \/ (t = currentTerm rf /\ voteFor rf = x));
    vo_held : forall j rf, ns !! j = Some rf -> voteFor rf <> -1 ->
                (j, currentTerm rf, voteFor rf) ∈ h }.

Definition nodes_ok (n : nat) (ns : list (Raft D)) : Prop :=
  length ns = n /\ forall j rf, ns !! j = Some rf ->
    me rf = Z.of_nat j /\ peers rf = n /\ persisted rf.

(** A call of an election: addressed by the candidate to another peer, in a
    term the candidate has reached. *)
Definition call_ok (ns : list (Raft D)) (call : Call (D:=D)) : Prop :=
  forall a, c_req call = ReqVote a ->
    rv_CandidateId a = Z.of_nat (c_src call) /\ c_dst call <> c_src call
    /\ exists rf, ns !! c_src call = Some rf /\ rv_Term a <= currentTerm rf.

Record election_ok c (h : History) (e : Election) : Prop :=
  { eo_id : rv_CandidateId (el_args e) = Z.of_nat (el_src e);
    eo_self : (el_src e, rv_Term (el_args e), Z.of_nat (el_src e)) ∈ h;
    eo_count : voteCount (el_tally e) = 1 + Z.of_nat (length (el_granters e));
    eo_nodup : NoDup (el_granters e);
    eo_notself : el_src e ∉ el_granters e;
    eo_votes : forall g, g ∈ el_granters e ->
                 (g, rv_Term (el_args e), Z.of_nat (el_src e)) ∈ h;
    eo_once : forall g, g ∈ el_granters e ->
                 (el_src e, rv_Term (el_args e), g) ∉ keys c }.

(** A majority of the peers voted for [i] in term [t]. *)
Definition quorum_for (n : nat) (h : History) (i : nat) (t : Z) : Prop :=
  exists Q : list nat, NoDup Q /\ Z.of_nat n ÷ 2 < Z.of_nat (length Q)
    /\ forall j, j ∈ Q -> (j, t, Z.of_nat i) ∈ h.

Record Inv (n : nat) c (h : History) : Prop :=
  { inv_nodes : nodes_ok n (nodes c);
    inv_votes : votes_ok (nodes c) h;
    inv_calls : forall call, call ∈ requests c \/ call ∈ (responses c).*1 -> call_ok (nodes c) call;
    inv_keys : NoDup (keys c);
    inv_grants : forall call r a, (call, r) ∈ responses c -> granted r = true ->
                   c_req call = ReqVote a -> (c_dst call, rv_Term a, rv_CandidateId a) ∈ h;
    inv_elections : forall e, e ∈ elections c -> election_ok c h e;
    inv_leaders : forall i rf, nodes c !! i = Some rf -> state rf = Leader ->
                    quorum_for n h i (currentTerm rf) }.

(** ** Quorums intersect *)

Lemma quorums_meet (n : nat) (Q1 Q2 : list nat) :
  NoDup Q1 -> NoDup Q2 -> (forall j, j ∈ Q1 -> (j < n)%nat) -> (forall j, j ∈ Q2 -> (j < n)%nat) ->
  Z.of_nat n ÷ 2 < Z.of_nat (length Q1) -> Z.of_nat n ÷ 2 < Z.of_nat (length Q2) ->
  exists j, j ∈ Q1 /\ j ∈ Q2.
Proof.
  intros N1 N2 B1 B2 L1 L2.
  destruct (decide (Exists (fun j => j ∈ Q2) Q1)) as [Hex|Hex].
  { apply Exists_exists in Hex as (j & ? & ?). eauto. }
  exfalso. assert (Hd : NoDup (Q1 ++ Q2)).
  { apply NoDup_app. split_and!; try done. intros j H1 H2. apply Hex, Exists_exists. eauto. }
  assert (Hsub : forall j, j ∈ Q1 ++ Q2 -> j ∈ seq 0 n).
  { intros j [Hj|Hj]%elem_of_app; apply elem_of_seq; [specialize (B1 j Hj)|specialize (B2 j Hj)]; lia. }
  pose proof (submseteq_length _ _ (NoDup_submseteq _ _ Hd Hsub)) as Hlen.
  rewrite length_app, length_seq in Hlen.
  rewrite Z.quot_div_nonneg in * by lia. pose proof (Z.div_mod (Z.of_nat n) 2).
  pose proof (Z.mod_pos_bound (Z.of_nat n) 2). lia.
Qed.

(** ** The history grows with the votes held *)

Lemma elem_of_held ns j t x :
  (j, t, x) ∈ held_votes ns <->
  exists rf, ns !! j = Some rf /\ voteFor rf <> -1 /\ currentTerm rf = t /\ voteFor rf = x.
Proof.
  unfold held_votes. rewrite list_elem_of_omap. split.
  - intros ([i rf] & Hin & Heq). apply elem_of_lookup_imap in Hin as (i' & rf' & [= -> ->] & Hl).
    case_decide; simplify_eq. eauto 10.
  - intros (rf & Hl & Hne & <- & <-). exists (j, rf). split.
    + apply elem_of_lookup_imap. eauto.
    + by rewrite decide_False.
Qed.

(** Term and vote of a peer may only move forward. *)
Definition vote_fwd rf rf' : Prop :=
  peers rf' = peers rf /\ me rf' = me rf /\ currentTerm rf <= currentTerm rf'
  /\ (currentTerm rf' = currentTerm rf -> voteFor rf <> -1 -> voteFor rf' = voteFor rf).

Lemma vote_le_fwd rf rf' : vote_le rf rf' -> vote_fwd rf rf'.
Proof. intros []. by split_and!. Qed.

Lemma votes_ok_step ns i rf rf' h :
  votes_ok ns h -> ns !! i = Some rf -> vote_fwd rf rf' ->
  votes_ok (<[i := rf']> ns) (held_votes (<[i := rf']> ns) ++ h).
Proof.
  intros [Hr Hu Hp Hh] Hi (_ & _ & Ht & Hv).
  (* a vote of the old history is still compatible with the new peers *)
  assert (Hold : forall j t x, (j, t, x) ∈ h -> exists rfj, <[i := rf']> ns !! j = Some rfj /\
            (t < currentTerm rfj \/ (t = currentTerm rfj /\ voteFor rfj = x))).
  { intros j t x Hin. destruct (Hp _ _ _ Hin) as (rfj & Hj & Hcase).
    destruct (decide (j = i)) as [->|Hne]; [|rewrite list_lookup_insert_ne by done; eauto].
    assert (rfj = rf) as -> by congruence.
    rewrite list_lookup_insert_eq by (by eapply lookup_lt_Some). exists rf'. split; [done|].
    destruct Hcase as [?|[-> <-]]; [left; lia|].
    destruct (decide (currentTerm rf' = currentTerm rf)) as [E|E]; [right|left; lia].
    split; [done|]. apply Hv; [done|]. by eapply Hr. }
  split.
  - intros j t x [Hin|Hin]%elem_of_app; [|by eapply Hr].
    apply elem_of_held in Hin as (? & ? & ? & ? & <-). done.
  - intros j t x y [Hx|Hx]%elem_of_app [Hy|Hy]%elem_of_app; [| | |by eapply Hu].
    + apply elem_of_held in Hx as (? & ? & ? & ? & <-).
      apply elem_of_held in Hy as (? & ? & ? & ? & <-). congruence.
    + apply elem_of_held in Hx as (rfx & Hlx & ? & <- & <-).
      destruct (Hold _ _ _ Hy) as (rfy & Hly & [?|[? <-]]); simplify_eq; [lia|done].
    + apply elem_of_held in Hy as (rfx & Hlx & ? & <- & <-).
      destruct (Hold _ _ _ Hx) as (rfy & Hly & [?|[? <-]]); simplify_eq; [lia|done].
  - intros j t x [Hin|Hin]%elem_of_app; [|by apply Hold].
    apply elem_of_held in Hin as (rfj & ? & ? & <- & <-). eauto.
  - intros j rfj Hj Hne. apply elem_of_app. left. apply elem_of_held. eauto.
Qed.

Lemma nodes_ok_step n ns i rf rf' :
  nodes_ok n ns -> ns !! i = Some rf -> vote_fwd rf rf' -> persisted rf' ->
  nodes_ok n (<[i := rf']> ns).
Proof.
  intros [Hn Hok] Hi (Hp & Hm & _) Hs. split; [by rewrite length_insert|].
  intros j rfj [(-> & -> & _)|[? ?]]%list_lookup_insert_Some; [|by apply Hok].
  destruct (Hok _ _ Hi) as (? & ? & _). split_and!; congruence.
Qed.

Lemma call_ok_step ns i rf rf' call :
  call_ok ns call -> ns !! i = Some rf -> vote_fwd rf rf' -> call_ok (<[i := rf']> ns) call.
Proof.
  intros Hc Hi (_ & _ & Ht & _) a Ha. destruct (Hc a Ha) as (? & ? & rfs & Hs & ?).
  split_and!; try done. destruct (decide (c_src call = i)) as [E|Hne].
  - rewrite E in Hs |- *. exists rf'. rewrite list_lookup_insert_eq by (by eapply lookup_lt_Some). split; [done|].
    simplify_eq. lia.
  - exists rfs. by rewrite list_lookup_insert_ne.
Qed.

(** ** One peer changes *)

(** A step that moves one peer forward; what it adds must be justified. *)
Record move n c h c' i rf rf' : Prop :=
  { mv_lookup : nodes c !! i = Some rf;
    mv_nodes : nodes c' = <[i := rf']> (nodes c);
    mv_fwd : vote_fwd rf rf';
    mv_stored : persisted rf';
    mv_leader : state rf' = Leader ->
                quorum_for n (held_votes (nodes c') ++ h) i (currentTerm rf');
    mv_calls : forall call, (call ∈ requests c' \/ call ∈ (responses c').*1) ->
                 (call ∈ requests c \/ call ∈ (responses c).*1) \/ call_ok (nodes c') call;
    mv_keys : NoDup (keys c');
    mv_grants : forall call r, (call, r) ∈ responses c' -> granted r = true ->
                  (call, r) ∈ responses c \/
                  forall a, c_req call = ReqVote a ->
                    (c_dst call, rv_Term a, rv_CandidateId a) ∈ held_votes (nodes c');
    mv_elections : forall e, e ∈ elections c' -> election_ok c' (held_votes (nodes c') ++ h) e }.

Lemma quorum_for_mono n h h' i t : h ⊆ h' -> quorum_for n h i t -> quorum_for n h' i t.
Proof. intros Hs (Q & ? & ? & HQ). exists Q. split_and!; auto. Qed.

Lemma election_ok_mono c c' h h' e :
  h ⊆ h' -> (forall k, k ∈ keys c' -> k ∈ keys c) -> election_ok c h e -> election_ok c' h' e.
Proof. intros Hs Hk []. split; auto. intros g Hg Hin. by eapply eo_once0, Hk. Qed.

Lemma move_inv n c h c' i rf rf' :
  Inv n c h -> move n c h c' i rf rf' -> Inv n c' (held_votes (nodes c') ++ h).
Proof.
  intros [Hn Hv Hc Hk Hg He Hl] [Hi Hns Hf Hp Hle Hcs Hks Hgs Hes].
  split; try done.
  - rewrite Hns. by eapply nodes_ok_step.
  - rewrite Hns. by eapply votes_ok_step.
  - intros call Hcall. destruct (Hcs _ Hcall) as [Hold|?]; [|done].
    rewrite Hns. eapply call_ok_step; eauto.
  - intros call r a Hin Hgr Ha. apply elem_of_app.
    destruct (Hgs _ _ Hin Hgr) as [Hold|Hnew]; [right; by eapply Hg|left; by apply Hnew].
  - intros j rfj Hj Hs. rewrite Hns in Hj.
    apply list_lookup_insert_Some in Hj as [(-> & -> & _)|[? Hj]]; [by apply Hle|].
    eapply quorum_for_mono; [|by eapply Hl]. intros x Hx. apply elem_of_app. by right.
Qed.

(** ** Operations of one peer *)

Lemma exec_fwd env op rf : vote_fwd rf (fst (exec env op rf)).
Proof.
  destruct (is_decide op) eqn:Hd.
  - destruct op; try done. simpl. pose proof (decide_vote_le args t rf) as Hle. simpl in Hle.
    destruct Hle as [->|(_ & _ & _ & Hc)].
    + by split_and!.
    + revert Hc. generalize (fst (ticker_decide args t rf)). unfold core. simpl. intros rf' [=].
      split_and!; congruence || lia.
  - apply vote_le_fwd. by apply exec_vote_le.
Qed.

(** What the storage of a stopped peer says of its term and vote. *)
Lemma stop_stored rf rf0 :
  persisted rf -> stops_at rf rf0 ->
  exists rf1, vote_fwd rf rf1 /\
    recovered (persister rf0) = (currentTerm rf1, voteFor rf1, log rf1, snapshot rf1).
Proof.
  intros Hp [->|(env & op & Hex)]; [exists rf; split; [by split_and!|done]|].
  pose proof (exec_fwd env op rf) as Hf. rewrite Hex in Hf. simpl in Hf.
  destruct (exec_stored env op rf Hp) as [Hs|(_ & Hs & _)]; rewrite Hex in Hs; simpl in Hs.
  - by exists rf0.
  - exists rf. rewrite Hs. split; [by split_and!|done].
Qed.

(** Restarting from storage after a stop at any point keeps term and vote. *)
Lemma restart_fwd rf rf0 rf' now :
  persisted rf -> stops_at rf rf0 ->
  Make (peers rf) (me rf) now (persister rf0) = (rf', Ret tt) ->
  vote_fwd rf rf' /\ persisted rf' /\ state rf' = Follower.
Proof.
  intros Hp Hst Hmk. apply Make_ret in Hmk as (Hrec & Hpe & Hme & Hps & Hs & _).
  destruct (stop_stored _ _ Hp Hst) as (rf1 & (_ & _ & Ht & Hv) & Hrec1).
  rewrite Hrec1 in Hrec. injection Hrec as Et Ev El Esn. split_and!; try done.
  - split_and!; try done; [lia|]. intros ? ?. rewrite <- Ev. apply Hv; [lia|done].
  - unfold persisted. by rewrite Hps, Hrec1, Et, Ev, El, Esn.
Qed.

(** Calls with the same ends and arguments. *)
Definition same_rpc (call0 call : Call (D:=D)) : Prop :=
  c_src call0 = c_src call /\ c_dst call0 = c_dst call /\ c_req call0 = c_req call.

Lemma same_call_ok ns call0 call : same_rpc call0 call -> call_ok ns call0 -> call_ok ns call.
Proof. intros (E1 & E2 & E3) Hok a Ha. rewrite <- E1, <- E2. apply Hok. congruence. Qed.

(** What a step may do to the traffic without touching elections: no vote RPC
    appears, and a new answer that grants is covered by the votes held. *)
Record traffic_sub c c' : Prop :=
  { ts_calls : forall call, (call ∈ requests c' \/ call ∈ (responses c').*1) ->
      (exists call0, (call0 ∈ requests c \/ call0 ∈ (responses c).*1) /\ same_rpc call0 call)
      \/ (forall a, c_req call <> ReqVote a);
    ts_keys : keys c' ⊆+ keys c;
    ts_grants : forall call r, (call, r) ∈ responses c' -> granted r = true ->
      (call, r) ∈ responses c \/
      forall a, c_req call = ReqVote a ->
        (c_dst call, rv_Term a, rv_CandidateId a) ∈ held_votes (nodes c');
    ts_elections : elections c' ⊆ elections c }.

Lemma no_vote_call ns call : (forall a, c_req call <> ReqVote a) -> call_ok ns call.
Proof. intros Hn a Ha. by apply Hn in Ha. Qed.

Lemma traffic_move n c h c' i rf rf' :
  Inv n c h -> traffic_sub c c' ->
  nodes c !! i = Some rf -> nodes c' = <[i := rf']> (nodes c) ->
  vote_fwd rf rf' -> persisted rf' ->
  (state rf' = Leader -> quorum_for n (held_votes (nodes c') ++ h) i (currentTerm rf')) ->
  move n c h c' i rf rf'.
Proof.
  intros HI [Hc Hk Hg He] Hi Hns Hf Hp Hl. split; try done.
  - intros call Hcall. right. destruct (Hc _ Hcall) as [(call0 & Hold & Hsame)|?]; [|by apply no_vote_call].
    eapply same_call_ok; [exact Hsame|]. rewrite Hns. eapply call_ok_step; eauto. by apply (inv_calls _ _ _ HI).
  - eapply NoDup_submseteq_sub; [exact Hk|apply HI].
  - intros e Hin. eapply election_ok_mono; [| |apply (inv_elections _ _ _ HI), He, Hin].
    + intros x Hx. apply elem_of_app. by right.
    + intros k ?. by eapply elem_of_submseteq.
Qed.

Lemma quiet_op n c h c' i rf rf' env op :
  Inv n c h -> nodes c !! i = Some rf -> exec env op rf = (rf', Ret tt) ->
  is_decide op = false -> nodes c' = <[i := rf']> (nodes c) -> traffic_sub c c' ->
  Inv n c' (held_votes (nodes c') ++ h).
Proof.
  intros HI Hi Hex Hd Hns Ht.
  destruct (inv_nodes _ _ _ HI) as [_ Hok]. destruct (Hok _ _ Hi) as (_ & _ & Hp).
  destruct (exec_ret _ _ _ _ Hex Hp) as [Hp' Hle]. specialize (Hle Hd).
  apply (move_inv n c h c' i rf rf'); [done|]. apply traffic_move; try done; [by apply vote_le_fwd|].
  intros Hs. destruct (vl_leader _ _ Hle Hs) as [Hs0 ->].
  eapply quorum_for_mono; [|by eapply (inv_leaders _ _ _ HI)].
  intros x Hx. apply elem_of_app. by right.
Qed.

(** Steps in which no peer moves. *)
Lemma votes_ok_idle ns h : votes_ok ns h -> votes_ok ns (held_votes ns ++ h).
Proof.
  intros [Hr Hu Hp Hh].
  assert (Hin : forall j t x, (j, t, x) ∈ held_votes ns ++ h -> (j, t, x) ∈ h).
  { intros j t x [Hx|Hx]%elem_of_app; [|done].
    apply elem_of_held in Hx as (rf & ? & ? & <- & <-). by apply Hh. }
  split; eauto. intros. apply elem_of_app. eauto.
Qed.

Lemma idle_inv n c h c' :
  Inv n c h -> nodes c' = nodes c -> traffic_sub c c' ->
  Inv n c' (held_votes (nodes c') ++ h).
Proof.
  intros [Hn Hv Hcs Hks Hgs Hes Hls] Hns [Hc Hk Hg He].
  assert (Hsub : forall x, x ∈ h -> x ∈ held_votes (nodes c') ++ h)
    by (intros; apply elem_of_app; by right).
  split; try (by rewrite Hns).
  - rewrite Hns. by apply votes_ok_idle.
  - intros call Hcall. destruct (Hc _ Hcall) as [(call0 & Hold & Hsame)|?]; [|by apply no_vote_call].
    rewrite Hns. eapply same_call_ok; [exact Hsame|auto].
  - by eapply NoDup_submseteq_sub.
  - intros call r a Hcr Hgr Ha. destruct (Hg _ _ Hcr Hgr) as [?|Hnew]; [apply Hsub; by eapply Hgs|].
    apply elem_of_app. left. by apply Hnew.
  - intros e Hine. eapply election_ok_mono; [exact Hsub| |apply Hes, He, Hine].
    intros k ?. by eapply elem_of_submseteq.
  - intros j rf. rewrite Hns at 1. intros Hj Hs. eapply quorum_for_mono; [exact Hsub|eauto].
Qed.

(** ** Traffic of the steps *)

(** No call is new. *)
Lemma old_calls c c' :
  (forall call, (call ∈ requests c' \/ call ∈ (responses c').*1) -> call ∈ requests c \/ call ∈ (responses c).*1) ->
  forall call, (call ∈ requests c' \/ call ∈ (responses c').*1) ->
    (exists call0, (call0 ∈ requests c \/ call0 ∈ (responses c).*1) /\ same_rpc call0 call)
    \/ (forall a, c_req call <> ReqVote a).
Proof. intros Hall call Hin. left. exists call. split; [by apply Hall|done]. Qed.

Lemma traffic_same c c' :
  requests c' = requests c -> responses c' = responses c -> elections c' ⊆ elections c ->
  traffic_sub c c'.
Proof. intros H1 H2 H3. split; [apply old_calls|..]; unfold keys; rewrite ?H1, ?H2; auto. Qed.

Lemma traffic_send c c' l :
  requests c' = l ++ requests c -> responses c' = responses c -> elections c' = elections c ->
  (forall call a, call ∈ l -> c_req call <> ReqVote a) -> traffic_sub c c'.
Proof.
  intros H1 H2 H3 Hl. split; rewrite ?H3; auto.
  - rewrite H1, H2. intros call [[?|?]%elem_of_app|?]; [right; eauto|left..]; exists call; (split; [auto|done]).
  - unfold keys. rewrite H1, H2, omap_app.
    enough (omap vote_key l = []) as -> by done.
    clear H1. induction l as [|x l IH]; [done|]. simpl.
    assert (vote_key x = None) as ->.
    { unfold vote_key. destruct (c_inc x); [|done]. destruct (c_req x) eqn:Hx; [|done|done].
      exfalso. eapply (Hl x); [left|exact Hx]. }
    apply IH. intros. apply Hl. by right.
  - rewrite H2. auto.
Qed.

(** The handler has run, or the request was lost. *)
Lemma traffic_answer c c' l1 call l2 r :
  requests c = l1 ++ call :: l2 -> requests c' = l1 ++ l2 ->
  responses c' = (call, r) :: responses c -> elections c' = elections c ->
  (granted r = true -> forall a, c_req call = ReqVote a ->
     (c_dst call, rv_Term a, rv_CandidateId a) ∈ held_votes (nodes c')) ->
  traffic_sub c c'.
Proof.
  intros H1 H2 H3 H4 Hg. split; rewrite ?H4; auto.
  - apply old_calls. rewrite H1, H2, H3. simpl. intros x.
    rewrite !elem_of_app, !elem_of_cons. tauto.
  - unfold keys. rewrite H1, H2, H3, !omap_app. simpl.
    destruct (vote_key call) as [k|]; [|done]. apply Permutation_submseteq. solve_Permutation.
  - rewrite H3. intros x rx [[= -> ->]|?]%elem_of_cons ?; auto.
Qed.

(** A response is consumed, or its content is lost. *)
Lemma traffic_consume c c' l1 call r l2 :
  responses c = l1 ++ (call, r) :: l2 -> responses c' = l1 ++ l2 ->
  requests c' = requests c -> elections c' = elections c -> traffic_sub c c'.
Proof.
  intros H1 H2 H3 H4. split; rewrite ?H4; auto.
  - apply old_calls. rewrite H1, H2, H3. intros x. rewrite !fmap_app, fmap_cons, !elem_of_app, elem_of_cons. tauto.
  - unfold keys. rewrite H1, H2, H3, !omap_app. simpl.
    destruct (vote_key call) as [k|]; [|done].
    do 2 apply submseteq_skips_l. by apply submseteq_cons.
  - rewrite H1, H2. intros x rx. rewrite !elem_of_app, elem_of_cons. tauto.
Qed.

Lemma traffic_lost c c' l1 call r l2 :
  responses c = l1 ++ (call, r) :: l2 -> responses c' = l1 ++ (call, None) :: l2 ->
  requests c' = requests c -> elections c' = elections c -> traffic_sub c c'.
Proof.
  intros H1 H2 H3 H4. split; rewrite ?H4; auto.
  - apply old_calls. rewrite H1, H2, H3. intros x. rewrite !fmap_app, !fmap_cons, !elem_of_app, !elem_of_cons. tauto.
  - unfold keys. rewrite H1, H2, H3, !omap_app. done.
  - rewrite H1, H2. intros x rx. rewrite !elem_of_app, !elem_of_cons.
    intros [?|[[= -> ->]|?]]; [tauto|done|tauto].
Qed.

(** A call fails while its request is in transit. *)
Lemma traffic_detach c c' l1 call l2 :
  requests c = l1 ++ call :: l2 -> requests c' = l1 ++ detached call :: l2 ->
  responses c' = (call, None) :: responses c -> elections c' = elections c -> traffic_sub c c'.
Proof.
  intros H1 H2 H3 H4. split; rewrite ?H4; auto.
  - rewrite H1, H2, H3. simpl. intros x Hx. left. rewrite elem_of_app, !elem_of_cons in Hx.
    destruct Hx as [[?|[->|?]]|[->|?]]; [exists x|exists call|exists x|exists call|exists x];
      (split; [rewrite elem_of_app, elem_of_cons; tauto|done]).
  - unfold keys. rewrite H1, H2, H3, !omap_app. simpl.
    destruct (vote_key call) as [k|]; [|done]. apply Permutation_submseteq. solve_Permutation.
  - rewrite H3. intros x rx [[= -> ->]|?]%elem_of_cons ?; [done|auto].
Qed.

(** ** The vote steps *)

(** What a granted vote leaves behind. *)
Lemma RequestVote_granted env a rf rf' r :
  RequestVote env a rf = (rf', Ret r) -> rvr_VoteGranted r = true ->
  currentTerm rf' = rv_Term a /\ voteFor rf' = rv_CandidateId a.
Proof.
  unfold RequestVote, RequestVote_body, GetLastLog, AddCurrentTerm, SetElectionTime, persist.
  m_exec. repeat (case_match; simplify_eq/=; zify_bool); try done; intros [= <- <-]; simpl;
    intros; try done; try (split; [lia|done]); try (split; lia).
Qed.

Lemma deliver_vote_held c i rf rf' env a r :
  nodes c !! i = Some rf -> RequestVote env a rf = (rf', Ret r) ->
  rvr_VoteGranted r = true -> rv_CandidateId a <> -1 ->
  (i, rv_Term a, rv_CandidateId a) ∈ held_votes (<[i := rf']> (nodes c)).
Proof.
  intros Hi Hr Hg Hne. destruct (RequestVote_granted _ _ _ _ _ Hr Hg) as [? Hv].
  apply elem_of_held. exists rf'. rewrite list_lookup_insert_eq by (by eapply lookup_lt_Some).
  split_and!; congruence.
Qed.

Lemma onVoteReply_tally env reply t rf rf' t' :
  onVoteReply env reply t rf = (rf', Ret t') ->
  voteCount t' = voteCount t + match reply with
                               | Some v => if rvr_VoteGranted v then 1 else 0
                               | None => 0
                               end.
Proof.
  unfold onVoteReply. destruct reply as [v|].
  - m_exec. repeat (case_match; simplify_eq/=); try done; intros [= <- <-]; simpl; lia.
  - intros [= <- <-]. simpl. lia.
Qed.

(** A response takes its key with it. *)
Lemma consumed_key c c' l1 call r l2 k :
  NoDup (keys c) -> responses c = l1 ++ (call, r) :: l2 -> responses c' = l1 ++ l2 ->
  requests c' = requests c -> vote_key call = Some k -> k ∉ keys c'.
Proof.
  unfold keys. intros Hn H1 H2 H3 Hk. rewrite H2, H3. rewrite H1 in Hn.
  rewrite omap_app in *. simpl in Hn. rewrite Hk in Hn.
  rewrite app_assoc, <- Permutation_middle, <- app_assoc in Hn.
  by apply NoDup_cons in Hn as [? _].
Qed.

(** One more answer counted. *)
Lemma vote_reply_election n c h c' l1 call r l2 a e env t rf rf' inc :
  let reply := match r with Some (RepVote v) => Some v | _ => None end in
  let granters := match reply with
                  | Some v => if rvr_VoteGranted v then c_dst call :: el_granters e
                              else el_granters e
                  | None => el_granters e
                  end in
  Inv n c h -> e ∈ elections c -> responses c = l1 ++ (call, r) :: l2 ->
  responses c' = l1 ++ l2 -> requests c' = requests c ->
  c_req call = ReqVote a -> c_inc call = Some inc -> el_src e = c_src call -> el_args e = a ->
  onVoteReply env reply (el_tally e) rf = (rf', Ret t) ->
  election_ok c' h (mkElection (el_src e) a t granters).
Proof.
  intros reply granters HI He Hr Hr' Hq Ha Hinc Hsrc <- Ht.
  assert (Hin : (call, r) ∈ responses c) by (rewrite Hr, elem_of_app, elem_of_cons; tauto).
  assert (Hsub : forall k, k ∈ keys c' -> k ∈ keys c).
  { intros k. unfold keys. rewrite Hr', Hq, Hr, !omap_app, !elem_of_app. simpl.
    case_match; rewrite ?elem_of_cons; tauto. }
  pose proof (onVoteReply_tally _ _ _ _ _ _ Ht) as Hcount.
  destruct (inv_calls _ _ _ HI call) with (a := el_args e) as (Hcid & Hdst & _); [|done|].
  { right. apply list_elem_of_fmap. by exists (call, r). }
  destruct (inv_elections _ _ _ HI e He) as [Hid Hself Hcnt Hnd Hns Hvs Honce].
  assert (Hkey : vote_key call = Some (el_src e, rv_Term (el_args e), c_dst call))
    by (unfold vote_key; by rewrite Hinc, Ha, Hsrc).
  assert (Hgone := consumed_key _ _ _ _ _ _ _ (inv_keys _ _ _ HI) Hr Hr' Hq Hkey).
  assert (Hkin : (el_src e, rv_Term (el_args e), c_dst call) ∈ keys c).
  { unfold keys. rewrite elem_of_app. right. rewrite list_elem_of_omap. by exists (call, r). }
  destruct (decide (granted r = true)) as [Hg|Hg].
  - assert (Hgr : granters = c_dst call :: el_granters e).
    { unfold granters, reply. destruct r as [[v| |]|]; simpl in Hg; try done. by rewrite Hg. }
    assert (Hcn : voteCount t = voteCount (el_tally e) + 1).
    { rewrite Hcount. unfold reply. destruct r as [[v| |]|]; simpl in Hg; try done. by rewrite Hg. }
    assert (Hnew : c_dst call ∉ el_granters e) by (intros Hx; by apply (Honce _ Hx)).
    rewrite Hgr. split; simpl; try done; [lia|by constructor| | |].
    + intros [?|?]%elem_of_cons; [congruence|done].
    + intros g [->|?]%elem_of_cons; [|auto].
      rewrite <- Hid. by eapply (inv_grants _ _ _ HI).
    + intros g [->|Hg']%elem_of_cons; [done|]. intros Hk. by apply (Honce _ Hg'), Hsub.
  - assert (Hgr : granters = el_granters e /\ voteCount t = voteCount (el_tally e)).
    { rewrite Hcount. unfold granters, reply. destruct r as [[v| |]|]; simpl in Hg |- *;
        rewrite ?(not_true_is_false _ Hg); split; done || lia. }
    destruct Hgr as [-> Hcn]. split; simpl; try done; [lia|]. intros g Hg' Hk. by apply (Honce _ Hg'), Hsub.
Qed.

Lemma vote_reply_inv n c h c' l1 call r l2 a e1 e e2 env t rf rf' inc :
  let reply := match r with Some (RepVote v) => Some v | _ => None end in
  let granters := match reply with
                  | Some v => if rvr_VoteGranted v then c_dst call :: el_granters e
                              else el_granters e
                  | None => el_granters e
                  end in
  Inv n c h -> responses c = l1 ++ (call, r) :: l2 -> c_req call = ReqVote a -> c_inc call = Some inc ->
  nodes c !! c_src call = Some rf -> elections c = e1 ++ e :: e2 ->
  el_src e = c_src call -> el_args e = a ->
  onVoteReply env reply (el_tally e) rf = (rf', Ret t) ->
  c' = set_elections (e1 ++ mkElection (el_src e) a t granters :: e2)
         (set_responses (l1 ++ l2) (set_node (c_src call) rf' c)) ->
  Inv n c' (held_votes (nodes c') ++ h).
Proof.
  intros reply granters HI Hr Ha Hinc Hi He Hs Hargs Ht ->.
  set (c0 := set_responses (l1 ++ l2) (set_node (c_src call) rf' c)).
  assert (HI0 : Inv n c0 (held_votes (nodes c0) ++ h)).
  { eapply (quiet_op n c h c0 _ rf rf' env (OpVoteReply reply (el_tally e))); try done.
    - by eapply ignore_ret.
    - by eapply (traffic_consume c c0 l1 call r l2). }
  destruct HI0 as [Hn Hv Hc Hk Hg Hes Hl]. split; try done. simpl in *.
  intros x. rewrite elem_of_app, elem_of_cons. intros Hx.
  assert (Hx' : x ∈ elections c0 \/ x = mkElection (el_src e) a t granters)
    by (simpl; rewrite He, elem_of_app, elem_of_cons; tauto).
  destruct Hx' as [Hx'| ->]; [destruct (Hes x Hx'); by split|].
  assert (Hin : e ∈ elections c) by (rewrite He, elem_of_app, elem_of_cons; tauto).
  destruct (vote_reply_election n c h c0 l1 call r l2 a e env t rf rf' inc HI Hin) as []; try done.
  split; try done; intros; rewrite elem_of_app; auto.
Qed.

(** A candidate that counted enough votes. *)
Lemma decide_inv n c h e1 e e2 rf rf' :
  let c' := set_elections (e1 ++ e2) (set_node (el_src e) rf' c) in
  Inv n c h -> elections c = e1 ++ e :: e2 -> nodes c !! el_src e = Some rf ->
  ticker_decide (el_args e) (el_tally e) rf = (rf', Ret tt) ->
  Inv n c' (held_votes (nodes c') ++ h).
Proof.
  intros c' HI He Hi Hd. destruct (inv_nodes _ _ _ HI) as [_ Hok].
  destruct (Hok _ _ Hi) as (_ & Hpe & Hp).
  destruct (exec_ret (fun _ => mkTick 0 0) (OpDecide (el_args e) (el_tally e)) rf rf' Hd Hp) as [Hp' _].
  pose proof (exec_fwd (fun _ => mkTick 0 0) (OpDecide (el_args e) (el_tally e)) rf) as Hf.
  simpl in Hf. rewrite Hd in Hf.
  apply (move_inv n c h c' (el_src e) rf rf' HI). apply traffic_move; try done.
  { apply traffic_same; try done. simpl. rewrite He. intros x. rewrite !elem_of_app, elem_of_cons. tauto. }
  intros Hs. pose proof (decide_vote_le (el_args e) (el_tally e) rf) as Hle. rewrite Hd in Hle.
  assert (Hsub : h ⊆ held_votes (nodes c') ++ h) by (intros x Hx; apply elem_of_app; by right).
  destruct Hle as [Hsame|(_ & Hterm & Hmaj & Hcore)]; simpl in *.
  { subst rf'. eapply quorum_for_mono; [done|]. by eapply (inv_leaders _ _ _ HI). }
  destruct (inv_elections _ _ _ HI e) as [Hid Hself Hcnt Hnd Hns Hvs _].
  { rewrite He, elem_of_app, elem_of_cons. tauto. }
  assert (currentTerm rf' = rv_Term (el_args e)) as -> by (unfold core in Hcore; simpl in Hcore; congruence).
  apply (quorum_for_mono n h); [done|]. exists (el_src e :: el_granters e).
  split_and!; [by constructor|simpl; rewrite <- Hpe; lia|].
  intros j [->|?]%elem_of_cons; auto.
Qed.

(** A new election: a term nobody used for this candidate before. *)
Lemma ticker_begin_some now env rf rf' args :
  ticker_begin now env rf = (rf', Ret (Some args)) ->
  currentTerm rf' = currentTerm rf + 1 /\ voteFor rf' = me rf
  /\ rv_Term args = currentTerm rf + 1 /\ rv_CandidateId args = me rf.
Proof.
  unfold ticker_begin, SetElectionTime, persist. m_exec.
  repeat (case_match; simplify_eq/=); try done; intros [= <- <-]; simpl; split_and!; done.
Qed.

Lemma elem_of_vote_calls n self inc a (call : Call (D:=D)) :
  call ∈ vote_calls n self inc a ->
  c_src call = self /\ c_req call = ReqVote a /\ c_dst call <> self.
Proof.
  unfold vote_calls, others. rewrite list_elem_of_fmap. intros (j & -> & Hj).
  apply list_elem_of_filter in Hj as [? _]. done.
Qed.

Lemma vote_calls_keys n self inc a :
  omap vote_key (vote_calls (D:=D) n self inc a) = (fun j => (self, rv_Term a, j)) <$> others n self.
Proof.
  unfold vote_calls. induction (others n self) as [|j l IH]; [done|].
  rewrite !fmap_cons, <- IH. done.
Qed.

Lemma key_term n c h src t dst rf :
  Inv n c h -> (src, t, dst) ∈ keys c -> nodes c !! src = Some rf -> t <= currentTerm rf.
Proof.
  intros HI Hk Hs.
  assert (Hc : exists call, (call ∈ requests c \/ call ∈ (responses c).*1)
                            /\ vote_key call = Some (src, t, dst)).
  { unfold keys in Hk. apply elem_of_app in Hk as [Hk|Hk]; apply list_elem_of_omap in Hk as (x & Hx & Hkx).
    - eauto.
    - exists (fst x). split; [|done]. right. apply list_elem_of_fmap. eauto. }
  destruct Hc as (call & Hin & Hkey). unfold vote_key in Hkey. destruct (c_inc call), (c_req call) eqn:Hr; simplify_eq.
  destruct (inv_calls _ _ _ HI call Hin _ Hr) as (_ & _ & rf0 & ? & ?). by simplify_eq.
Qed.

Lemma tick_elections n c h i inc rf rf' now env args :
  let c' := set_elections (mkElection i args tally0 [] :: elections c)
              (add_requests (vote_calls (length (nodes c)) i inc args) (set_node i rf' c)) in
  Inv n c h -> nodes c !! i = Some rf -> ticker_begin now env rf = (rf', Ret (Some args)) ->
  forall e, e ∈ elections c' -> election_ok c' (held_votes (nodes c') ++ h) e.
Proof.
  intros c' HI Hi Ht. destruct (inv_nodes _ _ _ HI) as [_ Hok].
  destruct (Hok _ _ Hi) as (Hme & _ & _).
  destruct (ticker_begin_some _ _ _ _ _ Ht) as (Hterm & Hvote & Hat & Hac).
  intros e. simpl. intros [->|He]%elem_of_cons.
  - split; simpl; try done; [congruence| |constructor|set_solver|set_solver|set_solver].
    apply elem_of_app. left. apply elem_of_held. exists rf'.
    rewrite list_lookup_insert_eq by (by eapply lookup_lt_Some). split_and!; try done; lia.
  - destruct (inv_elections _ _ _ HI e He) as [Hid Hself Hcnt Hnd Hns Hvs Honce].
    split; try done; [apply elem_of_app; by right|intros; apply elem_of_app; right; auto|].
    intros g Hg. unfold keys. simpl. rewrite omap_app, vote_calls_keys, <- app_assoc, elem_of_app.
    intros [Hk|Hk]; [|by apply (Honce g Hg)].
    apply list_elem_of_fmap in Hk as (j & [= Hsrc Htm ->] & _).
    destruct (vo_past _ _ (inv_votes _ _ _ HI) _ _ _ Hself) as (rf0 & Hi0 & Hcase).
    rewrite Hsrc in Hi0. simplify_eq. lia.
Qed.

Lemma tick_inv n c h i inc rf rf' now env args :
  let c' := set_elections (mkElection i args tally0 [] :: elections c)
              (add_requests (vote_calls (length (nodes c)) i inc args) (set_node i rf' c)) in
  Inv n c h -> nodes c !! i = Some rf -> ticker_begin now env rf = (rf', Ret (Some args)) ->
  Inv n c' (held_votes (nodes c') ++ h).
Proof.
  intros c' HI Hi Ht. destruct (inv_nodes _ _ _ HI) as [_ Hok].
  destruct (Hok _ _ Hi) as (Hme & Hpe & Hp).
  assert (Hex : exec env (OpTicker now) rf = (rf', Ret tt)) by (by eapply ignore_ret).
  destruct (exec_ret _ _ _ _ Hex Hp) as [Hp' Hle]. specialize (Hle eq_refl).
  pose proof (tick_elections n c h i inc rf rf' now env args HI Hi Ht) as Hel.
  destruct (ticker_begin_some _ _ _ _ _ Ht) as (Hterm & _ & Hat & Hac).
  apply (move_inv n c h c' i rf rf' HI). split; try done.
  - by apply vote_le_fwd.
  - intros Hs. apply (vl_leader _ _ Hle) in Hs as [_ ?]. lia.
  - intros call. simpl. rewrite elem_of_app. intros [[Hnew|?]|?]; [|tauto|tauto]. right.
    apply elem_of_vote_calls in Hnew as (Hsrc & Hreq & ?). intros a Ha.
    rewrite Hsrc. rewrite Hreq in Ha. injection Ha as <-.
    split_and!; [congruence|done|]. exists rf'. simpl.
    rewrite list_lookup_insert_eq by (by eapply lookup_lt_Some). split; [done|lia].
  - unfold keys. simpl. rewrite omap_app, vote_calls_keys, <- app_assoc. apply NoDup_app.
    split_and!; [|intros k Hk Hold|apply HI].
    + apply NoDup_fmap_2; [intros ? ? [=]; done|]. apply NoDup_filter, NoDup_seq.
    + apply list_elem_of_fmap in Hk as (j & -> & _).
      pose proof (key_term n c h _ _ _ rf HI Hold Hi). lia.
  - intros call r Hin _. by left.
Qed.

Lemma crash_inv n c h i rf rf0 rf' now :
  let c' := restart i rf' c in
  Inv n c h -> nodes c !! i = Some rf -> stops_at rf rf0 ->
  Make (peers rf) (me rf) now (persister rf0) = (rf', Ret tt) ->
  Inv n c' (held_votes (nodes c') ++ h).
Proof.
  intros c' HI Hi Hst Hmk. destruct (inv_nodes _ _ _ HI) as [_ Hok].
  destruct (Hok _ _ Hi) as (_ & _ & Hp).
  destruct (restart_fwd _ _ _ _ Hp Hst Hmk) as (Hf & Hp' & Hs).
  apply (move_inv n c h c' i rf rf' HI). apply traffic_move; try done; [|congruence].
  apply traffic_same; try done. simpl. intros e He. by apply list_elem_of_filter in He as [_ ?].
Qed.

(** ** Every step *)

Lemma log_calls_quiet i inc (xs : list (SendLogArgs D * Z)) call a0 :
  call ∈ log_calls i inc xs -> c_req call <> ReqVote a0.
Proof.
  unfold log_calls. rewrite list_elem_of_omap. intros ([j [a recode]] & _ & Hx).
  repeat case_match; by simplify_eq.
Qed.

Lemma deliver_vote_inv n c h l1 call l2 a rf rf' env r :
  let c' := set_responses ((call, Some (RepVote r)) :: responses c)
              (set_requests (l1 ++ l2) (set_node (c_dst call) rf' c)) in
  Inv n c h -> requests c = l1 ++ call :: l2 -> c_req call = ReqVote a ->
  nodes c !! c_dst call = Some rf -> RequestVote env a rf = (rf', Ret r) ->
  Inv n c' (held_votes (nodes c') ++ h).
Proof.
  intros c' HI Hl Ha Hi Hr.
  assert (Hex : exec env (OpRequestVote a) rf = (rf', Ret tt)) by (by eapply ignore_ret).
  apply (quiet_op n c h c' (c_dst call) rf rf' env (OpRequestVote a)); try done.
  apply (traffic_answer c c' l1 call l2 (Some (RepVote r))); try done.
  intros Hg b Hb. rewrite Ha in Hb. injection Hb as <-.
  apply (deliver_vote_held c _ rf rf' env a r); try done.
  destruct (inv_calls _ _ _ HI call) with (a := a) as (-> & _); [|done|lia].
  left. rewrite Hl, elem_of_app, elem_of_cons. tauto.
Qed.



Local Ltac by_op Hi Hrun env op :=
  eapply (quiet_op _ _ _ _ _ _ _ env op);
    [eassumption|exact Hi|first [exact Hrun|eapply ignore_ret; exact Hrun]|done|done|].
Local Ltac same := by apply traffic_same.

Lemma step_inv n c h c' : Inv n c h -> step c c' -> Inv n c' (held_votes (nodes c') ++ h).
Proof.
  intros HI Hst. destruct Hst as
    [i inc rf rf' now env o Hi _ Hr | e e1 e2 rf rf' He Hi _ Hr | i rf rf' cmd r Hi Hr
    | i inc rf rf' o Hi _ Hr | i inc j t1 t2 rf rf' o _ Hi _ Hr
    | l1 call l2 a rf rf' env r Hl Ha Hi Hr | l1 call l2 a recode rf rf' env r Hl Ha Hi Hr
    | l1 call l2 a ctx rf rf' inc env r spawned Hl Ha Hi _ Hr | l1 call l2 Hl | l1 call l2 Hl _ | l1 call r l2 Hl
    | l1 call r l2 a e1 e e2 rf rf' env t inc Hl Ha Hinc _ Hi He Hsrc Harg reply Hr
    | l1 call r l2 a rf rf' env t t' inc Hl Ha _ _ Hi _ Hr | l1 call r l2 a recode rf rf' env inc Hl Ha _ _ Hi Hr
    | l1 call r l2 a ctx rf rf' env inc Hl Ha _ _ Hi Hr | l1 call r l2 Hl _
    | t1 i inc lii t2 rf rf' _ _ Hi Hr | i rf rf' index snap Hi _ Hr | i inc rf rf' batch Hi _ _ _ Hr
    | t1 i inc batch t2 rf rf' _ _ Hi _ Hr | i rf rf0 rf' now Hi Hst Hr ].
  - destruct o as [args|]; [by eapply tick_inv|]. by_op Hi Hr env (OpTicker (D:=D) now). same.
  - by eapply decide_inv.
  - by_op Hi Hr any_env (OpStart cmd). same.
  - destruct o as [xs|]; by_op Hi Hr any_env (OpSendLogCore (D:=D)); [|same].
    eapply traffic_send; try done. apply log_calls_quiet.
  - destruct o as [[a ctx]|]; by_op Hi Hr any_env (OpSendSnapShot (D:=D) (Z.of_nat j)); [|same].
    eapply (traffic_send _ _ [_]); try done. by intros call a0 ->%list_elem_of_singleton.
  - by eapply deliver_vote_inv.
  - by_op Hi Hr env (OpRequestSendLog a). eapply traffic_answer; try done.
  - by_op Hi Hr env (OpRequestInstallSnapShot (D:=D) a). eapply traffic_answer; try done.
  - eapply idle_inv; try done. by eapply (traffic_answer _ _ _ _ _ None).
  - eapply idle_inv; try done. by eapply traffic_detach.
  - eapply idle_inv; try done. by eapply traffic_lost.
  - by eapply vote_reply_inv.
  - by_op Hi Hr env (OpVoteReply (D:=D) (match r with Some (RepVote v) => Some v | _ => None end) t).
    by eapply traffic_consume.
  - by_op Hi Hr env (OpSendLogReply (Z.of_nat (c_dst call)) a recode r). by eapply traffic_consume.
  - by_op Hi Hr env (OpSnapShotReply (D:=D) (Z.of_nat (c_dst call)) ctx r). by eapply traffic_consume.
  - eapply idle_inv; try done. by eapply traffic_consume.
  - by_op Hi Hr any_env (OpInstallSnapshotDone (D:=D) lii). same.
  - by_op Hi Hr any_env (OpSnapshot (D:=D) index snap). same.
  - by_op Hi Hr any_env (OpApplyCollect (D:=D)). same.
  - by_op Hi Hr any_env (OpApplyFinish batch). same.
  - by eapply crash_inv.
Qed.

(** ** Runs *)

(** Peers made from blank storage. *)
Lemma Make_blank n i now :
  (i < n)%nat ->
  exists rf, Make n (Z.of_nat i) now MakePersister = (rf, Ret tt)
    /\ voteFor rf = -1 /\ state rf = Follower /\ peers rf = n /\ me rf = Z.of_nat i
    /\ persisted rf.
Proof.
  intros Hi. assert (Hr : exists rf, Make n (Z.of_nat i) now MakePersister = (rf, Ret tt)).
  { unfold Make. m_exec. set (rf := mkRaft _ _ _ _ _ _ _ _ _ _ _ _ _ _ _ _).
    assert (Hl : log_ok (log rf)).
    { split; [|by eexists; split; [done|left]|done]. intros [|k] e He; by simplify_eq/=. }
    assert (Hwp := wp_resetRaftIndex rf Hl). simpl in Hwp. rewrite !length_replicate in Hwp.
    destruct (wp_run _ _ _ (Hwp eq_refl eq_refl ltac:(lia))) as (rf' & [] & Hrun & _). eauto. }
  destruct Hr as (rf & Hr). exists rf. split; [done|].
  apply Make_ret in Hr as (Hrec & Hpe & Hme & Hps & Hs & _).
  split_and!; try done; [|unfold persisted; by rewrite Hps].
  unfold recovered in Hrec. simpl in Hrec. congruence.
Qed.

Lemma init_lookup n now j rf :
  nodes (init (D:=D) n now) !! j = Some rf ->
  (j < n)%nat /\ voteFor rf = -1 /\ state rf = Follower /\ peers rf = n
  /\ me rf = Z.of_nat j /\ persisted rf.
Proof.
  simpl. unfold init_nodes. rewrite list_lookup_fmap. intros Hj.
  destruct (seq 0 n !! j) as [i|] eqn:Hs; simplify_eq/=. apply lookup_seq in Hs as [-> Hlt].
  destruct (Make_blank n j (now j) Hlt) as (rf' & Hm & ?). simpl in *. rewrite Hm. by split.
Qed.

Lemma init_inv n now :
  Inv n (init (D:=D) n now) (held_votes (nodes (init (D:=D) n now))).
Proof.
  assert (Hnone : held_votes (nodes (init (D:=D) n now)) = []).
  { destruct (held_votes _) as [|[[j t] x] l] eqn:Hh; [done|].
    assert (Hin : (j, t, x) ∈ held_votes (nodes (init (D:=D) n now))) by (rewrite Hh; left).
    apply elem_of_held in Hin as (rf & Hj & Hne & _). by apply init_lookup in Hj as (_ & ? & _). }
  rewrite Hnone. split; try (by intros; set_solver).
  - split; [simpl; unfold init_nodes; by rewrite length_fmap, length_seq|].
    intros j rf Hj. apply init_lookup in Hj. tauto.
  - split; try set_solver. intros j rf Hj Hne. by apply init_lookup in Hj as (_ & ? & _).
  - constructor.
  - intros i rf Hi Hs. apply init_lookup in Hi as (_ & _ & Hf & _). congruence.
Qed.

Lemma run_inv n now c h : run n now c h -> Inv n c h.
Proof. induction 1; [apply init_inv|by eapply step_inv]. Qed.

(** Later states of an execution. *)
Lemma run_later n now c1 h1 c2 :
  run n now c1 h1 -> rtc step c1 c2 -> exists h2, run n now c2 h2 /\ h1 ⊆ h2.
Proof.
  intros H1 Hs. revert h1 H1. induction Hs as [c|c c' c2 Hst Hs IH]; intros h1 H1; [eauto|].
  destruct (IH _ (run_step _ _ _ _ _ H1 Hst)) as (h2 & ? & Hsub). exists h2. split; [done|].
  intros x Hx. apply Hsub, elem_of_app. by right.
Qed.

Lemma reachable_run n now c : rtc step (init (D:=D) n now) c -> exists h, run n now c h.
Proof. intros Hs. destruct (run_later _ _ _ _ _ (run_init n now) Hs) as (h & ? & _). eauto. Qed.

Lemma vote_fwd_trans rf1 rf2 rf3 : vote_fwd rf1 rf2 -> vote_fwd rf2 rf3 -> vote_fwd rf1 rf3.
Proof.
  intros (p1 & m1 & t1 & v1) (p2 & m2 & t2 & v2). split_and!; [congruence|congruence|lia|].
  intros Heq Hne. rewrite v2; [apply v1; [lia|done]|lia|]. rewrite v1; [done|lia|done].
Qed.

Lemma node_move_fwd rf rf' : persisted rf -> node_move rf rf' -> vote_fwd rf rf'.
Proof.
  intros Hp [(env & op & Hex)|(rf0 & now & Hst & Hmk)].
  - pose proof (exec_fwd env op rf) as Hf. by rewrite Hex in Hf.
  - by destruct (restart_fwd _ _ _ _ Hp Hst Hmk) as [? _].
Qed.

(** A peer of an execution, at a later state. *)
Lemma later_fwd n now c1 h1 c2 i rf1 :
  run n now c1 h1 -> rtc step c1 c2 -> nodes c1 !! i = Some rf1 ->
  exists rf2, nodes c2 !! i = Some rf2 /\ vote_fwd rf1 rf2.
Proof.
  intros R Hs. revert h1 rf1 R. induction Hs as [c|c c' c2 Hst Hs IH]; intros h1 rf1 R Hi.
  { exists rf1. split; [done|]. by split_and!. }
  assert (Hone : exists rf2, nodes c' !! i = Some rf2 /\ vote_fwd rf1 rf2).
  { destruct (step_nodes _ _ Hst) as [->|(k & rf & rf' & Hk & -> & Hm)];
      [exists rf1; split; [done|by split_and!]|].
    destruct (decide (k = i)) as [->|Hne].
    - rewrite list_lookup_insert_eq by (by eapply lookup_lt_Some). exists rf'. split; [done|].
      assert (rf = rf1) as -> by congruence. apply node_move_fwd; [|done].
      by apply (proj2 (inv_nodes _ _ _ (run_inv _ _ _ _ R)) i rf1).
    - rewrite list_lookup_insert_ne by done. exists rf1. split; [done|by split_and!]. }
  destruct Hone as (rf' & Hi' & Hf). destruct (IH _ _ (run_step _ _ _ _ _ R Hst) Hi') as (rf2 & ? & ?).
  exists rf2. split; [done|]. by eapply vote_fwd_trans.
Qed.

Lemma quorum_unique n c h i j t :
  Inv n c h -> quorum_for n h i t -> quorum_for n h j t -> i = j.
Proof.
  intros HI (Q1 & N1 & L1 & V1) (Q2 & N2 & L2 & V2).
  assert (Hb : forall v x, (v, t, x) ∈ h -> (v < n)%nat).
  { intros v x Hv. destruct (vo_past _ _ (inv_votes _ _ _ HI) _ _ _ Hv) as (rf & Hl & _).
    apply lookup_lt_Some in Hl. destruct (inv_nodes _ _ _ HI) as [<- _]. done. }
  destruct (quorums_meet n Q1 Q2) as (v & Hv1 & Hv2); eauto.
  apply Nat2Z.inj. eapply (vo_unique _ _ (inv_votes _ _ _ HI)); eauto.
Qed.

End Election.
