(* ===== verification/ElectionProps.v ===== *)
(** The theorems about elections and votes in a cluster. *)
From Stdlib Require Import ZArith Lia.
From stdpp Require Import base list numbers relations.
From S2P Require Import Prelude RaftTypes RaftNode RaftVote RaftWf RaftLeader RaftCluster ElectionSafety RaftDemo.

Section Props.
Context {D : Type} `{LabGobOk D}.

Lemma leaders_of_term (n : nat) (now : nat -> Z) (c1 c2 : Cluster (D:=D)) (i j : nat) (rf1 rf2 : Raft D) :
  rtc step (init n now) c1 -> rtc step c1 c2 ->
  nodes c1 !! i = Some rf1 -> state rf1 = Leader -> nodes c2 !! j = Some rf2 -> state rf2 = Leader ->
  currentTerm rf1 = currentTerm rf2 -> i = j.
Proof.
  intros H1 H2 Hi Hsi Hj Hsj Ht. destruct (reachable_run n now c1 H1) as (h1 & R1).
  destruct (run_later _ _ _ _ _ R1 H2) as (h2 & R2 & Hsub).
  apply run_inv in R1. apply run_inv in R2.
  apply (quorum_unique n c2 h2 i j (currentTerm rf1) R2).
  - eapply quorum_for_mono; [exact Hsub|]. by eapply (inv_leaders _ _ _ R1).
  - rewrite Ht. by eapply (inv_leaders _ _ _ R2).
Qed.

(** C1.  Election safety: in every execution of a cluster (with lost, delayed
    and reordered messages, crashes at any point and restarts from storage),
    if one peer is leader in some state and another, or the same one, is leader
    in that or any later state in the same term, they are the same peer. *)
Theorem election_safety (n : nat) (now : nat -> Z) (c1 c2 : Cluster (D:=D))
    (i j : nat) (rf1 rf2 : Raft D) :
  rtc step (init n now) c1 -> rtc step c1 c2 ->
  nodes c1 !! i = Some rf1 -> state rf1 = Leader ->
  nodes c2 !! j = Some rf2 -> state rf2 = Leader ->
  currentTerm rf1 = currentTerm rf2 -> i = j.
Proof. apply leaders_of_term. Qed.

(** One vote per term: over a whole execution, restarts included, a peer
    never holds votes for two candidates in the same term. *)
Theorem single_vote_per_term (n : nat) (now : nat -> Z) (c : Cluster (D:=D)) (h : History)
    (j : nat) (t x y : Z) :
  run n now c h -> (j, t, x) ∈ h -> (j, t, y) ∈ h -> x = y.
Proof. intros Hr. apply (vo_unique _ _ (inv_votes _ _ _ (run_inv _ _ _ _ Hr))). Qed.

(** C7.  Durability: in every reachable state what a peer holds in memory
    (term, vote, log, snapshot) is exactly what Make would read back from its
    storage, so that a crash between two critical sections loses none of it. *)
Theorem reachable_persisted (n : nat) (now : nat -> Z) (c : Cluster (D:=D)) (i : nat) (rf : Raft D) :
  rtc step (init n now) c -> nodes c !! i = Some rf ->
  recovered (persister rf) = (currentTerm rf, voteFor rf, log rf, snapshot rf).
Proof.
  intros Hr Hi. destruct (reachable_run n now c Hr) as (h & R).
  by apply (proj2 (inv_nodes _ _ _ (run_inv _ _ _ _ R)) i rf).
Qed.

(** Terms never go backwards: along an execution the term of each peer
    only grows, restarts included, and while it stays the same so does a vote
    that was cast. *)
Theorem term_monotone (n : nat) (now : nat -> Z) (c1 c2 : Cluster (D:=D)) (i : nat) (rf1 : Raft D) :
  rtc step (init n now) c1 -> rtc step c1 c2 -> nodes c1 !! i = Some rf1 ->
  exists rf2, nodes c2 !! i = Some rf2 /\ currentTerm rf1 <= currentTerm rf2
    /\ (currentTerm rf2 = currentTerm rf1 -> voteFor rf1 <> -1 -> voteFor rf2 = voteFor rf1).
Proof.
  intros H1 H2 Hi. destruct (reachable_run n now c1 H1) as (h & R).
  destruct (later_fwd _ _ _ _ _ _ _ R H2 Hi) as (rf2 & ? & _ & _ & ? & ?). eauto.
Qed.

End Props.

(** ** Witnesses: the run of [Demo] *)

Module Witness.
Import ListGob.

Lemma election_safety_witness :
  rtc step Demo.c0 Demo.c4 /\ rtc step Demo.c4 Demo.c8
  /\ (state <$> nodes Demo.c4 !! 0%nat) = Some Leader
  /\ (forall j rf, nodes Demo.c8 !! j = Some rf -> state rf = Leader ->
        currentTerm rf = 1 -> 0%nat = j).
Proof.
  split; [apply Demo.run_04|]. split; [apply Demo.run_48|]. split; [reflexivity|].
  intros j rf Hj Hs Ht.
  refine (election_safety 3 Demo.boot Demo.c4 Demo.c8 0 j _ rf Demo.run_04 Demo.run_48
            eq_refl eq_refl Hj Hs _).
  rewrite Ht. reflexivity.
Defined.

(** peer 1 voted for peer 0 in term 1 *)
Lemma single_vote_per_term_witness :
  exists h, run 3 Demo.boot Demo.c2 h /\ (1%nat, 1, 0) ∈ h /\
    (forall y, (1%nat, 1, y) ∈ h -> 0 = y).
Proof.
  assert (Hr := run_step 3 Demo.boot _ _ _
    (run_step 3 Demo.boot _ _ _ (run_init 3 Demo.boot) Demo.step_01) Demo.step_12).
  assert (Hin : (1%nat, 1, 0) ∈ held_votes (nodes Demo.c2)).
  { apply elem_of_held. eexists. split; [reflexivity|]. by split_and!. }
  eexists. split; [exact Hr|]. split; [apply elem_of_app; by left|].
  intros y Hy. refine (single_vote_per_term 3 Demo.boot _ _ 1 1 0 y Hr _ Hy).
  apply elem_of_app. by left.
Defined.

Lemma reachable_persisted_witness :
  exists rf, nodes Demo.c4 !! 0%nat = Some rf /\ currentTerm rf = 1 /\
    recovered (persister rf) = (1, 0, [mkLogEntry (-1) 0 None], []).
Proof.
  eexists. split; [reflexivity|]. split; [reflexivity|].
  exact (reachable_persisted 3 Demo.boot Demo.c4 0 _ Demo.run_04 eq_refl).
Defined.

Lemma term_monotone_witness :
  exists rf2, nodes Demo.c8 !! 0%nat = Some rf2 /\ 1 <= currentTerm rf2.
Proof.
  destruct (term_monotone 3 Demo.boot Demo.c4 Demo.c8 0 _ Demo.run_04 Demo.run_48 eq_refl)
    as (rf2 & H1 & H2 & _).
  exists rf2. split; [exact H1|exact H2].
Defined.

End Witness.
