(* ===== verification/LogTree.v ===== *)
(** The tree of logs of a cluster.

    A log is the list of all entries with indices 1, 2, ... that a peer ever kept,
    compacted ones included.  All logs that leaders build form a tree under the prefix
    order; a node of the tree is a log and stands for its last entry.  [elected] lists
    the leaders with the log each was elected with, [acks] the peers that stored a log
    of the current leader's term.  What is proved here about trees, elections and
    acknowledgements does not mention peers or messages. *)
From Stdlib Require Import ZArith Lia.
From stdpp Require Import base list numbers.
From S2P Require Import Prelude RaftTypes RaftWf ElectionSafety.

#[local] Open Scope Z_scope.

Section Tree.
Context {D : Type}.
Abbreviation Log := (list (LogEntry D)).
Implicit Types (l m b s k : Log) (T : Z).

(** ** Logs *)

(** The term of the entry at index [i]; -1 for the index before the first one. *)
Definition term_at l (i : nat) : Z :=
  match i with O => -1 | S j => default (-1) (le_Term <$> l !! j) end.

Definition tip l : Z := term_at l (length l).

Record entries_ok l : Prop :=
  { eo_index : contig 1 l;
    eo_term : Forall (fun e => 0 <= le_Term e) l;
    eo_data : Forall (fun e => is_Some (le_Data e)) l }.

Lemma tip_snoc l e : tip (l ++ [e]) = le_Term e.
Proof.
  unfold tip. rewrite length_app, Nat.add_1_r. cbn. by rewrite list_lookup_middle.
Qed.

Lemma term_at_take l i j : (i <= j)%nat -> term_at (take j l) i = term_at l i.
Proof. intros Hij. destruct i as [|i]; [done|]. cbn. by rewrite lookup_take_lt by lia. Qed.

Lemma tip_take l i : (i <= length l)%nat -> tip (take i l) = term_at l i.
Proof. intros Hi. unfold tip. rewrite length_take, Nat.min_l by done. by apply term_at_take. Qed.

Lemma prefix_take_eq l m : l `prefix_of` m -> l = take (length l) m.
Proof. intros [w ->]. by rewrite take_app_length. Qed.

Lemma prefix_tip l m : l `prefix_of` m -> tip l = term_at m (length l).
Proof.
  intros Hp. pose proof (prefix_length _ _ Hp). rewrite (prefix_take_eq l m Hp) at 1. by apply tip_take.
Qed.

Lemma prefix_shorter l m k : l `prefix_of` k -> m `prefix_of` k -> (length l <= length m)%nat -> l `prefix_of` m.
Proof.
  intros Hl Hm Hle. destruct (prefix_weak_total l m k Hl Hm) as [?|Hml]; [done|].
  pose proof (prefix_length _ _ Hml). rewrite (prefix_length_eq _ _ Hml) by lia. done.
Qed.

Definition comparable l m : Prop := l `prefix_of` m \/ m `prefix_of` l.

Lemma comparable_shorter l m : comparable l m -> (length l <= length m)%nat -> l `prefix_of` m.
Proof. intros [?|Hm] Hle; [done|]. rewrite (prefix_length_eq _ _ Hm) by lia. done. Qed.

Lemma comparable_prefix l m k : k `prefix_of` l -> comparable l m -> comparable k m.
Proof.
  intros Hk [Hl|Hm]; [left; by etrans|]. apply (prefix_weak_total k m l Hk Hm).
Qed.

(** ** The tree *)

Record tree_ok (tree : list Log) : Prop :=
  { tr_nil : [] ∈ tree;
    tr_entries : forall l, l ∈ tree -> entries_ok l;
    tr_prefix : forall l m, m ∈ tree -> l `prefix_of` m -> l ∈ tree;
    tr_terms : forall l m, m ∈ tree -> l `prefix_of` m -> tip l <= tip m }.

(** The leaders: each log of the tree descends from the log its term's leader was
    elected with, and the logs of one term are a chain. *)
Abbreviation Elected := (list (Z * nat * Log)).

Record leaders_ok (tree : list Log) (elected : Elected) : Prop :=
  { ld_unique : forall T i j b b', (T, i, b) ∈ elected -> (T, j, b') ∈ elected -> i = j /\ b = b';
    ld_base : forall T i b, (T, i, b) ∈ elected -> b ∈ tree /\ tip b < T;
    ld_node : forall l, l ∈ tree -> l <> [] -> exists i b, (tip l, i, b) ∈ elected /\ b `prefix_of` l;
    ld_chain : forall l m, l ∈ tree -> m ∈ tree -> l <> [] -> tip l = tip m -> comparable l m }.

(** ** Acknowledged and committed logs *)

Abbreviation Acks := (list (nat * Log)).

(** Peer [r] stored [l] while it was in the term of [l]. *)
Definition acked (acks : Acks) (r : nat) l : Prop :=
  l <> [] /\ exists m, (r, m) ∈ acks /\ l `prefix_of` m /\ tip l = tip m.

(** A leader of a term after that of [l], up to [T], was elected without [l]. *)
Definition superseded (elected : Elected) l T : Prop :=
  exists T' i b, (T', i, b) ∈ elected /\ tip l < T' <= T /\ ~ l `prefix_of` b.

(** Raft's order on logs. *)
Definition not_newer l b : Prop := tip l < tip b \/ (tip l = tip b /\ (length l <= length b)%nat).

Definition majority_of (n : nat) (Q : list nat) : Prop :=
  NoDup Q /\ (forall j, j ∈ Q -> (j < n)%nat) /\ Z.of_nat n ÷ 2 < Z.of_nat (length Q).

Definition committed (n : nat) (tree : list Log) (acks : Acks) l : Prop :=
  l ∈ tree /\ l <> [] /\ exists Q, majority_of n Q /\ forall r, r ∈ Q -> acked acks r l.

(** The voters of a leader: what they acknowledged in earlier terms is not newer than
    the leader's log, unless a leader in between was elected without it. *)
Definition elected_by (n : nat) (elected : Elected) (acks : Acks) (voted : nat -> Prop) T b : Prop :=
  exists Q, majority_of n Q /\ forall v, v ∈ Q -> voted v /\ forall l, acked acks v l -> tip l < T ->
    not_newer l b \/ superseded elected l (T - 1).

Lemma prefix_not_newer tree l m : tree_ok tree -> m ∈ tree -> l `prefix_of` m -> not_newer l m.
Proof.
  intros Ht Hm Hp. pose proof (tr_terms _ Ht l m Hm Hp). pose proof (prefix_length _ _ Hp).
  unfold not_newer. destruct (Z.eq_dec (tip l) (tip m)); [right; split; [done|lia]|left; lia].
Qed.

Lemma entries_tip l : entries_ok l -> l <> [] -> 0 <= tip l.
Proof.
  intros [_ Ht] Hne. destruct (exists_last Hne) as (l' & e & ->). rewrite tip_snoc.
  rewrite Forall_app, Forall_singleton in Ht. tauto.
Qed.

Section Safety.
Context (n : nat) (tree : list Log) (elected : Elected) (acks : Acks).
Context (Htree : tree_ok tree) (Hlead : leaders_ok tree elected).
Context (voted : Z -> nat -> nat -> Prop).
Context (Hby : forall T i b, (T, i, b) ∈ elected -> elected_by n elected acks (voted T i) T b).

Lemma quorum_meet Q1 Q2 : majority_of n Q1 -> majority_of n Q2 -> exists v, v ∈ Q1 /\ v ∈ Q2.
Proof.
  intros (N1 & B1 & L1) (N2 & B2 & L2). by apply (quorums_meet n Q1 Q2).
Qed.

(** Logs with the same length and last term are the same. *)
Lemma log_matching l m : l ∈ tree -> m ∈ tree -> length l = length m -> tip l = tip m -> l = m.
Proof.
  intros Hl Hm Hlen Ht. destruct l as [|e l]; [by destruct m|].
  destruct (ld_chain _ _ Hlead (e :: l) m Hl Hm) as [Hp|Hp]; [done|done| |].
  - apply prefix_length_eq in Hp; [done|lia].
  - symmetry. apply prefix_length_eq in Hp; [done|lia].
Qed.

(** Membership of a log in another is decided by one term. *)
Lemma prefix_by_term l m :
  l ∈ tree -> m ∈ tree -> (length l <= length m)%nat -> term_at m (length l) = tip l -> l `prefix_of` m.
Proof.
  intros Hl Hm Hle Ht. rewrite (log_matching l (take (length l) m)); [apply prefix_take|done| | |].
  - eapply (tr_prefix _ Htree); [exact Hm|apply prefix_take].
  - rewrite length_take. lia.
  - by rewrite tip_take.
Qed.

Lemma prefix_dec l m : l ∈ tree -> m ∈ tree -> l `prefix_of` m \/ ~ l `prefix_of` m.
Proof.
  intros Hl Hm. destruct (Nat.le_gt_cases (length l) (length m)) as [Hle|Hgt];
    [|right; intros ?%prefix_length; lia].
  destruct (Z.eq_dec (term_at m (length l)) (tip l)) as [Heq|Hne]; [left; by apply prefix_by_term|].
  right. intros Hp. apply Hne. symmetry. by apply prefix_tip.
Qed.

(** Leader completeness: every later leader is elected with every committed log. *)
Lemma leader_completeness l T i b :
  committed n tree acks l -> (T, i, b) ∈ elected -> tip l < T -> l `prefix_of` b.
Proof.
  intros (Hl & Hne & Q1 & HQ1 & Hacks). remember (Z.to_nat (T - tip l)) as d eqn:Hd.
  revert T i b Hd. induction d as [d IH] using lt_wf_ind. intros T i b Hd Hb HT.
  assert (IH' : forall T' i' b', (T', i', b') ∈ elected -> tip l < T' < T -> l `prefix_of` b').
  { intros T' i' b' Hb' Hr. apply (IH (Z.to_nat (T' - tip l)) ltac:(lia) T' i' b'); [done|done|lia]. }
  destruct (ld_base _ _ Hlead T i b Hb) as [Hbt Hbtip].
  destruct (Hby T i b Hb) as (Q2 & HQ2 & Hv). destruct (quorum_meet Q1 Q2 HQ1 HQ2) as (v & Hv1 & Hv2).
  destruct (proj2 (Hv v Hv2) l (Hacks v Hv1) HT) as [[Hlt|[Heq Hlen]]|(T' & i' & b' & Hb' & Hr & Hno)].
  - assert (Hbne : b <> []).
    { intros ->. pose proof (entries_tip l (tr_entries _ Htree l Hl) Hne). unfold tip in Hlt at 2. cbn in Hlt. lia. }
    destruct (ld_node _ _ Hlead b Hbt Hbne) as (i' & b' & Hb' & Hpre).
    etrans; [|exact Hpre]. apply (IH' _ _ _ Hb'). lia.
  - destruct (ld_chain _ _ Hlead l b Hl Hbt Hne Heq) as [?|Hp]; [done|].
    rewrite (prefix_length_eq _ _ Hp) by lia. done.
  - destruct Hno. apply (IH' _ _ _ Hb'). lia.
Qed.

(** Committed logs are prefixes of one another. *)
Lemma committed_comparable l m : committed n tree acks l -> committed n tree acks m -> comparable l m.
Proof.
  intros Hl Hm. pose proof Hl as (Hlt & Hln & _). pose proof Hm as (Hmt & Hmn & _).
  destruct (Z.lt_trichotomy (tip l) (tip m)) as [Hlt2|[Heq|Hgt]].
  - left. destruct (ld_node _ _ Hlead m Hmt Hmn) as (i & b & Hb & Hp). etrans; [|exact Hp].
    by eapply leader_completeness.
  - by apply (ld_chain _ _ Hlead).
  - right. destruct (ld_node _ _ Hlead l Hlt Hln) as (i & b & Hb & Hp). etrans; [|exact Hp].
    by eapply leader_completeness.
Qed.

(** ** Logs that are known to be committed by term [T] *)

Definition known_by T k : Prop :=
  k = [] \/ exists l, committed n tree acks l /\ k `prefix_of` l /\ tip l <= T.

Lemma known_by_prefix T k k' : k' `prefix_of` k -> known_by T k -> known_by T k'.
Proof.
  intros Hp [->|(l & Hl & Hk & HT)]; [left; by apply prefix_nil_inv|]. right. exists l. split_and!; [done|by etrans|done].
Qed.

Lemma known_by_later T T' k : T <= T' -> known_by T k -> known_by T' k.
Proof. intros Hle [->|(l & Hl & Hk & HT)]; [by left|]. right. exists l. split_and!; [done|done|lia]. Qed.

Lemma known_comparable T T' k k' : known_by T k -> known_by T' k' -> comparable k k'.
Proof.
  intros [->|(l & Hl & Hk & _)]; [left; apply prefix_nil|].
  intros [->|(l' & Hl' & Hk' & _)]; [right; apply prefix_nil|].
  eapply comparable_prefix; [exact Hk|]. unfold comparable.
  destruct (comparable_prefix l' l k' Hk') as [?|?]; [|by right|by left].
  destruct (committed_comparable l l' Hl Hl') as [?|?]; [by right|by left].
Qed.

(** ** What a leader of term [T] has sent *)

Definition sent T m : Prop :=
  m ∈ tree /\ exists i b, (T, i, b) ∈ elected /\ b `prefix_of` m /\ (m = b \/ tip m = T).

Lemma sent_committed T m l : sent T m -> committed n tree acks l -> tip l <= T -> comparable l m.
Proof.
  intros (Hm & i & b & Hb & Hbm & Hcase) Hl HT. pose proof Hl as (Hlt & Hln & _).
  destruct (Z.eq_dec (tip l) T) as [Heq|Hne].
  - destruct Hcase as [->|Htm]; [|apply (ld_chain _ _ Hlead); [done|done|done|congruence]].
    right. destruct (ld_node _ _ Hlead l Hlt Hln) as (i' & b' & Hb' & Hp). rewrite Heq in Hb'.
    by destruct (ld_unique _ _ Hlead _ _ _ _ _ Hb Hb') as [_ ->].
  - left. etrans; [|exact Hbm]. eapply leader_completeness; [done|done|lia].
Qed.

Lemma sent_known T m k : sent T m -> known_by T k -> comparable k m.
Proof.
  intros Hm [->|(l & Hl & Hk & HT)]; [left; apply prefix_nil|].
  eapply comparable_prefix; [exact Hk|]. by eapply sent_committed.
Qed.

(** ** Replacing a log by what a leader sent *)

Section Replace.
Context (l s m : Log) (T : Z).
Context (Hm : sent T m) (Hs : s `prefix_of` m) (Hnew : ~ s `prefix_of` l).

Lemma replace_step k : comparable k m -> k `prefix_of` l -> k `prefix_of` s.
Proof.
  intros [Hk|Hk] Hkl.
  - destruct (prefix_weak_total k s m Hk Hs) as [?|Hsk]; [done|]. destruct Hnew. by etrans.
  - destruct Hnew. etrans; [exact Hs|]. by etrans.
Qed.

(** What was known to be committed stays, *)
Lemma replace_known k : known_by T k -> k `prefix_of` l -> k `prefix_of` s.
Proof. intros Hk. apply replace_step. by apply (sent_known T). Qed.

(** and so does what was acknowledged, unless the leader was elected without it. *)
Lemma replace_acked k :
  k ∈ tree -> k <> [] -> tip k <= T -> k `prefix_of` l -> k `prefix_of` s \/ superseded elected k T.
Proof.
  intros Hk Hne HT Hkl. pose proof Hm as (Hmt & i & b & Hb & Hbm & Hcase).
  destruct (Z.eq_dec (tip k) T) as [Heq|Hneq].
  - left. apply replace_step; [|done]. destruct Hcase as [->|Htm].
    + right. destruct (ld_node _ _ Hlead k Hk Hne) as (i' & b' & Hb' & Hp). rewrite Heq in Hb'.
      by destruct (ld_unique _ _ Hlead _ _ _ _ _ Hb Hb') as [_ ->].
    + apply (ld_chain _ _ Hlead); [done|done|done|congruence].
  - destruct (prefix_dec k b Hk) as [Hkb|Hkb]; [by apply (ld_base _ _ Hlead T i)| |].
    + left. apply replace_step; [|done]. left. by etrans.
    + right. exists T, i, b. split_and!; [done|lia|lia|done].
Qed.

End Replace.
End Safety.

(** ** Growth *)

Lemma acked_mono acks acks' r l : acks ⊆ acks' -> acked acks r l -> acked acks' r l.
Proof. intros Hs (Hne & m & Hm & Hp & Ht). split; [done|]. exists m. split_and!; [by apply Hs|done|done]. Qed.

Lemma committed_mono n tree tree' acks acks' l :
  tree ⊆ tree' -> acks ⊆ acks' -> committed n tree acks l -> committed n tree' acks' l.
Proof.
  intros Ht Ha (Hl & Hne & Q & HQ & Hq). split_and!; [by apply Ht|done|]. exists Q. split; [done|].
  intros r Hr. eapply acked_mono; [exact Ha|by apply Hq].
Qed.

Lemma known_by_mono n tree tree' acks acks' T k :
  tree ⊆ tree' -> acks ⊆ acks' -> known_by n tree acks T k -> known_by n tree' acks' T k.
Proof.
  intros Ht Ha [->|(l & Hl & Hk & HT)]; [by left|]. right. exists l. split_and!; [|done|done]. by eapply committed_mono.
Qed.

Lemma superseded_mono elected elected' l T T' :
  elected ⊆ elected' -> T <= T' -> superseded elected l T -> superseded elected' l T'.
Proof. intros He HT (T1 & i & b & Hb & Hr & Hn). exists T1, i, b. split_and!; [by apply He|lia|lia|done]. Qed.

Lemma sent_mono tree tree' elected elected' T m :
  tree ⊆ tree' -> elected ⊆ elected' -> sent tree elected T m -> sent tree' elected' T m.
Proof.
  intros Ht He (Hm & i & b & Hb & Hp & Hc). split; [by apply Ht|]. exists i, b. split_and!; [by apply He|done|done].
Qed.

(** New acknowledgements of one peer in one term. *)
Definition ack_only (acks acks' : Acks) (r : nat) T : Prop :=
  forall v l, acked acks' v l -> acked acks v l \/ (v = r /\ tip l = T).

Lemma ack_only_refl acks r T : ack_only acks acks r T.
Proof. intros v l Ha. by left. Qed.

Lemma ack_only_cons acks r m : ack_only acks ((r, m) :: acks) r (tip m).
Proof.
  intros v l (Hne & m' & [[= -> ->]|Hin]%elem_of_cons & Hp & Ht); [right; by split|].
  left. split; [done|]. by exists m'.
Qed.

Lemma elected_by_mono n elected elected' acks acks' voted voted' T b r T0 :
  elected ⊆ elected' -> ack_only acks acks' r T0 -> (forall v, voted v -> voted' v) ->
  (voted r -> T <= T0) -> elected_by n elected acks voted T b -> elected_by n elected' acks' voted' T b.
Proof.
  intros He Ha Hvo Hr (Q & HQ & Hv). exists Q. split; [done|]. intros v Hin. destruct (Hv v Hin) as [Hvv Hl].
  split; [by apply Hvo|]. intros l Hal HT. destruct (Ha v l Hal) as [Hold|[-> Ht]].
  - destruct (Hl l Hold HT) as [?|?]; [by left|right]. eapply superseded_mono; [exact He|reflexivity|done].
  - specialize (Hr Hvv). lia.
Qed.

(** A leader of term [tip l'] appends to a log that all logs of its term precede. *)
Lemma tree_append tree elected l e i b :
  tree_ok tree -> leaders_ok tree elected -> l ∈ tree -> (le_Term e, i, b) ∈ elected -> b `prefix_of` l ->
  le_Index e = Z.of_nat (length l) + 1 -> 0 <= le_Term e -> is_Some (le_Data e) -> tip l <= le_Term e ->
  (forall m, m ∈ tree -> tip m = le_Term e -> m `prefix_of` l) ->
  tree_ok ((l ++ [e]) :: tree) /\ leaders_ok ((l ++ [e]) :: tree) elected.
Proof.
  intros Ht Hl Hin He Hb Hidx Hterm Hdata Htip Hall.
  assert (Hpre : forall m, m `prefix_of` l ++ [e] -> m = l ++ [e] \/ m `prefix_of` l).
  { intros m Hm. destruct (Nat.le_gt_cases (length m) (length l)) as [Hle|Hgt].
    - right. eapply prefix_shorter; [exact Hm|by exists [e]|done].
    - left. apply prefix_length_eq; [done|]. rewrite length_app. cbn. lia. }
  split.
  - split.
    + right. apply Ht.
    + intros m [->|Hm]%elem_of_cons; [|by apply Ht]. destruct (tr_entries _ Ht l Hin) as [Hi Ht' Hd'].
      split; [|by rewrite Forall_app, Forall_singleton..]. apply contig_app. split; [done|].
      apply contig_cons. split; [lia|]. by intros k x Hx.
    + intros m m' [->|Hm]%elem_of_cons Hp.
      * destruct (Hpre m Hp) as [->|Hp']; [left|right; by eapply (tr_prefix _ Ht)].
      * right. by eapply (tr_prefix _ Ht).
    + intros m m' [->|Hm]%elem_of_cons Hp; [|by apply Ht]. rewrite tip_snoc.
      destruct (Hpre m Hp) as [->|Hp']; [by rewrite tip_snoc|]. etrans; [by eapply (tr_terms _ Ht)|done].
  - split.
    + apply Hl.
    + intros T j b' Hb'. destruct (ld_base _ _ Hl _ _ _ Hb'). split; [by right|done].
    + intros m [->|Hm]%elem_of_cons Hne; [|by apply Hl]. rewrite tip_snoc. exists i, b. split; [done|].
      etrans; [exact Hb|by exists [e]].
    + intros m m' [->|Hm]%elem_of_cons [->|Hm']%elem_of_cons Hne; rewrite ?tip_snoc; intros Heq.
      * by left.
      * right. etrans; [by apply Hall|by exists [e]].
      * left. etrans; [by apply Hall|by exists [e]].
      * by apply Hl.
Qed.

(** A new leader. *)
Lemma tree_elect tree elected T i b :
  tree_ok tree -> leaders_ok tree elected -> b ∈ tree -> tip b < T -> (forall j b', (T, j, b') ∉ elected) ->
  leaders_ok tree ((T, i, b) :: elected).
Proof.
  intros Ht Hl Hb Htip Hnew. split.
  - intros T' j j' b1 b2 [H1|H1]%elem_of_cons [H2|H2]%elem_of_cons; simplify_eq; [done| | |].
    + by apply Hnew in H2.
    + by apply Hnew in H1.
    + by eapply (ld_unique _ _ Hl).
  - intros T' j b' [H1|H1]%elem_of_cons; simplify_eq; [done|]. by eapply (ld_base _ _ Hl).
  - intros l Hin Hne. destruct (ld_node _ _ Hl l Hin Hne) as (j & b' & Hb' & Hp). exists j, b'. split; [by right|done].
  - apply Hl.
Qed.

End Tree.
