(* ===== verification/RaftLogs.v ===== *)
(** The slice [rf.log] as a compacted log: the dummy entry at the index of the last
    snapshot followed by the entries above it, and what the operations on the slice do
    to the log it stands for. *)
From Stdlib Require Import ZArith Lia.
From stdpp Require Import base list numbers.
From S2P Require Import Prelude RaftTypes RaftNode RaftVote RaftWf RaftSafe RaftLeader RaftSpec LogTree.

#[local] Open Scope Z_scope.

Section Compact.
Context {D : Type}.
Abbreviation Log := (list (LogEntry D)).
Implicit Types (l m : Log) (f p : nat).

Definition compact l f : Log := mkLogEntry (term_at l f) (Z.of_nat f) None :: drop f l.

Lemma compact_first l f : firstIndex (compact l f) = Z.of_nat f.
Proof. done. Qed.

Lemma compact_last l f : (f <= length l)%nat -> lastIndex (compact l f) = Z.of_nat (length l).
Proof. intros Hf. unfold lastIndex. rewrite compact_first. cbn. rewrite length_drop. lia. Qed.

Lemma term_at_nonneg l i : entries_ok l -> (0 < i <= length l)%nat -> 0 <= term_at l i.
Proof.
  intros [_ Ht] Hi. destruct i as [|i]; [lia|]. cbn. destruct (lookup_lt_is_Some_2 l i) as [e He]; [lia|].
  rewrite He. cbn. rewrite Forall_lookup in Ht. by eapply Ht.
Qed.

Lemma compact_ok l f : entries_ok l -> (f <= length l)%nat -> log_ok (compact l f).
Proof.
  intros Hl Hf. split.
  - rewrite compact_first. intros [|k] e He; [injection He as <-; cbn; lia|].
    change (drop f l !! k = Some e) in He. rewrite lookup_drop in He. rewrite (eo_index _ Hl _ _ He). lia.
  - eexists. split; [done|]. unfold dummy_ok. cbn. destruct f as [|f]; [by left|right]. split; [|lia].
    apply (term_at_nonneg l (S f)); [done|lia].
  - intros k e He. change (drop f l !! k = Some e) in He. rewrite lookup_drop in He. pose proof (eo_term _ Hl) as Ht. rewrite Forall_lookup in Ht. by eapply Ht.
Qed.

Lemma compact_term l f i :
  (f <= i <= length l)%nat -> le_Term <$> entryAt (compact l f) (Z.of_nat i) = Some (term_at l i).
Proof.
  intros Hi. unfold entryAt. rewrite compact_first. destruct (Z.leb_spec (Z.of_nat f) (Z.of_nat i)); [|lia].
  replace (Z.to_nat (Z.of_nat i - Z.of_nat f)) with (i - f)%nat by lia. destruct (i - f)%nat as [|k] eqn:Hk.
  - cbn. by replace i with f by lia.
  - change (le_Term <$> drop f l !! k = Some (term_at l i)). rewrite lookup_drop. destruct i as [|i]; [lia|]. replace (f + k)%nat with i by lia. cbn.
    destruct (lookup_lt_is_Some_2 l i) as [e He]; [lia|]. by rewrite He.
Qed.

Lemma compact_entry l f i :
  (f < i)%nat -> entryAt (compact l f) (Z.of_nat i) = l !! (i - 1)%nat.
Proof.
  intros Hi. unfold entryAt. rewrite compact_first. destruct (Z.leb_spec (Z.of_nat f) (Z.of_nat i)); [|lia].
  replace (Z.to_nat (Z.of_nat i - Z.of_nat f)) with (S (i - f - 1)) by lia.
  change (drop f l !! (i - f - 1)%nat = l !! (i - 1)%nat). rewrite lookup_drop. f_equal. lia.
Qed.

Lemma compact_none l f i : (f <= length l < i)%nat -> entryAt (compact l f) (Z.of_nat i) = None.
Proof.
  intros Hi. unfold entryAt. rewrite compact_first. destruct (Z.leb_spec (Z.of_nat f) (Z.of_nat i)); [|done].
  apply lookup_ge_None. cbn. rewrite length_drop. lia.
Qed.

Lemma compact_tip l f : (f <= length l)%nat -> lastTerm (compact l f) = tip l.
Proof.
  intros Hf. pose proof (compact_term l f (length l)) as Ht. rewrite <- (compact_last l f Hf) in Ht.
  unfold lastTerm, tip. rewrite last_lookup. unfold entryAt, lastIndex in Ht.
  rewrite compact_first in Ht. destruct (Z.leb_spec (Z.of_nat f) (Z.of_nat f + Z.of_nat (length (compact l f)) - 1)).
  - replace (Z.to_nat _) with (Init.Nat.pred (length (compact l f))) in Ht by lia. rewrite Ht; [done|lia].
  - cbn in H. lia.
Qed.

Lemma compact_append l f e : (f <= length l)%nat -> compact l f ++ [e] = compact (l ++ [e]) f.
Proof.
  intros Hf. unfold compact. cbn. rewrite drop_app_le by done. f_equal. f_equal. destruct f as [|f]; [done|]. cbn.
  by rewrite lookup_app_l by lia.
Qed.

Lemma compact_suffix l f p : (f <= p)%nat -> drop (p + 1 - f) (compact l f) = drop p l.
Proof.
  intros Hp. replace (p + 1 - f)%nat with (S (p - f)) by lia. cbn. rewrite drop_drop. f_equal. lia.
Qed.

Lemma compact_trim l f i :
  (f <= i <= length l)%nat ->
  mkLogEntry (term_at l i) (Z.of_nat i) None :: drop (i + 1 - f) (compact l f) = compact l i.
Proof. intros Hi. by rewrite compact_suffix by lia. Qed.

(** The entries above [p] are cut off and replaced. *)
Lemma compact_replace l m f p :
  (f <= p)%nat -> (p <= length l)%nat -> (p <= length m)%nat -> take p l = take p m ->
  take (p - f + 1) (compact l f) ++ drop p m = compact m f.
Proof.
  intros Hf Hl Hm Heq. replace (p - f + 1)%nat with (S (p - f)) by lia. unfold compact. cbn. f_equal.
  - f_equal. rewrite <- (term_at_take l f p), <- (term_at_take m f p) by done. by rewrite Heq.
  - rewrite take_drop_commute. replace (f + (p - f))%nat with p by lia. rewrite Heq.
    rewrite <- (take_drop p m) at 3. rewrite drop_app_le; [done|]. rewrite length_take. lia.
Qed.

(** The update of AppendEntries: nothing when the last entry sent is there already, the
    sender's log otherwise. *)
Lemma merge_compact l m f p :
  entries_ok m -> (f <= p)%nat -> (p <= length l)%nat -> (p <= length m)%nat -> take p l = take p m ->
  (merge_log (compact l f) (Z.of_nat p) (drop p m) = compact l f
     /\ (p = length m \/ ((length m <= length l)%nat /\ term_at l (length m) = tip m)))
  \/ (merge_log (compact l f) (Z.of_nat p) (drop p m) = compact m f
     /\ (p < length m)%nat /\ ((length m <= length l)%nat -> term_at l (length m) <> tip m)).
Proof.
  intros Hok Hf Hl Hm Heq. unfold merge_log. destruct (list.last (drop p m)) as [e|] eqn:He.
  - assert (Hp : (p < length m)%nat).
    { destruct (Nat.lt_ge_cases p (length m)) as [?|?]; [done|]. by rewrite drop_ge in He by lia. }
    rewrite last_lookup, lookup_drop, length_drop in He.
    replace (p + Init.Nat.pred (length m - p))%nat with (Init.Nat.pred (length m)) in He by lia.
    assert (Hidx : le_Index e = Z.of_nat (length m)) by (rewrite (eo_index _ Hok _ _ He); lia).
    assert (Htip : tip m = le_Term e).
    { unfold tip. destruct (length m) as [|k]; [lia|]. cbn in *. by rewrite He. }
    rewrite Hidx, <- Htip. case_decide as Hd.
    + left. split; [done|]. right. destruct (Nat.le_gt_cases (length m) (length l)) as [Hle|Hgt].
      * rewrite compact_term in Hd by lia. split; [done|]. by injection Hd.
      * by rewrite compact_none in Hd by lia.
    + right. rewrite compact_first. replace (Z.to_nat (Z.of_nat p - Z.of_nat f + 1)) with (p - f + 1)%nat by lia.
      rewrite (compact_replace l m f p) by done. split_and!; [done|done|]. intros Hle Ht. apply Hd.
      rewrite compact_term by lia. by rewrite Ht.
  - left. split; [done|]. left. apply last_None in He. apply (f_equal length) in He. rewrite length_drop in He. cbn in He. lia.
Qed.

End Compact.
