(* ===== verification/RaftMoves.v ===== *)
(** How one operation of a peer changes what safety depends on: log, role, vote,
    commitIndex and matchIndex. *)
From Stdlib Require Import ZArith Lia.
From stdpp Require Import base list numbers.
From S2P Require Import Prelude RaftTypes RaftNode RaftVote RaftWf RaftSafe RaftLeader RaftSpec RaftCluster ElectionSafety.

#[local] Open Scope Z_scope.

(** ** Operations that leave log, commitIndex and matchIndex alone *)

Section Soft.
Context {D : Type} `{LabGob D}.
Implicit Types rf : Raft D.

Record soft rf rf' : Prop :=
  { so_log : log rf' = log rf;
    so_commit : commitIndex rf' = commitIndex rf;
    so_match : matchIndex rf' = matchIndex rf;
    so_term : currentTerm rf <= currentTerm rf';
    so_leader : state rf' = Leader -> state rf = Leader /\ currentTerm rf' = currentTerm rf;
    so_cand : state rf' = Candidate -> state rf = Candidate /\ currentTerm rf' = currentTerm rf }.

#[export] Instance soft_preorder : PreOrder soft.
Proof.
  split.
  - intros rf. by split.
  - intros x y z [l1 c1 m1 t1 s1 d1] [l2 c2 m2 t2 s2 d2]. split; try congruence; [lia| |].
    + intros Hs. destruct (s2 Hs) as [Hs' ?]. destruct (s1 Hs') as [? ?]. split; [done|lia].
    + intros Hs. destruct (d2 Hs) as [Hs' ?]. destruct (d1 Hs') as [? ?]. split; [done|lia].
Qed.

Lemma soft_persist : keeps soft persist.
Proof. intros rf. by split. Qed.

Lemma soft_AddCurrentTerm tk t : keeps soft (AddCurrentTerm tk t).
Proof.
  intros rf. unfold AddCurrentTerm, SetElectionTime, persist. m_exec.
  destruct (Z.leb_spec t (currentTerm rf)); [reflexivity|]. split; simpl; try done; lia.
Qed.

(** A vote is kept or forgotten. *)
Definition vote_kept rf rf' : Prop :=
  voteFor rf' = -1 \/ (voteFor rf' = voteFor rf /\ currentTerm rf' = currentTerm rf).

#[export] Instance vote_kept_preorder : PreOrder vote_kept.
Proof. split; unfold vote_kept; [by right|]. intros x y z [?|[? ?]] [?|[? ?]]; [tauto| |tauto|right; split; congruence]. left. congruence. Qed.

Lemma vote_kept_persist : keeps vote_kept persist.
Proof. intros rf. by right. Qed.

Lemma vote_kept_AddCurrentTerm tk t : keeps vote_kept (AddCurrentTerm tk t).
Proof.
  intros rf. unfold AddCurrentTerm, SetElectionTime, persist. m_exec.
  destruct (Z.leb_spec t (currentTerm rf)); [reflexivity|]. by left.
Qed.

End Soft.

#[export] Hint Resolve soft_persist soft_AddCurrentTerm vote_kept_persist vote_kept_AddCurrentTerm : keeps.
#[export] Hint Extern 1 (keeps soft (modify _)) => apply keeps_modify; intros ?; by split : keeps.
#[export] Hint Extern 1 (keeps vote_kept (modify _)) => apply keeps_modify; intros ?; by right : keeps.

Section Moves.
Context {D : Type} `{LabGob D}.
Implicit Types rf : Raft D.

(** ** Votes *)

Lemma kept_advance : keeps vote_kept (advanceCommit (D:=D)).
Proof.
  unfold advanceCommit, applySignal. keeps_auto.
  match goal with |- keeps _ (advanceCommit_loop ?f ?i) => generalize i; induction f end;
    intros i; simpl; unfold applySignal; keeps_auto.
Qed.

Lemma kept_reset : keeps vote_kept (resetRaftIndex (D:=D)).
Proof. unfold resetRaftIndex. keeps_auto. Qed.
#[local] Hint Resolve kept_advance kept_reset : keeps.

Definition votes_op (op : NodeOp (D:=D)) : bool :=
  match op with OpRequestVote _ | OpTicker _ => true | _ => false end.

Lemma exec_vote_kept env op : votes_op op = false -> keeps vote_kept (exec (D:=D) env op).
Proof.
  destruct op; try done; intros _; simpl; unfold ignore, Snapshot,
    RequestHeartBeat, RequestInstallSnapShot, RequestInstallSnapShot_body, snapshot_covered,
    snapshot_conflicts, installSnapshotDone, RequestSendLog, RequestSendLog_body, adjust_args,
    append_entries, follower_commit, applySignal, SetElectionTime,
    Start, Kill, sendSnapShot_begin, sendSnapShot_reply, sendLogTicketCore_begin, prepareSendLog,
    sendLog_reply, onSendLogSuccess, backoff, onVoteReply, ticker_decide, applyTicket_collect,
    applyTicket_finish; keeps_auto.
Qed.

(** A refused vote request. *)
Lemma vote_refused env a rf rf' r :
  RequestVote env a rf = (rf', Ret r) -> rvr_VoteGranted r = false -> vote_kept rf rf'.
Proof.
  unfold RequestVote, RequestVote_body, GetLastLog, SetElectionTime, persist. m_exec.
  pose proof (vote_kept_AddCurrentTerm (env 0%nat) (rv_Term a) rf) as Hk.
  repeat (case_match; simplify_eq/=); try done; intros [= <- <-]; simpl; try done; intros _;
    try reflexivity;
    match goal with Hr : AddCurrentTerm _ _ _ = _ |- _ => rewrite Hr in Hk; exact Hk end.
Qed.

(** ** Soft operations *)

Lemma soft_RequestVote env a : keeps soft (RequestVote (D:=D) env a).
Proof.
  unfold RequestVote, RequestVote_body, SetElectionTime. keeps_auto.
Qed.

Lemma soft_onVoteReply env r t : keeps soft (onVoteReply (D:=D) env r t).
Proof. unfold onVoteReply. keeps_auto. Qed.

Lemma soft_sendLogCore : keeps soft (sendLogTicketCore_begin (D:=D)).
Proof. unfold sendLogTicketCore_begin, prepareSendLog. keeps_auto. Qed.

Lemma soft_sendSnapShot_begin p : keeps soft (sendSnapShot_begin (D:=D) p).
Proof. unfold sendSnapShot_begin. keeps_auto. Qed.

Lemma soft_collect : keeps soft (applyTicket_collect (D:=D)).
Proof. unfold applyTicket_collect. keeps_auto. Qed.

Lemma soft_finish b : keeps soft (applyTicket_finish (D:=D) b).
Proof. unfold applyTicket_finish. keeps_auto. Qed.

Lemma keeps_ret_run {A} (R : relation (Raft D)) (m : M (Raft D) A) rf rf' a : keeps R m -> m rf = (rf', Ret a) -> R rf rf'.
Proof. intros Hk Hr. specialize (Hk rf). by rewrite Hr in Hk. Qed.

(** ** ticker *)

Lemma ticker_none now env rf rf' : ticker_begin now env rf = (rf', Ret None) -> rf' = rf.
Proof.
  unfold ticker_begin, SetElectionTime, persist. m_exec. repeat (case_match; simplify_eq/=); try done. by intros [= <-].
Qed.

Lemma ticker_some now env rf rf' args :
  log_ok (log rf) -> ticker_begin now env rf = (rf', Ret (Some args)) ->
  log rf' = log rf /\ commitIndex rf' = commitIndex rf /\ state rf' = Candidate
  /\ rv_LastLogIndex args = lastIndex (log rf) /\ rv_LastLogTerm args = lastTerm (log rf).
Proof.
  intros Hl. pose proof (log_ok_length _ Hl). destruct (log_ok_last _ Hl) as (e & He & Hk & Hi).
  unfold ticker_begin, SetElectionTime, persist. m_exec. case_match; [|done]. simpl.
  destruct (Z.eqb_spec (Z.of_nat (length (log rf))) 0); [lia|]. simpl. rewrite He. simpl.
  intros [= <- <-]. simpl. split_and!; try done. by rewrite (lastTerm_entry _ _ Hk).
Qed.

(** Winning. *)
Lemma decide_cases args t rf rf' :
  wf rf -> ticker_decide args t rf = (rf', Ret tt) ->
  rf' = rf
  \/ (state rf = Candidate /\ currentTerm rf = rv_Term args /\ Z.of_nat (peers rf) ÷ 2 < voteCount t
      /\ rf' = set_matchIndex (<[Z.to_nat (me rf) := lastIndex (log rf)]> (replicate (peers rf) 0))
            (set_nextIndex (replicate (peers rf) (lastIndex (log rf) + 1)) (set_state Leader rf))).
Proof.
  intros Hwf. unfold ticker_decide. m_exec. destruct ((currentTerm rf =? rv_Term args) && _) eqn:E1; [|intros [= <-]; by left].
  destruct (Z.of_nat (peers rf) ÷ 2 <? voteCount t) eqn:E2; [|intros [= <-]; by left]. zify_bool.
  assert (Hwp := wp_resetRaftIndex (set_state Leader rf)). simpl in Hwp.
  destruct (wp_run _ _ _ (Hwp (wf_log _ Hwf) (wf_ni _ Hwf) (wf_mi _ Hwf) (wf_me _ Hwf))) as (rf1 & [] & Hrun & ->).
  rewrite Hrun. intros [= <-]. right. unfold is_state in *. match goal with Hs : bool_decide _ = true |- _ => apply bool_decide_eq_true in Hs end.
  done.
Qed.

(** ** Advancing commitIndex, whether or not the peer is well prepared for it *)

Lemma logAt_ret i rf rf' e :
  log_ok (log rf) -> logAt i rf = (rf', Ret e) -> rf' = rf /\ entryAt (log rf) i = Some e.
Proof.
  intros Hl. unfold logAt, GetFirstLog. m_exec. destruct Hl as [_ (d & Hd & _) _].
  destruct (log rf) as [|d' l] eqn:Hlog; [discriminate Hd|]. injection Hd as ->.
  change (go_idx (d :: l) 0) with (Ret d). cbn beta iota.
  destruct (go_idx (d :: l) (i - le_Index d)) as [x|] eqn:Hx; [|done]. intros [= <- <-]. split; [done|].
  apply go_idx_lookup in Hx as [Hr Hx]. unfold entryAt, firstIndex. cbn [head fmap option_fmap option_map default from_option id].
  destruct (Z.leb_spec (le_Index d) i); [done|lia].
Qed.

Lemma advance_loop_ret fuel b c s rf0 rf' :
  log_ok (log rf0) ->
  (c = commitIndex rf0 \/ (commitIndex rf0 < c <= lastIndex (log rf0) /\ committable rf0 c)) -> c < b ->
  advanceCommit_loop fuel b (with_commit rf0 c s) = (rf', Ret tt) ->
  exists c' s', rf' = with_commit rf0 c' s'
    /\ (c' = commitIndex rf0 \/ (commitIndex rf0 < c' <= lastIndex (log rf0) /\ committable rf0 c')).
Proof.
  intros Hl. revert b c s. induction fuel as [|fuel IH]; intros b c s Hc Hb; simpl.
  { intros [= <-]. by exists c, s. }
  destruct (wp_run _ _ _ (wp_GetLastLog (fun e rf => rf = with_commit rf0 c s /\ le_Index e = lastIndex (log rf0)) (with_commit rf0 c s) Hl
    ltac:(by intros e _ He))) as (r1 & last & Hlast & -> & Hli).
  rewrite (bind_run _ _ _ _ _ Hlast), Hli. destruct (Z.leb_spec b (lastIndex (log rf0))); [|intros [= <-]; by exists c, s].
  m_exec. destruct (Z.leb_spec (matchCount (matchIndex rf0) b) (Z.of_nat (peers rf0) ÷ 2)); [intros [= <-]; by exists c, s|].
  change (commitIndex (with_commit rf0 c s)) with c. destruct (Z.ltb_spec c b); [|lia].
  destruct (logAt b (with_commit rf0 c s)) as [r2 [e|]] eqn:He; [|done]. apply logAt_ret in He as [-> He]; [|done].
  change (currentTerm (with_commit rf0 c s)) with (currentTerm rf0). change (log (with_commit rf0 c s)) with (log rf0) in He.
  destruct (Z.eqb_spec (currentTerm rf0) (le_Term e)) as [Ht|Ht].
  - unfold applySignal. m_exec. apply (IH (b + 1) b (Datatypes.S s)); [|lia]. right.
    split; [destruct Hc as [->|[? _]]; lia|]. split; [done|]. rewrite He. cbn. by rewrite Ht.
  - apply (IH (b + 1) c s); [done|lia].
Qed.

Lemma advance_ret rf rf' :
  log_ok (log rf) -> advanceCommit rf = (rf', Ret tt) ->
  exists c s, rf' = with_commit rf c s
    /\ (c = commitIndex rf \/ (commitIndex rf < c <= lastIndex (log rf) /\ committable rf c)).
Proof.
  intros Hl. unfold advanceCommit.
  destruct (wp_run _ _ _ (wp_GetLastLog (fun e r => r = rf /\ le_Index e = lastIndex (log rf)) rf Hl
    ltac:(by intros e _ He))) as (r1 & last & Hlast & -> & Hli).
  rewrite (bind_run _ _ _ _ _ Hlast). m_exec. intros Hr.
  assert (Hid : with_commit rf (commitIndex rf) (applySignals rf) = rf) by (by destruct rf).
  apply (advance_loop_ret (Z.to_nat (le_Index last - commitIndex rf)) (commitIndex rf + 1) (commitIndex rf) (applySignals rf));
    [done|by left|lia|]. by rewrite Hid.
Qed.

(** A peer whose replication arrays are updated and whose commitIndex then advances. *)
Definition replicated rf (i : nat) (x : Z) rf' : Prop :=
  exists ni c s old, matchIndex rf !! i = Some old
    /\ let rf1 := set_matchIndex (<[i := Z.max old x]> (matchIndex rf)) (set_nextIndex ni rf) in
       rf' = with_commit rf1 c s
       /\ (c = commitIndex rf \/ (commitIndex rf < c <= lastIndex (log rf) /\ committable rf1 c)).

Lemma set_match_id rf : set_matchIndex (matchIndex rf) rf = rf.
Proof. by destruct rf. Qed.

Lemma set_next_id rf : set_nextIndex (nextIndex rf) rf = rf.
Proof. by destruct rf. Qed.

Lemma raised_same {A} (l : list A) i x : l !! i = Some x -> <[i := x]> l = l.
Proof. apply list_insert_id. Qed.

Lemma success_run i (es : list (LogEntry D)) e rf old next :
  list.last es = Some e -> 0 <= i ->
  matchIndex rf !! Z.to_nat i = Some old -> nextIndex rf !! Z.to_nat i = Some next ->
  onSendLogSuccess i es rf
  = advanceCommit (set_matchIndex (<[Z.to_nat i := Z.max old (le_Index e)]> (matchIndex rf))
      (set_nextIndex (<[Z.to_nat i := Z.max next (le_Index e + 1)]> (nextIndex rf)) rf)).
Proof.
  intros He Hi Ho Hn. pose proof (lookup_lt_Some _ _ _ Ho). pose proof (lookup_lt_Some _ _ _ Hn).
  assert (Hne : es <> []) by (by intros ->). destruct (go_idx_last es Hne) as (e' & Hg & He').
  assert (e' = e) as -> by congruence. unfold onSendLogSuccess.
  destruct (Z.ltb_spec 0 (Z.of_nat (length es))) as [Hpos|Hpos]; [|destruct es; [done|cbn in *; lia]].
  m_exec. rewrite Hg. simpl. rewrite (proj2 (go_idx_lookup (matchIndex rf) i old)) by done. simpl.
  destruct (Z.ltb_spec old (le_Index e)); simpl.
  - rewrite go_set_ok by lia. simpl. rewrite (proj2 (go_idx_lookup (nextIndex rf) i next)) by done. simpl.
    rewrite Z.max_r by lia. destruct (Z.ltb_spec next (le_Index e + 1)); simpl.
    + rewrite go_set_ok by lia. simpl. by rewrite Z.max_r by lia.
    + rewrite (Z.max_l next) by lia. by rewrite (raised_same (nextIndex rf)).
  - rewrite (proj2 (go_idx_lookup (nextIndex rf) i next)) by done. simpl. rewrite Z.max_l by lia.
    rewrite (raised_same (matchIndex rf)) by done. destruct (Z.ltb_spec next (le_Index e + 1)); simpl.
    + rewrite go_set_ok by lia. simpl. rewrite Z.max_r by lia. by destruct rf.
    + rewrite (Z.max_l next) by lia. rewrite (raised_same (nextIndex rf)) by done. by destruct rf.
Qed.

Lemma sendLog_reply_ret env i a recode r rf rf' :
  wf rf -> 0 <= i < Z.of_nat (peers rf) ->
  (state rf = Leader -> currentTerm rf = sl_Term a ->
     forall e, list.last (sl_Entries a) = Some e -> 0 <= le_Index e <= lastIndex (log rf)) ->
  sendLog_reply env i a recode r rf = (rf', Ret tt) ->
  wf rf' /\ (soft rf rf'
    \/ (state rf = Leader /\ currentTerm rf = sl_Term a /\ slr_Success r = true
        /\ exists e, list.last (sl_Entries a) = Some e /\ replicated rf (Z.to_nat i) (le_Index e) rf')).
Proof.
  intros Hwf Hi Hidx. pose proof (wf_ni _ Hwf). pose proof (wf_mi _ Hwf).
  unfold sendLog_reply. rewrite (bind_run _ _ rf rf (currentTerm rf)) by done.
  destruct (currentTerm rf <? slr_Term r) eqn:Ht.
  { intros Hr. split; [|left; by eapply keeps_ret_run; [apply soft_AddCurrentTerm|]].
    pose proof (wf_AddCurrentTerm (env 0%nat) (slr_Term r) rf Hwf) as Hw. unfold wp in Hw. rewrite Hr in Hw. tauto. }
  rewrite (bind_run _ _ rf rf (state rf)) by done.
  destruct (is_state (state rf) Leader && (currentTerm rf =? sl_Term a)) eqn:Hl; [|intros [= <-]; split; [done|left; reflexivity]].
  apply andb_prop in Hl as [Hs Hct]. apply bool_decide_eq_true in Hs. apply Z.eqb_eq in Hct.
  destruct (slr_Success r) eqn:Hsu.
  - destruct (list.last (sl_Entries a)) as [e|] eqn:He.
    + destruct (lookup_lt_is_Some_2 (matchIndex rf) (Z.to_nat i)) as [old Ho]; [lia|].
      destruct (lookup_lt_is_Some_2 (nextIndex rf) (Z.to_nat i)) as [next Hn]; [lia|].
      rewrite (success_run i (sl_Entries a) e rf old next) by (done || lia). intros Hr.
      apply advance_ret in Hr as (c & s & -> & Hc); [|apply Hwf]. specialize (Hidx Hs Hct e eq_refl).
      split; [|right; split_and!; try done; exists e; split; [done|]; eexists _, c, s, old; split; [done|split; [reflexivity|exact Hc]]].
      apply wf_with_commit, wf_arrays; [done|by rewrite length_insert|by rewrite length_insert|]. intros _.
      apply Forall_insert; [by apply Hwf|]. pose proof (wf_next _ Hwf Hs) as Hf. rewrite Forall_lookup in Hf.
      specialize (Hf _ _ Hn). lia.
    + apply last_None in He. rewrite He. unfold onSendLogSuccess. simpl. intros [= <-]. split; [done|left; reflexivity].
  - destruct (lookup_lt_is_Some_2 (nextIndex rf) (Z.to_nat i)) as [next Hn]; [lia|].
    intros Hr. pose proof (wp_backoff i recode rf next Hwf Hs Hn ltac:(lia)) as Hw. unfold wp in Hw. rewrite Hr in Hw.
    destruct Hw as (n' & -> & _ & _ & _ & Hn'). split; [by apply wf_set_next|left; by split].
Qed.

(** Lines 728-740 of sendSnapShot. *)
Definition raised_if (b : bool) (l : list Z) (i : nat) (x : Z) : list Z := if b then <[i := x]> l else l.

Lemma snap_reply_run env i ctx r rf mtch next :
  matchIndex rf !! Z.to_nat i = Some mtch -> nextIndex rf !! Z.to_nat i = Some next -> 0 <= i ->
  rsr_Term r <= currentTerm rf -> state rf = Leader -> currentTerm rf = sc_leaderTerm ctx ->
  sendSnapShot_reply env i ctx r rf
  = advanceCommit
      (set_matchIndex (raised_if ((mtch =? sc_matchIndex ctx) && (mtch <? sc_lastLogIndex ctx)) (matchIndex rf) (Z.to_nat i) (sc_lastLogIndex ctx))
        (set_nextIndex (raised_if ((next =? sc_nextIndex ctx) && (next <? sc_lastLogIndex ctx + 1)) (nextIndex rf) (Z.to_nat i)
           (sc_lastLogIndex ctx + 1)) rf)).
Proof.
  intros Hm Hn Hi Hr Hs Ht. pose proof (lookup_lt_Some _ _ _ Hm). pose proof (lookup_lt_Some _ _ _ Hn).
  unfold sendSnapShot_reply, raised_if. m_exec. destruct (Z.ltb_spec (currentTerm rf) (rsr_Term r)); [lia|].
  rewrite Hs, Ht, Z.eqb_refl. simpl. rewrite (proj2 (go_idx_lookup (nextIndex rf) i next)) by done. simpl.
  destruct ((next =? sc_nextIndex ctx) && _); simpl.
  - rewrite go_set_ok by lia. simpl. rewrite (proj2 (go_idx_lookup (matchIndex rf) i mtch)) by done. simpl.
    destruct ((mtch =? sc_matchIndex ctx) && _); simpl; [by rewrite go_set_ok by lia|by destruct rf].
  - rewrite (proj2 (go_idx_lookup (matchIndex rf) i mtch)) by done. simpl. rewrite set_next_id.
    destruct ((mtch =? sc_matchIndex ctx) && _); simpl; [by rewrite go_set_ok by lia|by destruct rf].
Qed.

Lemma length_raised_if b l i x : length (raised_if b l i x) = length l.
Proof. destruct b; [apply length_insert|done]. Qed.

Lemma Forall_raised_if (P : Z -> Prop) b l i x : Forall P l -> P x -> Forall P (raised_if b l i x).
Proof. destruct b; [|done]. apply Forall_insert. Qed.

Lemma raised_if_max b l i x old :
  l !! i = Some old -> (b = true -> old < x) ->
  raised_if b l i x = <[i := Z.max old (if b then x else old)]> l.
Proof.
  intros Ho Hb. unfold raised_if. destruct b; [by rewrite Z.max_r by (specialize (Hb eq_refl); lia)|].
  rewrite Z.max_id. by rewrite list_insert_id.
Qed.

Lemma sendSnapShot_reply_ret env i ctx r rf rf' :
  wf rf -> 0 <= i < Z.of_nat (peers rf) ->
  (state rf = Leader -> currentTerm rf = sc_leaderTerm ctx -> 0 <= sc_lastLogIndex ctx <= lastIndex (log rf)) ->
  sendSnapShot_reply env i ctx r rf = (rf', Ret tt) ->
  wf rf' /\ (soft rf rf'
    \/ (state rf = Leader /\ currentTerm rf = sc_leaderTerm ctx /\ rsr_Term r <= currentTerm rf
        /\ exists x, (x = sc_lastLogIndex ctx \/ matchIndex rf !! Z.to_nat i = Some x) /\ replicated rf (Z.to_nat i) x rf')).
Proof.
  intros Hwf Hi Hidx. pose proof (wf_ni _ Hwf). pose proof (wf_mi _ Hwf).
  destruct (Z.ltb_spec (currentTerm rf) (rsr_Term r)) as [Hlt|Hge].
  { unfold sendSnapShot_reply. rewrite (bind_run _ _ rf rf (currentTerm rf)) by done.
    rewrite (proj2 (Z.ltb_lt _ _) Hlt). intros Hr. split; [|left; by eapply keeps_ret_run; [apply soft_AddCurrentTerm|]].
    pose proof (wf_AddCurrentTerm (env 0%nat) (rsr_Term r) rf Hwf) as Hw. unfold wp in Hw. rewrite Hr in Hw. tauto. }
  destruct (is_state (state rf) Leader && (currentTerm rf =? sc_leaderTerm ctx)) eqn:Hl; cycle 1.
  { unfold sendSnapShot_reply. m_exec. destruct (Z.ltb_spec (currentTerm rf) (rsr_Term r)); [lia|]. rewrite Hl.
    intros [= <-]. split; [done|left; reflexivity]. }
  apply andb_prop in Hl as [Hs Hct]. apply bool_decide_eq_true in Hs. apply Z.eqb_eq in Hct.
  destruct (lookup_lt_is_Some_2 (matchIndex rf) (Z.to_nat i)) as [mtch Hm]; [lia|].
  destruct (lookup_lt_is_Some_2 (nextIndex rf) (Z.to_nat i)) as [next Hn]; [lia|].
  rewrite (snap_reply_run env i ctx r rf mtch next) by (done || lia). intros Hr.
  apply advance_ret in Hr as (c & s & -> & Hc); [|apply Hwf]. specialize (Hidx Hs Hct).
  set (bm := (mtch =? sc_matchIndex ctx) && (mtch <? sc_lastLogIndex ctx)) in *.
  rewrite (raised_if_max bm (matchIndex rf) (Z.to_nat i) (sc_lastLogIndex ctx) mtch) in Hc |- *
    by (done || (unfold bm; intros E; zify_bool; lia)).
  split.
  - apply wf_with_commit, wf_arrays; [done|by rewrite length_raised_if|by rewrite length_insert|].
    intros _. apply Forall_raised_if; [by apply Hwf|]. lia.
  - right. split_and!; try done. eexists. split; [|eexists _, c, s, mtch; split; [done|split; [reflexivity|exact Hc]]].
    destruct bm; [by left|by right].
Qed.

(** ** What a panic leaves behind *)

Definition log_same rf rf' : Prop := log rf' = log rf.

#[export] Instance log_same_preorder : PreOrder log_same.
Proof. split; unfold log_same; [done|]. intros x y z ? ?. congruence. Qed.

Lemma log_same_AddCurrentTerm tk t : keeps log_same (AddCurrentTerm tk t).
Proof. intros rf. unfold log_same. exact (so_log _ _ (soft_AddCurrentTerm tk t rf)). Qed.

(** If the operation panics, it has not touched the log. *)
Definition panic_log {A} (m : M (Raft D) A) : Prop :=
  forall rf, log rf <> [] -> forall rf', m rf = (rf', Panic) -> log rf' = log rf.

Lemma panic_log_keeps {A} (m : M (Raft D) A) : keeps log_same m -> panic_log m.
Proof. intros Hk rf _ rf' Hr. specialize (Hk rf). by rewrite Hr in Hk. Qed.

Lemma panic_log_bind {A B} (m : M (Raft D) A) (f : A -> M (Raft D) B) :
  keeps log_same m -> (forall a, panic_log (f a)) -> panic_log (m ≫= f).
Proof.
  intros Hm Hf rf Hne rf'. unfold mbind, M_bind, m_bind. specialize (Hm rf). unfold log_same in Hm.
  destruct (m rf) as [rf1 [a|]]; simpl in *; [|intros [= <-]; done].
  intros Hr. rewrite <- Hm. apply (Hf a rf1); [by rewrite Hm|done].
Qed.

Lemma GetLastLog_some rf : log rf <> [] -> exists e, GetLastLog rf = (rf, Ret e).
Proof.
  intros Hne. unfold GetLastLog. m_exec. destruct (go_idx_last (log rf) Hne) as (e & -> & _). by exists e.
Qed.

Lemma follower_commit_total c rf : log rf <> [] -> exists rf', follower_commit c rf = (rf', Ret tt).
Proof.
  intros Hne. unfold follower_commit, applySignal. rewrite (bind_run _ _ rf rf (commitIndex rf)) by done.
  destruct (commitIndex rf <? c); [|by exists rf]. destruct (GetLastLog_some rf Hne) as [e He].
  rewrite (bind_run _ _ _ _ _ He). m_exec. case_match; by eexists.
Qed.

(** What append_entries can do. *)
Lemma append_entries_cases p es rf :
  log rf <> [] ->
  match append_entries p es rf with
  | (rf', Panic) => log rf' = log rf
  | (rf', Ret _) => log rf' <> []
  end.
Proof.
  intros Hne. unfold append_entries. destruct (Z.ltb_spec 0 (Z.of_nat (length es))) as [Hp|Hp]; [|done].
  destruct (go_idx_last es) as (x & Hx & _); [by intros ->|].
  rewrite (bind_run _ _ rf rf x) by (unfold lift; by rewrite Hx).
  destruct (GetLastLog_some rf Hne) as [e He]. rewrite (bind_run _ _ _ _ _ He).
  assert (Hat : forall i, match logAt i rf with (rf', _) => rf' = rf end).
  { intros i. unfold logAt, GetFirstLog. m_exec. destruct (go_idx (log rf) 0) as [d|]; [|done]. by destruct (go_idx (log rf) (i - le_Index d)). }
  assert (Hset : forall rf0, rf0 = rf ->
    match (first ← GetFirstLog; lg ← gets log; kept ← lift (go_to lg (p - le_Index first + 1)); modify (set_log (kept ++ es))) rf0 with
    | (rf', Panic) => log rf' = log rf | (rf', Ret _) => log rf' <> [] end).
  { intros rf0 ->. unfold GetFirstLog. m_exec. destruct (go_idx (log rf) 0) as [d|]; [|done]. simpl.
    destruct (go_to (log rf) (p - le_Index d + 1)); [|done]. simpl. intros [_ ->]%app_nil. cbn in Hp. lia. }
  set (present := if le_Index x <=? le_Index e then _ else _).
  assert (Hpres : present rf = (rf, Panic) \/ exists b, present rf = (rf, Ret b)).
  { unfold present. destruct (le_Index x <=? le_Index e); [|right; by exists false]. specialize (Hat (le_Index x)).
    unfold mbind, M_bind, m_bind. destruct (logAt (le_Index x) rf) as [rf1 [y|]]; subst rf1; [right; by eexists|by left]. }
  destruct Hpres as [Hpres|[[] Hpres]].
  - unfold mbind at 1, M_bind, m_bind. by rewrite Hpres.
  - by rewrite (bind_run _ _ _ _ _ Hpres).
  - rewrite (bind_run _ _ _ _ _ Hpres). apply (Hset rf eq_refl).
Qed.

Lemma panic_log_accept {A} p es c (x : A) :
  panic_log (append_entries p es;; persist;; follower_commit c;; mret x).
Proof.
  intros rf Hne rf'. unfold mbind at 1, M_bind, m_bind. pose proof (append_entries_cases p es rf Hne) as Ha.
  destruct (append_entries p es rf) as [rf1 [[]|]]; [|intros [= <-]; done].
  unfold mbind at 1, M_bind, m_bind. change (persist rf1) with (set_persister (Save (enc_state (currentTerm rf1) (voteFor rf1) (log rf1)) (snapshot rf1) (persister rf1)) rf1, Ret tt).
  cbn beta iota. set (rf2 := set_persister _ rf1). destruct (follower_commit_total c rf2) as [rf3 H3]; [done|].
  rewrite (bind_run _ _ _ _ _ H3). done.
Qed.

End Moves.

#[export] Hint Resolve log_same_AddCurrentTerm : keeps.
#[export] Hint Extern 1 (keeps log_same (modify _)) => apply keeps_modify; intros ?; reflexivity : keeps.
#[export] Hint Extern 1 (keeps log_same persist) => intros ?; reflexivity : keeps.

Section Panic.
Context {D : Type} `{LabGobOk D}.
Implicit Types rf : Raft D.

Lemma panic_log_RequestSendLog env a : panic_log (D:=D) (RequestSendLog env a).
Proof.
  intros rf Hne rf'. unfold RequestSendLog. unfold mbind at 1, M_bind, m_bind.
  destruct (RequestSendLog_body env a rf) as [rf1 [b|]] eqn:Hb.
  - m_exec. by destruct (currentTerm rf1 <=? sl_Term a).
  - intros [= <-]. revert rf Hne rf1 Hb. change (panic_log (RequestSendLog_body env a)).
    unfold RequestSendLog_body, adjust_args.
    repeat first [ apply panic_log_accept | apply panic_log_bind; [solve [keeps_auto]|intros ?]
                 | case_match | apply panic_log_keeps; solve [keeps_auto] ].
Qed.

Lemma log_same_advance : keeps log_same (advanceCommit (D:=D)).
Proof. intros rf. pose proof (stored_advanceCommit rf) as Hc. unfold core_eq, core in Hc. unfold log_same. congruence. Qed.
#[local] Hint Resolve log_same_advance : keeps.

Lemma exec_panic_log env op rf rf0 : wf rf -> exec env op rf = (rf0, Panic) -> log rf0 = log rf /\ votes_op op = false.
Proof.
  intros Hwf Hex. pose proof (log_ok_length _ (wf_log _ Hwf)) as Hlen.
  assert (Hsafe : op_pre rf op -> False).
  { intros Hpre. pose proof (wf_exec env op rf Hwf Hpre) as Hw. unfold wp in Hw. by rewrite Hex in Hw. }
  assert (Hne : log rf <> []) by (intros E; rewrite E in Hlen; simpl in Hlen; lia).
  destruct op; try (by destruct Hsafe); simpl in *; (split; [|done]).
  - pose proof (wp_ignore _ _ _ (wp_mono _ _ (fun _ _ => True) _ (wp_RequestInstallSnapShot env args rf (wf_log _ Hwf)) ltac:(done))) as Hw.
    unfold wp in Hw. by rewrite Hex in Hw.
  - unfold ignore, mbind, M_bind, m_bind in Hex. destruct (RequestSendLog env args rf) as [rf1 [r|]] eqn:Hr; [done|].
    injection Hex as <-. by apply (panic_log_RequestSendLog env args rf Hne).
  - revert rf0 Hex. apply (panic_log_keeps (ignore (sendSnapShot_begin peer))); [|done]. unfold ignore, sendSnapShot_begin. keeps_auto.
  - revert rf0 Hex. apply (panic_log_keeps (sendSnapShot_reply env peer ctx reply)); [|done]. unfold sendSnapShot_reply. keeps_auto.
  - revert rf0 Hex. apply (panic_log_keeps (sendLog_reply env peer args recode reply)); [|done].
    unfold sendLog_reply, onSendLogSuccess, backoff. keeps_auto.
  - revert rf0 Hex. apply (panic_log_keeps (ignore applyTicket_collect)); [|done]. unfold ignore, applyTicket_collect. keeps_auto.
Qed.

(** A restarted peer. *)
Lemma restart_spec rf rf0 rf' now :
  wf rf -> persisted rf -> stops_at rf rf0 ->
  Make (peers rf) (me rf) now (persister rf0) = (rf', Ret tt) ->
  log rf' = log rf /\ vote_kept rf rf' /\ currentTerm rf <= currentTerm rf' /\ state rf' = Follower.
Proof.
  intros Hwf Hp Hst Hmk. pose proof (restart_fwd _ _ _ _ Hp Hst Hmk) as ((_ & _ & Ht & _) & _ & Hs).
  apply Make_ret in Hmk as (Hrec & _). split_and!; try done.
  - destruct Hst as [->|(env & op & Hex)]; [unfold persisted in Hp; congruence|].
    destruct (exec_panic_log env op rf rf0 Hwf Hex) as [Hl _].
    destruct (exec_stored env op rf Hp) as [Hs0|(_ & Hs0 & _)]; rewrite Hex in Hs0; simpl in Hs0; unfold persisted in *; congruence.
  - destruct Hst as [->|(env & op & Hex)]; [right; unfold persisted in Hp; split; congruence|].
    destruct (exec_panic_log env op rf rf0 Hwf Hex) as [_ Hv].
    pose proof (exec_vote_kept env op Hv rf) as Hk. rewrite Hex in Hk. simpl in Hk. unfold vote_kept in *.
    destruct (exec_stored env op rf Hp) as [Hs0|(_ & Hs0 & Hs1 & Hs2)]; rewrite Hex in *; simpl in *; unfold persisted in *.
    + destruct Hk as [?|[? ?]]; [left|right; split]; congruence.
    + right. split; congruence.
Qed.

End Panic.
