(* ===== verification/RaftHandlers.v ===== *)
(** AppendEntries, InstallSnapshot, Snapshot and Start as changes of the log a peer
    stands for. *)
From Stdlib Require Import ZArith Lia.
From stdpp Require Import base list numbers.
From S2P Require Import Prelude RaftTypes RaftNode RaftVote RaftWf RaftSafe RaftLeader RaftSpec RaftCluster ElectionSafety LogTree RaftLogs RaftMoves.

#[local] Open Scope Z_scope.

Section Handlers.
Context {D : Type} `{LabGob D}.
Abbreviation Log := (list (LogEntry D)).
Implicit Types (rf : Raft D) (l m s : Log).

(** ** AppendEntries *)

Lemma sendlog_ret env a rf rf' r :
  log_ok (log rf) -> contig (sl_PrevLogIndex a + 1) (sl_Entries a) -> Forall (fun e => 0 <= le_Term e) (sl_Entries a) ->
  RequestSendLog env a rf = (rf', Ret r) ->
  exists rf1, sendlog_outcome env a rf (slr_Success r) rf1 /\ soft rf1 rf' /\ currentTerm rf' = currentTerm rf1
    /\ state rf' = state rf1.
Proof.
  intros Hl Hc Ht. destruct (wp_run _ _ _ (wp_RequestSendLog_body env a rf Hl Hc Ht)) as (rf1 & b & Hrun & Hout).
  unfold RequestSendLog, SetElectionTime. rewrite (bind_run _ _ _ _ _ Hrun). m_exec. intros Hr. exists rf1.
  destruct (currentTerm rf1 <=? sl_Term a); injection Hr as <- <-; (split; [done|]); by split_and!.
Qed.

Lemma ready_soft env a rf : soft rf (sendlog_ready env a rf).
Proof.
  unfold sendlog_ready. apply keeps_when; [apply _|]. apply soft_AddCurrentTerm.
Qed.

Lemma ready_log env a rf : log (sendlog_ready env a rf) = log rf.
Proof. apply (so_log _ _ (ready_soft env a rf)). Qed.

(** The arguments of AppendEntries are the log [m] of the sender above PrevLogIndex. *)
Record carries (a : SendLogArgs D) m (p : nat) : Prop :=
  { ca_ok : entries_ok m;
    ca_prev : sl_PrevLogIndex a = Z.of_nat p;
    ca_len : (p <= length m)%nat;
    ca_term : sl_PrevLogTerm a = term_at m p;
    ca_entries : sl_Entries a = drop p m }.

Lemma carries_contig a m p : carries a m p -> contig (sl_PrevLogIndex a + 1) (sl_Entries a).
Proof.
  intros [Hok Hp Hlen _ ->]. rewrite Hp. intros k e He. rewrite lookup_drop in He. rewrite (eo_index _ Hok _ _ He). lia.
Qed.

Lemma carries_terms a m p : carries a m p -> Forall (fun e => 0 <= le_Term e) (sl_Entries a).
Proof. intros [Hok _ _ _ ->]. apply Forall_drop, Hok. Qed.

Lemma carries_last a m p e : carries a m p -> list.last (sl_Entries a) = Some e -> le_Index e = Z.of_nat (length m).
Proof.
  intros [Hok _ _ _ ->]. rewrite last_lookup, lookup_drop, length_drop. intros He. rewrite (eo_index _ Hok _ _ He).
  apply lookup_lt_Some in He. lia.
Qed.

(** What AppendEntries does to a peer whose log is [l], compacted at [f]. *)
Inductive append_result (a : SendLogArgs D) m l f rf rf' : bool -> Prop :=
| AR_soft : soft rf rf' -> append_result a m l f rf rf' false
| AR_covered :
    soft rf rf' -> currentTerm rf <= sl_Term a -> currentTerm rf' = sl_Term a ->
    (length m <= f)%nat -> append_result a m l f rf rf' true
| AR_accept (p : nat) :
    currentTerm rf <= sl_Term a -> currentTerm rf' = sl_Term a ->
    (p <= length l)%nat -> (p <= length m)%nat ->
    ((f < p)%nat /\ term_at l p = term_at m p) \/ (p = f) \/ ((p < f)%nat /\ p = length m) ->
    log rf' = merge_log (compact l f) (Z.of_nat p) (drop p m) ->
    commitIndex rf' = commit_target (commitIndex rf) (sl_LeaderCommit a) (lastIndex (log rf')) ->
    matchIndex rf' = matchIndex rf ->
    state rf' <> Candidate ->
    (state rf' = Leader -> state rf = Leader /\ currentTerm rf' = currentTerm rf) ->
    append_result a m l f rf rf' true.

Lemma append_result_spec env a m p0 l f rf rf' r :
  entries_ok l -> (f <= length l)%nat -> log rf = compact l f -> carries a m p0 ->
  RequestSendLog env a rf = (rf', Ret r) -> append_result a m l f rf rf' (slr_Success r).
Proof.
  intros Hl Hf Hlog Hca Hrun. pose proof (carries_contig _ _ _ Hca) as Hc. pose proof (carries_terms _ _ _ Hca) as Ht.
  assert (Hok : log_ok (log rf)) by (rewrite Hlog; by apply compact_ok).
  destruct (sendlog_ret env a rf rf' r Hok Hc Ht Hrun) as (rf1 & Hout & Hsoft & Hterm & Hstate).
  pose proof (ready_soft env a rf) as Hready. destruct Hca as [Hmok Hp Hlen Hpt He].
  assert (Hlm : (p0 + length (sl_Entries a) = length m)%nat) by (rewrite He, length_drop; lia).
  revert Hout. generalize (slr_Success r). intros b Hout.
  destruct Hout as [|rf1 Hle -> _|rf1 Hle -> Hne Hcov|rf1 p t es e Hle -> Hadj|rf1 rf2 p t es Hle -> Hadj Hpl Hpt2 Hl2 Hct Hv Hst Hci Hfr].
  - by apply AR_soft.
  - apply AR_soft. by etrans.
  - apply AR_covered; [by etrans|done| |].
    + rewrite Hterm. unfold sendlog_ready. destruct (when_add_run (env 0%nat) (sl_Term a) rf) as (x & -> & _ & _ & Hx & _). simpl. lia.
    + rewrite Hlog, compact_first in Hcov. lia.
  - apply AR_soft. by etrans.
  - rewrite Hlog, compact_last in Hpl by done. rewrite Hlog, compact_first in Hpt2.
    assert (Hq : exists q : nat, p = Z.of_nat q /\ (q <= length m)%nat /\ es = drop q m
      /\ ((f < q)%nat /\ term_at l q = term_at m q \/ q = f \/ (q < f)%nat /\ q = length m)).
    { destruct Hadj as [(-> & -> & -> & Hes)|(Hlt & -> & Hes & Hne)]; rewrite ready_log, Hlog, compact_first in *.
      - exists p0. split_and!; try done. rewrite Hp in *. destruct (Nat.lt_trichotomy f p0) as [Hgt|[->|Hlt]]; [left|by right; left|right; right].
        + split; [done|]. rewrite compact_term in Hpt2 by lia. specialize (Hpt2 ltac:(lia)). rewrite <- Hpt. by injection Hpt2.
        + split; [done|]. destruct Hes as [Hes|?]; [|lia]. rewrite Hes in Hlm. simpl in Hlm. lia.
      - exists f. rewrite Hp in *. rewrite He, drop_drop in Hes.
        replace (p0 + Z.to_nat (Z.of_nat f - Z.of_nat p0))%nat with f in Hes by lia. subst es.
        split_and!; [done| |done|by right; left].
        destruct (Nat.le_gt_cases f (length m)); [done|]. destruct Hne. apply drop_ge. lia. }
    destruct Hq as (q & -> & Hqm & -> & Hcase). injection Hfr as _ _ _ Hmi _ _.
    eapply (AR_accept a m l f rf rf' q); try done.
    + congruence.
    + lia.
    + by rewrite (so_log _ _ Hsoft), Hl2, Hlog.
    + by rewrite (so_commit _ _ Hsoft), (so_log _ _ Hsoft), Hci.
    + by rewrite (so_match _ _ Hsoft).
    + rewrite Hstate, Hst. unfold is_state. by case_bool_decide.
    + rewrite Hstate, Hst. unfold is_state. case_bool_decide; [done|]. intros Hs.
      destruct (so_leader _ _ Hready Hs) as [? Htl]. split; [done|]. rewrite Hterm, Hct. 
      unfold sendlog_ready in Htl. destruct (when_add_run (env 0%nat) (sl_Term a) rf) as (x & Hx & _ & _ & Hx2 & _).
      rewrite Hx in Htl. simpl in Htl. lia.
Qed.

(** ** InstallSnapshot *)

(** All fields of [soft] but the log. *)
Record soft0 rf rf' : Prop :=
  { s0_commit : commitIndex rf' = commitIndex rf;
    s0_match : matchIndex rf' = matchIndex rf;
    s0_term : currentTerm rf <= currentTerm rf';
    s0_leader : state rf' = Leader -> state rf = Leader /\ currentTerm rf' = currentTerm rf;
    s0_cand : state rf' = Candidate -> state rf = Candidate /\ currentTerm rf' = currentTerm rf }.

#[export] Instance soft0_preorder : PreOrder soft0.
Proof.
  split.
  - intros rf. by split.
  - intros x y z [c1 m1 t1 s1 d1] [c2 m2 t2 s2 d2]. split; try congruence; [lia| |].
    + intros Hs. destruct (s2 Hs) as [Hs' ?]. destruct (s1 Hs') as [? ?]. split; [done|lia].
    + intros Hs. destruct (d2 Hs) as [Hs' ?]. destruct (d1 Hs') as [? ?]. split; [done|lia].
Qed.

Lemma soft_soft0 rf rf' : soft rf rf' -> soft0 rf rf'.
Proof. by intros []. Qed.

Lemma soft0_soft rf rf' : soft0 rf rf' -> log rf' = log rf -> soft rf rf'.
Proof. by intros [] ?. Qed.

Lemma soft0_Install env a : keeps soft0 (RequestInstallSnapShot (D:=D) env a).
Proof.
  assert (Hm : forall f : Raft D -> Raft D, (forall x, soft0 x (f x)) -> keeps soft0 (modify f)) by done.
  assert (Ha : forall tk t, keeps soft0 (AddCurrentTerm (D:=D) tk t)) by (intros tk t rf; apply soft_soft0, soft_AddCurrentTerm).
  assert (Hp : keeps soft0 (persist (D:=D))) by (by intros rf).
  unfold RequestInstallSnapShot, RequestInstallSnapShot_body, snapshot_covered, snapshot_conflicts, SetElectionTime.
  keeps_auto; first [apply Ha|apply Hp|apply Hm; by intros].
Qed.

(** A peer that installs a snapshot is no candidate. *)
Lemma install_not_candidate env a rf :
  log_ok (log rf) ->
  wp (RequestInstallSnapShot env a) (fun r rf' => snd r <> None -> state rf' <> Candidate) rf.
Proof.
  intros Hl. unfold RequestInstallSnapShot, RequestInstallSnapShot_body. wp_simp.
  destruct (Z.ltb_spec (rs_Term a) (currentTerm rf)); [unfold persist; wp_simp; done|].
  destruct (when_add_run (env 0%nat) (rs_Term a) rf) as (rf1 & Hrun & _ & Hlog & _).
  rewrite !wp_bind. eapply wp_intro; [exact Hrun|]. wp_simp.
  apply (wp_mono _ (fun _ rf' => log rf' = log rf /\ state rf' <> Candidate)).
  { apply wp_step_down; intros Hs; split; try done. intros E. rewrite E in Hs. done. }
  intros _ rf2 [Hl2 Hs2]. wp_simp. eapply wp_mono; [apply wp_covered; by rewrite Hl2|].
  intros b ? [-> Hb]. destruct b; [unfold persist; wp_simp; done|]. wp_simp.
  eapply wp_mono; [apply wp_conflicts; [by rewrite Hl2|intros Hx; by apply Hb in Hx]|].
  intros ? ? [-> ->]. unfold persist, SetElectionTime. wp_simp. done.
Qed.

Inductive install_result (a : RequestSnapShotArgs) rf rf' : option (Z * Z) -> Prop :=
| IR_stale : soft rf rf' -> rs_Term a < currentTerm rf -> install_result a rf rf' None
| IR_covered :
    soft rf rf' -> currentTerm rf <= rs_Term a -> currentTerm rf' = rs_Term a -> holds_snapshot rf a ->
    install_result a rf rf' None
| IR_installed :
    currentTerm rf <= rs_Term a -> currentTerm rf' = rs_Term a -> ~ holds_snapshot rf a ->
    soft0 rf rf' -> state rf' <> Candidate ->
    log rf' = [mkLogEntry (rs_LastIncludedTerm a) (rs_LastIncludedIndex a) None] ->
    install_result a rf rf' (Some (rs_LastIncludedIndex a, rs_LastIncludedTerm a)).

Lemma install_ret env a rf rf' r sp :
  log_ok (log rf) -> RequestInstallSnapShot env a rf = (rf', Ret (r, sp)) ->
  rsr_Term r = currentTerm rf /\ install_result a rf rf' sp.
Proof.
  intros Hl Hrun. pose proof (wp_RequestInstallSnapShot env a rf Hl) as Hw. pose proof (install_not_candidate env a rf Hl) as Hc.
  unfold wp in Hw, Hc. rewrite Hrun in Hw, Hc. simpl in *. destruct Hw as (Hr & Ht & _ & Hcase). split; [done|].
  pose proof (keeps_ret_run _ _ _ _ _ (soft0_Install env a) Hrun) as Hs.
  destruct sp as [[i t]|].
  - destruct Hcase as ([= -> ->] & Hle & Hno & Hlog & _). apply IR_installed; try done; [lia|by apply Hc].
  - destruct Hcase as (Hcase & Hlog & _). pose proof (soft0_soft _ _ Hs Hlog) as Hs'.
    destruct (Z.lt_ge_cases (rs_Term a) (currentTerm rf)); [by apply IR_stale|].
    apply IR_covered; [done|lia|lia|]. destruct Hcase; [lia|done].
Qed.

(** ** Snapshot *)

Lemma snapshot_ret index snap l f rf rf' :
  entries_ok l -> (f <= length l)%nat -> log rf = compact l f -> Snapshot index snap rf = (rf', Ret tt) ->
  commitIndex rf' = commitIndex rf /\ matchIndex rf' = matchIndex rf /\ currentTerm rf' = currentTerm rf
  /\ state rf' = state rf
  /\ (log rf' = compact l f
      \/ (Z.of_nat f < index <= Z.of_nat (length l) /\ log rf' = compact l (Z.to_nat index))).
Proof.
  intros Hl Hf Hlog Hrun. pose proof (compact_ok l f Hl Hf) as Hok. rewrite <- Hlog in Hok.
  set (Q := fun (_ : unit) rf' => commitIndex rf' = commitIndex rf /\ matchIndex rf' = matchIndex rf
    /\ currentTerm rf' = currentTerm rf /\ state rf' = state rf
    /\ (log rf' = compact l f
        \/ (Z.of_nat f < index <= Z.of_nat (length l) /\ log rf' = compact l (Z.to_nat index)))).
  enough (Hw : wp (Snapshot index snap) Q rf) by (unfold wp in Hw; rewrite Hrun in Hw; exact Hw).
  unfold Snapshot. wp_simp. apply wp_GetFirstLog; [done|]. intros first _ Hfi _. wp_simp.
  apply wp_GetLastLog; [done|]. intros last _ Hla. rewrite Hfi, Hla. rewrite Hlog, compact_first, compact_last by done.
  destruct (Z.leb_spec index (Z.of_nat f)); [wp_simp; unfold Q; split_and!; try done; by left|].
  destruct (Z.ltb_spec (Z.of_nat (length l)) index); [wp_simp; unfold Q; split_and!; try done; by left|].
  wp_simp. rewrite Hlog.
  assert (Hok' : log_ok (compact l f)) by (by apply compact_ok).
  destruct (entryAt_ok (compact l f) index Hok') as (e & Hat & Hk & Hx); [rewrite compact_first, compact_last by done; lia|].
  destruct (log_ok_lookup (compact l f) index Hok') as (e' & He' & Hk' & _); [rewrite compact_first, compact_last by done; lia|].
  rewrite compact_first in *. simplify_eq. rewrite He'. wp_simp.
  rewrite go_from_ok by (unfold compact; cbn [length]; rewrite length_drop; lia). unfold persist. wp_simp. unfold Q. simpl.
  split_and!; try done. right. split; [lia|].
  rewrite <- (compact_trim l f (Z.to_nat (le_Index e))) by lia. f_equal.
  - f_equal; [|lia]. pose proof (compact_term l f (Z.to_nat (le_Index e))) as Ht. rewrite Z2Nat.id in Ht by lia.
    rewrite Hat in Ht. simpl in Ht. specialize (Ht ltac:(lia)). by injection Ht.
  - f_equal. lia.
Qed.

(** ** Start *)

Lemma start_ret cmd l f rf rf' r :
  entries_ok l -> (f <= length l)%nat -> log rf = compact l f -> wf rf -> Start cmd rf = (rf', Ret r) ->
  wf rf' /\ (rf' = rf
    \/ (state rf = Leader
        /\ log rf' = compact (l ++ [mkLogEntry (currentTerm rf) (Z.of_nat (length l) + 1) (Some cmd)]) f
        /\ matchIndex rf' = <[Z.to_nat (me rf) := Z.of_nat (length l) + 1]> (matchIndex rf)
        /\ currentTerm rf' = currentTerm rf /\ state rf' = Leader /\ commitIndex rf' = commitIndex rf)).
Proof.
  intros Hl Hf Hlog Hwf Hrun. pose proof (wp_Start cmd rf Hwf) as Hw. unfold wp in Hw. rewrite Hrun in Hw.
  destruct Hw as [Hwf' Hw]. split; [done|]. destruct (is_state (state rf) Leader) eqn:Hs; [right|left; tauto].
  apply bool_decide_eq_true in Hs. destruct Hw as (_ & Hlg & Hmi & Hfr). injection Hfr as ? ? ? ? ?.
  rewrite Hlog in Hlg, Hmi. rewrite compact_last in Hlg, Hmi by done. rewrite compact_append in Hlg by done.
  split_and!; try done. congruence.
Qed.

End Handlers.
