(* ===== verification/SafetyInv.v ===== *)
(** The invariant of a cluster: every peer's log is a log of one tree, every message and
    every answer is backed by a log of the tree, and what peers take as committed is. *)
From Stdlib Require Import ZArith Lia.
From stdpp Require Import base list numbers relations.
From S2P Require Import Prelude RaftTypes RaftNode RaftVote RaftWf RaftSafe RaftLeader RaftSpec RaftCluster ElectionSafety LogTree RaftLogs RaftMoves RaftHandlers.

#[local] Open Scope Z_scope.

Section Invariant.
Context {D : Type} `{LabGobOk D}.
Abbreviation Log := (list (LogEntry D)).
Implicit Types (rf : Raft D) (c : Cluster (D:=D)) (l m b k s : Log) (h : History).

(** ** Auxiliary state *)

(** [g_full] and [g_known] are, per peer, its whole log and the prefix of it that is
    known to be committed; [g_cands] the log with which a peer stood in a term. *)
Record Ghost := mkGhost
  { g_full : list Log;
    g_known : list Log;
    g_tree : list Log;
    g_elected : list (Z * nat * Log);
    g_acks : list (nat * Log);
    g_cands : list (nat * Z * Log) }.

Implicit Types g : Ghost.

Section Cluster.
Context (n : nat).

Definition known g T k : Prop := known_by n (g_tree g) (g_acks g) T k.

(** [i], leader of [T], has had the log [m]. *)
Definition sent_by g T (i : nat) m : Prop :=
  m ∈ g_tree g /\ exists b, (T, i, b) ∈ g_elected g /\ b `prefix_of` m /\ (m = b \/ tip m = T).

(** ** Peers *)

Record leader_inv g (i : nat) rf l : Prop :=
  { li_sent : sent_by g (currentTerm rf) i l;
    li_all : forall m, m ∈ g_tree g -> tip m = currentTerm rf -> m `prefix_of` l;
    li_match : forall j x, matchIndex rf !! j = Some x -> x <= Z.of_nat (length l)
      /\ forall m, m `prefix_of` l -> tip m = currentTerm rf -> Z.of_nat (length m) <= x -> acked (g_acks g) j m }.

Record node_inv g (i : nat) rf l k (f : nat) : Prop :=
  { ni_wf : wf rf;
    ni_log : log rf = compact l f;
    ni_first : (f <= length k)%nat;
    ni_tree : l ∈ g_tree g;
    ni_tip : tip l <= currentTerm rf;
    ni_prefix : k `prefix_of` l;
    ni_known : known g (currentTerm rf) k;
    ni_commit : 0 <= commitIndex rf <= Z.of_nat (length k);
    ni_acks : forall m, acked (g_acks g) i m ->
                tip m <= currentTerm rf /\ (m `prefix_of` l \/ superseded (g_elected g) m (currentTerm rf));
    ni_leader : state rf = Leader -> leader_inv g i rf l;
    ni_cand : state rf = Candidate -> (i, currentTerm rf, l) ∈ g_cands g;
    ni_elected : forall T b, (T, i, b) ∈ g_elected g -> T <= currentTerm rf /\ (T = currentTerm rf -> state rf <> Candidate);
    ni_cands : forall T b, (i, T, b) ∈ g_cands g -> T <= currentTerm rf }.

(** ** Votes, messages, tasks *)

Definition vote_inv g (v : nat) (T x : Z) : Prop :=
  exists (ci : nat) b, x = Z.of_nat ci /\ (ci, T, b) ∈ g_cands g
    /\ forall m, acked (g_acks g) v m -> tip m < T -> not_newer m b \/ superseded (g_elected g) m T.

Definition log_call g (a : SendLogArgs D) (src : nat) m (p : nat) : Prop :=
  carries a m p /\ sent_by g (sl_Term a) src m
  /\ 0 <= sl_LeaderCommit a <= Z.of_nat (length m) /\ known g (sl_Term a) (take (Z.to_nat (sl_LeaderCommit a)) m).

Definition snap_call g (a : RequestSnapShotArgs) (ctx : SnapCtx) (src : nat) m s : Prop :=
  sent_by g (rs_Term a) src m /\ s `prefix_of` m
  /\ rs_LastIncludedIndex a = Z.of_nat (length s) /\ rs_LastIncludedTerm a = tip s /\ known g (rs_Term a) s
  /\ sc_leaderTerm ctx = rs_Term a /\ sc_lastLogIndex ctx = rs_LastIncludedIndex a.

Definition call_inv g (call : Call (D:=D)) : Prop :=
  match c_req call with
  | ReqVote a => exists b, (c_src call, rv_Term a, b) ∈ g_cands g
                   /\ rv_LastLogIndex a = Z.of_nat (length b) /\ rv_LastLogTerm a = tip b
  | ReqLog a _ => c_dst call <> c_src call /\ (c_dst call < n)%nat /\ exists m p, log_call g a (c_src call) m p
  | ReqSnap a ctx => c_dst call <> c_src call /\ (c_dst call < n)%nat /\ exists m s, snap_call g a ctx (c_src call) m s
  end.

(** A positive answer means that the receiver stored what was sent. *)
Definition resp_inv g (call : Call (D:=D)) (r : Response) : Prop :=
  match c_req call, r with
  | ReqLog a _, RepLog r =>
      exists m p, log_call g a (c_src call) m p
        /\ (slr_Success r = true -> tip m = sl_Term a -> acked (g_acks g) (c_dst call) m)
  | ReqSnap a ctx, RepSnap r =>
      exists m s, snap_call g a ctx (c_src call) m s
        /\ (rsr_Term r <= rs_Term a -> tip s = rs_Term a -> acked (g_acks g) (c_dst call) s)
  | _, _ => True
  end.

Definition task_inv g (t : Task (D:=D)) : Prop :=
  match t with
  | TSendSnapShot i _ j => j <> i /\ (j < n)%nat
  | TInstalled i _ idx => exists k, g_known g !! i = Some k /\ idx <= Z.of_nat (length k)
  | TApply _ _ _ => True
  end.

Definition voted_in h (T : Z) (i v : nat) : Prop := (v, T, Z.of_nat i) ∈ h.

Record ghost_ok h g : Prop :=
  { go_tree : tree_ok (g_tree g);
    go_lead : leaders_ok (g_tree g) (g_elected g);
    go_by : forall T i b, (T, i, b) ∈ g_elected g -> elected_by n (g_elected g) (g_acks g) (voted_in h T i) T b;
    go_acks : forall r m, (r, m) ∈ g_acks g -> m ∈ g_tree g /\ m <> [];
    go_cands : forall i T b, (i, T, b) ∈ g_cands g -> b ∈ g_tree g /\ tip b < T;
    go_cand1 : forall i T b b', (i, T, b) ∈ g_cands g -> (i, T, b') ∈ g_cands g -> b = b' }.

Definition node_at g (i : nat) rf : Prop :=
  exists l k f, g_full g !! i = Some l /\ g_known g !! i = Some k /\ node_inv g i rf l k f.

Record GI c h g : Prop :=
  { gi_ghost : ghost_ok h g;
    gi_nodes : forall i rf, nodes c !! i = Some rf -> node_at g i rf;
    gi_votes : forall v T x, (v, T, x) ∈ h -> vote_inv g v T x;
    gi_calls : forall call, call ∈ requests c \/ call ∈ (responses c).*1 -> call_inv g call;
    gi_resps : forall call r, (call, Some r) ∈ responses c -> resp_inv g call r;
    gi_elections : forall e, e ∈ elections c -> exists b, (el_src e, rv_Term (el_args e), b) ∈ g_cands g;
    gi_tasks : forall t, t ∈ tasks c -> task_inv g t }.

(** ** Growth *)

Record grow g g' (i : nat) (T : Z) l' k' : Prop :=
  { gr_full : g_full g' = <[i := l']> (g_full g);
    gr_known : g_known g' = <[i := k']> (g_known g);
    gr_longer : forall k, g_known g !! i = Some k -> (length k <= length k')%nat;
    gr_tree : g_tree g ⊆ g_tree g';
    gr_node : forall m, m ∈ g_tree g' -> m ∈ g_tree g \/ (tip m = T /\ exists b, (T, i, b) ∈ g_elected g');
    gr_elected : g_elected g ⊆ g_elected g';
    gr_leader : forall T' j b, (T', j, b) ∈ g_elected g' -> (T', j, b) ∈ g_elected g \/ j = i;
    gr_cands : g_cands g ⊆ g_cands g';
    gr_cand : forall j T' b, (j, T', b) ∈ g_cands g' -> (j, T', b) ∈ g_cands g \/ j = i;
    gr_acks : g_acks g ⊆ g_acks g';
    gr_ack : ack_only (g_acks g) (g_acks g') i T }.

(** What never shrinks. *)
Record extends g g' : Prop :=
  { ex_tree : g_tree g ⊆ g_tree g';
    ex_elected : g_elected g ⊆ g_elected g';
    ex_acks : g_acks g ⊆ g_acks g' }.

#[export] Instance extends_preorder : PreOrder extends.
Proof. split; [by intros g|]. intros g1 g2 g3 [] []. split; by etrans. Qed.

Lemma grow_extends g g' i T l' k' : grow g g' i T l' k' -> extends g g'.
Proof. by intros []. Qed.

Section Grow.
Context (g g' : Ghost) (i : nat) (T : Z) (l' k' : Log) (Hg : grow g g' i T l' k').

Lemma known_grow T' k : known g T' k -> known g' T' k.
Proof. apply known_by_mono; apply Hg. Qed.

Lemma sent_by_grow T' j m : sent_by g T' j m -> sent_by g' T' j m.
Proof.
  intros (Hm & b & Hb & Hp & Hc). split; [by apply (gr_tree _ _ _ _ _ _ Hg)|]. exists b. split; [|done].
  by apply (gr_elected _ _ _ _ _ _ Hg).
Qed.

Lemma acked_grow j m : acked (g_acks g) j m -> acked (g_acks g') j m.
Proof. apply acked_mono, Hg. Qed.

Lemma log_call_grow a src m p : log_call g a src m p -> log_call g' a src m p.
Proof. intros (H1 & H2 & H3 & H4). split_and!; [done|by apply sent_by_grow|lia|lia|by apply known_grow]. Qed.

Lemma snap_call_grow a ctx src m s : snap_call g a ctx src m s -> snap_call g' a ctx src m s.
Proof. intros (H1 & H2 & H3 & H4 & H5 & H6). split_and!; try done; [by apply sent_by_grow|by apply known_grow|tauto|tauto]. Qed.

Lemma call_grow call : call_inv g call -> call_inv g' call.
Proof.
  unfold call_inv. destruct (c_req call).
  - intros (b & Hb & ?). exists b. split; [|done]. by apply (gr_cands _ _ _ _ _ _ Hg).
  - intros (? & ? & m & p & Hc). split_and!; [done|done|]. exists m, p. by apply log_call_grow.
  - intros (? & ? & m & s & Hc). split_and!; [done|done|]. exists m, s. by apply snap_call_grow.
Qed.

Lemma resp_grow call r : resp_inv g call r -> resp_inv g' call r.
Proof.
  unfold resp_inv. destruct (c_req call), r; try done.
  - intros (m & p & Hc & Ha). exists m, p. split; [by apply log_call_grow|]. intros. by apply acked_grow, Ha.
  - intros (m & s & Hc & Ha). exists m, s. split; [by apply snap_call_grow|]. intros. by apply acked_grow, Ha.
Qed.

Lemma task_grow t : task_inv g t -> task_inv g' t.
Proof.
  destruct t as [|j inc idx|]; try done. intros (k & Hk & Hle). simpl. rewrite (gr_known _ _ _ _ _ _ Hg).
  destruct (decide (j = i)) as [->|Hne].
  - exists k'. rewrite list_lookup_insert_eq by (by eapply lookup_lt_Some). split; [done|].
    pose proof (gr_longer _ _ _ _ _ _ Hg k Hk). lia.
  - exists k. by rewrite list_lookup_insert_ne by done.
Qed.

(** The other peers. *)
Lemma node_grow j rf l k f :
  leaders_ok (g_tree g') (g_elected g') -> j <> i -> node_inv g j rf l k f -> node_inv g' j rf l k f.
Proof.
  intros Hlead Hne [H1 H2 H3 H4 H5 H6 H7 H8 H9 H10 H11 H12 H13]. split; try done.
  - by apply (gr_tree _ _ _ _ _ _ Hg).
  - by apply known_grow.
  - intros m Ha. destruct (gr_ack _ _ _ _ _ _ Hg j m Ha) as [Ho|[-> _]]; [|done]. destruct (H9 m Ho) as [? [?|?]]; (split; [done|]); [by left|].
    right. eapply superseded_mono; [apply (gr_elected _ _ _ _ _ _ Hg)|reflexivity|done].
  - intros Hs. destruct (H10 Hs) as [L1 L2 L3]. split.
    + by apply sent_by_grow.
    + intros m Hm Ht. destruct (gr_node _ _ _ _ _ _ Hg m Hm) as [Ho|[HT [b Hb]]]; [by apply L2|].
      destruct (sent_by_grow _ _ _ L1) as (_ & b' & Hb' & _). rewrite <- Ht, HT in Hb'.
      by destruct (ld_unique _ _ Hlead _ _ _ _ _ Hb Hb') as [-> _].
    + intros j' x Hx. destruct (L3 j' x Hx) as [? Hm]. split; [done|]. intros. by apply acked_grow, Hm.
  - intros Hs. by apply (gr_cands _ _ _ _ _ _ Hg), H11.
  - intros T' b Hb. destruct (gr_leader _ _ _ _ _ _ Hg _ _ _ Hb) as [Ho| ->]; [by eapply H12|done].
  - intros T' b Hb. destruct (gr_cand _ _ _ _ _ _ Hg _ _ _ Hb) as [Ho| ->]; [by eapply H13|done].
Qed.

End Grow.
End Cluster.
End Invariant.
