(* ===== verification/SafetySteps.v ===== *)
(** The invariant of the cluster is kept when one peer moves: what has to be shown of
    the peer that moves and of the messages it sends. *)
From Stdlib Require Import ZArith Lia.
From stdpp Require Import base list numbers relations.
From S2P Require Import Prelude RaftTypes RaftNode RaftVote RaftWf RaftSafe RaftLeader RaftSpec RaftCluster ElectionSafety LogTree RaftLogs RaftMoves RaftHandlers SafetyInv.

#[local] Open Scope Z_scope.

Section Steps.
Context {D : Type} `{LabGobOk D}.
Abbreviation Log := (list (LogEntry D)).
Implicit Types (rf : Raft D) (c : Cluster (D:=D)) (l m b k s : Log) (h : History) (g : Ghost (D:=D)).

(** ** Traffic *)

Definition has_call c (call : Call (D:=D)) : Prop := call ∈ requests c \/ call ∈ (responses c).*1.

(** What is new in transit has been justified. *)
Record traffic (n : nat) c c' g' : Prop :=
  { tf_calls : forall call, has_call c' call -> has_call c call \/ call_inv n g' call;
    tf_resps : forall call r, (call, Some r) ∈ responses c' -> (call, Some r) ∈ responses c \/ resp_inv n g' call r;
    tf_elections : forall e, e ∈ elections c' ->
      (exists e0, e0 ∈ elections c /\ el_src e0 = el_src e /\ el_args e0 = el_args e)
      \/ (exists b, (el_src e, rv_Term (el_args e), b) ∈ g_cands g');
    tf_tasks : forall t, t ∈ tasks c' -> t ∈ tasks c \/ task_inv n g' t }.

(** ** One peer moves *)

Record advance n c h g c' g' (i : nat) rf rf' l' k' (f' : nat) : Prop :=
  { ad_lookup : nodes c !! i = Some rf;
    ad_nodes : nodes c' = <[i := rf']> (nodes c);
    ad_term : currentTerm rf <= currentTerm rf';
    ad_grow : grow g g' i (currentTerm rf') l' k';
    ad_tree : tree_ok (g_tree g');
    ad_lead : leaders_ok (g_tree g') (g_elected g');
    ad_by : forall T j b, (T, j, b) ∈ g_elected g' -> (T, j, b) ∈ g_elected g
              \/ elected_by n (g_elected g') (g_acks g') (voted_in (held_votes (nodes c') ++ h) T j) T b;
    ad_acks : forall r m, (r, m) ∈ g_acks g' -> (r, m) ∈ g_acks g \/ (m ∈ g_tree g' /\ m <> []);
    ad_cands : forall j T b, (j, T, b) ∈ g_cands g' ->
      (j, T, b) ∈ g_cands g \/ (j = i /\ b = l' /\ b ∈ g_tree g' /\ tip b < T /\ currentTerm rf < T);
    ad_node : node_inv n g' i rf' l' k' f';
    ad_vote : vote_kept rf rf' \/ vote_inv g' i (currentTerm rf') (voteFor rf');
    ad_traffic : traffic n c c' g' }.

Section Advance.
Context (n : nat) c h g (HI : Inv n c h) (HG : GI n c h g).

Lemma voter_term v T x rf : (v, T, x) ∈ h -> nodes c !! v = Some rf -> T <= currentTerm rf.
Proof.
  intros Hv Hi. destruct (vo_past _ _ (inv_votes _ _ _ HI) _ _ _ Hv) as (rf0 & Hi0 & Hc). simplify_eq. lia.
Qed.

Lemma vote_inv_grow g' i rf T0 l' k' v T x :
  nodes c !! i = Some rf -> currentTerm rf <= T0 -> grow g g' i T0 l' k' ->
  (v, T, x) ∈ h -> vote_inv g v T x -> vote_inv g' v T x.
Proof.
  intros Hi HT Hg Hin (ci & b & -> & Hc & Ha). exists ci, b. split_and!; [done|by apply (gr_cands _ _ _ _ _ _ Hg)|].
  intros m Hm Ht. destruct (gr_ack _ _ _ _ _ _ Hg v m Hm) as [Ho|[-> Hm']].
  - destruct (Ha m Ho Ht) as [?|?]; [by left|right]. eapply superseded_mono; [apply (gr_elected _ _ _ _ _ _ Hg)|reflexivity|done].
  - pose proof (voter_term _ _ _ _ Hin Hi). lia.
Qed.

Lemma advance_votes c' g' i rf rf' l' k' f' v T x :
  advance n c h g c' g' i rf rf' l' k' f' -> (v, T, x) ∈ held_votes (nodes c') ++ h -> vote_inv g' v T x.
Proof.
  intros [Hi Hn Ht Hg _ _ _ _ _ _ Hvote _] Hin.
  assert (Hold : (v, T, x) ∈ h -> vote_inv g' v T x).
  { intros Hh. eapply vote_inv_grow; [exact Hi|exact Ht|exact Hg|exact Hh|]. by apply (gi_votes _ _ _ _ HG). }
  apply elem_of_app in Hin as [Hin|Hin]; [|by apply Hold].
  apply elem_of_held in Hin as (rfv & Hv & Hne & <- & <-). rewrite Hn in Hv.
  apply list_lookup_insert_Some in Hv as [(-> & -> & _)|[Hji Hv]].
  - destruct Hvote as [[?|[Hvf Hct]]|?]; [done| |done]. rewrite Hvf, Hct in *.
    apply Hold. by apply (vo_held _ _ (inv_votes _ _ _ HI)).
  - apply Hold. by apply (vo_held _ _ (inv_votes _ _ _ HI)).
Qed.

Lemma advance_ghost c' g' i rf rf' l' k' f' :
  advance n c h g c' g' i rf rf' l' k' f' -> ghost_ok n (held_votes (nodes c') ++ h) g'.
Proof.
  intros [Hi Hn Ht Hg Htree Hlead Hby Hacks Hcands Hnode _ _]. pose proof (gi_ghost _ _ _ _ HG) as HO. split; try done.
  - intros T j b Hb. destruct (Hby _ _ _ Hb) as [Ho|?]; [|done].
    eapply elected_by_mono; [apply (gr_elected _ _ _ _ _ _ Hg)|apply (gr_ack _ _ _ _ _ _ Hg)| | |by apply (go_by _ _ _ HO)].
    + intros v Hv. unfold voted_in. apply elem_of_app. by right.
    + intros Hv. pose proof (voter_term _ _ _ _ Hv Hi). lia.
  - intros r m Hm. destruct (Hacks _ _ Hm) as [Ho|?]; [|done]. destruct (go_acks _ _ _ HO _ _ Ho). split; [|done].
    by apply (gr_tree _ _ _ _ _ _ Hg).
  - intros j T b Hb. destruct (Hcands _ _ _ Hb) as [Ho|(_ & _ & ? & ? & _)]; [|done].
    destruct (go_cands _ _ _ HO _ _ _ Ho). split; [|done]. by apply (gr_tree _ _ _ _ _ _ Hg).
  - assert (Hnew : forall T b, (i, T, b) ∈ g_cands g -> T <= currentTerm rf).
    { intros T b Hb. destruct (gi_nodes _ _ _ _ HG _ _ Hi) as (l & k & f & _ & _ & HN). by eapply (ni_cands _ _ _ _ _ _ _ HN). }
    intros j T b b' H1 H2.
    destruct (Hcands _ _ _ H1) as [O1|(-> & -> & _ & _ & T1)]; destruct (Hcands _ _ _ H2) as [O2|(E & -> & _ & _ & T2)].
    + by eapply (go_cand1 _ _ _ HO).
    + subst j. specialize (Hnew _ _ O1). lia.
    + specialize (Hnew _ _ O2). lia.
    + done.
Qed.

Lemma advance_inv c' g' i rf rf' l' k' f' :
  advance n c h g c' g' i rf rf' l' k' f' -> GI n c' (held_votes (nodes c') ++ h) g'.
Proof.
  intros Ha. pose proof (advance_ghost _ _ _ _ _ _ _ _ Ha) as HO. pose proof (fun v T x => advance_votes _ _ _ _ _ _ _ _ v T x Ha) as Hvotes.
  destruct Ha as [Hi Hn Ht Hg Htree Hlead _ _ _ Hnode _ [Hcalls Hresps Hels Htasks]].
  destruct (gi_nodes _ _ _ _ HG _ _ Hi) as (l & k & f & Hl & Hk & _).
  split; try done.
  - intros j rfj Hj. rewrite Hn in Hj. apply list_lookup_insert_Some in Hj as [(<- & <- & _)|[Hji Hj]].
    + exists l', k', f'. rewrite (gr_full _ _ _ _ _ _ Hg), (gr_known _ _ _ _ _ _ Hg).
      rewrite !list_lookup_insert_eq by (by eapply lookup_lt_Some). done.
    + destruct (gi_nodes _ _ _ _ HG _ _ Hj) as (lj & kj & fj & Hlj & Hkj & HNj). exists lj, kj, fj.
      rewrite (gr_full _ _ _ _ _ _ Hg), (gr_known _ _ _ _ _ _ Hg).
      rewrite !list_lookup_insert_ne by done. split_and!; [done|done|]. by eapply node_grow.
  - intros call Hc. destruct (Hcalls _ Hc) as [Ho|?]; [|done]. eapply call_grow; [exact Hg|]. by apply (gi_calls _ _ _ _ HG).
  - intros call r Hc. destruct (Hresps _ _ Hc) as [Ho|?]; [|done]. eapply resp_grow; [exact Hg|]. by apply (gi_resps _ _ _ _ HG).
  - intros e He. destruct (Hels _ He) as [(e0 & Ho & Hs & Ha)|?]; [|done]. rewrite <- Hs, <- Ha.
    destruct (gi_elections _ _ _ _ HG _ Ho) as [b Hb]. exists b. by apply (gr_cands _ _ _ _ _ _ Hg).
  - intros t Htk. destruct (Htasks _ Htk) as [Ho|?]; [|done]. eapply task_grow; [exact Hg|]. by apply (gi_tasks _ _ _ _ HG).
Qed.

(** The invariant holds after a step, of auxiliary state that has only grown. *)
Definition evolves c' : Prop := exists g', GI n c' (held_votes (nodes c') ++ h) g' /\ extends g g'.

Lemma advance_evolves c' g' i rf rf' l' k' f' : advance n c h g c' g' i rf rf' l' k' f' -> evolves c'.
Proof. intros Ha. exists g'. split; [by eapply advance_inv|]. by eapply grow_extends, (ad_grow _ _ _ _ _ _ _ _ _ _ _ _ Ha). Qed.

(** No peer moves. *)
Lemma still_evolves c' : nodes c' = nodes c -> traffic n c c' g -> evolves c'.
Proof.
  intros Hn [Hcalls Hresps Hels Htasks]. exists g. split; [|reflexivity]. rewrite Hn.
  assert (Hin : forall v T x, (v, T, x) ∈ held_votes (nodes c) ++ h -> (v, T, x) ∈ h).
  { intros v T x [Hv|?]%elem_of_app; [|done]. apply elem_of_held in Hv as (rf & Hv & Hne & <- & <-).
    by apply (vo_held _ _ (inv_votes _ _ _ HI)). }
  split.
  - destruct (gi_ghost _ _ _ _ HG) as [H1 H2 H3 H4 H5 H6]. split; try done. intros T j b Hb.
    destruct (H3 _ _ _ Hb) as (Q & HQ & Hv). exists Q. split; [done|]. intros v Hq. destruct (Hv v Hq) as [? ?].
    split; [|done]. unfold voted_in in *. apply elem_of_app. by right.
  - rewrite Hn. apply (gi_nodes _ _ _ _ HG).
  - intros v T x Hv. by apply (gi_votes _ _ _ _ HG), Hin.
  - intros call Hc. destruct (Hcalls _ Hc) as [Ho|?]; [|done]. by apply (gi_calls _ _ _ _ HG).
  - intros call r Hc. destruct (Hresps _ _ Hc) as [Ho|?]; [|done]. by apply (gi_resps _ _ _ _ HG).
  - intros e He. destruct (Hels _ He) as [(e0 & Ho & Hs & Ha)|?]; [|done]. rewrite <- Hs, <- Ha. by apply (gi_elections _ _ _ _ HG).
  - intros t Htk. destruct (Htasks _ Htk) as [Ho|?]; [|done]. by apply (gi_tasks _ _ _ _ HG).
Qed.

End Advance.

(** ** Traffic of the steps *)

Lemma tr_same n c c' g :
  requests c' = requests c -> responses c' = responses c -> elections c' ⊆ elections c -> tasks c' ⊆ tasks c ->
  traffic n c c' g.
Proof.
  intros H1 H2 H3 H4. split; unfold has_call; rewrite ?H1, ?H2; try (by intros; left); intros x Hx.
  - left. exists x. split_and!; [by apply H3|done|done].
  - left. by apply H4.
Qed.

(** The handler of a request has run, or the request was lost. *)
Lemma tr_answer n c c' g q1 call q2 r :
  requests c = q1 ++ call :: q2 -> requests c' = q1 ++ q2 -> responses c' = (call, r) :: responses c ->
  elections c' = elections c -> (forall t, t ∈ tasks c' -> t ∈ tasks c \/ task_inv n g t) ->
  (forall x, r = Some x -> resp_inv n g call x) -> traffic n c c' g.
Proof.
  intros H1 H2 H3 H4 Ht Hr. split; unfold has_call; rewrite ?H1, ?H2, ?H3, ?H4; try done.
  - intros x. simpl. rewrite !elem_of_app, !elem_of_cons. tauto.
  - intros x y [[= -> <-]|?]%elem_of_cons; [right; by apply Hr|by left].
  - intros e He. left. by exists e.
Qed.

(** A call fails while its request is in transit. *)
Lemma tr_detach n c c' g q1 call q2 :
  requests c = q1 ++ call :: q2 -> requests c' = q1 ++ detached call :: q2 -> responses c' = (call, None) :: responses c ->
  elections c' = elections c -> tasks c' = tasks c -> call_inv n g call -> traffic n c c' g.
Proof.
  intros H1 H2 H3 H4 H5 Hc. split; unfold has_call; rewrite ?H1, ?H2, ?H3, ?H4, ?H5; try (by intros; left).
  - intros x. simpl. rewrite !elem_of_app, !elem_of_cons. intros [[?|[->|?]]|[->|?]]; tauto.
  - intros x y [[=]|?]%elem_of_cons. by left.
  - intros e He. left. by exists e.
Qed.

(** A response is consumed, or its content is lost. *)
Lemma tr_consume n c c' g q1 call r q2 :
  responses c = q1 ++ (call, r) :: q2 -> (responses c' = q1 ++ q2 \/ responses c' = q1 ++ (call, None) :: q2) ->
  requests c' = requests c -> tasks c' = tasks c ->
  (forall e, e ∈ elections c' -> exists e0, e0 ∈ elections c /\ el_src e0 = el_src e /\ el_args e0 = el_args e) ->
  traffic n c c' g.
Proof.
  intros H1 H2 H3 H4 He. split; unfold has_call; rewrite ?H3, ?H4; try (by intros; left).
  - intros x. rewrite H1. destruct H2 as [-> | ->]; rewrite !fmap_app, ?fmap_cons, !elem_of_app, ?elem_of_cons; simpl; tauto.
  - intros x y. rewrite H1. destruct H2 as [-> | ->]; rewrite !elem_of_app, ?elem_of_cons; [tauto|].
    intros [?|[[=]|?]]; tauto.
  - intros e Hin. left. by apply He.
Qed.

Lemma tr_send n c c' g calls :
  requests c' = calls ++ requests c -> responses c' = responses c -> elections c' ⊆ elections c ->
  (forall t, t ∈ tasks c' -> t ∈ tasks c \/ task_inv n g t) -> (forall call, call ∈ calls -> call_inv n g call) ->
  traffic n c c' g.
Proof.
  intros H1 H2 H3 Ht Hc. split; unfold has_call; rewrite ?H1, ?H2; try done.
  - intros x. rewrite elem_of_app. intros [[?|?]|?]; [right; by apply Hc|tauto|tauto].
  - intros. by left.
  - intros e He. left. exists e. split_and!; [by apply H3|done|done].
Qed.

End Steps.
