(* ===== verification/SafetyLocal.v ===== *)
(** Steps that change no log: what a peer does to its role, its arrays, the length of
    its compacted prefix; and the votes. *)
From Stdlib Require Import ZArith Lia.
From stdpp Require Import base list numbers relations.
From S2P Require Import Prelude RaftTypes RaftNode RaftVote RaftWf RaftSafe RaftLeader RaftSpec RaftCluster ElectionSafety LogTree RaftLogs RaftMoves RaftHandlers SafetyInv SafetySteps.

#[local] Open Scope Z_scope.

Section Local.
Context {D : Type} `{LabGobOk D}.
Abbreviation Log := (list (LogEntry D)).
Implicit Types (rf : Raft D) (c : Cluster (D:=D)) (l m b k s : Log) (h : History) (g : Ghost (D:=D)).

Lemma wp_done {A} (op : M (Raft D) A) Q rf rf' a : wp op Q rf -> op rf = (rf', Ret a) -> Q a rf'.
Proof. unfold wp. intros Hw Hr. by rewrite Hr in Hw. Qed.

Lemma wf_run {A} (op : M (Raft D) A) rf rf' a : wp op (fun _ x => wf x) rf -> op rf = (rf', Ret a) -> wf rf'.
Proof. intros Hw Hr. exact (wp_done op (fun _ x => wf x) _ _ _ Hw Hr). Qed.

(** ** New facts about one peer *)

Definition upd g (i : nat) l k (acks : list (nat * Log)) : Ghost :=
  mkGhost (<[i := l]> (g_full g)) (<[i := k]> (g_known g)) (g_tree g) (g_elected g) (acks ++ g_acks g) (g_cands g).

(** Acknowledgements by peer [i] of logs of term [T]. *)
Definition acks_of g (i : nat) (T : Z) (acks : list (nat * Log)) : Prop :=
  forall r m, (r, m) ∈ acks -> r = i /\ m ∈ g_tree g /\ m <> [] /\ tip m = T.

Lemma acks_none g i T : acks_of g i T [].
Proof. intros r m Hin. by apply elem_of_nil in Hin. Qed.

Lemma acks_one g i m : m ∈ g_tree g -> m <> [] -> acks_of g i (tip m) [(i, m)].
Proof. intros Hm Hne r x [= -> ->]%list_elem_of_singleton. done. Qed.

Lemma grow_upd g i T l' k' k acks :
  g_known g !! i = Some k -> (length k <= length k')%nat -> acks_of g i T acks ->
  grow g (upd g i l' k' acks) i T l' k'.
Proof.
  intros Hk Hlen Ha. split; simpl; try done; try (by left).
  - intros k0 Hk0. by simplify_eq.
  - intros x Hx. apply elem_of_app. by right.
  - intros v l (Hne & m & [Hm|Hm]%elem_of_app & Hp & Ht).
    + destruct (Ha _ _ Hm) as (-> & _ & _ & <-). right. by rewrite Ht.
    + left. split; [done|]. by exists m.
Qed.

Lemma grow_same g i T l k : g_known g !! i = Some k -> grow g (upd g i l k []) i T l k.
Proof. intros Hk. by eapply grow_upd; [|reflexivity|apply acks_none]. Qed.

Lemma node_same n g i rf l k f l' k' : node_inv n g i rf l k f -> node_inv n (upd g i l' k' []) i rf l k f.
Proof.
  intros [H1 H2 H3 H4 H5 H6 H7 H8 H9 H10 H11 H12 H13]. split; try done.
  intros Hs. destruct (H10 Hs) as [? ? ?]. by split.
Qed.

(** A peer that keeps its log. *)
Lemma node_keep n g i rf rf' l k f f' :
  node_inv n g i rf l k f -> wf rf' -> log rf' = compact l f' -> (f' <= length k)%nat ->
  0 <= commitIndex rf' <= Z.of_nat (length k) -> currentTerm rf <= currentTerm rf' ->
  (state rf' = Leader -> state rf = Leader /\ currentTerm rf' = currentTerm rf /\ matchIndex rf' = matchIndex rf) ->
  (state rf' = Candidate -> state rf = Candidate /\ currentTerm rf' = currentTerm rf) ->
  node_inv n g i rf' l k f'.
Proof.
  intros [H1 H2 H3 H4 H5 H6 H7 H8 H9 H10 H11 H12 H13] Hwf Hlog Hf Hc Ht Hlead Hcand. split; try done.
  - lia.
  - by eapply known_by_later.
  - intros m Hm. destruct (H9 m Hm) as [? Hcase]. split; [lia|]. destruct Hcase as [?|?]; [by left|right].
    eapply superseded_mono; [reflexivity|exact Ht|done].
  - intros Hs. destruct (Hlead Hs) as (Hs' & Et & Em). destruct (H10 Hs') as [L1 L2 L3].
    split; rewrite ?Et, ?Em; done.
  - intros Hs. destruct (Hcand Hs) as [Hs' ->]. by apply H11.
  - intros T b Hb. destruct (H12 T b Hb) as [? Hn]. split; [lia|]. intros -> Hs. destruct (Hcand Hs) as [Hs' Et].
    by apply Hn.
  - intros T b Hb. specialize (H13 T b Hb). lia.
Qed.

Lemma node_soft n g i rf rf' l k f :
  node_inv n g i rf l k f -> soft rf rf' -> wf rf' -> node_inv n g i rf' l k f.
Proof.
  intros HN [H1 H2 H3 H4 H5 H6] Hwf. eapply node_keep; [exact HN|done| |apply HN| |done| |done].
  - rewrite H1. apply HN.
  - rewrite H2. apply HN.
  - intros Hs. destruct (H5 Hs). done.
Qed.

Section Steps.
Context (n : nat) c h g (HI : Inv n c h) (HG : GI n c h g).
Abbreviation evolves := (evolves n h g).

Lemma upd_evolves c' i rf rf' k l' k' f' acks :
  let g' := upd g i l' k' acks in
  nodes c !! i = Some rf -> nodes c' = <[i := rf']> (nodes c) -> currentTerm rf <= currentTerm rf' ->
  acks_of g i (currentTerm rf') acks -> g_known g !! i = Some k -> (length k <= length k')%nat ->
  node_inv n g' i rf' l' k' f' -> (vote_kept rf rf' \/ vote_inv g' i (currentTerm rf') (voteFor rf')) ->
  traffic n c c' g' -> evolves c'.
Proof.
  intros g' Hi Hn Ht Ha Hk Hlen HN Hv Htr. destruct (gi_ghost _ _ _ _ HG) as [G1 G2 G3 G4 G5 G6].
  eapply (advance_evolves _ _ _ _ HI HG c' g' i rf rf' l' k' f'). split; try done.
  - by eapply grow_upd.
  - intros T j b Hb. by left.
  - intros r m [Hm|Hm]%elem_of_app; [right|by left]. destruct (Ha _ _ Hm) as (_ & ? & ? & _). done.
  - intros. by left.
Qed.

Lemma upd_evolves_vote c' i rf rf' l k f f' :
  nodes c !! i = Some rf -> nodes c' = <[i := rf']> (nodes c) ->
  g_full g !! i = Some l -> g_known g !! i = Some k -> node_inv n g i rf l k f ->
  currentTerm rf <= currentTerm rf' -> node_inv n g i rf' l k f' ->
  (vote_kept rf rf' \/ vote_inv g i (currentTerm rf') (voteFor rf')) ->
  traffic n c c' (upd g i l k []) -> evolves c'.
Proof.
  intros Hi Hn Hl Hk HN Ht HN' Hv Htr.
  eapply (upd_evolves c' i rf rf' k l k f' []); try done; [apply acks_none|by apply node_same].
Qed.

(** A soft operation that casts no vote. *)
Lemma soft_evolves c' i rf rf' :
  nodes c !! i = Some rf -> nodes c' = <[i := rf']> (nodes c) -> soft rf rf' -> wf rf' -> vote_kept rf rf' ->
  (forall l k, g_full g !! i = Some l -> g_known g !! i = Some k -> traffic n c c' (upd g i l k [])) -> evolves c'.
Proof.
  intros Hi Hn Hs Hwf Hv Htr. destruct (gi_nodes _ _ _ _ HG _ _ Hi) as (l & k & f & Hl & Hk & HN).
  eapply upd_evolves_vote; try done; [apply Hs|by eapply node_soft|by left|by apply Htr].
Qed.

Lemma node_wf i rf : nodes c !! i = Some rf -> wf rf.
Proof. intros Hi. destruct (gi_nodes _ _ _ _ HG _ _ Hi) as (l & k & f & _ & _ & HN). apply HN. Qed.

Lemma node_peers i rf : nodes c !! i = Some rf -> peers rf = n /\ me rf = Z.of_nat i /\ persisted rf /\ (i < n)%nat.
Proof.
  intros Hi. destruct (inv_nodes _ _ _ HI) as [Hlen Hok]. destruct (Hok _ _ Hi) as (? & ? & ?). split_and!; try done.
  rewrite <- Hlen. by eapply lookup_lt_Some.
Qed.

Lemma op_kept env op rf rf' : exec env op rf = (rf', Ret tt) -> votes_op op = false -> vote_kept rf rf'.
Proof. intros Hr Hv. by eapply keeps_ret_run; [by apply exec_vote_kept|]. Qed.

(** ** The steps *)

Lemma vote_reply_evolves c' i rf rf' env reply t t' :
  nodes c !! i = Some rf -> nodes c' = <[i := rf']> (nodes c) -> onVoteReply env reply t rf = (rf', Ret t') ->
  (forall g', traffic n c c' g') -> evolves c'.
Proof.
  intros Hi Hn Hr Htr. eapply soft_evolves; try done.
  - by eapply keeps_ret_run; [apply soft_onVoteReply|].
  - eapply wf_run; [|exact Hr]. by eapply wf_onVoteReply, node_wf.
  - eapply (op_kept env (OpVoteReply reply t)); [|done]. by eapply ignore_ret.
Qed.

Lemma apply_collect_evolves c' i rf rf' batch :
  nodes c !! i = Some rf -> nodes c' = <[i := rf']> (nodes c) -> applyTicket_collect rf = (rf', Ret batch) ->
  (forall g', traffic n c c' g') -> evolves c'.
Proof.
  intros Hi Hn Hr Htr.
  assert (Hid : keeps (@eq (Raft D)) (applyTicket_collect (D:=D))).
  { unfold applyTicket_collect, logAt, GetFirstLog. keeps_auto. }
  assert (rf' = rf) as -> by (symmetry; exact (keeps_ret_run _ _ _ _ _ Hid Hr)).
  eapply soft_evolves; try done. by eapply node_wf.
Qed.

Lemma apply_finish_evolves c' i rf rf' batch :
  nodes c !! i = Some rf -> nodes c' = <[i := rf']> (nodes c) -> applyTicket_finish batch rf = (rf', Ret tt) ->
  (forall g', traffic n c c' g') -> evolves c'.
Proof.
  intros Hi Hn Hr Htr. eapply soft_evolves; try done.
  - by eapply keeps_ret_run; [apply soft_finish|].
  - eapply wf_run; [|exact Hr]. by eapply wf_applyTicket_finish, node_wf.
  - by eapply (op_kept any_env (OpApplyFinish batch)).
Qed.

Lemma installed_evolves c' i rf rf' idx k :
  nodes c !! i = Some rf -> nodes c' = <[i := rf']> (nodes c) -> installSnapshotDone idx rf = (rf', Ret tt) ->
  g_known g !! i = Some k -> idx <= Z.of_nat (length k) ->
  (forall g', traffic n c c' g') -> evolves c'.
Proof.
  intros Hi Hn Hr Hk Hidx Htr. destruct (gi_nodes _ _ _ _ HG _ _ Hi) as (l & k' & f & Hl & Hk' & HN). simplify_eq.
  assert (Hwf : wf rf').
  { eapply wf_run; [|exact Hr]. by apply wf_installSnapshotDone, HN. }
  assert (Hv : vote_kept rf rf') by (by eapply (op_kept any_env (OpInstallSnapshotDone idx))).
  assert (Hfr : (log rf', currentTerm rf', state rf', matchIndex rf') = (log rf, currentTerm rf, state rf, matchIndex rf)
    /\ (commitIndex rf' = commitIndex rf \/ commitIndex rf < commitIndex rf' <= idx)).
  { revert Hr. unfold installSnapshotDone, applySignal. m_exec.
    destruct (lastApplied rf <? idx); simpl; destruct (Z.ltb_spec (commitIndex rf) idx); simpl; intros [= <-]; simpl;
      (split; [done|]); (by left) || (right; lia). }
  destruct Hfr as [[= El Et Es Em] Hc]. pose proof (ni_commit _ _ _ _ _ _ _ HN).
  eapply upd_evolves_vote; try done; [lia| |by left].
  eapply node_keep; [exact HN|done|rewrite El; apply HN|apply HN|lia|lia|by rewrite Es|by rewrite Es].
Qed.

Lemma service_snapshot_evolves c' i rf rf' index snap :
  nodes c !! i = Some rf -> nodes c' = <[i := rf']> (nodes c) -> index <= commitIndex rf ->
  Snapshot index snap rf = (rf', Ret tt) -> (forall g', traffic n c c' g') -> evolves c'.
Proof.
  intros Hi Hn Hidx Hr Htr. destruct (gi_nodes _ _ _ _ HG _ _ Hi) as (l & k & f & Hl & Hk & HN).
  assert (Hwf : wf rf').
  { eapply wf_run; [|exact Hr]. by apply wf_Snapshot, HN. }
  assert (Hv : vote_kept rf rf') by (by eapply (op_kept any_env (OpSnapshot index snap))).
  pose proof (ni_commit _ _ _ _ _ _ _ HN). pose proof (ni_first _ _ _ _ _ _ _ HN). pose proof (prefix_length _ _ (ni_prefix _ _ _ _ _ _ _ HN)).
  pose proof (tr_entries _ (go_tree _ _ _ (gi_ghost _ _ _ _ HG)) l (ni_tree _ _ _ _ _ _ _ HN)) as Hok.
  destruct (snapshot_ret index snap l f rf rf' Hok ltac:(lia) (ni_log _ _ _ _ _ _ _ HN) Hr) as (Ec & Em & Et & Es & Hcase).
  assert (Hf' : exists f', log rf' = compact l f' /\ (f' <= length k)%nat).
  { destruct Hcase as [?|[? ?]]; [by exists f|]. exists (Z.to_nat index). split; [done|lia]. }
  destruct Hf' as (f' & El & Hf'). eapply upd_evolves_vote; try done; [lia| |by left].
  eapply node_keep; [exact HN|done|exact El|done|lia|lia|by rewrite Es|by rewrite Es].
Qed.

Lemma crash_evolves c' i rf rf0 rf' now :
  nodes c !! i = Some rf -> nodes c' = <[i := rf']> (nodes c) -> stops_at rf rf0 ->
  Make (peers rf) (me rf) now (persister rf0) = (rf', Ret tt) -> (forall g', traffic n c c' g') -> evolves c'.
Proof.
  intros Hi Hn Hst Hr Htr. destruct (gi_nodes _ _ _ _ HG _ _ Hi) as (l & k & f & Hl & Hk & HN).
  pose proof (ni_wf _ _ _ _ _ _ _ HN) as Hwf. destruct (node_peers _ _ Hi) as (_ & _ & Hp & _).
  destruct (restart_spec _ _ _ _ Hwf Hp Hst Hr) as (El & Hv & Ht & Hs).
  destruct (recovered (persister rf0)) as [[[t v] lg] sn] eqn:Hrec.
  assert (lg = log rf') as ->.
  { pose proof Hr as Hm. apply Make_ret in Hm as (Hrc & _). rewrite Hrec in Hrc. congruence. }
  assert (Hlok : log_ok (log rf')) by (rewrite El; apply Hwf).
  destruct (wp_Make _ _ now _ _ _ _ _ Hrec Hlok (wf_me _ Hwf)) as (rf2 & Hr2 & [= Ep Eme _ Est] & [= Ett _ Elg _] & Ec & _ & Eni & Emi).
  rewrite Hr in Hr2. injection Hr2 as <-. pose proof (ni_first _ _ _ _ _ _ _ HN). pose proof (wf_term _ Hwf).
  assert (Hwf' : wf rf').
  { split; [done|by rewrite Eni, Ep, length_replicate|by rewrite Emi, Ep, length_insert, length_replicate| |lia|by rewrite Hs].
    rewrite Ep, Eme. apply Hwf. }
  eapply upd_evolves_vote; try done; [|by left].
  eapply node_keep; [exact HN|done|rewrite El; apply HN|done| |done|by rewrite Hs|by rewrite Hs].
  rewrite Ec, El, (ni_log _ _ _ _ _ _ _ HN), compact_first. lia.
Qed.

(** ** Votes *)

Lemma deliver_vote_evolves q1 call q2 a rf rf' env r :
  let c' := set_responses ((call, Some (RepVote r)) :: responses c)
              (set_requests (q1 ++ q2) (set_node (c_dst call) rf' c)) in
  requests c = q1 ++ call :: q2 -> c_req call = ReqVote a ->
  nodes c !! c_dst call = Some rf -> RequestVote env a rf = (rf', Ret r) -> evolves c'.
Proof.
  intros c' Hq Ha Hi Hr. destruct (gi_nodes _ _ _ _ HG _ _ Hi) as (l & k & f & Hl & Hk & HN).
  assert (Hin : has_call c call) by (left; rewrite Hq; set_solver).
  pose proof (gi_calls _ _ _ _ HG _ Hin) as Hcall. unfold call_inv in Hcall. rewrite Ha in Hcall.
  destruct Hcall as (b & Hb & Hbi & Hbt). destruct (inv_calls _ _ _ HI call Hin _ Ha) as (Hid & _ & _).
  pose proof (ni_wf _ _ _ _ _ _ _ HN) as Hwf. pose proof (ni_first _ _ _ _ _ _ _ HN). pose proof (prefix_length _ _ (ni_prefix _ _ _ _ _ _ _ HN)).
  pose proof (keeps_ret_run _ _ _ _ _ (soft_RequestVote env a) Hr) as Hs.
  assert (Hwf' : wf rf').
  { eapply wf_run; [|exact Hr]. by apply wf_RequestVote. }
  eapply (upd_evolves_vote c' (c_dst call) rf rf'); try done; [apply Hs|by eapply node_soft| |].
  - pose proof (wp_done _ _ _ _ _ (wp_RequestVote env a rf (wf_log _ Hwf) ltac:(lia)) Hr) as (_ & _ & Hgr & Hgt & _).
    destruct (rvr_VoteGranted r) eqn:Hg; [|left; by eapply vote_refused].
    destruct (Hgt eq_refl) as (Ev & Et & _). destruct (proj1 Hgr eq_refl) as (Hle & [[Hsame Hvf]|[_ Hup]]).
    { left. right. split; congruence. }
    right. exists (c_src call), b. rewrite Ev, Et. split_and!; [done|done|]. intros m Hm Htm.
    rewrite (ni_log _ _ _ _ _ _ _ HN), compact_tip, compact_last, Hbi, Hbt in Hup by lia.
    destruct (ni_acks _ _ _ _ _ _ _ HN m Hm) as [_ [Hml|Hsup]].
    + left. pose proof (prefix_not_newer _ _ _ (go_tree _ _ _ (gi_ghost _ _ _ _ HG)) (ni_tree _ _ _ _ _ _ _ HN) Hml).
      unfold not_newer, up_to_date in *. lia.
    + right. eapply superseded_mono; [reflexivity|exact Hle|done].
  - eapply tr_answer; try done; [by intros; left|]. intros x [= <-]. unfold resp_inv. by rewrite Ha.
Qed.

End Steps.
End Local.
