(* ===== verification/SafetyTerms.v ===== *)
(** Steps that open a term or extend its log: standing for election, winning it, and
    Start on a leader. *)
From Stdlib Require Import ZArith Lia.
From stdpp Require Import base list numbers relations.
From S2P Require Import Prelude RaftTypes RaftNode RaftVote RaftWf RaftSafe RaftLeader RaftSpec RaftCluster ElectionSafety LogTree RaftLogs RaftMoves RaftHandlers SafetyInv SafetySteps SafetyLocal.

#[local] Open Scope Z_scope.

Section Terms.
Context {D : Type} `{LabGobOk D}.
Abbreviation Log := (list (LogEntry D)).
Implicit Types (rf : Raft D) (c : Cluster (D:=D)) (l m b k s : Log) (h : History) (g : Ghost (D:=D)).

Definition stand g (i : nat) (T : Z) l k : Ghost :=
  mkGhost (<[i := l]> (g_full g)) (<[i := k]> (g_known g)) (g_tree g) (g_elected g) (g_acks g) ((i, T, l) :: g_cands g).

Definition elect g (i : nat) (T : Z) l k : Ghost :=
  mkGhost (<[i := l]> (g_full g)) (<[i := k]> (g_known g)) (g_tree g) ((T, i, l) :: g_elected g) (g_acks g) (g_cands g).

Definition append g (i : nat) l k : Ghost :=
  mkGhost (<[i := l]> (g_full g)) (<[i := k]> (g_known g)) (l :: g_tree g) (g_elected g) ((i, l) :: g_acks g) (g_cands g).

Lemma sub_cons {A} (x : A) (xs : list A) : xs ⊆ x :: xs.
Proof. intros y Hy. by right. Qed.

Lemma grow_stand g i T T' l k : g_known g !! i = Some k -> grow g (stand g i T' l k) i T l k.
Proof.
  intros Hk. split; simpl; try done; try (by left); [|apply sub_cons|].
  - intros ? ?. by simplify_eq.
  - intros j T0 b [[= -> _ _]|?]%elem_of_cons; [by right|by left].
Qed.

Lemma grow_elect g i T T' l k : g_known g !! i = Some k -> grow g (elect g i T' l k) i T l k.
Proof.
  intros Hk. split; simpl; try done; try (by left); [|apply sub_cons|].
  - intros ? ?. by simplify_eq.
  - intros T0 j b [[= _ -> _]|?]%elem_of_cons; [by right|by left].
Qed.

Lemma grow_append g i l k b : g_known g !! i = Some k -> (tip l, i, b) ∈ g_elected g -> grow g (append g i l k) i (tip l) l k.
Proof.
  intros Hk Hb. split; simpl; try done; try (by left); [|apply sub_cons| |apply sub_cons|apply ack_only_cons].
  - intros ? ?. by simplify_eq.
  - intros m [->|?]%elem_of_cons; [right|by left]. split; [done|]. by exists b.
Qed.

Section Steps.
Context (n : nat) c h g (HI : Inv n c h) (HG : GI n c h g).
Abbreviation evolves := (evolves n h g).

(** ** Standing for election *)

Lemma node_stand i rf rf' l k f :
  node_inv n g i rf l k f -> wf rf' -> log rf' = log rf -> commitIndex rf' = commitIndex rf ->
  currentTerm rf' = currentTerm rf + 1 -> state rf' = Candidate ->
  node_inv n (stand g i (currentTerm rf') l k) i rf' l k f.
Proof.
  intros HN Hwf El Ec Et Es. destruct HN as [H1 H2 H3 H4 H5 H6 H7 H8 H9 H10 H11 H12 H13]. split; simpl; try congruence.
  - lia.
  - eapply known_by_later; [|exact H7]. lia.
  - intros m Hm. destruct (H9 m Hm) as [? [?|?]]; (split; [lia|]); [by left|right].
    eapply superseded_mono; [reflexivity| |done]. lia.
  - intros _. left.
  - intros T b Hb. destruct (H12 T b Hb). split; lia.
  - intros T b [[= ->  _]|Hb]%elem_of_cons; [lia|]. specialize (H13 T b Hb). lia.
Qed.

Lemma tick_evolves i inc rf rf' now env args :
  let c' := set_elections (mkElection i args tally0 [] :: elections c)
              (add_requests (vote_calls (length (nodes c)) i inc args) (set_node i rf' c)) in
  nodes c !! i = Some rf -> ticker_begin now env rf = (rf', Ret (Some args)) -> evolves c'.
Proof.
  intros c' Hi Hr. destruct (gi_nodes _ _ _ _ HG _ _ Hi) as (l & k & f & Hl & Hk & HN).
  pose proof (ni_wf _ _ _ _ _ _ _ HN) as Hwf. destruct (node_peers _ _ _ HI _ _ Hi) as (_ & Hme & _).
  destruct (ticker_begin_some _ _ _ _ _ Hr) as (Et & Ev & Ea & _).
  destruct (ticker_some _ _ _ _ _ (wf_log _ Hwf) Hr) as (El & Ec & Es & Ei & Elt).
  assert (Hwf' : wf rf') by (eapply wf_run; [|exact Hr]; by apply wf_ticker_begin).
  pose proof (ni_first _ _ _ _ _ _ _ HN). pose proof (prefix_length _ _ (ni_prefix _ _ _ _ _ _ _ HN)).
  rewrite (ni_log _ _ _ _ _ _ _ HN), compact_last in Ei by lia. rewrite (ni_log _ _ _ _ _ _ _ HN), compact_tip in Elt by lia.
  destruct (gi_ghost _ _ _ _ HG) as [G1 G2 G3 G4 G5 G6]. pose proof (ni_tree _ _ _ _ _ _ _ HN). pose proof (ni_tip _ _ _ _ _ _ _ HN).
  eapply (advance_evolves _ _ _ _ HI HG c' (stand g i (currentTerm rf') l k) i rf rf' l k f). split; try done.
  - lia.
  - by apply grow_stand.
  - intros. by left.
  - intros. by left.
  - intros j T b [[= -> -> ->]|?]%elem_of_cons; [right|by left]. simpl. split_and!; [done|done|done|lia|lia].
  - by eapply node_stand.
  - right. exists i, l. rewrite Ev. split_and!; [done|left|]. simpl. intros m Hm Htm.
    destruct (ni_acks _ _ _ _ _ _ _ HN m Hm) as [_ [Hp|Hsup]]; [left; by eapply prefix_not_newer|right].
    eapply superseded_mono; [reflexivity| |done]. lia.
  - assert (Hcand : (i, rv_Term args, l) ∈ g_cands (stand g i (currentTerm rf') l k)) by (rewrite Ea, <- Et; left).
    split; simpl; try (by left).
    + intros call [[Hnew|?]%elem_of_app|?]; [right|left; by left|left; by right].
      apply elem_of_vote_calls in Hnew as (Hsrc & Hreq & _). unfold call_inv. rewrite Hreq, Hsrc. exists l. done.
    + intros e [->|He]%elem_of_cons; [right; by exists l|left]. by exists e.
Qed.

(** ** Winning *)

Lemma no_rival i rf T j b : nodes c !! i = Some rf -> state rf = Candidate -> T = currentTerm rf ->
  quorum_for n h i T -> (T, j, b) ∉ g_elected g.
Proof.
  intros Hi Hs -> Hq Hb. destruct (gi_nodes _ _ _ _ HG _ _ Hi) as (l & k & f & Hl & Hk & HN).
  destruct (go_by _ _ _ (gi_ghost _ _ _ _ HG) _ _ _ Hb) as (Q & (HN1 & _ & HQ) & Hv).
  assert (i = j) as <-.
  { eapply quorum_unique; [exact HI|exact Hq|]. exists Q. split_and!; [done|done|]. intros v Hin. apply (Hv v Hin). }
  by destruct (ni_elected _ _ _ _ _ _ _ HN _ _ Hb) as [_ Hn]; apply Hn.
Qed.

Lemma won_by i rf T l Q :
  nodes c !! i = Some rf -> (i, T, l) ∈ g_cands g -> (forall j b, (T, j, b) ∉ g_elected g) ->
  NoDup Q -> Z.of_nat n ÷ 2 < Z.of_nat (length Q) -> (forall v, v ∈ Q -> (v, T, Z.of_nat i) ∈ h) ->
  forall h', h ⊆ h' -> elected_by n ((T, i, l) :: g_elected g) (g_acks g) (voted_in h' T i) T l.
Proof.
  intros Hi Hc Hnew Hnd Hlen Hv h' Hh. exists Q. split.
  - split_and!; [done| |done]. intros v Hin. destruct (vo_past _ _ (inv_votes _ _ _ HI) _ _ _ (Hv v Hin)) as (rfv & Hl & _).
    destruct (inv_nodes _ _ _ HI) as [<- _]. by eapply lookup_lt_Some.
  - intros v Hin. specialize (Hv v Hin). split; [by apply Hh|]. intros m Hm Ht.
    destruct (gi_votes _ _ _ _ HG _ _ _ Hv) as (ci & b & E & Hb & Ha). apply Nat2Z.inj in E as <-.
    rewrite (go_cand1 _ _ _ (gi_ghost _ _ _ _ HG) _ _ _ _ Hc Hb).
    destruct (Ha m Hm Ht) as [?|(T' & j & b' & Hb' & Hr & Hno)]; [by left|right].
    exists T', j, b'. split_and!; [by right|lia| |done]. destruct (Z.eq_dec T' T) as [->|]; [by apply Hnew in Hb'|lia].
Qed.

Lemma node_won i rf l k f rf' :
  node_inv n g i rf l k f -> (i, currentTerm rf, l) ∈ g_cands g -> (forall j b, (currentTerm rf, j, b) ∉ g_elected g) ->
  wf rf' -> log rf' = log rf -> commitIndex rf' = commitIndex rf -> currentTerm rf' = currentTerm rf -> state rf' = Leader ->
  (forall j x, matchIndex rf' !! j = Some x -> x <= Z.of_nat (length l)) ->
  node_inv n (elect g i (currentTerm rf) l k) i rf' l k f.
Proof.
  intros HN Hcand Hnew Hwf El Ec Et Es Hmi. destruct (gi_ghost _ _ _ _ HG) as [G1 G2 G3 G4 G5 G6].
  destruct (G5 _ _ _ Hcand) as [_ Htip]. destruct HN as [H1 H2 H3 H4 H5 H6 H7 H8 H9 H10 H11 H12 H13].
  pose proof (wf_term _ H1). split; simpl; rewrite ?Et; try congruence; try done.
  - intros m Hm. destruct (H9 m Hm) as [? [?|?]]; (split; [lia|]); [by left|right].
    eapply superseded_mono; [apply sub_cons|reflexivity|done].
  - intros _. split; simpl; rewrite ?Et.
    + split; [done|]. exists l. split_and!; [left|done|by left].
    + intros m Hm Hmt. destruct m as [|e m]; [apply prefix_nil|].
      destruct (ld_node _ _ G2 _ Hm) as (j & b & Hb & _); [done|]. rewrite Hmt in Hb. by apply Hnew in Hb.
    + intros j x Hx. split; [by eapply Hmi|]. intros m Hm Hmt. pose proof (tr_terms _ G1 m l H4 Hm). lia.
  - intros T b [[= -> ->]|Hb]%elem_of_cons; [split; [lia|congruence]|]. destruct (H12 T b Hb) as [? ?]. split; [lia|congruence].
Qed.

Lemma decide_evolves e e1 e2 rf rf' :
  let c' := set_elections (e1 ++ e2) (set_node (el_src e) rf' c) in
  elections c = e1 ++ e :: e2 -> nodes c !! el_src e = Some rf ->
  ticker_decide (el_args e) (el_tally e) rf = (rf', Ret tt) -> evolves c'.
Proof.
  intros c' He Hi Hr. pose proof (node_wf _ _ _ _ HG _ _ Hi) as Hwf.
  assert (Htr : forall g', traffic n c c' g').
  { intros g'. apply tr_same; try done. simpl. rewrite He. intros x. rewrite !elem_of_app, elem_of_cons. tauto. }
  destruct (node_peers _ _ _ HI _ _ Hi) as (Hpe & Hme & _). set (i := el_src e) in *.
  assert (Hwf' : wf rf') by (eapply wf_run; [|exact Hr]; by apply wf_ticker_decide).
  destruct (decide_cases _ _ _ _ Hwf Hr) as [->|(Hs & Ht & Hmaj & ->)]; [by eapply soft_evolves|].
  destruct (gi_nodes _ _ _ _ HG _ _ Hi) as (l & k & f & Hl & Hk & HN).
  pose proof (ni_cand _ _ _ _ _ _ _ HN Hs) as Hcand. rewrite Hpe in Hmaj.
  destruct (inv_elections _ _ _ HI e) as [Hid Hself Hcnt Hnd Hns Hvs _]; [rewrite He; set_solver|].
  set (Q := i :: el_granters e).
  assert (HQ : NoDup Q /\ Z.of_nat n ÷ 2 < Z.of_nat (length Q) /\ forall v, v ∈ Q -> (v, currentTerm rf, Z.of_nat i) ∈ h).
  { split_and!; [by constructor|unfold Q; simpl; lia|]. rewrite Ht. intros v [->|Hv]%elem_of_cons; [done|by apply Hvs]. }
  assert (Hnew : forall j b, (currentTerm rf, j, b) ∉ g_elected g) by (intros j b; eapply no_rival; try done; by exists Q).
  destruct HQ as (Q1 & Q2 & Q3). destruct (gi_ghost _ _ _ _ HG) as [G1 G2 G3 G4 G5 G6]. destruct (G5 _ _ _ Hcand) as [Hlt Htip].
  pose proof (ni_first _ _ _ _ _ _ _ HN). pose proof (prefix_length _ _ (ni_prefix _ _ _ _ _ _ _ HN)).
  eapply (advance_evolves _ _ _ _ HI HG c' (elect g i (currentTerm rf) l k) i rf _ l k f). split; try done.
  - by apply grow_elect.
  - by apply tree_elect.
  - intros T j b [[= -> -> ->]|?]%elem_of_cons; [right|by left]. eapply won_by; try done. intros x Hx. apply elem_of_app. by right.
  - intros. by left.
  - intros. by left.
  - eapply node_won; try done. simpl. intros j x. rewrite (ni_log _ _ _ _ _ _ _ HN), compact_last by lia.
    intros [(_ & <- & _)|[_ Hx]]%list_lookup_insert_Some; [done|]. apply lookup_replicate in Hx as [-> _]. lia.
  - left. by right.
Qed.

(** ** Start *)

Lemma prefix_snoc l m (e : LogEntry D) : m `prefix_of` l -> m `prefix_of` l ++ [e].
Proof. intros Hp. etrans; [exact Hp|by exists [e]]. Qed.

Lemma node_start i rf l k f rf' e :
  let l' := l ++ [e] in let g' := append g i l' k in
  node_inv n g i rf l k f -> grow g g' i (tip l') l' k -> state rf = Leader -> le_Term e = currentTerm rf -> wf rf' ->
  log rf' = compact l' f -> commitIndex rf' = commitIndex rf ->
  currentTerm rf' = currentTerm rf -> state rf' = Leader ->
  matchIndex rf' = <[i := Z.of_nat (length l')]> (matchIndex rf) -> node_inv n g' i rf' l' k f.
Proof.
  intros l' g' HN Hgr Hlead Hte Hwf El Ec Et Es Em. destruct HN as [H1 H2 H3 H4 H5 H6 H7 H8 H9 H10 H11 H12 H13].
  assert (Htip : tip l' = currentTerm rf) by (unfold l'; by rewrite tip_snoc).
  destruct (H10 Hlead) as [L1 L2 L3]. pose proof (wf_term _ H1).
  assert (Hsub : forall r m, acked (g_acks g) r m -> acked (g_acks g') r m) by (intros; by eapply acked_mono; [apply sub_cons|]).
  split; simpl; rewrite ?Et, ?Es; try congruence; try done.
  - left.
  - lia.
  - by apply prefix_snoc.
  - eapply (known_grow n _ _ _ _ _ _ Hgr). done.
  - intros m Hm. destruct (gr_ack _ _ _ _ _ _ Hgr i m Hm) as [Ho|[_ Hmt]].
    + destruct (H9 m Ho) as [? [?|?]]; (split; [done|]); [left; by apply prefix_snoc|by right].
    + split; [lia|left]. destruct Hm as (_ & m' & [[= ->]|Hin]%elem_of_cons & Hp & Ht'); [done|].
      apply prefix_snoc. etrans; [exact Hp|]. apply L2; [|lia]. by apply (go_acks _ _ _ (gi_ghost _ _ _ _ HG) i).
  - intros _. split; rewrite ?Et.
    + destruct L1 as (_ & b & Hb & Hp & _). split; [left|]. exists b. split_and!; [done|by apply prefix_snoc|by right].
    + intros m [->|Hm]%elem_of_cons Hmt; [done|]. by apply prefix_snoc, L2.
    + intros j x. rewrite Em. intros [(<- & <- & _)|[_ Hx]]%list_lookup_insert_Some.
      * split; [done|]. intros m Hp Hmt _. split; [intros ->; unfold tip in Hmt; simpl in Hmt; lia|].
        exists l'. split_and!; [left|done|congruence].
      * destruct (L3 j x Hx) as [Hle Hack]. unfold l' at 1. rewrite length_app. split; [simpl; lia|].
        intros m Hp Hmt Hmx. apply Hsub, Hack; [|done|done]. eapply prefix_shorter; [exact Hp|by exists [e]|lia].
  - intros T b Hb. destruct (H12 T b Hb). by split.
Qed.

Lemma start_evolves i rf rf' cmd r :
  nodes c !! i = Some rf -> Start cmd rf = (rf', Ret r) -> evolves (set_node i rf' c).
Proof.
  intros Hi Hr. destruct (gi_nodes _ _ _ _ HG _ _ Hi) as (l & k & f & Hl & Hk & HN).
  destruct (node_peers _ _ _ HI _ _ Hi) as (Hpe & Hme & _). destruct (gi_ghost _ _ _ _ HG) as [G1 G2 G3 G4 G5 G6].
  pose proof (ni_first _ _ _ _ _ _ _ HN). pose proof (prefix_length _ _ (ni_prefix _ _ _ _ _ _ _ HN)).
  pose proof (ni_tree _ _ _ _ _ _ _ HN) as Hin. pose proof (ni_wf _ _ _ _ _ _ _ HN) as Hwf.
  assert (Hv : vote_kept rf rf') by (eapply (op_kept any_env (OpStart cmd)); [|done]; by eapply ignore_ret).
  assert (Htr : forall g', traffic n c (set_node i rf' c) g') by (intros; by apply tr_same).
  destruct (start_ret cmd l f rf rf' r (tr_entries _ G1 l Hin) ltac:(lia) (ni_log _ _ _ _ _ _ _ HN) Hwf Hr)
    as [Hwf' [->|(Hs & El & Em & Et & Es & Ec)]]; [by eapply soft_evolves|].
  set (e := mkLogEntry (currentTerm rf) (Z.of_nat (length l) + 1) (Some cmd)) in *.
  destruct (ni_leader _ _ _ _ _ _ _ HN Hs) as [(_ & b & Hb & Hbl & _) Hall _].
  destruct (tree_append (g_tree g) (g_elected g) l e i b) as [Ht' Hl']; try done; [apply Hwf|apply HN|].
  assert (Htip : tip (l ++ [e]) = currentTerm rf) by (by rewrite tip_snoc).
  assert (Hgr : grow g (append g i (l ++ [e]) k) i (tip (l ++ [e])) (l ++ [e]) k)
    by (eapply (grow_append _ _ _ _ b); [done|by rewrite Htip]).
  eapply (advance_evolves _ _ _ _ HI HG _ (append g i (l ++ [e]) k) i rf rf' (l ++ [e]) k f). split; try done.
  - lia.
  - by rewrite Et, <- Htip.
  - intros. by left.
  - intros r' m [[= -> ->]|?]%elem_of_cons; [right|by left]. split; [left|by destruct l].
  - intros. by left.
  - eapply node_start; try done. rewrite Em, Hme, Nat2Z.id, length_app. do 2 f_equal. simpl. lia.
  - by left.
Qed.

End Steps.
End Terms.
