(* ===== verification/SafetyLeader.v ===== *)
(** The leader's side of replication: what it sends is backed by its log, and what it
    counts as replicated is acknowledged. *)
From Stdlib Require Import ZArith Lia.
From stdpp Require Import base list numbers relations.
From S2P Require Import Prelude RaftTypes RaftNode RaftVote RaftWf RaftSafe RaftLeader RaftSpec RaftCluster ElectionSafety LogTree RaftLogs RaftMoves RaftHandlers SafetyInv SafetySteps SafetyLocal.

#[local] Open Scope Z_scope.

Section Leader.
Context {D : Type} `{LabGobOk D}.
Abbreviation Log := (list (LogEntry D)).
Implicit Types (rf : Raft D) (c : Cluster (D:=D)) (l m b k s : Log) (h : History) (g : Ghost (D:=D)).

(** ** Counting replicas *)

Lemma matchCount_peers (mi : list Z) (x : Z) :
  exists Q : list nat, NoDup Q /\ Z.of_nat (length Q) = matchCount mi x
    /\ forall j, j ∈ Q -> exists y, mi !! j = Some y /\ x <= y.
Proof.
  unfold matchCount. induction mi as [|y mi (Q & Hnd & Hlen & HQ)].
  { exists []. split_and!; [constructor|done|]. by intros j ?%elem_of_nil. }
  assert (HS : NoDup (S <$> Q) /\ forall j, j ∈ S <$> Q -> exists z, (y :: mi) !! j = Some z /\ x <= z).
  { split; [by apply NoDup_fmap_2; [apply _|]|]. intros j (j' & -> & Hj)%list_elem_of_fmap. by apply HQ. }
  destruct HS as [Hnd' HQ']. rewrite filter_cons. case_decide as Hd.
  - exists (0%nat :: (S <$> Q)). split_and!.
    + constructor; [|done]. by intros (j & ? & _)%list_elem_of_fmap.
    + simpl. rewrite length_fmap. lia.
    + intros j [->|Hj]%elem_of_cons; [|by apply HQ']. exists y. split; [done|]. by apply Is_true_eq_true, Z.leb_le in Hd.
  - exists (S <$> Q). split_and!; [done|rewrite length_fmap; lia|done].
Qed.

Section Steps.
Context (n : nat) c h g (HI : Inv n c h) (HG : GI n c h g).
Abbreviation evolves := (evolves n h g).

(** Logs that a leader of term [T] has sent are prefixes of the log of its leader. *)
Lemma sent_by_leader i rf l k f m :
  node_inv n g i rf l k f -> state rf = Leader -> sent_by g (currentTerm rf) i m -> m `prefix_of` l.
Proof.
  intros HN Hs (Hm & b & Hb & _ & Hcase). destruct (ni_leader _ _ _ _ _ _ _ HN Hs) as [(_ & b' & Hb' & Hp & _) Hall _].
  destruct Hcase as [->|Ht]; [|by apply Hall].
  by destruct (ld_unique _ _ (go_lead _ _ _ (gi_ghost _ _ _ _ HG)) _ _ _ _ _ Hb Hb') as [_ ->].
Qed.

Lemma sent_tip T i m : sent_by g T i m -> tip m <= T.
Proof.
  intros (_ & b & Hb & _ & [->|Ht]); [|lia]. destruct (ld_base _ _ (go_lead _ _ _ (gi_ghost _ _ _ _ HG)) _ _ _ Hb). lia.
Qed.

(** An index that a majority holds and that is of the leader's term is committed. *)
Lemma counted_committed rf l f (mi : list Z) (x : Z) :
  l ∈ g_tree g -> (f <= length l)%nat -> log rf = compact l f -> length mi = n -> 0 <= currentTerm rf ->
  (forall j y, mi !! j = Some y -> forall m, m `prefix_of` l -> tip m = currentTerm rf -> Z.of_nat (length m) <= y -> acked (g_acks g) j m) ->
  Z.of_nat f <= x <= lastIndex (log rf) -> committable (set_matchIndex mi rf) x -> peers rf = n ->
  known n g (currentTerm rf) (take (Z.to_nat x) l).
Proof.
  intros Hl Hf Hlog Hlen HT Hack Hx [Hmaj Hterm] Hpe. unfold majority in Hmaj. simpl in *. rewrite Hpe in Hmaj.
  rewrite Hlog in Hx, Hterm. rewrite compact_last in Hx by done.
  pose proof (compact_term l f (Z.to_nat x) ltac:(lia)) as Ht. rewrite Z2Nat.id in Ht by lia. rewrite Hterm in Ht. injection Ht as Ht.
  set (m := take (Z.to_nat x) l) in *. assert (Htip : tip m = currentTerm rf) by (unfold m; by rewrite tip_take by lia).
  assert (Hml : length m = Z.to_nat x) by (unfold m; rewrite length_take; lia).
  right. exists m. split_and!; [|done|lia]. split_and!.
  - eapply (tr_prefix _ (go_tree _ _ _ (gi_ghost _ _ _ _ HG))); [exact Hl|apply prefix_take].
  - intros E. rewrite E in Htip. unfold tip in Htip. simpl in Htip. lia.
  - destruct (matchCount_peers mi x) as (Q & Hnd & HQl & HQ). exists Q. split.
    + split_and!; [done| |lia]. intros j Hj. destruct (HQ j Hj) as (y & Hy & _). rewrite <- Hlen. by eapply lookup_lt_Some.
    + intros j Hj. destruct (HQ j Hj) as (y & Hy & Hle). eapply Hack; [exact Hy|apply prefix_take|done|]. rewrite Hml. lia.
Qed.

(** Two known prefixes of one log. *)
Lemma longer_known T l k1 k2 :
  k1 `prefix_of` l -> k2 `prefix_of` l -> known n g T k1 -> known n g T k2 ->
  exists k, k `prefix_of` l /\ known n g T k /\ (length k1 <= length k)%nat /\ (length k2 <= length k)%nat.
Proof.
  intros P1 P2 K1 K2. destruct (Nat.le_gt_cases (length k1) (length k2)); [exists k2|exists k1]; split_and!; (done || lia).
Qed.

Lemma node_replicated i rf l k f j x rf' :
  node_inv n g i rf l k f -> peers rf = n -> state rf = Leader -> wf rf' -> replicated rf j x rf' ->
  x <= Z.of_nat (length l) ->
  (forall m, m `prefix_of` l -> tip m = currentTerm rf -> Z.of_nat (length m) <= x -> acked (g_acks g) j m) ->
  exists k', (length k <= length k')%nat /\ node_inv n g i rf' l k' f.
Proof.
  intros HN Hpe Hs Hwf (ni & ci & sg & old & Ho & -> & Hc) Hx Hack.
  pose proof HN as [H1 H2 H3 H4 H5 H6 H7 H8 H9 H10 H11 H12 H13]. destruct (H10 Hs) as [L1 L2 L3].
  pose proof (prefix_length _ _ H6).
  set (mi := <[j := Z.max old x]> (matchIndex rf)) in *.
  assert (Hmi : forall j' y, mi !! j' = Some y -> y <= Z.of_nat (length l)
    /\ forall m, m `prefix_of` l -> tip m = currentTerm rf -> Z.of_nat (length m) <= y -> acked (g_acks g) j' m).
  { intros j' y [(<- & <- & _)|[_ Hy]]%list_lookup_insert_Some; [|by apply L3]. destruct (L3 _ _ Ho) as [? Ha].
    split; [lia|]. intros m Hm Ht Hle. destruct (Z.le_gt_cases (Z.of_nat (length m)) old); [by apply Ha|apply Hack; [done|done|lia]]. }
  assert (Hk' : exists k', k' `prefix_of` l /\ known n g (currentTerm rf) k' /\ (length k <= length k')%nat /\ 0 <= ci <= Z.of_nat (length k')).
  { destruct Hc as [->|[Hr Hcm]]; [exists k; split_and!; (done || lia)|]. rewrite H2, compact_last in Hr by lia.
    assert (Hkn : known n g (currentTerm rf) (take (Z.to_nat ci) l)).
    { apply (counted_committed rf l f mi ci); try done; [lia|unfold mi; rewrite length_insert, <- Hpe; apply H1|apply H1|by intros ? ? Hy; destruct (Hmi _ _ Hy)|].
      destruct Hcm as [_ Hcm]. rewrite H2, compact_last by lia. split; [|lia].
      destruct (Z.le_gt_cases (Z.of_nat f) ci); [done|]. exfalso. simpl in Hcm. rewrite H2 in Hcm. unfold entryAt in Hcm.
      rewrite compact_first in Hcm. destruct (Z.leb_spec (Z.of_nat f) ci); [lia|done]. }
    destruct (longer_known (currentTerm rf) l k (take (Z.to_nat ci) l)) as (k' & ? & ? & ? & Hlk); [done|apply prefix_take|done|done|].
    exists k'. split_and!; try done; rewrite length_take in Hlk; lia. }
  destruct Hk' as (k' & K1 & K2 & K3 & K4). exists k'. split; [done|].
  split; try done. lia.
Qed.

Lemma replicated_evolves c' i rf rf' j x :
  nodes c !! i = Some rf -> nodes c' = <[i := rf']> (nodes c) -> state rf = Leader -> wf rf' -> vote_kept rf rf' ->
  replicated rf j x rf' ->
  (forall l k f, g_full g !! i = Some l -> node_inv n g i rf l k f -> x <= Z.of_nat (length l)
     /\ forall m, m `prefix_of` l -> tip m = currentTerm rf -> Z.of_nat (length m) <= x -> acked (g_acks g) j m) ->
  (forall g', traffic n c c' g') -> evolves c'.
Proof.
  intros Hi Hn Hs Hwf Hv Hrep Hx Htr. destruct (gi_nodes _ _ _ _ HG _ _ Hi) as (l & k & f & Hl & Hk & HN).
  destruct (node_peers _ _ _ HI _ _ Hi) as (Hpe & _). destruct (Hx l k f Hl HN) as [Hx1 Hx2].
  destruct (node_replicated i rf l k f j x rf' HN Hpe Hs Hwf Hrep Hx1 Hx2) as (k' & Hlen & HN').
  assert (Ht : currentTerm rf' = currentTerm rf) by (by destruct Hrep as (? & ? & ? & ? & _ & -> & _)).
  eapply (upd_evolves _ _ _ _ HI HG c' i rf rf' k l k' f []); try done; [lia|apply acks_none|by apply node_same|by left].
Qed.

(** ** Replies *)

(** What a stored log of the leader's term says about its prefixes. *)
Lemma stored_prefixes i rf l k f j m :
  node_inv n g i rf l k f -> m ∈ g_tree g -> tip m <= currentTerm rf -> m `prefix_of` l ->
  (tip m = currentTerm rf -> acked (g_acks g) j m) ->
  forall m', m' `prefix_of` l -> tip m' = currentTerm rf -> Z.of_nat (length m') <= Z.of_nat (length m) -> acked (g_acks g) j m'.
Proof.
  intros HN Hm Htm Hml Hack m' Hp Ht Hle. assert (Hmm : m' `prefix_of` m) by (eapply prefix_shorter; [exact Hp|exact Hml|lia]).
  pose proof (tr_terms _ (go_tree _ _ _ (gi_ghost _ _ _ _ HG)) _ _ Hm Hmm). pose proof (wf_term _ (ni_wf _ _ _ _ _ _ _ HN)).
  destruct Hack as (Hne & mm & Hin & Hpp & Htt); [lia|]. split; [intros ->; unfold tip in Ht; simpl in Ht; lia|].
  exists mm. split_and!; [done|by etrans|lia].
Qed.

Lemma log_reply_evolves q1 call r q2 a recode rf rf' env :
  let c' := set_responses (q1 ++ q2) (set_node (c_src call) rf' c) in
  responses c = q1 ++ (call, Some (RepLog r)) :: q2 -> c_req call = ReqLog a recode ->
  nodes c !! c_src call = Some rf -> sendLog_reply env (Z.of_nat (c_dst call)) a recode r rf = (rf', Ret tt) -> evolves c'.
Proof.
  intros c' Hq Ha Hi Hr. set (i := c_src call) in *. set (j := c_dst call) in *.
  assert (Hin : (call, Some (RepLog r)) ∈ responses c) by (rewrite Hq; set_solver).
  pose proof (gi_resps _ _ _ _ HG _ _ Hin) as Hresp. unfold resp_inv in Hresp. rewrite Ha in Hresp.
  destruct Hresp as (m & p & (Hca & Hsent & _ & _) & Hack).
  assert (Hcall : call_inv n g call).
  { apply (gi_calls _ _ _ _ HG). right. apply list_elem_of_fmap. by exists (call, Some (RepLog r)). }
  unfold call_inv in Hcall. rewrite Ha in Hcall. destruct Hcall as (_ & Hj & _).
  destruct (gi_nodes _ _ _ _ HG _ _ Hi) as (l & k & f & Hl & Hk & HN). pose proof (ni_wf _ _ _ _ _ _ _ HN) as Hwf.
  destruct (node_peers _ _ _ HI _ _ Hi) as (Hpe & _). pose proof (ni_first _ _ _ _ _ _ _ HN). pose proof (prefix_length _ _ (ni_prefix _ _ _ _ _ _ _ HN)).
  assert (Hlast : forall e, list.last (sl_Entries a) = Some e -> le_Index e = Z.of_nat (length m)).
  { intros e. by eapply carries_last. }
  assert (Hml : state rf = Leader -> currentTerm rf = sl_Term a -> m `prefix_of` l).
  { intros Hs Ht. eapply sent_by_leader; [exact HN|done|by rewrite Ht]. }
  destruct (sendLog_reply_ret env (Z.of_nat j) a recode r rf rf' Hwf) as [Hwf' Hcase]; [unfold j in *; lia| |done|].
  { intros Hs Ht e He. rewrite (Hlast e He), (ni_log _ _ _ _ _ _ _ HN), compact_last by lia. pose proof (prefix_length _ _ (Hml Hs Ht)). lia. }
  assert (Hv : vote_kept rf rf') by (by eapply (op_kept env (OpSendLogReply (Z.of_nat j) a recode r))).
  assert (Htr : forall g', traffic n c c' g').
  { intros. eapply tr_consume; try done; [by left|]. intros e He. by exists e. }
  destruct Hcase as [Hsoft|(Hs & Ht & Hsu & e & He & Hrep)]; [by eapply soft_evolves|].
  rewrite Nat2Z.id, (Hlast e He) in Hrep. eapply (replicated_evolves c' i rf rf' j); try done.
  intros l0 k0 f0 Hl0 HN0. assert (l0 = l) as -> by congruence. specialize (Hml Hs Ht). split; [pose proof (prefix_length _ _ Hml); lia|].
  eapply stored_prefixes; try done; [apply Hsent|rewrite Ht; by eapply sent_tip|]. rewrite Ht. intros. by apply Hack.
Qed.

Lemma snap_reply_evolves q1 call r q2 a ctx rf rf' env :
  let c' := set_responses (q1 ++ q2) (set_node (c_src call) rf' c) in
  responses c = q1 ++ (call, Some (RepSnap r)) :: q2 -> c_req call = ReqSnap a ctx ->
  nodes c !! c_src call = Some rf -> sendSnapShot_reply env (Z.of_nat (c_dst call)) ctx r rf = (rf', Ret tt) -> evolves c'.
Proof.
  intros c' Hq Ha Hi Hr. set (i := c_src call) in *. set (j := c_dst call) in *.
  assert (Hin : (call, Some (RepSnap r)) ∈ responses c) by (rewrite Hq; set_solver).
  pose proof (gi_resps _ _ _ _ HG _ _ Hin) as Hresp. unfold resp_inv in Hresp. rewrite Ha in Hresp.
  destruct Hresp as (m & s & (Hsent & Hsm & Hsi & Hst & _ & Hct & Hci) & Hack).
  assert (Hcall : call_inv n g call).
  { apply (gi_calls _ _ _ _ HG). right. apply list_elem_of_fmap. by exists (call, Some (RepSnap r)). }
  unfold call_inv in Hcall. rewrite Ha in Hcall. destruct Hcall as (_ & Hj & _).
  destruct (gi_nodes _ _ _ _ HG _ _ Hi) as (l & k & f & Hl & Hk & HN). pose proof (ni_wf _ _ _ _ _ _ _ HN) as Hwf.
  destruct (node_peers _ _ _ HI _ _ Hi) as (Hpe & _). pose proof (ni_first _ _ _ _ _ _ _ HN). pose proof (prefix_length _ _ (ni_prefix _ _ _ _ _ _ _ HN)).
  assert (Hsl : state rf = Leader -> currentTerm rf = rs_Term a -> s `prefix_of` l).
  { intros Hs Ht. etrans; [exact Hsm|]. eapply sent_by_leader; [exact HN|done|by rewrite Ht]. }
  rewrite Hsi in Hci. 
  destruct (sendSnapShot_reply_ret env (Z.of_nat j) ctx r rf rf' Hwf) as [Hwf' Hcase]; [unfold j in *; lia| |done|].
  { intros Hs Ht. rewrite Hci, (ni_log _ _ _ _ _ _ _ HN), compact_last by lia. rewrite Hct in Ht. pose proof (prefix_length _ _ (Hsl Hs Ht)). lia. }
  assert (Hv : vote_kept rf rf') by (by eapply (op_kept env (OpSnapShotReply (Z.of_nat j) ctx r))).
  assert (Htr : forall g', traffic n c c' g').
  { intros. eapply tr_consume; try done; [by left|]. intros e He. by exists e. }
  destruct Hcase as [Hsoft|(Hs & Ht & Hrt & x & Hx & Hrep)]; [by eapply soft_evolves|].
  rewrite Nat2Z.id in Hrep, Hx. eapply (replicated_evolves c' i rf rf' j); try done.
  intros l0 k0 f0 Hl0 HN0. assert (l0 = l) as -> by congruence. rewrite Hct in Ht. specialize (Hsl Hs Ht).
  destruct Hx as [->|Hx]; [|by apply (li_match _ _ _ _ (ni_leader _ _ _ _ _ _ _ HN0 Hs))]. rewrite Hci.
  split; [pose proof (prefix_length _ _ Hsl); lia|]. destruct (gi_ghost _ _ _ _ HG) as [G1 _ _ _ _ _].
  assert (Hmt : m ∈ g_tree g) by apply Hsent. pose proof (tr_terms _ G1 s m Hmt Hsm). pose proof (sent_tip _ _ _ Hsent).
  eapply stored_prefixes; try done; [by eapply (tr_prefix _ G1)|lia|]. intros. apply Hack; lia.
Qed.

(** ** Sending *)

Lemma carried i rf l k f a :
  node_inv n g i rf l k f -> state rf = Leader -> args_of rf a -> exists p, log_call n g a i l p.
Proof.
  intros HN Hs (Et & _ & Ec & _ & _ & Hfi & Hlen & Hterm & Hent).
  destruct (ni_leader _ _ _ _ _ _ _ HN Hs) as [Hsent _ _]. pose proof (ni_first _ _ _ _ _ _ _ HN). pose proof (ni_commit _ _ _ _ _ _ _ HN) as Hc.
  pose proof (ni_prefix _ _ _ _ _ _ _ HN) as Hkl. pose proof (prefix_length _ _ Hkl).
  rewrite (ni_log _ _ _ _ _ _ _ HN), compact_first in Hfi, Hent. rewrite (ni_log _ _ _ _ _ _ _ HN), compact_last in Hlen by lia.
  rewrite (ni_log _ _ _ _ _ _ _ HN) in Hterm. exists (Z.to_nat (sl_PrevLogIndex a)). split_and!.
  - split.
    + apply (tr_entries _ (go_tree _ _ _ (gi_ghost _ _ _ _ HG))), HN.
    + lia.
    + lia.
    + pose proof (compact_term l f (Z.to_nat (sl_PrevLogIndex a)) ltac:(lia)) as Ht. rewrite Z2Nat.id, Hterm in Ht by lia. by injection Ht.
    + rewrite Hent. rewrite <- (compact_suffix l f) by lia. f_equal. lia.
  - by rewrite Et.
  - lia.
  - lia.
  - rewrite Et, Ec. eapply known_by_prefix; [|apply HN].
    eapply prefix_shorter; [apply prefix_take|exact Hkl|]. rewrite length_take. lia.
Qed.

Lemma elem_of_log_calls i inc (xs : list (SendLogArgs D * Z)) call :
  call ∈ log_calls i inc xs ->
  exists a recode, call = mkCall i (Some inc) (c_dst call) (ReqLog a recode) /\ c_dst call <> i
    /\ xs !! c_dst call = Some (a, recode) /\ sl_ShouldSendSnapShot a = false.
Proof.
  unfold log_calls. rewrite list_elem_of_omap. intros ([j [a recode]] & Hin & Hx).
  apply elem_of_lookup_imap in Hin as (j' & x & [= -> <-] & Hj). repeat case_match; simplify_eq. simpl. eauto 10.
Qed.

Lemma elem_of_snap_tasks i inc (xs : list (SendLogArgs D * Z)) t :
  t ∈ snap_tasks i inc xs -> exists j, t = TSendSnapShot i inc j /\ j <> i /\ (j < length xs)%nat.
Proof.
  unfold snap_tasks. rewrite list_elem_of_omap. intros ([j [a recode]] & Hin & Hx).
  apply elem_of_lookup_imap in Hin as (j' & x & [= -> <-] & Hj). apply lookup_lt_Some in Hj. repeat case_match; simplify_eq. eauto.
Qed.

Lemma sendlog_evolves i inc rf rf' o :
  let c' := match o with
            | None => set_node i rf' c
            | Some xs => set_tasks (snap_tasks i inc xs ++ tasks c) (add_requests (log_calls i inc xs) (set_node i rf' c))
            end in
  nodes c !! i = Some rf -> sendLogTicketCore_begin rf = (rf', Ret o) -> evolves c'.
Proof.
  intros c' Hi Hr. destruct (gi_nodes _ _ _ _ HG _ _ Hi) as (l & k & f & Hl & Hk & HN).
  destruct (node_peers _ _ _ HI _ _ Hi) as (Hpe & Hme & _).
  destruct (wp_done _ _ _ _ _ (wp_sendLogTicketCore_begin rf (ni_wf _ _ _ _ _ _ _ HN)) Hr) as (Hwf' & _ & Ho).
  pose proof (keeps_ret_run _ _ _ _ _ soft_sendLogCore Hr) as Hsoft.
  assert (Hv : vote_kept rf rf') by (eapply (op_kept any_env OpSendLogCore); [by eapply ignore_ret|done]).
  assert (Hn : nodes c' = <[i := rf']> (nodes c)) by (by destruct o).
  eapply soft_evolves; try done. intros l0 k0 Hl0 Hk0. assert (l0 = l) as -> by congruence. assert (k0 = k) as -> by congruence.
  destruct o as [xs|]; [|by apply tr_same]. destruct Ho as [Hs Hpr].
  eapply (tr_send _ _ _ _ (log_calls i inc xs)); try done.
  - simpl. intros t [Ht|Ht]%elem_of_app; [right|by left]. apply elem_of_snap_tasks in Ht as (j & -> & Hj & Hjn).
    apply Forall2_length in Hpr. unfold range in Hpr. rewrite length_fmap, length_seq in Hpr. simpl. split; [done|lia].
  - intros call Hin. eapply call_grow; [by apply (grow_same g i (currentTerm rf) l k)|].
    apply elem_of_log_calls in Hin as (a & recode & Ecall & Hj & Hx & Hshould).
    destruct (Forall2_lookup_r _ _ _ _ _ Hpr Hx) as (z & Hz & Hp). unfold range in Hz. rewrite list_lookup_fmap in Hz.
    destruct (seq 0 (peers rf) !! c_dst call) as [j'|] eqn:Hseq; [|discriminate Hz]. injection Hz as <-. apply lookup_seq in Hseq as [-> Hlt].
    unfold call_inv. rewrite Ecall. simpl. split_and!; [done|lia|]. exists l.
    destruct Hp as [[Hp _]|[[_ Hp]|(_ & _ & Hp & _)]]; simpl in *; [lia|congruence|]. by eapply carried.
Qed.

Lemma sendSnapShot_ret p rf rf' o :
  wf rf -> sendSnapShot_begin p rf = (rf', Ret o) ->
  rf' = rf /\ forall a ctx, o = Some (a, ctx) ->
    state rf = Leader /\ 0 <= p < Z.of_nat (peers rf) /\ rs_Term a = currentTerm rf
    /\ rs_LastIncludedIndex a = firstIndex (log rf) /\ le_Term <$> entryAt (log rf) (firstIndex (log rf)) = Some (rs_LastIncludedTerm a)
    /\ sc_leaderTerm ctx = currentTerm rf /\ sc_lastLogIndex ctx = firstIndex (log rf).
Proof.
  intros Hwf. pose proof (wf_ni _ Hwf). destruct (wf_log _ Hwf) as [_ (d & Hd & _) _].
  unfold sendSnapShot_begin, GetFirstLog. m_exec. destruct (is_state (state rf) Leader) eqn:Hs; simpl; [|by intros [= <- <-]].
  destruct (go_idx (nextIndex rf) p) as [x|] eqn:Hx; [|done]. simpl. destruct (go_idx (matchIndex rf) p) as [y|]; [|done]. simpl.
  destruct (log rf) as [|d' lg] eqn:Hlog; [done|]. injection Hd as ->. change (go_idx (d :: lg) 0) with (Ret d). simpl.
  intros [= <- <-]. split; [done|]. intros a ctx [= <- <-]. simpl. apply go_idx_lookup in Hx as [? Hx]. apply lookup_lt_Some in Hx.
  apply bool_decide_eq_true in Hs. split_and!; try done; [lia|]. unfold entryAt, firstIndex. simpl.
  by rewrite Z.leb_refl, Z.sub_diag.
Qed.

Lemma sendsnap_evolves i inc j t1 t2 rf rf' o :
  let c' := set_tasks (t1 ++ t2)
              (match o with
               | None => set_node i rf' c
               | Some (a, ctx) => add_requests [mkCall i (Some inc) j (ReqSnap a ctx)] (set_node i rf' c)
               end) in
  tasks c = t1 ++ TSendSnapShot i inc j :: t2 -> nodes c !! i = Some rf ->
  sendSnapShot_begin (Z.of_nat j) rf = (rf', Ret o) -> evolves c'.
Proof.
  intros c' Htk Hi Hr. destruct (gi_nodes _ _ _ _ HG _ _ Hi) as (l & k & f & Hl & Hk & HN).
  pose proof (ni_wf _ _ _ _ _ _ _ HN) as Hwf. destruct (node_peers _ _ _ HI _ _ Hi) as (Hpe & _).
  destruct (sendSnapShot_ret _ _ _ _ Hwf Hr) as [-> Ho].
  assert (Hn : nodes c' = <[i := rf]> (nodes c)) by (by destruct o as [[]|]).
  assert (Hsub : t1 ++ t2 ⊆ tasks c) by (rewrite Htk; intros x; rewrite !elem_of_app, elem_of_cons; tauto).
  assert (Hji : j <> i) by (apply (gi_tasks _ _ _ _ HG (TSendSnapShot i inc j)); rewrite Htk; set_solver).
  eapply soft_evolves; try done. intros l0 k0 Hl0 Hk0. assert (l0 = l) as -> by congruence. assert (k0 = k) as -> by congruence.
  destruct o as [[a ctx]|]; [|by apply tr_same]. destruct (Ho a ctx eq_refl) as (Hs & Hj & Et & Ei & Ett & Ect & Eci).
  eapply (tr_send _ _ _ _ [_]); try done; [simpl; intros t Ht; left; by apply Hsub|].
  intros call ->%list_elem_of_singleton. eapply call_grow; [by apply (grow_same g i (currentTerm rf) l k)|].
  pose proof (ni_first _ _ _ _ _ _ _ HN). pose proof (ni_prefix _ _ _ _ _ _ _ HN) as Hkl. pose proof (prefix_length _ _ Hkl).
  unfold call_inv. simpl. split_and!; [done|lia|]. exists l, (take f l).
  rewrite (ni_log _ _ _ _ _ _ _ HN), compact_first, compact_term in * by lia. injection Ett as Ett.
  unfold snap_call. rewrite Et, Ei, length_take, tip_take, Nat.min_l by lia.
  split_and!; try done; [by apply (ni_leader _ _ _ _ _ _ _ HN)|apply prefix_take|].
  eapply known_by_prefix; [|apply HN]. eapply prefix_shorter; [apply prefix_take|exact Hkl|]. rewrite length_take. lia.
Qed.

End Steps.
End Leader.
