(* ===== verification/SafetyFollower.v ===== *)
(** The receiver's side of replication: AppendEntries and InstallSnapshot keep every
    committed prefix and every acknowledged log, unless a leader was elected without it. *)
From Stdlib Require Import ZArith Lia.
From stdpp Require Import base list numbers relations.
From S2P Require Import Prelude RaftTypes RaftNode RaftVote RaftWf RaftSafe RaftLeader RaftSpec RaftCluster ElectionSafety LogTree RaftLogs RaftMoves RaftHandlers SafetyInv SafetySteps SafetyLocal SafetyLeader.

#[local] Open Scope Z_scope.

Section Follower.
Context {D : Type} `{LabGobOk D}.
Abbreviation Log := (list (LogEntry D)).
Implicit Types (rf : Raft D) (c : Cluster (D:=D)) (l m b k s : Log) (h : History) (g : Ghost (D:=D)).

Section Steps.
Context (n : nat) c h g (HI : Inv n c h) (HG : GI n c h g).
Abbreviation evolves := (evolves n h g).
Abbreviation sent_in := (sent (g_tree g) (g_elected g)).

Lemma sent_by_sent T i m : sent_by g T i m -> sent_in T m.
Proof. intros (Hm & b & Hb & Hp & Hc). split; [done|]. by exists i, b. Qed.

(** ** Facts of the tree, at the current auxiliary state *)

Lemma known_agree T T' k k' : known n g T k -> known n g T' k' -> comparable k k'.
Proof.
  destruct (gi_ghost _ _ _ _ HG) as [G1 G2 G3 _ _ _]. by eapply known_comparable.
Qed.

Lemma known_sent T T' i m k : sent_by g T i m -> known n g T' k -> T' <= T -> comparable k m.
Proof.
  intros Hm Hk Hle. destruct (gi_ghost _ _ _ _ HG) as [G1 G2 G3 _ _ _].
  eapply (sent_known n (g_tree g) (g_elected g) (g_acks g) G1 G2 (voted_in h) G3 T);
    [by eapply sent_by_sent|by eapply known_by_later].
Qed.

(** No leader of the same term hears from another leader. *)
Lemma not_leading i rf l k f T src m :
  node_inv n g i rf l k f -> i <> src -> sent_by g T src m -> T = currentTerm rf -> state rf <> Leader.
Proof.
  intros HN Hne (_ & b & Hb & _) -> Hs. destruct (ni_leader _ _ _ _ _ _ _ HN Hs) as [(_ & b' & Hb' & _) _ _].
  by destruct (ld_unique _ _ (go_lead _ _ _ (gi_ghost _ _ _ _ HG)) _ _ _ _ _ Hb Hb') as [-> _].
Qed.

(** ** A peer that takes over what a leader sent *)

Lemma node_replace i rf rf' l k f l' k' f' src m :
  node_inv n g i rf l k f -> wf rf' -> log rf' = compact l' f' -> (f' <= length k')%nat ->
  k' `prefix_of` l' -> known n g (currentTerm rf') k' -> 0 <= commitIndex rf' <= Z.of_nat (length k') ->
  currentTerm rf <= currentTerm rf' -> state rf' <> Leader -> state rf' <> Candidate ->
  sent_by g (currentTerm rf') src m ->
  (l' = l \/ (l' `prefix_of` m /\ ~ l' `prefix_of` l)) ->
  node_inv n g i rf' l' k' f'.
Proof.
  intros HN Hwf El Hf Hkl Hk Hc Ht Hnl Hnc Hm Hcase. destruct (gi_ghost _ _ _ _ HG) as [G1 G2 G3 G4 _ _].
  pose proof HN as [H1 H2 H3 H4 H5 H6 H7 H8 H9 H10 H11 H12 H13]. pose proof Hm as (Hmt & _).
  split; try done.
  - destruct Hcase as [->|[Hp _]]; [done|by apply (tr_prefix _ G1 _ m)].
  - destruct Hcase as [->|[Hp _]]; [lia|]. pose proof (tr_terms _ G1 _ _ Hmt Hp). pose proof (sent_tip _ _ _ _ HG _ _ _ Hm). lia.
  - intros x Hx. destruct (H9 x Hx) as [Htx [Hxl|Hsup]]; (split; [lia|]).
    + destruct Hcase as [->|[Hp Hno]]; [by left|].
      assert (Hxt : x ∈ g_tree g) by (by apply (tr_prefix _ G1 _ l)).
      eapply (replace_acked (g_tree g) (g_elected g) G1 G2 l l' m);
        [by eapply sent_by_sent|done|done|done|apply Hx|lia|done].
    + right. eapply superseded_mono; [reflexivity|exact Ht|done].
  - intros T b Hb. destruct (H12 T b Hb) as [? _]. split; [lia|done].
  - intros T b Hb. specialize (H13 T b Hb). lia.
Qed.

(** A peer that acknowledges a log of its term. *)
Lemma node_ack i rf l k f m l0 k0 :
  node_inv n g i rf l k f -> m `prefix_of` l -> tip m = currentTerm rf -> node_inv n (upd g i l0 k0 [(i, m)]) i rf l k f.
Proof.
  intros [H1 H2 H3 H4 H5 H6 H7 H8 H9 H10 H11 H12 H13] Hm Ht.
  assert (Hsub : g_acks g ⊆ [(i, m)] ++ g_acks g) by (intros x Hx; by right).
  split; try done; simpl.
  - by eapply (known_by_mono n (g_tree g) (g_tree g) (g_acks g)).
  - intros x (Hne & x' & [[= ->]|Hin]%elem_of_cons & Hp & Htx).
    + split; [lia|]. left. by etrans.
    + apply H9. split; [done|]. by exists x'.
  - intros Hs. destruct (H10 Hs) as [L1 L2 L3]. split; try done. intros j x Hx. destruct (L3 j x Hx) as [? Ha].
    split; [done|]. intros. by eapply acked_mono; [exact Hsub|apply Ha].
Qed.

(** The acknowledgement that the answer to a message carries. *)
Definition ack_if (i : nat) (T : Z) m : list (nat * Log) := if decide (tip m = T) then [(i, m)] else [].

Lemma ack_if_of i T m : 0 <= T -> m ∈ g_tree g -> acks_of g i T (ack_if i T m).
Proof.
  intros HT Hm. unfold ack_if. case_decide as Hd; [|apply acks_none]. rewrite <- Hd. apply acks_one; [done|].
  intros ->. unfold tip in Hd. simpl in Hd. lia.
Qed.

Lemma ack_if_acked i T m l k : 0 <= T -> tip m = T -> acked (g_acks (upd g i l k (ack_if i T m))) i m.
Proof.
  intros HT Hd. unfold ack_if. rewrite decide_True by done. split; [intros ->; unfold tip in Hd; simpl in Hd; lia|].
  exists m. split_and!; [left|done|done].
Qed.

Lemma node_ack_if i rf l k f m l0 k0 :
  node_inv n g i rf l k f -> m `prefix_of` l -> node_inv n (upd g i l0 k0 (ack_if i (currentTerm rf) m)) i rf l k f.
Proof. intros HN Hm. unfold ack_if. case_decide; [by apply node_ack|by apply node_same]. Qed.

(** ** Taking over a prefix *)

(** A peer moves to the log [l'] and acknowledges [m]. *)
Lemma ack_evolves c' i rf rf' l k f l' k' f' m :
  nodes c !! i = Some rf -> nodes c' = <[i := rf']> (nodes c) -> g_full g !! i = Some l -> g_known g !! i = Some k ->
  node_inv n g i rf l k f -> currentTerm rf <= currentTerm rf' -> vote_kept rf rf' ->
  node_inv n g i rf' l' k' f' -> (length k <= length k')%nat -> m ∈ g_tree g -> m `prefix_of` l' ->
  (forall g', g' = upd g i l' k' (ack_if i (currentTerm rf') m) -> grow g g' i (currentTerm rf') l' k' ->
     (tip m = currentTerm rf' -> acked (g_acks g') i m) -> traffic n c c' g') ->
  evolves c'.
Proof.
  intros Hi Hn Hl Hk HN Ht Hv HN' Hlen Hm Hml Htr. pose proof (wf_term _ (ni_wf _ _ _ _ _ _ _ HN)).
  assert (Ha : acks_of g i (currentTerm rf') (ack_if i (currentTerm rf') m)) by (apply ack_if_of; [lia|done]).
  eapply (upd_evolves _ _ _ _ HI HG c' i rf rf' k l' k' f' (ack_if i (currentTerm rf') m)); try done.
  - by apply node_ack_if.
  - by left.
  - apply Htr; [done|by eapply grow_upd|]. intros. apply ack_if_acked; [lia|done].
Qed.

(** ** AppendEntries *)

(** The receiver agrees with the sender up to the index both have checked. *)
Lemma agree_upto i rf l k f T src m (q : nat) :
  node_inv n g i rf l k f -> sent_by g T src m -> currentTerm rf <= T -> (q <= length l)%nat -> (q <= length m)%nat ->
  (f < q)%nat /\ term_at l q = term_at m q \/ q = f \/ (q < f)%nat /\ q = length m -> take q l = take q m.
Proof.
  intros HN Hm Ht Hql Hqm Hcase. destruct (gi_ghost _ _ _ _ HG) as [G1 G2 _ _ _ _].
  pose proof (known_sent _ _ _ _ _ Hm (ni_known _ _ _ _ _ _ _ HN) Ht) as Hcmp. pose proof (ni_first _ _ _ _ _ _ _ HN).
  pose proof (ni_prefix _ _ _ _ _ _ _ HN) as Hkl. pose proof (prefix_length _ _ Hkl).
  destruct Hcase as [[_ Heq]|Hq].
  - apply (log_matching (g_tree g) (g_elected g) G2).
    + eapply (tr_prefix _ G1); [apply HN|apply prefix_take].
    + eapply (tr_prefix _ G1); [apply Hm|apply prefix_take].
    + rewrite !length_take. lia.
    + by rewrite !tip_take.
  - assert (Hp : take q l `prefix_of` m).
    { assert (Hqk : take q l `prefix_of` k).
      { eapply prefix_shorter; [apply prefix_take|exact Hkl|]. rewrite length_take. lia. }
      apply comparable_shorter; [by eapply comparable_prefix|]. rewrite length_take. lia. }
    apply prefix_take_eq in Hp. rewrite length_take, Nat.min_l in Hp by done. done.
Qed.

Lemma prefix_of_take l m : take (length m) l = m -> m `prefix_of` l.
Proof. intros <-. apply prefix_take. Qed.

Lemma merged i rf l k f T src m (q : nat) (lg : Log) :
  node_inv n g i rf l k f -> sent_by g T src m -> currentTerm rf <= T -> (q <= length l)%nat -> (q <= length m)%nat ->
  (f < q)%nat /\ term_at l q = term_at m q \/ q = f \/ (q < f)%nat /\ q = length m ->
  lg = merge_log (compact l f) (Z.of_nat q) (drop q m) ->
  (lg = compact l f /\ m `prefix_of` l) \/ (lg = compact m f /\ ~ m `prefix_of` l).
Proof.
  intros HN Hm Ht Hql Hqm Hcase ->. pose proof (agree_upto _ _ _ _ _ _ _ _ _ HN Hm Ht Hql Hqm Hcase) as Hag.
  destruct (gi_ghost _ _ _ _ HG) as [G1 G2 _ _ _ _]. pose proof Hm as (Hmt & _).
  assert (Hdone : q = length m -> m `prefix_of` l).
  { intros ->. apply prefix_of_take. by rewrite Hag, firstn_all. }
  destruct (Nat.le_gt_cases f q) as [Hfq|Hqf]; cycle 1.
  { left. assert (q = length m) as Hq by (destruct Hcase as [[? _]|[?|[_ ?]]]; lia).
    rewrite drop_ge by lia. split; [done|by apply Hdone]. }
  destruct (merge_compact l m f q (tr_entries _ G1 m Hmt) Hfq Hql Hqm Hag) as [[-> Hc]|(-> & Hlt & Hc)].
  - left. split; [done|]. destruct Hc as [?|[Hle Htm]]; [by apply Hdone|]. by eapply prefix_by_term; [done|done|done|apply HN|done|done].
  - right. split; [done|]. intros Hp. apply Hc; [by apply prefix_length|]. symmetry. by apply prefix_tip.
Qed.

(** The new known prefix: the longer of the old one and what the leader reports. *)
Lemma node_accept i rf rf' l k f src a m p :
  node_inv n g i rf l k f -> wf rf' -> log_call n g a src m p -> currentTerm rf <= sl_Term a -> currentTerm rf' = sl_Term a ->
  state rf' <> Leader -> state rf' <> Candidate ->
  (log rf' = compact l f /\ m `prefix_of` l) \/ (log rf' = compact m f /\ ~ m `prefix_of` l) ->
  commitIndex rf' = commit_target (commitIndex rf) (sl_LeaderCommit a) (lastIndex (log rf')) ->
  lastIndex (log rf') <= 2 ^ 53 ->
  exists l' k', m `prefix_of` l' /\ (length k <= length k')%nat /\ node_inv n g i rf' l' k' f.
Proof.
  intros HN Hwf (_ & Hm & Hlc & Hkn) Hle Et Hnl Hnc Hlog Hci Hsmall.
  destruct (gi_ghost _ _ _ _ HG) as [G1 G2 G3 _ _ _]. pose proof (ni_first _ _ _ _ _ _ _ HN). pose proof (ni_commit _ _ _ _ _ _ _ HN).
  pose proof (ni_prefix _ _ _ _ _ _ _ HN) as Hkl. pose proof (prefix_length _ _ Hkl).
  assert (Hk : known n g (sl_Term a) k) by (eapply known_by_later; [exact Hle|apply HN]).
  assert (Hl' : exists l', m `prefix_of` l' /\ k `prefix_of` l' /\ log rf' = compact l' f
    /\ (l' = l \/ (l' `prefix_of` m /\ ~ l' `prefix_of` l))).
  { destruct Hlog as [[El Hp]|[El Hno]]; [exists l; split_and!; try done; by left|exists m].
    split_and!; try done; [|right; done].
    eapply (replace_known n (g_tree g) (g_elected g) (g_acks g) G1 G2 (voted_in h) G3 l m m (sl_Term a)); try done. by eapply sent_by_sent. }
  destruct Hl' as (l' & Hml & Hkl' & El & Hcase). pose proof (prefix_length _ _ Hml). pose proof (prefix_length _ _ Hkl').
  set (kc := take (Z.to_nat (sl_LeaderCommit a)) m) in *.
  destruct (longer_known n g (sl_Term a) l' k kc) as (k' & K1 & K2 & K3 & K4); [done|etrans; [apply prefix_take|done]|done|done|].
  assert (Hkc : length kc = Z.to_nat (sl_LeaderCommit a)) by (unfold kc; rewrite length_take; lia).
  exists l', k'. split_and!; [done|done|]. rewrite El, compact_last in Hci, Hsmall by lia.
  rewrite commit_target_exact in Hci by lia.
  eapply (node_replace i rf rf' l k f l' k' f src m); try done; rewrite ?Et; try done; try lia.
Qed.

Lemma deliver_log_evolves q1 call q2 a recode rf rf' env r :
  let c' := set_responses ((call, Some (RepLog r)) :: responses c)
              (set_requests (q1 ++ q2) (set_node (c_dst call) rf' c)) in
  requests c = q1 ++ call :: q2 -> c_req call = ReqLog a recode ->
  nodes c !! c_dst call = Some rf -> RequestSendLog env a rf = (rf', Ret r) ->
  lastIndex (log rf') <= 2 ^ 53 -> evolves c'.
Proof.
  intros c' Hq Ha Hi Hr Hsmall. set (i := c_dst call) in *.
  destruct (gi_nodes _ _ _ _ HG _ _ Hi) as (l & k & f & Hl & Hk & HN).
  assert (Hin : has_call c call) by (left; rewrite Hq; set_solver).
  pose proof (gi_calls _ _ _ _ HG _ Hin) as Hcall. unfold call_inv in Hcall. rewrite Ha in Hcall.
  destruct Hcall as (Hne & _ & m & p & Hlc). pose proof Hlc as (Hca & Hm & _).
  pose proof (ni_wf _ _ _ _ _ _ _ HN) as Hwf. pose proof (ni_first _ _ _ _ _ _ _ HN). pose proof (ni_prefix _ _ _ _ _ _ _ HN) as Hkl.
  pose proof (prefix_length _ _ Hkl). destruct (gi_ghost _ _ _ _ HG) as [G1 G2 _ _ _ _].
  assert (Hnl : sl_Term a = currentTerm rf -> state rf <> Leader) by (by eapply not_leading).
  assert (Hwf' : wf rf').
  { eapply wf_run; [|exact Hr]. apply wf_RequestSendLog; [done|]. split_and!; [by eapply carries_contig|by eapply carries_terms|done]. }
  assert (Hv : vote_kept rf rf') by (eapply (op_kept env (OpRequestSendLog a)); [by eapply ignore_ret|done]).
  assert (Htr : forall g' T l' k', grow g g' i T l' k' -> (slr_Success r = true -> tip m = sl_Term a -> acked (g_acks g') i m) -> traffic n c c' g').
  { intros g' T l' k' Hgr Hack. eapply tr_answer; try done; [by intros; left|]. intros x [= <-].
    unfold resp_inv. rewrite Ha. exists m, p. split; [by eapply log_call_grow|done]. }
  pose proof (append_result_spec env a m p l f rf rf' r (tr_entries _ G1 l (ni_tree _ _ _ _ _ _ _ HN)) ltac:(lia) (ni_log _ _ _ _ _ _ _ HN) Hca Hr) as Hres.
  assert (Hmt : m ∈ g_tree g) by apply Hm.
  remember (slr_Success r) as ok eqn:Hok. destruct Hres as [Hs|Hs Hle Et Hlen|q Hle Et Hql Hqm Hcase Elog Ecom Emi Hnc Hld].
  - eapply soft_evolves; try done. intros l0 k0 Hl0 Hk0. eapply (Htr _ (currentTerm rf)); [by apply grow_same|done].
  - assert (Hml : m `prefix_of` l).
    { etrans; [|exact Hkl]. apply comparable_shorter; [|lia].
      destruct (known_sent _ _ _ _ _ Hm (ni_known _ _ _ _ _ _ _ HN) Hle); [by right|by left]. }
    eapply (ack_evolves c' i rf rf' l k f l k f m); try done; [apply Hs|by eapply node_soft|].
    intros g' _ Hgr Hack. eapply Htr; [exact Hgr|]. rewrite <- Et. auto.
  - assert (Hnl' : state rf' <> Leader) by (intros Hs; destruct (Hld Hs) as [? ?]; apply Hnl; congruence).
    pose proof (merged i rf l k f _ _ m q (log rf') HN Hm Hle Hql Hqm Hcase Elog) as Hmg.
    destruct (node_accept i rf rf' l k f _ a m p HN Hwf' Hlc Hle Et Hnl' Hnc Hmg Ecom Hsmall) as (l' & k' & Hml & Hlen & HN').
    eapply (ack_evolves c' i rf rf' l k f l' k' f m); try done; [lia|].
    intros g' _ Hgr Hack. eapply Htr; [exact Hgr|]. rewrite <- Et. auto.
Qed.

(** ** InstallSnapshot *)

(** Fields the handler never assigns. *)
Definition fixed_fields rf rf' : Prop :=
  (peers rf', me rf', nextIndex rf', matchIndex rf') = (peers rf, me rf, nextIndex rf, matchIndex rf).

#[local] Instance fixed_fields_preorder : PreOrder fixed_fields.
Proof. split; unfold fixed_fields; [done|]. intros x y z ? ?. congruence. Qed.

Lemma fixed_Install env a : keeps fixed_fields (RequestInstallSnapShot (D:=D) env a).
Proof.
  assert (Hm : forall u : Raft D -> Raft D, (forall x, fixed_fields x (u x)) -> keeps fixed_fields (modify u)) by done.
  assert (Ha : forall tk t, keeps fixed_fields (AddCurrentTerm (D:=D) tk t)).
  { intros tk t rf. unfold AddCurrentTerm, SetElectionTime, persist. m_exec. by destruct (t <=? currentTerm rf). }
  assert (Hp : keeps fixed_fields (persist (D:=D))) by (by intros rf).
  unfold RequestInstallSnapShot, RequestInstallSnapShot_body, snapshot_covered, snapshot_conflicts, SetElectionTime.
  keeps_auto; first [apply Ha|apply Hp|apply Hm; by intros].
Qed.

Lemma install_soft_wf env a rf rf' r : wf rf -> RequestInstallSnapShot env a rf = (rf', Ret r) -> soft rf rf' -> wf rf'.
Proof.
  intros Hwf Hr Hs. pose proof (keeps_ret_run _ _ _ _ _ (fixed_Install env a) Hr) as [= Ep Em En Emi].
  eapply (wf_frame rf); try done; [apply Hs|apply Hs|]. intros Hl. apply (so_leader _ _ Hs Hl).
Qed.

(** The test for a snapshot that brings nothing new is exact. *)
Lemma holds_prefix i rf l k f T src m s a :
  node_inv n g i rf l k f -> sent_by g T src m -> s `prefix_of` m -> currentTerm rf <= T ->
  rs_LastIncludedIndex a = Z.of_nat (length s) -> rs_LastIncludedTerm a = tip s ->
  (holds_snapshot rf a <-> s `prefix_of` l \/ (length s <= f)%nat) /\ ((length s <= f)%nat -> s `prefix_of` l).
Proof.
  intros HN Hm Hsm Ht Ei Et. destruct (gi_ghost _ _ _ _ HG) as [G1 G2 _ _ _ _]. pose proof (ni_first _ _ _ _ _ _ _ HN).
  pose proof (ni_prefix _ _ _ _ _ _ _ HN) as Hkl. pose proof (prefix_length _ _ Hkl). pose proof Hm as (Hmt & _).
  unfold holds_snapshot. rewrite (ni_log _ _ _ _ _ _ _ HN), compact_first, Ei, Et. split.
  - split.
    + intros [?|He]; [right; lia|left]. assert (Hr : (f <= length s <= length l)%nat).
      { unfold entryAt in He. rewrite compact_first in He. destruct (Z.leb_spec (Z.of_nat f) (Z.of_nat (length s))); [|done].
        destruct (Nat.le_gt_cases (length s) (length l)); [lia|]. rewrite lookup_ge_None_2 in He; [done|].
        unfold compact. simpl. rewrite length_drop. lia. }
      rewrite compact_term in He by done. injection He as He.
      eapply (prefix_by_term (g_tree g) (g_elected g)); try done; [by apply (tr_prefix _ G1 _ m)|apply HN|lia].
    + intros [Hp|?]; [|left; lia]. destruct (Nat.le_gt_cases (length s) f); [left; lia|right].
      pose proof (prefix_length _ _ Hp). rewrite compact_term by lia. by rewrite (prefix_tip _ _ Hp).
  - intros Hle. etrans; [|exact Hkl]. apply comparable_shorter; [|lia]. eapply comparable_prefix; [exact Hsm|].
    destruct (known_sent _ _ _ _ _ Hm (ni_known _ _ _ _ _ _ _ HN) Ht); [by right|by left].
Qed.

Lemma node_install i rf rf' l k f src a ctx m s :
  node_inv n g i rf l k f -> wf rf' -> snap_call n g a ctx src m s -> currentTerm rf <= rs_Term a -> currentTerm rf' = rs_Term a ->
  state rf' <> Leader -> state rf' <> Candidate -> commitIndex rf' = commitIndex rf ->
  ~ s `prefix_of` l -> log rf' = [mkLogEntry (rs_LastIncludedTerm a) (rs_LastIncludedIndex a) None] ->
  (length k <= length s)%nat /\ node_inv n g i rf' s s (length s).
Proof.
  intros HN Hwf (Hm & Hsm & Ei & Et & Hkn & _) Hle Ect Hnl Hnc Ec Hno El. destruct (gi_ghost _ _ _ _ HG) as [G1 G2 G3 _ _ _].
  assert (Hk : known n g (rs_Term a) k) by (eapply known_by_later; [exact Hle|apply HN]).
  assert (Hks : k `prefix_of` s).
  { eapply (replace_known n (g_tree g) (g_elected g) (g_acks g) G1 G2 (voted_in h) G3 l s m (rs_Term a)); try done;
      [by eapply sent_by_sent|apply HN]. }
  pose proof (prefix_length _ _ Hks). split; [done|]. pose proof (ni_commit _ _ _ _ _ _ _ HN).
  eapply (node_replace i rf rf' l k f s s (length s) src m); try done; rewrite ?Ect; try done; try lia.
  - rewrite El, Ei, Et. unfold compact. by rewrite drop_all.
  - right. done.
Qed.

Lemma deliver_snap_evolves q1 call q2 a ctx rf rf' inc env r spawned :
  let c' := set_tasks (match spawned with
                       | Some (lastIncludedIndex, _) => TInstalled (c_dst call) inc lastIncludedIndex :: tasks c
                       | None => tasks c
                       end)
              (set_responses ((call, Some (RepSnap r)) :: responses c)
                (set_requests (q1 ++ q2) (set_node (c_dst call) rf' c))) in
  requests c = q1 ++ call :: q2 -> c_req call = ReqSnap a ctx ->
  nodes c !! c_dst call = Some rf -> RequestInstallSnapShot env a rf = (rf', Ret (r, spawned)) -> evolves c'.
Proof.
  intros c' Hq Ha Hi Hr. set (i := c_dst call) in *.
  destruct (gi_nodes _ _ _ _ HG _ _ Hi) as (l & k & f & Hl & Hk & HN).
  assert (Hin : has_call c call) by (left; rewrite Hq; set_solver).
  pose proof (gi_calls _ _ _ _ HG _ Hin) as Hcall. unfold call_inv in Hcall. rewrite Ha in Hcall.
  destruct Hcall as (Hne & _ & m & s & Hsc). pose proof Hsc as (Hm & Hsm & Ei & Et & _).
  pose proof (ni_wf _ _ _ _ _ _ _ HN) as Hwf. destruct (gi_ghost _ _ _ _ HG) as [G1 G2 _ _ _ _].
  assert (Hst : s ∈ g_tree g) by (apply (tr_prefix _ G1 _ m); [apply Hm|done]).
  assert (Hv : vote_kept rf rf') by (eapply (op_kept env (OpRequestInstallSnapShot a)); [by eapply ignore_ret|done]).
  assert (Htr : forall g' T l' k', grow g g' i T l' k' -> (rsr_Term r <= rs_Term a -> tip s = rs_Term a -> acked (g_acks g') i s) ->
    (forall x y, spawned = Some (x, y) -> exists k, g_known g' !! i = Some k /\ x <= Z.of_nat (length k)) -> traffic n c c' g').
  { intros g' T l' k' Hgr Hack Hsp. eapply tr_answer; try done.
    - simpl. destruct spawned as [[x y]|]; [|by intros; left]. intros t [->|?]%elem_of_cons; [right; by eapply Hsp|by left].
    - intros x [= <-]. unfold resp_inv. rewrite Ha. exists m, s. split; [by eapply snap_call_grow|done]. }
  destruct (install_ret env a rf rf' r spawned (wf_log _ Hwf) Hr) as [Hrt Hres].
  destruct Hres as [Hs Hlt|Hs Hle Ect Hh|Hle Ect Hh Hs Hnc El].
  - eapply soft_evolves; try done; [by eapply install_soft_wf|]. intros l0 k0 Hl0 Hk0.
    eapply (Htr _ (currentTerm rf)); [by apply grow_same|lia|done].
  - destruct (holds_prefix i rf l k f _ _ m s a HN Hm Hsm Hle Ei Et) as [Hiff Hsh].
    assert (Hsl : s `prefix_of` l) by (apply Hiff in Hh as [?|?]; [done|by apply Hsh]).
    eapply (ack_evolves c' i rf rf' l k f l k f s); try done; [apply Hs|by eapply node_soft; [|done|by eapply install_soft_wf]|].
    intros g' _ Hgr Hack. eapply Htr; [exact Hgr|rewrite <- Ect; auto|done].
  - destruct (holds_prefix i rf l k f _ _ m s a HN Hm Hsm Hle Ei Et) as [Hiff Hsh].
    assert (Hno : ~ s `prefix_of` l) by (intros Hp; apply Hh, Hiff; by left).
    assert (Hsne : s <> []) by (intros ->; apply Hno, prefix_nil).
    assert (Hnl : rs_Term a = currentTerm rf -> state rf <> Leader) by (by eapply not_leading).
    assert (Hnl' : state rf' <> Leader) by (intros Hs'; destruct (s0_leader _ _ Hs Hs') as [? ?]; apply Hnl; congruence).
    assert (Hwf' : wf rf').
    { eapply wf_run; [|exact Hr]. apply wf_RequestInstallSnapShot; [done|]. split; [|done]. rewrite Et.
      apply entries_tip; [by apply G1|done]. }
    destruct (node_install i rf rf' l k f _ a ctx m s HN Hwf' Hsc Hle Ect Hnl' Hnc (s0_commit _ _ Hs) Hno El) as [Hlen HN'].
    eapply (ack_evolves c' i rf rf' l k f s s (length s) s); try done; [apply Hs|].
    intros g' Hg' Hgr Hack. eapply Htr; [exact Hgr|rewrite <- Ect; auto|]. intros x y [= <- _]. exists s.
    rewrite Hg'. simpl. rewrite list_lookup_insert_eq by (by eapply lookup_lt_Some). split; [done|lia].
Qed.

End Steps.
End Follower.
