(* ===== verification/SafetyRun.v ===== *)
(** The invariant along executions of the cluster. *)
From Stdlib Require Import ZArith Lia.
From stdpp Require Import base list numbers relations.
From S2P Require Import Prelude RaftTypes RaftNode RaftVote RaftWf RaftSafe RaftLeader RaftSpec RaftCluster ElectionSafety LogTree RaftLogs RaftMoves RaftHandlers SafetyInv SafetySteps SafetyLocal SafetyTerms SafetyLeader SafetyFollower.

#[local] Open Scope Z_scope.

Section Run.
Context {D : Type} `{LabGobOk D}.
Abbreviation Log := (list (LogEntry D)).
Implicit Types (rf : Raft D) (c : Cluster (D:=D)) (l m b k s : Log) (h : History) (g : Ghost (D:=D)).

(** A follower takes the minimum of two indices as float64, so the indices must be
    representable: [2^53] is the largest bound up to which they all are. *)
Definition small c : Prop := Forall (fun rf => lastIndex (log rf) <= 2 ^ 53) (nodes c).

Definition small_step c c' : Prop := step c c' /\ small c'.

Lemma small_steps c c' : rtc small_step c c' -> rtc step c c'.
Proof. induction 1 as [|c c1 c2 [Hs _] _ IH]; [done|by eapply rtc_l]. Qed.

(** ** One step *)

Lemma step_evolves n c h g c' : Inv n c h -> GI n c h g -> small_step c c' -> evolves n h g c'.
Proof.
  intros HI HG [Hst Hsmall]. destruct Hst as
    [i inc rf rf' now env o Hi _ Hr | e e1 e2 rf rf' He Hi _ Hr | i rf rf' cmd r Hi Hr
    | i inc rf rf' o Hi _ Hr | i inc j t1 t2 rf rf' o Ht Hi _ Hr
    | q1 call q2 a rf rf' env r Hl Ha Hi Hr | q1 call q2 a recode rf rf' env r Hl Ha Hi Hr
    | q1 call q2 a ctx rf rf' inc env r spawned Hl Ha Hi _ Hr | q1 call q2 Hl | q1 call q2 Hl _ | q1 call r q2 Hl
    | q1 call r q2 a e1 e e2 rf rf' env t inc Hl Ha _ _ Hi He Hsrc Harg reply Hr
    | q1 call r q2 a rf rf' env t t' inc Hl Ha _ _ Hi _ Hr | q1 call r q2 a recode rf rf' env inc Hl Ha _ _ Hi Hr
    | q1 call r q2 a ctx rf rf' env inc Hl Ha _ _ Hi Hr | q1 call r q2 Hl _
    | t1 i inc lii t2 rf rf' Ht _ Hi Hr | i rf rf' index snap Hi Hx Hr | i inc rf rf' batch Hi _ _ _ Hr
    | t1 i inc batch t2 rf rf' Ht _ Hi _ Hr | i rf rf0 rf' now Hi Hst Hr ].
  - destruct o as [args|]; [by eapply tick_evolves|]. apply ticker_none in Hr as ->.
    eapply soft_evolves; try done; [by eapply node_wf|by intros; apply tr_same].
  - by eapply decide_evolves.
  - by eapply start_evolves.
  - by eapply sendlog_evolves.
  - by eapply sendsnap_evolves.
  - by eapply deliver_vote_evolves.
  - eapply deliver_log_evolves; try done. eapply (Forall_lookup_1 _ _ (c_dst call) _ Hsmall). simpl.
    by rewrite list_lookup_insert_eq by (by eapply lookup_lt_Some).
  - by eapply deliver_snap_evolves.
  - eapply still_evolves; try done. eapply (tr_answer _ _ _ _ q1 call q2 None); try done. by intros; left.
  - eapply still_evolves; try done. eapply (tr_detach _ _ _ _ q1 call q2); try done.
    apply (gi_calls _ _ _ _ HG). left. rewrite Hl. set_solver.
  - eapply still_evolves; try done. eapply (tr_consume _ _ _ _ q1 call r q2); try done; [by right|]. intros e He. by exists e.
  - eapply vote_reply_evolves; try done. intros g'. eapply (tr_consume _ _ _ _ q1 call r q2); try done; [by left|]. simpl. rewrite He.
    intros e' [Hin|[->|Hin]%elem_of_cons]%elem_of_app; [exists e'|exists e|exists e'];
      (split; [rewrite elem_of_app, elem_of_cons; tauto|done]).
  - eapply vote_reply_evolves; try done. intros g'. eapply (tr_consume _ _ _ _ q1 call r q2); try done; [by left|]. intros e He. by exists e.
  - by eapply log_reply_evolves.
  - by eapply snap_reply_evolves.
  - eapply still_evolves; try done. eapply (tr_consume _ _ _ _ q1 call r q2); try done; [by left|]. intros e He. by exists e.
  - destruct (gi_tasks _ _ _ _ HG (TInstalled i inc lii)) as (k & Hk & Hle); [rewrite Ht; set_solver|].
    eapply installed_evolves; try done. intros g'. apply tr_same; try done. simpl. rewrite Ht. intros x. rewrite !elem_of_app, elem_of_cons. tauto.
  - eapply service_snapshot_evolves; try done. by intros; apply tr_same.
  - eapply apply_collect_evolves; try done. intros g'. eapply (tr_send _ _ _ _ []); try done; [|by intros ? ?%elem_of_nil].
    simpl. intros t [->|?]%elem_of_cons; [by right|by left].
  - eapply apply_finish_evolves; try done. intros g'. apply tr_same; try done. simpl. rewrite Ht. intros x. rewrite !elem_of_app, elem_of_cons. tauto.
  - eapply crash_evolves; try done. intros g'. apply tr_same; try done. simpl. intros e He. by apply list_elem_of_filter in He as [_ ?].
Qed.

(** ** The initial state *)

Definition blank (n : nat) : Ghost (D:=D) := mkGhost (replicate n []) (replicate n []) [[]] [] [] [].

Lemma blank_log n i now rf :
  Make n (Z.of_nat i) now MakePersister = (rf, Ret tt) -> (i < n)%nat ->
  wf rf /\ log rf = compact [] 0 /\ currentTerm rf = 0 /\ commitIndex rf = 0 /\ state rf = Follower.
Proof.
  intros Hr Hi. assert (Hrec : recovered (D:=D) MakePersister = (0, -1, compact [] 0, [])) by done.
  assert (Hl : log_ok (compact (D:=D) [] 0)) by (apply compact_ok; [by split|done]).
  destruct (wp_Make n (Z.of_nat i) now MakePersister _ _ _ _ Hrec Hl ltac:(lia)) as (rf2 & Hr2 & [= Ep Eme _ Est] & [= Ett _ Elg _] & Ec & _ & Eni & Emi).
  rewrite Hr in Hr2. injection Hr2 as <-. split_and!; try done.
  split; [by rewrite Elg|by rewrite Eni, Ep, length_replicate|by rewrite Emi, Ep, length_insert, length_replicate| |lia|by rewrite Est].
  rewrite Ep, Eme. lia.
Qed.

Lemma init_node n now i rf : nodes (init (D:=D) n now) !! i = Some rf -> node_inv n (blank n) i rf [] [] 0.
Proof.
  simpl. unfold init_nodes. rewrite list_lookup_fmap. intros Hi.
  destruct (seq 0 n !! i) as [j|] eqn:Hs; simplify_eq/=. apply lookup_seq in Hs as [-> Hlt].
  destruct (Make_blank (D:=D) n i (now i) Hlt) as (rf & Hm & _). simpl in *. rewrite Hm. simpl.
  destruct (blank_log _ _ _ _ Hm Hlt) as (Hwf & El & Et & Ec & Es).
  split; simpl; rewrite ?Et, ?Es; try done; try (by intros ? ? ?%elem_of_nil).
  - left.
  - by left.
  - lia.
  - intros m (_ & m' & Hin & _). by apply elem_of_nil in Hin.
Qed.

Lemma init_GI n now : GI n (init (D:=D) n now) (held_votes (nodes (init (D:=D) n now))) (blank n).
Proof.
  split.
  - split; simpl; try (by intros; exfalso; set_solver).
    + split; [left| | |].
      * by intros l ->%list_elem_of_singleton.
      * intros l m ->%list_elem_of_singleton ->%prefix_nil_inv. left.
      * by intros l m ->%list_elem_of_singleton ->%prefix_nil_inv.
    + split; by intros; exfalso; set_solver.
  - intros i rf Hi. exists [], [], 0%nat. pose proof (init_lookup _ _ _ _ Hi) as (Hlt & _). simpl.
    rewrite !lookup_replicate_2 by done. split_and!; try done. by eapply init_node.
  - intros v T x Hin. apply elem_of_held in Hin as (rf & Hv & Hne & _). by apply init_lookup in Hv as (_ & ? & _).
  - simpl. intros call [Hc|Hc]; by apply elem_of_nil in Hc.
  - simpl. by intros call r Hc%elem_of_nil.
  - simpl. by intros e He%elem_of_nil.
  - simpl. by intros t Ht%elem_of_nil.
Qed.

(** ** Executions *)

Definition safe_at n c h g : Prop := Inv n c h /\ GI n c h g.

Lemma safe_later n c1 h1 g1 c2 :
  safe_at n c1 h1 g1 -> rtc small_step c1 c2 -> exists h2 g2, safe_at n c2 h2 g2 /\ extends g1 g2.
Proof.
  intros H1 Hs. revert h1 g1 H1. induction Hs as [c|c c' c2 Hst Hs IH]; intros h1 g1 [HI HG].
  { exists h1, g1. split; [done|reflexivity]. }
  destruct (step_evolves _ _ _ _ _ HI HG Hst) as (g' & HG' & Hex). pose proof (step_inv _ _ _ _ HI (proj1 Hst)) as HI'.
  destruct (IH _ _ (conj HI' HG')) as (h2 & g2 & Hsafe & Hex2). exists h2, g2. split; [done|by etrans].
Qed.

Lemma safe_reachable n now c : rtc small_step (init (D:=D) n now) c -> exists h g, safe_at n c h g.
Proof.
  intros Hs. destruct (safe_later n (init n now) _ _ c (conj (init_inv n now) (init_GI n now)) Hs) as (h & g & Hsafe & _).
  by exists h, g.
Qed.

(** ** What the invariant says of the logs in memory *)

Section State.
Context (n : nat) c h g (HS : safe_at n c h g).

Lemma node_facts i rf :
  nodes c !! i = Some rf -> exists l k (f : nat), node_inv n g i rf l k f /\ firstIndex (log rf) = Z.of_nat f
    /\ lastIndex (log rf) = Z.of_nat (length l) /\ (f <= length k <= length l)%nat
    /\ forall x, firstIndex (log rf) < x -> entryAt (log rf) x = l !! Z.to_nat (x - 1).
Proof.
  intros Hi. destruct HS as [HI HG]. destruct (gi_nodes _ _ _ _ HG _ _ Hi) as (l & k & f & _ & _ & HN). exists l, k, f.
  pose proof (ni_first _ _ _ _ _ _ _ HN). pose proof (prefix_length _ _ (ni_prefix _ _ _ _ _ _ _ HN)).
  rewrite (ni_log _ _ _ _ _ _ _ HN), compact_first, compact_last by lia. split_and!; try done. intros x Hx.
  pose proof (compact_entry l f (Z.to_nat x) ltac:(lia)) as He. rewrite Z2Nat.id in He by lia. rewrite He. f_equal. lia.
Qed.

Lemma known_lookup l k (x : nat) e : k `prefix_of` l -> (x < length k)%nat -> l !! x = Some e -> k !! x = Some e.
Proof. intros [w ->] Hx. by rewrite lookup_app_l. Qed.

End State.
End Run.
