(* ===== verification/Scheduler.v ===== *)
(** An executable scheduler for clusters: an event names the goroutine, message or task
    that moves next, by its position in the state, and [fire] computes the next state.
    Every event that fires is a step of [RaftCluster], so a list of events is an
    execution that can be evaluated. *)
From Stdlib Require Import ZArith Lia.
From stdpp Require Import base list numbers gmap relations.
From S2P Require Import Prelude RaftTypes RaftNode RaftVote RaftWf RaftSafe RaftCluster SafetyRun.

#[local] Open Scope Z_scope.

#[export] Instance RequestVoteArgs_eq_dec : EqDecision RequestVoteArgs.
Proof. solve_decision. Defined.

Section Pick.
Context {D : Type}.

(** The element at [k] with what is before and after it. *)
Definition pick {A : Type} (k : nat) (l : list A) : option (list A * A * list A) :=
  x ← l !! k; Some (take k l, x, drop (S k) l).

Lemma pick_split {A : Type} k (l : list A) l1 x l2 : pick k l = Some (l1, x, l2) -> l = l1 ++ x :: l2.
Proof.
  unfold pick. destruct (l !! k) as [y|] eqn:Hk; [|done]. intros [= <- <- <-]. symmetry. by apply take_drop_middle.
Qed.

(** An operation of a peer, when it returns. *)
Definition runs {A : Type} (m : M (Raft D) A) (rf : Raft D) : option (Raft D * A) :=
  match m rf with (rf', Ret a) => Some (rf', a) | (_, Panic) => None end.

Lemma runs_ret {A : Type} (m : M (Raft D) A) rf rf' a : runs m rf = Some (rf', a) -> m rf = (rf', Ret a).
Proof. unfold runs. destruct (m rf) as [x [y|]]; [|done]. by intros [= -> ->]. Qed.

End Pick.

(** Open the computation of an event. *)
Ltac opens :=
  repeat match goal with
  | E : None = Some _ |- _ => discriminate E
  | E : Some _ = Some _ |- _ => injection E as <-
  | E : pick ?k ?l ≫= _ = Some _ |- _ => let P := fresh "Hp" in destruct (pick k l) as [[[? ?] ?]|] eqn:P; simpl in E; [apply pick_split in P|]
  | E : ?x !! ?i ≫= _ = Some _ |- _ => let P := fresh "Hl" in destruct (x !! i) eqn:P; simpl in E
  | E : runs ?m ?rf ≫= _ = Some _ |- _ => let P := fresh "Hr" in destruct (runs m rf) as [[? ?]|] eqn:P; simpl in E; [apply runs_ret in P|]
  | E : c_inc ?x ≫= _ = Some _ |- _ => let P := fresh "Hi" in destruct (c_inc x) eqn:P; simpl in E
  end.

Section Scheduler.
Context {D : Type} `{LabGobOk D}.
Implicit Types (c : Cluster (D:=D)) (rf : Raft D).

Inductive Event :=
| ETick (i : nat) (now : Z) (env : Env)
| EDecide (k : nat)
| EStart (i : nat) (cmd : D)
| ESendLog (i : nat)
| ESendSnap (k : nat)
| EDeliver (k : nat) (env : Env)
| ELoseRequest (k : nat)
| EDetach (k : nat)
| ELoseResponse (k : nat)
| EResume (k : nat) (env : Env)
| EInstalled (k : nat)
| ESnapshot (i : nat) (index : Z) (snap : bytes)
| ECollect (i : nat)
| EFinish (k : nat)
| ECrash (i : nat) (now : Z).

Definition fire_deliver (k : nat) (env : Env) c : option (Cluster (D:=D)) :=
  '(l1, call, l2) ← pick k (requests c);
  rf ← nodes c !! c_dst call;
  let answered rf' r := set_responses ((call, Some r) :: responses c) (set_requests (l1 ++ l2) (set_node (c_dst call) rf' c)) in
  match c_req call with
  | ReqVote a => '(rf', r) ← runs (RequestVote env a) rf; Some (answered rf' (RepVote r))
  | ReqLog a _ => '(rf', r) ← runs (RequestSendLog env a) rf; Some (answered rf' (RepLog r))
  | ReqSnap a _ =>
      inc ← incs c !! c_dst call;
      '(rf', (r, spawned)) ← runs (RequestInstallSnapShot env a) rf;
      Some (set_tasks (match spawned with
                       | Some (lastIncludedIndex, _) => TInstalled (c_dst call) inc lastIncludedIndex :: tasks c
                       | None => tasks c
                       end) (answered rf' (RepSnap r)))
  end.

(** The election that a vote belongs to. *)
Fixpoint find_election (src : nat) (a : RequestVoteArgs) (l : list Election) : option (list Election * Election * list Election) :=
  match l with
  | [] => None
  | e :: l' =>
      if decide (el_src e = src /\ el_args e = a) then Some ([], e, l')
      else '(e1, x, e2) ← find_election src a l'; Some (e :: e1, x, e2)
  end.

Definition vote_of (r : option Response) : option RequestVoteReply := match r with Some (RepVote v) => Some v | _ => None end.

Definition granters_of (call : Call (D:=D)) (r : option Response) (e : Election) : list nat :=
  match vote_of r with
  | Some v => if rvr_VoteGranted v then c_dst call :: el_granters e else el_granters e
  | None => el_granters e
  end.

Definition fire_vote_reply env (l : list (Call (D:=D) * option Response)) (call : Call (D:=D)) r a rf c : option (Cluster (D:=D)) :=
  match find_election (c_src call) a (elections c) with
  | Some (e1, e, e2) =>
      '(rf', t) ← runs (onVoteReply env (vote_of r) (el_tally e)) rf;
      Some (set_elections (e1 ++ mkElection (el_src e) a t (granters_of call r e) :: e2)
              (set_responses l (set_node (c_src call) rf' c)))
  | None =>
      '(rf', _) ← runs (onVoteReply env (vote_of r) tally0) rf;
      Some (set_responses l (set_node (c_src call) rf' c))
  end.

Definition fire_resume (k : nat) (env : Env) c : option (Cluster (D:=D)) :=
  '(l1, (call, r), l2) ← pick k (responses c);
  if decide (incs c !! c_src call = c_inc call) then
    _ ← c_inc call; rf ← nodes c !! c_src call;
    match c_req call, r with
    | ReqVote a, _ => fire_vote_reply env (l1 ++ l2) call r a rf c
    | ReqLog a recode, Some (RepLog r') =>
        '(rf', _) ← runs (sendLog_reply env (Z.of_nat (c_dst call)) a recode r') rf;
        Some (set_responses (l1 ++ l2) (set_node (c_src call) rf' c))
    | ReqSnap a ctx, Some (RepSnap r') =>
        '(rf', _) ← runs (sendSnapShot_reply env (Z.of_nat (c_dst call)) ctx r') rf;
        Some (set_responses (l1 ++ l2) (set_node (c_src call) rf' c))
    | _, None => Some (set_responses (l1 ++ l2) c)
    | _, _ => None
    end
  else Some (set_responses (l1 ++ l2) c).

Definition applying (i inc : nat) (t : Task (D:=D)) : bool :=
  match t with TApply j k _ => bool_decide (j = i /\ k = inc) | _ => false end.

Definition gate_open (g : Gate) : bool := match g with GateSend => true | _ => false end.

Definition fire (ev : Event) c : option (Cluster (D:=D)) :=
  match ev with
  | ETick i now env =>
      rf ← nodes c !! i; inc ← incs c !! i; '(rf', o) ← runs (ticker_begin now env) rf;
      Some (match o with
            | None => set_node i rf' c
            | Some a => set_elections (mkElection i a tally0 [] :: elections c)
                          (add_requests (vote_calls (length (nodes c)) i inc a) (set_node i rf' c))
            end)
  | EDecide k =>
      '(e1, e, e2) ← pick k (elections c); rf ← nodes c !! el_src e;
      if keepWaiting (length (nodes c)) (el_tally e) then None
      else '(rf', _) ← runs (ticker_decide (el_args e) (el_tally e)) rf;
           Some (set_elections (e1 ++ e2) (set_node (el_src e) rf' c))
  | EStart i cmd => rf ← nodes c !! i; '(rf', _) ← runs (Start cmd) rf; Some (set_node i rf' c)
  | ESendLog i =>
      rf ← nodes c !! i; inc ← incs c !! i; '(rf', o) ← runs sendLogTicketCore_begin rf;
      Some (match o with
            | None => set_node i rf' c
            | Some xs => set_tasks (snap_tasks i inc xs ++ tasks c) (add_requests (log_calls i inc xs) (set_node i rf' c))
            end)
  | ESendSnap k =>
      '(t1, t, t2) ← pick k (tasks c);
      match t with
      | TSendSnapShot i inc j =>
          rf ← nodes c !! i;
          if decide (incs c !! i = Some inc) then
            '(rf', o) ← runs (sendSnapShot_begin (Z.of_nat j)) rf;
            Some (set_tasks (t1 ++ t2)
                    (match o with
                     | None => set_node i rf' c
                     | Some (a, ctx) => add_requests [mkCall i (Some inc) j (ReqSnap a ctx)] (set_node i rf' c)
                     end))
          else None
      | _ => None
      end
  | EDeliver k env => fire_deliver k env c
  | ELoseRequest k =>
      '(l1, call, l2) ← pick k (requests c); Some (set_responses ((call, None) :: responses c) (set_requests (l1 ++ l2) c))
  | EDetach k =>
      '(l1, call, l2) ← pick k (requests c); _ ← c_inc call;
      Some (set_responses ((call, None) :: responses c) (set_requests (l1 ++ detached call :: l2) c))
  | ELoseResponse k =>
      '(l1, (call, _), l2) ← pick k (responses c); Some (set_responses (l1 ++ (call, None) :: l2) c)
  | EResume k env => fire_resume k env c
  | EInstalled k =>
      '(t1, t, t2) ← pick k (tasks c);
      match t with
      | TInstalled i inc lastIncludedIndex =>
          rf ← nodes c !! i;
          if decide (incs c !! i = Some inc) then
            '(rf', _) ← runs (installSnapshotDone lastIncludedIndex) rf; Some (set_tasks (t1 ++ t2) (set_node i rf' c))
          else None
      | _ => None
      end
  | ESnapshot i index snap =>
      rf ← nodes c !! i;
      if index <=? commitIndex rf then '(rf', _) ← runs (Snapshot index snap) rf; Some (set_node i rf' c) else None
  | ECollect i =>
      rf ← nodes c !! i; inc ← incs c !! i; '(_, w) ← runs applyTicket_waits rf;
      if w || existsb (applying i inc) (tasks c) then None
      else '(rf', batch) ← runs applyTicket_collect rf; Some (set_tasks (TApply i inc batch :: tasks c) (set_node i rf' c))
  | EFinish k =>
      '(t1, t, t2) ← pick k (tasks c);
      match t with
      | TApply i inc batch =>
          rf ← nodes c !! i; '(_, g) ← runs (applyTicket_gate batch) rf;
          if decide (incs c !! i = Some inc) then
            if gate_open g then '(rf', _) ← runs (applyTicket_finish batch) rf; Some (set_tasks (t1 ++ t2) (set_node i rf' c))
            else None
          else None
      | _ => None
      end
  | ECrash i now =>
      rf ← nodes c !! i; match Make (peers rf) (me rf) now (persister rf) with
                         | (rf', Ret _) => Some (restart i rf' c)
                         | _ => None
                         end
  end.

(** ** Every event that fires is a step *)

Lemma find_election_split src a l e1 e e2 :
  find_election src a l = Some (e1, e, e2) -> l = e1 ++ e :: e2 /\ el_src e = src /\ el_args e = a.
Proof.
  revert e1. induction l as [|x l IH]; intros e1; simpl; [done|]. case_decide as Hd.
  - destruct Hd as [<- <-]. by intros [= <- <- <-].
  - destruct (find_election src a l) as [[[f1 f] f2]|]; [|done]. simpl. intros [= <- <- <-].
    destruct (IH _ eq_refl) as (-> & ? & ?). done.
Qed.

Lemma find_election_none src a l e : find_election src a l = None -> e ∈ l -> el_src e = src -> el_args e <> a.
Proof.
  induction l as [|x l IH]; simpl; [by intros _ ?%elem_of_nil|]. case_decide as Hd; [done|].
  destruct (find_election src a l) as [[[]]|]; [done|]. intros _ [->|?]%elem_of_cons; [tauto|by apply IH].
Qed.

Lemma waits_same rf rf' w : applyTicket_waits rf = (rf', Ret w) -> rf' = rf.
Proof. unfold applyTicket_waits, GetFirstLog. m_exec. repeat (case_match; simplify_eq/=); by intros [= ->]. Qed.

Lemma gate_same (batch : list (LogEntry D)) rf rf' g : applyTicket_gate batch rf = (rf', Ret g) -> rf' = rf.
Proof. unfold applyTicket_gate. m_exec. repeat (case_match; simplify_eq/=); by intros [= ->]. Qed.

Lemma fire_deliver_sound k env c c' : fire_deliver k env c = Some c' -> step c c'.
Proof.
  unfold fire_deliver. intros E. opens. match goal with C : Call |- _ => destruct (c_req C) as [a|a recode|a ctx] eqn:Hq end; opens.
  - by eapply step_deliver_vote.
  - by eapply step_deliver_log.
  - match goal with p : (_ * option _)%type |- _ => destruct p end. opens. by eapply step_deliver_snap.
Qed.

Lemma resume_sound k env c c' : fire_resume k env c = Some c' -> step c c'.
Proof.
  unfold fire_resume. intros E. opens. destruct p as [call r]. case_decide as Hd; opens; cycle 1.
  { eapply step_discard; [exact Hp|]. by right. }
  destruct (c_req call) as [a|a recode|a ctx] eqn:Hq.
  - unfold fire_vote_reply in E. destruct (find_election (c_src call) a (elections c)) as [[[e1 e] e2]|] eqn:Hf; opens.
    + apply find_election_split in Hf as (He & Hs & Ha).
      eapply (step_vote_reply c l call r l0 a e1 e e2); try done.
    + eapply step_vote_late; try done. intros e. by eapply find_election_none.
  - destruct r as [[| |]|]; opens.
    + by eapply step_log_reply; try done; destruct u.
    + eapply step_discard; [exact Hp|]. left. split; [done|]. intros x. by rewrite Hq.
  - destruct r as [[| |]|]; opens.
    + by eapply step_snap_reply; try done; destruct u.
    + eapply step_discard; [exact Hp|]. left. split; [done|]. intros x. by rewrite Hq.
Qed.

Lemma fire_sound ev c c' : fire ev c = Some c' -> step c c'.
Proof.
  destruct ev; simpl; intros E; opens; try (by apply fire_deliver_sound in E); try (by apply resume_sound in E).
  - by eapply step_tick.
  - destruct (keepWaiting _ _) eqn:Hk; opens. eapply step_decide; try done. by destruct u.
  - by eapply step_start.
  - by eapply step_sendlog.
  - destruct t; [|done..]. opens. case_decide; opens. by eapply step_sendsnap.
  - by eapply step_lose_request.
  - eapply step_detach; [done|congruence].
  - destruct p as [call r]. opens. by eapply step_lose_response.
  - destruct t; [done| |done]. opens. case_decide; opens. eapply step_installed; try done. by destruct u.
  - destruct (Z.leb_spec index (commitIndex r)); opens. eapply step_service_snapshot; try done. by destruct u.
  - destruct b; [done|]. destruct (existsb _ _) eqn:Hx; simpl in E; [done|]. opens.
    pose proof (waits_same _ _ _ Hr) as ->. eapply step_apply_collect; try done. intros b Hb.
    assert (Ht : existsb (applying i n) (tasks c) = true); [|congruence].
    apply existsb_exists. exists (TApply i n b). split; [by apply list_elem_of_In|]. simpl. by rewrite bool_decide_eq_true_2.
  - destruct t; [done|done|]. opens. case_decide; [|done]. destruct g; simpl in E; [done|done|]. opens.
    pose proof (gate_same _ _ _ _ Hr) as ->. eapply step_apply_finish; try done. by destruct u.
  - destruct (Make _ _ _ _) as [rf' [[]|]] eqn:Hm; [|done]. injection E as <-. eapply step_crash; try done. by left.
Qed.

(** ** Executions *)

(** A list of events, with the bound on the indices checked on the way. *)
Definition fits c : bool := forallb (fun rf => lastIndex (log rf) <=? 2 ^ 53) (nodes c).

Definition fire_small (ev : Event) c : option (Cluster (D:=D)) := c' ← fire ev c; if fits c' then Some c' else None.

Definition schedule (evs : list Event) c : option (Cluster (D:=D)) :=
  foldl (fun o ev => o ≫= fire_small ev) (Some c) evs.

Lemma fits_small c : fits c = true -> small c.
Proof.
  intros Hf. apply Forall_forall. intros rf Hin. unfold fits in Hf. rewrite forallb_forall in Hf.
  apply Z.leb_le, Hf. by apply list_elem_of_In.
Qed.

Lemma fire_small_sound ev c c' : fire_small ev c = Some c' -> small_step c c'.
Proof.
  unfold fire_small. destruct (fire ev c) as [x|] eqn:E; [|done]. simpl. destruct (fits x) eqn:Hf; [|done]. intros [= <-].
  split; [by apply fire_sound in E|by apply fits_small].
Qed.

Lemma schedule_sound evs c c' : schedule evs c = Some c' -> rtc small_step c c'.
Proof.
  unfold schedule. revert c c'. induction evs as [|ev evs IH] using rev_ind; intros c c'; simpl; [by intros [= <-]|].
  rewrite foldl_app. simpl. destruct (foldl _ (Some c) evs) as [x|] eqn:E; [|done]. intros Hf%fire_small_sound.
  etrans; [by apply IH|by apply rtc_once].
Qed.

End Scheduler.
