(* ===== verification/SharedLog.v ===== *)
(** The arrays behind the logs.

    The peers of [RaftCluster] hold their logs as values, and a message is a value from
    the moment it is prepared.  In the program rf.log is a slice, a window on an array, and
    the entries of a message, [rf.log[k:]], are a window on the same array until the RPC
    is encoded, which happens after rf.mu was released; in between RequestSendLog may
    write into the array, because [append(rf.log[:k], ...)] does so when there is room.

    This file puts the arrays under the cluster: [Memory] has the heap, the slice that is
    each peer's rf.log and the slices of the messages that are still to be encoded, and
    [wire R] is a relation [R] on states with a cluster, together with the memory and with
    encoding as a step of its own, which replaces the entries of the message by what its
    slice shows then.  An execution is [intact] when no step changes what the slice of a
    waiting message shows.  The intact executions of [wire R] are executions of [R]
    ([intact_runs]), so what holds of these holds of the program as long as no message is
    overwritten before it is encoded.  [Delayed] shows what happens otherwise.

    The goroutine that made the RPC looks at the slice again when the answer comes
    (raft.go:974-981), but only at its length and at the Index of its last entry, and these
    do not change: a place of an array holds entries of one index only, since a log whose
    first index changes is copied into a new array. *)
From Stdlib Require Import ZArith Lia.
From stdpp Require Import base list numbers relations.
From S2P Require Import Prelude RaftTypes RaftNode RaftVote RaftWf RaftCluster SafetyRun Scheduler.

Section Slices.
Context {A : Type} (zero : A).

(** ** Arrays and slices *)

Abbreviation Heap := (list (list A)).

Record Slice := mkSlice { s_arr : nat; s_off : nat; s_len : nat; s_cap : nat }.

Definition array (hp : Heap) (s : Slice) : list A := default [] (hp !! s_arr s).

(** The elements a slice shows. *)
Definition read (hp : Heap) (s : Slice) : list A := take (s_len s) (drop (s_off s) (array hp s)).

Definition slice_ok (hp : Heap) (s : Slice) : Prop :=
  (s_arr s < length hp)%nat /\ (s_len s <= s_cap s)%nat /\ (s_off s + s_cap s <= length (array hp s))%nat.

(** [s[i:]] and [s[:j]] *)
Definition slice_from (s : Slice) (i : nat) : Slice := mkSlice (s_arr s) (s_off s + i) (s_len s - i) (s_cap s - i).
Definition slice_to (s : Slice) (j : nat) : Slice := mkSlice (s_arr s) (s_off s) j (s_cap s).

(** [xs] stored in array [a] from position [p] on. *)
Definition overwrite (a : list A) (p : nat) (xs : list A) : list A := take p a ++ xs ++ drop (p + length xs) a.

(** [append(s, xs...)]: in place when the capacity suffices, into a new array otherwise;
    [grow] is the capacity the runtime chooses for a needed length. *)
Definition go_append (grow : nat -> nat) (hp : Heap) (s : Slice) (xs : list A) : Heap * Slice :=
  let need := (s_len s + length xs)%nat in
  if decide (need <= s_cap s)%nat
  then (<[s_arr s := overwrite (array hp s) (s_off s + s_len s) xs]> hp, mkSlice (s_arr s) (s_off s) need (s_cap s))
  else (hp ++ [read hp s ++ xs ++ replicate (grow need - need) zero],
        mkSlice (length hp) 0 need (Nat.max need (grow need))).

(** A new array that holds [xs]: [append(make([]LogEntry, 0), xs...)]. *)
Definition alloc (grow : nat -> nat) (hp : Heap) (xs : list A) : Heap * Slice :=
  (hp ++ [xs ++ replicate (grow (length xs) - length xs) zero], mkSlice (length hp) 0 (length xs) (Nat.max (length xs) (grow (length xs)))).

(** ** The expressions of the program *)

(** [sendLogArgs.Entries = rf.log[nextIndex-first:]] *)
Definition prepareEntries (lg : Slice) (k : nat) : Slice := slice_from lg k.

(** [rf.log = append(rf.log[:prev-first+1], entries...)] *)
Definition truncateAppend (grow : nat -> nat) (hp : Heap) (lg : Slice) (k : nat) (entries : list A) : Heap * Slice :=
  go_append grow hp (slice_to lg k) entries.

(** The log becomes [xs] without a new array being asked for: [append(rf.log[:0], xs...)].
    By [truncateAppend_writes] it makes no difference how much of an unchanged beginning
    is written again. *)
Definition writeLog (grow : nat -> nat) (hp : Heap) (lg : Slice) (xs : list A) : Heap * Slice := truncateAppend grow hp lg 0 xs.

(** ** Lemmas *)

Lemma length_read hp s : slice_ok hp s -> length (read hp s) = s_len s.
Proof. intros (_ & ? & ?). unfold read. rewrite length_take, length_drop. lia. Qed.

Lemma array_insert hp s a s' : (s_arr s < length hp)%nat -> s_arr s' = s_arr s -> array (<[s_arr s := a]> hp) s' = a.
Proof. intros Hlt E. unfold array. by rewrite E, list_lookup_insert_eq. Qed.

Lemma drop_overwrite (a xs : list A) (o p : nat) : (o + p <= length a)%nat -> drop o (overwrite a (o + p) xs) = overwrite (drop o a) p xs.
Proof.
  intros Hp. unfold overwrite. rewrite drop_app_le by (rewrite length_take; lia). rewrite drop_drop.
  f_equal; [|f_equal; f_equal; lia]. rewrite take_drop_commute. done.
Qed.

Lemma take_overwrite (a xs : list A) (p : nat) : (p <= length a)%nat -> take (p + length xs) (overwrite a p xs) = take p a ++ xs.
Proof.
  intros Hp. unfold overwrite. rewrite app_assoc, take_app_length'; [done|]. rewrite length_app, length_take. lia.
Qed.

Lemma read_to hp s j : slice_ok hp s -> (j <= s_len s)%nat -> read hp (slice_to s j) = take j (read hp s).
Proof. intros _ Hj. unfold read, array, slice_to. simpl. rewrite take_take. f_equal. lia. Qed.

Lemma read_from hp s k : read hp (slice_from s k) = drop k (read hp s).
Proof.
  unfold read, array, slice_from. simpl. rewrite <- drop_drop. destruct (decide (k <= s_len s)%nat) as [Hk|Hk].
  - rewrite take_drop_commute. by replace (k + (s_len s - k))%nat with (s_len s) by lia.
  - replace (s_len s - k)%nat with 0%nat by lia. rewrite take_0, drop_ge; [done|]. rewrite length_take. lia.
Qed.

Lemma slice_to_ok hp s j : slice_ok hp s -> (j <= s_len s)%nat -> slice_ok hp (slice_to s j).
Proof. intros (? & ? & ?) ?. unfold slice_ok, array, slice_to in *. simpl in *. split_and!; lia. Qed.

Lemma length_overwrite (a xs : list A) p : (p + length xs <= length a)%nat -> length (overwrite a p xs) = length a.
Proof. intros Hp. unfold overwrite. rewrite !length_app, length_take, length_drop. lia. Qed.

(** Where other slices live. *)
Definition elsewhere (hp hp' : Heap) (arr : nat) : Prop :=
  (length hp <= length hp')%nat /\ forall t, s_arr t <> arr -> (s_arr t < length hp)%nat -> array hp' t = array hp t.

Lemma array_old hp (t : Slice) x : (s_arr t < length hp)%nat -> array (hp ++ [x]) t = array hp t.
Proof. intros Ht. unfold array. by rewrite lookup_app_l. Qed.

Lemma alloc_spec grow hp xs :
  let '(hp', s') := alloc grow hp xs in
  slice_ok hp' s' /\ read hp' s' = xs /\ s_arr s' = length hp /\ elsewhere hp hp' (length hp).
Proof.
  unfold alloc, slice_ok, read, array. simpl. rewrite lookup_app_r, Nat.sub_diag by lia. simpl. rewrite drop_0, take_app_length, !length_app, length_replicate.
  split_and!; [simpl; lia|lia|lia|done|done|]. split; [rewrite length_app; lia|]. intros t _ Ht. by apply array_old.
Qed.

(** The slice that [append] returns shows the old elements and the new ones. *)
Lemma go_append_spec grow hp s xs :
  slice_ok hp s ->
  let '(hp', s') := go_append grow hp s xs in
  slice_ok hp' s' /\ read hp' s' = read hp s ++ xs /\ (s_arr s' = s_arr s \/ s_arr s' = length hp) /\ elsewhere hp hp' (s_arr s).
Proof.
  intros Hok. pose proof (length_read _ _ Hok) as Hlen. destruct Hok as (Ha & Hlc & Hoc). unfold go_append. case_decide as Hd.
  - split_and!.
    + unfold slice_ok. simpl. rewrite array_insert by done. rewrite length_insert, length_overwrite by lia. split_and!; lia.
    + unfold read at 1. simpl. rewrite array_insert by done. rewrite drop_overwrite by lia. by rewrite take_overwrite by (rewrite length_drop; lia).
    + by left.
    + split; [by rewrite length_insert|]. intros t Ht _. unfold array. by rewrite list_lookup_insert_ne by congruence.
  - pose proof (alloc_spec (fun _ => grow (s_len s + length xs)%nat) hp (read hp s ++ xs)) as Hal. unfold alloc in Hal.
    rewrite length_app, Hlen, <- app_assoc in Hal. destruct Hal as (H1 & H2 & H3 & H4 & H5). split_and!; [done|done|by right|].
    split; [done|]. intros t _ Ht. apply H5; [lia|done].
Qed.

Lemma writeLog_spec grow hp lg xs :
  slice_ok hp lg ->
  let '(hp', lg') := writeLog grow hp lg xs in
  slice_ok hp' lg' /\ read hp' lg' = xs /\ (s_arr lg' = s_arr lg \/ s_arr lg' = length hp) /\ elsewhere hp hp' (s_arr lg).
Proof.
  intros Hok. pose proof (go_append_spec grow hp (slice_to lg 0) xs (slice_to_ok _ _ 0 Hok ltac:(lia))) as Hs. unfold writeLog, truncateAppend.
  destruct (go_append _ _ _ _) as [hp' lg']. by rewrite read_to in Hs by (done || lia).
Qed.

Lemma overwrite_from (a xs : list A) (o k : nat) :
  (o + k <= length a)%nat -> (k <= length xs)%nat -> take k (drop o a) = take k xs -> overwrite a (o + k) (drop k xs) = overwrite a o xs.
Proof.
  intros Ho Hk E. unfold overwrite. rewrite length_drop. replace (o + k + (length xs - k))%nat with (o + length xs)%nat by lia.
  assert (Ex : xs = take k (drop o a) ++ drop k xs) by (by rewrite E, take_drop).
  generalize (drop (o + length xs) a) as w. intros w. rewrite Ex at 2. rewrite take_drop_commute, !app_assoc. do 2 f_equal.
  rewrite <- (take_drop o (take (o + k) a)) at 1. rewrite take_take. f_equal. f_equal. lia.
Qed.

(** Entries that are kept need not be written. *)
Lemma truncateAppend_writes grow hp lg k entries :
  slice_ok hp lg -> (k <= s_len lg)%nat ->
  truncateAppend grow hp lg k entries = writeLog grow hp lg (take k (read hp lg) ++ entries).
Proof.
  intros Hok Hk. pose proof (length_read _ _ Hok) as Hlen. set (xs := take k (read hp lg) ++ entries).
  assert (Hl : length (take k (read hp lg)) = k) by (rewrite length_take; lia).
  assert (Hxs : length xs = (k + length entries)%nat) by (unfold xs; rewrite length_app; lia).
  assert (Ed : entries = drop k xs) by (unfold xs; by rewrite drop_app_length').
  assert (Et : take k xs = take k (read hp lg)) by (unfold xs; by rewrite take_app_length').
  unfold writeLog, truncateAppend, go_append. rewrite Hxs. simpl. destruct Hok as (Ha & Hlc & Hoc).
  case_decide as Hd; [|unfold xs, slice_to, read; simpl; by rewrite <- app_assoc, take_take, Nat.min_l by lia].
  rewrite Nat.add_0_r. do 2 f_equal. rewrite Ed. apply overwrite_from; [unfold array in *; simpl in *; lia|lia|].
  rewrite Et. unfold read. rewrite take_take. f_equal. lia.
Qed.

(** Writing what is there changes nothing. *)
Lemma writeLog_same grow hp lg : slice_ok hp lg -> writeLog grow hp lg (read hp lg) = (hp, lg).
Proof.
  intros Hok. pose proof (length_read _ _ Hok) as Hlen.
  assert (E : truncateAppend grow hp lg (s_len lg) [] = (hp, lg)).
  { destruct Hok as (Ha & Hlc & Hoc). unfold truncateAppend, go_append. simpl. rewrite decide_True by lia.
    unfold overwrite, array, slice_to. simpl. rewrite Nat.add_0_r, take_drop. f_equal.
    - destruct (lookup_lt_is_Some_2 hp (s_arr lg) Ha) as [a E]. rewrite E. simpl. by apply list_insert_id.
    - destruct lg; simpl. f_equal. lia. }
  etrans; [|exact E]. rewrite truncateAppend_writes by (done || lia). by rewrite app_nil_r, take_ge by lia.
Qed.

End Slices.

(** ** The memory of a cluster *)

Section Memory.
Context {D : Type} `{LabGob D}.
Abbreviation Entry := (LogEntry D).
Abbreviation Heap := (list (list Entry)).
Implicit Types (c : Cluster (D:=D)) (rf : Raft D) (hp : Heap) (lg : Slice).

(** Unused room in an array. *)
Definition zeroEntry : Entry := mkLogEntry 0 0 None.

(** [m_logs]: the slice rf.log of every peer; [m_waiting]: the messages that were prepared
    and are still to be encoded, each with its slice. *)
Record Memory := mkMemory
  { m_heap : Heap; m_logs : list Slice; m_waiting : list (Call (D:=D) * Slice) }.

(** The log of a peer moves to a new array when it is cut at a snapshot (Snapshot,
    RequestInstallSnapShot: the first index grows) and when the peer is made again;
    everything else that changes it appends to what is kept. *)
Definition keeps_array c c' (i : nat) rf rf' : bool :=
  bool_decide (incs c' !! i = incs c !! i) && (firstIndex (log rf') =? firstIndex (log rf)).

Definition track_log (grow : nat -> nat) c c' (m : Heap * list Slice) (i : nat) : Heap * list Slice :=
  match nodes c !! i, nodes c' !! i, snd m !! i with
  | Some rf, Some rf', Some lg =>
      let '(hp, lg') := if keeps_array c c' i rf rf' then writeLog zeroEntry grow (fst m) lg (log rf')
                        else alloc zeroEntry grow (fst m) (log rf') in
      (hp, <[i := lg']> (snd m))
  | _, _, _ => m
  end.

(** A step changes one peer at most; for the others this is the identity
    ([writeLog_same]). *)
Definition track_logs (grow : nat -> nat) c c' (m : Heap * list Slice) : Heap * list Slice :=
  foldl (track_log grow c c') m (seq 0 (length (nodes c))).

(** The calls that a step adds. *)
Definition new_calls c c' : list (Call (D:=D)) := take (length (requests c') - length (requests c)) (requests c').

(** The entries of a message are the end of its sender's log. *)
Definition waiting_slice (lgs : list Slice) (call : Call (D:=D)) : option (Call (D:=D) * Slice) :=
  match c_req call with
  | ReqLog a _ => lg ← lgs !! c_src call; Some (call, prepareEntries lg (s_len lg - length (sl_Entries a)))
  | _ => None
  end.

Definition track (grow : nat -> nat) c c' (m : Memory) : Memory :=
  let '(hp, lgs) := track_logs grow c c' (m_heap m, m_logs m) in
  mkMemory hp lgs (omap (waiting_slice lgs) (new_calls c c') ++ m_waiting m).

(** The memory of peers that were just made. *)
Definition boot_memory c : Memory :=
  mkMemory (log <$> nodes c) (imap (fun i rf => mkSlice i 0 (length (log rf)) (length (log rf))) (nodes c)) [].

(** The message with the entries that are read when it is encoded. *)
Definition set_Entries (es : list Entry) (a : SendLogArgs D) : SendLogArgs D :=
  mkSendLogArgs (sl_Term a) (sl_LeaderId a) (sl_PrevLogIndex a) (sl_PrevLogTerm a) es (sl_LeaderCommit a)
    (sl_MsgType a) (sl_ShouldSendSnapShot a).

Definition encoded (es : list Entry) (call : Call (D:=D)) : Call (D:=D) :=
  match c_req call with
  | ReqLog a recode => mkCall (c_src call) (c_inc call) (c_dst call) (ReqLog (set_Entries es a) recode)
  | _ => call
  end.

(** ** The slices of the logs show the logs *)

Record logs_ok (ls : list (list Entry)) hp (lgs : list Slice) : Prop :=
  { lk_length : length lgs = length ls;
    lk_read : forall i lg l, lgs !! i = Some lg -> ls !! i = Some l -> slice_ok hp lg /\ read hp lg = l;
    lk_apart : forall i j lg lg', i <> j -> lgs !! i = Some lg -> lgs !! j = Some lg' -> s_arr lg <> s_arr lg' }.

Lemma slice_elsewhere hp hp' arr lg : elsewhere hp hp' arr -> slice_ok hp lg -> s_arr lg <> arr -> slice_ok hp' lg /\ read hp' lg = read hp lg.
Proof. intros [Hl He] (Ha & Hb & Hc) Hne. unfold slice_ok, read. rewrite (He _ Hne Ha). split_and!; (done || lia). Qed.

(** One log is replaced. *)
Lemma logs_replace ls hp hp' lgs i lg lg' l arr :
  logs_ok ls hp lgs -> lgs !! i = Some lg -> slice_ok hp' lg' -> read hp' lg' = l -> elsewhere hp hp' arr ->
  arr = s_arr lg \/ arr = length hp -> s_arr lg' = s_arr lg \/ s_arr lg' = length hp ->
  logs_ok (<[i := l]> ls) hp' (<[i := lg']> lgs).
Proof.
  intros [L1 L2 L3] Hi Hok Hr He Harr Hlg.
  assert (Hold : forall j x, lgs !! j = Some x -> slice_ok hp x).
  { intros j x Hj. destruct (lookup_lt_is_Some_2 ls j) as [y Hy]; [rewrite <- L1; by eapply lookup_lt_Some|]. by eapply L2. }
  split; [by rewrite !length_insert| |].
  - intros j x y [(-> & -> & _)|[Hne Hx]]%list_lookup_insert_Some [(? & <- & _)|[? Hy]]%list_lookup_insert_Some; try done.
    destruct (L2 _ _ _ Hx Hy) as [Hxok <-]. apply (slice_elsewhere hp hp' arr); [done|done|].
    pose proof (L3 _ _ _ _ Hne Hi Hx). destruct Hxok as (? & _). destruct Harr as [->| ->]; [congruence|lia].
  - intros j k x y Hne [(-> & -> & _)|[Hj Hx]]%list_lookup_insert_Some [(-> & -> & _)|[Hk Hy]]%list_lookup_insert_Some; try done.
    + pose proof (L3 _ _ _ _ Hne Hi Hy). destruct (Hold _ _ Hy) as (? & _). destruct Hlg as [->| ->]; [congruence|lia].
    + pose proof (L3 _ _ _ _ Hne Hx Hi). destruct (Hold _ _ Hx) as (? & _). destruct Hlg as [->| ->]; [congruence|lia].
    + by eapply (L3 j k).
Qed.

(** The logs after the peers in [done] were looked at. *)
Definition relogged c' (ls : list (list Entry)) (i : nat) : list (list Entry) :=
  match nodes c' !! i with Some rf' => <[i := log rf']> ls | None => ls end.

Lemma track_log_ok grow c c' ls m i :
  logs_ok ls (fst m) (snd m) -> length ls = length (nodes c) -> length (nodes c') = length (nodes c) ->
  logs_ok (relogged c' ls i) (fst (track_log grow c c' m i)) (snd (track_log grow c c' m i)).
Proof.
  intros Hk Hl Hn. unfold relogged, track_log. destruct (nodes c' !! i) as [rf'|] eqn:Hi'; cycle 1.
  { by destruct (nodes c !! i). }
  assert (Hlt : (i < length (nodes c))%nat) by (rewrite <- Hn; by eapply lookup_lt_Some).
  destruct (lookup_lt_is_Some_2 _ _ Hlt) as [rf ->]. destruct (lookup_lt_is_Some_2 (snd m) i) as [lg Hlg]; [rewrite (lk_length _ _ _ Hk); lia|].
  destruct (lookup_lt_is_Some_2 ls i) as [l Hli]; [lia|]. rewrite Hlg. destruct (lk_read _ _ _ Hk _ _ _ Hlg Hli) as [Hok _].
  destruct (keeps_array c c' i rf rf').
  - pose proof (writeLog_spec zeroEntry grow (fst m) lg (log rf') Hok) as Hw. destruct (writeLog _ _ _ _ _) as [hp' lg'].
    destruct Hw as (? & ? & ? & ?). simpl. eapply (logs_replace ls (fst m)); try done. by left.
  - pose proof (alloc_spec zeroEntry grow (fst m) (log rf')) as Hw. destruct (alloc _ _ _ _) as [hp' lg'].
    destruct Hw as (? & ? & ? & ?). simpl. eapply (logs_replace ls (fst m)); try done; by right.
Qed.

Lemma length_relogged c' ls i : length (relogged c' ls i) = length ls.
Proof. unfold relogged. destruct (nodes c' !! i); [by rewrite length_insert|done]. Qed.

Lemma lookup_relogged c' ks ls j :
  foldl (relogged c') ls ks !! j = (if decide (j ∈ ks /\ (j < length ls)%nat /\ is_Some (nodes c' !! j)) then log <$> nodes c' !! j else ls !! j).
Proof.
  revert ls. induction ks as [|i ks IH]; intros ls; cbn [foldl]; [by rewrite decide_False by (intros [Hj _]; by apply elem_of_nil in Hj)|].
  rewrite IH, length_relogged. unfold relogged.
  destruct (decide (j = i)) as [->|Hne].
  - destruct (nodes c' !! i) as [rf|] eqn:E; cycle 1.
    { rewrite !decide_False by (intros (_ & _ & [? ?]); done). done. }
    destruct (decide (i < length ls)%nat) as [Hlt|Hge].
    + destruct (decide (i ∈ i :: ks /\ (i < length ls)%nat /\ is_Some (Some rf))) as [_|Hno]; cycle 1.
      { destruct Hno. split_and!; [left|done|by eexists]. }
      destruct (decide (i ∈ ks /\ (i < length ls)%nat /\ is_Some (Some rf))); [done|]. by rewrite list_lookup_insert_eq.
    + rewrite !decide_False by (intros (_ & ? & _); lia). by rewrite list_insert_ge by lia.
  - assert (Hls : (match nodes c' !! i with Some rf' => <[i := log rf']> ls | None => ls end) !! j = ls !! j)
      by (destruct (nodes c' !! i); [by rewrite list_lookup_insert_ne|done]).
    rewrite Hls. repeat case_decide; try done; exfalso; rewrite elem_of_cons in *; tauto.
Qed.

Lemma track_logs_ok grow c c' m :
  logs_ok (log <$> nodes c) (fst m) (snd m) -> length (nodes c') = length (nodes c) ->
  logs_ok (log <$> nodes c') (fst (track_logs grow c c' m)) (snd (track_logs grow c c' m)).
Proof.
  intros Hk Hn. unfold track_logs.
  assert (Hf : forall ks ls m, length ls = length (nodes c) -> logs_ok ls (fst m) (snd m) ->
    logs_ok (foldl (relogged c') ls ks) (fst (foldl (track_log grow c c') m ks)) (snd (foldl (track_log grow c c') m ks))).
  { induction ks as [|i ks IH]; intros ls x Hl Hx; simpl; [done|]. apply IH; [by rewrite length_relogged|by apply track_log_ok]. }
  specialize (Hf (seq 0 (length (nodes c))) (log <$> nodes c) m (length_fmap _ _) Hk).
  enough (E : foldl (relogged c') (log <$> nodes c) (seq 0 (length (nodes c))) = log <$> nodes c') by (by rewrite <- E).
  apply list_eq. intros j. rewrite lookup_relogged, (list_lookup_fmap log (nodes c') j). case_decide as Hd; [done|].
  rewrite list_lookup_fmap. destruct (nodes c' !! j) as [rf|] eqn:Hj; [exfalso; apply Hd|apply lookup_ge_None in Hj; by rewrite lookup_ge_None_2 by lia].
  apply lookup_lt_Some in Hj. rewrite elem_of_seq, length_fmap. split_and!; [lia|lia|lia|by eexists].
Qed.

Lemma boot_logs c : logs_ok (log <$> nodes c) (m_heap (boot_memory c)) (m_logs (boot_memory c)).
Proof.
  split; simpl; [by rewrite length_imap, length_fmap| |].
  - intros i lg l. rewrite list_lookup_imap, list_lookup_fmap. destruct (nodes c !! i) as [rf|] eqn:Hi; simpl; [|done].
    intros [= <-] [= <-]. unfold slice_ok, read, array. simpl. rewrite list_lookup_fmap, Hi. simpl.
    rewrite length_fmap, drop_0, take_ge by done. apply lookup_lt_Some in Hi. split_and!; (done || lia).
  - intros i j lg lg' Hne. rewrite !list_lookup_imap. destruct (nodes c !! i), (nodes c !! j); simpl; [|done..]. by intros [= <-] [= <-].
Qed.

(** ** What the operations do to the array *)

Lemma go_append_writes grow hp lg (xs : list Entry) :
  slice_ok hp lg -> go_append zeroEntry grow hp lg xs = writeLog zeroEntry grow hp lg (read hp lg ++ xs).
Proof.
  intros Hok. rewrite <- (take_ge (read hp lg) (s_len lg)) at 1 by (by rewrite (length_read _ _ Hok)).
  rewrite <- truncateAppend_writes by (done || lia). unfold truncateAppend. by destruct lg.
Qed.

(** Start: [rf.log = append(rf.log, log)]. *)
Lemma start_writes grow cmd rf rf' r hp lg :
  slice_ok hp lg -> read hp lg = log rf -> Start cmd rf = (rf', Ret r) ->
  log rf' = log rf \/ exists e, log rf' = log rf ++ [e] /\ writeLog zeroEntry grow hp lg (log rf') = go_append zeroEntry grow hp lg [e].
Proof.
  intros Hok Hr. unfold Start, GetLastLog, persist. m_exec. destruct (is_state (state rf) Leader); simpl; [|intros [= <- _]; by left].
  destruct (go_idx (log rf) _) as [e|]; [|done]. simpl. destruct (go_set _ _ _) as [mi|]; [|done]. intros [= <- _]. right. simpl.
  eexists. split; [done|]. by rewrite go_append_writes, Hr.
Qed.

(** RequestSendLog: [rf.log = append(rf.log[:prev-first+1], entries...)], or nothing. *)
Lemma append_writes grow prev entries rf rf' hp lg :
  slice_ok hp lg -> read hp lg = log rf -> firstIndex (log rf) <= prev -> append_entries prev entries rf = (rf', Ret tt) ->
  rf' = rf \/ firstIndex (log rf') = firstIndex (log rf)
    /\ writeLog zeroEntry grow hp lg (log rf')
       = truncateAppend zeroEntry grow hp lg (Z.to_nat (prev - firstIndex (log rf) + 1)) entries.
Proof.
  intros Hok Hr Hprev. unfold append_entries, logAt, GetLastLog, GetFirstLog. m_exec. destruct (0 <? _); [|intros [= <-]; by left].
  destruct (go_idx entries _) as [a|]; [|done]. simpl. destruct (go_idx (log rf) (Z.of_nat _ - 1)) as [b|]; [|done]. simpl.
  assert (Hgo : forall d, go_idx (log rf) 0 = Ret d -> in_range (log rf) (prev - le_Index d + 1) = true ->
    let new := take (Z.to_nat (prev - le_Index d + 1)) (log rf) ++ entries in
    firstIndex new = firstIndex (log rf)
    /\ writeLog zeroEntry grow hp lg new = truncateAppend zeroEntry grow hp lg (Z.to_nat (prev - firstIndex (log rf) + 1)) entries).
  { intros d [_ Hd]%go_idx_lookup Hin. simpl in Hd.
    assert (Ef : firstIndex (log rf) = le_Index d) by (unfold firstIndex; destruct (log rf); [done|by injection Hd as ->]).
    apply andb_true_iff in Hin as [H1%Z.leb_le H2%Z.leb_le]. rewrite Ef in *. split.
    - unfold firstIndex in *. destruct (log rf) as [|x l]; [done|]. destruct (Z.to_nat (prev - le_Index d + 1)) eqn:E; [lia|]. done.
    - rewrite truncateAppend_writes, Hr; [done|done|]. rewrite <- (length_read _ _ Hok), Hr. lia. }
  unfold go_to. destruct (go_idx (log rf) 0) as [d|] eqn:Hd; cycle 1.
  { destruct (le_Index a <=? le_Index b); simpl; by rewrite Hd. }
  specialize (Hgo d eq_refl). destruct (le_Index a <=? le_Index b); simpl; rewrite ?Hd; simpl;
    [destruct (go_idx (log rf) (le_Index a - le_Index d)) as [e|]; [|done]; simpl; destruct (le_Term e =? le_Term a); [intros [= <-]; by left|]|];
    rewrite ?Hd; destruct (in_range _ _); try done; intros [= <-]; right; by apply Hgo.
Qed.

(** The goroutine of a call looks at its slice once more when the answer arrives, at the
    Index of the last entry only.  Writing a log over another one that begins at the same
    index changes the entry in a cell but not its Index, so the value that the call was
    made with serves as well. *)
Lemma index_kept (a xs : list Entry) (o p : nat) (f : Z) e :
  (o + length xs <= length a)%nat -> contig f xs -> drop o a !! p = Some e -> le_Index e = f + Z.of_nat p ->
  exists e', drop o (overwrite a o xs) !! p = Some e' /\ le_Index e' = le_Index e.
Proof.
  intros Hl Hc Ha Hi. pose proof (drop_overwrite a xs o 0 ltac:(lia)) as Hd. rewrite Nat.add_0_r in Hd. rewrite Hd. unfold overwrite. rewrite take_0. simpl.
  destruct (decide (p < length xs)%nat) as [Hp|Hp].
  - destruct (lookup_lt_is_Some_2 _ _ Hp) as [e' He']. exists e'. rewrite lookup_app_l by done. split; [done|]. rewrite (Hc _ _ He'). lia.
  - exists e. split; [|done]. rewrite lookup_app_r by lia. rewrite lookup_drop. by replace (length xs + (p - length xs))%nat with p by lia.
Qed.

End Memory.

(** ** Messages are windows on the log *)

Section Messages.
Context {D : Type} `{LabGob D}.
Implicit Types (c : Cluster (D:=D)) (rf : Raft D).

(** A step keeps the number of peers, and the AppendEntries messages it prepares carry the
    end of the log of their sender. *)
Definition sends_own_log c c' : Prop :=
  length (nodes c') = length (nodes c)
  /\ forall call a recode rf, call ∈ new_calls c c' -> c_req call = ReqLog a recode -> nodes c' !! c_src call = Some rf ->
       sl_Entries a `suffix_of` log rf.

Lemma go_from_suffix {A : Type} (l l' : list A) i : go_from l i = Ret l' -> l' `suffix_of` l.
Proof. unfold go_from. destruct (in_range l i); [|done]. intros [= <-]. exists (take (Z.to_nat i) l). by rewrite take_drop. Qed.

Lemma prepare_suffix i rf rf' x : prepareSendLog i rf = (rf', Ret x) -> log rf' = log rf /\ sl_Entries (fst x) `suffix_of` log rf.
Proof.
  unfold prepareSendLog, GetFirstLog. m_exec. destruct (i =? me rf); [intros [= <- <-]; split; [done|apply suffix_nil]|]. simpl.
  destruct (go_idx (log rf) 0) as [d|]; [|done].
  destruct (le_Term d =? -1); simpl.
  all: repeat (case_match; simplify_eq/=; try done); intros [= <- <-]; simpl; (split; [done|]);
    first [by apply suffix_nil|by eapply go_from_suffix].
Qed.

Lemma prepare_all l rf rf' (xs : list (SendLogArgs D * Z)) :
  m_map prepareSendLog l rf = (rf', Ret xs) -> log rf' = log rf /\ Forall (fun x => sl_Entries (fst x) `suffix_of` log rf) xs.
Proof.
  revert rf xs. induction l as [|i l IH]; intros rf xs; simpl; [intros [= <- <-]; by split|]. unfold mbind, M_bind, m_bind.
  destruct (prepareSendLog i rf) as [rf1 [x|]] eqn:Hp; [|done]. apply prepare_suffix in Hp as [El Hx].
  destruct (m_map prepareSendLog l rf1) as [rf2 [ys|]] eqn:Hm; [|done]. intros [= <- <-]. apply IH in Hm as [El2 Hys].
  rewrite El in Hys. split; [congruence|by constructor].
Qed.

Lemma send_suffix rf rf' xs :
  sendLogTicketCore_begin rf = (rf', Ret (Some xs)) -> log rf' = log rf /\ Forall (fun x => sl_Entries (fst x) `suffix_of` log rf) xs.
Proof.
  unfold sendLogTicketCore_begin. m_exec. destruct (negb _); [done|]. destruct (m_map _ _ _) as [rf1 [ys|]] eqn:Hm; [|done].
  intros [= <- <-]. by eapply prepare_all.
Qed.

(** Nothing of the kind is sent. *)
Lemma sends_nothing c c' :
  length (nodes c') = length (nodes c) -> (forall call a recode, call ∈ new_calls c c' -> c_req call <> ReqLog a recode) -> sends_own_log c c'.
Proof. intros Hn Hno. split; [done|]. intros call a recode rf Hin Ha _. by destruct (Hno _ _ _ Hin Ha). Qed.

Lemma new_calls_short c c' : (length (requests c') <= length (requests c))%nat -> new_calls c c' = [].
Proof. intros Hl. unfold new_calls. by replace (_ - _)%nat with 0%nat by lia. Qed.

Lemma new_calls_app c c' l : requests c' = l ++ requests c -> new_calls c c' = l.
Proof. intros E. unfold new_calls. rewrite E, length_app. replace (_ - _)%nat with (length l) by lia. apply take_app_length. Qed.

Lemma sends_quietly c c' :
  length (nodes c') = length (nodes c) -> (length (requests c') <= length (requests c))%nat -> sends_own_log c c'.
Proof. intros Hn Hl. apply sends_nothing; [done|]. intros call a recode. rewrite (new_calls_short _ _ Hl). by intros ?%elem_of_nil. Qed.

Lemma step_sends c c' : step c c' -> sends_own_log c c'.
Proof.
  intros Hst. assert (Hn : length (nodes c') = length (nodes c)).
  { destruct (step_nodes _ _ Hst) as [-> |(i & rf & rf' & _ & -> & _)]; [done|by rewrite length_insert]. }
  destruct Hst as
    [i inc rf rf' now env o Hi Hinc Hr| | | i inc rf rf' o Hi Hinc Hr | i inc j t1 t2 rf rf' o | l1 call l2 a rf rf' env r Hq
    | l1 call l2 a recode rf rf' env r Hq | l1 call l2 a ctx rf rf' inc env r sp Hq | l1 call l2 Hq | l1 call l2 Hq | | | | | | | | | | |].
  all: try (apply sends_quietly; [done|]; simpl; rewrite ?Hq, ?length_app; simpl; lia).
  - destruct o as [a|]; [|by apply sends_quietly]. apply sends_nothing; [done|]. rewrite (new_calls_app _ _ (vote_calls (length (nodes c)) i inc a)) by done.
    intros call b recode (x & -> & _)%list_elem_of_fmap. done.
  - destruct o as [xs|]; [|by apply sends_quietly]. apply send_suffix in Hr as [El Hxs]. split; [done|].
    rewrite (new_calls_app _ _ (log_calls i inc xs)) by done. intros call a recode rf0. unfold log_calls.
    intros ([x [b z]] & Hin & Hx)%list_elem_of_omap Ha. apply elem_of_lookup_imap in Hin as (k & y & [= -> <-] & Hy).
    case_decide; [done|]. destruct (sl_ShouldSendSnapShot b); [done|]. injection Hx as <-. simpl in *. injection Ha as <- <-.
    rewrite list_lookup_insert_eq by (by eapply lookup_lt_Some). intros [= <-]. rewrite El. by apply (Forall_lookup_1 _ _ _ _ Hxs Hy).
  - destruct o as [[a ctx]|]; [|by apply sends_quietly]. apply sends_nothing; [done|].
    rewrite (new_calls_app _ _ [mkCall i (Some inc) j (ReqSnap a ctx)]) by done. by intros call b recode ->%list_elem_of_singleton.
Qed.

End Messages.

(** ** Executions with memory *)

(** States that contain a cluster. *)
Class ClusterState (D S : Type) :=
  { cl : S -> Cluster (D:=D);
    set_cl : Cluster (D:=D) -> S -> S;
    set_cl_same : forall s, set_cl (cl s) s = s }.

(** A relation whose steps change the cluster like those of [RaftCluster] do. *)
Class OwnLogs {D S : Type} `{!ClusterState D S} (R : S -> S -> Prop) : Prop :=
  own_logs : forall s s', R s s' -> sends_own_log (cl s) (cl s').

#[export] Instance cluster_state {D : Type} : ClusterState D (Cluster (D:=D)) :=
  { cl := fun c => c; set_cl := fun c _ => c; set_cl_same := fun c => eq_refl }.

Section Wire.
Context {D S : Type} `{LabGob D} `{!ClusterState D S} (R : S -> S -> Prop).
Implicit Types (w : S * Memory (D:=D)) (m : Memory (D:=D)).

(** [wire_encode]: the goroutine that makes the RPC encodes its arguments, without rf.mu.
    Until then the network does not have the message: it is neither handled nor lost. *)
Inductive wire w : S * Memory (D:=D) -> Prop :=
| wire_step grow s' :
    R (fst w) s' -> (m_waiting (snd w)).*1 ⊆+ requests (cl s') ->
    wire w (s', track grow (cl (fst w)) (cl s') (snd w))
| wire_encode q1 call sl q2 l1 l2 :
    let s := fst w in let m := snd w in
    m_waiting m = q1 ++ (call, sl) :: q2 -> requests (cl s) = l1 ++ call :: l2 ->
    wire w (set_cl (set_requests (l1 ++ encoded (read (m_heap m) sl) call :: l2) (cl s)) s,
            mkMemory (m_heap m) (m_logs m) (q1 ++ q2)).

(** The slices of the waiting messages show what they did. *)
Definition unwritten m m' : Prop := Forall (fun x => read (m_heap m') (snd x) = read (m_heap m) (snd x)) (m_waiting m).

Definition intact w w' : Prop := wire w w' /\ unwritten (snd w) (snd w').

(** The memory agrees with the state. *)
Record memory_ok (s : S) m : Prop :=
  { mk_logs : logs_ok (log <$> nodes (cl s)) (m_heap m) (m_logs m);
    mk_waiting : forall call sl, (call, sl) ∈ m_waiting m ->
      exists a recode, c_req call = ReqLog a recode /\ read (m_heap m) sl = sl_Entries a }.

Lemma boot_memory_ok s : memory_ok s (boot_memory (cl s)).
Proof. split; [apply boot_logs|]. by intros call sl ?%elem_of_nil. Qed.

Lemma encoded_same es (call : Call (D:=D)) a recode : c_req call = ReqLog a recode -> es = sl_Entries a -> encoded es call = call.
Proof. intros E ->. unfold encoded. rewrite E. destruct call, a. simpl in *. by rewrite E. Qed.

Lemma prepared_reads hp lg (l es : list (LogEntry D)) :
  slice_ok hp lg -> read hp lg = l -> es `suffix_of` l -> read hp (prepareEntries lg (s_len lg - length es)) = es.
Proof.
  intros Hok Hr [k Hl]. unfold prepareEntries. rewrite read_from, <- (length_read _ _ Hok), Hr, Hl, length_app.
  replace (length k + length es - length es)%nat with (length k) by lia. apply drop_app_length.
Qed.

Lemma step_memory grow s s' m :
  sends_own_log (cl s) (cl s') -> memory_ok s m -> unwritten m (track grow (cl s) (cl s') m) -> memory_ok s' (track grow (cl s) (cl s') m).
Proof.
  intros [Hn Hs] [ML MW] Hu. pose proof (track_logs_ok grow (cl s) (cl s') (m_heap m, m_logs m) ML Hn) as HL. unfold track in *.
  destruct (track_logs _ _ _ _) as [hp lgs]. simpl in *. split; [done|]. simpl. intros call sl [Hin|Hin]%elem_of_app.
  - apply list_elem_of_omap in Hin as (x & Hx & E). unfold waiting_slice in E. destruct (c_req x) as [|a recode|] eqn:Ha; [done| |done].
    destruct (lgs !! c_src x) as [lg|] eqn:Hlg; [|done]. injection E as <- <-. exists a, recode. split; [done|].
    destruct (lookup_lt_is_Some_2 (log <$> nodes (cl s')) (c_src x)) as [l Hl]; [rewrite <- (lk_length _ _ _ HL); by eapply lookup_lt_Some|].
    destruct (lk_read _ _ _ HL _ _ _ Hlg Hl) as [Hok Hr]. rewrite list_lookup_fmap in Hl.
    destruct (nodes (cl s') !! c_src x) as [rf|] eqn:Hrf; [|done]. injection Hl as <-. eapply prepared_reads; [done|exact Hr|by eapply Hs].
  - destruct (MW _ _ Hin) as (a & recode & Ha & Hr). exists a, recode. split; [done|]. rewrite <- Hr.
    unfold unwritten in Hu. rewrite Forall_forall in Hu. by apply (Hu (call, sl)).
Qed.

Lemma intact_step `{!OwnLogs R} w w' :
  memory_ok (fst w) (snd w) -> intact w w' -> memory_ok (fst w') (snd w') /\ (fst w' = fst w \/ R (fst w) (fst w')).
Proof.
  intros Hm [Hw Hu]. destruct Hw as [grow s' Hr Hsub|q1 call sl q2 l1 l2 s m Hw Hq]; simpl in *.
  - split; [|by right]. apply step_memory; [by apply own_logs|done|done].
  - destruct Hm as [ML MW]. destruct (MW call sl) as (a & recode & Ha & Hr); [unfold m in Hw; rewrite Hw; set_solver|].
    fold m in ML, MW, Hr. rewrite (encoded_same _ _ _ _ Ha Hr), <- Hq.
    assert (E : set_cl (set_requests (requests (cl s)) (cl s)) s = s).
    { transitivity (set_cl (cl s) s); [f_equal; by destruct (cl s)|apply set_cl_same]. }
    rewrite E. split; [|by left]. split; [done|]. simpl. intros call' sl' Hin. apply (MW call' sl'). rewrite Hw. set_solver.
Qed.

(** An intact execution is an execution without memory. *)
Lemma intact_runs `{!OwnLogs R} w w' : memory_ok (fst w) (snd w) -> rtc intact w w' -> memory_ok (fst w') (snd w') /\ rtc R (fst w) (fst w').
Proof.
  intros Hm Hr. induction Hr as [w|w w1 w2 Hst _ IH]; [by split|]. destruct (intact_step _ _ Hm Hst) as [Hm1 Hs].
  destruct (IH Hm1) as [Hm2 Hr2]. split; [done|]. destruct Hs as [<-|Hs]; [done|by eapply rtc_l].
Qed.

(** From the start, in two parts. *)
Lemma intact_start `{!OwnLogs R} s w1 w2 :
  rtc intact (s, boot_memory (cl s)) w1 -> rtc intact w1 w2 -> rtc R s (fst w1) /\ rtc R (fst w1) (fst w2).
Proof.
  intros H1 H2. destruct (intact_runs (s, boot_memory (cl s)) w1 (boot_memory_ok s) H1) as [Hm Hr]. split; [exact Hr|]. by eapply intact_runs.
Qed.

End Wire.

#[export] Instance step_own {D : Type} `{LabGob D} : OwnLogs (step (D:=D)).
Proof. intros c c'. apply step_sends. Qed.

#[export] Instance small_step_own {D : Type} `{LabGob D} : OwnLogs (small_step (D:=D)).
Proof. intros c c' [Hs _]. by apply step_sends. Qed.

(** ** Executions that can be evaluated *)

#[export] Instance LogEntry_eq_dec {D : Type} `{EqDecision D} : EqDecision (LogEntry D).
Proof. solve_decision. Defined.
#[export] Instance MsgType_eq_dec : EqDecision MsgType.
Proof. solve_decision. Defined.
#[export] Instance SendLogArgs_eq_dec {D : Type} `{EqDecision D} : EqDecision (SendLogArgs D).
Proof. solve_decision. Defined.
#[export] Instance SnapArgs_eq_dec : EqDecision RequestSnapShotArgs.
Proof. solve_decision. Defined.
#[export] Instance SnapCtx_eq_dec : EqDecision SnapCtx.
Proof. solve_decision. Defined.
#[export] Instance Request_eq_dec {D : Type} `{EqDecision D} : EqDecision (Request (D:=D)).
Proof. solve_decision. Defined.
#[export] Instance Call_eq_dec {D : Type} `{EqDecision D} : EqDecision (Call (D:=D)).
Proof. solve_decision. Defined.

Section Evaluate.
Context {D S Ev : Type} `{LabGob D} `{EqDecision D} `{!ClusterState D S} (R : S -> S -> Prop).
Context (fires : Ev -> S -> option S) (fires_sound : forall ev s s', fires ev s = Some s' -> R s s').
Context (grow : nat -> nat).
Implicit Types (w : S * Memory (D:=D)) (m : Memory (D:=D)).

(** The [k]-th waiting message is encoded; it is at [l] in the network. *)
Inductive WEvent := WFire (ev : Ev) | WEncode (k l : nat).

Definition wfire (ev : WEvent) w : option (S * Memory (D:=D)) :=
  let '(s, m) := w in
  match ev with
  | WFire ev =>
      s' ← fires ev s;
      if decide ((m_waiting m).*1 ⊆+ requests (cl s')) then Some (s', track grow (cl s) (cl s') m) else None
  | WEncode k l =>
      '(q1, (call, sl), q2) ← pick k (m_waiting m); '(l1, call', l2) ← pick l (requests (cl s));
      if decide (call' = call)
      then Some (set_cl (set_requests (l1 ++ encoded (read (m_heap m) sl) call :: l2) (cl s)) s, mkMemory (m_heap m) (m_logs m) (q1 ++ q2))
      else None
  end.

Definition unwritten_b m m' : bool :=
  forallb (fun x => bool_decide (read (m_heap m') (snd x) = read (m_heap m) (snd x))) (m_waiting m).

Definition wrun (evs : list WEvent) w : option (S * Memory (D:=D)) := foldl (fun o ev => o ≫= wfire ev) (Some w) evs.

Definition intact_run (evs : list WEvent) w : option (S * Memory (D:=D)) :=
  foldl (fun o ev => w ← o; w' ← wfire ev w; if unwritten_b (snd w) (snd w') then Some w' else None) (Some w) evs.

Lemma wfire_sound ev w w' : wfire ev w = Some w' -> wire R w w'.
Proof.
  destruct w as [s m]. destruct ev as [ev|k l]; simpl.
  - destruct (fires ev s) as [s'|] eqn:Hf; [|done]. simpl. case_decide as Hd; [|done]. intros [= <-].
    apply (wire_step R (s, m)); [by eapply fires_sound|done].
  - destruct (pick k (m_waiting m)) as [[[q1 [call sl]] q2]|] eqn:Hk; [|done]. simpl.
    destruct (pick l (requests (cl s))) as [[[l1 call'] l2]|] eqn:Hl; [|done]. simpl. case_decide as Hd; [|done]. subst call'. intros [= <-].
    apply pick_split in Hk, Hl. by apply (wire_encode R (s, m)).
Qed.

Lemma wrun_sound evs w w' : wrun evs w = Some w' -> rtc (wire R) w w'.
Proof.
  unfold wrun. revert w'. induction evs as [|ev evs IH] using rev_ind; intros w'; simpl; [by intros [= <-]|].
  rewrite foldl_app. simpl. destruct (foldl _ (Some w) evs) as [x|]; [|done]. intros Hf%wfire_sound. eapply rtc_r; [by apply IH|done].
Qed.

Lemma intact_run_sound evs w w' : intact_run evs w = Some w' -> rtc (intact R) w w'.
Proof.
  unfold intact_run. revert w'. induction evs as [|ev evs IH] using rev_ind; intros w'; simpl; [by intros [= <-]|].
  rewrite foldl_app. simpl. destruct (foldl _ (Some w) evs) as [x|]; [|done]. simpl. destruct (wfire ev x) as [y|] eqn:Hf; [|done]. simpl.
  destruct (unwritten_b (snd x) (snd y)) eqn:Hu; [|done]. intros [= <-]. eapply rtc_r; [by apply IH|]. split; [by apply wfire_sound in Hf|].
  apply Forall_forall. intros z Hz. unfold unwritten_b in Hu. rewrite forallb_forall in Hu. by eapply bool_decide_eq_true_1, Hu, list_elem_of_In.
Qed.

(** In two parts. *)
Lemma intact_run_app evs more w w1 w2 : intact_run evs w = Some w1 -> intact_run (evs ++ more) w = Some w2 -> rtc (intact R) w1 w2.
Proof. intros E1 E2. apply (intact_run_sound more). unfold intact_run in *. by rewrite foldl_app, E1 in E2. Qed.

End Evaluate.

(** ** A message that is overwritten while it waits *)

Module Delayed.
Import ListGob.

Definition env0 : Env := fun _ => mkTick 7 0.
Definition boot : nat -> Z := fun _ => 0.

(** Arrays double, as in the Go runtime. *)
Definition double (k : nat) : nat := (2 ^ Nat.log2_up k)%nat.

Abbreviation World := (Cluster (D:=Z) * Memory (D:=Z))%type.
Abbreviation Ev := (WEvent (Ev:=Event (D:=Z))).

Definition start : World := (init 7 boot, boot_memory (init 7 boot)).
Definition after (evs : list Ev) : World := default start (wrun fire_small double evs start).

Definition tick (i : nat) (now : Z) : Ev := WFire (ETick i now env0).
Definition deliver (k : nat) : Ev := WFire (EDeliver k env0).
Definition resume (k : nat) : Ev := WFire (EResume k env0).

(** Peer 0 leads term 1 with the votes of 1, 3 and 4, starts the commands 10 and 20 and
    prepares its messages; only the one to peer 6 is encoded and handled. *)
Definition leader0 : list Ev :=
  [tick 0 1000; deliver 0; deliver 1; deliver 1; resume 0; resume 0; resume 0; WFire (EDecide 0); WFire (EStart 0 10); WFire (EStart 0 20);
   WFire (ESendLog 0); WEncode 5 5; deliver 5].

(** Peer 1 leads term 2 with the votes of 3, 4 and 5, starts 99 and sends it to peer 0,
    which takes it over; now the message of peer 0 to peer 2 is encoded and handled. *)
Definition mixed : list Ev := leader0 ++
  [tick 1 2000; deliver 2; deliver 2; deliver 2; resume 0; resume 0; resume 0; WFire (EDecide 0); WFire (EStart 1 99); WFire (ESendLog 1);
   WEncode 0 0; deliver 0; WEncode 6 9; deliver 9].

(** Peers 2 and 3 handle the messages of peer 1, which counts 99 as committed. *)
Definition first_commit : list Ev := [resume 1; WEncode 0 0; WEncode 0 1; deliver 0; deliver 0; resume 0; resume 0].

(** Peer 6 leads term 3 with the votes of 2, 4 and 5, starts 77 and counts 10 as committed. *)
Definition second_commit : list Ev := first_commit ++
  [tick 6 3000; tick 6 4000; deliver 2; deliver 3; deliver 3; resume 0; resume 0; resume 0; WFire (EDecide 0); WFire (EStart 6 77);
   WFire (ESendLog 6); WEncode 2 2; deliver 2; WEncode 3 3; deliver 3; WEncode 3 3; deliver 3; resume 0; resume 0; resume 0;
   WFire (ESendLog 6); WEncode 4 4; deliver 4; WEncode 4 4; deliver 4; resume 0; resume 0].

Definition peer (w : World) (i : nat) : Raft Z := default (fst (Make 7 0 0 MakePersister)) (nodes (fst w) !! i).

Lemma after_runs evs more : wrun fire_small double (evs ++ more) start = Some (after (evs ++ more)) ->
  wrun fire_small double evs start = Some (after evs) -> rtc (wire small_step) (after evs) (after (evs ++ more)).
Proof.
  intros E2 E1. apply (wrun_sound small_step fire_small fire_small_sound double more). unfold wrun in *. by rewrite foldl_app, E1 in E2.
Qed.


End Delayed.
