(* ===== verification/SafetyProps.v ===== *)
(** The safety theorems of the replicated log: for executions of [RaftCluster], as lemmas,
    and for executions over the shared arrays of [SharedLog] in which no message is
    overwritten while it waits to be encoded. *)
From Stdlib Require Import ZArith Lia.
From stdpp Require Import base list numbers relations.
From S2P Require Import Prelude RaftTypes RaftNode RaftVote RaftWf RaftSafe RaftLeader RaftSpec RaftCluster ElectionSafety LogTree RaftLogs RaftMoves RaftHandlers SafetyInv SafetySteps SafetyLocal SafetyTerms SafetyLeader SafetyFollower SafetyRun Scheduler SharedLog.

#[local] Open Scope Z_scope.

Section Props.
Context {D : Type} `{LabGobOk D}.
Abbreviation Log := (list (LogEntry D)).
Implicit Types (rf : Raft D) (c : Cluster (D:=D)) (l m b k s : Log) (h : History) (g : Ghost (D:=D)).

(** ** Two states of one execution *)

Lemma two_states n now c1 c2 :
  rtc small_step (init n now) c1 -> rtc small_step c1 c2 ->
  exists h1 g1 h2 g2, safe_at n c1 h1 g1 /\ safe_at n c2 h2 g2 /\ extends g1 g2.
Proof.
  intros H1 H2. destruct (safe_reachable n now c1 H1) as (h1 & g1 & S1).
  destruct (safe_later _ _ _ _ _ S1 H2) as (h2 & g2 & S2 & Hex). by exists h1, g1, h2, g2.
Qed.

Lemma known_extends n g g' T k : extends g g' -> known n g T k -> known n g' T k.
Proof. intros [Ht _ Ha]. by apply known_by_mono. Qed.

(** A committed entry of a peer, in its known prefix. *)
Lemma committed_entry n g i rf l k f x :
  node_inv n g i rf l k f -> 0 < x <= commitIndex rf -> (Z.to_nat (x - 1) < length k)%nat /\ l !! Z.to_nat (x - 1) = k !! Z.to_nat (x - 1).
Proof.
  intros HN Hx. pose proof (ni_commit _ _ _ _ _ _ _ HN). assert (Hlt : (Z.to_nat (x - 1) < length k)%nat) by lia.
  split; [done|]. destruct (ni_prefix _ _ _ _ _ _ _ HN) as [w ->]. by rewrite lookup_app_l.
Qed.

Lemma comparable_lookup k k' (x : nat) : comparable k k' -> (x < length k)%nat -> (x < length k')%nat -> k !! x = k' !! x.
Proof. intros [[w ->]|[w ->]] H1 H2; by rewrite lookup_app_l. Qed.

Lemma committed_agree n c1 h1 g1 c2 h2 g2 i j rf1 rf2 x :
  safe_at n c1 h1 g1 -> safe_at n c2 h2 g2 -> extends g1 g2 ->
  nodes c1 !! i = Some rf1 -> nodes c2 !! j = Some rf2 ->
  firstIndex (log rf1) < x <= commitIndex rf1 -> firstIndex (log rf2) < x <= commitIndex rf2 ->
  is_Some (entryAt (log rf1) x) /\ entryAt (log rf1) x = entryAt (log rf2) x.
Proof.
  intros S1 S2 Hex Hi Hj Hx1 Hx2.
  destruct (node_facts _ _ _ _ S1 _ _ Hi) as (l1 & k1 & f1 & N1 & F1 & _ & _ & E1).
  destruct (node_facts _ _ _ _ S2 _ _ Hj) as (l2 & k2 & f2 & N2 & F2 & _ & _ & E2).
  destruct (committed_entry _ _ _ _ _ _ _ x N1 ltac:(lia)) as [B1 L1].
  destruct (committed_entry _ _ _ _ _ _ _ x N2 ltac:(lia)) as [B2 L2].
  rewrite E1, E2, L1, L2 by lia. split; [by apply lookup_lt_is_Some|].
  apply comparable_lookup; [|done|done]. destruct S2 as [_ HG].
  eapply known_agree; [exact HG|eapply known_extends; [exact Hex|apply N1]|apply N2].
Qed.

(** An applier that does not wait stands above its first index. *)
Lemma not_waiting rf :
  log_ok (log rf) -> applyTicket_waits rf = (rf, Ret false) -> firstIndex (log rf) <= lastApplied rf < commitIndex rf.
Proof.
  intros [_ (d & Hd & _) _]. unfold applyTicket_waits, GetFirstLog. m_exec.
  destruct (Z.leb_spec (commitIndex rf) (lastApplied rf)); [done|]. simpl.
  destruct (log rf) as [|d' lg] eqn:Hl; [done|]. injection Hd as ->. change (go_idx (d :: lg) 0) with (Ret d). simpl.
  unfold firstIndex. simpl. intros [= Hx]. apply Z.ltb_ge in Hx. lia.
Qed.

Lemma collect_runs n c h g i rf :
  safe_at n c h g -> nodes c !! i = Some rf -> applyTicket_waits rf = (rf, Ret false) ->
  exists b, applyTicket_collect rf = (rf, Ret b)
    /\ forall e, e ∈ b -> firstIndex (log rf) < le_Index e <= commitIndex rf /\ entryAt (log rf) (le_Index e) = Some e.
Proof.
  intros HS Hi Hw. destruct (node_facts _ _ _ _ HS _ _ Hi) as (l & k & f & HN & _ & HL & Hlen & _).
  pose proof (wf_log _ (ni_wf _ _ _ _ _ _ _ HN)) as Hok. pose proof (not_waiting rf Hok Hw). pose proof (ni_commit _ _ _ _ _ _ _ HN).
  destruct (wp_run _ _ _ (wp_applyTicket_collect rf Hok ltac:(lia) ltac:(lia))) as (rf' & b & Hr & -> & Hb & Hc & Hat).
  exists b. split; [done|]. intros e (x & Hx)%list_elem_of_lookup. pose proof (lookup_lt_Some _ _ _ Hx). rewrite (Hc x e Hx).
  split; [lia|by apply Hat].
Qed.

Lemma collected n c h g i rf rf' (batch : Log) e :
  safe_at n c h g -> nodes c !! i = Some rf -> applyTicket_waits rf = (rf, Ret false) ->
  applyTicket_collect rf = (rf', Ret batch) -> e ∈ batch ->
  firstIndex (log rf) < le_Index e <= commitIndex rf /\ entryAt (log rf) (le_Index e) = Some e.
Proof.
  intros HS Hi Hw Hr. destruct (collect_runs _ _ _ _ _ _ HS Hi Hw) as (batch' & Hr' & Hall).
  rewrite Hr in Hr'. injection Hr' as -> ->. apply Hall.
Qed.

(** ** Which operations the cluster offers to a peer *)

Definition handler (r : Request (D:=D)) : NodeOp (D:=D) :=
  match r with
  | ReqVote a => OpRequestVote a
  | ReqLog a _ => OpRequestSendLog a
  | ReqSnap a _ => OpRequestInstallSnapShot a
  end.

Inductive offered c (i : nat) rf : NodeOp (D:=D) -> Prop :=
| of_request call : call ∈ requests c -> c_dst call = i -> offered c i rf (handler (c_req call))
| of_tick now : offered c i rf (OpTicker now)
| of_decide args t : offered c i rf (OpDecide args t)
| of_vote_reply r t : offered c i rf (OpVoteReply r t)
| of_start cmd : offered c i rf (OpStart cmd)
| of_sendlog : offered c i rf OpSendLogCore
| of_sendsnap inc j : TSendSnapShot i inc j ∈ tasks c -> offered c i rf (OpSendSnapShot (Z.of_nat j))
| of_log_reply call a recode r :
    (call, Some (RepLog r)) ∈ responses c -> c_req call = ReqLog a recode -> c_src call = i ->
    firstIndex (log rf) <= commitIndex rf + 1 -> offered c i rf (OpSendLogReply (Z.of_nat (c_dst call)) a recode r)
| of_snap_reply call a ctx r :
    (call, Some (RepSnap r)) ∈ responses c -> c_req call = ReqSnap a ctx -> c_src call = i ->
    firstIndex (log rf) <= commitIndex rf + 1 -> offered c i rf (OpSnapShotReply (Z.of_nat (c_dst call)) ctx r)
| of_installed idx : offered c i rf (OpInstallSnapshotDone idx)
| of_snapshot idx snap : offered c i rf (OpSnapshot idx snap)
| of_collect : applyTicket_waits rf = (rf, Ret false) -> offered c i rf OpApplyCollect
| of_finish batch : offered c i rf (OpApplyFinish batch).

(** ** Consequences of the invariant in one state *)

Lemma safe_wf n c h g i rf : safe_at n c h g -> nodes c !! i = Some rf -> wf rf.
Proof. intros [_ HG] Hi. by eapply node_wf. Qed.

Lemma leader_has_known n c h g i rf l k f T k0 :
  GI n c h g -> node_inv n g i rf l k f -> state rf = Leader -> T <= currentTerm rf -> known n g T k0 -> k0 `prefix_of` l.
Proof.
  intros HG HN Hs HT [->|(m & Hm & Hk & Htm)]; [apply prefix_nil|]. etrans; [exact Hk|].
  destruct (gi_ghost _ _ _ _ HG) as [G1 G2 G3 _ _ _]. destruct (ni_leader _ _ _ _ _ _ _ HN Hs) as [(_ & b & Hb & Hp & _) Hall _].
  destruct (Z.eq_dec (tip m) (currentTerm rf)) as [Heq|Hne]; [apply Hall; [apply Hm|done]|].
  etrans; [|exact Hp]. eapply (leader_completeness n (g_tree g) (g_elected g) (g_acks g) G1 G2 (voted_in h) G3); [done|exact Hb|lia].
Qed.

Lemma same_term_same_log n c h g l1 l2 (x : Z) e1 e2 :
  GI n c h g -> l1 ∈ g_tree g -> l2 ∈ g_tree g -> 0 < x ->
  l1 !! Z.to_nat (x - 1) = Some e1 -> l2 !! Z.to_nat (x - 1) = Some e2 -> le_Term e1 = le_Term e2 ->
  take (Z.to_nat x) l1 = take (Z.to_nat x) l2 /\ (Z.to_nat x <= length l1)%nat.
Proof.
  intros HG T1 T2 Hx A1 A2 Ht. destruct (gi_ghost _ _ _ _ HG) as [G1 G2 _ _ _ _].
  pose proof (lookup_lt_Some _ _ _ A1). pose proof (lookup_lt_Some _ _ _ A2). split; [|lia].
  apply (log_matching (g_tree g) (g_elected g) G2).
  - eapply (tr_prefix _ G1); [exact T1|apply prefix_take].
  - eapply (tr_prefix _ G1); [exact T2|apply prefix_take].
  - rewrite !length_take. lia.
  - rewrite !tip_take by lia. destruct (Z.to_nat x) as [|y] eqn:Hy; [lia|]. replace (Z.to_nat (x - 1)) with y in * by lia.
    simpl. rewrite A1, A2. simpl. done.
Qed.

(** ** Panics *)

Lemma request_runs n c h g call rf env :
  safe_at n c h g -> call ∈ requests c -> nodes c !! c_dst call = Some rf -> wp (exec env (handler (c_req call))) (fun _ _ => True) rf.
Proof.
  intros HS Hin Hi. pose proof (safe_wf _ _ _ _ _ _ HS Hi) as Hwf. destruct HS as [HI HG].
  pose proof (gi_calls _ _ _ _ HG call (or_introl Hin)) as Hcall. unfold call_inv in Hcall.
  destruct (gi_nodes _ _ _ _ HG _ _ Hi) as (l & k & f & _ & _ & HN). destruct (c_req call) as [a|a recode|a ctx]; simpl; apply wp_ignore.
  - eapply wp_mono; [by apply wf_RequestVote|done].
  - destruct Hcall as (Hne & _ & m & p & Hca & Hm & _). eapply wp_mono; [apply wf_RequestSendLog; [done|]|done].
    split_and!; [by eapply carries_contig|by eapply carries_terms|by eapply not_leading].
  - eapply wp_mono; [by apply wp_RequestInstallSnapShot, Hwf|done].
Qed.

Lemma sendsnap_runs n c h g i rf inc j env :
  safe_at n c h g -> nodes c !! i = Some rf -> TSendSnapShot i inc j ∈ tasks c ->
  wp (exec env (OpSendSnapShot (Z.of_nat j))) (fun _ _ => True) rf.
Proof.
  intros HS Hi Hin. pose proof (safe_wf _ _ _ _ _ _ HS Hi) as Hwf. destruct HS as [HI HG].
  destruct (gi_tasks _ _ _ _ HG _ Hin) as [_ Hj]. destruct (node_peers _ _ _ HI _ _ Hi) as (Hpe & _).
  eapply wp_mono; [apply wf_exec; [done|simpl; lia]|done].
Qed.

(** Answers to a peer that no longer leads the term are only compared with it. *)
Lemma add_term_runs tk t rf : wp (AddCurrentTerm tk t) (fun _ _ => True) rf.
Proof. unfold AddCurrentTerm, SetElectionTime, persist. wp_simp. case_match; wp_simp; done. Qed.

Lemma stale_log_reply env p a recode r rf :
  (state rf = Leader -> currentTerm rf <> sl_Term a) -> wp (sendLog_reply env p a recode r) (fun _ _ => True) rf.
Proof.
  intros Hno. unfold sendLog_reply. wp_simp. destruct (currentTerm rf <? slr_Term r); [apply add_term_runs|]. wp_simp.
  unfold is_state. case_bool_decide as Hs; simpl; [|by wp_simp]. destruct (Z.eqb_spec (currentTerm rf) (sl_Term a)); [by apply Hno in Hs|by wp_simp].
Qed.

Lemma stale_snap_reply env p ctx r rf :
  (state rf = Leader -> currentTerm rf <> sc_leaderTerm ctx) -> wp (sendSnapShot_reply env p ctx r) (fun _ _ => True) rf.
Proof.
  intros Hno. unfold sendSnapShot_reply. wp_simp. destruct (currentTerm rf <? rsr_Term r); [apply add_term_runs|]. wp_simp.
  unfold is_state. case_bool_decide as Hs; simpl; [|by wp_simp]. destruct (Z.eqb_spec (currentTerm rf) (sc_leaderTerm ctx)); [by apply Hno in Hs|by wp_simp].
Qed.

Lemma log_reply_runs n c h g call a recode r rf env :
  safe_at n c h g -> nodes c !! c_src call = Some rf -> (call, Some (RepLog r)) ∈ responses c -> c_req call = ReqLog a recode ->
  firstIndex (log rf) <= commitIndex rf + 1 -> wp (exec env (OpSendLogReply (Z.of_nat (c_dst call)) a recode r)) (fun _ _ => True) rf.
Proof.
  intros HS Hi Hin Ha Hf. destruct (node_facts _ _ _ _ HS _ _ Hi) as (l & k & f & HN & _ & HL & Hlen & _). destruct HS as [HI HG].
  destruct (node_peers _ _ _ HI _ _ Hi) as (Hpe & _).
  assert (Hcall : call_inv n g call) by (apply (gi_calls _ _ _ _ HG); right; apply list_elem_of_fmap; by eexists (_, _)).
  unfold call_inv in Hcall. rewrite Ha in Hcall. destruct Hcall as (_ & Hj & m & p & Hca & Hm & _).
  destruct (decide (state rf = Leader /\ currentTerm rf = sl_Term a)) as [[Hs Ht]|Hno]; [|simpl; apply stale_log_reply; tauto].
  eapply wp_mono; [apply wf_exec; [apply HN|]|done]. simpl. split_and!; [lia|lia|done|]. intros e He.
  rewrite (carries_last _ _ _ _ Hca He), HL. rewrite <- Ht in Hm. pose proof (prefix_length _ _ (sent_by_leader _ _ _ _ HG _ _ _ _ _ _ HN Hs Hm)). lia.
Qed.

Lemma snap_reply_runs n c h g call a ctx r rf env :
  safe_at n c h g -> nodes c !! c_src call = Some rf -> (call, Some (RepSnap r)) ∈ responses c -> c_req call = ReqSnap a ctx ->
  firstIndex (log rf) <= commitIndex rf + 1 -> wp (exec env (OpSnapShotReply (Z.of_nat (c_dst call)) ctx r)) (fun _ _ => True) rf.
Proof.
  intros HS Hi Hin Ha Hf. destruct (node_facts _ _ _ _ HS _ _ Hi) as (l & k & f & HN & _ & HL & Hlen & _). destruct HS as [HI HG].
  destruct (node_peers _ _ _ HI _ _ Hi) as (Hpe & _).
  assert (Hcall : call_inv n g call) by (apply (gi_calls _ _ _ _ HG); right; apply list_elem_of_fmap; by eexists (_, _)).
  unfold call_inv in Hcall. rewrite Ha in Hcall. destruct Hcall as (_ & Hj & m & s & Hm & Hsm & Hsi & _ & _ & Hct & Hci).
  destruct (decide (state rf = Leader /\ currentTerm rf = sc_leaderTerm ctx)) as [[Hs Ht]|Hno]; [|simpl; apply stale_snap_reply; tauto].
  eapply wp_mono; [apply wf_exec; [apply HN|]|done]. simpl. rewrite Hci, Hsi, HL. rewrite Hct in Ht. rewrite <- Ht in Hm.
  pose proof (prefix_length _ _ (sent_by_leader _ _ _ _ HG _ _ _ _ _ _ HN Hs Hm)). pose proof (prefix_length _ _ Hsm). split_and!; (done || lia).
Qed.

(** ** Executions of the cluster *)

Lemma committed_run (n : nat) (now : nat -> Z) c1 c2 (i j : nat) rf1 rf2 (x : Z) :
  rtc small_step (init n now) c1 -> rtc small_step c1 c2 ->
  nodes c1 !! i = Some rf1 -> nodes c2 !! j = Some rf2 ->
  firstIndex (log rf1) < x <= commitIndex rf1 -> firstIndex (log rf2) < x <= commitIndex rf2 ->
  is_Some (entryAt (log rf1) x) /\ entryAt (log rf1) x = entryAt (log rf2) x.
Proof.
  intros H1 H2. destruct (two_states _ _ _ _ H1 H2) as (h1 & g1 & h2 & g2 & S1 & S2 & Hex). by eapply committed_agree.
Qed.

Lemma applied_run (n : nat) (now : nat -> Z) c1 c2 (i j : nat) rf1 rf2 rf1' rf2' (b1 b2 : Log) e1 e2 :
  rtc small_step (init n now) c1 -> rtc small_step c1 c2 ->
  nodes c1 !! i = Some rf1 -> nodes c2 !! j = Some rf2 ->
  applyTicket_waits rf1 = (rf1, Ret false) -> applyTicket_collect rf1 = (rf1', Ret b1) ->
  applyTicket_waits rf2 = (rf2, Ret false) -> applyTicket_collect rf2 = (rf2', Ret b2) ->
  e1 ∈ b1 -> e2 ∈ b2 -> le_Index e1 = le_Index e2 -> e1 = e2.
Proof.
  intros H1 H2 Hi Hj W1 C1 W2 C2 M1 M2 Hidx. destruct (two_states _ _ _ _ H1 H2) as (h1 & g1 & h2 & g2 & S1 & S2 & Hex).
  destruct (collected _ _ _ _ _ _ _ _ _ S1 Hi W1 C1 M1) as [R1 E1].
  destruct (collected _ _ _ _ _ _ _ _ _ S2 Hj W2 C2 M2) as [R2 E2]. rewrite Hidx in R1, E1.
  destruct (committed_agree _ _ _ _ _ _ _ _ _ _ _ _ S1 S2 Hex Hi Hj R1 R2) as [_ Heq]. congruence.
Qed.

Lemma leaders_run (n : nat) (now : nat -> Z) c1 c2 (i j : nat) rf1 rf2 (x : Z) :
  rtc small_step (init n now) c1 -> rtc small_step c1 c2 ->
  nodes c1 !! i = Some rf1 -> firstIndex (log rf1) < x <= commitIndex rf1 ->
  nodes c2 !! j = Some rf2 -> state rf2 = Leader -> currentTerm rf1 <= currentTerm rf2 ->
  x <= lastIndex (log rf2)
  /\ (firstIndex (log rf2) < x -> entryAt (log rf2) x = entryAt (log rf1) x).
Proof.
  intros H1 H2 Hi Hx Hj Hs Ht. destruct (two_states _ _ _ _ H1 H2) as (h1 & g1 & h2 & g2 & S1 & S2 & Hex).
  destruct (node_facts _ _ _ _ S1 _ _ Hi) as (l1 & k1 & f1 & N1 & F1 & _ & _ & E1).
  destruct (node_facts _ _ _ _ S2 _ _ Hj) as (l2 & k2 & f2 & N2 & F2 & HL & _ & E2).
  destruct (committed_entry _ _ _ _ _ _ _ x N1 ltac:(lia)) as [B1 L1]. destruct S2 as [_ HG].
  assert (Hp : k1 `prefix_of` l2).
  { eapply leader_has_known; [exact HG|exact N2|exact Hs|exact Ht|]. eapply known_extends; [exact Hex|apply N1]. }
  pose proof (prefix_length _ _ Hp). split; [lia|]. intros Hf. rewrite E1, E2, L1 by lia.
  destruct Hp as [w ->]. by rewrite lookup_app_l.
Qed.

Lemma matching_run (n : nat) (now : nat -> Z) c1 c2 (i j : nat) rf1 rf2 (x y : Z) e1 e2 :
  rtc small_step (init n now) c1 -> rtc small_step c1 c2 ->
  nodes c1 !! i = Some rf1 -> nodes c2 !! j = Some rf2 ->
  entryAt (log rf1) x = Some e1 -> entryAt (log rf2) x = Some e2 -> le_Term e1 = le_Term e2 ->
  firstIndex (log rf1) < y -> firstIndex (log rf2) < y -> y <= x ->
  is_Some (entryAt (log rf1) y) /\ entryAt (log rf1) y = entryAt (log rf2) y.
Proof.
  intros H1 H2 Hi Hj A1 A2 Ht Hy1 Hy2 Hyx. destruct (two_states _ _ _ _ H1 H2) as (h1 & g1 & h2 & g2 & S1 & S2 & Hex).
  destruct (node_facts _ _ _ _ S1 _ _ Hi) as (l1 & k1 & f1 & N1 & F1 & _ & _ & E1).
  destruct (node_facts _ _ _ _ S2 _ _ Hj) as (l2 & k2 & f2 & N2 & F2 & _ & _ & E2).
  assert (Hpre : take (Z.to_nat x) l1 = take (Z.to_nat x) l2 /\ (Z.to_nat x <= length l1)%nat).
  { rewrite E1 in A1 by lia. rewrite E2 in A2 by lia. destruct S2 as [_ HG].
    eapply (same_term_same_log n); [exact HG|by apply (ex_tree _ _ Hex), N1|apply N2|lia|exact A1|exact A2|done]. }
  destruct Hpre as [Heq Hlen]. rewrite E1, E2 by lia. split; [apply lookup_lt_is_Some; lia|].
  rewrite <- (lookup_take_lt l1 (Z.to_nat x)), <- (lookup_take_lt l2 (Z.to_nat x)) by lia. by rewrite Heq.
Qed.

Lemma panics_run (n : nat) (now : nat -> Z) c (i : nat) rf env op :
  rtc small_step (init n now) c -> nodes c !! i = Some rf -> offered c i rf op ->
  exists rf', exec env op rf = (rf', Ret tt).
Proof.
  intros Hc Hi Hop. destruct (safe_reachable n now c Hc) as (h & g & HS).
  enough (Hw : wp (exec env op) (fun _ _ => True) rf) by (destruct (wp_run _ _ _ Hw) as (rf' & [] & ? & _); by exists rf').
  destruct Hop as [call Hin <-| | | | | |inc j Hin|call a recode r Hin Ha <- Hf|call a ctx r Hin Ha <- Hf| | |Hw| ].
  1: by eapply request_runs.
  6: by eapply sendsnap_runs.
  6: by eapply log_reply_runs.
  6: by eapply snap_reply_runs.
  8: { destruct (collect_runs _ _ _ _ _ _ HS Hi Hw) as (b & Hr & _). simpl. apply wp_ignore. by eapply wp_intro. }
  all: eapply wp_mono; [by apply wf_exec; [eapply (safe_wf n c h g)|]|done].
Qed.

(** ** Executions over shared arrays *)

(** The states of an intact execution are those of an execution of the cluster. *)
Lemma intact_states (n : nat) (now : nat -> Z) w1 w2 :
  rtc (intact small_step) (init n now, boot_memory (init n now)) w1 -> rtc (intact small_step) w1 w2 ->
  rtc small_step (init n now) (fst w1) /\ rtc small_step (fst w1) (fst w2).
Proof. intros H1' H2'. exact (intact_start small_step (init n now) w1 w2 H1' H2'). Qed.

Section Shared.
Context (n : nat) (now : nat -> Z).
Abbreviation start := (init n now, boot_memory (init n now)).
Implicit Types w : Cluster (D:=D) * Memory (D:=D).

(** C5.  Committed entries agree: in every execution of a cluster over the arrays behind the
    logs (messages lost, delayed, reordered, peers crashing at any point and restarting
    from storage, snapshots taken and installed) in which no AppendEntries message is
    overwritten in the log of its sender between being prepared and being encoded, and in
    which log indices stay within 2^53, an entry that one peer counts as committed in some
    state and an entry that any peer counts as committed at the same index in that or a
    later state are the same entry, and both are there. *)
Theorem committed_entries_agree w1 w2 (i j : nat) rf1 rf2 (x : Z) :
  rtc (intact small_step) start w1 -> rtc (intact small_step) w1 w2 ->
  nodes (fst w1) !! i = Some rf1 -> nodes (fst w2) !! j = Some rf2 ->
  firstIndex (log rf1) < x <= commitIndex rf1 -> firstIndex (log rf2) < x <= commitIndex rf2 ->
  is_Some (entryAt (log rf1) x) /\ entryAt (log rf1) x = entryAt (log rf2) x.
Proof. intros H1' H2'. destruct (intact_states _ _ _ _ H1' H2'). by eapply committed_run. Qed.

(** C2.  State machine safety: in every execution of a cluster over the arrays behind the
    logs, with crashes and lost and reordered messages, in which no AppendEntries message
    is overwritten in the log of its sender between being prepared and being encoded, and
    in which log indices stay within 2^53, two batches that appliers of any two peers hand
    to their services, at any two points of the execution, contain the same command at
    every index that is in both. *)
Theorem state_machine_safety w1 w2 (i j : nat) rf1 rf2 rf1' rf2' (b1 b2 : Log) e1 e2 :
  rtc (intact small_step) start w1 -> rtc (intact small_step) w1 w2 ->
  nodes (fst w1) !! i = Some rf1 -> nodes (fst w2) !! j = Some rf2 ->
  applyTicket_waits rf1 = (rf1, Ret false) -> applyTicket_collect rf1 = (rf1', Ret b1) ->
  applyTicket_waits rf2 = (rf2, Ret false) -> applyTicket_collect rf2 = (rf2', Ret b2) ->
  e1 ∈ b1 -> e2 ∈ b2 -> le_Index e1 = le_Index e2 -> e1 = e2.
Proof. intros H1' H2'. destruct (intact_states _ _ _ _ H1' H2'). by eapply applied_run. Qed.

(** C3.  Leader completeness: in every execution of a cluster over the arrays behind the logs
    in which no AppendEntries message is overwritten in the log of its sender between
    being prepared and being encoded, and in which log indices stay within 2^53, an entry
    that some peer counts as committed is in the log of every leader of that or a later
    state whose term is not lower than that peer's (or below the leader's snapshot). *)
Theorem leaders_have_committed w1 w2 (i j : nat) rf1 rf2 (x : Z) :
  rtc (intact small_step) start w1 -> rtc (intact small_step) w1 w2 ->
  nodes (fst w1) !! i = Some rf1 -> firstIndex (log rf1) < x <= commitIndex rf1 ->
  nodes (fst w2) !! j = Some rf2 -> state rf2 = Leader -> currentTerm rf1 <= currentTerm rf2 ->
  x <= lastIndex (log rf2)
  /\ (firstIndex (log rf2) < x -> entryAt (log rf2) x = entryAt (log rf1) x).
Proof. intros H1' H2'. destruct (intact_states _ _ _ _ H1' H2'). by eapply leaders_run. Qed.

(** C4.  Log matching: in every execution of a cluster over the arrays behind the logs in
    which no AppendEntries message is overwritten in the log of its sender between being
    prepared and being encoded, and in which log indices stay within 2^53, if the logs of
    two peers, in one state or in two states, have an entry with the same index and term,
    then they have the same entries at all lower indices that neither has compacted. *)
Theorem logs_match w1 w2 (i j : nat) rf1 rf2 (x y : Z) e1 e2 :
  rtc (intact small_step) start w1 -> rtc (intact small_step) w1 w2 ->
  nodes (fst w1) !! i = Some rf1 -> nodes (fst w2) !! j = Some rf2 ->
  entryAt (log rf1) x = Some e1 -> entryAt (log rf2) x = Some e2 -> le_Term e1 = le_Term e2 ->
  firstIndex (log rf1) < y -> firstIndex (log rf2) < y -> y <= x ->
  is_Some (entryAt (log rf1) y) /\ entryAt (log rf1) y = entryAt (log rf2) y.
Proof. intros H1' H2'. destruct (intact_states _ _ _ _ H1' H2'). by eapply matching_run. Qed.

(** C6.  No panics: in every state of an execution of a cluster over the arrays behind the
    logs in which no AppendEntries message is overwritten in the log of its sender between
    being prepared and being encoded, and in which log indices stay within 2^53,
    everything the cluster can ask a peer to do returns normally: handlers of requests in
    transit, timers, calls of the service, the applier, and the processing of answers
    unless a snapshot that the peer installed is still waiting to be delivered. *)
Theorem cluster_never_panics w (i : nat) rf env op :
  rtc (intact small_step) start w -> nodes (fst w) !! i = Some rf -> offered (fst w) i rf op ->
  exists rf', exec env op rf = (rf', Ret tt).
Proof. intros H1'. destruct (intact_states _ _ _ _ H1' (rtc_refl _ _)). by eapply panics_run. Qed.

End Shared.

End Props.

(** ** Witnesses *)

Module SafetyWitness.
Import ListGob.

Definition env0 : Env := fun _ => mkTick 7 0.
Definition boot : nat -> Z := fun _ => 0.
Abbreviation World := (Cluster (D:=Z) * Memory (D:=Z))%type.
Abbreviation Ev := (WEvent (Ev:=Event (D:=Z))).
Definition start : World := (init 3 boot, boot_memory (init 3 boot)).

(** Peer 0 is elected and commits a command that peer 1 has stored; the message to peer 2
    still waits to be encoded. *)
Definition elected : list Ev := WFire <$> [ETick 0 1000 env0; EDeliver 0 env0; EResume 0 env0; EDecide 0; EStart 0 42; ESendLog 0].
Definition committing : list Ev := elected ++ [WEncode 0 0; WFire (EDeliver 0 env0); WFire (EResume 0 env0)].

(** Another command is appended and peer 1 learns what is committed; then the old message
    to peer 2 is encoded. *)
Definition learning : list Ev := [WFire (EStart 0 43); WFire (ESendLog 0); WEncode 0 0; WFire (EDeliver 0 env0); WEncode 1 1].

Definition runs_to (evs : list Ev) : option World := intact_run fire_small Delayed.double evs start.
Definition after (evs : list Ev) : World := default start (runs_to evs).
Definition w1 : World := after committing.
Definition w2 : World := after (committing ++ learning).

Lemma start_w1 : rtc (intact small_step) start w1.
Proof. apply (intact_run_sound small_step fire_small fire_small_sound Delayed.double committing). vm_compute. reflexivity. Qed.

Lemma w1_w2 : rtc (intact small_step) w1 w2.
Proof.
  apply (intact_run_app small_step fire_small fire_small_sound Delayed.double committing learning start); vm_compute; reflexivity.
Qed.

Definition peer (w : World) (i : nat) : Raft Z := default (fst (Make 3 0 0 MakePersister)) (nodes (fst w) !! i).

Lemma committed_entries_agree_witness :
  entryAt (log (peer w1 0)) 1 = entryAt (log (peer w2 1)) 1 /\ commitIndex (peer w1 0) = 1 /\ commitIndex (peer w2 1) = 1.
Proof.
  split; [|split; vm_compute; reflexivity].
  refine (proj2 (committed_entries_agree 3 boot w1 w2 0 1 (peer w1 0) (peer w2 1) 1 start_w1 w1_w2 _ _ _ _));
    [vm_compute; reflexivity..|vm_compute; split; congruence|vm_compute; split; congruence].
Defined.

(** What the appliers of the two peers collect. *)
Definition batch (w : World) (i : nat) : list (LogEntry Z) :=
  match snd (applyTicket_collect (peer w i)) with Ret b => b | Panic => [] end.
Definition command (w : World) (i : nat) : LogEntry Z := default (mkLogEntry 0 0 None) (head (batch w i)).

Lemma state_machine_safety_witness : command w1 0 = command w2 1 /\ command w1 0 = mkLogEntry 1 1 (Some 42).
Proof.
  split; [|vm_compute; reflexivity].
  refine (state_machine_safety 3 boot w1 w2 0 1 (peer w1 0) (peer w2 1) _ _ (batch w1 0) (batch w2 1) _ _ start_w1 w1_w2 _ _ _ _ _ _ _ _ _);
    [vm_compute; reflexivity..|vm_compute; left|vm_compute; left|vm_compute; reflexivity].
Defined.

Lemma leaders_have_committed_witness :
  state (peer w2 0) = Leader /\ 1 <= lastIndex (log (peer w2 0)) /\ entryAt (log (peer w2 0)) 1 = entryAt (log (peer w1 0)) 1.
Proof.
  split; [vm_compute; reflexivity|].
  assert (Hx : firstIndex (log (peer w1 0)) < 1 <= commitIndex (peer w1 0)) by (vm_compute; split; congruence).
  destruct (leaders_have_committed 3 boot w1 w2 0 0 (peer w1 0) (peer w2 0) 1 start_w1 w1_w2) as [Hle Heq];
    [vm_compute; reflexivity|exact Hx|vm_compute; reflexivity|vm_compute; reflexivity|vm_compute; congruence|].
  split; [exact Hle|]. apply Heq. vm_compute. reflexivity.
Defined.

Lemma logs_match_witness : entryAt (log (peer w1 0)) 1 = entryAt (log (peer w2 1)) 1.
Proof.
  refine (proj2 (logs_match 3 boot w1 w2 0 1 (peer w1 0) (peer w2 1) 1 1 (mkLogEntry 1 1 (Some 42)) (mkLogEntry 1 1 (Some 42))
    start_w1 w1_w2 _ _ _ _ _ _ _ _)); vm_compute; congruence.
Defined.

(** The message to peer 2, with both commands, which is encoded last. *)
Lemma cluster_never_panics_witness :
  exists call rf', call ∈ requests (fst w2) /\ c_dst call = 2%nat /\ exec env0 (handler (c_req call)) (peer w2 2) = (rf', Ret tt).
Proof.
  exists (default (mkCall 0 None 0 (ReqVote (mkRequestVoteArgs 0 0 0 0))) (requests (fst w2) !! 1%nat)).
  destruct (cluster_never_panics 3 boot w2 2 (peer w2 2) env0
    (handler (c_req (default (mkCall 0 None 0 (ReqVote (mkRequestVoteArgs 0 0 0 0))) (requests (fst w2) !! 1%nat))))) as [rf' Hr].
  - etrans; [exact start_w1|exact w1_w2].
  - vm_compute. reflexivity.
  - apply of_request; [vm_compute; right; left|vm_compute; reflexivity].
  - exists rf'. split; [vm_compute; right; left|]. split; [vm_compute; reflexivity|exact Hr].
Defined.

End SafetyWitness.
