(* ===== verification/LabRpc.v ===== *)
(** The network of package labrpc (src/src/labrpc/labrpc.go).

    A name ([interface{}]) is an element of [N]; nil is [None].  Servers are objects
    with an identity, an index into the heap of servers, because the network compares
    pointers.  What reflection and labgob do when a method is called (decode the
    argument, call, encode the reply) is the function [mt_call] of a method; it acts on
    the state [W] of the objects behind the servers, in one step with the counting of
    the request.  log.Fatalf ends the process and
    is a panic here.  One RPC is two goroutines, Call and processReq, and a third for the
    handler; the step relation [nstep] interleaves their pieces with the operations on the
    network.  Random decisions and delays are choices of the relation.  After Cleanup a
    request can still be handed over until the network's goroutine has seen the closed
    channel. *)
From Stdlib Require Import ZArith Lia Ascii.
From stdpp Require Import base list numbers strings gmap relations.
From S2P Require Import Prelude RaftTypes.

#[local] Open Scope Z_scope.

(** Signed integers of [w] bits. *)
Definition wrap (w z : Z) : Z := (z + 2 ^ (w - 1)) mod 2 ^ w - 2 ^ (w - 1).

(** ** Services and servers *)

Section Services.
Context {N : Type} {W : Type}.

Record reqMsg := mkReqMsg { rq_endname : N; rq_svcMeth : string; rq_args : bytes }.
Record replyMsg := mkReplyMsg { rp_ok : bool; rp_reply : bytes }.

(** What reflection tells about a method. *)
Record Method := mkMethod
  { mt_Name : string; mt_PkgPath : string; mt_NumIn : Z; mt_In2Ptr : bool; mt_NumOut : Z;
    mt_call : bytes -> M W bytes }.

Record Service := mkService { sv_name : string; sv_methods : gmap string Method }.

Definition suitable (m : Method) : bool :=
  bool_decide (mt_PkgPath m = EmptyString) && (mt_NumIn m =? 3) && mt_In2Ptr m && (mt_NumOut m =? 0).

Definition MakeService (name : string) (methods : list Method) : Service :=
  mkService name (foldl (fun acc m => if suitable m then <[mt_Name m := m]> acc else acc) ∅ methods).

Definition Service_dispatch (svc : Service) (methname : string) (req : reqMsg) : M W replyMsg :=
  match sv_methods svc !! methname with
  | Some method => reply ← mt_call method (rq_args req); mret (mkReplyMsg true reply)
  | None => lift Panic
  end.

Record Server := mkServer { srv_services : gmap string Service; srv_count : Z }.

Definition MakeServer : Server := mkServer ∅ 0.

Definition AddService (svc : Service) (rs : Server) : Server :=
  mkServer (<[sv_name svc := svc]> (srv_services rs)) (srv_count rs).

Definition Server_GetCount (rs : Server) : Z := srv_count rs.

(** [strings.LastIndex(s, ".")], [None] for -1 *)
Fixpoint lastDot (s : string) : option nat :=
  match s with
  | EmptyString => None
  | String c s' =>
      match lastDot s' with
      | Some k => Some (S k)
      | None => if decide (c = "."%char) then Some 0%nat else None
      end
  end.

(** A server and the objects its handlers act on. *)
Definition on_snd {A : Type} (m : M W A) : M (Server * W) A := fun sw =>
  match m (snd sw) with (w', a) => ((fst sw, w'), a) end.

Definition Server_dispatch (req : reqMsg) : M (Server * W) replyMsg :=
  modify (fun sw => (mkServer (srv_services (fst sw)) (srv_count (fst sw) + 1), snd sw));;
  dot ← lift (match lastDot (rq_svcMeth req) with Some d => Ret d | None => Panic end);
  let serviceName := String.substring 0 dot (rq_svcMeth req) in
  let methodName := String.substring (dot + 1) (String.length (rq_svcMeth req) - (dot + 1)) (rq_svcMeth req) in
  services ← gets (fun sw => srv_services (fst sw));
  match services !! serviceName with
  | Some service => on_snd (Service_dispatch service methodName req)
  | None => lift Panic
  end.

End Services.
Arguments reqMsg N : clear implicits.
Arguments Method W : clear implicits.
Arguments Service W : clear implicits.
Arguments Server W : clear implicits.

(** ** The network *)

Section Network.
Context {N : Type} `{Countable N}.

Record Network := mkNetwork
  { reliable : bool; longDelays : bool; longReordering : bool;
    ends : gset N;                      (* the end points that exist *)
    enabled : gmap N bool;
    servers : gmap N (option nat);      (* nil after DeleteServer *)
    connections : gmap N (option N);    (* nil before Connect *)
    nw_done : bool;                     (* the channel done is closed *)
    nw_count : Z;                       (* int32 *)
    nw_bytes : Z }.                     (* int64 *)

Abbreviation NM := (M Network).

Definition MakeNetwork : Network := mkNetwork true false false ∅ ∅ ∅ ∅ false 0 0.

(** Closing a closed channel panics. *)
Definition Cleanup : NM unit :=
  d ← gets nw_done;
  if d : bool then lift Panic
  else modify (fun rn => mkNetwork (reliable rn) (longDelays rn) (longReordering rn) (ends rn) (enabled rn)
                 (servers rn) (connections rn) true (nw_count rn) (nw_bytes rn)).

Definition Reliable (yes : bool) : NM unit :=
  modify (fun rn => mkNetwork yes (longDelays rn) (longReordering rn) (ends rn) (enabled rn)
            (servers rn) (connections rn) (nw_done rn) (nw_count rn) (nw_bytes rn)).

Definition LongReordering (yes : bool) : NM unit :=
  modify (fun rn => mkNetwork (reliable rn) (longDelays rn) yes (ends rn) (enabled rn)
            (servers rn) (connections rn) (nw_done rn) (nw_count rn) (nw_bytes rn)).

Definition LongDelays (yes : bool) : NM unit :=
  modify (fun rn => mkNetwork (reliable rn) yes (longReordering rn) (ends rn) (enabled rn)
            (servers rn) (connections rn) (nw_done rn) (nw_count rn) (nw_bytes rn)).

Definition set_ends (e : gset N) (en : gmap N bool) (co : gmap N (option N)) (rn : Network) : Network :=
  mkNetwork (reliable rn) (longDelays rn) (longReordering rn) e en (servers rn) co (nw_done rn) (nw_count rn) (nw_bytes rn).

Definition set_servers (sv : gmap N (option nat)) (rn : Network) : Network :=
  mkNetwork (reliable rn) (longDelays rn) (longReordering rn) (ends rn) (enabled rn) sv (connections rn)
    (nw_done rn) (nw_count rn) (nw_bytes rn).

Definition MakeEnd (endname : N) : NM unit :=
  rn ← gets id;
  if decide (endname ∈ ends rn) then lift Panic
  else modify (set_ends ({[endname]} ∪ ends rn) (<[endname := false]> (enabled rn)) (<[endname := None]> (connections rn))).

Definition DeleteEnd (endname : N) : NM unit :=
  rn ← gets id;
  if decide (endname ∈ ends rn)
  then modify (set_ends (ends rn ∖ {[endname]}) (delete endname (enabled rn)) (delete endname (connections rn)))
  else lift Panic.

Definition AddServer (servername : N) (rs : nat) : NM unit :=
  modify (fun rn => set_servers (<[servername := Some rs]> (servers rn)) rn).

Definition DeleteServer (servername : N) : NM unit :=
  modify (fun rn => set_servers (<[servername := None]> (servers rn)) rn).

Definition Connect (endname servername : N) : NM unit :=
  modify (fun rn => set_ends (ends rn) (enabled rn) (<[endname := Some servername]> (connections rn)) rn).

Definition Enable (endname : N) (yes : bool) : NM unit :=
  modify (fun rn => set_ends (ends rn) (<[endname := yes]> (enabled rn)) (connections rn) rn).

(** Reading a map: absent names give the zero value. *)
Definition is_enabled (endname : N) (rn : Network) : bool := default false (enabled rn !! endname).
Definition server_of (servername : N) (rn : Network) : option nat := mjoin (servers rn !! servername).

(** What processReq learns about an end point. *)
Record Info := mkInfo { in_name : N; in_server : nat; in_reliable : bool; in_reorder : bool }.

Definition readEndnameInfo (endname : N) (rn : Network) : bool * option N * option nat * bool * bool :=
  let servername := mjoin (connections rn !! endname) in
  (is_enabled endname rn, servername, sn ← servername; server_of sn rn, reliable rn, longReordering rn).

Definition isServerDead (endname servername : N) (server : nat) (rn : Network) : bool :=
  negb (is_enabled endname rn) || negb (bool_decide (server_of servername rn = Some server)).

(** Counting, with the wrap-around of int32 and int64. *)
Definition count_request (req : reqMsg N) (rn : Network) : Network :=
  mkNetwork (reliable rn) (longDelays rn) (longReordering rn) (ends rn) (enabled rn) (servers rn) (connections rn)
    (nw_done rn) (wrap 32 (nw_count rn + 1)) (wrap 64 (nw_bytes rn + Z.of_nat (length (rq_args req)))).

Definition count_reply (r : replyMsg) (rn : Network) : Network :=
  mkNetwork (reliable rn) (longDelays rn) (longReordering rn) (ends rn) (enabled rn) (servers rn) (connections rn)
    (nw_done rn) (nw_count rn) (wrap 64 (nw_bytes rn + Z.of_nat (length (rp_reply r)))).

Definition GetTotalCount (rn : Network) : Z := nw_count rn.
Definition GetTotalBytes (rn : Network) : Z := nw_bytes rn.

(** A nil server is dereferenced. *)
Definition GetCount {W : Type} (servername : N) (heap : list (Server W)) (rn : Network) : res Z :=
  match sv ← server_of servername rn; heap !! sv with
  | Some rs => Ret (Server_GetCount rs)
  | None => Panic
  end.

(** Operations of the tests on the network. *)
Inductive Admin :=
| ACleanup | AReliable (b : bool) | ALongReordering (b : bool) | ALongDelays (b : bool)
| AMakeEnd (e : N) | ADeleteEnd (e : N) | AAddServer (s : N) (rs : nat) | ADeleteServer (s : N)
| AConnect (e s : N) | AEnable (e : N) (b : bool).

Definition admin (a : Admin) : NM unit :=
  match a with
  | ACleanup => Cleanup
  | AReliable b => Reliable b
  | ALongReordering b => LongReordering b
  | ALongDelays b => LongDelays b
  | AMakeEnd e => MakeEnd e
  | ADeleteEnd e => DeleteEnd e
  | AAddServer s rs => AddServer s rs
  | ADeleteServer s => DeleteServer s
  | AConnect e s => Connect e s
  | AEnable e b => Enable e b
  end.

End Network.
Arguments Network N {_ _} : assert.
Arguments Info N : clear implicits.
Arguments Admin N : clear implicits.

(** ** RPCs in progress *)

Section Rpcs.
Context {N : Type} `{Countable N} {W : Type} (world : relation W).

Inductive Pc :=
| Sending                              (* Call has not handed the request over *)
| Accepted                             (* processReq has been started *)
| Delayed                              (* the end point leads to a server *)
| Waiting                              (* for the handler, or for the server to die *)
| Checking (replyOK : option replyMsg) (* the loop is over *)
| Answering (r : replyMsg)             (* the answer is on its way to Call *)
| Returned (reply : option bytes).     (* Call has returned; [None] is false *)

(** The goroutine that runs the handler; its answer stays in ech until received. *)
Inductive Handler := HNone | HRunning | HDone (r : replyMsg).

(** [r_ran] lists the answers of the handler so far (auxiliary). *)
Record Rpc := mkRpc
  { r_req : reqMsg N; r_pc : Pc; r_info : option (Info N); r_hand : Handler; r_ran : list replyMsg }.

Record Sys := mkSys
  { s_net : Network N; s_heap : list (Server W); s_world : W; s_rpcs : list Rpc }.

Definition failed : replyMsg := mkReplyMsg false [].

(** Lines 219-220 and the branch taken. *)
Definition processReq_begin (rn : Network N) (r : Rpc) : Rpc :=
  match readEndnameInfo (rq_endname (r_req r)) rn with
  | (true, Some sn, Some sv, rel, lr) => mkRpc (r_req r) Delayed (Some (mkInfo sn sv rel lr)) (r_hand r) (r_ran r)
  | _ => mkRpc (r_req r) (Answering failed) None (r_hand r) (r_ran r)
  end.

(** Lines 271-295, once the loop is over; [drop]: the reply is dropped. *)
Definition processReq_answer (rn : Network N) (req : reqMsg N) (info : Info N) (replyOK : option replyMsg) (drop : bool) : replyMsg :=
  match replyOK with
  | None => failed
  | Some reply =>
      if isServerDead (rq_endname req) (in_name info) (in_server info) rn then failed
      else if drop then failed else reply
  end.

(** What Call returns. *)
Definition Call_return (r : replyMsg) : option bytes := if rp_ok r then Some (rp_reply r) else None.

Definition set_pc (pc : Pc) (r : Rpc) : Rpc := mkRpc (r_req r) pc (r_info r) (r_hand r) (r_ran r).
Definition set_hand (h : Handler) (r : Rpc) : Rpc := mkRpc (r_req r) (r_pc r) (r_info r) h (r_ran r).

Definition put (i : nat) (r : Rpc) (s : Sys) : Sys :=
  mkSys (s_net s) (s_heap s) (s_world s) (<[i := r]> (s_rpcs s)).
Definition set_net (rn : Network N) (s : Sys) : Sys := mkSys rn (s_heap s) (s_world s) (s_rpcs s).

Inductive nstep (s : Sys) : Sys -> Prop :=
| n_call req :
    nstep s (mkSys (s_net s) (s_heap s) (s_world s) (s_rpcs s ++ [mkRpc req Sending None HNone []]))
| n_send i r :
    s_rpcs s !! i = Some r -> r_pc r = Sending ->
    nstep s (put i (set_pc Accepted r) (set_net (count_request (r_req r) (s_net s)) s))
| n_closed i r :
    s_rpcs s !! i = Some r -> r_pc r = Sending -> nw_done (s_net s) = true ->
    nstep s (put i (set_pc (Returned None) r) s)
| n_begin i r :
    s_rpcs s !! i = Some r -> r_pc r = Accepted -> nstep s (put i (processReq_begin (s_net s) r) s)
| n_drop i r info :
    s_rpcs s !! i = Some r -> r_pc r = Delayed -> r_info r = Some info -> in_reliable info = false ->
    nstep s (put i (set_pc (Answering failed) r) s)
| n_execute i r :
    s_rpcs s !! i = Some r -> r_pc r = Delayed -> nstep s (put i (set_pc Waiting (set_hand HRunning r)) s)
| n_dispatch i r info srv srv' w' rep :
    s_rpcs s !! i = Some r -> r_hand r = HRunning -> r_info r = Some info -> s_heap s !! in_server info = Some srv ->
    Server_dispatch (r_req r) (srv, s_world s) = ((srv', w'), Ret rep) ->
    nstep s (mkSys (s_net s) (<[in_server info := srv']> (s_heap s)) w'
               (<[i := mkRpc (r_req r) (r_pc r) (r_info r) (HDone rep) (rep :: r_ran r)]> (s_rpcs s)))
| n_receive i r rep :
    s_rpcs s !! i = Some r -> r_pc r = Waiting -> r_hand r = HDone rep ->
    nstep s (put i (set_pc (Checking (Some rep)) (set_hand HNone r)) s)
| n_give_up i r info :
    s_rpcs s !! i = Some r -> r_pc r = Waiting -> r_info r = Some info ->
    isServerDead (rq_endname (r_req r)) (in_name info) (in_server info) (s_net s) = true ->
    nstep s (put i (set_pc (Checking None) r) s)
| n_check i r info o drop :
    s_rpcs s !! i = Some r -> r_pc r = Checking o -> r_info r = Some info -> (drop = true -> in_reliable info = false) ->
    nstep s (put i (set_pc (Answering (processReq_answer (s_net s) (r_req r) info o drop)) r) s)
| n_return i r rep :
    s_rpcs s !! i = Some r -> r_pc r = Answering rep ->
    nstep s (put i (set_pc (Returned (Call_return rep)) r) (set_net (count_reply rep (s_net s)) s))
| n_admin a rn' :
    admin a (s_net s) = (rn', Ret tt) -> nstep s (set_net rn' s)
| n_server rs : nstep s (mkSys (s_net s) (s_heap s ++ [rs]) (s_world s) (s_rpcs s))
| n_world w' : world (s_world s) w' -> nstep s (mkSys (s_net s) (s_heap s) w' (s_rpcs s)).

End Rpcs.
