(* ===== verification/LabRpcProps.v ===== *)
(** What package labrpc guarantees to its clients: a call is handled at most once and
    returns what the handler answered, no answer comes from a deleted server, a call to a
    registered server can complete, and calls go through the stages that the cluster
    relation assumes. *)
From Stdlib Require Import ZArith Lia Ascii.
From stdpp Require Import base list numbers strings gmap relations.
From S2P Require Import Prelude RaftTypes LabRpc.

#[local] Open Scope Z_scope.

(** ** Names of methods *)

(** [s] has no dot. *)
Definition undotted (s : string) : Prop := lastDot s = None.

Lemma lastDot_app (s m : string) : undotted m -> lastDot (s +:+ String "." m) = Some (String.length s).
Proof.
  intros Hm. induction s as [|c s IH].
  - change (EmptyString +:+ String "." m) with (String "." m). unfold undotted in Hm. simpl. by rewrite Hm.
  - change (String c s +:+ String "." m) with (String c (s +:+ String "." m)). simpl. by rewrite IH.
Qed.

Lemma substring_app_l (s t : string) : String.substring 0 (String.length s) (s +:+ t) = s.
Proof.
  induction s as [|c s IH]; [by destruct t|].
  change (String c s +:+ t) with (String c (s +:+ t)). simpl. by rewrite IH.
Qed.

Lemma substring_all (t : string) : String.substring 0 (String.length t) t = t.
Proof. induction t as [|c t IH]; cbn; [done|by rewrite IH]. Qed.

Lemma substring_app_r (s t : string) (n : nat) : String.substring (String.length s) n (s +:+ t) = String.substring 0 n t.
Proof. induction s as [|c s IH]; [done|]. change (String c s +:+ t) with (String c (s +:+ t)). exact IH. Qed.

Lemma string_length_app (s t : string) : String.length (s +:+ t) = (String.length s + String.length t)%nat.
Proof. induction s as [|c s IH]; [done|]. change (String c s +:+ t) with (String c (s +:+ t)). simpl. by rewrite IH. Qed.

Lemma string_app_assoc (s t u : string) : s +:+ (t +:+ u) = (s +:+ t) +:+ u.
Proof.
  induction s as [|c s IH]; [done|]. change (String c (s +:+ (t +:+ u)) = String c ((s +:+ t) +:+ u)). by rewrite IH.
Qed.

Section Props.
Context {N : Type} `{Countable N} {W : Type} (world : relation W).
Abbreviation Sys := (Sys (N:=N) (W:=W)).
Abbreviation nstep := (nstep world).
Implicit Types (s : Sys) (r : Rpc (N:=N)).

(** The method of a request, found at the last dot. *)
Lemma dispatch_method (srv : Server W) (w w' : W) (req : reqMsg N) (sname mname : string) svc mth reply :
  rq_svcMeth req = sname +:+ String "." mname -> undotted mname ->
  srv_services srv !! sname = Some svc -> sv_methods svc !! mname = Some mth ->
  mt_call mth (rq_args req) w = (w', Ret reply) ->
  Server_dispatch req (srv, w) = ((mkServer (srv_services srv) (srv_count srv + 1), w'), Ret (mkReplyMsg true reply)).
Proof.
  intros Hq Hm Hsv Hmt Hc. unfold Server_dispatch. m_exec. rewrite Hq, lastDot_app by done. m_exec.
  rewrite substring_app_l, Hsv. rewrite string_length_app. cbn [String.length].
  assert (Hsub : String.substring (String.length sname + 1) (String.length sname + S (String.length mname) - (String.length sname + 1))
    (sname +:+ String "." mname) = mname).
  { replace (String.length sname + S (String.length mname) - (String.length sname + 1))%nat with (String.length mname) by lia.
    replace (sname +:+ String "." mname) with ((sname +:+ ".") +:+ mname) by (by rewrite <- string_app_assoc).
    replace (String.length sname + 1)%nat with (String.length (sname +:+ ".")) by (by rewrite string_length_app).
    by rewrite substring_app_r, substring_all. }
  unfold on_snd, Service_dispatch. cbn [snd fst]. rewrite Hsub, Hmt. m_exec. by rewrite Hc.
Qed.

Lemma dispatch_ok (req : reqMsg N) (srv srv' : Server W) (w w' : W) rep :
  Server_dispatch req (srv, w) = ((srv', w'), Ret rep) -> rp_ok rep = true.
Proof.
  unfold Server_dispatch, on_snd, Service_dispatch. m_exec. destruct (lastDot (rq_svcMeth req)); [|done]. m_exec.
  destruct (srv_services srv !! _) as [svc|]; [|done]. cbn. destruct (sv_methods svc !! _) as [mth|]; [|done].
  m_exec. destruct (mt_call mth (rq_args req) w) as [w1 [reply|]]; [|done]. cbn. by intros [= <- <- <-].
Qed.

(** ** The invariant of one RPC *)

(** The handler's goroutine and what it has answered. *)
Definition hand_ok r : Prop :=
  match r_hand r with
  | HNone => (length (r_ran r) <= 1)%nat
  | HRunning => r_ran r = []
  | HDone rep => r_ran r = [rep]
  end.

Definition pc_ok r : Prop :=
  match r_pc r with
  | Sending | Accepted | Delayed => r_hand r = HNone /\ r_ran r = []
  | Waiting | Checking None => r_hand r <> HNone
  | Checking (Some rep) => r_hand r = HNone /\ r_ran r = [rep]
  | Answering rep => rep = failed \/ (r_hand r = HNone /\ r_ran r = [rep])
  | Returned o => o = None \/ exists rep, o = Some (rp_reply rep) /\ r_hand r = HNone /\ r_ran r = [rep]
  end.

Record rpc_ok r : Prop :=
  { ro_hand : hand_ok r;
    ro_pc : pc_ok r;
    ro_true : Forall (fun rep => rp_ok rep = true) (r_ran r) }.

Definition all_ok s : Prop := Forall rpc_ok (s_rpcs s).

Lemma begin_ok rn r : rpc_ok r -> r_pc r = Accepted -> rpc_ok (processReq_begin rn r).
Proof.
  intros [Hh Hp Ht] Hpc. unfold pc_ok in Hp. rewrite Hpc in Hp. unfold processReq_begin.
  destruct (readEndnameInfo _ rn) as [[[[[] [sn|]] [sv|]] rel] lr];
    (split; [exact Hh|first [exact Hp|by left]|exact Ht]).
Qed.

Lemma answer_cases rn req info o drop :
  processReq_answer (N:=N) rn req info o drop = failed
  \/ exists rep, o = Some rep /\ processReq_answer rn req info o drop = rep.
Proof.
  unfold processReq_answer. destruct o as [rep|]; [|by left]. destruct (isServerDead _ _ _ rn); [by left|].
  destruct drop; [by left|right; by exists rep].
Qed.

(** Every RPC of the next state is an old one, unchanged or moved on, or new. *)
Lemma step_rpcs s s' : all_ok s -> nstep s s' -> all_ok s'.
Proof.
  intros Ha Hst.
  assert (Hget : forall i r, s_rpcs s !! i = Some r -> rpc_ok r) by (intros i r Hi; by eapply Forall_lookup_1 in Ha).
  destruct Hst as [req|i r Hi Hpc|i r Hi Hpc|i r Hi Hpc|i r info Hi Hpc|i r Hi Hpc|i r info srv srv' w' rep Hi Hh _ _ Hd
    |i r rep Hi Hpc Hh|i r info Hi Hpc|i r info o drop Hi Hpc Hinf Hdr|i r rep Hi Hpc|a rn' _|rs|w' _]; try done;
    unfold all_ok; simpl; try (apply Forall_insert; [done|]; destruct (Hget _ _ Hi) as [R1 R2 R3]; unfold hand_ok, pc_ok in *).
  - apply Forall_app. split; [done|]. apply Forall_singleton. split; [unfold hand_ok; simpl; lia|done|constructor].
  - rewrite Hpc in R2. by split.
  - rewrite Hpc in R2. split; [done|by left|done].
  - apply begin_ok; [by apply (Hget i)|done].
  - rewrite Hpc in R2. split; [done|by left|done].
  - rewrite Hpc in R2. destruct R2 as [_ R2]. by split.
  - rewrite Hh in R1. rewrite R1 in *. split; simpl; [done| |by repeat constructor; apply dispatch_ok in Hd].
    unfold pc_ok. simpl. destruct (r_pc r) as [| | | |[]|x|o]; rewrite ?Hh in R2; try (by destruct R2); try done.
    + destruct R2 as [->|[? _]]; [by left|done].
    + destruct R2 as [->|(? & _ & ? & _)]; [by left|done].
  - rewrite Hh in R1. split; simpl; [|done|done]. unfold hand_ok. simpl. by rewrite R1.
  - rewrite Hpc in R2. by split.
  - rewrite Hpc in R2. split; [done| |done]. unfold pc_ok. simpl.
    destruct (answer_cases (s_net s) (r_req r) info o drop) as [->|(rep & -> & ->)]; [by left|by right].
  - rewrite Hpc in R2. split; [done| |done]. unfold pc_ok, Call_return. simpl.
    destruct R2 as [->|[? Hran]]; [by left|]. right. exists rep. rewrite Hran, Forall_singleton in R3. by rewrite R3.
Qed.

(** The system before any call. *)
Definition idle s : Prop := s_rpcs s = [].

Lemma reachable_ok s0 s : idle s0 -> rtc nstep s0 s -> all_ok s.
Proof.
  intros Hi Hr. assert (Ha : all_ok s0) by (unfold all_ok; rewrite Hi; constructor).
  clear Hi. induction Hr as [|s0 s1 s2 Hst _ IH]; [done|]. by eapply IH, step_rpcs.
Qed.

(** C19.  At most once: from a network without calls, whatever is lost, delayed, disabled or
    deleted, the handler of a call runs at most once, and a call that returns true
    returns the answer of that one run. *)
Theorem rpc_at_most_once s0 s (i : nat) r :
  idle s0 -> rtc nstep s0 s -> s_rpcs s !! i = Some r ->
  (length (r_ran r) <= 1)%nat
  /\ forall reply, r_pc r = Returned (Some reply) -> r_ran r = [mkReplyMsg true reply].
Proof.
  intros Hi Hr Hl. pose proof (reachable_ok _ _ Hi Hr) as Ha. eapply Forall_lookup_1 in Ha as [R1 R2 R3]; [|exact Hl].
  split.
  - unfold hand_ok in R1. destruct (r_hand r); rewrite ?R1; simpl; lia.
  - intros reply Hpc. unfold pc_ok in R2. rewrite Hpc in R2. destruct R2 as [|([ok b] & [= ->] & _ & Hran)]; [done|].
    rewrite Hran, Forall_singleton in R3. simpl in R3. by rewrite Hran, R3.
Qed.

(** ** Deleted servers *)

(** The server that a call was addressed to is not registered under its name. *)
Definition gone (info : Info N) s : Prop := server_of (in_name info) (s_net s) <> Some (in_server info).

Definition in_processing r : Prop :=
  match r_pc r with Delayed | Waiting | Checking _ => True | _ => False end.

Definition unanswered r : Prop :=
  match r_pc r with
  | Delayed | Waiting | Checking _ => True
  | Answering rep => rep = failed
  | Returned o => o = None
  | _ => False
  end.

Lemma gone_dead info s endname : gone info s -> isServerDead endname (in_name info) (in_server info) (s_net s) = true.
Proof. intros Hg. unfold isServerDead. rewrite bool_decide_eq_false_2 by done. apply orb_true_r. Qed.

(** A step either leaves an RPC alone or replaces it. *)
Lemma put_lookup (rs : list (Rpc (N:=N))) (i j : nat) r r' x :
  rs !! i = Some r -> rs !! j = Some x -> exists y, <[j := r']> rs !! i = Some y /\ (y = r \/ (j = i /\ x = r /\ y = r')).
Proof.
  intros Hi Hj. destruct (decide (j = i)) as [->|Hne].
  - exists r'. rewrite list_lookup_insert_eq by (by eapply lookup_lt_Some). split; [done|right]. split_and!; [done|congruence|done].
  - exists r. rewrite list_lookup_insert_ne by done. split; [done|by left].
Qed.

Lemma unanswered_step info s s' i r :
  gone info s -> nstep s s' -> s_rpcs s !! i = Some r -> r_info r = Some info -> unanswered r ->
  exists r', s_rpcs s' !! i = Some r' /\ r_info r' = Some info /\ unanswered r'.
Proof.
  intros Hg Hst Hi Hinf Hu.
  assert (Hput : forall j x y, s_rpcs s !! j = Some x -> (x = r -> r_info y = Some info /\ unanswered y) ->
    exists r', <[j := y]> (s_rpcs s) !! i = Some r' /\ r_info r' = Some info /\ unanswered r').
  { intros j x y Hj Hy. destruct (put_lookup _ _ _ _ y _ Hi Hj) as (z & Hz & [->|(-> & -> & ->)]); eauto. }
  destruct Hst as [req|j x Hj Hpc|j x Hj Hpc|j x Hj Hpc|j x inf Hj Hpc|j x Hj Hpc|j x inf srv srv' w' rep Hj Hh Hxi _ Hd
    |j x rep Hj Hpc Hh|j x inf Hj Hpc|j x inf o drop Hj Hpc Hxi Hdr|j x rep Hj Hpc|a rn' _|rs|w' _]; simpl; try (by eauto);
    try (apply (Hput _ _ _ Hj); intros ->; unfold unanswered in *; rewrite ?Hpc in Hu; try done; split; try done).
  - exists r. split; [by apply lookup_app_l_Some|done].
  - simpl. rewrite Hinf in Hxi. injection Hxi as <-. unfold processReq_answer. destruct o; [|done].
    by rewrite gone_dead.
  - simpl. by rewrite Hu.
Qed.

(** No answer from a deleted server: when the server that a call in processing was
    addressed to has been deleted (and perhaps replaced by another one), and as long as it
    is not registered again, the call does not return true, even if its handler has run
    or still runs. *)
Theorem deleted_server_no_answer info s s' (i : nat) r :
  s_rpcs s !! i = Some r -> r_info r = Some info -> in_processing r -> gone info s ->
  rtc (fun a b => nstep a b /\ gone info b) s s' ->
  exists r', s_rpcs s' !! i = Some r' /\ forall reply, r_pc r' <> Returned (Some reply).
Proof.
  intros Hi Hinf Hp Hg Hr.
  assert (Hu : unanswered r) by (unfold unanswered, in_processing in *; destruct (r_pc r); done).
  clear Hp. revert r Hi Hinf Hu. induction Hr as [|s s1 s2 [Hst Hg1] _ IH]; intros r Hi Hinf Hu.
  - exists r. split; [done|]. intros reply Hpc. unfold unanswered in Hu. by rewrite Hpc in Hu.
  - destruct (unanswered_step info s s1 i r Hg Hst Hi Hinf Hu) as (r' & ? & ? & ?). by eapply IH.
Qed.

(** ** The stages of a call *)

(** What the cluster relation keeps of a call: a request in transit, a response in transit
    ([None]: the call fails), or a caller that has resumed; and whether a request that
    nobody waits for any more is still in transit. *)
Inductive Stage := LRequest | LResponse (o : option bytes) | LResumed (o : option bytes).
Record Life := mkLife { stage : Stage; orphan : bool }.

Inductive life : Life -> Life -> Prop :=
| lf_deliver b : life (mkLife LRequest false) (mkLife (LResponse (Some b)) false)
| lf_lose_request : life (mkLife LRequest false) (mkLife (LResponse None) false)
| lf_detach : life (mkLife LRequest false) (mkLife (LResponse None) true)
| lf_lose_response o b : life (mkLife (LResponse o) b) (mkLife (LResponse None) b)
| lf_resume o b : life (mkLife (LResponse o) b) (mkLife (LResumed o) b)
| lf_orphan st : life (mkLife st true) (mkLife st false).

Definition running (h : Handler) : bool := match h with HRunning => true | _ => false end.

Definition life_of r : Life :=
  match r_pc r with
  | Sending | Accepted | Delayed => mkLife LRequest false
  | Waiting => match r_hand r with HDone rep => mkLife (LResponse (Some (rp_reply rep))) false | _ => mkLife LRequest false end
  | Checking o => mkLife (LResponse (rp_reply <$> o)) (running (r_hand r))
  | Answering rep => mkLife (LResponse (Call_return rep)) (running (r_hand r))
  | Returned o => mkLife (LResumed o) (running (r_hand r))
  end.

Lemma lost o b : rtc life (mkLife (LResponse o) b) (mkLife (LResponse None) b).
Proof. apply rtc_once, lf_lose_response. Qed.

Lemma life_begin rn r : rpc_ok r -> r_pc r = Accepted -> rtc life (life_of r) (life_of (processReq_begin rn r)).
Proof.
  intros [_ Hp _] Hpc. unfold pc_ok in Hp. rewrite Hpc in Hp. destruct Hp as [Hh _]. unfold life_of at 1. rewrite Hpc.
  unfold processReq_begin. destruct (readEndnameInfo _ rn) as [[[[[] [sn|]] [sv|]] rel] lr]; unfold life_of; simpl;
    rewrite ?Hh; try done; apply rtc_once, lf_lose_request.
Qed.

Lemma life_check rn r info o drop :
  rpc_ok r -> r_pc r = Checking o ->
  rtc life (life_of r) (life_of (set_pc (Answering (processReq_answer rn (r_req r) info o drop)) r)).
Proof.
  intros [_ Hp Ht] Hpc. unfold pc_ok in Hp. rewrite Hpc in Hp. unfold life_of. simpl. rewrite Hpc.
  destruct (answer_cases rn (r_req r) info o drop) as [->|(rep & -> & ->)]; [apply lost|].
  destruct Hp as [_ Hran]. rewrite Hran, Forall_singleton in Ht. unfold Call_return. by rewrite Ht.
Qed.

Lemma life_dispatch r rep :
  rpc_ok r -> r_hand r = HRunning -> rtc life (life_of r) (life_of (mkRpc (r_req r) (r_pc r) (r_info r) (HDone rep) (rep :: r_ran r))).
Proof.
  intros [_ Hp _] Hh. unfold pc_ok in Hp. unfold life_of. simpl. rewrite Hh in *. simpl.
  destruct (r_pc r) as [| | | |o|x|o]; try done; try (by destruct Hp); apply rtc_once; constructor.
Qed.

(** C18.  Refinement: every step of the network takes every call through zero or more of the
    stages that the cluster relation knows (delivered, request lost, failed with the
    request still in transit, response lost, resumed, late request handled or lost), and
    through nothing else. *)
Theorem labrpc_refines_calls s0 s s' (i : nat) r :
  idle s0 -> rtc nstep s0 s -> nstep s s' -> s_rpcs s !! i = Some r ->
  exists r', s_rpcs s' !! i = Some r' /\ rtc life (life_of r) (life_of r').
Proof.
  intros Hid Hrun Hst Hi. pose proof (reachable_ok _ _ Hid Hrun) as Ha.
  assert (Hok : rpc_ok r) by (by eapply Forall_lookup_1 in Ha).
  assert (Hput : forall j x y, s_rpcs s !! j = Some x -> (x = r -> rtc life (life_of r) (life_of y)) ->
    exists r', <[j := y]> (s_rpcs s) !! i = Some r' /\ rtc life (life_of r) (life_of r')).
  { intros j x y Hj Hy. destruct (put_lookup _ _ _ _ y _ Hi Hj) as (z & Hz & [->|(-> & -> & ->)]); eauto using rtc_refl. }
  pose proof (ro_pc _ Hok) as Hp. unfold pc_ok in Hp.
  destruct Hst as [req|j x Hj Hpc|j x Hj Hpc|j x Hj Hpc|j x inf Hj Hpc|j x Hj Hpc|j x inf srv srv' w' rep Hj Hh Hxi _ Hd
    |j x rep Hj Hpc Hh|j x inf Hj Hpc|j x inf o drop Hj Hpc Hxi Hdr|j x rep Hj Hpc|a rn' _|rs|w' _]; simpl; try (by eauto using rtc_refl);
    try (apply (Hput _ _ _ Hj); intros ->; rewrite ?Hpc in Hp).
  - exists r. split; [by apply lookup_app_l_Some|done].
  - unfold life_of. by rewrite Hpc.
  - destruct Hp as [Hh _]. unfold life_of. simpl. rewrite Hpc, Hh.
    eapply rtc_l; [apply lf_lose_request|]. apply rtc_once, lf_resume.
  - by apply life_begin.
  - destruct Hp as [Hh _]. unfold life_of. simpl. rewrite Hpc, Hh. apply rtc_once, lf_lose_request.
  - unfold life_of. simpl. by rewrite Hpc.
  - by apply life_dispatch.
  - unfold life_of. simpl. by rewrite Hpc, Hh.
  - unfold life_of. simpl. rewrite Hpc. destruct (r_hand r); [done|apply rtc_once, lf_detach|apply lost].
  - by apply life_check.
  - unfold life_of. simpl. rewrite Hpc. apply rtc_once, lf_resume.
Qed.

(** ** Completion *)

(** C20.  A call can complete: on a network that is up, a call through an enabled end point to a
    registered server that has the service and the method it names, with a method that
    returns on the present state, can be carried through to its caller, which gets the
    method's answer; the method's effect is on the state, and the server has counted it. *)
Theorem rpc_completes s (i : nat) r (sn : N) (sv : nat) srv (sname mname : string) svc mth w' reply :
  nw_done (s_net s) = false -> s_rpcs s !! i = Some r -> r_pc r = Sending -> r_hand r = HNone ->
  is_enabled (rq_endname (r_req r)) (s_net s) = true ->
  connections (s_net s) !! rq_endname (r_req r) = Some (Some sn) -> servers (s_net s) !! sn = Some (Some sv) ->
  s_heap s !! sv = Some srv -> rq_svcMeth (r_req r) = sname +:+ String "." mname -> undotted mname ->
  srv_services srv !! sname = Some svc -> sv_methods svc !! mname = Some mth ->
  mt_call mth (rq_args (r_req r)) (s_world s) = (w', Ret reply) ->
  exists s', rtc nstep s s' /\ r_pc <$> s_rpcs s' !! i = Some (Returned (Some reply)) /\ s_world s' = w'
    /\ srv_count <$> s_heap s' !! sv = Some (srv_count srv + 1).
Proof.
  intros _ Hi Hpc Hh Hen Hco Hse Hsv Hq Hm Hsvc Hmt Hc.
  pose proof (dispatch_method srv (s_world s) w' (r_req r) sname mname svc mth reply Hq Hm Hsvc Hmt Hc) as Hd.
  pose proof (lookup_lt_Some _ _ _ Hi) as Hlt. pose proof (lookup_lt_Some _ _ _ Hsv) as Hlv.
  set (info := mkInfo sn sv (reliable (s_net s)) (longReordering (s_net s))).
  assert (Hread : forall rn, is_enabled (rq_endname (r_req r)) rn = true -> connections rn !! rq_endname (r_req r) = Some (Some sn) ->
    servers rn !! sn = Some (Some sv) -> reliable rn = reliable (s_net s) -> longReordering rn = longReordering (s_net s) ->
    forall x, r_req x = r_req r -> processReq_begin rn x = mkRpc (r_req x) Delayed (Some info) (r_hand x) (r_ran x)).
  { intros rn E1 E2 E3 E4 E5 x Ex. unfold processReq_begin, readEndnameInfo, server_of. rewrite Ex, E1, E2. simpl. by rewrite E3, E4, E5. }
  set (rn1 := count_request (r_req r) (s_net s)).
  assert (Hal : isServerDead (rq_endname (r_req r)) sn sv rn1 = false).
  { unfold isServerDead, server_of. change (is_enabled _ rn1) with (is_enabled (rq_endname (r_req r)) (s_net s)).
    change (servers rn1) with (servers (s_net s)). rewrite Hen, Hse. simpl. by rewrite bool_decide_eq_true_2. }
  set (rep := mkReplyMsg true reply) in *. set (srv' := mkServer (srv_services srv) (srv_count srv + 1)) in *.
  set (st (pc : Pc) (inf : option (Info N)) (hand : Handler) (ran : list replyMsg) (hp : list (Server W)) (w : W) := mkSys rn1 hp w (<[i := mkRpc (r_req r) pc inf hand ran]> (s_rpcs s))).
  assert (Hst : forall pc inf hand ran hp w, s_rpcs (st pc inf hand ran hp w) !! i = Some (mkRpc (r_req r) pc inf hand ran))
    by (intros; simpl; by rewrite list_lookup_insert_eq).
  exists (mkSys (count_reply rep rn1) (<[sv := srv']> (s_heap s)) w'
    (<[i := mkRpc (r_req r) (Returned (Some reply)) (Some info) HNone (rep :: r_ran r)]> (s_rpcs s))).
  split_and!; [|simpl; by rewrite list_lookup_insert_eq|done|simpl; by rewrite list_lookup_insert_eq].
  assert (Heq : forall a b c : Sys, nstep a b -> b = c -> nstep a c) by (by intros ? ? ? ? <-).
  assert (Hin : forall (x y : Rpc (N:=N)), <[i := x]> (<[i := y]> (s_rpcs s)) = <[i := x]> (s_rpcs s)) by (intros; apply list_insert_insert_eq).
  apply (rtc_l _ _ (st Accepted (r_info r) HNone (r_ran r) (s_heap s) (s_world s))).
  { eapply Heq; [by apply (n_send _ s i r)|]. unfold put, set_net, set_pc, st. simpl. by rewrite Hh. }
  apply (rtc_l _ _ (st Delayed (Some info) HNone (r_ran r) (s_heap s) (s_world s))).
  { eapply Heq; [eapply (n_begin _ _ i); [apply Hst|done]|]. unfold put. simpl. rewrite Hread by done. simpl. by rewrite Hin. }
  apply (rtc_l _ _ (st Waiting (Some info) HRunning (r_ran r) (s_heap s) (s_world s))).
  { eapply Heq; [eapply (n_execute _ _ i); [apply Hst|done]|]. unfold put. simpl. by rewrite Hin. }
  apply (rtc_l _ _ (st Waiting (Some info) (HDone rep) (rep :: r_ran r) (<[sv := srv']> (s_heap s)) w')).
  { eapply Heq; [eapply (n_dispatch _ _ i); [apply Hst|done|done|exact Hsv|exact Hd]|]. simpl. by rewrite Hin. }
  apply (rtc_l _ _ (st (Checking (Some rep)) (Some info) HNone (rep :: r_ran r) (<[sv := srv']> (s_heap s)) w')).
  { eapply Heq; [eapply (n_receive _ _ i); [apply Hst|done..]|]. unfold put. simpl. by rewrite Hin. }
  apply (rtc_l _ _ (st (Answering rep) (Some info) HNone (rep :: r_ran r) (<[sv := srv']> (s_heap s)) w')).
  { eapply Heq; [eapply (n_check _ _ i _ info (Some rep) false); [apply Hst|done..]|]. unfold put, processReq_answer. simpl. rewrite Hal. by rewrite Hin. }
  apply rtc_once. eapply Heq; [eapply (n_return _ _ i); [apply Hst|done]|]. unfold put, set_net. simpl. by rewrite Hin.
Qed.

End Props.

(** ** A network with one server *)

Module Echo.

(** A service that counts its calls and returns its argument. *)
Definition echo : Method Z := mkMethod "Echo" "" 3 true 0 (fun b w => (w + 1, Ret b)).
Definition hidden : Method Z := mkMethod "hidden" "main" 3 true 0 (fun b w => (w, Panic)).
Definition srv : Server Z := AddService (MakeService "Test" [echo; hidden]) MakeServer.

Definition setup : M (Network nat) unit :=
  MakeEnd 7%nat;; AddServer 1%nat 0%nat;; Connect 7%nat 1%nat;; Enable 7%nat true.

Definition req : reqMsg nat := mkReqMsg 7%nat "Test.Echo" [4; 5].
Definition idle0 : Sys (N:=nat) (W:=Z) := mkSys (fst (setup MakeNetwork)) [srv] 0 [].
Definition sys0 : Sys (N:=nat) (W:=Z) := mkSys (s_net idle0) [srv] 0 [mkRpc req Sending None HNone []].

Definition none : relation Z := fun _ _ => False.

Lemma rpc_completes_witness :
  exists s', rtc (nstep none) sys0 s' /\ r_pc <$> s_rpcs s' !! 0%nat = Some (Returned (Some [4; 5])) /\ s_world s' = 1
    /\ srv_count <$> s_heap s' !! 0%nat = Some 1.
Proof.
  exact (rpc_completes none sys0 0%nat (mkRpc req Sending None HNone []) 1%nat 0%nat srv "Test" "Echo"
    (MakeService "Test" [echo; hidden]) echo 1 [4; 5] eq_refl eq_refl eq_refl eq_refl eq_refl eq_refl eq_refl eq_refl eq_refl eq_refl eq_refl
    eq_refl eq_refl).
Defined.

Lemma called : rtc (nstep none) idle0 sys0.
Proof. apply rtc_once. exact (n_call none idle0 req). Qed.

(** The call after it was accepted and looked up. *)
Definition info : Info nat := mkInfo 1%nat 0%nat true false.
Definition looked_up : Rpc (N:=nat) := mkRpc req Delayed (Some info) HNone [].
Definition sys1 : Sys (N:=nat) (W:=Z) := put 0%nat (set_pc Accepted (mkRpc req Sending None HNone [])) (set_net (count_request req (s_net sys0)) sys0).
Definition sys2 : Sys (N:=nat) (W:=Z) := put 0%nat looked_up sys1.

Lemma processing : rtc (nstep none) idle0 sys2.
Proof.
  etrans; [exact called|]. eapply rtc_l; [exact (n_send none sys0 0%nat _ eq_refl eq_refl)|].
  apply rtc_once. exact (n_begin none sys1 0%nat _ eq_refl eq_refl).
Qed.

Lemma rpc_at_most_once_witness :
  (length (r_ran looked_up) <= 1)%nat /\ forall reply, r_pc looked_up = Returned (Some reply) -> r_ran looked_up = [mkReplyMsg true reply].
Proof. exact (rpc_at_most_once none idle0 sys2 0%nat looked_up eq_refl processing eq_refl). Defined.

Lemma labrpc_refines_calls_witness :
  exists r', s_rpcs (put 0%nat (set_pc Waiting (set_hand HRunning looked_up)) sys2) !! 0%nat = Some r'
    /\ rtc life (life_of looked_up) (life_of r').
Proof.
  exact (labrpc_refines_calls none idle0 sys2 _ 0%nat looked_up eq_refl processing (n_execute none sys2 0%nat looked_up eq_refl eq_refl) eq_refl).
Defined.

(** The server is deleted while the call is in processing, and the handler runs nevertheless. *)
Definition sys3 : Sys (N:=nat) (W:=Z) := set_net (fst (DeleteServer 1%nat (s_net sys2))) sys2.
Definition sys4 : Sys (N:=nat) (W:=Z) := put 0%nat (set_pc Waiting (set_hand HRunning looked_up)) sys3.

Lemma deleted_server_no_answer_witness :
  exists r', s_rpcs sys4 !! 0%nat = Some r' /\ forall reply, r_pc r' <> Returned (Some reply).
Proof.
  apply (deleted_server_no_answer none info sys3 sys4 0%nat looked_up); [reflexivity|reflexivity|exact I|vm_compute; discriminate|].
  apply rtc_once. split; [exact (n_execute none sys3 0%nat looked_up eq_refl eq_refl)|vm_compute; discriminate].
Defined.

End Echo.
