(* ===== verification/RaftApply.v ===== *)
(** Delivery to the service: the applyTicket goroutine and the goroutines that
    RequestInstallSnapShot starts, with the two mutexes and the two condition
    variables they share.

    [rf.mu] is taken and released inside one step.  [applySeqMu] is explicit:
    it is held across steps.  [out] is what has been sent on applyCh. *)
From Stdlib Require Import ZArith Lia.
From stdpp Require Import base list numbers relations.
From S2P Require Import Prelude RaftTypes RaftNode RaftVote RaftWf RaftSafe RaftLeader.

Section Apply.
Context {D : Type} `{LabGob D}.
Implicit Types rf : Raft D.

(** ** State *)

(** Where the applyTicket goroutine is. *)
Inductive Applier :=
| ATop (* line 789 *)
| AParked (* in applyCond.Wait, line 792 *)
| ACollected (batch : list (LogEntry D)) (* line 815, about to lock applySeqMu *)
| AHolding (batch : list (LogEntry D)) (* line 817, applySeqMu held *)
| ASeqParked (batch : list (LogEntry D)) (* in applySeqCond.Wait, line 818 *)
| ASending (batch sent rest : list (LogEntry D)) (* line 825, applySeqMu held *)
| AExited.

(** Where a goroutine of RequestInstallSnapShot is. *)
Inductive SnapPc := SStart | SLocked | SSent.

Record SnapGo := mkSnapGo { sg_index : Z; sg_term : Z; sg_pc : SnapPc }.

Inductive Holder := ByApplier | BySnap.

Record Sys := mkSys
  { s_rf : Raft D;
    s_seq : option Holder; (* applySeqMu *)
    s_applier : Applier;
    s_snaps : list SnapGo;
    s_out : list (ApplyMsg D) }.

(** applyCond.Signal: the only waiter is the applier. *)
Definition woken (rf rf' : Raft D) (a : Applier) : Applier :=
  match a with
  | AParked => if decide (applySignals rf' = applySignals rf) then AParked else ATop
  | _ => a
  end.

(** applySeqCond.Signal *)
Definition seq_woken (a : Applier) : Applier :=
  match a with ASeqParked b => ACollected b | _ => a end.

(** ** Steps *)

(** Operations that are not part of the delivery itself. *)
Definition outside (op : NodeOp (D:=D)) : bool :=
  match op with
  | OpInstallSnapshotDone _ | OpApplyCollect | OpApplyFinish _ | OpRequestInstallSnapShot _ => false
  | _ => true
  end.

Inductive sstep (s : Sys) : Sys -> Prop :=
| ss_handler env op rf' :
    outside op = true -> op_pre (s_rf s) op -> exec env op (s_rf s) = (rf', Ret tt) ->
    sstep s (mkSys rf' (s_seq s) (woken (s_rf s) rf' (s_applier s)) (s_snaps s) (s_out s))
| ss_install env a rf' r spawned :
    op_pre (s_rf s) (OpRequestInstallSnapShot a) ->
    RequestInstallSnapShot env a (s_rf s) = (rf', Ret (r, spawned)) ->
    sstep s (mkSys rf' (s_seq s) (woken (s_rf s) rf' (s_applier s))
               (match spawned with
                | Some (i, t) => mkSnapGo i t SStart :: s_snaps s
                | None => s_snaps s
                end) (s_out s))
| ss_exit :
    s_applier s = ATop -> killed (s_rf s) = (s_rf s, Ret true) ->
    sstep s (mkSys (s_rf s) (s_seq s) AExited (s_snaps s) (s_out s))
| ss_park :
    s_applier s = ATop -> applyTicket_waits (s_rf s) = (s_rf s, Ret true) ->
    sstep s (mkSys (s_rf s) (s_seq s) AParked (s_snaps s) (s_out s))
| ss_collect batch :
    s_applier s = ATop -> applyTicket_waits (s_rf s) = (s_rf s, Ret false) ->
    applyTicket_collect (s_rf s) = (s_rf s, Ret batch) ->
    sstep s (mkSys (s_rf s) (s_seq s) (if decide (batch = []) then ATop else ACollected batch)
               (s_snaps s) (s_out s))
| ss_lock batch :
    s_applier s = ACollected batch -> s_seq s = None ->
    sstep s (mkSys (s_rf s) (Some ByApplier) (AHolding batch) (s_snaps s) (s_out s))
| ss_gate batch g :
    s_applier s = AHolding batch -> applyTicket_gate batch (s_rf s) = (s_rf s, Ret g) ->
    sstep s (match g with
             | GateWait => mkSys (s_rf s) None (ASeqParked batch) (s_snaps s) (s_out s)
             | GateSkip => mkSys (s_rf s) (s_seq s) ATop (s_snaps s) (s_out s)
             | GateSend => mkSys (s_rf s) (s_seq s) (ASending batch [] batch) (s_snaps s) (s_out s)
             end)
| ss_send batch sent e rest :
    s_applier s = ASending batch sent (e :: rest) ->
    sstep s (mkSys (s_rf s) (s_seq s) (ASending batch (sent ++ [e]) rest) (s_snaps s)
               (s_out s ++ [commandMsg e]))
| ss_finish batch sent rf' :
    s_applier s = ASending batch sent [] -> applyTicket_finish batch (s_rf s) = (rf', Ret tt) ->
    sstep s (mkSys rf' None ATop (s_snaps s) (s_out s))
| ss_snap_lock l1 i t l2 :
    s_snaps s = l1 ++ mkSnapGo i t SStart :: l2 -> s_seq s = None ->
    sstep s (mkSys (s_rf s) (Some BySnap) (s_applier s) (l1 ++ mkSnapGo i t SLocked :: l2) (s_out s))
| ss_snap_send l1 i t l2 :
    s_snaps s = l1 ++ mkSnapGo i t SLocked :: l2 ->
    sstep s (mkSys (s_rf s) (s_seq s) (s_applier s) (l1 ++ mkSnapGo i t SSent :: l2)
               (s_out s ++ [snapshotMsg (snapshot (s_rf s)) i t]))
| ss_snap_done l1 i t l2 rf' :
    s_snaps s = l1 ++ mkSnapGo i t SSent :: l2 -> installSnapshotDone i (s_rf s) = (rf', Ret tt) ->
    sstep s (mkSys rf' None (seq_woken (woken (s_rf s) rf' (s_applier s))) (l1 ++ l2) (s_out s)).

(** A peer that has delivered everything up to lastApplied. *)
Definition start_of rf : Sys := mkSys rf None ATop [] [].

(** ** In-order delivery *)

(** The index up to which the service is informed after a message. *)
Definition delivered (pos : Z) (m : ApplyMsg D) : Z :=
  if am_CommandValid m then am_CommandIndex m else Z.max pos (am_SnapshotIndex m).

(** Commands come one by one, each right after what was delivered before. *)
Fixpoint in_order (pos : Z) (out : list (ApplyMsg D)) : Prop :=
  match out with
  | [] => True
  | m :: out' =>
      (am_CommandValid m = true -> am_CommandIndex m = pos + 1)
      /\ in_order (delivered pos m) out'
  end.

Definition position (pos : Z) (out : list (ApplyMsg D)) : Z := foldl delivered pos out.

Lemma in_order_snoc pos out m :
  in_order pos (out ++ [m]) <->
  in_order pos out /\ (am_CommandValid m = true -> am_CommandIndex m = position pos out + 1).
Proof. revert pos. induction out as [|x out IH]; intros pos; simpl; [tauto|]. rewrite IH. tauto. Qed.

Lemma position_snoc pos out m : position pos (out ++ [m]) = delivered (position pos out) m.
Proof. unfold position. by rewrite foldl_app. Qed.

(** ** What the steps leave alone *)

Definition same_applied rf rf' : Prop := lastApplied rf' = lastApplied rf.

#[export] Instance same_applied_preorder : PreOrder same_applied.
Proof. split; unfold same_applied; [done|]. intros x y z ? ?; congruence. Qed.

#[local] Hint Extern 1 (keeps same_applied (modify _)) =>
  apply keeps_modify; intros ?; reflexivity : keeps.

Lemma advance_applied : keeps same_applied (advanceCommit (D:=D)).
Proof.
  unfold advanceCommit, applySignal. keeps_auto.
  match goal with |- keeps _ (advanceCommit_loop ?f ?i) => generalize i; induction f end;
    intros i; simpl; unfold applySignal; keeps_auto.
Qed.
#[local] Hint Resolve advance_applied : keeps.

(** Only the delivery moves lastApplied. *)
Lemma outside_applied env op :
  outside op = true -> keeps same_applied (exec (D:=D) env op).
Proof.
  destruct op; try done; intros _; simpl; unfold ignore, Snapshot, RequestVote,
    RequestVote_body, RequestHeartBeat, RequestSendLog, RequestSendLog_body, adjust_args,
    append_entries, follower_commit, applySignal,
    Start, Kill, sendSnapShot_begin, sendSnapShot_reply, sendLogTicketCore_begin, prepareSendLog,
    sendLog_reply, onSendLogSuccess, backoff, ticker_begin, onVoteReply, ticker_decide,
    resetRaftIndex, AddCurrentTerm, SetElectionTime, persist; keeps_auto.
Qed.

Lemma install_applied env a : keeps same_applied (RequestInstallSnapShot (D:=D) env a).
Proof.
  unfold RequestInstallSnapShot, RequestInstallSnapShot_body, snapshot_covered,
    snapshot_conflicts, AddCurrentTerm, SetElectionTime, persist; keeps_auto.
Qed.

(** ** What is collected *)

Lemma m_map_ret {S A B : Type} (f : A -> M S B) (l : list A) (s s' : S) (ys : list B) :
  (forall x s1 s2 r, f x s1 = (s2, r) -> s2 = s1) ->
  m_map f l s = (s', Ret ys) ->
  s' = s /\ Forall2 (fun x y => f x s = (s, Ret y)) l ys.
Proof.
  intros Hk. revert ys. induction l as [|x l IH]; intros ys; simpl; [intros [= <- <-]; by split|].
  unfold mbind, M_bind, m_bind. destruct (f x s) as [s1 [y|]] eqn:Hx; [|done].
  assert (s1 = s) as -> by (by eapply Hk).
  destruct (m_map f l s) as [s2 [ys'|]] eqn:Hm; [|done]. intros [= <- <-].
  destruct (IH _ eq_refl) as [-> HF]. split; [done|]. by constructor.
Qed.

Lemma logAt_same i rf rf' r : logAt i rf = (rf', r) -> rf' = rf.
Proof.
  unfold logAt, GetFirstLog. m_exec.
  repeat (case_match; simplify_eq/=); by intros [= -> _].
Qed.

Lemma logAt_index i rf rf' e : log_ok (log rf) -> logAt i rf = (rf', Ret e) -> le_Index e = i.
Proof.
  intros Hl. unfold logAt, GetFirstLog. m_exec.
  destruct (go_idx (log rf) 0) as [e0|] eqn:H0; [|done].
  destruct (go_idx (log rf) (i - le_Index e0)) as [e1|] eqn:H1; [|done]. intros [= <- <-].
  apply go_idx_lookup in H0 as [_ H0]. apply go_idx_lookup in H1 as [? H1].
  rewrite (lo_contig _ Hl _ _ H1). rewrite (lo_contig _ Hl _ _ H0) in *. simpl in *. lia.
Qed.

Lemma collect_contig rf rf' batch :
  log_ok (log rf) -> applyTicket_collect rf = (rf', Ret batch) ->
  contig (lastApplied rf + 1) batch.
Proof.
  intros Hl. unfold applyTicket_collect. m_exec. intros Hm.
  apply m_map_ret in Hm as [_ HF]; [|intros; by eapply logAt_same].
  intros k e He. destruct (Forall2_lookup_r _ _ _ _ _ HF He) as (j & Hj & Hat).
  apply logAt_index in Hat; [|done]. unfold range in Hj. rewrite list_lookup_fmap in Hj.
  destruct (seq 0 _ !! k) as [k'|] eqn:Hs; simplify_eq/=. apply lookup_seq in Hs as [-> _]. lia.
Qed.

(** ** The invariant *)

Definition quiet (gs : list SnapGo) : Prop := Forall (fun g => sg_pc g = SStart) gs.

Definition batch_ok (batch : list (LogEntry D)) : Prop := batch <> [] /\ exists b, contig b batch.

(** How far the service is, given who is in the middle of delivering. *)
Definition snap_phase rf (seq : option Holder) (snaps : list SnapGo) (pos : Z) : Prop :=
  (seq <> Some BySnap /\ quiet snaps /\ pos = lastApplied rf)
  \/ (seq = Some BySnap /\ exists l1 g l2, snaps = l1 ++ g :: l2 /\ quiet l1 /\ quiet l2
      /\ ((sg_pc g = SLocked /\ pos = lastApplied rf)
          \/ (sg_pc g = SSent /\ pos = Z.max (lastApplied rf) (sg_index g)))).

Definition phase (s : Sys) (pos : Z) : Prop :=
  match s_applier s with
  | ASending batch sent rest =>
      s_seq s = Some ByApplier /\ quiet (s_snaps s) /\ batch = sent ++ rest /\ batch <> []
      /\ contig (lastApplied (s_rf s) + 1) batch
      /\ pos = lastApplied (s_rf s) + Z.of_nat (length sent)
  | AHolding batch =>
      s_seq s = Some ByApplier /\ quiet (s_snaps s) /\ pos = lastApplied (s_rf s) /\ batch_ok batch
  | ACollected batch | ASeqParked batch =>
      batch_ok batch /\ snap_phase (s_rf s) (s_seq s) (s_snaps s) pos
  | _ => snap_phase (s_rf s) (s_seq s) (s_snaps s) pos
  end.

Record delivery_ok (pos0 : Z) (s : Sys) : Prop :=
  { do_wf : wf (s_rf s);
    do_order : in_order pos0 (s_out s);
    do_phase : phase s (position pos0 (s_out s)) }.

(** ** Stuck forever *)

(** The applier left its critical section of applySeqMu without unlocking. *)
Definition orphaned (s : Sys) : Prop :=
  s_seq s = Some ByApplier /\ quiet (s_snaps s)
  /\ match s_applier s with ATop | AParked | AExited | ACollected _ => True | _ => False end.

Lemma quiet_split l1 g l2 : quiet (l1 ++ g :: l2) -> sg_pc g = SStart.
Proof. intros Hq. by apply Forall_app in Hq as [_ [? _]%Forall_cons]. Qed.

Lemma orphaned_step s s' : orphaned s -> sstep s s' -> orphaned s' /\ s_out s' = s_out s.
Proof.
  intros (Hs & Hq & Ha) Hst.
  destruct Hst as [env op rf'|env a rf' r sp| | |batch|batch Hap Hn|batch g Hap|batch sent e rest Hap
    |batch sent rf' Hap|l1 i t l2 _ Hn|l1 i t l2 Hsn|l1 i t l2 rf' Hsn]; unfold orphaned; simpl;
    try (split; [|done]); try (rewrite Hap in Ha); try congruence; try done.
  - split_and!; try done. unfold woken. destruct (s_applier s); try done. by case_decide.
  - split_and!; try done; [by destruct sp as [[i t]|]; [constructor|]|].
    unfold woken. destruct (s_applier s); try done. by case_decide.
  - split_and!; try done. by case_decide.
  - rewrite Hsn in Hq. by apply quiet_split in Hq.
  - rewrite Hsn in Hq. by apply quiet_split in Hq.
Qed.

Lemma orphaned_forever s s' : orphaned s -> rtc sstep s s' -> orphaned s' /\ s_out s' = s_out s.
Proof.
  intros Ho Hr. revert Ho. induction Hr as [s|s s1 s2 Hst _ IH]; intros Ho; [done|].
  destruct (orphaned_step _ _ Ho Hst) as [Ho1 He]. destruct (IH Ho1) as [? ->]. done.
Qed.

(** ** Delivery is in order *)

(** A step of the rest of the peer. *)
Definition more_snaps (snaps snaps' : list SnapGo) : Prop :=
  snaps' = snaps \/ exists i t, snaps' = mkSnapGo i t SStart :: snaps.

Lemma quiet_more snaps snaps' : more_snaps snaps snaps' -> quiet snaps -> quiet snaps'.
Proof. intros [->|(i & t & ->)]; [done|]. by constructor. Qed.

Lemma snap_phase_frame rf rf' seq snaps snaps' pos :
  lastApplied rf' = lastApplied rf -> more_snaps snaps snaps' ->
  snap_phase rf seq snaps pos -> snap_phase rf' seq snaps' pos.
Proof.
  intros Ha Hsn [(? & Hq & ?)|(? & l1 & g & l2 & -> & H1 & H2 & Hp)].
  - left. rewrite Ha. split_and!; try done. by eapply quiet_more.
  - right. rewrite Ha. split; [done|]. destruct Hsn as [->|(i & t & ->)]; [by exists l1, g, l2|].
    exists (mkSnapGo i t SStart :: l1), g, l2. split_and!; try done. by constructor.
Qed.

Lemma phase_frame s rf' snaps pos :
  lastApplied rf' = lastApplied (s_rf s) -> more_snaps (s_snaps s) snaps -> phase s pos ->
  phase (mkSys rf' (s_seq s) (woken (s_rf s) rf' (s_applier s)) snaps (s_out s)) pos.
Proof.
  intros Ha Hsn. pose proof (quiet_more _ _ Hsn) as Hq.
  pose proof (snap_phase_frame (s_rf s) rf' (s_seq s) _ _ pos Ha Hsn) as Hp.
  unfold phase. simpl. destruct (s_applier s); simpl; try case_decide; rewrite ?Ha; tauto.
Qed.

Lemma applier_done_contig rf rf' (batch : list (LogEntry D)) :
  batch <> [] -> contig (lastApplied rf + 1) batch ->
  applyTicket_finish batch rf = (rf', Ret tt) ->
  lastApplied rf' = lastApplied rf + Z.of_nat (length batch).
Proof.
  intros Hne Hc. unfold applyTicket_finish. destruct (list.last batch) as [e|] eqn:Hl.
  - pose proof (contig_last _ _ _ Hc Hl) as Hi. m_exec.
    assert (0 < length batch)%nat by (destruct batch; simpl; [done|lia]).
    destruct (Z.ltb_spec (lastApplied rf) (le_Index e)); [|lia]. intros [= <-]. simpl. lia.
  - by apply last_None in Hl.
Qed.

Lemma install_done_applied i rf rf' :
  installSnapshotDone i rf = (rf', Ret tt) -> lastApplied rf' = Z.max (lastApplied rf) i.
Proof.
  unfold installSnapshotDone, applySignal. m_exec.
  destruct (Z.ltb_spec (lastApplied rf) i); simpl; case_match; intros [= <-]; simpl; lia.
Qed.

(** The gate lets a batch through only when it continues what was applied. *)
Lemma gate_send (batch : list (LogEntry D)) b rf :
  contig b batch -> applyTicket_gate batch rf = (rf, Ret GateSend) -> b = lastApplied rf + 1.
Proof.
  intros Hc. unfold applyTicket_gate. m_exec. destruct (go_idx batch 0) as [e|] eqn:He; [|done].
  apply go_idx_lookup in He as [_ He]. pose proof (Hc _ _ He) as Hi.
  change (Z.to_nat 0) with 0%nat in Hi. revert Hi. generalize (le_Index e). intros i Hi.
  destruct (Z.eqb_spec i (lastApplied rf + 1)); simpl; [lia|].
  destruct (Z.ltb_spec (lastApplied rf) i); simpl; [by intros [=]|].
  destruct (Z.leb_spec i (lastApplied rf)); [by intros [=]|lia].
Qed.

(** An entry being sent has the index that comes next. *)
Lemma sending_next b sent e (rest : list (LogEntry D)) :
  contig b (sent ++ e :: rest) -> le_Index e = b + Z.of_nat (length sent).
Proof. intros Hc. apply Hc. by rewrite list_lookup_middle. Qed.

Lemma critical_unique (l1 l2 k1 k2 : list SnapGo) g x :
  l1 ++ g :: l2 = k1 ++ x :: k2 -> quiet k1 -> quiet k2 -> sg_pc g <> SStart ->
  g = x /\ l1 = k1 /\ l2 = k2.
Proof.
  revert k1. induction l1 as [|y l1 IH]; intros [|z k1] E H1 H2 Hg; simpl in E;
    injection E as E1 E2; subst; try done.
  - by apply Forall_cons in H1 as [? _].
  - by apply quiet_split in H2.
  - apply Forall_cons in H1 as [_ H1]. destruct (IH _ E2 H1 H2 Hg) as (-> & -> & ->). done.
Qed.

Lemma in_order_snapshot pos out snap i t :
  in_order pos out -> in_order pos (out ++ [snapshotMsg snap i t]).
Proof. intros Ho. apply in_order_snoc. by split. Qed.

Lemma handler_wf env op rf rf' :
  wf rf -> op_pre rf op -> exec env op rf = (rf', Ret tt) -> wf rf'.
Proof.
  intros Hwf Hpre Hex. destruct (wp_run _ _ _ (wf_exec env op rf Hwf Hpre)) as (rf1 & [] & Hr & ?).
  congruence.
Qed.

(** The steps of the applier. *)
Lemma collect_phase s batch pos :
  wf (s_rf s) -> s_applier s = ATop -> applyTicket_collect (s_rf s) = (s_rf s, Ret batch) ->
  phase s pos ->
  phase (mkSys (s_rf s) (s_seq s) (if decide (batch = []) then ATop else ACollected batch)
           (s_snaps s) (s_out s)) pos.
Proof.
  intros Hwf Ha Hc Hp. unfold phase in *. rewrite Ha in Hp. simpl. case_decide; simpl; [done|].
  split; [|done]. split; [done|]. eexists. eapply collect_contig; [apply Hwf|exact Hc].
Qed.

Lemma gate_phase s batch g pos :
  s_applier s = AHolding batch -> applyTicket_gate batch (s_rf s) = (s_rf s, Ret g) ->
  phase s pos ->
  phase (match g with
         | GateWait => mkSys (s_rf s) None (ASeqParked batch) (s_snaps s) (s_out s)
         | GateSkip => mkSys (s_rf s) (s_seq s) ATop (s_snaps s) (s_out s)
         | GateSend => mkSys (s_rf s) (s_seq s) (ASending batch [] batch) (s_snaps s) (s_out s)
         end) pos.
Proof.
  intros Ha Hg Hp. unfold phase in Hp. rewrite Ha in Hp. destruct Hp as (Hs & Hq & -> & Hne & b & Hc).
  destruct g; unfold phase; simpl.
  - split; [split; [done|by exists b]|]. by left.
  - left. rewrite Hs. by split_and!.
  - rewrite (gate_send _ _ _ Hc Hg) in Hc. split_and!; try done. lia.
Qed.

(** The steps of a snapshot goroutine: the applier is not delivering. *)
Lemma phase_switch s pos :
  phase s pos -> s_seq s = None \/ ~ quiet (s_snaps s) ->
  snap_phase (s_rf s) (s_seq s) (s_snaps s) pos
  /\ forall rf' seq' snaps' out' pos', snap_phase rf' seq' snaps' pos' ->
       phase (mkSys rf' seq' (s_applier s) snaps' out') pos'
       /\ phase (mkSys rf' seq' (seq_woken (woken (s_rf s) rf' (s_applier s))) snaps' out') pos'.
Proof.
  unfold phase. simpl. intros Hp Hn.
  destruct (s_applier s); simpl in *; try (exfalso; destruct Hp as (Hs & Hq & _); destruct Hn; congruence).
  all: split; [tauto|]; intros; try case_decide; simpl; tauto.
Qed.

Lemma not_quiet l1 g l2 : sg_pc g <> SStart -> ~ quiet (l1 ++ g :: l2).
Proof. intros Hg Hq. by apply quiet_split in Hq. Qed.

(** The goroutine in its critical section is the one the phase speaks of. *)
Lemma snap_phase_at rf seq l1 g l2 pos :
  snap_phase rf seq (l1 ++ g :: l2) pos -> sg_pc g <> SStart ->
  seq = Some BySnap /\ quiet l1 /\ quiet l2
  /\ ((sg_pc g = SLocked /\ pos = lastApplied rf)
      \/ (sg_pc g = SSent /\ pos = Z.max (lastApplied rf) (sg_index g))).
Proof.
  intros [(_ & Hq & _)|(Hs & k1 & x & k2 & E & H1 & H2 & Hpc)] Hg; [by apply quiet_split in Hq|].
  destruct (critical_unique _ _ _ _ _ _ E H1 H2 Hg) as (-> & -> & ->). done.
Qed.

Lemma snap_lock_phase s l1 i t l2 pos :
  s_snaps s = l1 ++ mkSnapGo i t SStart :: l2 -> s_seq s = None -> phase s pos ->
  phase (mkSys (s_rf s) (Some BySnap) (s_applier s) (l1 ++ mkSnapGo i t SLocked :: l2) (s_out s)) pos.
Proof.
  intros Hsn Hn Hp. destruct (phase_switch _ _ Hp (or_introl Hn)) as [Hsp Hsw]. apply Hsw.
  rewrite Hn, Hsn in Hsp. destruct Hsp as [(_ & Hq & ->)|[? _]]; [|done].
  apply Forall_app in Hq as [H1 [_ H2]%Forall_cons]. right. split; [done|].
  exists l1, (mkSnapGo i t SLocked), l2. split_and!; try done. by left.
Qed.

Lemma snap_send_phase s l1 i t l2 pos out' :
  s_snaps s = l1 ++ mkSnapGo i t SLocked :: l2 -> phase s pos ->
  phase (mkSys (s_rf s) (s_seq s) (s_applier s) (l1 ++ mkSnapGo i t SSent :: l2) out') (Z.max pos i).
Proof.
  intros Hsn Hp. destruct (phase_switch _ _ Hp) as [Hsp Hsw].
  { right. rewrite Hsn. by apply not_quiet. }
  apply Hsw. rewrite Hsn in Hsp.
  apply snap_phase_at in Hsp as (Hs & H1 & H2 & [[_ ->]|[? _]]); [|done|done].
  right. split; [done|]. exists l1, (mkSnapGo i t SSent), l2. split_and!; try done. by right.
Qed.

Lemma snap_done_phase s l1 i t l2 rf' pos :
  s_snaps s = l1 ++ mkSnapGo i t SSent :: l2 -> installSnapshotDone i (s_rf s) = (rf', Ret tt) ->
  phase s pos ->
  phase (mkSys rf' None (seq_woken (woken (s_rf s) rf' (s_applier s))) (l1 ++ l2) (s_out s)) pos.
Proof.
  intros Hsn Hd Hp. destruct (phase_switch _ _ Hp) as [Hsp Hsw].
  { right. rewrite Hsn. by apply not_quiet. }
  apply Hsw. rewrite Hsn in Hsp.
  apply snap_phase_at in Hsp as (Hs & H1 & H2 & [[? _]|[_ ->]]); [done| |done].
  left. split_and!; [done|by apply Forall_app|]. simpl. by rewrite (install_done_applied _ _ _ Hd).
Qed.

Lemma delivery_step pos0 s s' : delivery_ok pos0 s -> sstep s s' -> delivery_ok pos0 s'.
Proof.
  intros [Hwf Ho Hp] Hst.
  destruct Hst as [env op rf' Hout Hpre Hr|env a rf' r sp Hpre Hr|Ha _|Ha _|batch Ha _ Hc|batch Ha Hn
    |batch g Ha Hg|batch sent e rest Ha|batch sent rf' Ha Hf|l1 i t l2 Hsn Hn|l1 i t l2 Hsn
    |l1 i t l2 rf' Hsn Hd].
  - split; [by eapply handler_wf|done|]. apply phase_frame; [|by left|done].
    pose proof (outside_applied env op Hout (s_rf s)) as Hk. by rewrite Hr in Hk.
  - split; [|done|].
    + eapply (handler_wf env (OpRequestInstallSnapShot a)); [exact Hwf|exact Hpre|by eapply ignore_ret].
    + apply phase_frame; [|destruct sp as [[i t]|]; [right; eauto|by left]|done].
      pose proof (install_applied env a (s_rf s)) as Hk. by rewrite Hr in Hk.
  - split; try done. unfold phase in *. simpl in *. by rewrite Ha in Hp.
  - split; try done. unfold phase in *. simpl in *. by rewrite Ha in Hp.
  - split; try done. by apply collect_phase.
  - split; try done. unfold phase in *. rewrite Ha in Hp. simpl.
    destruct Hp as [Hb [(_ & ? & ?)|[? _]]]; [by split_and!|congruence].
  - pose proof (gate_phase _ _ _ _ Ha Hg Hp). by destruct g; split.
  - unfold phase in Hp. rewrite Ha in Hp. destruct Hp as (Hs & Hq & -> & Hne & Hc & Hpos).
    pose proof (sending_next _ _ _ _ Hc) as Hi. split; [done| |].
    + apply in_order_snoc. split; [done|]. intros _. simpl. lia.
    + simpl. rewrite position_snoc. unfold phase, delivered. simpl. rewrite <- app_assoc.
      split_and!; try done. rewrite length_app. simpl. lia.
  - unfold phase in Hp. rewrite Ha in Hp. destruct Hp as (Hs & Hq & -> & Hne & Hc & Hpos).
    pose proof (applier_done_contig _ _ _ Hne Hc Hf) as Hl.
    pose proof (wf_applyTicket_finish (sent ++ []) _ Hwf) as Hw.
    destruct (wp_run _ _ _ Hw) as (rf1 & [] & Hr & Hwf1).
    assert (rf1 = rf') as -> by congruence.
    split; try done. unfold phase. simpl. left. rewrite app_nil_r in Hl. split_and!; try done. lia.
  - split; try done. by apply snap_lock_phase.
  - split; [done|by apply in_order_snapshot|]. simpl. rewrite position_snoc. unfold delivered. simpl.
    by apply (snap_send_phase s).
  - split; [|done|by eapply snap_done_phase].
    by eapply (handler_wf (fun _ => mkTick 0 0) (OpInstallSnapshotDone i)).
Qed.

Lemma delivery_run pos0 s s' : delivery_ok pos0 s -> rtc sstep s s' -> delivery_ok pos0 s'.
Proof. intros Hd Hr. induction Hr; [done|]. eauto using delivery_step. Qed.

Lemma delivery_start rf : wf rf -> delivery_ok (lastApplied rf) (start_of rf).
Proof. intros Hwf. split; try done. left. split_and!; [done|constructor|done]. Qed.

(** C25.  In-order delivery: whatever the interleaving of the applier, the
    snapshot goroutines and the rest of the peer, the commands sent on applyCh
    come one by one, each with the index right after everything delivered
    before it, counting a snapshot as delivering up to its index. *)
Theorem apply_in_order rf s :
  wf rf -> rtc sstep (start_of rf) s -> in_order (lastApplied rf) (s_out s).
Proof.
  intros Hwf Hr. apply (do_order (lastApplied rf) s).
  by apply (delivery_run _ (start_of rf)); [apply delivery_start|].
Qed.

End Apply.

(** ** A run of a lagging follower *)

Module ApplyRun.
Import ListGob.

Definition env0 : Env := fun _ => mkTick 7 0.

Definition log3 : list (LogEntry Z) :=
  [mkLogEntry (-1) 0 None; mkLogEntry 1 1 (Some 10); mkLogEntry 1 2 (Some 20);
   mkLogEntry 1 3 (Some 30)].

(** Three committed entries, none of them applied yet. *)
Definition behind : Raft Z :=
  mkRaft 3 1 (mkPersister (enc 1 (-1) log3) []) 0 0 Follower 0 0 1 (-1) log3 [] 3 0
    [1; 1; 1] [0; 0; 0].

Definition snapArgs : RequestSnapShotArgs := mkRequestSnapShotArgs 1 0 5 1 0 [99] true.
Definition logArgs : SendLogArgs Z :=
  mkSendLogArgs 1 0 5 1 [mkLogEntry 1 6 (Some 60)] 6 LogMsgType false.

Definition follow (op : NodeOp (D:=Z)) (rf : Raft Z) : Raft Z := fst (exec env0 op rf).

Definition snapped : Raft Z := Eval vm_compute in follow (OpRequestInstallSnapShot snapArgs) behind.
Definition installed : Raft Z := Eval vm_compute in follow (OpInstallSnapshotDone 5) snapped.
Definition appended : Raft Z := Eval vm_compute in follow (OpRequestSendLog logArgs) installed.
Definition batch : list (LogEntry Z) := drop 1 log3.
Definition delivered1 : list (ApplyMsg Z) := [snapshotMsg [99] 5 1].

Lemma behind_wf : wf behind.
Proof.
  split; try (simpl; lia); [|discriminate]. split.
  - intros [|[|[|[|k]]]] e He; simplify_eq/=; reflexivity.
  - eexists. split; [reflexivity|]. by left.
  - intros [|[|[|k]]] e He; simplify_eq/=; lia.
Qed.

(** The batch is collected, then a snapshot is installed and delivered. *)
Lemma run_overtaken :
  rtc sstep (start_of behind) (mkSys installed None (ACollected batch) [] delivered1).
Proof.
  eapply rtc_l. { by apply (ss_collect (start_of behind) batch). }
  eapply rtc_l. { eapply (ss_install _ env0 snapArgs snapped); [split; [simpl; lia|done]|reflexivity]. }
  eapply rtc_l. { by eapply (ss_snap_lock _ [] 5 1 []). }
  eapply rtc_l. { by eapply (ss_snap_send _ [] 5 1 []). }
  eapply rtc_l. { by eapply (ss_snap_done _ [] 5 1 [] installed). }
  done.
Qed.

(** The applier finds its batch overtaken and goes back to the top of its loop
    with applySeqMu locked; then a new entry is committed. *)
Lemma run_orphaned :
  rtc sstep (start_of behind) (mkSys appended (Some ByApplier) ATop [] delivered1).
Proof.
  etrans; [apply run_overtaken|].
  eapply rtc_l. { by eapply (ss_lock _ batch). }
  eapply rtc_l. { by eapply (ss_gate _ batch GateSkip). }
  apply rtc_once.
  refine (ss_handler (mkSys installed (Some ByApplier) ATop [] delivered1) env0
            (OpRequestSendLog logArgs) appended eq_refl _ eq_refl).
  split; [|split; [by repeat constructor|done]]. intros [|k] e He; simplify_eq/=; reflexivity.
Qed.

Lemma apply_in_order_witness : in_order 0 delivered1.
Proof. exact (apply_in_order behind _ behind_wf run_overtaken). Defined.

(** C37.  The delivery can deadlock: applyTicket's [continue] on a batch that a
    snapshot has overtaken leaves applySeqMu locked.  A well-formed follower
    reaches a state with committed entries not yet applied from which, whatever
    happens, nothing is ever sent on applyCh again: the applier waits for the
    mutex it holds itself, and so does every snapshot goroutine. *)
Theorem apply_deadlock :
  exists (rf : Raft Z) (s : Sys),
    wf rf /\ rtc sstep (start_of rf) s
    /\ lastApplied (s_rf s) < commitIndex (s_rf s)
    /\ forall s', rtc sstep s s' -> s_out s' = s_out s.
Proof.
  exists behind, (mkSys appended (Some ByApplier) ATop [] delivered1).
  split; [apply behind_wf|]. split; [apply run_orphaned|]. split; [vm_compute; reflexivity|].
  intros s' Hr. refine (proj2 (orphaned_forever _ _ _ Hr)). split_and!; done || constructor.
Qed.

(** *** A lost wakeup *)

(** A step that does not signal applyCond. *)
Definition quiet (s s' : Sys (D:=Z)) : Prop := sstep s s' /\ applySignals (s_rf s') = applySignals (s_rf s).

Definition commands_of (out : list (ApplyMsg Z)) : list (ApplyMsg Z) := filter (fun m => am_CommandValid m = true) out.

Lemma quiet_parked s s' : s_applier s = AParked -> quiet s s' -> s_applier s' = AParked /\ commands_of (s_out s') = commands_of (s_out s).
Proof.
  intros Ha [Hs Hsig]. destruct Hs; simpl in *; try congruence; rewrite ?Ha in *; unfold woken in *; rewrite ?decide_True by done; try done.
  split; [done|]. unfold commands_of. rewrite filter_app. simpl. by rewrite app_nil_r.
Qed.

(** An up to date follower, with nothing to apply. *)
Definition idle : Raft Z :=
  mkRaft 3 1 (mkPersister (enc 1 (-1) [mkLogEntry (-1) 0 None]) []) 0 0 Follower 0 0 1 (-1) [mkLogEntry (-1) 0 None] [] 0 0 [1; 1; 1] [0; 0; 0].

Definition idle_snapped : Raft Z := Eval vm_compute in follow (OpRequestInstallSnapShot snapArgs) idle.
Definition idle_committed : Raft Z := Eval vm_compute in follow (OpRequestSendLog logArgs) idle_snapped.
Definition idle_installed : Raft Z := Eval vm_compute in follow (OpInstallSnapshotDone 5) idle_committed.

Lemma idle_wf : wf idle.
Proof.
  split; try (simpl; lia); [|discriminate]. split; [|eexists; split; [reflexivity|]; by left|done].
  intros [|k] e He; simplify_eq/=; reflexivity.
Qed.

(** The applier parks; a snapshot is installed, and before its goroutine runs entry 6 is
    committed: the applier is woken, finds the snapshot not delivered, and parks again. *)
Lemma run_asleep : rtc sstep (start_of idle) (mkSys idle_installed None AParked [] delivered1).
Proof.
  eapply rtc_l. { by apply (ss_park (start_of idle)). }
  eapply rtc_l. { eapply (ss_install _ env0 snapArgs idle_snapped); [split; [simpl; lia|done]|reflexivity]. }
  eapply rtc_l.
  { refine (ss_handler (mkSys idle_snapped None AParked [mkSnapGo 5 1 SStart] []) env0 (OpRequestSendLog logArgs) idle_committed eq_refl _ eq_refl).
    split; [|split; [by repeat constructor|done]]. intros [|k] e He; simplify_eq/=; reflexivity. }
  eapply rtc_l. { by apply ss_park. }
  eapply rtc_l. { by eapply (ss_snap_lock _ [] 5 1 []). }
  eapply rtc_l. { by eapply (ss_snap_send _ [] 5 1 []). }
  eapply rtc_l. { by eapply (ss_snap_done _ [] 5 1 [] idle_installed). }
  done.
Qed.

(** A wakeup is lost: the goroutine of RequestInstallSnapShot raises lastApplied and signals
    applyCond only when it also raises commitIndex.  A well-formed follower reaches a state
    in which an entry is committed and could be applied and no goroutine is under way, but
    the applier sleeps, and it delivers no command until something else signals it. *)
Theorem lost_wakeup :
  exists (rf : Raft Z) (s : Sys),
    wf rf /\ rtc sstep (start_of rf) s /\ s_snaps s = [] /\ s_seq s = None
    /\ applyTicket_waits (s_rf s) = (s_rf s, Ret false) /\ lastApplied (s_rf s) < commitIndex (s_rf s)
    /\ forall s', rtc quiet s s' -> s_applier s' = AParked /\ commands_of (s_out s') = commands_of (s_out s).
Proof.
  exists idle, (mkSys idle_installed None AParked [] delivered1). split; [apply idle_wf|]. split; [apply run_asleep|].
  split; [done|]. split; [done|]. split; [vm_compute; reflexivity|]. split; [vm_compute; reflexivity|].
  intros s' Hr. assert (Hinv : s_applier s' = AParked /\ commands_of (s_out s') = commands_of delivered1); [|done].
  revert Hr. apply (rtc_preserves quiet (fun x => s_applier x = AParked /\ commands_of (s_out x) = commands_of delivered1)); [|done].
  intros x y [Hx Ex] Hq. destruct (quiet_parked x y Hx Hq) as [? E]. split; [done|]. by rewrite E.
Qed.

End ApplyRun.
