(* ===== verification/Delivery.v ===== *)
(** A cluster together with what its appliers have sent to the services.

    [RaftCluster] has the goroutine applyTicket collect a batch and finish it; here the
    messages in between are steps of their own.  [sent] is the sequence of all messages,
    each with the peer and the incarnation that sent it.  The goroutines of a crashed
    incarnation may go on sending the batch they hold, because Kill does not stop them:
    nothing is assumed about them. *)
From Stdlib Require Import ZArith Lia.
From stdpp Require Import base list numbers gmap relations.
From S2P Require Import Prelude RaftTypes RaftNode RaftVote RaftWf RaftSafe RaftLeader RaftSpec RaftCluster ElectionSafety LogTree RaftLogs RaftMoves RaftHandlers SafetyInv SafetySteps SafetyLocal SafetyTerms SafetyLeader SafetyFollower SafetyRun Scheduler SharedLog SafetyProps RaftApply.

#[local] Open Scope Z_scope.

Section Delivery.
Context {D : Type} `{LabGobOk D}.
Abbreviation Log := (list (LogEntry D)).
Abbreviation Sent := (list (nat * nat * LogEntry D)).
Implicit Types (rf : Raft D) (c : Cluster (D:=D)) (g : Ghost (D:=D)) (h : History).

(** [progress]: how many entries of its batch an applier has sent. *)
Record Deployment := mkDeployment
  { d_cluster : Cluster (D:=D); d_progress : gmap (nat * nat) nat; d_sent : Sent }.

Definition is_apply (t : Task (D:=D)) : bool := match t with TApply _ _ _ => true | _ => false end.
Definition applies c : list (Task (D:=D)) := filter (fun t => is_apply t) (tasks c).

Inductive dstep (d : Deployment) : Deployment -> Prop :=
| d_other c' :
    small_step (d_cluster d) c' -> applies c' = applies (d_cluster d) ->
    dstep d (mkDeployment c' (d_progress d) (d_sent d))
| d_collect c' i inc batch :
    small_step (d_cluster d) c' -> tasks c' = TApply i inc batch :: tasks (d_cluster d) ->
    dstep d (mkDeployment c' (<[(i, inc) := 0%nat]> (d_progress d)) (d_sent d))
| d_send i inc batch (k : nat) e :
    TApply i inc batch ∈ tasks (d_cluster d) -> d_progress d !! (i, inc) = Some k -> batch !! k = Some e ->
    (incs (d_cluster d) !! i = Some inc -> forall rf, nodes (d_cluster d) !! i = Some rf ->
       applyTicket_gate batch rf = (rf, Ret GateSend)) ->
    dstep d (mkDeployment (d_cluster d) (<[(i, inc) := S k]> (d_progress d)) (d_sent d ++ [(i, inc, e)]))
| d_finish c' i inc batch t1 t2 :
    small_step (d_cluster d) c' -> tasks (d_cluster d) = t1 ++ TApply i inc batch :: t2 -> tasks c' = t1 ++ t2 ->
    d_progress d !! (i, inc) = Some (length batch) ->
    dstep d (mkDeployment c' (d_progress d) (d_sent d)).

Definition deploy (n : nat) (now : nat -> Z) : Deployment := mkDeployment (init n now) ∅ [].

(** What one incarnation of a peer has sent. *)
Definition from (i inc : nat) (x : nat * nat * LogEntry D) : option (LogEntry D) :=
  let '(j, k, e) := x in if decide (j = i /\ k = inc) then Some e else None.
Definition sent_of (i inc : nat) (s : Sent) : Log := omap (from i inc) s.

(** ** Agreement *)

(** [e] is an entry of a log that is known to be committed. *)
Definition is_committed (n : nat) g (e : LogEntry D) : Prop :=
  exists T k, known n g T k /\ 0 < le_Index e /\ k !! Z.to_nat (le_Index e - 1) = Some e.

Lemma is_committed_extends n g g' e : extends g g' -> is_committed n g e -> is_committed n g' e.
Proof. intros Hex (T & k & Hk & Hp). exists T, k. split; [by eapply known_extends|done]. Qed.

Lemma is_committed_agree n c h g e e' :
  GI n c h g -> is_committed n g e -> is_committed n g e' -> le_Index e = le_Index e' -> e = e'.
Proof.
  intros HG (T & k & Hk & Hp & He) (T' & k' & Hk' & Hp' & He') Hi. rewrite <- Hi in He'.
  assert (Heq : k !! Z.to_nat (le_Index e - 1) = k' !! Z.to_nat (le_Index e - 1)); [|congruence].
  apply comparable_lookup; [|by eapply lookup_lt_Some..]. eapply known_agree; [exact HG|exact Hk|exact Hk'].
Qed.

Lemma is_committed_data n c h g e : GI n c h g -> is_committed n g e -> is_Some (le_Data e).
Proof.
  intros HG (T & k & Hk & _ & He). destruct (gi_ghost _ _ _ _ HG) as [G1 _ _ _ _ _].
  assert (Hin : k ∈ g_tree g).
  { destruct Hk as [->|(m & Hm & Hp & _)]; [apply G1|]. eapply (tr_prefix _ G1); [|exact Hp]. apply Hm. }
  pose proof (eo_data _ (tr_entries _ G1 k Hin)) as Hd. by eapply Forall_lookup_1 in Hd.
Qed.

(** Every entry that has been sent, or is held by an applier, is committed. *)
Record sound (n : nat) g (d : Deployment) : Prop :=
  { so_sent : forall i inc e, (i, inc, e) ∈ d_sent d -> (i < n)%nat /\ is_committed n g e;
    so_held : forall i inc b e, TApply i inc b ∈ tasks (d_cluster d) -> e ∈ b -> (i < n)%nat /\ is_committed n g e }.

Lemma collected_committed n c h g i rf rf' batch e :
  safe_at n c h g -> nodes c !! i = Some rf -> applyTicket_waits rf = (rf, Ret false) ->
  applyTicket_collect rf = (rf', Ret batch) -> e ∈ batch -> is_committed n g e.
Proof.
  intros HS Hi Hw Hr He. destruct (collected _ _ _ _ _ _ _ _ _ HS Hi Hw Hr He) as [Hx Hat].
  destruct (node_facts _ _ _ _ HS _ _ Hi) as (l & k & f & HN & F & _ & _ & E).
  destruct (committed_entry _ _ _ _ _ _ _ (le_Index e) HN ltac:(lia)) as [_ L].
  exists (currentTerm rf), k. split; [apply HN|]. split; [lia|]. rewrite <- L, <- E by lia. done.
Qed.

(** ** What a step of the cluster means for delivery *)

Lemma collect_same rf rf' (batch : Log) : applyTicket_collect rf = (rf', Ret batch) -> rf' = rf.
Proof. unfold applyTicket_collect. m_exec. intros Hm. by apply m_map_ret in Hm as [-> _]; [|intros; by eapply logAt_same]. Qed.

Inductive meaning c c' : Prop :=
| me_quiet :
    applies c' = applies c -> incs c' = incs c ->
    (forall i rf', nodes c' !! i = Some rf' -> exists rf, nodes c !! i = Some rf /\ lastApplied rf' = lastApplied rf) ->
    meaning c c'
| me_collect i inc rf batch :
    incs c !! i = Some inc -> nodes c !! i = Some rf -> (forall b, TApply i inc b ∉ tasks c) ->
    applyTicket_waits rf = (rf, Ret false) -> applyTicket_collect rf = (rf, Ret batch) ->
    tasks c' = TApply i inc batch :: tasks c -> incs c' = incs c -> nodes c' = nodes c -> meaning c c'
| me_finish t1 i inc batch t2 rf rf' :
    tasks c = t1 ++ TApply i inc batch :: t2 -> tasks c' = t1 ++ t2 -> incs c !! i = Some inc -> incs c' = incs c ->
    nodes c !! i = Some rf -> nodes c' = <[i := rf']> (nodes c) ->
    applyTicket_gate batch rf = (rf, Ret GateSend) -> applyTicket_finish batch rf = (rf', Ret tt) -> meaning c c'
| me_installed i inc idx : TInstalled i inc idx ∈ tasks c -> applies c' = applies c -> incs c' = incs c -> meaning c c'
| me_crash i rf rf0 rf' now :
    nodes c !! i = Some rf -> Make (peers rf) (me rf) now (persister rf0) = (rf', Ret tt) ->
    c' = restart i rf' c -> meaning c c'.

(** A step that runs one operation outside the delivery. *)
Lemma quiet_step c c' i rf rf' env op :
  nodes c !! i = Some rf -> outside op = true \/ (exists a, op = OpRequestInstallSnapShot a) ->
  exec env op rf = (rf', Ret tt) -> nodes c' = <[i := rf']> (nodes c) -> incs c' = incs c -> applies c' = applies c ->
  meaning c c'.
Proof.
  intros Hi Hop Hr Hn Hinc Ha. apply me_quiet; [done..|]. intros j x. rewrite Hn.
  intros [(-> & -> & _)|[? Hj]]%list_lookup_insert_Some; [|by exists x]. exists rf. split; [done|].
  assert (Hk : keeps same_applied (exec (D:=D) env op)).
  { destruct Hop as [Ho|[a ->]]; [by apply outside_applied|]. simpl. unfold ignore. apply keeps_bind; [apply _|apply install_applied|].
    intros ?. apply keeps_ret; apply _. }
  specialize (Hk rf). by rewrite Hr in Hk.
Qed.

Lemma filter_no_apply (l : list (Task (D:=D))) : (forall t, t ∈ l -> is_apply t = false) -> filter (fun t => is_apply t) l = [].
Proof.
  induction l as [|t l IH]; intros Hl; [done|]. rewrite filter_cons, decide_False; [apply IH; intros; apply Hl; by right|].
  rewrite (Hl t) by left. by intros ?.
Qed.

Lemma snap_tasks_no_apply i inc (xs : list (SendLogArgs D * Z)) t : t ∈ snap_tasks i inc xs -> is_apply t = false.
Proof.
  unfold snap_tasks. intros ([x [a z]] & _ & Hs)%list_elem_of_omap. case_decide; [done|].
  destruct (sl_ShouldSendSnapShot a); [by injection Hs as <-|done].
Qed.

Lemma step_meaning c c' : step c c' -> meaning c c'.
Proof.
  intros Hst. destruct Hst as
    [i inc rf rf' now env o Hi Hinc Hr| e e1 e2 rf rf' He Hi _ Hr| i rf rf' cmd r Hi Hr | i inc rf rf' o Hi Hinc Hr
    | i inc j t1 t2 rf rf' o Ht Hi Hinc Hr | q1 call q2 a rf rf' env r Hq Ha Hi Hr | q1 call q2 a recode rf rf' env r Hq Ha Hi Hr
    | q1 call q2 a ctx rf rf' inc env r sp Hq Ha Hi Hinc Hr
    | | | | q1 call r q2 a e1 e e2 rf rf' env t inc Hq Ha _ _ Hi ? ? ? reply Hr
    | q1 call r q2 a rf rf' env t t' inc Hq Ha _ _ Hi _ Hr | q1 call r q2 a recode rf rf' env inc Hq Ha _ _ Hi Hr
    | q1 call r q2 a ctx rf rf' env inc Hq Ha _ _ Hi Hr |
    | t1 i inc lii t2 rf rf' Ht | i rf rf' index snap Hi Hx Hr | i inc rf rf' batch Hi Hinc Hno Hw Hr
    | t1 i inc batch t2 rf rf' Ht Hinc Hi Hg Hr | i rf rf0 rf' now Hi Hst Hr ];
    try (by apply me_quiet; [done..|]; intros j x Hx; exists x).
  - destruct o; eapply (quiet_step _ _ i rf rf' env (OpTicker (D:=D) now)); try done; [by left|by eapply ignore_ret|by left|by eapply ignore_ret].
  - eapply (quiet_step _ _ _ rf rf' any_env (OpDecide (D:=D) (el_args e) (el_tally e))); try done. by left.
  - eapply (quiet_step _ _ _ rf rf' any_env (OpStart cmd)); try done; [by left|by eapply ignore_ret].
  - destruct o as [xs|]; eapply (quiet_step _ _ _ rf rf' any_env (OpSendLogCore (D:=D))); try done;
      [by left|by eapply ignore_ret| |by left|by eapply ignore_ret].
    unfold applies. simpl. rewrite filter_app, filter_no_apply; [done|apply snap_tasks_no_apply].
  - eapply (quiet_step _ _ _ rf rf' any_env (OpSendSnapShot (D:=D) (Z.of_nat j))); try done; [by left|by eapply ignore_ret|by destruct o as [[]|]..|].
    unfold applies. simpl. rewrite Ht, !filter_app, filter_cons. done.
  - eapply (quiet_step _ _ _ rf rf' env (OpRequestVote (D:=D) a)); try done; [by left|by eapply ignore_ret].
  - eapply (quiet_step _ _ _ rf rf' env (OpRequestSendLog a)); try done; [by left|by eapply ignore_ret].
  - eapply (quiet_step _ _ _ rf rf' env (OpRequestInstallSnapShot (D:=D) a)); try done; [right; by exists a|by eapply ignore_ret|].
    unfold applies. simpl. by destruct sp as [[]|]; rewrite ?filter_cons.
  - eapply (quiet_step _ _ _ rf rf' env (OpVoteReply (D:=D) reply (el_tally e))); try done; [by left|by eapply ignore_ret].
  - eapply (quiet_step _ _ _ rf rf' env (OpVoteReply (D:=D) _ t)); try done; [by left|by eapply ignore_ret].
  - eapply (quiet_step _ _ _ rf rf' env (OpSendLogReply (Z.of_nat (c_dst call)) a recode r)); try done. by left.
  - eapply (quiet_step _ _ _ rf rf' env (OpSnapShotReply (D:=D) (Z.of_nat (c_dst call)) ctx r)); try done. by left.
  - eapply (me_installed _ _ i inc lii); [rewrite Ht; set_solver| |done].
    unfold applies. simpl. by rewrite Ht, !filter_app, filter_cons.
  - eapply (quiet_step _ _ _ rf rf' any_env (OpSnapshot (D:=D) index snap)); try done. by left.
  - pose proof (collect_same _ _ _ Hr) as ->. eapply (me_collect _ _ i inc rf batch); try done. simpl. by rewrite list_insert_id.
  - by eapply (me_finish _ _ t1 i inc batch t2 rf rf').
  - by eapply (me_crash _ _ i rf rf0 rf' now).
Qed.

Lemma elem_of_applies c i inc b : TApply i inc b ∈ tasks c <-> TApply i inc b ∈ applies c.
Proof. unfold applies. rewrite list_elem_of_filter. simpl. naive_solver. Qed.

(** Where a batch comes from. *)
Lemma new_batch c c' i inc b :
  step c c' -> TApply i inc b ∈ tasks c' ->
  TApply i inc b ∈ tasks c
  \/ exists rf, nodes c !! i = Some rf /\ applyTicket_waits rf = (rf, Ret false) /\ applyTicket_collect rf = (rf, Ret b).
Proof.
  intros Hst%step_meaning. destruct Hst as [Ha|j k rf b' _ ? _ ? ? Ht|t1 j k b' t2 rf rf' Ht Ht'|j k x _ Ha|j rf rf0 rf' now _ _ ->].
  - left. by rewrite elem_of_applies, <- Ha, <- elem_of_applies.
  - rewrite Ht. intros [[= -> -> ->]|?]%elem_of_cons; [right; by exists rf|by left].
  - rewrite Ht, Ht', !elem_of_app, elem_of_cons. left. tauto.
  - left. by rewrite elem_of_applies, <- Ha, <- elem_of_applies.
  - by left.
Qed.

Definition correct (n : nat) (d : Deployment) : Prop := exists h g, safe_at n (d_cluster d) h g /\ sound n g d.

Lemma cluster_sound n d c' progress h g :
  safe_at n (d_cluster d) h g -> sound n g d -> small_step (d_cluster d) c' ->
  correct n (mkDeployment c' progress (d_sent d)).
Proof.
  intros HS [S1 S2] Hst. destruct (safe_later _ _ _ _ _ HS (rtc_once _ _ Hst)) as (h' & g' & HS' & Hex).
  exists h', g'. split; [done|]. split; simpl.
  - intros i inc e He. destruct (S1 _ _ _ He). split; [done|]. by eapply is_committed_extends.
  - intros i inc b e Hb He. assert (Hc : (i < n)%nat /\ is_committed n g e); [|split; [apply Hc|by eapply is_committed_extends, Hc]].
    destruct (new_batch _ _ _ _ _ (proj1 Hst) Hb) as [?|(rf & Hi & ? & ?)]; [by eapply S2|].
    split; [|by eapply collected_committed]. rewrite <- (proj1 (inv_nodes _ _ _ (proj1 HS))). by eapply lookup_lt_Some.
Qed.

Lemma dstep_correct n d d' : correct n d -> dstep d d' -> correct n d'.
Proof.
  intros (h & g & HS & Hso) Hst. destruct Hst as [c' Hc|c' i inc batch Hc|i inc batch k e Ht Hp He|c' i inc batch t1 t2 Hc];
    try by eapply cluster_sound. exists h, g. split; [done|]. destruct Hso as [S1 S2]. split; simpl; [|done].
  intros j inc' e'. rewrite elem_of_app, list_elem_of_singleton. intros [?|[= -> -> ->]]; [by eapply S1|].
  eapply S2; [exact Ht|by eapply list_elem_of_lookup_2].
Qed.

Lemma deploy_correct n now : correct n (deploy n now).
Proof.
  destruct (safe_reachable n now (init n now) (rtc_refl _ _)) as (h & g & HS). exists h, g. split; [done|].
  split; simpl; by intros; exfalso; set_solver.
Qed.

Lemma run_correct n now d : rtc dstep (deploy n now) d -> correct n d.
Proof. apply rtc_preserves; [apply dstep_correct|apply deploy_correct]. Qed.

(** ** Order *)

(** No peer has a snapshot and no log has been cut at one, which is the case as long as
    no service takes one. *)
Definition uncompacted c : Prop :=
  (forall i rf, nodes c !! i = Some rf -> firstIndex (log rf) = 0 /\ snapshot rf = []) /\ (forall i inc idx, TInstalled i inc idx ∉ tasks c).

Definition plain_step (d d' : Deployment) : Prop := dstep d d' /\ uncompacted (d_cluster d').

Lemma plain_steps d d' : rtc plain_step d d' -> rtc dstep d d'.
Proof. apply rtc_subrel. by intros ? ? []. Qed.

Definition task_key (t : Task (D:=D)) : option (nat * nat) :=
  match t with TApply i inc _ => Some (i, inc) | _ => None end.

Definition idle_lane c (i inc : nat) : Prop := forall b, TApply i inc b ∉ tasks c.

(** [la] is how far the incarnation is according to its own lastApplied. *)
Record lane (d : Deployment) (i inc : nat) (la : nat) : Prop :=
  { la_sent : contig 1 (sent_of i inc (d_sent d));
    la_busy : forall b, TApply i inc b ∈ tasks (d_cluster d) ->
      exists k, d_progress d !! (i, inc) = Some k /\ (k <= length b)%nat /\ contig (Z.of_nat la + 1) b
        /\ length (sent_of i inc (d_sent d)) = (la + k)%nat;
    la_idle : idle_lane (d_cluster d) i inc -> length (sent_of i inc (d_sent d)) = la;
    la_applied : forall rf, incs (d_cluster d) !! i = Some inc -> nodes (d_cluster d) !! i = Some rf -> lastApplied rf = Z.of_nat la;
    la_future : forall cur, incs (d_cluster d) !! i = Some cur -> (cur < inc)%nat -> la = 0%nat /\ idle_lane (d_cluster d) i inc }.

Definition ordered (d : Deployment) : Prop :=
  NoDup (omap task_key (tasks (d_cluster d))) /\ forall i inc, exists la, lane d i inc la.

Lemma make_applied n self now ps rf' : Make (D:=D) n self now ps = (rf', Ret tt) -> lastApplied rf' = firstIndex (log rf').
Proof.
  unfold Make. set (rf0 := mkRaft _ _ _ _ _ _ _ _ _ _ _ _ _ _ _ _). unfold mbind at 1, M_bind, m_bind.
  assert (Hr : match readPersist (ReadRaftState ps) rf0 with
    | (rf1, Ret _) => lastApplied rf1 = firstIndex (log rf1) | _ => True end).
  { unfold readPersist, GetFirstLog. m_exec. repeat (case_match; simplify_eq/=; try done).
    match goal with E : go_idx ?l 0 = Ret _ |- _ => apply go_idx_lookup in E as [_ E]; by destruct l; simplify_eq/= end. }
  destruct (readPersist (ReadRaftState ps) rf0) as [rf1 [|]]; [|done].
  unfold mbind, M_bind, m_bind. simpl. set (rf2 := set_snapshot _ rf1).
  pose proof (resetRaftIndex_frame rf2) as (Hc & Ha & Hi).
  destruct (resetRaftIndex rf2) as [rf3 [|]]; [|done]. simpl in *. intros [= <-].
  unfold core, rf2 in *. simpl in *. congruence.
Qed.

Lemma sent_of_snoc i inc j k e (s : Sent) :
  sent_of i inc (s ++ [(j, k, e)]) = sent_of i inc s ++ (if decide (j = i /\ k = inc) then [e] else []).
Proof. unfold sent_of. rewrite omap_app. simpl. by case_decide. Qed.

Lemma elem_of_sent_of i inc e (s : Sent) : e ∈ sent_of i inc s <-> (i, inc, e) ∈ s.
Proof.
  unfold sent_of. rewrite list_elem_of_omap. split.
  - intros ([[j k] x] & Hin & Hf). simpl in Hf. case_decide as Hd; [|done]. destruct Hd as [-> ->]. by injection Hf as ->.
  - intros Hin. exists (i, inc, e). split; [done|]. simpl. by rewrite decide_True.
Qed.

(** Only the batches, the incarnations and lastApplied matter to a lane. *)
Lemma lane_frame d d' i inc la :
  lane d i inc la -> sent_of i inc (d_sent d') = sent_of i inc (d_sent d) ->
  d_progress d' !! (i, inc) = d_progress d !! (i, inc) ->
  (forall b, TApply i inc b ∈ tasks (d_cluster d') <-> TApply i inc b ∈ tasks (d_cluster d)) ->
  incs (d_cluster d') !! i = incs (d_cluster d) !! i ->
  (incs (d_cluster d) !! i = Some inc -> forall rf', nodes (d_cluster d') !! i = Some rf' ->
     exists rf, nodes (d_cluster d) !! i = Some rf /\ lastApplied rf' = lastApplied rf) ->
  lane d' i inc la.
Proof.
  intros [L1 L2 L3 L4 L5] Es Ep Ht Ei Hn.
  assert (Hid : idle_lane (d_cluster d') i inc <-> idle_lane (d_cluster d) i inc) by (unfold idle_lane; by setoid_rewrite Ht).
  split; rewrite ?Es, ?Ep, ?Ei; [done| |by rewrite Hid| |].
  - intros b. rewrite Ht. apply L2.
  - intros rf' Hc Hr. destruct (Hn Hc rf' Hr) as (rf & Hi & ->). by apply L4.
  - intros cur. rewrite Hid. apply L5.
Qed.

Lemma keys_applies c : omap task_key (tasks c) = omap task_key (applies c).
Proof.
  unfold applies. induction (tasks c) as [|t l IH]; [done|]. rewrite filter_cons. destruct t; simpl; [exact IH|exact IH|]. f_equal. exact IH.
Qed.

Lemma applies_cons c c' i inc b : tasks c' = TApply i inc b :: tasks c -> length (applies c') = S (length (applies c)).
Proof. unfold applies. intros ->. by rewrite filter_cons. Qed.

Lemma applies_drop c c' i inc b t1 t2 :
  tasks c = t1 ++ TApply i inc b :: t2 -> tasks c' = t1 ++ t2 -> length (applies c) = S (length (applies c')).
Proof. unfold applies. intros -> ->. rewrite !filter_app, filter_cons, !length_app. simpl. lia. Qed.

Lemma contig_snoc (b : Z) (l : Log) e : contig b l -> le_Index e = b + Z.of_nat (length l) -> contig b (l ++ [e]).
Proof. intros Hl He. apply contig_app. split; [done|]. apply contig_cons. split; [done|]. by intros k x Hx. Qed.

(** *** Each kind of step *)

Lemma other_ordered d c' :
  ordered d -> uncompacted (d_cluster d) -> uncompacted c' -> step (d_cluster d) c' -> applies c' = applies (d_cluster d) ->
  ordered (mkDeployment c' (d_progress d) (d_sent d)).
Proof.
  intros [Hnd Hl] [_ Hno] [Hc' _] Hst%step_meaning Ha.
  destruct Hst as [_ Hi Hn|i inc rf b _ _ _ _ _ Ht|t1 i inc b t2 rf rf' Ht Ht'|i inc x Hx|i rf rf0 rf' now Hi Hmk ->].
  - split; simpl; [by rewrite keys_applies, Ha, <- keys_applies|]. intros j inc. destruct (Hl j inc) as [la L]. exists la.
    eapply lane_frame; try done; simpl; [intros b; by rewrite !elem_of_applies, Ha|by rewrite Hi|intros _ rf' Hr; by apply Hn].
  - apply applies_cons in Ht. rewrite Ha in Ht. lia.
  - pose proof (applies_drop _ _ _ _ _ _ _ Ht Ht') as E. rewrite Ha in E. lia.
  - by apply Hno in Hx.
  - split; [done|]. intros j inc. destruct (Hl j inc) as [la L]. exists la.
    destruct (decide (j = i)) as [->|Hne].
    + destruct L as [L1 L2 L3 L4 L5]. pose proof (lookup_lt_Some _ _ _ Hi) as Hlt. split; simpl; [done|done|done| |].
      * intros x. rewrite list_lookup_alter_eq, list_lookup_insert_eq by done. intros Hc [= <-].
        destruct (incs (d_cluster d) !! i) as [cur|] eqn:Hcur; [|done]. injection Hc as <-.
        destruct (L5 cur eq_refl ltac:(lia)) as [-> _]. rewrite (make_applied _ _ _ _ _ Hmk). apply (Hc' i). simpl.
        by rewrite list_lookup_insert_eq.
      * intros cur. rewrite list_lookup_alter_eq. destruct (incs (d_cluster d) !! i) as [cur0|] eqn:Hcur; [|done].
        intros [= <-] Hc. destruct (L5 cur0 eq_refl ltac:(lia)). done.
    + eapply lane_frame; try done; simpl; [by rewrite list_lookup_alter_ne|].
      intros _ x Hx. rewrite list_lookup_insert_ne in Hx by done. by exists x.
Qed.

Lemma collect_ordered n d c' i inc batch h g :
  safe_at n (d_cluster d) h g -> ordered d -> step (d_cluster d) c' -> tasks c' = TApply i inc batch :: tasks (d_cluster d) ->
  ordered (mkDeployment c' (<[(i, inc) := 0%nat]> (d_progress d)) (d_sent d)).
Proof.
  intros HS [Hnd Hl] Hst%step_meaning Ht.
  destruct Hst as [Ha _ _|j k rf b Hinc Hi Hno Hw Hr Ht' Ei En|t1 j k b t2 rf rf' Ht1 Ht2|j k x _ Ha _|j rf rf0 rf' now _ _ ->].
  - apply applies_cons in Ht. rewrite Ha in Ht. lia.
  - rewrite Ht in Ht'. injection Ht' as <- <- <-. split; simpl.
    { rewrite Ht. simpl. constructor; [|done]. intros ([] & Hx & [= -> ->])%list_elem_of_omap. by apply Hno in Hx. }
    intros j k. destruct (Hl j k) as [la L]. exists la. destruct (decide ((j, k) = (i, inc))) as [[= -> ->]|Hne].
    + destruct L as [L1 L2 L3 L4 L5]. assert (Hla : lastApplied rf = Z.of_nat la) by (by apply L4). split; simpl.
      * done.
      * intros b Hb. exists 0%nat. rewrite lookup_insert_eq. rewrite Ht in Hb.
        apply elem_of_cons in Hb as [[= ->]|Hb]; [|by apply Hno in Hb]. split; [done|]. split; [lia|].
        split; [|rewrite L3 by done; lia]. rewrite <- Hla. eapply collect_contig; [|exact Hr].
        apply (wf_log _ (safe_wf _ _ _ _ _ _ HS Hi)).
      * intros Hid. exfalso. apply (Hid batch). rewrite Ht. by left.
      * rewrite Ei, En. done.
      * rewrite Ei. intros cur Hcur. rewrite Hinc in Hcur. injection Hcur as <-. lia.
    + eapply lane_frame; try done; simpl; [by rewrite lookup_insert_ne by congruence| |by rewrite Ei|rewrite En; by eauto].
      intros b. rewrite Ht, elem_of_cons. split; [|by right]. intros [[= -> -> _]|?]; done.
  - rewrite Ht2, Ht1 in Ht. apply (f_equal length) in Ht. simpl in Ht. rewrite !length_app in Ht. simpl in Ht. lia.
  - apply applies_cons in Ht. rewrite Ha in Ht. lia.
  - simpl in Ht. apply (f_equal length) in Ht. simpl in Ht. lia.
Qed.

Lemma one_batch i inc (b b' : Log) (l : list (Task (D:=D))) :
  NoDup (omap task_key l) -> TApply i inc b ∈ l -> TApply i inc b' ∈ l -> b = b'.
Proof.
  induction l as [|t l IH]; [by intros _ ?%elem_of_nil|].
  assert (Hkey : forall b, TApply i inc b ∈ l -> (i, inc) ∈ omap task_key l)
    by (intros b0 Hb0; apply list_elem_of_omap; by exists (TApply i inc b0)).
  intros Hnd Hb Hb'. apply elem_of_cons in Hb as [<-|Hb], Hb' as [Hb'|Hb']; simpl in *.
  - by injection Hb'.
  - by apply NoDup_cons in Hnd as [Hn _]; apply Hkey in Hb'.
  - subst t. by apply NoDup_cons in Hnd as [Hn _]; apply Hkey in Hb.
  - apply IH; try done. destruct (task_key t); [by apply NoDup_cons in Hnd as [_ ?]|done].
Qed.

Lemma no_other_batch i inc (b : Log) (t1 t2 : list (Task (D:=D))) :
  NoDup (omap task_key (t1 ++ TApply i inc b :: t2)) ->
  NoDup (omap task_key (t1 ++ t2)) /\ forall b', TApply i inc b' ∉ t1 ++ t2.
Proof.
  rewrite !omap_app. simpl. intros Hnd. rewrite <- Permutation_middle, NoDup_cons in Hnd. destruct Hnd as [Hn Hnd].
  split; [done|]. intros b' Hb'. apply Hn. rewrite <- omap_app. apply list_elem_of_omap. by exists (TApply i inc b').
Qed.

Lemma send_ordered d i inc batch k e :
  ordered d -> TApply i inc batch ∈ tasks (d_cluster d) -> d_progress d !! (i, inc) = Some k -> batch !! k = Some e ->
  ordered (mkDeployment (d_cluster d) (<[(i, inc) := S k]> (d_progress d)) (d_sent d ++ [(i, inc, e)])).
Proof.
  intros [Hnd Hl] Ht Hk He. split; [done|]. intros j p. destruct (Hl j p) as [la L]. exists la.
  destruct (decide ((j, p) = (i, inc))) as [[= -> ->]|Hne].
  - destruct L as [L1 L2 L3 L4 L5]. destruct (L2 _ Ht) as (k' & Hk' & _ & Hc & Hlen). rewrite Hk in Hk'. injection Hk' as <-.
    pose proof (Hc _ _ He) as Hidx. split; simpl; rewrite ?sent_of_snoc, ?decide_True by done; try done.
    + apply contig_snoc; [done|lia].
    + intros b Hb. destruct (L2 _ Hb) as (k' & Hk' & Hle & Hc' & Hlen'). rewrite Hk in Hk'. injection Hk' as <-.
      exists (S k). rewrite lookup_insert_eq, length_app. simpl. split_and!; [done| |done|lia].
      assert (Hin : b = batch) by (by eapply one_batch). subst. by eapply lookup_lt_Some.
    + intros Hid. by apply Hid in Ht.
  - eapply lane_frame; try done; simpl; [|by rewrite lookup_insert_ne by congruence|by eauto].
    rewrite sent_of_snoc, decide_False, app_nil_r; [done|]. intros [-> ->]. done.
Qed.

Lemma finish_ordered d c' i inc batch t1 t2 :
  ordered d -> step (d_cluster d) c' -> tasks (d_cluster d) = t1 ++ TApply i inc batch :: t2 -> tasks c' = t1 ++ t2 ->
  d_progress d !! (i, inc) = Some (length batch) -> ordered (mkDeployment c' (d_progress d) (d_sent d)).
Proof.
  intros [Hnd Hl] Hst%step_meaning Ht Ht' Hp.
  destruct Hst as [Ha _ _|j k rf b Hinc Hi Hno Hw Hr Ht1 Ei En|u1 j k b u2 rf rf' Hu Hu' Hinc Ei Hi En Hg Hf|j k x _ Ha _|j rf rf0 rf' now _ _ ->].
  - pose proof (applies_drop _ _ _ _ _ _ _ Ht Ht') as E. rewrite Ha in E. lia.
  - rewrite Ht, Ht' in Ht1. apply (f_equal length) in Ht1. simpl in Ht1. rewrite !length_app in Ht1. simpl in Ht1. lia.
  - rewrite Hu in Hnd. destruct (no_other_batch _ _ _ _ _ Hnd) as [Hnd' Hnone].
    split; simpl; [by rewrite Hu'|]. intros p q. destruct (Hl p q) as [la L].
    destruct (decide ((p, q) = (j, k))) as [[= -> ->]|Hne].
    + destruct L as [L1 L2 L3 L4 L5]. assert (Hin : TApply j k b ∈ tasks (d_cluster d)) by (rewrite Hu; set_solver).
      destruct (L2 _ Hin) as (x & Hx & Hle & Hc & Hlen). pose proof (L4 rf Hinc Hi) as Hla.
      assert (Hkey : (j, k) = (i, inc)).
      { destruct (decide ((j, k) = (i, inc))) as [|Hd]; [done|]. exfalso.
        assert (TApply j k b ∈ tasks c') by (rewrite Ht'; rewrite Ht in Hin; set_solver).
        rewrite Hu' in *. by eapply Hnone. }
      injection Hkey as -> ->. rewrite Hp in Hx. injection Hx as <-.
      assert (Hb : b = batch); [|subst b].
      { eapply (one_batch i inc _ _ (tasks (d_cluster d))); [by rewrite Hu|done|rewrite Ht; set_solver]. }
      assert (Hne : batch <> []) by (intros ->; by unfold applyTicket_gate in Hg).
      exists (la + length batch)%nat. split; simpl; [done| |intros; lia| |].
      * intros b Hb. rewrite Hu' in Hb. by apply Hnone in Hb.
      * rewrite En. intros x _ Hx. rewrite list_lookup_insert_eq in Hx by (by eapply lookup_lt_Some). injection Hx as <-.
        rewrite (applier_done_contig rf rf' batch Hne) by (by rewrite ?Hla). lia.
      * rewrite Ei. intros cur Hcur. rewrite Hinc in Hcur. injection Hcur as <-. lia.
    + exists la. eapply lane_frame; try done; simpl; [|by rewrite Ei|].
      * intros b0. rewrite Hu, Hu', !elem_of_app, elem_of_cons. split; [tauto|]. intros [?|[[= -> -> _]|?]]; tauto.
      * intros Hq x Hx. assert (p <> j) by (intros ->; rewrite Hinc in Hq; congruence).
        rewrite En, list_lookup_insert_ne in Hx by done. by exists x.
  - pose proof (applies_drop _ _ _ _ _ _ _ Ht Ht') as E. rewrite Ha in E. lia.
  - simpl in Ht'. rewrite Ht in Ht'. apply (f_equal length) in Ht'. rewrite !length_app in Ht'. simpl in Ht'. lia.
Qed.

Lemma plain_ordered n d d' :
  correct n d /\ uncompacted (d_cluster d) /\ ordered d -> plain_step d d' ->
  correct n d' /\ uncompacted (d_cluster d') /\ ordered d'.
Proof.
  intros (Hc & Hu & Ho) [Hst Hu']. split; [by eapply dstep_correct|]. split; [done|]. destruct Hc as (h & g & HS & _).
  destruct Hst as [c' [Hs _] Ha|c' i inc b [Hs _] Ht|i inc b k e Ht Hp He _|c' i inc b t1 t2 [Hs _] Ht Ht' Hp].
  - by apply other_ordered.
  - by eapply collect_ordered.
  - by eapply send_ordered.
  - by eapply finish_ordered.
Qed.

Lemma dstep_cluster d d' : dstep d d' -> rtc small_step (d_cluster d) (d_cluster d').
Proof. intros [c' Hc|c' i inc b Hc|i inc b k e|c' i inc b t1 t2 Hc]; simpl; try done; by apply rtc_once. Qed.

(** The run of the cluster in a run of a deployment. *)
Lemma plain_cluster n now d : rtc plain_step (deploy n now) d -> rtc step (init n now) (d_cluster d).
Proof.
  intros Hr. apply small_steps. revert Hr. apply (rtc_preserves plain_step (fun d => rtc small_step (init n now) (d_cluster d))); [|done].
  intros a b Ha [Hst _]. etrans; [exact Ha|by apply dstep_cluster].
Qed.

Lemma init_applied n now i rf :
  nodes (init (D:=D) n now) !! i = Some rf -> (firstIndex (log rf) = 0 /\ snapshot rf = []) /\ lastApplied rf = 0.
Proof.
  intros Hi. pose proof (init_node n now i rf Hi) as HN.
  assert (Hf : firstIndex (log rf) = 0) by (rewrite (ni_log _ _ _ _ _ _ _ HN); done).
  simpl in Hi. unfold init_nodes in Hi. rewrite list_lookup_fmap in Hi.
  destruct (seq 0 n !! i) as [j|] eqn:Hs; simplify_eq/=. apply lookup_seq in Hs as [-> Hlt].
  destruct (Make_blank (D:=D) n i (now i) Hlt) as (rf & Hm & _). simpl in *. rewrite Hm in *.
  simpl in *. rewrite <- Hf. split; [split; [done|]|by eapply make_applied]. apply Make_ret in Hm as (Hrec & _). by injection Hrec.
Qed.

Lemma deploy_ordered n now : uncompacted (init (D:=D) n now) /\ ordered (deploy n now).
Proof.
  split; [split|split]; simpl.
  - intros i rf Hi. by apply (init_applied n now i rf).
  - by intros ? ? ? ?%elem_of_nil.
  - constructor.
  - intros i inc. exists 0%nat. split; simpl; try done.
    + by intros ? ?%elem_of_nil.
    + intros rf _ Hi. by apply (init_applied n now i rf).
    + intros cur _ _. split; [done|]. by intros ? ?%elem_of_nil.
Qed.

Lemma plain_run n now d :
  rtc plain_step (deploy n now) d -> correct n d /\ uncompacted (d_cluster d) /\ ordered d.
Proof.
  apply (rtc_preserves plain_step (fun d => correct n d /\ uncompacted (d_cluster d) /\ ordered d)); [apply plain_ordered|].
  split; [apply deploy_correct|apply deploy_ordered]. Qed.

(** Two sequences that start at 1 and agree index by index. *)
Lemma contig_comparable (l m : Log) :
  contig 1 l -> contig 1 m -> (forall e e', e ∈ l -> e' ∈ m -> le_Index e = le_Index e' -> e = e') ->
  (length l <= length m)%nat -> l `prefix_of` m.
Proof.
  intros Hl Hm Ha Hle. exists (drop (length l) m). rewrite <- (take_drop (length l) m) at 1. f_equal.
  apply list_eq_same_length with (length l); [done|by rewrite length_take; lia|].
  intros k x y Hk Hx Hy. rewrite lookup_take_lt in Hx by done. symmetry.
  apply Ha; [by eapply list_elem_of_lookup_2..|]. rewrite (Hl _ _ Hy), (Hm _ _ Hx). done.
Qed.

(** ** What the services get *)

Section Runs.
Context (n : nat) (now : nat -> Z).

(** Commands agree end to end: in every execution, snapshots, crashes and goroutines of
    crashed incarnations included, two messages with the same index that any two peers
    have sent on their apply channels at any time carry the same entry, and each has a
    command. *)
Lemma sent_agree d i j inc inc' e e' :
  rtc dstep (deploy n now) d -> (i, inc, e) ∈ d_sent d -> (j, inc', e') ∈ d_sent d ->
  le_Index e = le_Index e' -> e = e' /\ is_Some (le_Data e) /\ 0 < le_Index e.
Proof.
  intros (h & g & [_ HG] & [S1 _])%run_correct Hi Hj Hx. apply S1 in Hi as [_ Hi], Hj as [_ Hj].
  split; [by eapply is_committed_agree|]. split; [by eapply is_committed_data|]. by destruct Hi as (? & ? & ? & ? & ?).
Qed.

Lemma sent_by_peer d i inc e : rtc dstep (deploy n now) d -> (i, inc, e) ∈ d_sent d -> (i < n)%nat.
Proof. by intros (h & g & _ & [S1 _])%run_correct [? _]%S1. Qed.

(** Commands come in sequence: without snapshots, what an incarnation has sent is the
    entries with the indices 1, 2, 3 and so on, in this order and without a gap. *)
Lemma sent_in_sequence d i inc : rtc plain_step (deploy n now) d -> contig 1 (sent_of i inc (d_sent d)).
Proof. intros (_ & _ & _ & Hl)%plain_run. destruct (Hl i inc) as [la L]. apply L. Qed.

Lemma sent_comparable d i inc j inc' :
  rtc plain_step (deploy n now) d ->
  (length (sent_of i inc (d_sent d)) <= length (sent_of j inc' (d_sent d)))%nat ->
  sent_of i inc (d_sent d) `prefix_of` sent_of j inc' (d_sent d).
Proof.
  intros Hr Hle. apply contig_comparable; [by apply sent_in_sequence..| |done].
  intros e e' He He' Hx. rewrite elem_of_sent_of in He, He'. by eapply (sent_agree d i j inc inc' e e' (plain_steps _ _ Hr)).
Qed.

End Runs.
End Delivery.

(** ** Over shared arrays *)

#[export] Instance deployment_state {D : Type} : ClusterState D (Deployment (D:=D)) :=
  { cl := d_cluster;
    set_cl := fun c d => mkDeployment c (d_progress d) (d_sent d);
    set_cl_same := fun d => match d with mkDeployment c p s => eq_refl end }.

#[export] Instance dstep_own {D : Type} `{LabGobOk D} : OwnLogs (dstep (D:=D)).
Proof.
  intros d d' Hst. destruct Hst as [c' [Hs _]|c' i inc batch [Hs _]|i inc batch k e|c' i inc batch t1 t2 [Hs _]]; simpl; try (by apply step_sends).
  by apply sends_quietly.
Qed.

#[export] Instance plain_step_own {D : Type} `{LabGobOk D} : OwnLogs (plain_step (D:=D)).
Proof. intros d d' [Hs _]. by apply dstep_own. Qed.

(** ** Executions that can be evaluated *)

Section DeliverySchedule.
Context {D : Type} `{LabGobOk D}.
Implicit Types (c : Cluster (D:=D)) (rf : Raft D).

Inductive DEvent := DFire (ev : Event (D:=D)) | DSend (i inc : nat).

Definition batch_of (i inc : nat) c : option (list (LogEntry D)) :=
  match filter (fun t => applying i inc t) (tasks c) with TApply _ _ b :: _ => Some b | _ => None end.

Definition may_send (i inc : nat) (batch : list (LogEntry D)) c : bool :=
  if decide (incs c !! i = Some inc) then
    match nodes c !! i with
    | Some rf => match applyTicket_gate batch rf with (_, Ret GateSend) => true | _ => false end
    | None => true
    end
  else true.

Definition dfire (ev : DEvent) (d : Deployment (D:=D)) : option (Deployment (D:=D)) :=
  match ev with
  | DFire (ECollect i) =>
      c' ← fire_small (ECollect i) (d_cluster d); inc ← incs (d_cluster d) !! i;
      Some (mkDeployment c' (<[(i, inc) := 0%nat]> (d_progress d)) (d_sent d))
  | DFire (EFinish k) =>
      c' ← fire_small (EFinish k) (d_cluster d); t ← tasks (d_cluster d) !! k;
      match t with
      | TApply i inc batch =>
          if decide (d_progress d !! (i, inc) = Some (length batch)) then Some (mkDeployment c' (d_progress d) (d_sent d)) else None
      | _ => None
      end
  | DFire ev =>
      c' ← fire_small ev (d_cluster d);
      if decide (length (applies c') = length (applies (d_cluster d))) then Some (mkDeployment c' (d_progress d) (d_sent d)) else None
  | DSend i inc =>
      batch ← batch_of i inc (d_cluster d); k ← d_progress d !! (i, inc); e ← batch !! k;
      if may_send i inc batch (d_cluster d)
      then Some (mkDeployment (d_cluster d) (<[(i, inc) := S k]> (d_progress d)) (d_sent d ++ [(i, inc, e)]))
      else None
  end.

Lemma batch_of_task i inc c b : batch_of i inc c = Some b -> TApply i inc b ∈ tasks c.
Proof.
  unfold batch_of. destruct (filter _ _) as [|[| |j k x] l] eqn:E; [done..|]. intros [= ->].
  assert (Hin : TApply j k b ∈ filter (fun t => applying i inc t) (tasks c)) by (rewrite E; left).
  apply list_elem_of_filter in Hin as [Ha Hin]. simpl in Ha. apply Is_true_true, bool_decide_eq_true in Ha as [-> ->]. done.
Qed.

Lemma same_applies c c' : step c c' -> length (applies c') = length (applies c) -> applies c' = applies c.
Proof.
  intros Hst%step_meaning Hlen.
  destruct Hst as [?|i inc rf b _ _ _ _ _ Ht|t1 i inc b t2 rf rf' Ht Ht'|?|i rf rf0 rf' now _ _ ->]; try done.
  - apply applies_cons in Ht. lia.
  - pose proof (applies_drop _ _ _ _ _ _ _ Ht Ht'). lia.
Qed.

Lemma collect_fired i c c' inc :
  fire (ECollect i) c = Some c' -> incs c !! i = Some inc -> exists b, tasks c' = TApply i inc b :: tasks c.
Proof.
  simpl. intros E Hinc. opens. destruct b; [done|]. destruct (existsb _ _); simpl in E; [done|]. opens.
  simplify_eq. by eexists.
Qed.

Lemma finish_fired k c c' i inc b :
  fire (EFinish k) c = Some c' -> tasks c !! k = Some (TApply i inc b) ->
  exists t1 t2, tasks c = t1 ++ TApply i inc b :: t2 /\ tasks c' = t1 ++ t2.
Proof.
  simpl. intros E Hk. unfold pick in E. rewrite Hk in E. simpl in E. opens. case_decide; [|done].
  destruct (gate_open _); [|done]. opens. eexists _, _. split; [symmetry; by apply take_drop_middle|done].
Qed.

Lemma dfire_sound ev d d' : dfire ev d = Some d' -> dstep d d'.
Proof.
  destruct ev as [ev|i inc]; simpl.
  - assert (Hsplit : forall c', fire_small ev (d_cluster d) = Some c' -> fire ev (d_cluster d) = Some c' /\ small_step (d_cluster d) c').
    { intros c' Hf. split; [|by apply fire_small_sound in Hf]. unfold fire_small in Hf.
      destruct (fire ev (d_cluster d)) as [x|]; [|done]. simpl in Hf. by destruct (fits x). }
    assert (Hother : (c' ← fire_small ev (d_cluster d);
        if decide (length (applies c') = length (applies (d_cluster d))) then Some (mkDeployment c' (d_progress d) (d_sent d)) else None)
        = Some d' -> dstep d d').
    { destruct (fire_small ev (d_cluster d)) as [c'|]; [|done]. simpl. case_decide; [|done]. intros [= <-].
      destruct (Hsplit _ eq_refl) as [_ Hs]. apply d_other; [done|]. apply same_applies; [apply Hs|done]. }
    destruct ev; try exact Hother.
    + destruct (fire_small _ _) as [c'|]; [|done]. destruct (Hsplit _ eq_refl) as [Hf Hs]. simpl.
      destruct (incs (d_cluster d) !! i) as [inc|] eqn:Hinc; [|done]. simpl. intros [= <-].
      destruct (collect_fired _ _ _ _ Hf Hinc) as [b Hb]. by eapply d_collect.
    + destruct (fire_small _ _) as [c'|]; [|done]. destruct (Hsplit _ eq_refl) as [Hf Hs]. simpl.
      destruct (tasks (d_cluster d) !! k) as [[| |i inc b]|] eqn:Hk; simpl; try done. case_decide; [|done]. intros [= <-].
      destruct (finish_fired _ _ _ _ _ _ Hf Hk) as (t1 & t2 & ? & ?). by eapply d_finish.
  - destruct (batch_of i inc (d_cluster d)) as [b|] eqn:Hb; [|done]. simpl.
    destruct (d_progress d !! (i, inc)) as [k|] eqn:Hk; [|done]. simpl. destruct (b !! k) as [e|] eqn:He; [|done]. simpl.
    destruct (may_send i inc b (d_cluster d)) eqn:Hm; [|done]. intros [= <-]. apply batch_of_task in Hb.
    eapply d_send; try done. intros Hinc rf Hrf. unfold may_send in Hm. rewrite decide_True, Hrf in Hm by done.
    destruct (applyTicket_gate b rf) as [rf' [[]|]] eqn:Hg; try done. by rewrite (gate_same _ _ _ _ Hg).
Qed.

(** Without snapshots. *)
Definition plain c : bool :=
  forallb (fun rf => (firstIndex (log rf) =? 0) && bool_decide (snapshot rf = [])) (nodes c)
  && forallb (fun t => match t with TInstalled _ _ _ => false | _ => true end) (tasks c).

Definition plain_fire (ev : DEvent) (d : Deployment (D:=D)) : option (Deployment (D:=D)) :=
  d' ← dfire ev d; if plain (d_cluster d') then Some d' else None.

Lemma plain_uncompacted c : plain c = true -> uncompacted c.
Proof.
  unfold plain. rewrite andb_true_iff, !forallb_forall. intros [Hn Ht]. split.
  - intros i rf Hi. apply list_elem_of_lookup_2, list_elem_of_In, Hn in Hi. by apply andb_true_iff in Hi as [?%Z.eqb_eq ?%bool_decide_eq_true].
  - intros i inc idx Hin%list_elem_of_In. by apply Ht in Hin.
Qed.

Lemma plain_fire_sound ev d d' : plain_fire ev d = Some d' -> plain_step d d'.
Proof.
  unfold plain_fire. destruct (dfire ev d) as [y|] eqn:Hf; [|done]. simpl. destruct (plain (d_cluster y)) eqn:Hp; [|done]. intros [= <-].
  split; [by apply dfire_sound in Hf|by apply plain_uncompacted].
Qed.

End DeliverySchedule.
