(* ===== verification/SnapMoves.v ===== *)
(** What the operations of a peer do to the point at which its log is compacted, to the
    snapshot it keeps for it, and to commitIndex; and the steps of a cluster sorted by
    what they mean for snapshots and for the delivery to the service. *)
From Stdlib Require Import ZArith Lia.
From stdpp Require Import base list numbers gmap relations.
From S2P Require Import Prelude RaftTypes RaftNode RaftVote RaftWf RaftSafe RaftLeader RaftSpec RaftCluster ElectionSafety LogTree RaftLogs RaftMoves RaftHandlers SafetyInv SafetySteps SafetyLocal SafetyTerms SafetyLeader SafetyFollower SafetyRun SafetyProps RaftApply Delivery.

#[local] Open Scope Z_scope.

Section Moves.
Context {D : Type} `{LabGobOk D}.
Abbreviation Log := (list (LogEntry D)).
Implicit Types (rf : Raft D) (c : Cluster (D:=D)) (g : Ghost (D:=D)).

(** ** The snapshot in memory *)

Definition same_snap rf rf' : Prop := snapshot rf' = snapshot rf.

#[export] Instance same_snap_preorder : PreOrder same_snap.
Proof. split; unfold same_snap; [done|]. intros x y z ? ?; congruence. Qed.

#[local] Hint Extern 1 (keeps same_snap (modify _)) => apply keeps_modify; intros ?; reflexivity : keeps.

(** Operations that may replace the snapshot. *)
Definition snaps (op : NodeOp (D:=D)) : bool :=
  match op with OpSnapshot _ _ | OpRequestInstallSnapShot _ => true | _ => false end.

Lemma advance_snap : keeps same_snap (advanceCommit (D:=D)).
Proof. intros rf. pose proof (stored_advanceCommit rf) as Hc. unfold core_eq, core in Hc. unfold same_snap. congruence. Qed.
#[local] Hint Resolve advance_snap : keeps.

Lemma exec_snap env op : snaps op = false -> keeps same_snap (exec (D:=D) env op).
Proof.
  destruct op; try done; intros _; simpl; unfold ignore, RequestVote,
    RequestVote_body, RequestHeartBeat, RequestSendLog, RequestSendLog_body, adjust_args,
    append_entries, follower_commit, installSnapshotDone, applyTicket_collect, applyTicket_finish,
    Start, Kill, sendSnapShot_begin, sendSnapShot_reply, sendLogTicketCore_begin, prepareSendLog,
    sendLog_reply, onSendLogSuccess, backoff, ticker_begin, onVoteReply, ticker_decide,
    resetRaftIndex, AddCurrentTerm, SetElectionTime, persist, applySignal; keeps_auto.
Qed.

(** ** commitIndex only grows *)

Definition commit_le rf rf' : Prop := commitIndex rf <= commitIndex rf'.

#[export] Instance commit_le_preorder : PreOrder commit_le.
Proof. split; unfold commit_le; [intros ?; lia|]. intros x y z ? ?; lia. Qed.

#[local] Hint Extern 1 (keeps commit_le (modify _)) => apply keeps_modify; intros ?; unfold commit_le; simpl; lia : keeps.

Lemma keeps_assoc {A B C} (R : relation (Raft D)) (m : M (Raft D) A) (f : A -> M (Raft D) B) (k : B -> M (Raft D) C) :
  keeps R ((m ≫= f) ≫= k) -> keeps R (x ← m; y ← f x; k y).
Proof.
  intros Hk rf. specialize (Hk rf). revert Hk. unfold mbind, M_bind, m_bind. destruct (m rf) as [rf1 [a|]]; [|done].
  by destruct (f a rf1) as [rf2 [b|]].
Qed.

(** Raising commitIndex to [b], as the leader's loop does. *)
Lemma raise_commit b :
  keeps commit_le (commit ← gets commitIndex;
    if commit <? b then cur ← gets currentTerm; e ← logAt (D:=D) b; when (cur =? le_Term e) (modify (set_commitIndex b);; applySignal)
    else mret tt).
Proof.
  intros rf. unfold commit_le. m_exec. destruct (Z.ltb_spec (commitIndex rf) b); [|simpl; lia].
  destruct (logAt b rf) as [rf1 [e|]] eqn:He; pose proof (logAt_same _ _ _ _ He) as ->; simpl; [|lia].
  unfold applySignal. m_exec. destruct (_ =? _); simpl; lia.
Qed.

Lemma advance_loop_commit fuel b : keeps commit_le (advanceCommit_loop (D:=D) fuel b).
Proof.
  revert b. induction fuel as [|fuel IH]; intros b; simpl; [keeps_auto|].
  apply keeps_bind; [apply _|unfold GetLastLog; keeps_auto|]. intros last. case_match; [|keeps_auto].
  apply keeps_bind; [apply _|keeps_auto|]. intros mi. apply keeps_bind; [apply _|keeps_auto|]. intros n. case_match; [keeps_auto|].
  apply (keeps_assoc commit_le _ _ (fun _ => advanceCommit_loop fuel (b + 1))). apply keeps_bind; [apply _|apply raise_commit|]. by intros _.
Qed.

Lemma advance_commit_le : keeps commit_le (advanceCommit (D:=D)).
Proof. unfold advanceCommit, GetLastLog. keeps_auto. apply advance_loop_commit. Qed.

Lemma follower_commit_le x : keeps commit_le (follower_commit (D:=D) x).
Proof.
  intros rf. unfold commit_le, follower_commit, GetLastLog, applySignal. m_exec.
  destruct (commitIndex rf <? x); [|simpl; lia]. destruct (go_idx (log rf) _) as [e|]; [|simpl; lia]. m_exec.
  destruct (Z.ltb_spec (commitIndex rf) (Z.min (float64_of_int x) (float64_of_int (le_Index e)))); simpl; lia.
Qed.

Lemma installed_commit_le x : keeps commit_le (installSnapshotDone (D:=D) x).
Proof.
  intros rf. unfold commit_le, installSnapshotDone, applySignal. m_exec.
  destruct (lastApplied rf <? x); simpl; destruct (Z.ltb_spec (commitIndex rf) x); simpl; lia.
Qed.
#[local] Hint Resolve advance_commit_le follower_commit_le installed_commit_le : keeps.

Lemma exec_commit_le env op : keeps commit_le (exec (D:=D) env op).
Proof.
  destruct op; simpl; unfold ignore, Snapshot, RequestVote, RequestInstallSnapShot, RequestInstallSnapShot_body, snapshot_covered,
    snapshot_conflicts, RequestVote_body, RequestHeartBeat, RequestSendLog, RequestSendLog_body, adjust_args,
    append_entries, applyTicket_collect, applyTicket_finish,
    Start, Kill, sendSnapShot_begin, sendSnapShot_reply, sendLogTicketCore_begin, prepareSendLog,
    sendLog_reply, onSendLogSuccess, backoff, ticker_begin, onVoteReply, ticker_decide,
    resetRaftIndex, AddCurrentTerm, SetElectionTime, persist; keeps_auto.
Qed.

(** ** The first index of the log *)

Lemma exec_log env op :
  match op with OpSnapshot _ _ | OpRequestInstallSnapShot _ | OpRequestSendLog _ | OpStart _ => False | _ => True end ->
  keeps log_same (exec (D:=D) env op).
Proof.
  assert (Ha : keeps log_same (advanceCommit (D:=D))).
  { intros rf. pose proof (stored_advanceCommit rf) as Hc. unfold core_eq, core in Hc. unfold log_same. congruence. }
  destruct op; try done; intros _; simpl; unfold ignore, RequestVote,
    RequestVote_body, RequestHeartBeat, installSnapshotDone, applyTicket_collect, applyTicket_finish,
    Kill, sendSnapShot_begin, sendSnapShot_reply, sendLogTicketCore_begin, prepareSendLog,
    sendLog_reply, onSendLogSuccess, backoff, ticker_begin, onVoteReply, ticker_decide,
    resetRaftIndex, SetElectionTime, applySignal; keeps_auto.
Qed.

Lemma merge_first (l es : Log) (f p : nat) :
  (f <= p)%nat \/ es = [] -> firstIndex (merge_log (compact l f) (Z.of_nat p) es) = Z.of_nat f.
Proof.
  intros Hp. unfold merge_log. destruct (list.last es) as [e|] eqn:He; [|done]. case_decide; [done|].
  destruct Hp as [Hp| ->]; [|done]. rewrite compact_first.
  by replace (Z.to_nat (Z.of_nat p - Z.of_nat f + 1)) with (S (p - f)) by lia.
Qed.

(** ** What a step means for snapshots and delivery *)

(** Nothing that concerns snapshots or delivery happens to a peer. *)
Record calm rf rf' : Prop :=
  { cm_first : firstIndex (log rf') = firstIndex (log rf);
    cm_snap : snapshot rf' = snapshot rf;
    cm_applied : lastApplied rf' = lastApplied rf;
    cm_commit : commitIndex rf <= commitIndex rf' }.

Lemma calm_refl rf : calm rf rf.
Proof. by split. Qed.

Definition is_delivery (t : Task (D:=D)) : bool := match t with TSendSnapShot _ _ _ => false | _ => true end.

(** The tasks of the appliers and of the snapshot goroutines. *)
Definition deliveries c : list (Task (D:=D)) := filter (fun t => is_delivery t) (tasks c).

Definition snap_args (call : Call (D:=D)) : option RequestSnapShotArgs :=
  match c_req call with ReqSnap a _ => Some a | _ => None end.

Definition in_transit c (a : RequestSnapShotArgs) : Prop := exists call, call ∈ requests c /\ snap_args call = Some a.

(** The arguments with which a peer sends its snapshot. *)
Definition sends_snap c (a : RequestSnapShotArgs) : Prop :=
  exists i rf, nodes c !! i = Some rf /\ rs_LastIncludedIndex a = firstIndex (log rf) /\ rs_Data a = snapshot rf.

Inductive kind c c' : Prop :=
| k_calm :
    incs c' = incs c -> deliveries c' = deliveries c ->
    (forall i rf', nodes c' !! i = Some rf' -> exists rf, nodes c !! i = Some rf /\ calm rf rf') ->
    (forall a, in_transit c' a -> in_transit c a \/ sends_snap c a) -> kind c c'
| k_install i inc rf rf' a :
    in_transit c a -> incs c !! i = Some inc -> nodes c !! i = Some rf ->
    nodes c' = <[i := rf']> (nodes c) -> incs c' = incs c ->
    tasks c' = TInstalled i inc (rs_LastIncludedIndex a) :: tasks c ->
    firstIndex (log rf') = rs_LastIncludedIndex a -> snapshot rf' = rs_Data a ->
    lastApplied rf' = lastApplied rf -> commitIndex rf' = commitIndex rf ->
    firstIndex (log rf) < rs_LastIncludedIndex a -> commitIndex rf < rs_LastIncludedIndex a ->
    (forall b, in_transit c' b -> in_transit c b) -> kind c c'
| k_snapshot i rf rf' index snap :
    nodes c !! i = Some rf -> nodes c' = <[i := rf']> (nodes c) -> incs c' = incs c -> tasks c' = tasks c -> requests c' = requests c ->
    Snapshot index snap rf = (rf', Ret tt) ->
    firstIndex (log rf) < index <= commitIndex rf -> firstIndex (log rf') = index -> snapshot rf' = snap ->
    lastApplied rf' = lastApplied rf -> commitIndex rf' = commitIndex rf -> kind c c'
| k_collect i inc rf batch :
    incs c !! i = Some inc -> nodes c !! i = Some rf -> (forall b, TApply i inc b ∉ tasks c) ->
    applyTicket_waits rf = (rf, Ret false) -> applyTicket_collect rf = (rf, Ret batch) ->
    tasks c' = TApply i inc batch :: tasks c -> incs c' = incs c -> nodes c' = nodes c -> requests c' = requests c -> kind c c'
| k_finish t1 i inc batch t2 rf rf' :
    tasks c = t1 ++ TApply i inc batch :: t2 -> tasks c' = t1 ++ t2 -> incs c !! i = Some inc -> incs c' = incs c ->
    nodes c !! i = Some rf -> nodes c' = <[i := rf']> (nodes c) -> requests c' = requests c ->
    applyTicket_gate batch rf = (rf, Ret GateSend) -> applyTicket_finish batch rf = (rf', Ret tt) -> kind c c'
| k_installed t1 i inc idx t2 rf rf' :
    tasks c = t1 ++ TInstalled i inc idx :: t2 -> tasks c' = t1 ++ t2 -> incs c !! i = Some inc -> incs c' = incs c ->
    nodes c !! i = Some rf -> nodes c' = <[i := rf']> (nodes c) -> requests c' = requests c ->
    firstIndex (log rf') = firstIndex (log rf) -> snapshot rf' = snapshot rf ->
    lastApplied rf' = Z.max (lastApplied rf) idx -> commitIndex rf' = Z.max (commitIndex rf) idx -> kind c c'
| k_crash i rf rf' :
    nodes c !! i = Some rf -> c' = restart i rf' c ->
    firstIndex (log rf') = firstIndex (log rf) -> snapshot rf' = snapshot rf -> ReadSnapshot (persister rf') = snapshot rf' ->
    lastApplied rf' = firstIndex (log rf') -> commitIndex rf' = firstIndex (log rf') -> kind c c'.

Lemma node_calm env op rf rf' :
  outside op = true -> exec env op rf = (rf', Ret tt) -> snapshot rf' = snapshot rf ->
  firstIndex (log rf') = firstIndex (log rf) -> calm rf rf'.
Proof.
  intros Ho Hr Hs Hf. split; [done|done| |].
  - pose proof (outside_applied env op Ho rf) as Hk. by rewrite Hr in Hk.
  - pose proof (exec_commit_le env op rf) as Hk. by rewrite Hr in Hk.
Qed.

(** An operation that leaves log and snapshot alone. *)
Lemma node_calm_log env op rf rf' :
  outside op = true -> snaps op = false -> match op with OpRequestSendLog _ | OpStart _ => False | _ => True end ->
  exec env op rf = (rf', Ret tt) -> calm rf rf'.
Proof.
  intros Ho Hn Hop Hr. eapply node_calm; [done|exact Hr| |].
  - pose proof (exec_snap env op Hn rf) as Hk. by rewrite Hr in Hk.
  - pose proof (exec_log env op) as Hk. specialize (Hk ltac:(by destruct op) rf). rewrite Hr in Hk. unfold log_same in Hk. simpl in Hk. by rewrite Hk.
Qed.

Lemma calm_kind c c' i rf rf' :
  nodes c !! i = Some rf -> calm rf rf' -> nodes c' = <[i := rf']> (nodes c) -> incs c' = incs c ->
  deliveries c' = deliveries c -> (forall a, in_transit c' a -> in_transit c a \/ sends_snap c a) -> kind c c'.
Proof.
  intros Hi Hc Hn Hinc Hd Ht. apply k_calm; [done|done| |done]. intros j x. rewrite Hn.
  intros [(-> & -> & _)|[? Hj]]%list_lookup_insert_Some; [by exists rf|]. exists x. split; [done|apply calm_refl].
Qed.

(** A panic leaves the snapshot alone. *)
Lemma exec_panic_snap env op rf rf0 : wf rf -> exec env op rf = (rf0, Panic) -> snapshot rf0 = snapshot rf.
Proof.
  intros Hwf Hex. destruct (snaps op) eqn:Hs.
  - destruct op; try done; simpl in Hex.
    + pose proof (wf_Snapshot index snap rf Hwf) as Hw. unfold wp in Hw. by rewrite Hex in Hw.
    + pose proof (wp_ignore _ _ _ (wp_mono _ _ (fun _ _ => True) _ (wp_RequestInstallSnapShot env args rf (wf_log _ Hwf)) ltac:(done))) as Hw.
      unfold wp in Hw. by rewrite Hex in Hw.
  - pose proof (exec_snap env op Hs rf) as Hk. by rewrite Hex in Hk.
Qed.

(** *** The operations that move the first index, or might *)

Section Safe.
Context (n : nat) c h g (HS : safe_at n c h g).

Lemma start_calm i rf rf' cmd r : nodes c !! i = Some rf -> Start cmd rf = (rf', Ret r) -> calm rf rf'.
Proof.
  intros Hi Hr. destruct HS as [HI HG]. destruct (gi_nodes _ _ _ _ HG _ _ Hi) as (l & k & f & _ & _ & HN).
  pose proof (tr_entries _ (go_tree _ _ _ (gi_ghost _ _ _ _ HG)) l (ni_tree _ _ _ _ _ _ _ HN)) as Hok.
  pose proof (ni_first _ _ _ _ _ _ _ HN). pose proof (prefix_length _ _ (ni_prefix _ _ _ _ _ _ _ HN)).
  destruct (start_ret cmd l f rf rf' r Hok ltac:(lia) (ni_log _ _ _ _ _ _ _ HN) (ni_wf _ _ _ _ _ _ _ HN) Hr) as (_ & Hcase).
  assert (Hex : exec any_env (OpStart cmd) rf = (rf', Ret tt)) by (by eapply ignore_ret).
  eapply (node_calm any_env (OpStart cmd)); [done|exact Hex| |].
  - pose proof (exec_snap any_env (OpStart cmd) eq_refl rf) as Hk. by rewrite Hex in Hk.
  - destruct Hcase as [->|(_ & -> & _)]; [done|]. by rewrite (ni_log _ _ _ _ _ _ _ HN), !compact_first.
Qed.

Lemma sendlog_calm i rf rf' env call a recode r :
  call ∈ requests c -> c_req call = ReqLog a recode -> nodes c !! i = Some rf ->
  RequestSendLog env a rf = (rf', Ret r) -> calm rf rf'.
Proof.
  intros Hc Ha Hi Hr. destruct HS as [HI HG]. destruct (gi_nodes _ _ _ _ HG _ _ Hi) as (l & k & f & _ & _ & HN).
  pose proof (tr_entries _ (go_tree _ _ _ (gi_ghost _ _ _ _ HG)) l (ni_tree _ _ _ _ _ _ _ HN)) as Hok.
  pose proof (ni_first _ _ _ _ _ _ _ HN). pose proof (prefix_length _ _ (ni_prefix _ _ _ _ _ _ _ HN)).
  pose proof (gi_calls _ _ _ _ HG call (or_introl Hc)) as Hcall. unfold call_inv in Hcall. rewrite Ha in Hcall.
  destruct Hcall as (_ & _ & m & p & Hca & _).
  pose proof (append_result_spec env a m p l f rf rf' r Hok ltac:(lia) (ni_log _ _ _ _ _ _ _ HN) Hca Hr) as Hres.
  assert (Hex : exec env (OpRequestSendLog a) rf = (rf', Ret tt)) by (by eapply ignore_ret).
  eapply (node_calm env (OpRequestSendLog a)); [done|exact Hex| |].
  - pose proof (exec_snap env (OpRequestSendLog a) eq_refl rf) as Hk. by rewrite Hex in Hk.
  - revert Hres. generalize (slr_Success r). intros b [Hs|Hs _ _ _|q _ _ _ _ Hq Hlog _ _ _ _]; [by rewrite (so_log _ _ Hs)..|].
    rewrite Hlog, (ni_log _ _ _ _ _ _ _ HN), merge_first, compact_first; [done|].
    destruct Hq as [[? _]|[->|[_ ->]]]; [left; lia|by left|right; by apply drop_ge].
Qed.

(** A snapshot that is installed is newer than everything the peer counts as committed. *)
Lemma install_facts i rf rf' env call a ctx r x y :
  call ∈ requests c -> c_req call = ReqSnap a ctx -> nodes c !! i = Some rf ->
  RequestInstallSnapShot env a rf = (rf', Ret (r, Some (x, y))) ->
  x = rs_LastIncludedIndex a /\ firstIndex (log rf') = x /\ snapshot rf' = rs_Data a
  /\ lastApplied rf' = lastApplied rf /\ commitIndex rf' = commitIndex rf /\ firstIndex (log rf) < x /\ commitIndex rf < x.
Proof.
  intros Hin Ha Hi Hr. destruct HS as [HI HG]. destruct (gi_nodes _ _ _ _ HG _ _ Hi) as (l & k & f & _ & _ & HN).
  pose proof (ni_wf _ _ _ _ _ _ _ HN) as Hwf. pose proof (wp_done _ _ _ _ _ (wp_RequestInstallSnapShot env a rf (wf_log _ Hwf)) Hr) as Hw.
  simpl in Hw. destruct Hw as (_ & _ & [= Ec Ela] & [= -> ->] & Hle & Hno & El & Es).
  pose proof (gi_calls _ _ _ _ HG call (or_introl Hin)) as Hcall. unfold call_inv in Hcall. rewrite Ha in Hcall.
  destruct Hcall as (_ & _ & m & s & Hm & Hsm & Ei & Et & Hks & _).
  destruct (holds_prefix n c h g HG i rf l k f _ _ m s a HN Hm Hsm Hle Ei Et) as [Hiff _].
  pose proof (ni_commit _ _ _ _ _ _ _ HN).
  assert (Hlen : (length k < length s)%nat).
  { destruct (Nat.lt_ge_cases (length k) (length s)) as [?|Hge]; [done|]. destruct Hno. apply Hiff. left.
    assert (Hsk : s `prefix_of` k); [|etrans; [exact Hsk|apply HN]].
    destruct (known_agree n c h g HG _ _ _ _ Hks (ni_known _ _ _ _ _ _ _ HN)) as [?|Hp]; [done|].
    by pose proof (prefix_length_eq _ _ Hp Hge) as ->. }
  split_and!; try done; [by rewrite El| |lia].
  destruct (Z.lt_ge_cases (firstIndex (log rf)) (rs_LastIncludedIndex a)); [done|]. destruct Hno. left. lia.
Qed.

Lemma install_kind i inc rf rf' env q1 call q2 a ctx r sp :
  requests c = q1 ++ call :: q2 -> c_req call = ReqSnap a ctx -> c_dst call = i ->
  incs c !! i = Some inc -> nodes c !! i = Some rf -> RequestInstallSnapShot env a rf = (rf', Ret (r, sp)) ->
  kind c (set_tasks (match sp with Some (x, _) => TInstalled i inc x :: tasks c | None => tasks c end)
            (set_responses ((call, Some (RepSnap r)) :: responses c) (set_requests (q1 ++ q2) (set_node i rf' c)))).
Proof.
  intros Hq Ha Hd Hinc Hi Hr. assert (Hin : call ∈ requests c) by (rewrite Hq; set_solver).
  assert (Htr : forall b, (exists x, x ∈ q1 ++ q2 /\ snap_args x = Some b) -> in_transit c b).
  { intros b (x & Hx & Hb). exists x. split; [|done]. rewrite Hq. set_solver. }
  destruct sp as [[x y]|].
  - destruct (install_facts _ _ _ _ _ _ _ _ _ _ Hin Ha Hi Hr) as (-> & ? & ? & ? & ? & ? & ?).
    eapply (k_install _ _ i inc rf rf' a); try done. exists call. split; [done|]. unfold snap_args. by rewrite Ha.
  - pose proof (safe_wf _ _ _ _ _ _ HS Hi) as Hwf.
    pose proof (wp_done _ _ _ _ _ (wp_RequestInstallSnapShot env a rf (wf_log _ Hwf)) Hr) as (_ & _ & [= Ec Ela] & _ & El & Es).
    eapply (calm_kind _ _ i rf rf'); try done; [|by intros b ?%Htr; left]. split; [by rewrite El|done|done|]. rewrite Ec. lia.
Qed.

Lemma snapshot_point index snap rf rf' :
  log_ok (log rf) -> Snapshot index snap rf = (rf', Ret tt) ->
  rf' = rf \/ firstIndex (log rf) < index /\ firstIndex (log rf') = index /\ snapshot rf' = snap /\ commitIndex rf' = commitIndex rf.
Proof.
  intros Hl. unfold Snapshot.
  destruct (wp_run _ _ _ (wp_GetFirstLog (fun e r => r = rf /\ le_Index e = firstIndex (log rf)) rf Hl ltac:(by intros e _ He _))) as (r1 & e & He & -> & Hfi).
  destruct (wp_run _ _ _ (wp_GetLastLog (fun e r => r = rf /\ le_Index e = lastIndex (log rf)) rf Hl ltac:(by intros e0 _ He0))) as (r2 & e2 & He2 & -> & Hla).
  rewrite (bind_run _ _ _ _ _ He), (bind_run _ _ _ _ _ He2), Hfi, Hla.
  destruct (Z.leb_spec index (firstIndex (log rf))); [intros [= <-]; by left|].
  destruct (Z.ltb_spec (lastIndex (log rf)) index); [intros [= <-]; by left|]. unfold persist. m_exec.
  destruct (go_idx (log rf) (index - firstIndex (log rf))) as [x|] eqn:Hx; [|done]. m_exec.
  destruct (go_from (log rf) _) as [tl|]; [|done]. m_exec. intros [= <-]. right. simpl. split_and!; try done.
  apply go_idx_lookup in Hx as [? Hx]. unfold firstIndex at 1. simpl. rewrite (lo_contig _ Hl _ _ Hx). lia.
Qed.

Lemma snapshot_kind i rf rf' index snap :
  nodes c !! i = Some rf -> index <= commitIndex rf -> Snapshot index snap rf = (rf', Ret tt) -> kind c (set_node i rf' c).
Proof.
  intros Hi Hx Hr. pose proof (safe_wf _ _ _ _ _ _ HS Hi) as Hwf.
  pose proof (outside_applied any_env (OpSnapshot (D:=D) index snap) eq_refl rf) as Ela. simpl in Ela. rewrite Hr in Ela.
  destruct (snapshot_point _ _ _ _ (wf_log _ Hwf) Hr) as [->|(Hlt & Hf & Hs & Hc)].
  - eapply (calm_kind _ _ i rf rf); try done. by left.
  - by eapply (k_snapshot _ _ i rf rf' index snap).
Qed.

Lemma sendsnap_args i rf rf' j a ctx :
  nodes c !! i = Some rf -> sendSnapShot_begin (Z.of_nat j) rf = (rf', Ret (Some (a, ctx))) -> sends_snap c a.
Proof.
  intros Hi Hr. exists i, rf. split; [done|]. pose proof (wf_log _ (safe_wf _ _ _ _ _ _ HS Hi)) as Hl. revert Hr.
  unfold sendSnapShot_begin. m_exec. destruct (negb _); [done|]. m_exec.
  destruct (go_idx (nextIndex rf) _); [|done]. m_exec. destruct (go_idx (matchIndex rf) _); [|done]. m_exec.
  destruct (wp_run _ _ _ (wp_GetFirstLog (fun e r => r = rf /\ le_Index e = firstIndex (log rf)) rf Hl ltac:(by intros e _ He _))) as (r1 & e & He & -> & Hfi).
  unfold GetFirstLog in He. revert He. m_exec. destruct (go_idx (log rf) 0); [|done]. intros [= ->]. m_exec. by intros [= _ <- _].
Qed.

(** A restarted peer has the snapshot it had. *)
Lemma crash_facts i rf rf0 rf' now :
  nodes c !! i = Some rf -> stops_at rf rf0 -> Make (peers rf) (me rf) now (persister rf0) = (rf', Ret tt) ->
  firstIndex (log rf') = firstIndex (log rf) /\ snapshot rf' = snapshot rf /\ ReadSnapshot (persister rf') = snapshot rf'
  /\ lastApplied rf' = firstIndex (log rf') /\ commitIndex rf' = firstIndex (log rf').
Proof.
  intros Hi Hst Hr. pose proof (safe_wf _ _ _ _ _ _ HS Hi) as Hwf. destruct HS as [HI HG].
  destruct (node_peers n c h HI i rf Hi) as (_ & _ & Hp & _). destruct (restart_spec _ _ _ _ Hwf Hp Hst Hr) as (El & _).
  pose proof (make_applied _ _ _ _ _ Hr) as Hm. apply Make_ret in Hr as (Hrec & _ & _ & Eps & _ & Eca).
  assert (Esn : snapshot rf' = snapshot rf).
  { destruct Hst as [->|(env & op & Hex)]; [unfold persisted in Hp; congruence|].
    destruct (exec_stored env op rf Hp) as [Hs0|(_ & Hs0 & _)]; rewrite Hex in Hs0; simpl in Hs0; unfold persisted in *; [|congruence].
    destruct (exec_panic_snap env op rf rf0 Hwf Hex). congruence. }
  split_and!; try done; [by rewrite El| |congruence].
  rewrite Eps. unfold recovered in Hrec. repeat case_match; congruence.
Qed.

Lemma crash_kind i rf rf0 rf' now :
  nodes c !! i = Some rf -> stops_at rf rf0 -> Make (peers rf) (me rf) now (persister rf0) = (rf', Ret tt) -> kind c (restart i rf' c).
Proof. intros Hi Hst Hr. destruct (crash_facts _ _ _ _ _ Hi Hst Hr) as (? & ? & ? & ? & ?). by eapply (k_crash _ _ i rf rf'). Qed.

(** A step outside snapshots and delivery that runs one operation. *)
Lemma op_kind c' i rf rf' env op :
  nodes c !! i = Some rf -> outside op = true -> snaps op = false ->
  match op with OpRequestSendLog _ | OpStart _ => False | _ => True end -> exec env op rf = (rf', Ret tt) ->
  nodes c' = <[i := rf']> (nodes c) -> incs c' = incs c -> deliveries c' = deliveries c ->
  (forall a, in_transit c' a -> in_transit c a \/ sends_snap c a) -> kind c c'.
Proof. intros Hi Ho Hs Hop Hr. eapply calm_kind; [exact Hi|by eapply node_calm_log]. Qed.

End Safe.

(** Requests that are not InstallSnapshot. *)
Lemma transit_app c l (rest : list (Call (D:=D))) a :
  (forall call, call ∈ l -> snap_args call = None) -> rest ⊆ requests c ->
  (exists call, call ∈ l ++ rest /\ snap_args call = Some a) -> in_transit c a.
Proof.
  intros Hl Hr (call & [Hc|Hc]%elem_of_app & Ha); [rewrite (Hl _ Hc) in Ha; done|]. exists call. split; [by apply Hr|done].
Qed.

Lemma log_calls_args i inc (xs : list (SendLogArgs D * Z)) call : call ∈ log_calls i inc xs -> snap_args call = None.
Proof.
  unfold log_calls. intros ([x [a z]] & _ & Hs)%list_elem_of_omap. case_decide; [done|].
  destruct (sl_ShouldSendSnapShot a); [done|]. by injection Hs as <-.
Qed.

Lemma vote_calls_args k i inc a (call : Call (D:=D)) : call ∈ vote_calls k i inc a -> snap_args call = None.
Proof. unfold vote_calls. by intros (j & -> & _)%list_elem_of_fmap. Qed.

Lemma snap_tasks_no_delivery i inc (xs : list (SendLogArgs D * Z)) : filter (fun t => is_delivery t) (snap_tasks i inc xs) = [].
Proof.
  assert (Hall : forall t, t ∈ snap_tasks i inc xs -> is_delivery t = false).
  { intros t ([x [a z]] & _ & Hs)%list_elem_of_omap. case_decide; [done|]. destruct (sl_ShouldSendSnapShot a); [by injection Hs as <-|done]. }
  induction (snap_tasks i inc xs) as [|t l IH]; [done|]. rewrite filter_cons, decide_False; [apply IH; intros; apply Hall; by right|].
  rewrite (Hall t) by left. by intros ?.
Qed.

Lemma sub_requests c l1 (call : Call (D:=D)) l2 : requests c = l1 ++ call :: l2 -> l1 ++ l2 ⊆ requests c.
Proof. intros ->. set_solver. Qed.

Lemma still_kind c c' :
  nodes c' = nodes c -> incs c' = incs c -> tasks c' = tasks c -> (forall a, in_transit c' a -> in_transit c a) -> kind c c'.
Proof.
  intros Hn Hi Ht Ha. apply k_calm; [done|unfold deliveries; by rewrite Ht| |by left; apply Ha].
  intros i rf. rewrite Hn. exists rf. split; [done|apply calm_refl].
Qed.

(** Every step of a cluster is of one of these kinds. *)
Lemma step_kind n c h g c' : safe_at n c h g -> step c c' -> kind c c'.
Proof.
  intros HS Hst. destruct Hst as
    [i inc rf rf' now env o Hi Hinc Hr| e e1 e2 rf rf' He Hi _ Hr| i rf rf' cmd r Hi Hr | i inc rf rf' o Hi Hinc Hr
    | i inc j t1 t2 rf rf' o Ht Hi Hinc Hr | q1 call q2 a rf rf' env r Hq Ha Hi Hr | q1 call q2 a recode rf rf' env r Hq Ha Hi Hr
    | q1 call q2 a ctx rf rf' inc env r sp Hq Ha Hi Hinc Hr
    | q1 call q2 Hq | q1 call q2 Hq | q1 call r q2 Hq | q1 call r q2 a e1 e e2 rf rf' env t inc Hq Ha _ _ Hi ? ? ? reply Hr
    | q1 call r q2 a rf rf' env t t' inc Hq Ha _ _ Hi _ Hr | q1 call r q2 a recode rf rf' env inc Hq Ha _ _ Hi Hr
    | q1 call r q2 a ctx rf rf' env inc Hq Ha _ _ Hi Hr | q1 call r q2 Hq
    | t1 i inc lii t2 rf rf' Ht Hinc Hi Hr | i rf rf' index snap Hi Hx Hr | i inc rf rf' batch Hi Hinc Hno Hw Hr
    | t1 i inc batch t2 rf rf' Ht Hinc Hi Hg Hr | i rf rf0 rf' now Hi Hst Hr ].
  - destruct o; eapply (op_kind _ _ i rf rf' env (OpTicker (D:=D) now)); try done; try (by eapply ignore_ret); [|by left].
    intros b Hb. left. by eapply (transit_app _ _ (requests c)); [apply vote_calls_args| |exact Hb].
  - eapply (op_kind _ _ _ rf rf' any_env (OpDecide (D:=D) (el_args e) (el_tally e))); try done. by left.
  - eapply (calm_kind _ _ i rf rf'); try done; [by eapply start_calm|by left].
  - destruct o as [xs|]; eapply (op_kind _ _ _ rf rf' any_env (OpSendLogCore (D:=D))); try done; try (by eapply ignore_ret); [| |by left].
    + unfold deliveries. simpl. by rewrite filter_app, snap_tasks_no_delivery.
    + intros b Hb. left. by eapply (transit_app _ _ (requests c)); [apply log_calls_args| |exact Hb].
  - assert (Hd : forall c0, tasks c0 = t1 ++ t2 -> deliveries c0 = deliveries c).
    { intros c0 E. unfold deliveries. by rewrite E, Ht, !filter_app, filter_cons. }
    destruct o as [[a ctx]|]; eapply (op_kind _ _ _ rf rf' any_env (OpSendSnapShot (D:=D) (Z.of_nat j))); try done;
      try (by eapply ignore_ret); try (by apply Hd); [|by left].
    intros b (call & [->|Hc]%elem_of_cons & Hb); [right|left; by exists call]. injection Hb as <-. by eapply sendsnap_args.
  - eapply (op_kind _ _ _ rf rf' env (OpRequestVote (D:=D) a)); try done; [by eapply ignore_ret|].
    intros b Hb. left. by eapply (transit_app _ [] (q1 ++ q2)); [by intros ? ?%elem_of_nil|by eapply sub_requests|exact Hb].
  - eapply (calm_kind _ _ _ rf rf'); try done.
    + eapply sendlog_calm; [done| |exact Ha|exact Hi|exact Hr]. rewrite Hq. set_solver.
    + intros b Hb. left. by eapply (transit_app _ [] (q1 ++ q2)); [by intros ? ?%elem_of_nil|by eapply sub_requests|exact Hb].
  - by eapply install_kind.
  - apply still_kind; try done. intros b Hb. by eapply (transit_app _ [] (q1 ++ q2)); [by intros ? ?%elem_of_nil|by eapply sub_requests|exact Hb].
  - apply still_kind; try done. intros b (x & Hx & Hb). simpl in Hx. rewrite elem_of_app, elem_of_cons in Hx.
    destruct Hx as [Hx|[->|Hx]]; [exists x|exists call|exists x]; (split; [rewrite Hq; set_solver|done]).
  - by apply still_kind.
  - eapply (op_kind _ _ _ rf rf' env (OpVoteReply (D:=D) reply (el_tally e))); try done; [by eapply ignore_ret|by left].
  - eapply (op_kind _ _ _ rf rf' env (OpVoteReply (D:=D) _ t)); try done; [by eapply ignore_ret|by left].
  - eapply (op_kind _ _ _ rf rf' env (OpSendLogReply (Z.of_nat (c_dst call)) a recode r)); try done. by left.
  - eapply (op_kind _ _ _ rf rf' env (OpSnapShotReply (D:=D) (Z.of_nat (c_dst call)) ctx r)); try done. by left.
  - by apply still_kind.
  - pose proof (exec_log any_env (OpInstallSnapshotDone (D:=D) lii) I rf) as El. pose proof (exec_snap any_env (OpInstallSnapshotDone (D:=D) lii) eq_refl rf) as Es.
    simpl in El, Es. rewrite Hr in El, Es. unfold log_same, same_snap in El, Es. simpl in El, Es.
    eapply (k_installed _ _ t1 i inc lii t2 rf rf'); try done; [by rewrite El|by apply install_done_applied|].
    revert Hr. unfold installSnapshotDone, applySignal. m_exec.
    destruct (lastApplied rf <? lii); simpl; destruct (Z.ltb_spec (commitIndex rf) lii); simpl; intros [= <-]; simpl; lia.
  - by eapply snapshot_kind.
  - pose proof (collect_same _ _ _ Hr) as ->. eapply (k_collect _ _ i inc rf batch); try done. simpl. by rewrite list_insert_id.
  - by eapply (k_finish _ _ t1 i inc batch t2 rf rf').
  - by eapply crash_kind.
Qed.
End Moves.
