(* ===== verification/Replica.v ===== *)
(** A replicated service with snapshots: a server on every peer of a cluster, fed by the
    applier and by the goroutines that deliver installed snapshots.

    [Consumer] is what a server of such a service is: it starts from a peer that was just
    made, it handles one message of its apply channel at a time and may ask its peer to
    take a snapshot while it does, and clients act on it in between.  The theorems of this
    file are about every server that keeps the promises of [ConsumerOk].

    A step is a step of the cluster, one piece of a delivering goroutine, or one message
    handled by a server.  The mutex applySeqMu is [ln_seq]; the apply channel has no
    buffer, so that a message is in the hands of the server ([ln_inbox]) when the send
    completes.  The server of a crashed incarnation is cut off from the network and from
    storage and is dropped.  A goroutine that delivers an installed snapshot reads
    rf.snapshot when it sends.  Its index may be older by then, and that is allowed.  The
    theorems are about executions in which these goroutines come in time, before the peer
    has delivered past their index ([in_time]): nothing in raft.go ensures this, and
    KvDemo shows what happens otherwise. *)
From Stdlib Require Import ZArith Lia.
From stdpp Require Import base list numbers gmap relations.
From S2P Require Import Prelude RaftTypes RaftNode RaftVote RaftWf RaftSafe RaftLeader RaftSpec RaftCluster SharedLog ElectionSafety LogTree RaftLogs RaftMoves RaftHandlers SafetyInv SafetySteps SafetyLocal SafetyTerms SafetyLeader SafetyFollower SafetyRun SafetyProps RaftApply Delivery SnapMoves.

#[local] Open Scope Z_scope.

(** ** Servers *)

(** [cs_handle] gives the server and its peer after the message; [false]: it blocks. *)
Class Consumer (D S P : Type) :=
  { cs_boot : nat -> Raft D -> S;
    cs_handle : ApplyMsg D -> Raft D -> S -> S * Raft D * res bool;
    cs_piece : P -> M S unit }.

(** [holds s l]: the server has the state that the entries [l] lead to; [image l b]: the
    bytes are a snapshot of that state. *)
Class ConsumerOk (D S P : Type) `{LabGob D} `{!Consumer D S P}
    (holds : S -> list (LogEntry D) -> Prop) (image : list (LogEntry D) -> bytes -> Prop) : Prop :=
  { co_blank : forall i rf, ReadSnapshot (persister rf) = [] -> holds (cs_boot i rf) [];
    co_boot : forall i rf l, image l (ReadSnapshot (persister rf)) -> holds (cs_boot i rf) l;
    co_command : forall s l e rf, holds s l -> wf rf -> le_Index e = Z.of_nat (length l) + 1 -> is_Some (le_Data e) ->
      exists s' rf', cs_handle (commandMsg e) rf s = (s', rf', Ret true) /\ holds s' (l ++ [e])
        /\ (rf' = rf \/ exists snap, image (l ++ [e]) snap /\ Snapshot (le_Index e) snap rf = (rf', Ret tt));
    co_snapshot : forall s l l' snap idx t rf, holds s l -> image l' snap -> (length l <= length l')%nat ->
      exists s', cs_handle (snapshotMsg snap idx t) rf s = (s', rf, Ret true) /\ holds s' l';
    co_piece : forall s l p s', holds s l -> cs_piece p s = (s', Ret tt) -> holds s' l }.

Section Replica.
Context {D S P : Type} `{LabGobOk D} `{!Consumer D S P}.
Abbreviation Log := (list (LogEntry D)).
Implicit Types (rf : Raft D) (c : Cluster (D:=D)) (g : Ghost (D:=D)) (h : History).

(** ** State and steps *)

(** applySeqMu: free, held by the applier that has sent [k] entries of its batch, held by
    a snapshot goroutine before and after its send, or never unlocked again. *)
Inductive Seq :=
| SFree
| SApplier (batch : Log) (k : nat)
| SSnap (idx : Z) (sent : bool)
| SLost.

Record Lane := mkLane { ln_seq : Seq; ln_inbox : option (ApplyMsg D); ln_server : S }.

Record System := mkSystem { sy_cluster : Cluster (D:=D); sy_lanes : list Lane }.

Definition set_seq (x : Seq) (ln : Lane) : Lane := mkLane x (ln_inbox ln) (ln_server ln).

Definition set_lane (i : nat) (ln : Lane) (s : System) : System := mkSystem (sy_cluster s) (<[i := ln]> (sy_lanes s)).

(** Nothing happens to a log's first index, to a snapshot or to a delivery. *)
Definition undelivering c c' : Prop :=
  incs c' = incs c /\ deliveries c' = deliveries c
  /\ forall i rf rf', nodes c !! i = Some rf -> nodes c' !! i = Some rf' ->
       (firstIndex (log rf'), snapshot rf') = (firstIndex (log rf), snapshot rf).

Inductive rstep (s : System) : System -> Prop :=
| r_cluster c' :
    small_step (sy_cluster s) c' -> undelivering (sy_cluster s) c' -> rstep s (mkSystem c' (sy_lanes s))
| r_install l1 call l2 a ctx rf rf' inc env r x y :
    let c := sy_cluster s in
    requests c = l1 ++ call :: l2 -> c_req call = ReqSnap a ctx -> nodes c !! c_dst call = Some rf ->
    incs c !! c_dst call = Some inc -> RequestInstallSnapShot env a rf = (rf', Ret (r, Some (x, y))) ->
    rstep s (mkSystem (set_tasks (TInstalled (c_dst call) inc x :: tasks c)
               (set_responses ((call, Some (RepSnap r)) :: responses c)
                 (set_requests (l1 ++ l2) (set_node (c_dst call) rf' c)))) (sy_lanes s))
| r_collect i inc rf batch :
    let c := sy_cluster s in
    nodes c !! i = Some rf -> incs c !! i = Some inc -> (forall b, TApply i inc b ∉ tasks c) ->
    applyTicket_waits rf = (rf, Ret false) -> applyTicket_collect rf = (rf, Ret batch) ->
    rstep s (mkSystem (set_tasks (TApply i inc batch :: tasks c) c) (sy_lanes s))
| r_gate i inc rf ln batch gate :
    let c := sy_cluster s in
    nodes c !! i = Some rf -> incs c !! i = Some inc -> sy_lanes s !! i = Some ln -> ln_seq ln = SFree ->
    TApply i inc batch ∈ tasks c -> applyTicket_gate batch rf = (rf, Ret gate) ->
    rstep s (set_lane i (set_seq (match gate with GateWait => SFree | GateSkip => SLost | GateSend => SApplier batch 0 end) ln) s)
| r_send i ln batch k e :
    sy_lanes s !! i = Some ln -> ln_seq ln = SApplier batch k -> batch !! k = Some e -> ln_inbox ln = None ->
    rstep s (set_lane i (mkLane (SApplier batch (Datatypes.S k)) (Some (commandMsg e)) (ln_server ln)) s)
| r_finish i inc rf rf' ln batch t1 t2 :
    let c := sy_cluster s in
    let c' := set_tasks (t1 ++ t2) (set_node i rf' c) in
    nodes c !! i = Some rf -> incs c !! i = Some inc -> sy_lanes s !! i = Some ln ->
    ln_seq ln = SApplier batch (length batch) -> tasks c = t1 ++ TApply i inc batch :: t2 ->
    applyTicket_finish batch rf = (rf', Ret tt) ->
    rstep s (set_lane i (set_seq SFree ln) (mkSystem c' (sy_lanes s)))
| r_snap_lock i inc ln idx :
    incs (sy_cluster s) !! i = Some inc -> sy_lanes s !! i = Some ln -> ln_seq ln = SFree ->
    TInstalled i inc idx ∈ tasks (sy_cluster s) -> rstep s (set_lane i (set_seq (SSnap idx false) ln) s)
| r_snap_send i rf ln idx t :
    nodes (sy_cluster s) !! i = Some rf -> sy_lanes s !! i = Some ln -> ln_seq ln = SSnap idx false -> ln_inbox ln = None ->
    rstep s (set_lane i (mkLane (SSnap idx true) (Some (snapshotMsg (snapshot rf) idx t)) (ln_server ln)) s)
| r_snap_done i inc rf rf' ln idx t1 t2 :
    let c := sy_cluster s in
    let c' := set_tasks (t1 ++ t2) (set_node i rf' c) in
    nodes c !! i = Some rf -> incs c !! i = Some inc -> sy_lanes s !! i = Some ln -> ln_seq ln = SSnap idx true ->
    tasks c = t1 ++ TInstalled i inc idx :: t2 -> installSnapshotDone idx rf = (rf', Ret tt) ->
    rstep s (set_lane i (set_seq SFree ln) (mkSystem c' (sy_lanes s)))
| r_handle i rf rf' ln msg sv b :
    nodes (sy_cluster s) !! i = Some rf -> sy_lanes s !! i = Some ln -> ln_inbox ln = Some msg ->
    cs_handle msg rf (ln_server ln) = (sv, rf', Ret b) ->
    rstep s (set_lane i (mkLane (ln_seq ln) None sv) (mkSystem (set_node i rf' (sy_cluster s)) (sy_lanes s)))
| r_piece i ln p sv :
    sy_lanes s !! i = Some ln -> cs_piece p (ln_server ln) = (sv, Ret tt) ->
    rstep s (set_lane i (mkLane (ln_seq ln) (ln_inbox ln) sv) s)
| r_crash i rf rf0 rf' now :
    nodes (sy_cluster s) !! i = Some rf -> stops_at rf rf0 ->
    Make (peers rf) (me rf) now (persister rf0) = (rf', Ret tt) ->
    rstep s (set_lane i (mkLane SFree None (cs_boot i rf')) (mkSystem (restart i rf' (sy_cluster s)) (sy_lanes s))).

Definition system (n : nat) (now : nat -> Z) : System :=
  mkSystem (init n now) (imap (fun i rf => mkLane SFree None (cs_boot i rf)) (init_nodes n now)).

(** A goroutine that sends a snapshot does so before its peer has delivered past the index. *)
Definition in_time (s s' : System) : Prop :=
  forall i ln ln' rf idx, sy_lanes s !! i = Some ln -> ln_seq ln = SSnap idx false -> sy_lanes s' !! i = Some ln' ->
    ln_seq ln' = SSnap idx true -> nodes (sy_cluster s) !! i = Some rf -> lastApplied rf < idx.

(** Indices stay representable, as in [small_step], and snapshots are sent in time. *)
Definition run_step (s s' : System) : Prop := rstep s s' /\ small (sy_cluster s') /\ in_time s s'.

(** ** Committed prefixes *)

Definition committed (n : nat) g (l : Log) : Prop := exists T k, known n g T k /\ l `prefix_of` k.

Lemma committed_extends n g g' l : extends g g' -> committed n g l -> committed n g' l.
Proof. intros Hex (T & k & Hk & Hp). exists T, k. split; [by eapply known_extends|done]. Qed.

Lemma committed_in_order n c h g l l' : GI n c h g -> committed n g l -> committed n g l' -> comparable l l'.
Proof.
  intros HG (T & k & Hk & Hl) (T' & k' & Hk' & Hl'). destruct (known_agree n c h g HG _ _ _ _ Hk Hk') as [Hp|Hp].
  - eapply prefix_weak_total; [etrans; [exact Hl|exact Hp]|exact Hl'].
  - eapply prefix_weak_total; [exact Hl|etrans; [exact Hl'|exact Hp]].
Qed.

Lemma committed_snoc n c h g l e :
  GI n c h g -> committed n g l -> is_committed n g e -> le_Index e = Z.of_nat (length l) + 1 -> committed n g (l ++ [e]).
Proof.
  intros HG (T & k & Hk & Hl) (T' & k' & Hk' & _ & He) Hi. replace (Z.to_nat (le_Index e - 1)) with (length l) in He by lia.
  assert (Hsn : forall m, l `prefix_of` m -> m !! length l = Some e -> (l ++ [e]) `prefix_of` m).
  { intros m [w ->]. rewrite lookup_app_r, Nat.sub_diag by done. destruct w as [|x w]; [done|]. intros [= ->]. exists w. by rewrite <- app_assoc. }
  destruct (known_agree n c h g HG _ _ _ _ Hk Hk') as [Hp|Hp].
  - exists T', k'. split; [done|]. apply Hsn; [by etrans|done].
  - exists T, k. split; [done|]. apply Hsn; [done|]. by eapply prefix_lookup_Some.
Qed.

Lemma committed_nil n g : committed n g [].
Proof. exists 0, []. split; [by left|done]. Qed.

(** ** The invariant *)

Context (holds : S -> Log -> Prop) (image : Log -> bytes -> Prop) `{!ConsumerOk D S P holds image}.

(** The bytes are a snapshot of the committed entries up to [idx]. *)
Definition backed (n : nat) g (idx : Z) (data : bytes) : Prop :=
  idx = 0 /\ data = [] \/ exists l, committed n g l /\ idx = Z.of_nat (length l) /\ l <> [] /\ image l data.

(** What the server of a lane will hold once it has handled the message it was given. *)
Definition feeds (n : nat) g rf (ln : Lane) (l : Log) : Prop :=
  match ln_inbox ln with
  | None => holds (ln_server ln) l
  | Some msg => exists l0, holds (ln_server ln) l0 /\ committed n g l0 /\ (length l0 <= length l)%nat
      /\ ((exists e, msg = commandMsg e /\ l = l0 ++ [e] /\ le_Index e = Z.of_nat (length l0) + 1 /\ is_Some (le_Data e)
              /\ le_Index e <= commitIndex rf)
          \/ exists snap idx t, msg = snapshotMsg snap idx t /\ image l snap)
  end.

(** Batches and snapshots that wait to be delivered by the incarnation [inc] of [i]. *)
Record waiting (n : nat) g c (i inc : nat) rf : Prop :=
  { wa_applied : 0 <= lastApplied rf <= commitIndex rf;
    wa_batch : forall b, TApply i inc b ∈ tasks c ->
      (forall e, e ∈ b -> is_committed n g e)
      /\ exists b0, contig b0 b /\ b0 + Z.of_nat (length b) - 1 <= commitIndex rf
           /\ forall idx, TInstalled i inc idx ∈ tasks c -> lastApplied rf < idx -> b0 + Z.of_nat (length b) - 1 < idx;
    wa_snap : forall idx, TInstalled i inc idx ∈ tasks c -> idx <= firstIndex (log rf) }.

(** The snapshot the peer has was installed and waits to be delivered. *)
Definition pending c (i inc : nat) rf : Prop :=
  lastApplied rf < firstIndex (log rf) /\ TInstalled i inc (firstIndex (log rf)) ∈ tasks c.

(** The service has been given everything up to lastApplied, or it has been given a newer
    snapshot already and gets no command before lastApplied has caught up. *)
Definition level c (i inc : nat) rf (p : Z) : Prop :=
  p = lastApplied rf /\ (firstIndex (log rf) <= p \/ pending c i inc rf)
  \/ lastApplied rf < p <= firstIndex (log rf) /\ pending c i inc rf
     /\ forall b b0, TApply i inc b ∈ tasks c -> contig b0 b -> b <> [] -> b0 <= lastApplied rf.

(** [p] is how far the messages have come that were sent. *)
Definition progress c (i inc : nat) rf (sq : Seq) (p : Z) : Prop :=
  match sq with
  | SFree | SLost => level c i inc rf p
  | SSnap idx false => level c i inc rf p /\ TInstalled i inc idx ∈ tasks c
  | SApplier b k =>
      TApply i inc b ∈ tasks c /\ contig (lastApplied rf + 1) b /\ (k <= length b)%nat /\ b <> []
      /\ p = lastApplied rf + Z.of_nat k /\ (firstIndex (log rf) <= p \/ pending c i inc rf)
  | SSnap idx true =>
      TInstalled i inc idx ∈ tasks c /\ lastApplied rf < idx <= p /\ p <= firstIndex (log rf) /\ pending c i inc rf
  end.

Record lane_ok (n : nat) g c (i inc : nat) rf (ln : Lane) : Prop :=
  { lk_wait : waiting n g c i inc rf;
    lk_holds : exists l, committed n g l /\ feeds n g rf ln l /\ progress c i inc rf (ln_seq ln) (Z.of_nat (length l)) }.

Definition task_inc (t : Task (D:=D)) : option (nat * nat) :=
  match t with TApply i k _ | TInstalled i k _ => Some (i, k) | _ => None end.

Record system_ok (n : nat) h g (s : System) : Prop :=
  { sk_safe : safe_at n (sy_cluster s) h g;
    sk_len : length (sy_lanes s) = n /\ length (incs (sy_cluster s)) = n;
    sk_node : forall i rf, nodes (sy_cluster s) !! i = Some rf -> backed n g (firstIndex (log rf)) (snapshot rf);
    sk_call : forall a, in_transit (sy_cluster s) a -> backed n g (rs_LastIncludedIndex a) (rs_Data a);
    sk_lane : forall i inc rf ln, nodes (sy_cluster s) !! i = Some rf -> incs (sy_cluster s) !! i = Some inc ->
      sy_lanes s !! i = Some ln -> lane_ok n g (sy_cluster s) i inc rf ln;
    sk_past : forall t i k inc, t ∈ tasks (sy_cluster s) -> task_inc t = Some (i, k) -> incs (sy_cluster s) !! i = Some inc -> (k <= inc)%nat }.

Definition evolved (n : nat) g (s : System) : Prop := exists h' g', system_ok n h' g' s /\ extends g g'.

(** *** What a change elsewhere leaves alone *)

Lemma backed_extends n g g' idx data : extends g g' -> backed n g idx data -> backed n g' idx data.
Proof. intros Hex [?|(l & Hl & ?)]; [by left|right]. exists l. split; [by eapply committed_extends|done]. Qed.

Lemma feeds_mono n g g' rf rf' ln l : extends g g' -> commitIndex rf <= commitIndex rf' -> feeds n g rf ln l -> feeds n g' rf' ln l.
Proof.
  intros Hex Hc. unfold feeds. destruct (ln_inbox ln) as [msg|]; [|done].
  intros (l0 & Hh & Hl0 & Hle & Hcase). exists l0. split; [done|]. split; [by eapply committed_extends|]. split; [done|].
  destruct Hcase as [(e & ? & ? & ? & ? & ?)|?]; [left|by right]. exists e. split_and!; try done. lia.
Qed.

(** The tasks of a lane. *)
Definition same_tasks (i inc : nat) c c' : Prop :=
  forall t, task_inc t = Some (i, inc) -> t ∈ tasks c' <-> t ∈ tasks c.

Lemma same_apply i inc c c' b : same_tasks i inc c c' -> TApply i inc b ∈ tasks c' <-> TApply i inc b ∈ tasks c.
Proof. intros Hs. by apply Hs. Qed.

Lemma same_installed i inc c c' idx : same_tasks i inc c c' -> TInstalled i inc idx ∈ tasks c' <-> TInstalled i inc idx ∈ tasks c.
Proof. intros Hs. by apply Hs. Qed.

Lemma waiting_mono n g g' c c' i inc rf rf' :
  same_tasks i inc c c' -> extends g g' -> lastApplied rf' = lastApplied rf -> firstIndex (log rf) <= firstIndex (log rf') ->
  commitIndex rf <= commitIndex rf' -> waiting n g c i inc rf -> waiting n g' c' i inc rf'.
Proof.
  intros Ht Hex Ea Hf Hc [W1 W2 W3]. split.
  - lia.
  - intros b. rewrite (same_apply _ _ _ _ _ Ht). intros Hb. destruct (W2 b Hb) as (He & b0 & H1 & H2 & H3). split.
    { intros e Hin. eapply is_committed_extends; [done|by apply He]. }
    exists b0. split; [done|]. split; [lia|]. intros idx. rewrite (same_installed _ _ _ _ _ Ht), Ea. apply H3.
  - intros idx. rewrite (same_installed _ _ _ _ _ Ht). intros Hi. specialize (W3 _ Hi). lia.
Qed.

Lemma pending_same c c' i inc rf rf' :
  same_tasks i inc c c' -> lastApplied rf' = lastApplied rf -> firstIndex (log rf') = firstIndex (log rf) ->
  pending c' i inc rf' <-> pending c i inc rf.
Proof. intros Ht Ea Ef. unfold pending. by rewrite Ea, Ef, (same_installed _ _ _ _ _ Ht). Qed.

Lemma level_same c c' i inc rf rf' p :
  same_tasks i inc c c' -> lastApplied rf' = lastApplied rf -> firstIndex (log rf') = firstIndex (log rf) ->
  level c' i inc rf' p <-> level c i inc rf p.
Proof.
  intros Ht Ea Ef. unfold level. rewrite (pending_same c c' i inc rf rf'), Ea, Ef by done.
  by setoid_rewrite (same_apply i inc c c' _ Ht).
Qed.

Lemma progress_same c c' i inc rf rf' sq p :
  same_tasks i inc c c' -> lastApplied rf' = lastApplied rf -> firstIndex (log rf') = firstIndex (log rf) ->
  progress c i inc rf sq p -> progress c' i inc rf' sq p.
Proof.
  intros Ht Ea Ef. pose proof (level_same c c' i inc rf rf' p Ht Ea Ef) as Hl. pose proof (pending_same c c' i inc rf rf' Ht Ea Ef) as Hp.
  unfold progress. destruct sq as [|b k|idx [|]|]; rewrite ?Hl, ?Hp, ?Ea, ?Ef, ?(same_apply _ _ _ _ _ Ht), ?(same_installed _ _ _ _ _ Ht); done.
Qed.

Lemma lane_mono n g g' c c' i inc rf rf' ln :
  same_tasks i inc c c' -> extends g g' -> lastApplied rf' = lastApplied rf -> firstIndex (log rf') = firstIndex (log rf) ->
  commitIndex rf <= commitIndex rf' -> lane_ok n g c i inc rf ln -> lane_ok n g' c' i inc rf' ln.
Proof.
  intros Ht Hex Ea Ef Hc [W (l & Hl & Hfe & Hp)]. split; [eapply waiting_mono; try done; lia|].
  exists l. split; [by eapply committed_extends|]. split; [by eapply feeds_mono|by eapply progress_same].
Qed.

(** A change of one lane and its peer. *)
Lemma local_ok n h g s c' i rf rf' inc ln ln' :
  system_ok n h g s -> nodes (sy_cluster s) !! i = Some rf -> incs (sy_cluster s) !! i = Some inc -> sy_lanes s !! i = Some ln ->
  c' = sy_cluster s \/ small_step (sy_cluster s) c' ->
  nodes c' = <[i := rf']> (nodes (sy_cluster s)) -> incs c' = incs (sy_cluster s) ->
  (forall a, in_transit c' a -> in_transit (sy_cluster s) a) ->
  (forall t j k, task_inc t = Some (j, k) -> (j, k) <> (i, inc) -> t ∈ tasks c' <-> t ∈ tasks (sy_cluster s)) ->
  backed n g (firstIndex (log rf')) (snapshot rf') ->
  (forall h' g', safe_at n c' h' g' -> extends g g' -> lane_ok n g' c' i inc rf' ln') ->
  evolved n g (mkSystem c' (<[i := ln']> (sy_lanes s))).
Proof.
  intros HK Hi Hinc Hln Hc Hn Hincs Htr Htasks Hb Hlane. pose proof HK as [HS Hlen Hsn Hsc Hla Hpa].
  assert (Hsafe : exists h' g', safe_at n c' h' g' /\ extends g g').
  { destruct Hc as [->|Hst]; [exists h, g; split; [done|reflexivity]|]. eapply safe_later; [exact HS|by apply rtc_once]. }
  destruct Hsafe as (h' & g' & HS' & Hex). exists h', g'. split; [|done]. split; simpl; [done|by rewrite length_insert, Hincs| | | |].
  - intros j x. rewrite Hn. intros [(<- & <- & _)|[? Hj]]%list_lookup_insert_Some; eapply backed_extends; try done. by apply (Hsn j).
  - intros a Ha. eapply backed_extends; [done|]. by apply Hsc, Htr.
  - intros j k x y. rewrite Hn, Hincs. intros [(<- & <- & _)|[Hne Hj]]%list_lookup_insert_Some Hk Hy.
    + rewrite list_lookup_insert_eq in Hy by (by eapply lookup_lt_Some). injection Hy as <-. assert (k = inc) as -> by congruence. by apply (Hlane h').
    + rewrite list_lookup_insert_ne in Hy by done. eapply lane_mono; [|done..|by eapply Hla].
      intros t Ht. apply (Htasks t j k); [done|congruence].
  - intros t j k q Ht Hk. rewrite Hincs. intros Hq. destruct (decide ((j, k) = (i, inc))) as [[= -> ->]|Hne].
    + assert (q = inc) by congruence. lia.
    + eapply Hpa; [|exact Hk|exact Hq]. by apply (Htasks t j k).
Qed.

(** ** Steps of the cluster *)

Lemma elem_of_deliveries c t i k : task_inc t = Some (i, k) -> t ∈ tasks c <-> t ∈ deliveries c.
Proof. intros Ht. unfold deliveries. rewrite list_elem_of_filter. destruct t; simpl in *; naive_solver. Qed.

Lemma same_deliveries c c' i k : deliveries c' = deliveries c -> same_tasks i k c c'.
Proof. intros E t Ht. by rewrite !(elem_of_deliveries _ _ _ _ Ht), E. Qed.

Lemma deliveries_add c c' t i k : task_inc t = Some (i, k) -> tasks c' = t :: tasks c -> deliveries c' <> deliveries c.
Proof.
  intros Ht E Hd. apply (f_equal length) in Hd. unfold deliveries in Hd. rewrite E, filter_cons in Hd.
  rewrite decide_True in Hd by (by destruct t). simpl in Hd. lia.
Qed.

Lemma deliveries_drop c c' t i k t1 t2 :
  task_inc t = Some (i, k) -> tasks c = t1 ++ t :: t2 -> tasks c' = t1 ++ t2 -> deliveries c' <> deliveries c.
Proof.
  intros Ht E E' Hd. apply (f_equal length) in Hd. unfold deliveries in Hd. rewrite E, E', !filter_app, filter_cons in Hd.
  rewrite decide_True, !length_app in Hd by (by destruct t). simpl in Hd. lia.
Qed.

Lemma cluster_ok n h g s c' :
  system_ok n h g s -> small_step (sy_cluster s) c' -> undelivering (sy_cluster s) c' ->
  evolved n g (mkSystem c' (sy_lanes s)).
Proof.
  intros [HS Hlen Hsn Hsc Hla Hpa] Hst (Hinc & Hd & Hsame).
  destruct (safe_later _ _ _ _ _ HS (rtc_once _ _ Hst)) as (h' & g' & HS' & Hex). exists h', g'.
  assert (Hkind : (forall i rf', nodes c' !! i = Some rf' -> exists rf, nodes (sy_cluster s) !! i = Some rf /\ calm rf rf')
    /\ forall a, in_transit c' a -> in_transit (sy_cluster s) a \/ sends_snap (sy_cluster s) a).
  { destruct (step_kind _ _ _ _ _ HS (proj1 Hst)) as [_ _ Hn Ht|i inc rf rf' a _ _ _ _ _ Ht|i rf rf' x sn Hi Hn _ _ _ _ Hr Hf
      |i inc rf b _ _ _ _ _ Ht|t1 i inc b t2 rf rf' Ht Ht'|t1 i inc idx t2 rf rf' Ht Ht'|i rf rf' Hi -> _]; [done|exfalso..].
    - by eapply (deliveries_add _ _ (TInstalled i inc (rs_LastIncludedIndex a))).
    - assert (Hi' : nodes c' !! i = Some rf') by (rewrite Hn, list_lookup_insert_eq; [done|by eapply lookup_lt_Some]).
      specialize (Hsame _ _ _ Hi Hi'). injection Hsame as Hs _. lia.
    - by eapply (deliveries_add _ _ (TApply i inc b)).
    - by eapply (deliveries_drop _ _ (TApply i inc b)).
    - by eapply (deliveries_drop _ _ (TInstalled i inc idx)).
    - destruct (lookup_lt_is_Some_2 (incs (sy_cluster s)) i) as [inc Hk].
      { destruct Hlen as [_ ->]. rewrite <- (proj1 (inv_nodes _ _ _ (proj1 HS))). by eapply lookup_lt_Some. }
      simpl in Hinc. apply (f_equal (lookup i)) in Hinc. rewrite list_lookup_alter_eq, Hk in Hinc. injection Hinc. lia. }
  destruct Hkind as [Hn Ht]. split; [|done]. split; simpl; [done|by rewrite Hinc| | | |].
  - intros i rf' (rf & Hi & [-> -> _ _])%Hn. eapply backed_extends; [done|by apply (Hsn i)].
  - intros a [Ha|(i & rf & Hi & -> & ->)]%Ht; (eapply backed_extends; [done|]); [by apply Hsc|by apply (Hsn i)].
  - intros i inc rf' ln (rf & Hi & [Ef Es Ea Ec])%Hn. rewrite Hinc. intros Hk Hln.
    eapply lane_mono; [by apply same_deliveries|done..|by eapply Hla].
  - intros t i k inc Ht' Hk. rewrite Hinc. intros Hi. eapply Hpa; [|done..].
    rewrite (elem_of_deliveries _ _ _ _ Hk) in Ht'. rewrite (elem_of_deliveries _ _ _ _ Hk). by rewrite <- Hd.
Qed.

(** A restart. *)
Lemma crash_ok n h g s i rf rf0 rf' now :
  system_ok n h g s -> nodes (sy_cluster s) !! i = Some rf -> stops_at rf rf0 ->
  Make (peers rf) (me rf) now (persister rf0) = (rf', Ret tt) -> small (restart i rf' (sy_cluster s)) ->
  evolved n g (set_lane i (mkLane SFree None (cs_boot i rf')) (mkSystem (restart i rf' (sy_cluster s)) (sy_lanes s))).
Proof.
  intros [HS Hlen Hsn Hsc Hla Hpa] Hi Hst Hr Hsm.
  assert (Hstep : small_step (sy_cluster s) (restart i rf' (sy_cluster s))) by (split; [by eapply step_crash|done]).
  destruct (safe_later _ _ _ _ _ HS (rtc_once _ _ Hstep)) as (h' & g' & HS' & Hex). exists h', g'.
  destruct (crash_facts _ _ _ _ HS _ _ _ _ _ Hi Hst Hr) as (Ef & Es & Eps & Ea & Ec).
  assert (Hb : backed n g' (firstIndex (log rf')) (snapshot rf')).
  { rewrite Ef, Es. eapply backed_extends; [done|by apply (Hsn i)]. }
  split; [|done]. split; simpl; [done|by rewrite length_insert, length_alter| | | |].
  - intros j x [(<- & <- & _)|[_ Hj]]%list_lookup_insert_Some; [done|]. eapply backed_extends; [done|by apply (Hsn j)].
  - intros a Ha. eapply backed_extends; [done|]. by apply Hsc.
  - intros j k x y [(<- & <- & _)|[Hne Hj]]%list_lookup_insert_Some Hk Hy.
    + rewrite list_lookup_insert_eq in Hy by (destruct Hlen as [-> _]; rewrite <- (proj1 (inv_nodes _ _ _ (proj1 HS))); by eapply lookup_lt_Some).
      injection Hy as <-. rewrite list_lookup_alter_eq in Hk. destruct (incs (sy_cluster s) !! i) as [inc|] eqn:Hinc; [|done].
      injection Hk as <-.
      assert (Hnone : forall t, task_inc t = Some (i, Datatypes.S inc) -> t ∉ tasks (sy_cluster s)).
      { intros t Ht Hin. pose proof (Hpa _ _ _ _ Hin Ht Hinc). lia. }
      split.
      * split; simpl; [|by intros b Hin; exfalso; eapply Hnone; [|exact Hin]..]. rewrite Ea, Ec.
        destruct Hb as [[-> _]|(l & _ & -> & _)]; lia.
      * destruct Hb as [[Hz Hsz]|(l & Hl & Hlen' & _ & Him)].
        -- exists []. split; [apply committed_nil|]. split; [apply (co_blank (P:=P)); congruence|]. left. simpl. split; [lia|left; lia].
        -- exists l. split; [done|]. split; [apply (co_boot (P:=P)); congruence|]. left. simpl. split; [lia|left; lia].
    + rewrite list_lookup_insert_ne in Hy by done. rewrite list_lookup_alter_ne in Hk by done.
      by eapply lane_mono; [| | | | |by eapply Hla].
  - intros t j k inc Ht Hk. destruct (decide (i = j)) as [<-|Hne].
    + rewrite list_lookup_alter_eq. destruct (incs (sy_cluster s) !! i) as [q|] eqn:Hq; [|done]. intros [= <-].
      pose proof (Hpa _ _ _ _ Ht Hk Hq). lia.
    + rewrite list_lookup_alter_ne by done. intros Hq. by eapply Hpa.
Qed.

(** ** Steps of the delivering goroutines *)

Lemma contig_unique (b b' : Z) (l : Log) : l <> [] -> contig b l -> contig b' l -> b = b'.
Proof. destruct l as [|e l]; [done|]. intros _ [E _]%contig_cons [E' _]%contig_cons. lia. Qed.

Lemma lane_exists n h g s i rf : system_ok n h g s -> nodes (sy_cluster s) !! i = Some rf -> exists ln, sy_lanes s !! i = Some ln.
Proof.
  intros HK Hi. destruct (lookup_lt_is_Some_2 (sy_lanes s) i) as [ln Hln]; [|by exists ln].
  rewrite (proj1 (sk_len _ _ _ _ HK)), <- (proj1 (inv_nodes _ _ _ (proj1 (sk_safe _ _ _ _ HK)))). by eapply lookup_lt_Some.
Qed.

Lemma collect_length rf rf' (batch : Log) :
  applyTicket_collect rf = (rf', Ret batch) -> Z.of_nat (length batch) = Z.of_nat (Z.to_nat (commitIndex rf - lastApplied rf)).
Proof.
  unfold applyTicket_collect. m_exec. intros Hm. apply m_map_ret in Hm as [_ HF]; [|intros; by eapply logAt_same].
  apply Forall2_length in HF. rewrite <- HF. unfold range. by rewrite length_fmap, length_seq.
Qed.

(** A task is added to a lane or taken from it. *)
Lemma add_other c c' (t0 : Task (D:=D)) i inc :
  task_inc t0 = Some (i, inc) -> tasks c' = t0 :: tasks c ->
  forall t j k, task_inc t = Some (j, k) -> (j, k) <> (i, inc) -> t ∈ tasks c' <-> t ∈ tasks c.
Proof.
  intros H0' E t j k Ht Hne. rewrite E, elem_of_cons. split; [|by right]. intros [->|?]; [|done]. congruence.
Qed.

Lemma drop_other c c' (t0 : Task (D:=D)) i inc t1 t2 :
  task_inc t0 = Some (i, inc) -> tasks c = t1 ++ t0 :: t2 -> tasks c' = t1 ++ t2 ->
  forall t j k, task_inc t = Some (j, k) -> (j, k) <> (i, inc) -> t ∈ tasks c' <-> t ∈ tasks c.
Proof.
  intros H0' E E' t j k Ht Hne. rewrite E, E', !elem_of_app, elem_of_cons. split; [tauto|]. intros [?|[->|?]]; [tauto|congruence|tauto].
Qed.

Lemma install_ok n h g s l1 call l2 a ctx rf rf' inc env r x y :
  let c := sy_cluster s in
  let c' := set_tasks (TInstalled (c_dst call) inc x :: tasks c)
              (set_responses ((call, Some (RepSnap r)) :: responses c) (set_requests (l1 ++ l2) (set_node (c_dst call) rf' c))) in
  system_ok n h g s -> requests c = l1 ++ call :: l2 -> c_req call = ReqSnap a ctx -> nodes c !! c_dst call = Some rf ->
  incs c !! c_dst call = Some inc -> RequestInstallSnapShot env a rf = (rf', Ret (r, Some (x, y))) -> small c' ->
  evolved n g (mkSystem c' (sy_lanes s)).
Proof.
  intros c c' HK Hq Ha Hi Hinc Hr Hsm. set (i := c_dst call) in *.
  destruct (lane_exists _ _ _ _ _ _ HK Hi) as [ln Hln]. rewrite <- (list_insert_id (sy_lanes s) i ln Hln).
  assert (Hin : call ∈ requests c) by (rewrite Hq; set_solver).
  destruct (install_facts _ _ _ _ (sk_safe _ _ _ _ HK) _ _ _ _ _ _ _ _ _ _ Hin Ha Hi Hr) as (-> & Ef & Es & Ea & Ec & Hf & Hcm).
  eapply (local_ok n h g s c' i rf rf' inc ln ln); try done.
  - right. split; [|done]. by eapply (step_deliver_snap c l1 call l2 a ctx rf rf' inc env r (Some (_, y))).
  - intros b (q & Hq' & Hb). exists q. split; [|done]. change (sy_cluster s) with c. rewrite Hq. simpl in Hq'. set_solver.
  - by apply (add_other c c' (TInstalled i inc (rs_LastIncludedIndex a))).
  - rewrite Ef, Es. apply (sk_call _ _ _ _ HK). exists call. split; [done|]. unfold snap_args. by rewrite Ha.
  - intros h' g' _ Hex. destruct (sk_lane _ _ _ _ HK i inc rf ln Hi Hinc Hln) as [[W1 W2 W3] (l & Hl & Hfe & Hp)].
    assert (Hap : forall b, TApply i inc b ∈ tasks c' <-> TApply i inc b ∈ tasks c) by (intros b; simpl; rewrite elem_of_cons; naive_solver).
    assert (Hto : forall idx, TInstalled i inc idx ∈ tasks c -> TInstalled i inc idx ∈ tasks c') by (intros idx ?; by right).
    assert (Hpend : pending c' i inc rf') by (split; [lia|rewrite Ef; by left]).
    split.
    + split; [lia| |].
      * intros b. rewrite Hap. intros Hb. destruct (W2 b Hb) as (He & b0 & B1 & B2 & B3). split.
        { intros e He'. eapply is_committed_extends; [done|by apply He]. }
        exists b0. split; [done|]. split; [lia|]. intros idx [[= ->]|Hidx]%elem_of_cons; [lia|]. rewrite Ea. by apply B3.
      * intros idx [[= ->]|Hidx]%elem_of_cons; [lia|]. specialize (W3 _ Hidx). lia.
    + exists l. split; [by eapply committed_extends|]. split; [eapply feeds_mono; [done| |done]; lia|].
      assert (Hlev : level c i inc rf (Z.of_nat (length l)) -> level c' i inc rf' (Z.of_nat (length l))).
      { intros [[Hp0 _]|(Hp0 & _ & Hp1)]; [left; split; [lia|by right]|right]. split; [lia|]. split; [done|].
        intros b b0. rewrite Hap, Ea. apply Hp1. }
      destruct (ln_seq ln) as [|b k|idx [|]|]; simpl in *.
      * by apply Hlev.
      * rewrite Ea. destruct Hp as (P1 & P2 & P3 & P4 & P5 & _). split_and!; try done; by right.
      * rewrite Ea. destruct Hp as (P1 & P2 & P3 & _). split_and!; try done; [by apply Hto|lia..].
      * destruct Hp as [P1 P2]. split; [by apply Hlev|by apply Hto].
      * by apply Hlev.
Qed.

Lemma collect_ok n h g s i inc rf batch :
  let c := sy_cluster s in
  let c' := set_tasks (TApply i inc batch :: tasks c) c in
  system_ok n h g s -> nodes c !! i = Some rf -> incs c !! i = Some inc -> (forall b, TApply i inc b ∉ tasks c) ->
  applyTicket_waits rf = (rf, Ret false) -> applyTicket_collect rf = (rf, Ret batch) -> small c' ->
  evolved n g (mkSystem c' (sy_lanes s)).
Proof.
  intros c c' HK Hi Hinc Hno Hw Hr Hsm. destruct (lane_exists _ _ _ _ _ _ HK Hi) as [ln Hln].
  rewrite <- (list_insert_id (sy_lanes s) i ln Hln). pose proof (sk_safe _ _ _ _ HK) as HS.
  assert (Hid : set_node i rf c = c) by (unfold set_node; rewrite list_insert_id by done; by destruct c).
  eapply (local_ok n h g s c' i rf rf inc ln ln); try done.
  - right. split; [|done]. unfold c'. rewrite <- Hid at 2. by eapply (step_apply_collect c i inc rf rf batch).
  - simpl. by rewrite list_insert_id.
  - by apply (add_other c c' (TApply i inc batch)).
  - by apply (sk_node _ _ _ _ HK i).
  - intros h' g' _ Hex. destruct (sk_lane _ _ _ _ HK i inc rf ln Hi Hinc Hln) as [[W1 W2 W3] (l & Hl & Hfe & Hp)].
    pose proof (wf_log _ (safe_wf _ _ _ _ _ _ HS Hi)) as Hlog.
    pose proof (not_waiting _ Hlog Hw) as Hwait.
    assert (Hin : forall idx, TInstalled i inc idx ∈ tasks c' <-> TInstalled i inc idx ∈ tasks c) by (intros idx; simpl; rewrite elem_of_cons; naive_solver).
    split.
    + split; [lia| |].
      * intros b [[= ->]|Hb]%elem_of_cons; [|by apply Hno in Hb]. split.
        { intros e He. eapply is_committed_extends; [exact Hex|]. by eapply (collected_committed n c h g i rf rf batch). }
        exists (lastApplied rf + 1). split; [by eapply collect_contig|]. split.
        { rewrite (collect_length _ _ _ Hr). lia. }
        intros idx Hidx%Hin%W3. lia.
      * intros idx Hidx%Hin. by apply W3.
    + exists l. split; [by eapply committed_extends|]. split; [eapply feeds_mono; [done| |done]; lia|].
      assert (Hlev : level c i inc rf (Z.of_nat (length l)) -> level c' i inc rf (Z.of_nat (length l))).
      { intros [[Hp0 _]|(Hp0 & [Hpd _] & _)]; [left; split; [lia|left; lia]|lia]. }
      destruct (ln_seq ln) as [|b k|idx [|]|]; simpl in *; try (by apply Hlev).
      * destruct Hp as (P1 & _). by apply Hno in P1.
      * destruct Hp as (_ & _ & _ & Hpd & _). lia.
      * destruct Hp as [P1 P2]. split; [by apply Hlev|by right].
Qed.

Lemma lane_peer n h g s i ln :
  system_ok n h g s -> sy_lanes s !! i = Some ln ->
  exists rf inc, nodes (sy_cluster s) !! i = Some rf /\ incs (sy_cluster s) !! i = Some inc /\ lane_ok n g (sy_cluster s) i inc rf ln.
Proof.
  intros HK Hln. pose proof (lookup_lt_Some _ _ _ Hln) as Hlt. destruct (sk_len _ _ _ _ HK) as [El Ei]. rewrite El in Hlt.
  destruct (lookup_lt_is_Some_2 (nodes (sy_cluster s)) i) as [rf Hi]; [by rewrite (proj1 (inv_nodes _ _ _ (proj1 (sk_safe _ _ _ _ HK))))|].
  destruct (lookup_lt_is_Some_2 (incs (sy_cluster s)) i) as [inc Hinc]; [by rewrite Ei|].
  exists rf, inc. split; [done|]. split; [done|]. by eapply sk_lane.
Qed.

(** A step that only changes a lane. *)
Lemma lane_change n h g s i ln ln' :
  system_ok n h g s -> sy_lanes s !! i = Some ln ->
  (forall rf inc, nodes (sy_cluster s) !! i = Some rf -> incs (sy_cluster s) !! i = Some inc ->
     lane_ok n g (sy_cluster s) i inc rf ln -> lane_ok n g (sy_cluster s) i inc rf ln') ->
  evolved n g (set_lane i ln' s).
Proof.
  intros HK Hln Hch. destruct (lane_peer _ _ _ _ _ _ HK Hln) as (rf & inc & Hi & Hinc & Hok). specialize (Hch _ _ Hi Hinc Hok).
  eapply (local_ok n h g s (sy_cluster s) i rf rf inc ln ln'); try done; [by left|by rewrite list_insert_id|by apply (sk_node _ _ _ _ HK i)|].
  intros h' g' _ Hex. by eapply lane_mono.
Qed.

Lemma gate_ok n h g s i inc rf ln batch gate :
  let c := sy_cluster s in
  system_ok n h g s -> nodes c !! i = Some rf -> incs c !! i = Some inc -> sy_lanes s !! i = Some ln -> ln_seq ln = SFree ->
  TApply i inc batch ∈ tasks c -> applyTicket_gate batch rf = (rf, Ret gate) ->
  evolved n g
    (set_lane i (set_seq (match gate with GateWait => SFree | GateSkip => SLost | GateSend => SApplier batch 0 end) ln) s).
Proof.
  intros c HK Hi Hinc Hln Hseq Ht Hg. eapply lane_change; [done..|]. intros rf0 inc0 Hi0 Hinc0 [W (l & Hl & Hfe & Hp)].
  assert (rf0 = rf) as -> by (unfold c in *; congruence). assert (inc0 = inc) as -> by (unfold c in *; congruence).
  split; [done|]. exists l. split; [done|]. split; [done|]. rewrite Hseq in Hp. destruct gate; simpl; [done|done|].
  destruct (wa_batch _ _ _ _ _ _ W batch Ht) as (_ & b0 & Hc & _). pose proof (gate_send _ _ _ Hc Hg) as ->.
  assert (Hne : batch <> []) by (intros ->; by unfold applyTicket_gate in Hg).
  destruct Hp as [[Hp Hmode]|(_ & _ & Hold)]; [|specialize (Hold _ _ Ht Hc Hne); lia].
  split_and!; try done; lia.
Qed.

Lemma send_ok n h g s i ln batch k e :
  system_ok n h g s -> sy_lanes s !! i = Some ln -> ln_seq ln = SApplier batch k -> batch !! k = Some e -> ln_inbox ln = None ->
  evolved n g (set_lane i (mkLane (SApplier batch (Datatypes.S k)) (Some (commandMsg e)) (ln_server ln)) s).
Proof.
  intros HK Hln Hseq He Hin. eapply lane_change; [done..|]. intros rf inc Hi Hinc [W (l & Hl & Hfe & Hp)].
  rewrite Hseq in Hp. destruct Hp as (P1 & P2 & P3 & P4 & P5 & P6). unfold feeds in Hfe. rewrite Hin in Hfe.
  destruct (wa_batch _ _ _ _ _ _ W batch P1) as (Hcm & b0 & Hc & Hb & _). pose proof (contig_unique _ _ _ P4 P2 Hc) as <-.
  pose proof (P2 _ _ He) as Hidx. pose proof (lookup_lt_Some _ _ _ He) as Hlt.
  assert (Hec : is_committed n g e) by (apply Hcm; by eapply list_elem_of_lookup_2).
  pose proof (sk_safe _ _ _ _ HK) as [HI HG]. split; [done|]. exists (l ++ [e]). split; [eapply committed_snoc; [exact HG|done..|lia]|].
  split; [|simpl; rewrite length_app; simpl; split_and!; try done; [lia|destruct P6; [left; lia|by right]]].
  unfold feeds. simpl. exists l. split; [done|]. split; [done|]. split; [rewrite length_app; lia|]. left. exists e.
  split_and!; try done; [lia|by eapply is_committed_data|lia].
Qed.

Lemma snap_lock_ok n h g s i inc ln idx :
  system_ok n h g s -> incs (sy_cluster s) !! i = Some inc -> sy_lanes s !! i = Some ln -> ln_seq ln = SFree ->
  TInstalled i inc idx ∈ tasks (sy_cluster s) -> evolved n g (set_lane i (set_seq (SSnap idx false) ln) s).
Proof.
  intros HK Hinc Hln Hseq Ht. eapply lane_change; [done..|]. intros rf inc0 _ Hinc0 [W (l & Hl & Hfe & Hp)].
  assert (inc0 = inc) as -> by congruence. split; [done|]. exists l. split; [done|]. split; [done|]. rewrite Hseq in Hp. by split.
Qed.

Lemma snap_send_ok n h g s i rf ln idx t :
  system_ok n h g s -> nodes (sy_cluster s) !! i = Some rf -> sy_lanes s !! i = Some ln -> ln_seq ln = SSnap idx false -> ln_inbox ln = None ->
  lastApplied rf < idx ->
  evolved n g (set_lane i (mkLane (SSnap idx true) (Some (snapshotMsg (snapshot rf) idx t)) (ln_server ln)) s).
Proof.
  intros HK Hi Hln Hseq Hin Hlt. eapply lane_change; [done..|]. intros rf0 inc Hi0 Hinc [W (l & Hl & Hfe & Hp)].
  assert (rf0 = rf) as -> by congruence. rewrite Hseq in Hp. destruct Hp as [Hlev Ht]. unfold feeds in Hfe. rewrite Hin in Hfe.
  pose proof (wa_snap _ _ _ _ _ _ W _ Ht). pose proof (wa_applied _ _ _ _ _ _ W).
  assert (Hpd : pending (sy_cluster s) i inc rf /\ Z.of_nat (length l) <= firstIndex (log rf)).
  { destruct Hlev as [(Hp & [Hf|Hpd])|(Hp & Hpd & _)]; [lia|split; [done|lia]|split; [done|lia]]. }
  destruct (sk_node _ _ _ _ HK i rf Hi) as [[Hz _]|(l' & Hl' & Hlen & _ & Him)]; [lia|].
  split; [done|]. exists l'. split; [done|]. split; [|simpl; split_and!; [done|lia|lia|lia|apply Hpd]].
  unfold feeds. simpl. exists l. split; [done|]. split; [done|]. split; [lia|]. right. by exists (snapshot rf), idx, t.
Qed.

Lemma sends_in_time s i rf ln ln' idx :
  nodes (sy_cluster s) !! i = Some rf -> sy_lanes s !! i = Some ln -> ln_seq ln = SSnap idx false -> ln_seq ln' = SSnap idx true ->
  in_time s (set_lane i ln' s) -> lastApplied rf < idx.
Proof.
  intros Hi Hln Hs Hs' Ht. refine (Ht i ln ln' rf idx Hln Hs _ Hs' Hi). apply list_lookup_insert_eq. by eapply lookup_lt_Some.
Qed.

Lemma lane_piece_ok n h g s i ln p sv :
  system_ok n h g s -> sy_lanes s !! i = Some ln -> cs_piece p (ln_server ln) = (sv, Ret tt) ->
  evolved n g (set_lane i (mkLane (ln_seq ln) (ln_inbox ln) sv) s).
Proof.
  intros HK Hln Hr. eapply lane_change; [done..|]. intros rf inc Hi Hinc [W (l & Hl & Hfe & Hp)]. split; [done|].
  exists l. split; [done|]. split; [|done]. unfold feeds in *. simpl. destruct (ln_inbox ln) as [msg|].
  - destruct Hfe as (l0 & Hh & ?). exists l0. split; [by eapply co_piece|done].
  - by eapply co_piece.
Qed.

Lemma gate_opens rf (batch : Log) : batch <> [] -> contig (lastApplied rf + 1) batch -> applyTicket_gate batch rf = (rf, Ret GateSend).
Proof.
  intros Hne Hc. destruct batch as [|e b]; [done|]. apply contig_cons in Hc as [He _]. unfold applyTicket_gate. m_exec.
  rewrite He. rewrite Z.eqb_refl. simpl. destruct (Z.leb_spec (lastApplied rf + 1) (lastApplied rf)); [lia|done].
Qed.

(** applyTicket_finish touches nothing but lastApplied. *)
Lemma finish_frame (batch : Log) rf rf' :
  applyTicket_finish batch rf = (rf', Ret tt) ->
  log rf' = log rf /\ snapshot rf' = snapshot rf /\ commitIndex rf' = commitIndex rf.
Proof. unfold applyTicket_finish. destruct (list.last batch); m_exec; [case_match|]; by intros [= <-]. Qed.

Lemma finish_ok n h g s i inc rf rf' ln batch t1 t2 :
  let c := sy_cluster s in
  let c' := set_tasks (t1 ++ t2) (set_node i rf' c) in
  system_ok n h g s -> nodes c !! i = Some rf -> incs c !! i = Some inc -> sy_lanes s !! i = Some ln ->
  ln_seq ln = SApplier batch (length batch) -> tasks c = t1 ++ TApply i inc batch :: t2 ->
  applyTicket_finish batch rf = (rf', Ret tt) -> small c' ->
  evolved n g (set_lane i (set_seq SFree ln) (mkSystem c' (sy_lanes s))).
Proof.
  intros c c' HK Hi Hinc Hln Hseq Ht Hr Hsm.
  destruct (sk_lane _ _ _ _ HK i inc rf ln Hi Hinc Hln) as [[W1 W2 W3] (l & Hl & Hfe & Hp)]. rewrite Hseq in Hp.
  destruct Hp as (P1 & P2 & P3 & P4 & P5 & P6). destruct (finish_frame _ _ _ Hr) as (El & Es & Ec).
  pose proof (applier_done_contig _ _ _ P4 P2 Hr) as Ea.
  destruct (W2 _ P1) as (_ & b0 & Hb0 & Hcm & Hpd). pose proof (contig_unique _ _ _ P4 P2 Hb0) as <-.
  eapply (local_ok n h g s c' i rf rf' inc ln (set_seq SFree ln)); try done.
  - right. split; [|done]. eapply (step_apply_finish c t1 i inc batch t2 rf rf'); try done. by apply gate_opens.
  - by eapply (drop_other c c' (TApply i inc batch)).
  - rewrite El, Es. by apply (sk_node _ _ _ _ HK i).
  - intros h' g' _ Hex.
    assert (Hap : forall b, TApply i inc b ∈ tasks c' -> TApply i inc b ∈ tasks c) by (intros b; rewrite Ht; simpl; rewrite !elem_of_app, elem_of_cons; tauto).
    assert (Hin : forall idx, TInstalled i inc idx ∈ tasks c' <-> TInstalled i inc idx ∈ tasks c)
      by (intros idx; rewrite Ht; simpl; rewrite !elem_of_app, elem_of_cons; naive_solver).
    split.
    + split; [lia| |].
      * intros b Hb%Hap. destruct (W2 b Hb) as (He & b1 & B1 & B2 & B3). split.
        { intros e He'. eapply is_committed_extends; [done|by apply He]. }
        exists b1. split; [done|]. split; [lia|]. intros idx Hidx%Hin Hlt. apply B3; [done|lia].
      * intros idx Hidx%Hin. rewrite El. by apply W3.
    + exists l. split; [by eapply committed_extends|]. split; [eapply (feeds_mono n g g' rf rf' ln); [done| |done]; lia|].
      left. split; [lia|]. unfold pending. rewrite El, Hin. destruct P6 as [?|[Hlt Hti]]; [by left|right].
      split; [|done]. specialize (Hpd _ Hti Hlt). lia.
Qed.

(** installSnapshotDone touches lastApplied and commitIndex. *)
Lemma installed_frame idx rf rf' :
  installSnapshotDone idx rf = (rf', Ret tt) ->
  log rf' = log rf /\ snapshot rf' = snapshot rf /\ lastApplied rf' = Z.max (lastApplied rf) idx /\ commitIndex rf' = Z.max (commitIndex rf) idx.
Proof.
  unfold installSnapshotDone, applySignal. m_exec.
  destruct (Z.ltb_spec (lastApplied rf) idx); simpl; destruct (Z.ltb_spec (commitIndex rf) idx); simpl; intros [= <-]; simpl; split_and!; try done; lia.
Qed.

Lemma snap_done_ok n h g s i inc rf rf' ln idx t1 t2 :
  let c := sy_cluster s in
  let c' := set_tasks (t1 ++ t2) (set_node i rf' c) in
  system_ok n h g s -> nodes c !! i = Some rf -> incs c !! i = Some inc -> sy_lanes s !! i = Some ln -> ln_seq ln = SSnap idx true ->
  tasks c = t1 ++ TInstalled i inc idx :: t2 -> installSnapshotDone idx rf = (rf', Ret tt) -> small c' ->
  evolved n g (set_lane i (set_seq SFree ln) (mkSystem c' (sy_lanes s))).
Proof.
  intros c c' HK Hi Hinc Hln Hseq Ht Hr Hsm.
  destruct (sk_lane _ _ _ _ HK i inc rf ln Hi Hinc Hln) as [[W1 W2 W3] (l & Hl & Hfe & Hp)]. rewrite Hseq in Hp.
  destruct Hp as (P1 & P2 & P3 & [Hlt Hti]). destruct (installed_frame _ _ _ Hr) as (El & Es & Ea & Ec).
  eapply (local_ok n h g s c' i rf rf' inc ln (set_seq SFree ln)); try done.
  - right. split; [|done]. by eapply (step_installed c t1 i inc idx t2 rf rf').
  - by eapply (drop_other c c' (TInstalled i inc idx)).
  - rewrite El, Es. by apply (sk_node _ _ _ _ HK i).
  - intros h' g' _ Hex.
    assert (Hap : forall b, TApply i inc b ∈ tasks c' <-> TApply i inc b ∈ tasks c)
      by (intros b; rewrite Ht; simpl; rewrite !elem_of_app, elem_of_cons; naive_solver).
    assert (Hin : forall x, TInstalled i inc x ∈ tasks c' -> TInstalled i inc x ∈ tasks c)
      by (intros x; rewrite Ht; simpl; rewrite !elem_of_app, elem_of_cons; tauto).
    assert (Hkeep : forall x, x <> idx -> TInstalled i inc x ∈ tasks c -> TInstalled i inc x ∈ tasks c')
      by (intros x Hx; rewrite Ht; simpl; rewrite !elem_of_app, elem_of_cons; naive_solver).
    split.
    + split; [lia| |].
      * intros b Hb%Hap. destruct (W2 b Hb) as (He & b1 & B1 & B2 & B3). split.
        { intros e He'. eapply is_committed_extends; [done|by apply He]. }
        exists b1. split; [done|]. split; [lia|]. intros x Hx%Hin Hlt'. apply B3; [done|lia].
      * intros x Hx%Hin. rewrite El. by apply W3.
    + exists l. split; [by eapply committed_extends|]. split; [eapply (feeds_mono n g g' rf rf' ln); [done| |done]; lia|].
      assert (Hpd : idx < firstIndex (log rf) -> pending c' i inc rf').
      { intros Hx. split; rewrite El; [lia|]. apply Hkeep; [lia|done]. }
      change (level c' i inc rf' (Z.of_nat (length l))). unfold level. rewrite El. destruct (Z.eq_dec (Z.of_nat (length l)) idx) as [Heq|Hne].
      * left. split; [lia|]. destruct (Z.eq_dec idx (firstIndex (log rf))); [left; lia|right; apply Hpd; lia].
      * right. split; [lia|]. split; [apply Hpd; lia|]. intros b b1 Hb%Hap Hc Hnb.
        destruct (W2 b Hb) as (_ & b2 & B1 & _ & B3). pose proof (contig_unique _ _ _ Hnb Hc B1) as <-.
        specialize (B3 _ P1 ltac:(lia)). assert (0 < length b)%nat by (destruct b; [done|simpl; lia]). lia.
Qed.

(** ** A message is handled *)

(** What the sent messages can be ahead of: a position above the first index is that of
    a server that no snapshot has overtaken. *)
Lemma above_first n g c i inc rf sq p :
  waiting n g c i inc rf -> progress c i inc rf sq p -> firstIndex (log rf) < p ->
  match sq with
  | SApplier b k => p = lastApplied rf + Z.of_nat k /\ TApply i inc b ∈ tasks c /\ contig (lastApplied rf + 1) b /\ (k <= length b)%nat /\ b <> []
  | SSnap idx true => False
  | SSnap idx false => p = lastApplied rf /\ TInstalled i inc idx ∈ tasks c
  | _ => p = lastApplied rf
  end.
Proof.
  intros W Hp Hlt. assert (Hlev : level c i inc rf p -> p = lastApplied rf) by (intros [[? _]|[? _]]; lia).
  destruct sq as [|b k|idx [|]|]; simpl in Hp; try (by apply Hlev).
  - tauto.
  - destruct Hp as (_ & _ & ? & _). lia.
  - destruct Hp as [? ?]. split; [by apply Hlev|done].
Qed.

(** The peer compacts its log at the position [p] of its server. *)
Lemma trimmed_ok n g c c' i inc rf rf' ln p :
  waiting n g c i inc rf -> progress c i inc rf (ln_seq ln) p -> firstIndex (log rf) < p -> firstIndex (log rf') = p ->
  lastApplied rf' = lastApplied rf -> commitIndex rf' = commitIndex rf -> tasks c' = tasks c ->
  waiting n g c' i inc rf' /\ progress c' i inc rf' (ln_seq ln) p.
Proof.
  intros W Hp Hlt Ef Ea Ec Ht. assert (Hs : same_tasks i inc c c') by (intros t _; by rewrite Ht).
  split; [eapply waiting_mono; [exact Hs|reflexivity|done|lia|lia|done]|].
  pose proof (above_first _ _ _ _ _ _ _ _ W Hp Hlt) as Hcase.
  assert (Hlev : p = lastApplied rf -> level c' i inc rf' p) by (intros E; left; split; [lia|left; lia]).
  destruct (ln_seq ln) as [|b k|idx [|]|]; simpl; try (by apply Hlev).
  - destruct Hcase as (E & H1 & H2 & H3 & H4). rewrite Ea, Ht. split_and!; try done. left. lia.
  - done.
  - destruct Hcase as [E H1]. split; [by apply Hlev|by rewrite Ht].
Qed.

Lemma handle_ok n h g s i rf rf' ln msg sv b :
  let c' := set_node i rf' (sy_cluster s) in
  system_ok n h g s -> nodes (sy_cluster s) !! i = Some rf -> sy_lanes s !! i = Some ln -> ln_inbox ln = Some msg ->
  cs_handle msg rf (ln_server ln) = (sv, rf', Ret b) -> small c' ->
  b = true /\ evolved n g (set_lane i (mkLane (ln_seq ln) None sv) (mkSystem c' (sy_lanes s))).
Proof.
  intros c' HK Hi Hln Hin Hr Hsm. destruct (lane_peer _ _ _ _ _ _ HK Hln) as (rf0 & inc & Hi0 & Hinc & [W (l & Hl & Hfe & Hp)]).
  assert (rf0 = rf) as -> by congruence. unfold feeds in Hfe. rewrite Hin in Hfe. destruct Hfe as (l0 & Hh & Hl0 & Hle & Hcase).
  pose proof (safe_wf _ _ _ _ _ _ (sk_safe _ _ _ _ HK) Hi) as Hwf.
  assert (Hid : rf' = rf -> c' = sy_cluster s) by (intros ->; unfold c', set_node; rewrite list_insert_id by done; by destruct (sy_cluster s)).
  assert (Hsame : holds sv l -> rf' = rf -> evolved n g (set_lane i (mkLane (ln_seq ln) None sv) (mkSystem c' (sy_lanes s)))).
  { intros Hsv E. rewrite (Hid E). eapply (lane_change n h g (mkSystem (sy_cluster s) (sy_lanes s)) i ln); [by destruct s|done|].
    intros r k Hr' Hk [W' _]. simpl in *. assert (r = rf) as -> by congruence. assert (k = inc) as -> by congruence.
    split; [done|]. exists l. split; [done|]. by split. }
  destruct Hcase as [(e & -> & -> & He & Hd & Hcm)|(snap & idx & t & -> & Him)].
  - destruct (co_command _ _ _ rf Hh Hwf He Hd) as (sv' & rf1 & Hr' & Hsv & Hsnap). rewrite Hr in Hr'. injection Hr' as <- <- ->.
    split; [done|]. destruct Hsnap as [->|(snap & Him & Hsn)]; [by apply Hsame|].
    destruct (snapshot_point _ _ _ _ (wf_log _ Hwf) Hsn) as [E|(Hlt & Ef & Es & Ec)]; [by apply Hsame|].
    pose proof (outside_applied any_env (OpSnapshot (D:=D) (le_Index e) snap) eq_refl rf) as Ela. simpl in Ela. rewrite Hsn in Ela.
    assert (Hlen : le_Index e = Z.of_nat (length (l0 ++ [e]))) by (rewrite length_app; simpl; lia). rewrite Hlen in Hlt, Ef.
    destruct (trimmed_ok _ _ _ c' _ _ _ rf' ln _ W Hp Hlt Ef Ela Ec eq_refl) as [W' Hp'].
    eapply (local_ok n h g s c' i rf rf' inc ln); try done.
    + right. split; [|done]. by eapply (step_service_snapshot (sy_cluster s) i rf rf' (le_Index e) snap).
    + right. exists (l0 ++ [e]). rewrite Ef, Es. split_and!; try done. by destruct l0.
    + intros h' g' _ Hex. eapply (lane_mono n g g' c' c' i inc rf' rf'); try done. split; [done|]. exists (l0 ++ [e]). split; [done|]. by split.
  - destruct (co_snapshot _ _ l snap idx t rf Hh Him Hle) as (sv' & Hr' & Hsv). rewrite Hr in Hr'. injection Hr' as <- -> ->.
    split; [done|by apply Hsame].
Qed.

(** ** Executions *)

Lemma step_ok n h g s s' : system_ok n h g s -> run_step s s' -> evolved n g s'.
Proof.
  intros HK (Hst & Hsm & Hti). destruct Hst; simpl in Hsm;
    [by eapply cluster_ok|by eapply install_ok|by eapply collect_ok|by eapply gate_ok|by eapply send_ok|by eapply finish_ok
    |by eapply snap_lock_ok|eapply snap_send_ok; try done; by refine (sends_in_time s i rf ln _ idx _ _ _ _ Hti)|by eapply snap_done_ok|by eapply handle_ok|by eapply lane_piece_ok|by eapply crash_ok].
Qed.

Lemma run_ok n h g s s' : system_ok n h g s -> rtc run_step s s' -> evolved n g s'.
Proof.
  intros HK Hr. revert h g HK. induction Hr as [s|s s1 s2 Hst _ IH]; intros h g HK; [exists h, g; split; [done|reflexivity]|].
  destruct (step_ok _ _ _ _ _ HK Hst) as (h1 & g1 & HK1 & Hex). destruct (IH _ _ HK1) as (h2 & g2 & HK2 & Hex2).
  exists h2, g2. split; [done|by etrans].
Qed.

Lemma system_start n now : exists h g, system_ok n h g (system n now).
Proof.
  destruct (safe_reachable n now (init n now) (rtc_refl _ _)) as (h & g & HS). exists h, g.
  assert (Hln : length (init_nodes (D:=D) n now) = n) by (unfold init_nodes; by rewrite length_fmap, length_seq).
  assert (Hps : forall i rf, init_nodes (D:=D) n now !! i = Some rf -> firstIndex (log rf) = 0 /\ snapshot rf = []
    /\ lastApplied rf = 0 /\ commitIndex rf = 0 /\ ReadSnapshot (persister rf) = []).
  { intros i rf Hi. destruct (init_applied n now i rf Hi) as [[? ?] ?]. split_and!; try done.
    - unfold init_nodes in Hi. rewrite list_lookup_fmap in Hi. destruct (seq 0 n !! i) as [j|] eqn:Hs; simplify_eq/=.
      apply lookup_seq in Hs as [-> Hlt]. destruct (Make_blank (D:=D) n i (now i) Hlt) as (rf & Hm & _). simpl in *. rewrite Hm in *.
      simpl in *. apply Make_ret in Hm as (_ & _ & _ & _ & _ & Ec). congruence.
    - unfold init_nodes in Hi. rewrite list_lookup_fmap in Hi. destruct (seq 0 n !! i) as [j|] eqn:Hs; simplify_eq/=.
      apply lookup_seq in Hs as [-> Hlt]. destruct (Make_blank (D:=D) n i (now i) Hlt) as (rf & Hm & _). simpl in *. rewrite Hm in *.
      simpl in *. apply Make_ret in Hm as (_ & _ & _ & -> & _). done. }
  split; simpl; [done| | | | |by intros t i k inc ?%elem_of_nil].
  - by rewrite length_imap, length_replicate.
  - intros i rf (-> & -> & _)%Hps. by left.
  - intros a (call & Hc & _). by apply elem_of_nil in Hc.
  - intros i inc rf ln Hi _. rewrite list_lookup_imap, Hi. intros [= <-]. destruct (Hps _ _ Hi) as (Ef & _ & Ea & Ec & Eps). split.
    + split; simpl; [lia|by intros ? ?%elem_of_nil..].
    + exists []. split; [apply committed_nil|]. split; [by apply (co_blank (P:=P))|]. left. simpl. split; [lia|left; lia].
Qed.

Lemma system_reachable_ok n now s : rtc run_step (system n now) s -> exists h g, system_ok n h g s.
Proof. intros Hr. destruct (system_start n now) as (h & g & HK). destruct (run_ok _ _ _ _ _ HK Hr) as (h' & g' & HK' & _). by exists h', g'. Qed.

(** ** What the servers hold *)

Section Runs.
Context (n : nat) (now : nat -> Z).

(** The server holds the state of a committed prefix. *)
Lemma server_holds h g s i ln :
  system_ok n h g s -> sy_lanes s !! i = Some ln -> exists l, committed n g l /\ holds (ln_server ln) l.
Proof.
  intros HK Hln. destruct (lane_peer _ _ _ _ _ _ HK Hln) as (rf & inc & _ & _ & [_ (l & Hl & Hfe & _)]).
  unfold feeds in Hfe. destruct (ln_inbox ln) as [msg|]; [|by exists l]. destruct Hfe as (l0 & ? & ? & _). by exists l0.
Qed.

(** Two servers, at any two points of an execution. *)
Lemma servers_comparable s s' i j ln ln' :
  rtc run_step (system n now) s -> rtc run_step s s' -> sy_lanes s !! i = Some ln -> sy_lanes s' !! j = Some ln' ->
  exists l l', holds (ln_server ln) l /\ holds (ln_server ln') l' /\ comparable l l'.
Proof.
  intros (h & g & HK)%system_reachable_ok Hr Hi Hj. destruct (run_ok _ _ _ _ _ HK Hr) as (h' & g' & HK' & Hex).
  destruct (server_holds _ _ _ _ _ HK Hi) as (l & Hl & ?), (server_holds _ _ _ _ _ HK' Hj) as (l' & Hl' & ?).
  exists l, l'. split; [done|]. split; [done|]. eapply committed_in_order; [apply (sk_safe _ _ _ _ HK')|by eapply committed_extends|done].
Qed.

(** The server takes every message it is given. *)
Lemma server_handles s i rf ln msg :
  rtc run_step (system n now) s -> nodes (sy_cluster s) !! i = Some rf -> sy_lanes s !! i = Some ln -> ln_inbox ln = Some msg ->
  exists sv rf', cs_handle msg rf (ln_server ln) = (sv, rf', Ret true).
Proof.
  intros (h & g & HK)%system_reachable_ok Hi Hln Hin. destruct (lane_peer _ _ _ _ _ _ HK Hln) as (rf0 & inc & Hi0 & _ & [_ (l & _ & Hfe & _)]).
  assert (rf0 = rf) as -> by congruence. unfold feeds in Hfe. rewrite Hin in Hfe. destruct Hfe as (l0 & Hh & _ & Hle & Hcase).
  pose proof (safe_wf _ _ _ _ _ _ (sk_safe _ _ _ _ HK) Hi) as Hwf.
  destruct Hcase as [(e & -> & -> & He & Hd & _)|(snap & idx & t & -> & Him)].
  - destruct (co_command _ _ _ rf Hh Hwf He Hd) as (sv & rf' & Hr & _). by exists sv, rf'.
  - destruct (co_snapshot _ _ l snap idx t rf Hh Him Hle) as (sv & Hr & _). by exists sv, rf.
Qed.

(** Every snapshot, in memory, on storage or in transit, is one of a committed prefix, and
    a server may hold the state of just this prefix. *)
Lemma snapshots_backed s s' i j rf ln :
  rtc run_step (system n now) s -> rtc run_step s s' -> nodes (sy_cluster s) !! i = Some rf -> sy_lanes s' !! j = Some ln ->
  firstIndex (log rf) = 0 /\ snapshot rf = []
  \/ exists l l', image l (snapshot rf) /\ firstIndex (log rf) = Z.of_nat (length l) /\ holds (ln_server ln) l' /\ comparable l l'.
Proof.
  intros (h & g & HK)%system_reachable_ok Hr Hi Hj. destruct (run_ok _ _ _ _ _ HK Hr) as (h' & g' & HK' & Hex).
  destruct (sk_node _ _ _ _ HK i rf Hi) as [?|(l & Hl & Hlen & _ & Him)]; [by left|right].
  destruct (server_holds _ _ _ _ _ HK' Hj) as (l' & Hl' & ?). exists l, l'. split_and!; try done.
  eapply committed_in_order; [apply (sk_safe _ _ _ _ HK')|by eapply committed_extends|done].
Qed.

End Runs.
End Replica.

(** ** Over shared arrays *)

#[export] Instance system_state {D S : Type} : ClusterState D (System (D:=D) (S:=S)) :=
  { cl := sy_cluster;
    set_cl := fun c s => mkSystem c (sy_lanes s);
    set_cl_same := fun s => match s with mkSystem c l => eq_refl end }.

#[export] Instance run_step_own {D S P : Type} `{LabGobOk D} `{!Consumer D S P} : OwnLogs (run_step (D:=D) (S:=S) (P:=P)).
Proof.
  intros s s' [Hst _]. destruct Hst; simpl; [by apply step_sends; match goal with H : small_step _ _ |- _ => apply H end|..];
    apply sends_quietly; simpl; rewrite ?length_insert; try done; try lia.
  match goal with E : requests _ = _ |- _ => change (sy_cluster s) with c; rewrite E, !length_app; simpl; lia end.
Qed.
