(* ===== verification/NetOps.v ===== *)
(** What the test harnesses share: slices indexed by server, and the loops that enable and
    disable end points of the network of labrpc. *)
From Stdlib Require Import ZArith Lia.
From stdpp Require Import base list numbers strings gmap.
From S2P Require Import Prelude RaftTypes LabRpc.

#[local] Open Scope Z_scope.

(** ** Slices indexed by server *)

Section Slots.
Context {S A : Type}.
Implicit Types (f : S -> list A) (set : list A -> S -> S) (s : S) (i : nat) (x : A).

Definition at_server f i : M S A := l ← gets f; lift (go_idx l (Z.of_nat i)).

Definition put_server f set i x : M S unit :=
  l ← gets f; l' ← lift (go_set l (Z.of_nat i) x); modify (set l').

Lemma at_server_run f s i x : f s !! i = Some x -> at_server f i s = (s, Ret x).
Proof.
  intros Hi. unfold at_server. m_exec. assert (E : go_idx (f s) (Z.of_nat i) = Ret x); [|by rewrite E].
  apply go_idx_lookup. split; [lia|by rewrite Nat2Z.id].
Qed.

Lemma put_server_run f set s i x : (i < length (f s))%nat -> put_server f set i x s = (set (<[i := x]> (f s)) s, Ret tt).
Proof.
  intros Hi. unfold put_server. m_exec. unfold go_set. rewrite Nat2Z.id.
  destruct (Z.leb_spec 0 (Z.of_nat i)); [|lia]. destruct (Z.ltb_spec (Z.of_nat i) (Z.of_nat (length (f s)))); [done|lia].
Qed.

End Slots.

(** ** End points *)

Section NetOps.
Context {N : Type} `{Countable N}.
Implicit Types (rn : Network N) (e : N) (b : bool).

Definition enable_one e b rn : Network N := set_ends (ends rn) (<[e := b]> (enabled rn)) (connections rn) rn.

Lemma Enable_run e b rn : Enable e b rn = (enable_one e b rn, Ret tt).
Proof. done. Qed.

Definition enable_all (l : list N) b rn : Network N := foldl (fun rn e => enable_one e b rn) rn l.

(** What stays: only [enabled] changes. *)
Definition wiring rn := (ends rn, connections rn, servers rn, nw_done rn).

Lemma enable_all_wiring l b rn : wiring (enable_all l b rn) = wiring rn.
Proof. unfold enable_all. revert rn. induction l as [|e l IH]; intros rn; [done|]. simpl. by rewrite IH. Qed.

Lemma enable_all_lookup l b rn e :
  enabled (enable_all l b rn) !! e = if decide (e ∈ l) then Some b else enabled rn !! e.
Proof.
  unfold enable_all. revert rn. induction l as [|x l IH]; intros rn; [by rewrite decide_False by (by intros ?%elem_of_nil)|].
  cbn [foldl]. rewrite IH. unfold enable_one. simpl enabled. destruct (decide (e ∈ l)) as [Hin|Hout].
  - by rewrite decide_True by (by right).
  - destruct (decide (e = x)) as [->|Hne].
    + by rewrite lookup_insert_eq, decide_True by left.
    + rewrite lookup_insert_ne, decide_False; [done| |done]. by intros [?|?]%elem_of_cons.
Qed.

Lemma enable_all_app l1 l2 b rn : enable_all (l1 ++ l2) b rn = enable_all l2 b (enable_all l1 b rn).
Proof. apply foldl_app. Qed.

(** A loop whose body enables one end point or none, in a state around the network. *)
Lemma for_enable {S A : Type} (emb : Network N -> S) (body : A -> M S unit) (target : A -> option N) b (js : list A) rn :
  (forall j rn', j ∈ js -> body j (emb rn') = (emb (match target j with Some e => enable_one e b rn' | None => rn' end), Ret tt)) ->
  m_for js body (emb rn) = (emb (enable_all (omap target js) b rn), Ret tt).
Proof.
  revert rn. induction js as [|j js IH]; intros rn Hb; [done|]. simpl. rewrite (bind_run _ _ _ _ _ (Hb j rn ltac:(left))).
  rewrite IH by (intros; apply Hb; by right). by destruct (target j).
Qed.

End NetOps.

(** ** Fresh end points *)

(** Names on the network: strings for end points, integers for servers. *)
Abbreviation Name := (string + Z)%type.

Section Rows.
Implicit Types (rn : Network Name) (es : list string).

(** [MakeEnd] and [Connect]. *)
Definition link_one (e : string) (j : nat) rn : Network Name :=
  set_ends ({[inl e]} ∪ ends rn) (<[inl e := false]> (enabled rn)) (<[inl e := Some (inr (Z.of_nat j))]> (<[inl e := None]> (connections rn))) rn.

Lemma run_MakeEnd (e : string) rn :
  (inl e : Name) ∉ ends rn ->
  MakeEnd (inl e) rn = (set_ends ({[inl e]} ∪ ends rn) (<[inl e := false]> (enabled rn)) (<[inl e := None]> (connections rn)) rn, Ret tt).
Proof. intros He. unfold MakeEnd. m_exec. unfold id. by rewrite decide_False. Qed.

(** The end points [es] are new and lead to the servers 0, 1, ... *)
Record linked rn rn' es : Prop :=
  { ln_servers : servers rn' = servers rn;
    ln_ends : forall x, x ∈ ends rn' <-> x ∈ ends rn \/ exists e, x = inl e /\ e ∈ es;
    ln_enabled : forall e, e ∈ es -> enabled rn' !! inl e = Some false;
    ln_connected : forall j e, es !! j = Some e -> connections rn' !! inl e = Some (Some (inr (Z.of_nat j)));
    ln_other : forall x, (forall e, e ∈ es -> x <> inl e) -> enabled rn' !! x = enabled rn !! x /\ connections rn' !! x = connections rn !! x }.

Lemma row_linked_nil rn : linked rn rn [].
Proof.
  split; try done; [|by intros e ?%elem_of_nil]. intros x. split; [by left|]. by intros [?|(e & _ & ?%elem_of_nil)].
Qed.

Lemma linked_snoc rn rn' es e : e ∉ es -> linked rn rn' es -> linked rn (link_one e (length es) rn') (es ++ [e]).
Proof.
  intros He [L1 L2 L3 L4 L5]. split; simpl.
  - done.
  - intros x. rewrite elem_of_union, elem_of_singleton, L2. setoid_rewrite elem_of_app. setoid_rewrite list_elem_of_singleton. naive_solver.
  - intros e'. rewrite elem_of_app, list_elem_of_singleton. intros [Hin| ->]; [|by rewrite lookup_insert_eq].
    rewrite lookup_insert_ne by (intros [= ->]; done). by apply L3.
  - intros j e' [Hj|[Hlen Hj]]%lookup_app_Some.
    + rewrite !lookup_insert_ne by (intros [= ->]; by apply He; eapply list_elem_of_lookup_2). by apply L4.
    + apply list_lookup_singleton_Some in Hj as [Hj ->]. rewrite lookup_insert_eq. do 3 f_equal. lia.
  - intros x Hx. assert (inl e <> x) by (intros <-; apply (Hx e); [set_solver|done]). rewrite !lookup_insert_ne by done.
    apply L5. intros e' He'. apply Hx. set_solver.
Qed.

Lemma m_for_app {S A : Type} (l1 l2 : list A) (body : A -> M S unit) s s' :
  m_for l1 body s = (s', Ret tt) -> m_for (l1 ++ l2) body s = m_for l2 body s'.
Proof.
  revert s. induction l1 as [|x l1 IH]; intros s; simpl; [by intros [= ->]|].
  unfold mbind, M_bind, m_bind. destruct (body x s) as [s1 [[]|]]; [|done]. apply IH.
Qed.

(** The loop that makes a row of end points, in a state around the network. *)
Lemma for_link {S : Type} (emb : Network Name -> S) (body : nat -> M S unit) es rn :
  NoDup es -> (forall e, e ∈ es -> inl e ∉ ends rn) ->
  (forall j e rn', es !! j = Some e -> inl e ∉ ends rn' -> body j (emb rn') = (emb (link_one e j rn'), Ret tt)) ->
  exists rn', m_for (seq 0 (length es)) body (emb rn) = (emb rn', Ret tt) /\ linked rn rn' es.
Proof.
  induction es as [|e es IH] using rev_ind; intros Hnd Hf Hb; [exists rn; split; [done|apply row_linked_nil]|].
  apply NoDup_app in Hnd as (Hnd & Hne & _).
  assert (He : e ∉ es) by (intros Hin; apply (Hne _ Hin); left).
  destruct IH as (rn' & Hr & L); [done|intros; apply Hf; set_solver|intros j e' r Hj; apply Hb; by apply lookup_app_l_Some|].
  exists (link_one e (length es) rn'). split; [|by apply linked_snoc].
  rewrite length_app, seq_app. simpl length. rewrite (m_for_app _ _ _ _ _ Hr). simpl.
  rewrite (bind_run _ _ _ _ _ (Hb (length es) e rn' ltac:(by rewrite lookup_app_r, Nat.sub_diag by lia) ltac:(
    intros [Hin|(e' & [= <-] & Hin)]%(ln_ends _ _ _ L); [by apply (Hf e); [set_solver|]|done]))). done.
Qed.

End Rows.
