(* ===== verification/RaftConfig.v ===== *)
(** The test harness of Raft (src/src/raft/config.go): servers that are started,
    crashed, connected and disconnected, readers of the apply channels that compare what
    the servers commit, and the checks the tests make.

    Names on the network are random strings for end points and integers for servers.
    The names that randstring gives are arguments.  The harness and a running peer share
    a Persister: [Shared] is the pointer to the one of the peer that runs.  [t.Fatal] and
    [log.Fatalf] end the test and are a panic; an error message is a [Complaint].  Maps
    that are nil until make_config fills them are empty here: until then they are only
    read.  Clocks and sleeping are left out; what the code polls is an argument. *)
From Stdlib Require Import ZArith Lia.
From stdpp Require Import base list numbers strings gmap.
From S2P Require Import Prelude RaftTypes RaftNode LabRpc NetOps.

#[local] Open Scope Z_scope.

(** What the harness encodes into a snapshot. *)
Class SnapCodec (D : Type) :=
  { enc_xlog : Z -> list (option D) -> bytes;
    dec_xlog : bytes -> option (Z * list (option D)) }.

Class SnapCodecOk (D : Type) `{SnapCodec D} : Prop :=
  { dec_enc_xlog : forall i l, dec_xlog (enc_xlog i l) = Some (i, l);
    enc_xlog_nonempty : forall i l, enc_xlog i l <> [] }.

Section Config.
Context {D : Type} `{EqDecision D} `{LabGob D} `{SnapCodec D}.

Inductive Complaint :=
| Mismatch (index : Z) (server : nat) (cmd : option D) (other : nat) (old : option D)
| OutOfOrder (server : nat) (index : Z)
| Unexpected (server : nat) (expected got : Z)
| SnapshotMismatch (server : nat).

Inductive Saved := Nil | Shared | Owned (ps : Persister).

Record config := mkConfig
  { cf_finished : Z;
    cf_net : Network Name;
    cf_n : nat;
    cf_rafts : list (option (Raft D));
    cf_applyErr : list (option Complaint);
    cf_connected : list bool;
    cf_saved : list Saved;
    cf_endnames : list (option (list string));
    cf_logs : list (gmap Z (option D));
    cf_lastApplied : list Z;
    cf_rpcs0 : Z;
    cf_cmds0 : Z;
    cf_bytes0 : Z;
    cf_maxIndex : Z;
    cf_maxIndex0 : Z;
    cf_objects : list nat }. (* the labrpc servers made so far: whose peer the service of each is *)

Abbreviation CM := (M config).

Definition set_cfnet (x : Network Name) (c : config) : config :=
  mkConfig (cf_finished c) x (cf_n c) (cf_rafts c) (cf_applyErr c) (cf_connected c) (cf_saved c) (cf_endnames c) (cf_logs c)
    (cf_lastApplied c) (cf_rpcs0 c) (cf_cmds0 c) (cf_bytes0 c) (cf_maxIndex c) (cf_maxIndex0 c) (cf_objects c).
Definition set_rafts (x : list (option (Raft D))) (c : config) : config :=
  mkConfig (cf_finished c) (cf_net c) (cf_n c) x (cf_applyErr c) (cf_connected c) (cf_saved c) (cf_endnames c) (cf_logs c)
    (cf_lastApplied c) (cf_rpcs0 c) (cf_cmds0 c) (cf_bytes0 c) (cf_maxIndex c) (cf_maxIndex0 c) (cf_objects c).
Definition set_applyErr (x : list (option Complaint)) (c : config) : config :=
  mkConfig (cf_finished c) (cf_net c) (cf_n c) (cf_rafts c) x (cf_connected c) (cf_saved c) (cf_endnames c) (cf_logs c)
    (cf_lastApplied c) (cf_rpcs0 c) (cf_cmds0 c) (cf_bytes0 c) (cf_maxIndex c) (cf_maxIndex0 c) (cf_objects c).
Definition set_connected (x : list bool) (c : config) : config :=
  mkConfig (cf_finished c) (cf_net c) (cf_n c) (cf_rafts c) (cf_applyErr c) x (cf_saved c) (cf_endnames c) (cf_logs c)
    (cf_lastApplied c) (cf_rpcs0 c) (cf_cmds0 c) (cf_bytes0 c) (cf_maxIndex c) (cf_maxIndex0 c) (cf_objects c).
Definition set_saved (x : list Saved) (c : config) : config :=
  mkConfig (cf_finished c) (cf_net c) (cf_n c) (cf_rafts c) (cf_applyErr c) (cf_connected c) x (cf_endnames c) (cf_logs c)
    (cf_lastApplied c) (cf_rpcs0 c) (cf_cmds0 c) (cf_bytes0 c) (cf_maxIndex c) (cf_maxIndex0 c) (cf_objects c).
Definition set_endnames (x : list (option (list string))) (c : config) : config :=
  mkConfig (cf_finished c) (cf_net c) (cf_n c) (cf_rafts c) (cf_applyErr c) (cf_connected c) (cf_saved c) x (cf_logs c)
    (cf_lastApplied c) (cf_rpcs0 c) (cf_cmds0 c) (cf_bytes0 c) (cf_maxIndex c) (cf_maxIndex0 c) (cf_objects c).
Definition set_logs (x : list (gmap Z (option D))) (c : config) : config :=
  mkConfig (cf_finished c) (cf_net c) (cf_n c) (cf_rafts c) (cf_applyErr c) (cf_connected c) (cf_saved c) (cf_endnames c) x
    (cf_lastApplied c) (cf_rpcs0 c) (cf_cmds0 c) (cf_bytes0 c) (cf_maxIndex c) (cf_maxIndex0 c) (cf_objects c).
Definition set_cfapplied (x : list Z) (c : config) : config :=
  mkConfig (cf_finished c) (cf_net c) (cf_n c) (cf_rafts c) (cf_applyErr c) (cf_connected c) (cf_saved c) (cf_endnames c) (cf_logs c)
    x (cf_rpcs0 c) (cf_cmds0 c) (cf_bytes0 c) (cf_maxIndex c) (cf_maxIndex0 c) (cf_objects c).
Definition set_maxIndex (x : Z) (c : config) : config :=
  mkConfig (cf_finished c) (cf_net c) (cf_n c) (cf_rafts c) (cf_applyErr c) (cf_connected c) (cf_saved c) (cf_endnames c) (cf_logs c)
    (cf_lastApplied c) (cf_rpcs0 c) (cf_cmds0 c) (cf_bytes0 c) x (cf_maxIndex0 c) (cf_objects c).
Definition set_objects (x : list nat) (c : config) : config :=
  mkConfig (cf_finished c) (cf_net c) (cf_n c) (cf_rafts c) (cf_applyErr c) (cf_connected c) (cf_saved c) (cf_endnames c) (cf_logs c)
    (cf_lastApplied c) (cf_rpcs0 c) (cf_cmds0 c) (cf_bytes0 c) (cf_maxIndex c) (cf_maxIndex0 c) x.

(** An operation of the network. *)
Definition on_net {A : Type} (m : M (Network Name) A) : CM A := fun c =>
  match m (cf_net c) with (rn', a) => (set_cfnet rn' c, a) end.

(** [cfg.endnames[i][j]]; indexing a nil slice panics. *)
Definition endname (i j : nat) : CM string :=
  o ← at_server cf_endnames i;
  lift (match o with Some l => go_idx l (Z.of_nat j) | None => Panic end).

(** ** Connections *)

Definition connect (i : nat) : CM unit :=
  put_server cf_connected set_connected i true;;
  n ← gets cf_n;
  m_for (seq 0 n) (fun j =>
    up ← at_server cf_connected j;
    when up (e ← endname i j; on_net (Enable (inl e) true)));;
  m_for (seq 0 n) (fun j =>
    up ← at_server cf_connected j;
    when up (e ← endname j i; on_net (Enable (inl e) true))).

(** [cfg.endnames[i] != nil] *)
Definition has_names (i : nat) : CM bool := o ← at_server cf_endnames i; mret (bool_decide (is_Some o)).

Definition disconnect (i : nat) : CM unit :=
  put_server cf_connected set_connected i false;;
  n ← gets cf_n;
  m_for (seq 0 n) (fun j =>
    named ← has_names i;
    when named (e ← endname i j; on_net (Enable (inl e) false)));;
  m_for (seq 0 n) (fun j =>
    named ← has_names j;
    when named (e ← endname j i; on_net (Enable (inl e) false))).

(** ** Crash and start *)

(** What [cfg.saved[i]] points to. *)
Definition saved_at (i : nat) : CM (option Persister) :=
  s ← at_server cf_saved i;
  match s with
  | Nil => mret None
  | Owned ps => mret (Some ps)
  | Shared => o ← at_server cf_rafts i; mret (persister <$> o)
  end.

(** [cfg.saved[i] = cfg.saved[i].Copy()] when it is not nil *)
Definition copy_saved (i : nat) : CM unit :=
  o ← saved_at i;
  match o with
  | Some ps => put_server cf_saved set_saved i (Owned (Copy ps))
  | None => mret tt
  end.

Definition crash1 (i : nat) : CM unit :=
  disconnect i;;
  on_net (DeleteServer (inr (Z.of_nat i)));;
  copy_saved i;;
  put_server cf_rafts set_rafts i None;; (* Kill marks an object nobody refers to any more *)
  o ← saved_at i;
  match o with
  | Some ps => put_server cf_saved set_saved i (Owned (Save (ReadRaftState ps) (ReadSnapshot ps) MakePersister))
  | None => mret tt
  end.

(** ** What the appliers check *)

Fixpoint checkLogs_scan (i : nat) (idx : Z) (v : option D) (j : nat) (logs : list (gmap Z (option D))) (err : option Complaint)
    : option Complaint :=
  match logs with
  | [] => err
  | m :: logs' =>
      checkLogs_scan i idx v (S j) logs'
        (match m !! idx with
         | Some old => if decide (old = v) then err else Some (Mismatch idx i v j old)
         | None => err
         end)
  end.

Definition checkLogs (i : nat) (m : ApplyMsg D) : CM (option Complaint * bool) :=
  logs ← gets cf_logs;
  let err_msg := checkLogs_scan i (am_CommandIndex m) (am_Command m) 0 logs None in
  mine ← at_server cf_logs i;
  let prevok := bool_decide (is_Some (mine !! (am_CommandIndex m - 1))) in
  put_server cf_logs set_logs i (<[am_CommandIndex m := am_Command m]> mine);;
  mx ← gets cf_maxIndex;
  when (mx <? am_CommandIndex m) (modify (set_maxIndex (am_CommandIndex m)));;
  mret (err_msg, prevok).

(** [log.Fatalf] when there is a complaint *)
Definition fatal (e : option Complaint) : CM unit := match e with Some _ => lift Panic | None => mret tt end.

(** One message of [applier]. *)
Definition applier (i : nat) (m : ApplyMsg D) : CM unit :=
  if am_CommandValid m then
    r ← checkLogs i m;
    let err_msg := if (1 <? am_CommandIndex m) && negb (snd r) then Some (OutOfOrder i (am_CommandIndex m)) else fst r in
    fatal err_msg
  else mret tt.

(** *** With snapshots *)

(** [xlog] as a map from positions *)
Definition xlog_map (xlog : list (option D)) : gmap Z (option D) :=
  list_to_map (imap (fun j v => (Z.of_nat j, v)) xlog).

Definition ingestSnap (i : nat) (snapshot : bytes) (index : Z) : CM (option Complaint) :=
  if decide (snapshot = []) then lift Panic
  else match dec_xlog snapshot with
  | None => lift Panic
  | Some (lastIncludedIndex, xlog) =>
      if negb (index =? -1) && negb (index =? lastIncludedIndex) then mret (Some (SnapshotMismatch i))
      else
        put_server cf_logs set_logs i (xlog_map xlog);;
        put_server cf_lastApplied set_cfapplied i lastIncludedIndex;;
        mret None
  end.

Definition SnapShotInterval : Z := 10.

(** A call on a peer. *)
Definition on_raft {A : Type} (i : nat) (m : M (Raft D) A) : CM A :=
  o ← at_server cf_rafts i;
  match o with
  | None => lift Panic
  | Some rf => match m rf with
               | (rf', r) => put_server cf_rafts set_rafts i (Some rf');; lift r
               end
  end.

(** The log [0 .. index] of the harness, nil where there is nothing. *)
Definition xlog_of (mine : gmap Z (option D)) (index : Z) : list (option D) :=
  (fun j => default None (mine !! j)) <$> range (Z.to_nat (index + 1)).

(** One message of [applierSnap]; the goroutine ended at once if the peer was not there. *)
Definition applierSnap (i : nat) (m : ApplyMsg D) : CM unit :=
  err_msg ← (if am_SnapshotValid m then ingestSnap i (am_Snapshot m) (am_SnapshotIndex m)
    else if am_CommandValid m then
      applied ← at_server cf_lastApplied i;
      err_msg ← (if negb (am_CommandIndex m =? applied + 1) then mret (Some (Unexpected i (applied + 1) (am_CommandIndex m)))
                 else
                   r ← checkLogs i m;
                   mret (if (1 <? am_CommandIndex m) && negb (snd r) then Some (OutOfOrder i (am_CommandIndex m)) else fst r));
      put_server cf_lastApplied set_cfapplied i (am_CommandIndex m);;
      when (Z.rem (am_CommandIndex m + 1) SnapShotInterval =? 0)
        (mine ← at_server cf_logs i;
         on_raft i (Snapshot (am_CommandIndex m) (enc_xlog (am_CommandIndex m) (xlog_of mine (am_CommandIndex m)))));;
      mret err_msg
    else mret None);
  fatal err_msg.

(** Lines 282-294; [names] are the results of randstring. *)
Definition fresh_ends (i : nat) (names : list string) : CM unit :=
  n ← gets cf_n;
  put_server cf_endnames set_endnames i (Some (take n names));;
  m_for (seq 0 n) (fun j =>
    e ← endname i j;
    on_net (MakeEnd (inl e));;
    on_net (Connect (inl e) (inr (Z.of_nat j)))).

(** Lines 304-319 *)
Definition load_saved (i : nat) : CM unit :=
  o ← saved_at i;
  match o with
  | Some ps =>
      copy_saved i;;
      let snapshot := ReadSnapshot (Copy ps) in
      when (negb (bool_decide (snapshot = [])))
        (err ← ingestSnap i snapshot (-1); fatal err)
  | None => put_server cf_saved set_saved i (Owned MakePersister)
  end.

(** Lines 325-338; [now] is the clock of Make.  The labrpc server is made over the peer
    that Make returned; servers are numbered in the order they are made. *)
Definition launch (i : nat) (now : Z) : CM unit :=
  n ← gets cf_n;
  o ← saved_at i;
  match Make n (Z.of_nat i) now (default MakePersister o) with
  | (rf, r) =>
      lift r;;
      put_server cf_rafts set_rafts i (Some rf);;
      put_server cf_saved set_saved i Shared;;
      made ← gets cf_objects;
      modify (set_objects (made ++ [i]));;
      on_net (AddServer (inr (Z.of_nat i)) (length made))
  end.

Definition start1 (i : nat) (names : list string) (now : Z) : CM unit :=
  crash1 i;;
  fresh_ends i names;;
  put_server cf_lastApplied set_cfapplied i 0;;
  load_saved i;;
  launch i now.

Definition blank_config (n : nat) : config :=
  mkConfig 0 MakeNetwork n (replicate n None) (replicate n None) (replicate n false) (replicate n Nil) (replicate n None)
    (replicate n ∅) (replicate n 0) 0 0 0 0 0 [].

Definition setunreliable (unrel : bool) : CM unit := on_net (Reliable (negb unrel)).
Definition setlongreordering (longrel : bool) : CM unit := on_net (LongReordering longrel).

Definition make_config (n : nat) (unreliable : bool) (names : nat -> list string) (now : nat -> Z) : config * res unit :=
  (setunreliable unreliable;;
   on_net (LongDelays true);;
   m_for (seq 0 n) (fun i => put_server cf_logs set_logs i ∅;; start1 i (names i) (now i));;
   m_for (seq 0 n) connect) (blank_config n).

Definition checkFinished : CM bool := z ← gets cf_finished; mret (negb (z =? 0)).

Definition kill_raft (i : nat) : CM unit :=
  o ← at_server cf_rafts i;
  match o with Some _ => on_raft i Kill | None => mret tt end.

Definition cleanup : CM unit :=
  modify (fun c => mkConfig 1 (cf_net c) (cf_n c) (cf_rafts c) (cf_applyErr c) (cf_connected c) (cf_saved c) (cf_endnames c)
    (cf_logs c) (cf_lastApplied c) (cf_rpcs0 c) (cf_cmds0 c) (cf_bytes0 c) (cf_maxIndex c) (cf_maxIndex0 c) (cf_objects c));;
  rafts ← gets cf_rafts;
  m_for (seq 0 (length rafts)) kill_raft;;
  on_net Cleanup.

(** ** What the tests check *)

(** One round of checkOneLeader over what GetState gave for the connected servers. *)
Definition leaders_of (obs : list (nat * (Z * bool))) : gmap Z (list nat) :=
  foldl (fun m '(i, (term, leader)) => if leader : bool then <[term := default [] (m !! term) ++ [i]]> m else m) ∅ obs.

(** the largest term with a leader, -1 without one *)
Definition lastTermWithLeader (m : gmap Z (list nat)) : Z := foldl (fun acc t => if acc <? t then t else acc) (-1) (fst <$> map_to_list m).

Definition leader_round (obs : list (nat * (Z * bool))) : res (option nat) :=
  let m := leaders_of obs in
  if existsb (fun p => (1 <? Z.of_nat (length (snd p)))) (map_to_list m) then Panic
  else if decide (m = ∅) then Ret None
  else match m !! lastTermWithLeader m with
       | Some (i :: _) => Ret (Some i)
       | _ => Panic
       end.

(** The rounds, at most ten; the test fails when none of them finds a leader. *)
Fixpoint checkOneLeader_loop (rounds : list (list (nat * (Z * bool)))) : res nat :=
  match rounds with
  | [] => Panic
  | obs :: rounds' =>
      match leader_round obs with
      | Panic => Panic
      | Ret (Some i) => Ret i
      | Ret None => checkOneLeader_loop rounds'
      end
  end.
Definition checkOneLeader (rounds : list (list (nat * (Z * bool)))) : res nat := checkOneLeader_loop (take 10 rounds).

(** What GetState gives for the connected servers, one after the other. *)
Definition poll_states : CM (list (nat * (Z * bool))) :=
  n ← gets cf_n;
  l ← m_map (fun i =>
        up ← at_server cf_connected i;
        if up : bool then x ← on_raft i GetState; mret [(i, x)] else mret []) (seq 0 n);
  mret (concat l).

Definition checkTerms (obs : list (nat * (Z * bool))) : res Z :=
  foldl (fun r '(_, (xterm, _)) =>
           match r with
           | Panic => Panic
           | Ret term => if term =? -1 then Ret xterm else if negb (term =? xterm) then Panic else Ret term
           end) (Ret (-1)) obs.

Definition checkNoLeader (obs : list (nat * (Z * bool))) : res unit :=
  if existsb (fun p => snd (snd p)) obs then Panic else Ret tt.

(** How many servers have committed [index], and what. *)
Fixpoint nCommitted_loop (index : Z) (servers : list nat) (count : Z) (cmd : option D) : CM (Z * option D) :=
  match servers with
  | [] => mret (count, cmd)
  | i :: servers' =>
      err ← at_server cf_applyErr i;
      fatal err;;
      mine ← at_server cf_logs i;
      match mine !! index with
      | None => nCommitted_loop index servers' count cmd
      | Some cmd1 =>
          if (0 <? count) && negb (bool_decide (cmd = cmd1)) then lift Panic
          else nCommitted_loop index servers' (count + 1) cmd1
      end
  end.

Definition nCommitted (index : Z) : CM (Z * option D) :=
  rafts ← gets cf_rafts;
  nCommitted_loop index (seq 0 (length rafts)) 0 None.

(** [wait]: at most thirty polls, each with the result of nCommitted and the terms of the
    servers after it; [inr tt] stands for -1, somebody has moved on. *)
Fixpoint wait_loop (n : Z) (startTerm : Z) (polls : list (Z * option D * list Z)) : bool :=
  match polls with
  | [] => false
  | (nd, _, terms) :: polls' =>
      if n <=? nd then false
      else if (-1 <? startTerm) && existsb (fun t => startTerm <? t) terms then true
      else wait_loop n startTerm polls'
  end.

Definition wait (index n startTerm : Z) (polls : list (Z * option D * list Z)) : CM (option D + unit) :=
  if wait_loop n startTerm (take 30 polls) then mret (inr tt)
  else
    r ← nCommitted index;
    if fst r <? n then lift Panic else mret (inl (snd r)).

(** The inner loop of [one]: try all the servers, maybe one is the leader.  The result is
    the index, -1 if there is none, and the server tried last. *)
Fixpoint one_submit (cmd : D) (k starts : nat) : CM (Z * nat) :=
  match k with
  | O => mret (-1, starts)
  | S k' =>
      n ← gets cf_n;
      let starts' := ((starts + 1) mod n)%nat in
      up ← at_server cf_connected starts';
      o ← at_server cf_rafts starts';
      if up && bool_decide (is_Some o) then
        r ← on_raft starts' (Start cmd);
        let '(index1, _, ok) := r in
        if ok : bool then mret (index1, starts') else one_submit cmd k' starts'
      else one_submit cmd k' starts'
  end.

(** One poll of [one]: the index holds our command on enough servers. *)
Definition one_agreed (index : Z) (cmd : D) (expectedServers : Z) : CM bool :=
  r ← nCommitted index;
  mret ((0 <? fst r) && (expectedServers <=? fst r) && bool_decide (snd r = Some cmd)).

(** How [one] ends: with the index, with t.Fatalf, or with -1 because the test is over. *)
Inductive OneResult := Agreed (index : Z) | NoAgreement | TestOver.

(** The two seconds of waiting for agreement: before each poll the rest of the program has
    changed the configuration. *)
Fixpoint one_polls (index : Z) (cmd : D) (expectedServers : Z) (polls : list (config -> config)) : CM bool :=
  match polls with
  | [] => mret false
  | w :: polls' =>
      modify w;;
      agreed ← one_agreed index cmd expectedServers;
      if agreed : bool then mret true else one_polls index cmd expectedServers polls'
  end.

(** The ten seconds: each round has what the rest of the program does before it, and the
    polls there is time for. *)
Fixpoint one_loop (cmd : D) (expectedServers : Z) (retry : bool) (rounds : list ((config -> config) * list (config -> config))) (starts : nat)
    : CM OneResult :=
  match rounds with
  | [] => fin ← checkFinished; mret (if fin : bool then TestOver else NoAgreement)
  | (w, polls) :: rounds' =>
      modify w;;
      fin ← checkFinished;
      if fin : bool then mret TestOver
      else
        n ← gets cf_n;
        r ← one_submit cmd n starts;
        let '(index, starts') := r in
        if negb (index =? -1) then
          agreed ← one_polls index cmd expectedServers polls;
          if agreed : bool then mret (Agreed index)
          else if negb retry then mret NoAgreement
          else one_loop cmd expectedServers retry rounds' starts'
        else one_loop cmd expectedServers retry rounds' starts'
  end.

Definition one (cmd : D) (expectedServers : Z) (retry : bool) (rounds : list ((config -> config) * list (config -> config))) : CM OneResult :=
  one_loop cmd expectedServers retry rounds 0.

(** ** Statistics *)

Definition rpcCount {W : Type} (server : nat) (heap : list (Server W)) (c : config) : res Z :=
  GetCount (inr (Z.of_nat server)) heap (cf_net c).
Definition rpcTotal (c : config) : Z := GetTotalCount (cf_net c).
Definition bytesTotal (c : config) : Z := GetTotalBytes (cf_net c).

Definition begin : CM unit :=
  modify (fun c => mkConfig (cf_finished c) (cf_net c) (cf_n c) (cf_rafts c) (cf_applyErr c) (cf_connected c) (cf_saved c)
    (cf_endnames c) (cf_logs c) (cf_lastApplied c) (rpcTotal c) 0 (bytesTotal c) (cf_maxIndex c) (cf_maxIndex c) (cf_objects c)).

(** peers, RPCs, bytes, agreements *)
Definition end_stats (c : config) : nat * Z * Z * Z :=
  (cf_n c, rpcTotal c - cf_rpcs0 c, bytesTotal c - cf_bytes0 c, cf_maxIndex c - cf_maxIndex0 c).

Definition LogSize : CM Z :=
  n ← gets cf_n;
  sizes ← m_map (fun i => o ← saved_at i; lift (match o with Some ps => Ret (RaftStateSize ps) | None => Panic end)) (seq 0 n);
  mret (foldl (fun acc x => if acc <? x then x else acc) 0 sizes).

End Config.
