(* ===== verification/HarnessLogs.v ===== *)
(** What the harness of Raft records and complains about: the readers of the apply
    channels accept a message exactly when it agrees with everything recorded and
    continues the server's own record, and they accept every execution of a cluster. *)
From Stdlib Require Import ZArith Lia.
From stdpp Require Import base list numbers strings gmap relations.
From S2P Require Import Prelude RaftTypes RaftNode RaftVote RaftWf RaftSafe RaftCluster SafetyRun SharedLog Delivery LabRpc NetOps RaftConfig.

#[local] Open Scope Z_scope.

Section Logs.
Context {D : Type} `{EqDecision D} `{LabGobOk D} `{SnapCodec D}.
Abbreviation Records := (list (gmap Z (option D))).
Implicit Types (cfg : config (D:=D)) (m : ApplyMsg D) (v : option D) (logs : Records).

(** ** The scan of checkLogs *)

(** Some server has recorded something else at [idx]. *)
Definition conflict (idx : Z) v logs : Prop := exists j rec old, logs !! j = Some rec /\ rec !! idx = Some old /\ old <> v.

Lemma scan_none i idx v j logs err :
  checkLogs_scan i idx v j logs err = None <-> err = None /\ ~ conflict idx v logs.
Proof.
  revert j err. induction logs as [|rec logs IH]; intros j err; simpl.
  { split; [intros ->; split; [done|]|by intros [? _]]. intros (k & r & old & Hk & _). done. }
  rewrite IH. split.
  - intros [He Hn]. assert (Hhead : err = None /\ forall old, rec !! idx = Some old -> old = v).
    { destruct (rec !! idx) as [old|]; [|done]. case_decide; [|done]. split; [done|]. by intros ? [= <-]. }
    destruct Hhead as [-> Hh]. split; [done|]. intros ([|k] & r & old & Hk & Ho & Hne); simpl in Hk.
    + injection Hk as <-. by apply Hne, Hh.
    + apply Hn. by exists k, r, old.
  - intros [-> Hn]. split.
    + destruct (rec !! idx) as [old|] eqn:Hr; [|done]. case_decide as Hd; [done|]. exfalso. apply Hn. by exists 0%nat, rec, old.
    + intros (k & r & old & Hk & Hr). apply Hn. by exists (S k), r, old.
Qed.

(** ** One message *)

(** The server's own record has the index before. *)
Definition continues (idx : Z) (mine : gmap Z (option D)) : Prop := 1 < idx -> is_Some (mine !! (idx - 1)).

Definition record_msg i m (mine : gmap Z (option D)) cfg : config (D:=D) :=
  let c' := set_logs (<[i := <[am_CommandIndex m := am_Command m]> mine]> (cf_logs cfg)) cfg in
  if cf_maxIndex cfg <? am_CommandIndex m then set_maxIndex (am_CommandIndex m) c' else c'.

Lemma run_checkLogs i m mine cfg :
  cf_logs cfg !! i = Some mine ->
  checkLogs i m cfg
  = (record_msg i m mine cfg,
     Ret (checkLogs_scan i (am_CommandIndex m) (am_Command m) 0 (cf_logs cfg) None, bool_decide (is_Some (mine !! (am_CommandIndex m - 1))))).
Proof.
  intros Hi. unfold checkLogs. rewrite (bind_run _ _ cfg cfg (cf_logs cfg)) by done.
  rewrite (bind_run _ _ _ _ _ (at_server_run _ _ _ _ Hi)). pose proof (lookup_lt_Some _ _ _ Hi).
  rewrite (bind_run _ _ _ _ _ (put_server_run cf_logs set_logs cfg i _ ltac:(done))). m_exec. unfold record_msg.
  by destruct (cf_maxIndex cfg <? am_CommandIndex m).
Qed.

(** The applier ends the test exactly when there is a conflict or a gap. *)
Lemma run_applier i m mine cfg :
  cf_logs cfg !! i = Some mine -> am_CommandValid m = true ->
  exists r, applier i m cfg = (record_msg i m mine cfg, r)
    /\ (r = Ret tt <-> ~ conflict (am_CommandIndex m) (am_Command m) (cf_logs cfg) /\ continues (am_CommandIndex m) mine)
    /\ (r = Ret tt \/ r = Panic).
Proof.
  intros Hi Hv. unfold applier. rewrite Hv. rewrite (bind_run _ _ _ _ _ (run_checkLogs i m mine cfg Hi)). simpl.
  pose proof (scan_none i (am_CommandIndex m) (am_Command m) 0 (cf_logs cfg) None) as Hs.
  set (scan := checkLogs_scan _ _ _ _ _ _) in *. clearbody scan. unfold continues.
  destruct (Z.ltb_spec 1 (am_CommandIndex m)) as [Hlt|Hge]; simpl; [case_bool_decide as Hp; simpl|];
    try destruct scan as [e|]; simpl; (eexists; split; [done|]); (split; [|by auto]); try naive_solver lia.
Qed.

(** ** A sequence of messages *)

Abbreviation Trace := (list (nat * nat * LogEntry D)).
Implicit Types s : Trace.

Fixpoint observe s : M (config (D:=D)) unit :=
  match s with
  | [] => mret tt
  | (i, _, e) :: s' => applier i (commandMsg e);; observe s'
  end.

Lemma observe_app s1 s2 cfg cfg' : observe s1 cfg = (cfg', Ret tt) -> observe (s1 ++ s2) cfg = observe s2 cfg'.
Proof.
  revert cfg. induction s1 as [|[[i inc] e] s1 IH]; intros cfg; simpl; [by intros [= ->]|].
  unfold mbind, M_bind, m_bind. destruct (applier i (commandMsg e) cfg) as [c1 [[]|]]; [|done]. apply IH.
Qed.

(** What the records say after [s]. *)
Definition recorded s cfg : Prop :=
  forall j rec idx v, cf_logs cfg !! j = Some rec ->
    (rec !! idx = Some v <-> exists inc e, (j, inc, e) ∈ s /\ le_Index e = idx /\ le_Data e = v).

(** The messages agree, and those of each incarnation are in sequence. *)
Definition consistent (n : nat) s : Prop :=
  (forall i inc e, (i, inc, e) ∈ s -> (i < n)%nat)
  /\ (forall i inc e j inc' e', (i, inc, e) ∈ s -> (j, inc', e') ∈ s -> le_Index e = le_Index e' -> e = e')
  /\ forall i inc, contig 1 (sent_of i inc s).

Lemma consistent_prefix n s1 s2 : consistent n (s1 ++ s2) -> consistent n s1.
Proof.
  intros (H1' & H2' & H3'). split_and!.
  - intros i inc e Hin. eapply H1'. apply elem_of_app. by left.
  - intros i inc e j inc' e' Hi Hj. eapply H2'; apply elem_of_app; by left.
  - intros i inc. specialize (H3' i inc). unfold sent_of in *. rewrite omap_app in H3'. by apply contig_app in H3' as [? _].
Qed.

(** The entry before one that was just sent. *)
Lemma predecessor n s i inc e :
  consistent n (s ++ [(i, inc, e)]) -> 1 < le_Index e -> exists e', (i, inc, e') ∈ s /\ le_Index e' = le_Index e - 1.
Proof.
  intros (_ & _ & Hc) Hlt. specialize (Hc i inc). rewrite sent_of_snoc, decide_True in Hc by done.
  apply contig_app in Hc as [Hl Hr]. apply contig_cons in Hr as [Hi _].
  destruct (last (sent_of i inc s)) as [e'|] eqn:Hlast.
  - exists e'. rewrite last_lookup in Hlast. split; [apply elem_of_sent_of; by eapply list_elem_of_lookup_2|].
    rewrite (Hl _ _ Hlast). pose proof (lookup_lt_Some _ _ _ Hlast). lia.
  - apply last_None in Hlast. rewrite Hlast in Hi. simpl in Hi. lia.
Qed.

Lemma recorded_snoc n s i inc e mine cfg cfg' :
  consistent n (s ++ [(i, inc, e)]) -> recorded s cfg -> cf_logs cfg !! i = Some mine ->
  cf_logs cfg' = <[i := <[le_Index e := le_Data e]> mine]> (cf_logs cfg) -> recorded (s ++ [(i, inc, e)]) cfg'.
Proof.
  intros (_ & Hag & _) Hrec Hi El j rec idx v. rewrite El. setoid_rewrite elem_of_app. setoid_rewrite list_elem_of_singleton.
  intros [(<- & <- & _)|[Hne Hj]]%list_lookup_insert_Some.
  - rewrite lookup_insert_Some, (Hrec _ _ idx v Hi). split.
    + intros [[<- <-]|[_ (inc' & e' & ? & ?)]]; [by exists inc, e; auto|by exists inc', e'; auto].
    + intros (inc' & e' & [Hs|[= -> ->]] & Hx & Hd); [|by left]. destruct (decide (le_Index e = idx)) as [He|]; [|right; by eauto 10].
      left. split; [done|]. rewrite <- Hd. f_equal. eapply (Hag i inc e i inc' e'); [set_solver|apply elem_of_app; left; exact Hs|congruence].
  - rewrite (Hrec _ _ idx v Hj). split; [intros (inc' & e' & ? & ?); by exists inc', e'; auto|].
    intros (inc' & e' & [Hs|[= -> -> ->]] & ?); [by eauto|done].
Qed.

Lemma run_observe n s cfg :
  consistent n s -> cf_logs cfg = replicate n ∅ ->
  exists cfg', observe s cfg = (cfg', Ret tt) /\ recorded s cfg' /\ length (cf_logs cfg') = n
    /\ cf_applyErr cfg' = cf_applyErr cfg /\ cf_rafts cfg' = cf_rafts cfg.
Proof.
  intros Hc H0'. induction s as [|[[i inc] e] s IH] using rev_ind.
  { exists cfg. split; [done|]. rewrite H0', length_replicate. split_and!; try done.
    intros j rec idx v. rewrite H0', lookup_replicate. intros [-> _]. rewrite lookup_empty. split; [done|].
    by intros (? & ? & ?%elem_of_nil & _). }
  destruct IH as (c1 & Hr & Hrec & Hlen & Ha & Hf); [by eapply consistent_prefix|].
  pose proof Hc as (Hn & Hag & _). assert (Hin : (i, inc, e) ∈ s ++ [(i, inc, e)]) by set_solver.
  destruct (lookup_lt_is_Some_2 (cf_logs c1) i) as [mine Hi]; [rewrite Hlen; by eapply Hn|].
  destruct (run_applier i (commandMsg e) mine c1 Hi eq_refl) as (r & Hrun & Hok & _). simpl in Hok.
  assert (r = Ret tt) as ->.
  { apply Hok. split.
    - intros (j & rec & old & Hj & Ho & Hne). apply Hne. apply (Hrec j rec _ _ Hj) in Ho as (inc' & e' & He' & Hx & <-).
      rewrite (Hag j inc' e' i inc e); [done|set_solver|done|done].
    - intros Hlt. destruct (predecessor _ _ _ _ _ Hc Hlt) as (e' & He' & Hx). exists (le_Data e').
      apply (Hrec i mine _ _ Hi). by exists inc, e'. }
  exists (record_msg i (commandMsg e) mine c1). rewrite (observe_app _ _ _ _ Hr). simpl. rewrite (bind_run _ _ _ _ _ Hrun).
  split; [done|]. assert (El : cf_logs (record_msg i (commandMsg e) mine c1) = <[i := <[le_Index e := le_Data e]> mine]> (cf_logs c1))
    by (unfold record_msg; simpl; by destruct (_ <? _)).
  split_and!.
  - by eapply recorded_snoc.
  - by rewrite El, length_insert.
  - unfold record_msg. by destruct (_ <? _).
  - unfold record_msg. by destruct (_ <? _).
Qed.

(** ** nCommitted *)

(** The servers that have a record of [idx]. *)
Definition holders (idx : Z) logs : Records := filter (fun rec => is_Some (rec !! idx)) logs.

Lemma run_nCommitted_loop idx v cfg (k : nat) (rest : Records) (count : Z) (cmd : option D) :
  drop k (cf_logs cfg) = rest -> (forall j e, cf_applyErr cfg !! j = Some e -> e = None) ->
  length (cf_applyErr cfg) = length (cf_logs cfg) ->
  (forall j rec x, cf_logs cfg !! j = Some rec -> rec !! idx = Some x -> x = v) ->
  0 <= count -> (0 < count -> cmd = v) ->
  exists cmd', nCommitted_loop idx (seq k (length rest)) count cmd cfg
      = (cfg, Ret (count + Z.of_nat (length (holders idx rest)), cmd'))
    /\ (0 < count + Z.of_nat (length (holders idx rest)) -> cmd' = v).
Proof.
  intros Hd He Hlen Hv. revert k Hd count cmd. induction rest as [|rec rest IH]; intros k Hd count cmd Hc Hcmd; simpl.
  { exists cmd. rewrite Z.add_0_r. by split. }
  assert (Hk : cf_logs cfg !! k = Some rec) by (rewrite <- (Nat.add_0_r k), <- lookup_drop, Hd; done).
  assert (Hd' : drop (S k) (cf_logs cfg) = rest) by (rewrite <- Nat.add_1_r, <- drop_drop, Hd; done).
  destruct (lookup_lt_is_Some_2 (cf_applyErr cfg) k) as [e Hek]; [rewrite Hlen; by eapply lookup_lt_Some|].
  pose proof (He _ _ Hek) as ->. rewrite (bind_run _ _ _ _ _ (at_server_run _ _ _ _ Hek)). simpl.
  rewrite (bind_run _ _ cfg cfg tt) by done. rewrite (bind_run _ _ _ _ _ (at_server_run _ _ _ _ Hk)).
  unfold holders. rewrite filter_cons. destruct (rec !! idx) as [x|] eqn:Hx.
  - pose proof (Hv _ _ _ Hk Hx) as ->. rewrite decide_True by done.
    assert (Hok : (0 <? count) && negb (bool_decide (cmd = v)) = false).
    { destruct (Z.ltb_spec 0 count); [|done]. by rewrite bool_decide_eq_true_2 by auto. }
    rewrite Hok. destruct (IH _ Hd' (count + 1) v ltac:(lia) ltac:(done)) as (cmd' & -> & Hcmd'). exists cmd'.
    simpl. unfold holders in *. split; [do 3 f_equal; lia|]. intros _. apply Hcmd'. lia.
  - rewrite decide_False by (by intros [? ?]). by apply IH.
Qed.

Definition has_record cfg (idx : Z) (i : nat) : bool :=
  match cf_logs cfg !! i with Some rec => bool_decide (is_Some (rec !! idx)) | None => false end.

(** What a result of nCommitted says: how many of the servers have a record of [idx], and
    that all these records are the value it returns. *)
Lemma nCommitted_loop_inv idx (l : list nat) (count : Z) (cmd : option D) cfg cfg' (k : Z) v :
  nCommitted_loop idx l count cmd cfg = (cfg', Ret (k, v)) -> 0 <= count ->
  cfg' = cfg /\ count <= k /\ (0 < count -> v = cmd)
  /\ (forall i rec x, i ∈ l -> cf_logs cfg !! i = Some rec -> rec !! idx = Some x -> x = v)
  /\ k = count + Z.of_nat (length (filter (fun i => has_record cfg idx i = true) l)).
Proof.
  revert count cmd. induction l as [|i l IH]; intros count cmd Hr Hc; simpl in Hr.
  { injection Hr as <- <- <-. split_and!; try done; [by intros i rec x ?%elem_of_nil|simpl; lia]. }
  unfold mbind, M_bind, m_bind, at_server in Hr. m_exec. simpl in Hr. unfold gets, lift in Hr.
  destruct (go_idx (cf_applyErr cfg) (Z.of_nat i)) as [e|]; [|done]. destruct e as [e|]; [done|]. simpl in Hr.
  destruct (go_idx (cf_logs cfg) (Z.of_nat i)) as [rec|] eqn:Hrec; [|done].
  apply go_idx_lookup in Hrec as [_ Hrec]. rewrite Nat2Z.id in Hrec. rewrite filter_cons.
  assert (Eh : has_record cfg idx i = bool_decide (is_Some (rec !! idx))) by (unfold has_record; by rewrite Hrec).
  destruct (rec !! idx) as [x|] eqn:Hx.
  - destruct ((0 <? count) && negb (bool_decide (cmd = x))) eqn:Hb; [done|]. destruct (IH _ _ Hr ltac:(lia)) as (-> & Hk & Hv & Hall & Hn).
    specialize (Hv ltac:(lia)). subst v. rewrite decide_True by done. split_and!; [done|lia| | |cbn [length]; lia].
    + intros Hp. apply andb_false_iff in Hb as [Hb|Hb]; [lia|]. apply negb_false_iff, bool_decide_eq_true_1 in Hb. done.
    + intros j r y [->|Hj]%elem_of_cons Hr' Hy; [|by eapply Hall]. congruence.
  - destruct (IH _ _ Hr Hc) as (-> & Hk & Hv & Hall & Hn). rewrite decide_False by (by rewrite Eh). split_and!; try done.
    intros j r y [->|Hj]%elem_of_cons Hr' Hy; [congruence|by eapply Hall].
Qed.

(** Enough servers have recorded the command, and none anything else. *)
Definition agreed_on cfg (idx : Z) (cmd : D) (expected : Z) : Prop :=
  (forall i rec x, (i < length (cf_rafts cfg))%nat -> cf_logs cfg !! i = Some rec -> rec !! idx = Some x -> x = Some cmd)
  /\ exists l : list nat, NoDup l /\ 1 <= Z.of_nat (length l) /\ expected <= Z.of_nat (length l)
       /\ forall i, i ∈ l -> exists rec, cf_logs cfg !! i = Some rec /\ rec !! idx = Some (Some cmd).

Lemma one_agreed_inv idx cmd expected cfg cfg' : one_agreed idx cmd expected cfg = (cfg', Ret true) -> cfg' = cfg /\ agreed_on cfg idx cmd expected.
Proof.
  unfold one_agreed, nCommitted. unfold mbind, M_bind, m_bind. simpl.
  destruct (nCommitted_loop idx _ 0 None cfg) as [c1 [[k v]|]] eqn:Hr; [|done]. simpl. intros [= -> Hb].
  apply nCommitted_loop_inv in Hr as (-> & _ & _ & Hall & Hk); [|lia]. apply andb_true_iff in Hb as [Hb Hv]. apply andb_true_iff in Hb as [Hp He].
  apply bool_decide_eq_true_1 in Hv as ->. apply Z.ltb_lt in Hp. apply Z.leb_le in He. split; [done|]. split.
  - intros i rec x Hi. apply Hall, elem_of_seq. lia.
  - exists (filter (fun i => has_record cfg idx i = true) (seq 0 (length (cf_rafts cfg)))).
    split; [apply NoDup_filter, NoDup_seq|]. split; [lia|]. split; [lia|]. intros i [Hh Hi]%list_elem_of_filter.
    unfold has_record in Hh. destruct (cf_logs cfg !! i) as [rec|] eqn:Hrec; [|done]. apply bool_decide_eq_true_1 in Hh as [x Hx]. exists rec. split; [done|]. by rewrite <- (Hall i rec x Hi Hrec Hx).
Qed.

Lemma one_polls_inv idx cmd expected polls cfg cfg' : one_polls idx cmd expected polls cfg = (cfg', Ret true) -> agreed_on cfg' idx cmd expected.
Proof.
  revert cfg. induction polls as [|w polls IH]; intros cfg; simpl; [done|]. unfold mbind, M_bind, m_bind. simpl.
  destruct (one_agreed idx cmd expected (w cfg)) as [c1 [[]|]] eqn:Ha; [|apply IH|done].
  intros [= <-]. by apply one_agreed_inv in Ha as [-> ?].
Qed.

(** What [one] reports is so: when it returns an index, then at that moment at least one
    and at least [expectedServers] servers have recorded the command at this index, and no
    server has recorded anything else there. *)
Theorem one_sound cmd expected retry rounds cfg cfg' idx :
  one cmd expected retry rounds cfg = (cfg', Ret (Agreed idx)) -> agreed_on cfg' idx cmd expected.
Proof.
  unfold one. generalize 0%nat as starts. revert cfg. induction rounds as [|[w polls] rounds IH]; intros cfg starts; simpl.
  { unfold checkFinished. m_exec. by destruct (negb (_ =? _)). }
  unfold checkFinished. unfold mbind, M_bind, m_bind. simpl. destruct (negb (cf_finished (w cfg) =? 0)); [done|].
  destruct (one_submit cmd _ starts (w cfg)) as [c1 [[index starts']|]]; [|done]. destruct (negb (index =? -1)); [|apply IH].
  destruct (one_polls index cmd expected polls c1) as [c2 [[]|]] eqn:Hp; [|destruct (negb retry); [done|apply IH]|done].
  intros [= <- <-]. by eapply one_polls_inv.
Qed.

(** ** Clusters *)

Lemma trace_consistent n now d : rtc plain_step (deploy n now) d -> consistent n (d_sent d).
Proof.
  intros Hr. pose proof (plain_steps _ _ Hr) as Hr'. split_and!.
  - intros i inc e. by apply (sent_by_peer n now).
  - intros i inc e j inc' e' Hi Hj Hx. by apply (sent_agree n now d i j inc inc' e e').
  - intros i inc. by apply (sent_in_sequence n now).
Qed.

(** C30.  The harness accepts every cluster: in every execution over the arrays behind the
    logs without snapshots (with crashes, restarts and goroutines of crashed servers) in
    which no AppendEntries message is overwritten in the log of its sender between being
    prepared and being encoded, and in which log indices stay within 2^53, the readers of
    the apply channels that see the messages never complain, whatever the interleaving;
    their records are exactly the messages, and nCommitted never finds two values and
    counts the servers that have committed an index. *)
Theorem harness_accepts_raft n now (w : Deployment (D:=D) * Memory (D:=D)) cfg :
  rtc (intact plain_step) (deploy n now, boot_memory (init n now)) w ->
  cf_logs cfg = replicate n ∅ -> cf_applyErr cfg = replicate n None -> length (cf_rafts cfg) = n ->
  let d := fst w in
  exists cfg', observe (d_sent d) cfg = (cfg', Ret tt) /\ recorded (d_sent d) cfg'
    /\ forall idx, exists cmd, nCommitted idx cfg' = (cfg', Ret (Z.of_nat (length (holders idx (cf_logs cfg'))), cmd))
         /\ forall i inc e, (i, inc, e) ∈ d_sent d -> le_Index e = idx -> cmd = le_Data e.
Proof.
  intros Hw Hl He Hf d. destruct (intact_start plain_step (deploy n now) w w Hw (rtc_refl _ _)) as [Hr _].
  pose proof (trace_consistent _ _ d Hr) as Hc.
  destruct (run_observe n (d_sent d) cfg Hc Hl) as (cfg' & Hrun & Hrec & Hlen & Ha & Hraf).
  exists cfg'. split; [done|]. split; [done|]. intros idx. destruct Hc as (Hn & Hag & _).
  set (v := default None (le_Data <$> head (filter (fun e => le_Index e = idx) (snd <$> d_sent d)))).
  assert (Hv : forall i inc e, (i, inc, e) ∈ d_sent d -> le_Index e = idx -> v = le_Data e).
  { intros i inc e Hin Hx. unfold v. destruct (filter _ _) as [|e0 l] eqn:E.
    - assert (Hm : e ∈ filter (fun e => le_Index e = idx) (snd <$> d_sent d)); [|rewrite E in Hm; by apply elem_of_nil in Hm].
      apply list_elem_of_filter. split; [done|]. apply list_elem_of_fmap. by exists (i, inc, e).
    - assert (Hm : e0 ∈ filter (fun e => le_Index e = idx) (snd <$> d_sent d)) by (rewrite E; left).
      apply list_elem_of_filter in Hm as [Hx0 ([[j inc'] e1] & -> & Hm)%list_elem_of_fmap]. simpl in *.
      by rewrite (Hag j inc' e1 i inc e Hm Hin) by congruence. }
  destruct (run_nCommitted_loop idx v cfg' 0 (cf_logs cfg') 0 None) as (cmd & Hloop & Hcmd); try done.
  - intros j e. rewrite Ha, He, lookup_replicate. by intros [-> _].
  - rewrite Ha, He, Hlen. apply length_replicate.
  - intros j rec x Hj Hx. apply (Hrec _ _ _ _ Hj) in Hx as (inc & e & Hin & Hx & <-). symmetry. by eapply Hv.
  - exists cmd. split.
    + unfold nCommitted. rewrite (bind_run _ _ cfg' cfg' (cf_rafts cfg')) by done. rewrite Hraf, Hf, <- Hlen. exact Hloop.
    + intros i inc e Hin Hx. rewrite <- (Hv _ _ _ Hin Hx). apply Hcmd.
      destruct (lookup_lt_is_Some_2 (cf_logs cfg') i) as [rec Hi]; [rewrite Hlen; by eapply Hn|].
      assert (Hh : rec ∈ holders idx (cf_logs cfg')).
      { apply list_elem_of_filter. split; [|by eapply list_elem_of_lookup_2]. exists (le_Data e). apply (Hrec _ _ _ _ Hi). eauto. }
      destruct (holders idx (cf_logs cfg')); [by apply elem_of_nil in Hh|]. simpl. lia.
Qed.

(** The applier is a complete check: on a message with a command it ends the test exactly
    when some server has recorded another command at its index, or the server itself has
    nothing at the index before; otherwise it records it and nothing else changes but the
    largest index seen. *)
Theorem applier_checks i m mine cfg :
  cf_logs cfg !! i = Some mine -> am_CommandValid m = true ->
  exists r, applier i m cfg = (record_msg i m mine cfg, r)
    /\ (r = Ret tt <-> ~ conflict (am_CommandIndex m) (am_Command m) (cf_logs cfg) /\ continues (am_CommandIndex m) mine)
    /\ (r = Ret tt \/ r = Panic).
Proof. apply run_applier. Qed.

End Logs.
