(* ===== verification/HarnessNet.v ===== *)
(** The wiring of the Raft harness: an end point from one server to another is enabled
    exactly when both are connected and leads to the labrpc server of the latest start, and a
    server that is restarted gets the storage it had when it was crashed. *)
From Stdlib Require Import ZArith Lia.
From stdpp Require Import base list numbers strings gmap relations.
From S2P Require Import Prelude RaftTypes RaftNode RaftVote RaftWf RaftSpec RaftCluster ElectionSafety LabRpc NetOps RaftConfig HarnessLogs.

#[local] Open Scope Z_scope.

Section Wiring.
Context {D : Type} `{EqDecision D} `{LabGobOk D} `{SnapCodec D}.
Implicit Types (cfg : config (D:=D)) (rn : Network Name).

(** The name of the end point from [i] to [j]. *)
Definition name_of cfg (i j : nat) : option string := o ← cf_endnames cfg !! i; l ← o; l !! j.

Definition up cfg (i : nat) : bool := default false (cf_connected cfg !! i).

Record wired cfg : Prop :=
  { wi_connected : length (cf_connected cfg) = cf_n cfg;
    wi_endnames : length (cf_endnames cfg) = cf_n cfg;
    wi_rows : forall i l, cf_endnames cfg !! i = Some (Some l) -> length l = cf_n cfg;
    wi_up : forall i, up cfg i = true -> exists l, cf_endnames cfg !! i = Some (Some l);
    wi_inj : forall i j i' j' e, name_of cfg i j = Some e -> name_of cfg i' j' = Some e -> i = i' /\ j = j';
    wi_enabled : forall i j e, name_of cfg i j = Some e -> enabled (cf_net cfg) !! inl e = Some (up cfg i && up cfg j);
    wi_connections : forall i j e, name_of cfg i j = Some e -> connections (cf_net cfg) !! inl e = Some (Some (inr (Z.of_nat j)));
    wi_ends : forall i j e, name_of cfg i j = Some e -> inl e ∈ ends (cf_net cfg) }.

Lemma row_name cfg i l j : wired cfg -> cf_endnames cfg !! i = Some (Some l) -> (j < cf_n cfg)%nat ->
  exists e, name_of cfg i j = Some e.
Proof.
  intros Hw Hl Hj. unfold name_of. rewrite Hl. simpl. apply lookup_lt_is_Some. by rewrite (wi_rows _ Hw _ _ Hl).
Qed.

Lemma run_endname cfg i j e : name_of cfg i j = Some e -> endname i j cfg = (cfg, Ret e).
Proof.
  unfold name_of, endname. destruct (cf_endnames cfg !! i) as [[l|]|] eqn:Hi; simpl; [|done..]. intros Hj.
  rewrite (bind_run _ _ _ _ _ (at_server_run _ _ _ _ Hi)). unfold lift. f_equal. apply go_idx_lookup.
  split; [lia|by rewrite Nat2Z.id].
Qed.

Definition with_net cfg rn : config (D:=D) := set_cfnet rn cfg.

Lemma on_net_enable cfg rn e b : on_net (Enable (inl e) b) (with_net cfg rn) = (with_net cfg (enable_one (inl e) b rn), Ret tt).
Proof. done. Qed.

(** ** connect *)

(** The end point between [i] and [j], outgoing or incoming for [i], and those that a loop
    of connect or disconnect touches. *)
Definition link cfg (out : bool) (i j : nat) : option string := if out then name_of cfg i j else name_of cfg j i.
Definition touched cfg (out : bool) (i : nat) (P : nat -> bool) (j : nat) : option Name :=
  if P j then inl <$> link cfg out i j else None.
Definition touch cfg (out : bool) (i : nat) (P : nat -> bool) : list Name := omap (touched cfg out i P) (seq 0 (cf_n cfg)).

Lemma up_lookup cfg j : length (cf_connected cfg) = cf_n cfg -> (j < cf_n cfg)%nat -> cf_connected cfg !! j = Some (up cfg j).
Proof. intros Hw Hj. unfold up. destruct (lookup_lt_is_Some_2 (cf_connected cfg) j) as [b ->]; [by rewrite Hw|done]. Qed.

Lemma elem_of_touch cfg out i P e :
  inl e ∈ touch cfg out i P <-> exists j, (j < cf_n cfg)%nat /\ P j = true /\ link cfg out i j = Some e.
Proof.
  unfold touch. rewrite list_elem_of_omap. unfold touched. split.
  - intros (j & Hj%elem_of_seq & Ht). exists j. destruct (P j); [|done]. split; [lia|]. split; [done|].
    destruct (link cfg out i j); [|done]. by injection Ht as ->.
  - intros (j & Hj & HP & Hn). exists j. split; [apply elem_of_seq; lia|]. by rewrite HP, Hn.
Qed.

(** One loop. *)
Lemma run_touch cfg out i P b rn (cond : nat -> M (config (D:=D)) bool) :
  (forall j rn', (j < cf_n cfg)%nat -> cond j (with_net cfg rn') = (with_net cfg rn', Ret (P j))) ->
  (forall j, (j < cf_n cfg)%nat -> P j = true -> exists e, link cfg out i j = Some e) ->
  m_for (seq 0 (cf_n cfg)) (fun j =>
    c ← cond j;
    when c (e ← (if out then endname i j else endname j i); on_net (Enable (inl e) b))) (with_net cfg rn)
  = (with_net cfg (enable_all (touch cfg out i P) b rn), Ret tt).
Proof.
  intros Hc Hn. apply (for_enable (with_net cfg)). intros j rn' Hj%elem_of_seq.
  rewrite (bind_run _ _ _ _ _ (Hc j rn' ltac:(lia))). unfold touched. destruct (P j) eqn:HP; [|done]. simpl.
  destruct (Hn j ltac:(lia) HP) as [e He]. rewrite He. simpl.
  rewrite (bind_run _ _ _ (with_net cfg rn') e); [done|]. destruct out; by apply run_endname.
Qed.

(** The two loops of connect or disconnect: the outgoing, then the incoming end points. *)
Definition rewire cfg (i : nat) (Pout Pin : nat -> bool) (b : bool) : config (D:=D) :=
  with_net cfg (enable_all (touch cfg true i Pout ++ touch cfg false i Pin) b (cf_net cfg)).

Definition marked cfg (i : nat) (b : bool) : config (D:=D) := set_connected (<[i := b]> (cf_connected cfg)) cfg.

Lemma run_connect cfg i l :
  wired cfg -> (i < cf_n cfg)%nat -> cf_endnames cfg !! i = Some (Some l) ->
  connect i cfg = (let c := marked cfg i true in rewire c i (up c) (up c) true, Ret tt).
Proof.
  intros Hw Hi Hl. unfold connect. rewrite (bind_run _ _ _ _ _ (put_server_run cf_connected set_connected cfg i true ltac:(by rewrite (wi_connected _ Hw)))).
  fold (marked cfg i true). set (c := marked cfg i true). rewrite (bind_run _ _ c c (cf_n cfg)) by done. simpl.
  assert (Hlen : length (cf_connected c) = cf_n c) by (simpl; rewrite length_insert; apply Hw).
  assert (Hrow : forall j, up c j = true -> exists l, cf_endnames c !! j = Some (Some l)).
  { intros j. unfold up, c. simpl. destruct (decide (j = i)) as [->|Hne]; [by exists l|].
    rewrite list_lookup_insert_ne by done. apply (wi_up _ Hw). }
  assert (Hcond : forall j rn', (j < cf_n c)%nat -> at_server cf_connected j (with_net c rn') = (with_net c rn', Ret (up c j))).
  { intros j rn' Hj. apply at_server_run. by apply (up_lookup c). }
  assert (Hname : forall p q, up c p = true -> (q < cf_n c)%nat -> exists e, name_of c p q = Some e).
  { intros p q Hp Hq. destruct (Hrow p Hp) as [lp Hlp]. by apply (row_name cfg p lp). }
  assert (Hii : up c i = true) by (unfold up, c; simpl; by rewrite list_lookup_insert_eq by (rewrite (wi_connected _ Hw); done)).
  rewrite (bind_run _ _ _ _ _ (run_touch c true i (up c) true (cf_net cfg) _ Hcond ltac:(intros; by apply Hname))).
  rewrite (run_touch c false i (up c) true _ _ Hcond ltac:(intros; by apply Hname)).
  unfold rewire. by rewrite enable_all_app.
Qed.

Definition named cfg (i : nat) : bool := match cf_endnames cfg !! i with Some (Some _) => true | _ => false end.

Lemma run_has_names cfg i rn : (i < length (cf_endnames cfg))%nat -> has_names i (with_net cfg rn) = (with_net cfg rn, Ret (named cfg i)).
Proof.
  intros Hi. destruct (lookup_lt_is_Some_2 _ _ Hi) as [o Ho]. unfold has_names, named. rewrite Ho.
  rewrite (bind_run _ _ _ (with_net cfg rn) o) by (by apply at_server_run). unfold mret, M_ret. do 2 f_equal. by destruct o.
Qed.

Lemma named_name cfg p q : wired cfg -> named cfg p = true -> (q < cf_n cfg)%nat -> exists e, name_of cfg p q = Some e.
Proof.
  unfold named. intros Hw Hp Hq. destruct (cf_endnames cfg !! p) as [[l|]|] eqn:Hl; [|done..]. by eapply row_name.
Qed.

Lemma run_disconnect cfg i :
  wired cfg -> (i < cf_n cfg)%nat ->
  disconnect i cfg = (let c := marked cfg i false in rewire c i (fun _ => named c i) (named c) false, Ret tt).
Proof.
  intros Hw Hi. unfold disconnect.
  rewrite (bind_run _ _ _ _ _ (put_server_run cf_connected set_connected cfg i false ltac:(by rewrite (wi_connected _ Hw)))).
  fold (marked cfg i false). set (c := marked cfg i false). rewrite (bind_run _ _ c c (cf_n cfg)) by done. simpl.
  assert (Hc : forall j rn', (j < cf_n c)%nat -> has_names j (with_net c rn') = (with_net c rn', Ret (named c j)))
    by (intros j rn' Hj; apply run_has_names; simpl; by rewrite (wi_endnames _ Hw)).
  assert (Hci : forall j rn', (j < cf_n c)%nat -> has_names i (with_net c rn') = (with_net c rn', Ret (named c i)))
    by (intros j rn' _; by apply Hc).
  rewrite (bind_run _ _ _ _ _ (run_touch c true i (fun _ => named c i) false (cf_net cfg) (fun _ => has_names i) Hci
    ltac:(intros; by apply (named_name cfg)))).
  rewrite (run_touch c false i (named c) false _ _ Hc ltac:(intros; by apply (named_name cfg))).
  unfold rewire. by rewrite enable_all_app.
Qed.

(** ** The invariant *)

Lemma name_bounds cfg p q e : wired cfg -> name_of cfg p q = Some e -> (p < cf_n cfg)%nat /\ (q < cf_n cfg)%nat /\ named cfg p = true.
Proof.
  intros Hw. unfold name_of, named. destruct (cf_endnames cfg !! p) as [[l|]|] eqn:Hl; simpl; [|done..].
  intros Hq%lookup_lt_Some. rewrite (wi_rows _ Hw _ _ Hl) in Hq. apply lookup_lt_Some in Hl. rewrite (wi_endnames _ Hw) in Hl. done.
Qed.

(** Which end points a rewiring changes. *)
Lemma rewire_enabled cfg i Pout Pin b p q e :
  (forall i j i' j' e, name_of cfg i j = Some e -> name_of cfg i' j' = Some e -> i = i' /\ j = j') ->
  (p < cf_n cfg)%nat -> (q < cf_n cfg)%nat -> name_of cfg p q = Some e ->
  enabled (cf_net (rewire cfg i Pout Pin b)) !! inl e
  = if decide (p = i /\ Pout q = true \/ q = i /\ Pin p = true) then Some b else enabled (cf_net cfg) !! inl e.
Proof.
  intros Hinj Hp Hq He. unfold rewire. simpl. rewrite enable_all_lookup.
  assert (Hiff : inl e ∈ touch cfg true i Pout ++ touch cfg false i Pin <-> (p = i /\ Pout q = true \/ q = i /\ Pin p = true)).
  { rewrite elem_of_app, !elem_of_touch. simpl. split.
    - intros [(j & Hj & HP & Hn)|(j & Hj & HP & Hn)]; destruct (Hinj _ _ _ _ _ He Hn) as [-> ->]; auto.
    - intros [[-> HP]|[-> HP]]; [left; by exists q|right; by exists p]. }
  destruct (decide (inl e ∈ _)) as [Hin|Hout]; [rewrite decide_True by tauto|rewrite decide_False by tauto]; done.
Qed.

Lemma up_marked cfg i b j : (i < length (cf_connected cfg))%nat -> up (marked cfg i b) j = if decide (j = i) then b else up cfg j.
Proof.
  intros Hi. unfold up, marked. simpl. destruct (decide (j = i)) as [->|Hne]; [by rewrite list_lookup_insert_eq|].
  by rewrite list_lookup_insert_ne.
Qed.

Lemma rewired cfg i b Pout Pin :
  wired cfg -> (i < cf_n cfg)%nat -> (b = true -> named cfg i = true) ->
  let c := marked cfg i b in
  (forall p q e, name_of cfg p q = Some e ->
     (if decide (p = i /\ Pout q = true \/ q = i /\ Pin p = true) then b else up cfg p && up cfg q) = up c p && up c q) ->
  wired (rewire c i Pout Pin b).
Proof.
  intros Hw Hi Hb c Hcase. assert (Hwir : wiring (cf_net (rewire c i Pout Pin b)) = wiring (cf_net cfg)) by apply enable_all_wiring.
  pose proof (f_equal (fun w => w.1.1.1) Hwir) as Eends. pose proof (f_equal (fun w => w.1.1.2) Hwir) as Econn. cbn in Eends, Econn. split.
  - simpl. rewrite length_insert. apply Hw.
  - apply Hw.
  - apply (wi_rows _ Hw).
  - intros j. change (up (rewire c i Pout Pin b) j) with (up c j). unfold c. rewrite up_marked by (rewrite (wi_connected _ Hw); done).
    case_decide as Hd; [|apply (wi_up _ Hw)]. subst. intros Hbt. specialize (Hb Hbt). unfold named in Hb.
    change (cf_endnames (rewire _ _ _ _ _)) with (cf_endnames cfg). destruct (cf_endnames cfg !! i) as [[l|]|]; [by exists l|done..].
  - apply (wi_inj _ Hw).
  - intros p q e He. change (name_of cfg p q = Some e) in He. destruct (name_bounds _ _ _ _ Hw He) as (Hp & Hq & _).
    rewrite (rewire_enabled c i Pout Pin b p q e (wi_inj _ Hw) Hp Hq He). change (cf_net c) with (cf_net cfg).
    rewrite (wi_enabled _ Hw p q e He). change (up (rewire c i Pout Pin b)) with (up c). rewrite <- (Hcase p q e He). by case_decide.
  - intros p q e He. etrans; [|by apply (wi_connections _ Hw p q e)]. exact (f_equal (.!! _) Econn).
  - intros p q e He. pose proof (wi_ends _ Hw p q e He) as Hin. rewrite <- Eends in Hin. exact Hin.
Qed.

(** What connecting and disconnecting leave alone. *)
Definition rest cfg := (cf_n cfg, cf_endnames cfg, cf_rafts cfg, cf_saved cfg, cf_logs cfg, cf_lastApplied cfg, cf_objects cfg).

Lemma connect_wired cfg i :
  wired cfg -> (i < cf_n cfg)%nat -> named cfg i = true ->
  exists cfg', connect i cfg = (cfg', Ret tt) /\ wired cfg' /\ rest cfg' = rest cfg
    /\ (forall j, up cfg' j = if decide (j = i) then true else up cfg j) /\ servers (cf_net cfg') = servers (cf_net cfg)
    /\ ends (cf_net cfg') = ends (cf_net cfg).
Proof.
  intros Hw Hi Hn. assert (Hl : exists l, cf_endnames cfg !! i = Some (Some l)).
  { unfold named in Hn. destruct (cf_endnames cfg !! i) as [[l|]|]; [by exists l|done..]. }
  destruct Hl as [l Hl]. assert (Hlt : (i < length (cf_connected cfg))%nat) by (by rewrite (wi_connected _ Hw)).
  eexists. split; [by eapply run_connect|]. split_and!; try done.
  - apply rewired; try done. intros p q e He. rewrite !up_marked by done.
    destruct (decide (p = i)), (decide (q = i)), (up cfg p), (up cfg q); simpl; case_decide; simpl; naive_solver.
  - intros j. by apply up_marked.
  - exact (f_equal (fun w => w.1.2) (enable_all_wiring _ true (cf_net cfg))).
  - exact (f_equal (fun w => w.1.1.1) (enable_all_wiring _ true (cf_net cfg))).
Qed.

Lemma disconnect_wired cfg i :
  wired cfg -> (i < cf_n cfg)%nat ->
  exists cfg', disconnect i cfg = (cfg', Ret tt) /\ wired cfg' /\ rest cfg' = rest cfg
    /\ (forall j, up cfg' j = if decide (j = i) then false else up cfg j) /\ servers (cf_net cfg') = servers (cf_net cfg)
    /\ ends (cf_net cfg') = ends (cf_net cfg).
Proof.
  intros Hw Hi. assert (Hlt : (i < length (cf_connected cfg))%nat) by (by rewrite (wi_connected _ Hw)).
  eexists. split; [by apply run_disconnect|]. split_and!; try done.
  - apply rewired; try done. intros p q e He. rewrite !up_marked by done. destruct (name_bounds _ _ _ _ Hw He) as (_ & _ & Hp).
    change (named (marked cfg i false)) with (named cfg).
    destruct (decide (p = i)), (decide (q = i)), (up cfg p), (up cfg q); simpl; case_decide; simpl; naive_solver.
  - intros j. by apply up_marked.
  - exact (f_equal (fun w => w.1.2) (enable_all_wiring _ false (cf_net cfg))).
  - exact (f_equal (fun w => w.1.1.1) (enable_all_wiring _ false (cf_net cfg))).
Qed.

(** ** Crash and restart *)

(** The storage of a server. *)
Definition storage cfg (i : nat) : option Persister :=
  match cf_saved cfg !! i with
  | Some (Owned ps) => Some ps
  | Some Shared => o ← cf_rafts cfg !! i; persister <$> o
  | _ => None
  end.

(** [k] is the labrpc server of [i]'s present instance: the last one made for it. *)
Definition present cfg (i k : nat) : Prop :=
  cf_objects cfg !! k = Some i /\ forall k', (k < k')%nat -> cf_objects cfg !! k' <> Some i.

Record harness_ok cfg : Prop :=
  { ho_wired : wired cfg;
    ho_rafts : length (cf_rafts cfg) = cf_n cfg;
    ho_saved : length (cf_saved cfg) = cf_n cfg;
    ho_logs : length (cf_logs cfg) = cf_n cfg;
    ho_applied : length (cf_lastApplied cfg) = cf_n cfg;
    ho_shared : forall i, cf_saved cfg !! i = Some Shared <-> exists rf, cf_rafts cfg !! i = Some (Some rf);
    ho_registered : forall i, is_Some (server_of (inr (Z.of_nat i)) (cf_net cfg)) <-> exists rf, cf_rafts cfg !! i = Some (Some rf);
    ho_present : forall i k, server_of (inr (Z.of_nat i)) (cf_net cfg) = Some k -> present cfg i k }.

Lemma present_app cfg cfg' i j k :
  cf_objects cfg' = cf_objects cfg ++ [i] -> i <> j -> present cfg j k -> present cfg' j k.
Proof.
  intros E Hne [Hk Hlast]. unfold present. rewrite E. split; [by apply lookup_app_l_Some|].
  intros k' Hk' [Ho|[_ [_ Ho]%list_lookup_singleton_Some]]%lookup_app_Some; [by apply (Hlast k')|done].
Qed.

Lemma present_new cfg cfg' i : cf_objects cfg' = cf_objects cfg ++ [i] -> present cfg' i (length (cf_objects cfg)).
Proof.
  intros E. unfold present. rewrite E. split; [by apply list_lookup_middle|]. intros k Hk Ho%lookup_lt_Some.
  rewrite length_app in Ho. simpl in Ho. lia.
Qed.

(** What depends on the network, the names and the connections only. *)
Lemma wired_frame cfg cfg' :
  wired cfg -> cf_n cfg' = cf_n cfg -> cf_connected cfg' = cf_connected cfg -> cf_endnames cfg' = cf_endnames cfg ->
  enabled (cf_net cfg') = enabled (cf_net cfg) -> connections (cf_net cfg') = connections (cf_net cfg) ->
  ends (cf_net cfg') = ends (cf_net cfg) -> wired cfg'.
Proof.
  intros [W1 W2 W3 W4 W5 W6 W7 W8] En Ec Ee E1 E2 E3. unfold name_of, up in *. by split; unfold name_of, up; rewrite ?En, ?Ec, ?Ee, ?E1, ?E2, ?E3.
Qed.

Lemma run_saved_at cfg i s :
  cf_saved cfg !! i = Some s -> (s = Shared -> is_Some (cf_rafts cfg !! i)) -> saved_at i cfg = (cfg, Ret (storage cfg i)).
Proof.
  intros Hs Hr. unfold saved_at, storage. rewrite (bind_run _ _ _ _ _ (at_server_run _ _ _ _ Hs)), Hs. destruct s; [done| |done].
  destruct (Hr eq_refl) as [o Ho]. rewrite (bind_run _ _ _ _ _ (at_server_run _ _ _ _ Ho)), Ho. done.
Qed.

(** The storage as the harness keeps it while the server does not run. *)
Definition kept (o : option Persister) : Saved := match o with Some ps => Owned ps | None => Nil end.

Lemma storage_shared cfg i : harness_ok cfg -> cf_saved cfg !! i = Some Shared -> is_Some (storage cfg i).
Proof. intros Hh Hs. destruct (proj1 (ho_shared _ Hh i) Hs) as [rf Hr]. unfold storage. rewrite Hs, Hr. by eexists. Qed.

Lemma run_copy_saved cfg i s :
  cf_saved cfg !! i = Some s -> (s = Shared -> exists rf, cf_rafts cfg !! i = Some (Some rf)) ->
  copy_saved i cfg = (set_saved (<[i := kept (storage cfg i)]> (cf_saved cfg)) cfg, Ret tt).
Proof.
  intros Hs Hr. unfold copy_saved. rewrite (bind_run _ _ cfg cfg (storage cfg i)).
  2:{ eapply run_saved_at; [exact Hs|]. intros E. destruct (Hr E) as [rf ->]. by eexists. }
  destruct (storage cfg i) as [ps|] eqn:E.
  - rewrite (put_server_run cf_saved set_saved) by (by eapply lookup_lt_Some). by destruct ps.
  - assert (s = Nil) as ->; [|by rewrite list_insert_id by done; destruct cfg].
    unfold storage in E. rewrite Hs in E. destruct s; [done| |done]. destruct (Hr eq_refl) as [rf Hrf]. by rewrite Hrf in E.
Qed.

(** After a crash: disconnected, not registered, not running; only the storage is left. *)
Definition crashed cfg cfg' (i : nat) : Prop :=
  wired cfg' /\ cf_n cfg' = cf_n cfg /\ cf_endnames cfg' = cf_endnames cfg
  /\ (forall j, up cfg' j = if decide (j = i) then false else up cfg j)
  /\ cf_rafts cfg' = <[i := None]> (cf_rafts cfg) /\ cf_saved cfg' = <[i := kept (storage cfg i)]> (cf_saved cfg)
  /\ cf_logs cfg' = cf_logs cfg /\ cf_lastApplied cfg' = cf_lastApplied cfg /\ cf_objects cfg' = cf_objects cfg
  /\ servers (cf_net cfg') = <[inr (Z.of_nat i) := None]> (servers (cf_net cfg)) /\ ends (cf_net cfg') = ends (cf_net cfg).

Lemma run_crash1 cfg i :
  harness_ok cfg -> (i < cf_n cfg)%nat -> exists cfg', crash1 i cfg = (cfg', Ret tt) /\ crashed cfg cfg' i.
Proof.
  intros Hh Hi. destruct (lookup_lt_is_Some_2 (cf_saved cfg) i) as [s Hs]; [by rewrite (ho_saved _ Hh)|].
  destruct (disconnect_wired cfg i (ho_wired _ Hh) Hi) as (c1 & Hd & Hw & Hrest & Hup & Hsv & Hends).
  injection Hrest as En Ee Er Es El Ea Eo. unfold crash1. rewrite (bind_run _ _ _ _ _ Hd).
  set (c2 := set_cfnet (set_servers (<[inr (Z.of_nat i) := None]> (servers (cf_net c1))) (cf_net c1)) c1).
  rewrite (bind_run _ _ c1 c2 tt) by done.
  assert (Hst : storage c2 i = storage cfg i) by (unfold storage; simpl; by rewrite Es, Er).
  rewrite (bind_run _ _ _ _ _ (run_copy_saved c2 i s ltac:(simpl; by rewrite Es) ltac:(intros ->; simpl; rewrite Er; by apply (ho_shared _ Hh)))).
  rewrite Hst. set (c3 := set_saved (<[i := kept (storage cfg i)]> (cf_saved c2)) c2).
  rewrite (bind_run _ _ _ _ _ (put_server_run cf_rafts set_rafts c3 i None ltac:(simpl; rewrite Er, (ho_rafts _ Hh); done))).
  set (c4 := set_rafts _ c3). assert (Hc4 : crashed cfg c4 i).
  { unfold crashed. simpl. rewrite ?En, ?Ee, ?Er, ?Es, ?El, ?Ea. split_and!; try done; [|by rewrite Hsv]. by eapply (wired_frame c1). }
  assert (Hs4 : cf_saved c4 !! i = Some (kept (storage cfg i))).
  { simpl. rewrite Es. apply list_lookup_insert_eq. by eapply lookup_lt_Some. }
  rewrite (bind_run _ _ _ _ _ (run_saved_at c4 i _ Hs4 ltac:(by destruct (storage cfg i)))).
  assert (Hst4 : storage c4 i = storage cfg i) by (unfold storage at 1; rewrite Hs4; by destruct (storage cfg i)).
  rewrite Hst4. destruct (storage cfg i) as [ps|] eqn:E; [|by exists c4].
  rewrite (put_server_run cf_saved set_saved) by (by eapply lookup_lt_Some). eexists. split; [done|].
  destruct Hc4 as (H1' & H2' & H3' & H4' & H5' & H6' & H7' & H8' & H9' & H10' & H11'). unfold crashed. rewrite E.
  split_and!; try done; [by eapply (wired_frame c4)|]. simpl. rewrite Es, list_insert_insert_eq. by destruct ps.
Qed.

(** ** Fresh end points *)

Lemma run_make_ends c i l rn :
  cf_endnames c !! i = Some (Some l) -> NoDup l -> (forall e, e ∈ l -> inl e ∉ ends rn) ->
  exists rn', m_for (seq 0 (length l)) (fun j =>
      e ← endname i j;
      on_net (MakeEnd (inl e));;
      on_net (Connect (inl e) (inr (Z.of_nat j)))) (with_net c rn) = (with_net c rn', Ret tt)
    /\ linked rn rn' l.
Proof.
  intros Hl Hnd Hf. apply (for_link (with_net c)); [done..|]. intros j e rn' Hj He.
  rewrite (bind_run _ _ _ _ _ (run_endname (with_net c rn') i j e ltac:(unfold name_of; simpl; by rewrite Hl))).
  rewrite (bind_run _ _ _ (with_net c (fst (MakeEnd (inl e) rn'))) tt) by (unfold on_net; cbn [with_net set_cfnet cf_net]; by rewrite run_MakeEnd).
  by rewrite run_MakeEnd.
Qed.

(** ** Start *)

(** A server with a fresh row of names and no connection keeps the wiring. *)
Lemma fresh_row cfg i es rn' :
  wired cfg -> (i < cf_n cfg)%nat -> up cfg i = false -> length es = cf_n cfg -> NoDup es ->
  (forall e, e ∈ es -> inl e ∉ ends (cf_net cfg)) -> linked (cf_net cfg) rn' es ->
  wired (with_net (set_endnames (<[i := Some es]> (cf_endnames cfg)) cfg) rn').
Proof.
  intros Hw Hi Hup Hlen Hnd Hfresh [L1 L2 L3 L4 L5]. set (c := with_net _ _).
  assert (Hlt : (i < length (cf_endnames cfg))%nat) by (by rewrite (wi_endnames _ Hw)).
  assert (Hname : forall p q e, name_of c p q = Some e ->
    (p = i /\ es !! q = Some e) \/ (p <> i /\ name_of cfg p q = Some e /\ forall e', e' ∈ es -> (inl e : Name) <> inl e')).
  { intros p q e. unfold name_of, c. simpl. destruct (decide (p = i)) as [->|Hne]; [rewrite list_lookup_insert_eq by done; by left|].
    rewrite list_lookup_insert_ne by done. intros He. right. split_and!; try done. intros e' He' [= ->].
    by apply (Hfresh _ He'), (wi_ends _ Hw p q). }
  split.
  - apply Hw.
  - simpl. by rewrite length_insert, (wi_endnames _ Hw).
  - intros p l. simpl. intros [(-> & [= <-] & _)|[_ Hl]]%list_lookup_insert_Some; [done|by eapply (wi_rows _ Hw)].
  - intros p Hp. change (up c p) with (up cfg p) in Hp. simpl. rewrite list_lookup_insert_ne by (intros ->; congruence). by apply (wi_up _ Hw).
  - intros p q p' q' e H1' H2'. apply Hname in H1' as [[-> Hq]|(Hp & Hq & Ho)], H2' as [[-> Hq']|(Hp' & Hq' & Ho')].
    + split; [done|]. by eapply NoDup_lookup.
    + exfalso. by apply (Ho' e); [eapply list_elem_of_lookup_2|].
    + exfalso. by apply (Ho e); [eapply list_elem_of_lookup_2|].
    + by eapply (wi_inj _ Hw).
  - intros p q e He. change (up c) with (up cfg). apply Hname in He as [[-> Hq]|(Hp & Hq & Ho)]; simpl.
    + rewrite Hup, L3; [done|by eapply list_elem_of_lookup_2].
    + destruct (L5 (inl e) Ho) as [-> _]. by apply (wi_enabled _ Hw).
  - intros p q e He. apply Hname in He as [[-> Hq]|(Hp & Hq & Ho)]; simpl; [by rewrite (L4 _ _ Hq)|].
    destruct (L5 (inl e) Ho) as [_ ->]. by eapply (wi_connections _ Hw).
  - intros p q e He. simpl. apply L2. apply Hname in He as [[-> Hq]|(Hp & Hq & Ho)].
    + right. exists e. split; [done|by eapply list_elem_of_lookup_2].
    + left. by eapply (wi_ends _ Hw).
Qed.

(** What a start changes besides the names: the records and lastApplied of the server. *)
Definition same_net cfg cfg' : Prop :=
  cf_n cfg' = cf_n cfg /\ cf_connected cfg' = cf_connected cfg /\ cf_endnames cfg' = cf_endnames cfg /\ cf_net cfg' = cf_net cfg
  /\ cf_rafts cfg' = cf_rafts cfg /\ cf_objects cfg' = cf_objects cfg
  /\ length (cf_logs cfg') = length (cf_logs cfg) /\ length (cf_lastApplied cfg') = length (cf_lastApplied cfg).

(** A snapshot the harness can read. *)
Definition readable (b : bytes) : Prop := b = [] \/ exists k xlog, dec_xlog b = Some (k, xlog).

Lemma run_ingest cfg i b :
  (i < length (cf_logs cfg))%nat -> (i < length (cf_lastApplied cfg))%nat -> readable b ->
  exists cfg', when (negb (bool_decide (b = []))) (err ← ingestSnap i b (-1); fatal err) cfg = (cfg', Ret tt)
    /\ same_net cfg cfg' /\ cf_saved cfg' = cf_saved cfg.
Proof.
  intros Hl Ha Hr. case_bool_decide as Hb; simpl; [by exists cfg|]. destruct Hr as [?|(k & xlog & Hd)]; [done|].
  eexists. split.
  - rewrite (bind_run _ _ cfg (set_cfapplied (<[i := k]> (cf_lastApplied cfg)) (set_logs (<[i := xlog_map xlog]> (cf_logs cfg)) cfg)) None); [done|].
    unfold ingestSnap. rewrite decide_False, Hd by done. simpl.
    rewrite (bind_run _ _ _ _ _ (put_server_run cf_logs set_logs cfg i (xlog_map xlog) Hl)).
    rewrite (bind_run _ _ _ _ _ (put_server_run cf_lastApplied set_cfapplied (set_logs _ cfg) i k Ha)). done.
  - split; [|done]. unfold same_net. simpl. by rewrite !length_insert.
Qed.

Lemma run_load_saved cfg i st :
  cf_saved cfg !! i = Some (kept st) -> (i < length (cf_logs cfg))%nat -> (i < length (cf_lastApplied cfg))%nat ->
  readable (ReadSnapshot (default MakePersister st)) ->
  exists cfg', load_saved i cfg = (cfg', Ret tt) /\ same_net cfg cfg' /\ cf_saved cfg' = <[i := Owned (default MakePersister st)]> (cf_saved cfg).
Proof.
  intros Hs Hl Ha Hr. unfold load_saved. assert (Hst : storage cfg i = st) by (unfold storage; rewrite Hs; by destruct st).
  assert (Hnsh : kept st = Shared -> False) by (by destruct st).
  rewrite (bind_run _ _ _ _ _ (run_saved_at cfg i _ Hs ltac:(by intros ?%Hnsh))), Hst. destruct st as [ps|]; simpl in *.
  - rewrite (bind_run _ _ _ _ _ (run_copy_saved cfg i _ Hs ltac:(done))), Hst. simpl.
    destruct (run_ingest (set_saved (<[i := Owned ps]> (cf_saved cfg)) cfg) i (ReadSnapshot (Copy ps))) as (c' & Hrun & Hsame & Hsv); [done..|].
    exists c'. split; [exact Hrun|]. split; [exact Hsame|]. by rewrite Hsv.
  - rewrite (put_server_run cf_saved set_saved) by (by eapply lookup_lt_Some). eexists. split; [done|]. done.
Qed.

Lemma run_fresh_ends cfg i names :
  wired cfg -> (i < cf_n cfg)%nat -> up cfg i = false -> (cf_n cfg <= length names)%nat -> NoDup (take (cf_n cfg) names) ->
  (forall e, e ∈ take (cf_n cfg) names -> inl e ∉ ends (cf_net cfg)) ->
  exists rn', let es := take (cf_n cfg) names in
    let cfg' := with_net (set_endnames (<[i := Some es]> (cf_endnames cfg)) cfg) rn' in
    fresh_ends i names cfg = (cfg', Ret tt) /\ wired cfg' /\ linked (cf_net cfg) rn' es.
Proof.
  intros Hw Hi Hup Hlen Hnd Hfresh. unfold fresh_ends. rewrite (bind_run _ _ cfg cfg (cf_n cfg)) by done. set (es := take (cf_n cfg) names) in *.
  assert (Hles : length es = cf_n cfg) by (unfold es; rewrite length_take; lia).
  rewrite (bind_run _ _ _ _ _ (put_server_run cf_endnames set_endnames cfg i (Some es) ltac:(by rewrite (wi_endnames _ Hw)))).
  set (c2 := set_endnames _ cfg).
  destruct (run_make_ends c2 i es (cf_net cfg)) as (rn' & Hrun & Hlk);
    [simpl; by rewrite list_lookup_insert_eq by (by rewrite (wi_endnames _ Hw))|done..|].
  rewrite Hles in Hrun. exists rn'. split; [exact Hrun|]. split; [|done]. by apply fresh_row.
Qed.

(** The server runs on [rf]. *)
Definition running_as cfg (i : nat) (rf : Raft D) : config (D:=D) :=
  set_cfnet (set_servers (<[inr (Z.of_nat i) := Some (length (cf_objects cfg))]> (servers (cf_net cfg))) (cf_net cfg))
    (set_objects (cf_objects cfg ++ [i])
      (set_saved (<[i := Shared]> (cf_saved cfg)) (set_rafts (<[i := Some rf]> (cf_rafts cfg)) cfg))).

Lemma run_launch cfg i now ps rf' :
  (i < length (cf_rafts cfg))%nat -> cf_saved cfg !! i = Some (Owned ps) ->
  Make (cf_n cfg) (Z.of_nat i) now ps = (rf', Ret tt) -> launch i now cfg = (running_as cfg i rf', Ret tt).
Proof.
  intros Hir Hs Hmk. unfold launch. rewrite (bind_run _ _ cfg cfg (cf_n cfg)) by done.
  rewrite (bind_run _ _ _ _ _ (run_saved_at cfg i _ Hs ltac:(done))).
  assert (storage cfg i = Some ps) as -> by (unfold storage; by rewrite Hs). change (default MakePersister (Some ps)) with ps. rewrite Hmk.
  rewrite (bind_run _ _ cfg cfg tt) by done. rewrite (bind_run _ _ _ _ _ (put_server_run cf_rafts set_rafts cfg i (Some rf') Hir)).
  rewrite (bind_run _ _ _ _ _ (put_server_run cf_saved set_saved (set_rafts _ cfg) i Shared ltac:(by eapply lookup_lt_Some))). done.
Qed.

(** Starting, or crashing and restarting, a server: it is made from the storage it had,
    with fresh names, registered and disconnected; the others are left alone. *)
Definition started cfg cfg' (i : nat) (es : list string) (rf : Raft D) : Prop :=
  cf_n cfg' = cf_n cfg /\ cf_rafts cfg' = <[i := Some rf]> (cf_rafts cfg) /\ cf_endnames cfg' = <[i := Some es]> (cf_endnames cfg)
  /\ (forall j, up cfg' j = if decide (j = i) then false else up cfg j)
  /\ (forall j, j <> i -> storage cfg' j = storage cfg j)
  /\ servers (cf_net cfg') = <[inr (Z.of_nat i) := Some (length (cf_objects cfg))]> (servers (cf_net cfg))
  /\ (forall x, x ∈ ends (cf_net cfg') <-> x ∈ ends (cf_net cfg) \/ exists e, x = inl e /\ e ∈ es).

Lemma run_start1 cfg i names now rf' :
  harness_ok cfg -> (i < cf_n cfg)%nat -> (cf_n cfg <= length names)%nat -> NoDup (take (cf_n cfg) names) ->
  (forall e, e ∈ take (cf_n cfg) names -> inl e ∉ ends (cf_net cfg)) ->
  let ps := default MakePersister (storage cfg i) in
  readable (ReadSnapshot ps) -> Make (cf_n cfg) (Z.of_nat i) now ps = (rf', Ret tt) ->
  exists cfg', start1 i names now cfg = (cfg', Ret tt) /\ harness_ok cfg' /\ started cfg cfg' i (take (cf_n cfg) names) rf'.
Proof.
  intros Hh Hi Hlen Hnd Hfresh ps Hread Hmk. unfold start1.
  destruct (run_crash1 cfg i Hh Hi) as (c1 & Hc & Hw1 & En & Ee & Hup & Er & Es & El & Ea & Eo & Esv & Eends).
  rewrite (bind_run _ _ _ _ _ Hc). rewrite <- En in Hlen, Hnd, Hfresh. rewrite <- Eends in Hfresh.
  destruct (run_fresh_ends c1 i names) as (rn' & Hrun & Hw3 & Hlk); [done|by rewrite En|rewrite Hup; by rewrite decide_True|done..|].
  rewrite En in *. set (es := take (cf_n cfg) names) in *. rewrite (bind_run _ _ _ _ _ Hrun). set (c3 := with_net _ rn') in *.
  assert (Hia : (i < length (cf_lastApplied c3))%nat) by (simpl; by rewrite Ea, (ho_applied _ Hh)).
  rewrite (bind_run _ _ _ _ _ (put_server_run cf_lastApplied set_cfapplied c3 i 0 Hia)). set (c4 := set_cfapplied _ c3).
  assert (His : (i < length (cf_saved cfg))%nat) by (by rewrite (ho_saved _ Hh)).
  destruct (run_load_saved c4 i (storage cfg i)) as (c5 & Hp & (S1 & S2 & S3 & S4 & S5 & S6 & S7 & S8) & Hsv5);
    [simpl; by rewrite Es, list_lookup_insert_eq|simpl; by rewrite El, (ho_logs _ Hh)|simpl; by rewrite length_insert|done|].
  rewrite (bind_run _ _ _ _ _ Hp). simpl in S1, S2, S3, S4, S5, S6, S7, S8, Hsv5. rewrite Es, list_insert_insert_eq in Hsv5.
  assert (Hs5 : cf_saved c5 !! i = Some (Owned ps)) by (rewrite Hsv5; by apply list_lookup_insert_eq).
  assert (Hir : (i < length (cf_rafts c5))%nat) by (rewrite S5, Er, length_insert, (ho_rafts _ Hh); done).
  exists (running_as c5 i rf'). split; [apply (run_launch c5 i now ps); [done..|by rewrite S1, En]|].
  rewrite Er in S5. rewrite Eo in S6. destruct Hlk as [L1 L2 _ _ _]. split.
  - split; simpl; rewrite ?length_insert, ?S1, ?En.
    + eapply (wired_frame c3); simpl; try done; by rewrite S4.
    + rewrite S5, length_insert. apply Hh.
    + rewrite Hsv5, length_insert. apply Hh.
    + rewrite S7, El. apply Hh.
    + rewrite S8, length_insert, Ea. apply Hh.
    + intros j. rewrite S5, Hsv5, !list_insert_insert_eq. destruct (decide (j = i)) as [->|Hne].
      * rewrite !list_lookup_insert_eq by (by rewrite ?(ho_rafts _ Hh)). split; [by eexists|done].
      * rewrite !list_lookup_insert_ne by done. apply (ho_shared _ Hh).
    + intros j. rewrite S5, list_insert_insert_eq. unfold server_of. simpl. rewrite S4. simpl. rewrite L1, Esv, insert_insert_eq.
      destruct (decide (j = i)) as [->|Hne].
      * rewrite lookup_insert_eq, list_lookup_insert_eq by (by rewrite (ho_rafts _ Hh)). split; [by eexists|by eexists].
      * rewrite lookup_insert_ne, list_lookup_insert_ne by (try done; intros [= E]; lia). apply (ho_registered _ Hh).
    + assert (Eob : cf_objects (running_as c5 i rf') = cf_objects cfg ++ [i]) by (simpl; by rewrite S6).
      intros j k. unfold server_of. simpl. rewrite S4. simpl. rewrite L1, Esv, insert_insert_eq. destruct (decide (j = i)) as [->|Hne].
      * rewrite lookup_insert_eq. intros [= <-]. rewrite S6. by apply (present_new cfg).
      * rewrite lookup_insert_ne by (intros [= E]; lia). intros Hk. eapply (present_app cfg); [done..|by apply (ho_present _ Hh)].
  - unfold started. simpl. rewrite S1, S3, S5, S6, S4, list_insert_insert_eq. split_and!; try done.
    + by rewrite Ee.
    + intros j. unfold up in *. simpl. rewrite S2. apply Hup.
    + intros j Hne. unfold storage. simpl. rewrite Hsv5, S5. by rewrite !list_lookup_insert_ne by done.
    + rewrite Esv in L1. simpl. by rewrite L1, insert_insert_eq.
    + intros x. simpl. by rewrite L2, Eends.
Qed.

(** ** Executions of the harness *)

Lemma frame_ok cfg cfg' :
  harness_ok cfg -> wired cfg' -> rest cfg' = rest cfg -> servers (cf_net cfg') = servers (cf_net cfg) -> harness_ok cfg'.
Proof.
  intros [H1' H2' H3' H4' H5' H6' H7' H8'] Hw [= En Ee Er Es El Ea Eo] Esv. unfold server_of, present in *.
  split; unfold server_of, present; rewrite ?En, ?Er, ?Es, ?El, ?Ea, ?Esv, ?Eo; done.
Qed.

Lemma crash1_ok cfg cfg' i : harness_ok cfg -> (i < cf_n cfg)%nat -> crashed cfg cfg' i -> harness_ok cfg'.
Proof.
  intros Hh Hi (Hw & En & Ee & Hup & Er & Es & El & Ea & Eo & Esv & Eends).
  split; rewrite ?En, ?Er, ?Es, ?El, ?Ea, ?length_insert; try apply Hh; [done|..]; intros j; [| |intros k].
  - destruct (decide (j = i)) as [->|Hne]; [|rewrite !list_lookup_insert_ne by done; apply (ho_shared _ Hh)].
    rewrite !list_lookup_insert_eq by (rewrite ?(ho_saved _ Hh), ?(ho_rafts _ Hh); done).
    split; [by destruct (storage cfg i)|by intros [? ?]].
  - unfold server_of. rewrite Esv. destruct (decide (j = i)) as [->|Hne].
    + rewrite lookup_insert_eq, list_lookup_insert_eq by (by rewrite (ho_rafts _ Hh)). split; [by intros [? ?]|by intros [? ?]].
    + rewrite lookup_insert_ne, list_lookup_insert_ne by (try done; intros [= E]; lia). apply (ho_registered _ Hh).
  - unfold server_of, present. rewrite Esv, Eo. destruct (decide (j = i)) as [->|Hne]; [by rewrite lookup_insert_eq|].
    rewrite lookup_insert_ne by (intros [= E]; lia). apply (ho_present _ Hh).
Qed.

Inductive hstep cfg : config (D:=D) -> Prop :=
| h_connect i cfg' : (i < cf_n cfg)%nat -> named cfg i = true -> connect i cfg = (cfg', Ret tt) -> hstep cfg cfg'
| h_disconnect i cfg' : (i < cf_n cfg)%nat -> disconnect i cfg = (cfg', Ret tt) -> hstep cfg cfg'
| h_crash i cfg' : (i < cf_n cfg)%nat -> crash1 i cfg = (cfg', Ret tt) -> hstep cfg cfg'
| h_start i names now rf' cfg' :
    (i < cf_n cfg)%nat -> (cf_n cfg <= length names)%nat -> NoDup (take (cf_n cfg) names) ->
    (forall e, e ∈ take (cf_n cfg) names -> inl e ∉ ends (cf_net cfg)) ->
    readable (ReadSnapshot (default MakePersister (storage cfg i))) ->
    Make (cf_n cfg) (Z.of_nat i) now (default MakePersister (storage cfg i)) = (rf', Ret tt) ->
    start1 i names now cfg = (cfg', Ret tt) -> hstep cfg cfg'
| h_peer i rf rf' : (* a running peer changes its state *)
    cf_rafts cfg !! i = Some (Some rf) -> hstep cfg (set_rafts (<[i := Some rf']> (cf_rafts cfg)) cfg).

Lemma running_insert cfg i rf rf' j :
  cf_rafts cfg !! i = Some (Some rf) ->
  (exists r, <[i := Some rf']> (cf_rafts cfg) !! j = Some (Some r)) <-> exists r, cf_rafts cfg !! j = Some (Some r).
Proof.
  intros Hi. destruct (decide (i = j)) as [<-|Hne]; [|by rewrite list_lookup_insert_ne].
  rewrite list_lookup_insert_eq by (by eapply lookup_lt_Some). split; intros _; [by exists rf|by exists rf'].
Qed.

Lemma hstep_ok cfg cfg' : harness_ok cfg -> hstep cfg cfg' -> harness_ok cfg'.
Proof.
  intros Hh [i c Hi Hn Hr|i c Hi Hr|i c Hi Hr|i names now rf' c Hi Hlen Hnd Hf Hrd Hmk Hr|i rf rf' Hi].
  - destruct (connect_wired cfg i (ho_wired _ Hh) Hi Hn) as (c' & Hr' & Hw & Hrest & _ & Hsv & _).
    rewrite Hr in Hr'. injection Hr' as ->. by eapply frame_ok.
  - destruct (disconnect_wired cfg i (ho_wired _ Hh) Hi) as (c' & Hr' & Hw & Hrest & _ & Hsv & _).
    rewrite Hr in Hr'. injection Hr' as ->. by eapply frame_ok.
  - destruct (run_crash1 cfg i Hh Hi) as (c' & Hr' & Hc). rewrite Hr in Hr'. injection Hr' as ->. by eapply crash1_ok.
  - destruct (run_start1 cfg i names now rf' Hh Hi Hlen Hnd Hf Hrd Hmk) as (c' & Hr' & Hok & _).
    rewrite Hr in Hr'. by injection Hr' as ->.
  - pose proof Hh as [H1' H2' H3' H4' H5' H6' H7' H8']. split; simpl; rewrite ?length_insert; try done.
    + by eapply (wired_frame cfg).
    + intros j. rewrite (running_insert _ _ _ _ _ Hi). apply H6'.
    + intros j. rewrite (running_insert _ _ _ _ _ Hi). apply H7'.
Qed.

Lemma blank_ok n : harness_ok (blank_config (D:=D) n).
Proof.
  assert (Hno : forall i j, name_of (blank_config (D:=D) n) i j = None).
  { intros i j. unfold name_of. simpl. destruct (replicate n None !! i) as [o|] eqn:E; [|done]. simpl.
    by apply lookup_replicate in E as [-> _]. }
  split; simpl; rewrite ?length_replicate; try done.
  - split; simpl; rewrite ?length_replicate; try done; try (by intros; rewrite Hno in *).
    + intros i l [? _]%lookup_replicate. done.
    + intros i. unfold up. simpl. destruct (replicate n false !! i) as [b|] eqn:E; [|done]. by apply lookup_replicate in E as [-> _].
  - intros i. split; [by intros [? _]%lookup_replicate|]. by intros [rf [? _]%lookup_replicate].
  - intros i. change (server_of (inr (Z.of_nat i)) MakeNetwork) with (@None nat). split; [by intros [? ?]|]. by intros [rf [? _]%lookup_replicate].
Qed.

(** C32.  Connectivity: after any sequence of connecting, disconnecting, crashing and
    (re)starting servers, and whatever the running peers do, a request over the end point from server [i] to server [j] is
    let through exactly when both are connected, a labrpc server is found at its other end
    exactly when [j] runs, and that server is the last one made for [j]: the one over
    the peer that [j]'s latest start made, not one left from before a crash, nor
    another server's. *)
Theorem harness_connectivity n cfg (i j : nat) e :
  rtc hstep (blank_config n) cfg -> name_of cfg i j = Some e ->
  let '(ok, servername, server, _, _) := readEndnameInfo (inl e) (cf_net cfg) in
  ok = up cfg i && up cfg j /\ servername = Some (inr (Z.of_nat j))
  /\ (is_Some server <-> exists rf, cf_rafts cfg !! j = Some (Some rf))
  /\ (forall k, server = Some k -> present cfg j k).
Proof.
  intros Hr He. assert (Hh : harness_ok cfg) by (revert Hr; apply rtc_preserves; [apply hstep_ok|apply blank_ok]).
  unfold readEndnameInfo, is_enabled. rewrite (wi_enabled _ (ho_wired _ Hh) i j e He), (wi_connections _ (ho_wired _ Hh) i j e He). simpl.
  split; [done|]. split; [done|]. split; [apply (ho_registered _ Hh)|apply (ho_present _ Hh)].
Qed.

(** ** A restart is a crash of the cluster *)

Lemma running_storage cfg i rf : harness_ok cfg -> cf_rafts cfg !! i = Some (Some rf) -> storage cfg i = Some (persister rf).
Proof.
  intros Hh Hr. unfold storage. rewrite (proj2 (ho_shared _ Hh i) ltac:(by exists rf)), Hr. done.
Qed.

(** C33.  Restarting keeps the storage: in a harness that satisfies the invariant its operations
    keep ([harness_ok]), take a running server whose peer has its number and as many peers as
    there are servers, is well-formed and has its state in storage (as operations_safe and
    reachable_persisted show of the peers of a cluster), and whose stored snapshot, if there is one,
    decodes.  Then start1 with fresh end point names returns; the server is a
    follower that Make built from exactly the storage it had, with the same term, vote, log and
    snapshot; it is registered under a labrpc server of its own and disconnected; the other
    servers run on as they did; and for the cluster of the servers this is a crash step
    of [RaftCluster]. *)
Theorem restart_is_crash cfg (c : Cluster (D:=D)) (i : nat) rf names now :
  harness_ok cfg -> cf_rafts cfg = Some <$> nodes c -> nodes c !! i = Some rf -> peers rf = cf_n cfg -> me rf = Z.of_nat i ->
  wf rf -> persisted rf -> readable (ReadSnapshot (persister rf)) ->
  (cf_n cfg <= length names)%nat -> NoDup (take (cf_n cfg) names) ->
  (forall e, e ∈ take (cf_n cfg) names -> inl e ∉ ends (cf_net cfg)) ->
  exists cfg' rf', start1 i names now cfg = (cfg', Ret tt) /\ harness_ok cfg' /\ up cfg' i = false
    /\ server_of (inr (Z.of_nat i)) (cf_net cfg') = Some (length (cf_objects cfg))
    /\ Make (peers rf) (me rf) now (persister rf) = (rf', Ret tt) /\ state rf' = Follower
    /\ (currentTerm rf', voteFor rf', log rf', snapshot rf') = (currentTerm rf, voteFor rf, log rf, snapshot rf)
    /\ step c (restart i rf' c) /\ cf_rafts cfg' = Some <$> nodes (restart i rf' c).
Proof.
  intros Hh Hnodes Hi Hp Hme Hwf Hpe Hrd Hlen Hnd Hf.
  destruct (wp_Make _ (me rf) now _ _ _ _ _ Hpe (wf_log _ Hwf) (wf_me _ Hwf)) as (rf' & Hmk & Hid & Hst & _).
  assert (Hri : cf_rafts cfg !! i = Some (Some rf)) by (rewrite Hnodes, list_lookup_fmap, Hi; done).
  assert (Hlt : (i < cf_n cfg)%nat) by (rewrite <- (ho_rafts _ Hh); by eapply lookup_lt_Some).
  pose proof (running_storage _ _ _ Hh Hri) as Hsto.
  destruct (run_start1 cfg i names now rf' Hh Hlt Hlen Hnd Hf) as (cfg' & Hrun & Hok & _ & Hrafts & _ & Hup & _ & Hsv & _);
    [by rewrite Hsto|rewrite Hsto; simpl; by rewrite <- Hp, <- Hme|].
  exists cfg', rf'. split; [done|]. split; [done|]. split; [rewrite Hup; by rewrite decide_True|].
  split; [unfold server_of; by rewrite Hsv, lookup_insert_eq|]. split; [done|]. split; [congruence|]. split; [done|]. split.
  - eapply step_crash; [exact Hi|by left|done].
  - rewrite Hrafts, Hnodes. simpl. by rewrite list_fmap_insert.
Qed.

(** ** make_config *)

Lemma run_start_all (n : nat) (names : nat -> list string) (now : nat -> Z) (rf : nat -> Raft D) k cfg :
  (forall i, (i < n)%nat -> length (names i) = n) ->
  (forall i e j e', (i < n)%nat -> (j < n)%nat -> e ∈ names i -> e' ∈ names j -> e = e' -> i = j) ->
  (forall i, (i < n)%nat -> NoDup (names i)) ->
  (forall i, (i < n)%nat -> Make n (Z.of_nat i) (now i) MakePersister = (rf i, Ret tt)) ->
  cf_n cfg = n -> harness_ok cfg -> (k <= n)%nat ->
  (forall i, (k <= i < n)%nat -> storage cfg i = None) ->
  (forall i e, (k <= i < n)%nat -> e ∈ names i -> inl e ∉ ends (cf_net cfg)) ->
  (forall i, (i < k)%nat -> cf_rafts cfg !! i = Some (Some (rf i)) /\ named cfg i = true) ->
  exists cfg', m_for (seq k (n - k)) (fun i => put_server cf_logs set_logs i ∅;; start1 i (names i) (now i)) cfg = (cfg', Ret tt)
    /\ cf_n cfg' = n /\ harness_ok cfg'
    /\ forall i, (i < n)%nat -> cf_rafts cfg' !! i = Some (Some (rf i)) /\ named cfg' i = true.
Proof.
  intros Hlen Hdis Hnd Hmk. remember (n - k)%nat as m eqn:Hm. revert k cfg Hm. induction m as [|m IH]; intros k cfg Hm En Hh Hk Hst Hf Hdone.
  { exists cfg. split; [done|]. split_and!; try done. intros i Hi. apply Hdone. lia. }
  cbn [seq m_for]. assert (Hkn : (k < n)%nat) by lia. pose proof (Hst k ltac:(lia)) as Hsk.
  set (c1 := set_logs (<[k := ∅]> (cf_logs cfg)) cfg).
  assert (Hh1 : harness_ok c1).
  { destruct Hh as [H1' H2' H3' H4' H5' H6' H7' H8']. split; simpl; try done; [by eapply wired_frame|]. by rewrite length_insert. }
  assert (Htk : take (cf_n c1) (names k) = names k) by (apply take_ge; simpl; rewrite En, Hlen; lia).
  destruct (run_start1 c1 k (names k) (now k) (rf k) Hh1) as (c2 & Hrun & Hh2 & En2 & Er2 & Ee2 & _ & Est2 & _ & Eends2); rewrite ?Htk.
  { simpl. lia. } { simpl. rewrite En, Hlen; lia. } { by apply Hnd. } { intros e He. simpl. apply (Hf k e); [lia|done]. }
  { change (storage c1 k) with (storage cfg k). rewrite Hsk. by left. }
  { change (storage c1 k) with (storage cfg k). rewrite Hsk. simpl. rewrite En. by apply Hmk. }
  rewrite Htk in *. rewrite (bind_run _ _ _ c2 tt).
  2:{ rewrite (bind_run _ _ _ _ _ (put_server_run cf_logs set_logs cfg k ∅ ltac:(rewrite (ho_logs _ Hh); lia))). exact Hrun. }
  assert (Hir : (k < length (cf_rafts cfg))%nat) by (rewrite (ho_rafts _ Hh); lia).
  assert (Hie : (k < length (cf_endnames cfg))%nat) by (rewrite (wi_endnames _ (ho_wired _ Hh)); lia).
  apply IH; [lia|by rewrite En2|done|lia| | |].
  - intros i Hi. rewrite Est2 by lia. apply (Hst i). lia.
  - intros i e Hi He Hin. apply Eends2 in Hin as [Hin|(e' & [= <-] & He')]; [by apply (Hf i e); [lia|..]|].
    assert (i = k) by (eapply (Hdis i e k e); try done; lia). lia.
  - intros i Hi. rewrite Er2. unfold named. rewrite Ee2. simpl. destruct (decide (i = k)) as [->|Hne].
    + by rewrite !list_lookup_insert_eq.
    + rewrite !list_lookup_insert_ne by done. apply Hdone. lia.
Qed.

Lemma run_connect_all k m cfg :
  harness_ok cfg -> (k + m = cf_n cfg)%nat -> (forall i, (i < cf_n cfg)%nat -> named cfg i = true) ->
  (forall i, (i < k)%nat -> up cfg i = true) ->
  exists cfg', m_for (seq k m) connect cfg = (cfg', Ret tt) /\ harness_ok cfg' /\ cf_n cfg' = cf_n cfg
    /\ cf_rafts cfg' = cf_rafts cfg /\ (forall i, (i < cf_n cfg)%nat -> up cfg' i = true).
Proof.
  revert k cfg. induction m as [|m IH]; intros k cfg Hh Hk Hn Hup.
  { exists cfg. split; [done|]. split_and!; try done. intros i Hi. apply Hup. lia. }
  destruct (connect_wired cfg k (ho_wired _ Hh) ltac:(lia) (Hn k ltac:(lia))) as (c1 & Hr & Hw & Hrest & Hup1 & Hsv & _).
  pose proof (frame_ok _ _ Hh Hw Hrest Hsv) as Hh1. injection Hrest as En Ee Er _ _ _ _.
  destruct (IH (S k) c1 Hh1) as (c2 & Hr2 & Hh2 & En2 & Er2 & Hup2); rewrite ?En.
  - lia.
  - intros i Hi. unfold named. rewrite Ee. by apply Hn.
  - intros i Hi. rewrite Hup1. case_decide; [done|]. apply Hup. lia.
  - exists c2. cbn [seq m_for]. rewrite (bind_run _ _ _ _ _ Hr). split; [exact Hr2|]. split_and!; [done|congruence|congruence|].
    intros i Hi. apply Hup2. by rewrite En.
Qed.

(** make_config: with end point names that are all different it returns a harness in which
    every server runs, made from blank storage, and every server is connected. *)
Theorem make_config_connects (n : nat) unreliable (names : nat -> list string) (now : nat -> Z) :
  (forall i, (i < n)%nat -> length (names i) = n /\ NoDup (names i)) ->
  (forall i e j, (i < n)%nat -> (j < n)%nat -> e ∈ names i -> e ∈ names j -> i = j) ->
  exists cfg, make_config n unreliable names now = (cfg, Ret tt) /\ harness_ok cfg
    /\ forall i, (i < n)%nat -> up cfg i = true
         /\ exists rf, cf_rafts cfg !! i = Some (Some rf) /\ Make n (Z.of_nat i) (now i) MakePersister = (rf, Ret tt).
Proof.
  intros Hlen Hdis. set (rf i := fst (Make (D:=D) n (Z.of_nat i) (now i) MakePersister)).
  assert (Hmk : forall i, (i < n)%nat -> Make n (Z.of_nat i) (now i) MakePersister = (rf i, Ret tt)).
  { intros i Hi. unfold rf. destruct (Make_blank (D:=D) n i (now i) Hi) as (x & Hm & _). by rewrite Hm. }
  unfold make_config, setunreliable. set (rn := fst (Reliable (negb unreliable) (MakeNetwork (N:=Name)))).
  set (c0 := set_cfnet (fst (LongDelays true rn)) (blank_config (D:=D) n)).
  rewrite (bind_run _ _ _ (set_cfnet rn (blank_config n)) tt) by done.
  rewrite (bind_run _ _ _ c0 tt) by done.
  assert (Hh : harness_ok c0).
  { pose proof (blank_ok n) as [H1' H2' H3' H4' H5' H6' H7' H8']. split; try done. by eapply (wired_frame (blank_config n)). }
  destruct (run_start_all n names now rf 0 c0) as (c1 & Hr & En & Hh1 & Hall); try done; try lia.
  { intros i Hi. by apply Hlen. } { intros i e j e' Hi Hj He He' ->. by eapply Hdis. } { intros i Hi. by apply Hlen. }
  { intros i Hi. unfold storage. simpl. by rewrite lookup_replicate_2 by lia. }
  rewrite Nat.sub_0_r in Hr. rewrite (bind_run _ _ _ _ _ Hr).
  destruct (run_connect_all 0 n c1 Hh1) as (c2 & Hr2 & Hh2 & En2 & Er2 & Hup); [by rewrite En|..].
  { intros i Hi. rewrite En in Hi. by apply Hall. } { lia. }
  exists c2. split; [exact Hr2|]. split; [done|]. intros i Hi. split; [apply Hup; by rewrite En|].
  exists (rf i). rewrite Er2. split; [by apply Hall|by apply Hmk].
Qed.

End Wiring.
