(* ===== verification/HarnessChecks.v ===== *)
(** The checks that the Raft tests make on the servers' own view: checkOneLeader never
    sees two leaders of one term, although it asks the servers one after the other while
    the cluster runs on. *)
From Stdlib Require Import ZArith Lia.
From stdpp Require Import base list numbers gmap relations.
From S2P Require Import Prelude RaftTypes RaftNode RaftVote RaftWf RaftCluster ElectionSafety ElectionProps SafetyRun SafetyProps RaftConfig.

#[local] Open Scope Z_scope.

(** ** The table of leaders *)

Abbreviation Seen := (list (nat * (Z * bool))).

(** Who said to lead in term [t]. *)
Definition led (t : Z) (x : nat * (Z * bool)) : option nat :=
  let '(i, (u, b)) := x in if decide (b = true /\ u = t) then Some i else None.
Definition who (t : Z) (obs : Seen) : list nat := omap (led t) obs.

Lemma elem_of_who t obs i : i ∈ who t obs <-> (i, (t, true)) ∈ obs.
Proof.
  unfold who. rewrite list_elem_of_omap. split.
  - intros ([j [u b]] & Hin & Hl). simpl in Hl. case_decide as Hd; [|done]. destruct Hd as [-> ->]. by injection Hl as ->.
  - intros Hin. exists (i, (t, true)). split; [done|]. simpl. by rewrite decide_True.
Qed.

Lemma leaders_of_snoc obs i u b :
  leaders_of (obs ++ [(i, (u, b))]) = if b : bool then <[u := default [] (leaders_of obs !! u) ++ [i]]> (leaders_of obs) else leaders_of obs.
Proof. unfold leaders_of. by rewrite foldl_app. Qed.

Lemma leaders_of_lookup obs t : leaders_of obs !! t = (if decide (who t obs = []) then None else Some (who t obs)).
Proof.
  induction obs as [|[i [u b]] obs IH] using rev_ind; [done|]. rewrite leaders_of_snoc. unfold who in *. rewrite omap_app. simpl.
  destruct b; [|rewrite (decide_False (P := false = true /\ u = t)) by naive_solver; by rewrite app_nil_r].
  destruct (decide (u = t)) as [->|Hne].
  - rewrite lookup_insert_eq, (decide_True (P := true = true /\ t = t)), IH by done.
    rewrite (decide_False (P := _ ++ [i] = [])) by (by destruct (omap _ obs)). by case_decide as E; [rewrite E|].
  - rewrite lookup_insert_ne, (decide_False (P := true = true /\ u = t)), app_nil_r by naive_solver. done.
Qed.

Lemma last_term_max (l : list Z) (a : Z) :
  let m := foldl (fun acc t => if acc <? t then t else acc) a l in (forall t, t ∈ l -> t <= m) /\ a <= m /\ (m = a \/ m ∈ l).
Proof.
  revert a. induction l as [|x l IH]; intros a; simpl; [split; [by intros t ?%elem_of_nil|]; split; [lia|by left]|].
  destruct (IH (if a <? x then x else a)) as (H1 & H2 & H3). set (m := foldl _ _ _) in *.
  destruct (Z.ltb_spec a x).
  - split; [intros t [->|?]%elem_of_cons; auto|]. split; [lia|]. right. destruct H3 as [->|?]; [by left|by right].
  - split; [intros t [->|?]%elem_of_cons; [lia|auto]|]. split; [lia|]. destruct H3 as [?|?]; [by left|right; by right].
Qed.

(** A round in which nobody shares a term and no term is negative. *)
Lemma leader_round_spec obs :
  (forall t, (length (who t obs) <= 1)%nat) -> (forall i t b, (i, (t, b)) ∈ obs -> 0 <= t) ->
  exists r, leader_round obs = Ret r
    /\ (r = None <-> forall i t, (i, (t, true)) ∉ obs)
    /\ (forall i, r = Some i -> exists t, (i, (t, true)) ∈ obs /\ forall j u, (j, (u, true)) ∈ obs -> u <= t).
Proof.
  intros Hone Hpos. unfold leader_round. set (m := leaders_of obs).
  assert (Hm : forall t l, m !! t = Some l -> l = who t obs /\ l <> []).
  { intros t l. unfold m. rewrite leaders_of_lookup. case_decide; [done|]. by intros [= <-]. }
  destruct (existsb _ _) eqn:Hx.
  { apply existsb_exists in Hx as ([t l] & Hin & Hlt). apply list_elem_of_In, elem_of_map_to_list, Hm in Hin as [-> _].
    specialize (Hone t). simpl in Hlt. apply Z.ltb_lt in Hlt. lia. }
  assert (Hsome : forall i t, (i, (t, true)) ∈ obs -> m !! t = Some (who t obs)).
  { intros i t Hin%elem_of_who. unfold m. rewrite leaders_of_lookup, decide_False; [done|]. intros E. rewrite E in Hin. by apply elem_of_nil in Hin. }
  case_decide as He.
  { exists None. split; [done|]. split; [|done]. split; [|done]. intros _ i t Hin%Hsome. by rewrite He, lookup_empty in Hin. }
  destruct (last_term_max (fst <$> map_to_list m) (-1)) as (Hmax & _ & Hlast). fold (lastTermWithLeader m) in *.
  set (T := lastTermWithLeader m) in *.
  assert (HinT : exists l, m !! T = Some l).
  { destruct Hlast as [HT|([t l] & -> & Hin%elem_of_map_to_list)%list_elem_of_fmap]; [|by exists l]. exfalso.
    apply map_choose in He as (t & l & Htl). assert (Ht : t <= -1) by (rewrite <- HT; apply Hmax, list_elem_of_fmap; exists (t, l); split; [done|by apply elem_of_map_to_list]).
    destruct (Hm _ _ Htl) as [-> Hne]. destruct (who t obs) as [|i w] eqn:E; [done|].
    assert (Hin : i ∈ who t obs) by (rewrite E; left). apply elem_of_who, Hpos in Hin. lia. }
  destruct HinT as [l Hl]. destruct (Hm _ _ Hl) as [-> Hne]. rewrite Hl. destruct (who T obs) as [|i w] eqn:E; [done|].
  assert (Hin : (i, (T, true)) ∈ obs) by (apply elem_of_who; rewrite E; left).
  exists (Some i). split; [done|]. split; [split; [done|intros Hno; by apply Hno in Hin]|].
  intros j [= <-]. exists T. split; [done|]. intros j u Hj%Hsome. apply Hmax, list_elem_of_fmap. eexists (u, _). split; [done|by apply elem_of_map_to_list].
Qed.

(** ** Looking at a cluster that runs *)

Section Watch.
Context {D : Type} `{LabGobOk D}.
Implicit Types (c : Cluster (D:=D)) (obs : Seen).

(** The cluster goes from [c] to [c'] while GetState is called on some of its servers. *)
Inductive watched : Cluster (D:=D) -> Seen -> Cluster (D:=D) -> Prop :=
| w_nil c : watched c [] c
| w_step c c1 obs c2 : small_step c c1 -> watched c1 obs c2 -> watched c obs c2
| w_look c i rf x obs c2 :
    nodes c !! i = Some rf -> GetState rf = (rf, Ret x) -> watched c obs c2 -> watched c ((i, x) :: obs) c2.

Lemma watched_runs c obs c' : watched c obs c' -> rtc small_step c c'.
Proof. induction 1 as [| |]; [done| |done]. by eapply rtc_l. Qed.

(** What was seen was so at some moment, and the cluster went on from there. *)
Definition seen_in c c' (i : nat) (x : Z * bool) : Prop :=
  exists cm rf, rtc small_step c cm /\ rtc small_step cm c' /\ nodes cm !! i = Some rf
    /\ currentTerm rf = fst x /\ (snd x = true -> state rf = Leader).

Lemma look_state (rf : Raft D) x : GetState rf = (rf, Ret x) -> currentTerm rf = fst x /\ (snd x = true -> state rf = Leader).
Proof. intros [= <-]. split; [done|]. simpl. by destruct (state rf). Qed.

Lemma watched_seen c obs c' i x : watched c obs c' -> (i, x) ∈ obs -> seen_in c c' i x.
Proof.
  induction 1 as [|c c1 obs c2 Hs Hw IH|c j rf y obs c2 Hj Hg Hw IH]; intros Hin; [by apply elem_of_nil in Hin|..].
  - destruct (IH Hin) as (cm & rf & H1 & H2 & Hrest). exists cm, rf. split; [by eapply rtc_l|done].
  - apply elem_of_cons in Hin as [[= -> ->]|Hin]; [|by apply IH].
    exists c, rf. split; [done|]. split; [by eapply watched_runs|]. split; [done|]. by apply look_state.
Qed.

(** Two servers seen to lead in one term are one. *)
Lemma watched_leaders n now c obs c' i j t :
  rtc small_step (init n now) c -> watched c obs c' -> (i, (t, true)) ∈ obs -> (j, (t, true)) ∈ obs -> i = j.
Proof.
  intros Hr Hw. revert Hr. induction Hw as [|c c1 obs c2 Hs Hw IH|c k rf y obs c2 Hk Hg Hw IH]; intros Hr.
  - by intros ?%elem_of_nil.
  - apply IH. by eapply rtc_r.
  - assert (Hlater : forall m, y = (t, true) -> (m, (t, true)) ∈ obs -> k = m).
    { intros m -> Hm. destruct (watched_seen _ _ _ _ _ Hw Hm) as (cm & rf' & H1 & _ & Hn & Ht & Hl).
      destruct (look_state _ _ Hg) as [Ht0 Hl0]. eapply (leaders_of_term n now c cm); eauto using small_steps. by rewrite Ht0, Ht. }
    intros [[= -> <-]|Hi]%elem_of_cons [Ej|Hj]%elem_of_cons.
    + by injection Ej as ->.
    + by apply Hlater.
    + injection Ej as -> <-. symmetry. by apply Hlater.
    + by apply IH.
Qed.

Lemma watched_terms n now c obs c' i t b :
  rtc small_step (init n now) c -> watched c obs c' -> (i, (t, b)) ∈ obs -> 0 <= t.
Proof.
  intros Hr Hw Hin. destruct (watched_seen _ _ _ _ _ Hw Hin) as (cm & rf & H1 & _ & Hn & Ht & _).
  destruct (safe_reachable n now cm) as (h & g & Hs); [by etrans|]. simpl in Ht. rewrite <- Ht.
  apply wf_term. by eapply safe_wf.
Qed.

(** Each server is asked at most once in a round. *)
Lemma who_at_most_one obs t :
  NoDup (fst <$> obs) -> (forall i j, (i, (t, true)) ∈ obs -> (j, (t, true)) ∈ obs -> i = j) -> (length (who t obs) <= 1)%nat.
Proof.
  intros Hnd Hu. assert (Hn : NoDup (who t obs)).
  { clear Hu. induction obs as [|[i [u b]] obs IH]; [constructor|]. apply NoDup_cons in Hnd as [Hni Hnd]. unfold who in *. simpl.
    case_decide; [|by apply IH]. apply NoDup_cons. split; [|by apply IH]. intros Hin%elem_of_who. apply Hni.
    apply list_elem_of_fmap. by exists (i, (t, true)). }
  destruct (who t obs) as [|i [|j w]] eqn:E; simpl; [lia..|]. exfalso. apply NoDup_cons in Hn as [Hn _]. apply Hn.
  assert (Hi : i ∈ who t obs) by (rewrite E; left). assert (Hj : j ∈ who t obs) by (rewrite E; right; left).
  rewrite (Hu i j); [left|by apply elem_of_who..].
Qed.

(** The best leader of a round: one that was seen to lead, in a term that is not lower
    than that of any other. *)
Definition newest (obs : Seen) (i : nat) : Prop :=
  exists t, (i, (t, true)) ∈ obs /\ forall j u, (j, (u, true)) ∈ obs -> u <= t.
Definition leaderless (obs : Seen) : Prop := forall i t, (i, (t, true)) ∉ obs.

Lemma watched_round n now c obs c' :
  rtc small_step (init n now) c -> watched c obs c' -> NoDup (fst <$> obs) ->
  exists r, leader_round obs = Ret r /\ (r = None <-> leaderless obs) /\ (forall i, r = Some i -> newest obs i).
Proof.
  intros Hr Hw Hnd. apply leader_round_spec.
  - intros t. apply who_at_most_one; [done|]. intros i j. by eapply watched_leaders.
  - intros i t b. by eapply watched_terms.
Qed.

(** Rounds one after the other. *)
Inductive rounds_from : Cluster (D:=D) -> list Seen -> Prop :=
| r_nil c : rounds_from c []
| r_round c obs c1 rs : watched c obs c1 -> NoDup (fst <$> obs) -> rounds_from c1 rs -> rounds_from c (obs :: rs).

Lemma rounds_from_take k c rs : rounds_from c rs -> rounds_from c (take k rs).
Proof. intros Hr. revert k. induction Hr; intros [|k]; simpl; try constructor. econstructor; eauto. Qed.

Lemma checkOneLeader_loop_spec n now c rs :
  rtc small_step (init n now) c -> rounds_from c rs ->
  (Forall leaderless rs /\ checkOneLeader_loop rs = Panic)
  \/ exists before obs after i, rs = before ++ obs :: after /\ Forall leaderless before /\ newest obs i /\ checkOneLeader_loop rs = Ret i.
Proof.
  intros Hr Hw. revert Hr. induction Hw as [c|c obs c1 rs Hw Hnd Hrs IH]; intros Hr; [by left|].
  destruct (watched_round _ _ _ _ _ Hr Hw Hnd) as (r & Hl & Hnone & Hsome). simpl. rewrite Hl. destruct r as [i|].
  - right. exists [], obs, rs, i. split_and!; try done. by apply Hsome.
  - assert (Hno : leaderless obs) by (by apply Hnone). destruct IH as [[Hall ->]|(b & o & a & i & -> & Hb & Hn & ->)].
    + etrans; [done|]. by eapply watched_runs.
    + left. split; [|done]. by constructor.
    + right. exists (obs :: b), o, a, i. split_and!; try done. by constructor.
Qed.

(** C31.  checkOneLeader on a cluster: the servers are asked one after the other, at most once
    in a round, while the cluster runs on, crashes and elections included.  The check
    never finds two leaders of one term.  It fails only when no server led in any of the
    (at most ten) rounds; otherwise it returns, from the first round with a leader, one
    that led in the highest term seen there.  (The executions are those whose indices stay
    within 2^53.) *)
Theorem one_leader_check n now c rs :
  rtc small_step (init n now) c -> rounds_from c rs ->
  (Forall leaderless (take 10 rs) /\ checkOneLeader rs = Panic)
  \/ exists before obs after i, take 10 rs = before ++ obs :: after /\ Forall leaderless before /\ newest obs i
       /\ checkOneLeader rs = Ret i.
Proof. intros Hr Hw. eapply checkOneLeader_loop_spec; [done|by apply rounds_from_take]. Qed.

End Watch.
