(* ===== verification/HarnessDemo.v ===== *)
(** Runs of the Raft test harness on concrete inputs: three servers that are started,
    connected, crashed and restarted, and the checks on an execution in which peer 0 is
    elected and a command is committed. *)
From Stdlib Require Import ZArith Lia.
From stdpp Require Import base list numbers strings gmap relations.
From S2P Require Import Prelude RaftTypes RaftNode RaftVote RaftWf RaftSafe RaftCluster SafetyRun Scheduler SharedLog SafetyProps Delivery LabRpc RaftConfig NetOps HarnessLogs HarnessNet HarnessChecks.

#[local] Open Scope Z_scope.
Import ListGob.

(** A codec for the snapshots of the harness. *)
Module ListXlog.

Definition enc_one (o : option Z) : bytes := match o with None => [0; 0] | Some d => [1; d] end.
Definition enc (i : Z) (l : list (option Z)) : bytes := i :: concat (map enc_one l).

Fixpoint dec_all (bs : bytes) : option (list (option Z)) :=
  match bs with
  | [] => Some []
  | tag :: d :: rest => l ← dec_all rest; Some ((if tag =? 0 then None else Some d) :: l)
  | _ => None
  end.
Definition dec (bs : bytes) : option (Z * list (option Z)) :=
  match bs with i :: rest => l ← dec_all rest; Some (i, l) | [] => None end.

#[export] Instance codec : SnapCodec Z := { enc_xlog := enc; dec_xlog := dec }.

Lemma dec_all_enc l : dec_all (concat (map enc_one l)) = Some l.
Proof. induction l as [|[d|] l IH]; [done|..]; cbn; by rewrite IH. Qed.

#[export] Instance codec_ok : SnapCodecOk Z.
Proof. split; [|done]. intros i l. cbn. by rewrite dec_all_enc. Qed.

End ListXlog.
Import ListXlog.

(** ** An execution *)

Definition env0 : Env := fun _ => mkTick 7 0.
Definition boot : nat -> Z := fun _ => 0.

Abbreviation Ev := (WEvent (Ev:=DEvent (D:=Z))).
Definition fired (evs : list (Event (D:=Z))) : list Ev := (fun ev => WFire (DFire ev)) <$> evs.

(** Peer 0 is elected; the command is stored by peer 1, committed, and delivered by both. *)
Definition elect : list (Event (D:=Z)) := [ETick 0 1000 env0; EDeliver 0 env0; EResume 0 env0; EDecide 0].
Definition commit : list Ev :=
  fired (elect ++ [EStart 0 42; ESendLog 0]) ++ [WEncode 0 0] ++ fired [EDeliver 0 env0; EResume 0 env0; ESendLog 0]
  ++ [WEncode 0 0] ++ fired [EDeliver 0 env0; ECollect 0; ECollect 1] ++ [WFire (DSend 0 0); WFire (DSend 1 0)].

Definition begin : Deployment (D:=Z) * Memory (D:=Z) := (deploy 3 boot, boot_memory (init 3 boot)).
Definition finished : Deployment (D:=Z) * Memory (D:=Z) := default begin (intact_run plain_fire Delayed.double commit begin).
Definition committed : Deployment (D:=Z) := fst finished.

Lemma committed_runs : rtc (intact plain_step) begin finished.
Proof. apply (intact_run_sound plain_step plain_fire plain_fire_sound Delayed.double commit). vm_compute. reflexivity. Qed.

Lemma harness_accepts_raft_witness :
  length (d_sent committed) = 2%nat
  /\ exists cfg', observe (d_sent committed) (blank_config 3) = (cfg', Ret tt) /\ recorded (d_sent committed) cfg'
    /\ forall idx, exists cmd, nCommitted idx cfg' = (cfg', Ret (Z.of_nat (length (holders idx (cf_logs cfg'))), cmd))
         /\ forall i inc e, (i, inc, e) ∈ d_sent committed -> le_Index e = idx -> cmd = le_Data e.
Proof.
  split; [vm_compute; reflexivity|].
  apply (harness_accepts_raft 3 boot finished (blank_config 3)); [exact committed_runs|reflexivity..].
Defined.

(** Server 1 commits another value than server 0 did. *)
Definition clash : config (D:=Z) := set_logs [{[1 := Some 42]}; ∅; ∅] (blank_config 3).

Lemma applier_checks_witness :
  (exists r, applier 1 (commandMsg (mkLogEntry 1 1 (Some 43))) clash = (record_msg 1 (commandMsg (mkLogEntry 1 1 (Some 43))) ∅ clash, r)
    /\ (r = Ret tt <-> ~ conflict 1 (Some 43) (cf_logs clash) /\ continues (D:=Z) 1 ∅)
    /\ (r = Ret tt \/ r = Panic))
  /\ snd (applier 1 (commandMsg (mkLogEntry 1 1 (Some 43))) clash) = Panic
  /\ snd (applier 1 (commandMsg (mkLogEntry 1 1 (Some 42))) clash) = Ret tt.
Proof.
  split; [|split; vm_compute; reflexivity].
  apply (applier_checks 1 (commandMsg (mkLogEntry 1 1 (Some 43))) ∅ clash); reflexivity.
Defined.

(** ** Servers *)

Definition names (i : nat) : list string :=
  match i with
  | 0%nat => ["a0"; "a1"; "a2"] | 1%nat => ["b0"; "b1"; "b2"] | 2%nat => ["c0"; "c1"; "c2"]
  | 3%nat => ["d0"; "d1"; "d2"] | _ => []
  end%string.

Definition made : config (D:=Z) := fst (make_config 3 false names boot).

Lemma make_config_connects_witness :
  exists cfg, make_config (D:=Z) 3 false names boot = (cfg, Ret tt) /\ harness_ok cfg
    /\ forall i, (i < 3)%nat -> up cfg i = true
         /\ exists rf, cf_rafts cfg !! i = Some (Some rf) /\ Make 3 (Z.of_nat i) (boot i) MakePersister = (rf, Ret tt).
Proof.
  apply (make_config_connects 3 false names boot).
  - intros i Hi. destruct i as [|[|[|i]]]; [split; [reflexivity|by apply (bool_decide_unpack _)]..|lia].
  - intros i e j Hi Hj Hin Hjn.
    destruct i as [|[|[|i]]]; [..|lia]; (destruct j as [|[|[|j]]]; [..|lia]); try reflexivity; exfalso; set_solver.
Defined.

(** Servers 0 and 1 are started and connected, then server 1 crashes and is restarted. *)
Definition h1 : config (D:=Z) := fst (start1 0 (names 0) 0 (blank_config 3)).
Definition h2 : config (D:=Z) := fst (start1 1 (names 1) 0 h1).
Definition h3 : config (D:=Z) := fst (connect 0 h2).
Definition h4 : config (D:=Z) := fst (connect 1 h3).
Definition h5 : config (D:=Z) := fst (crash1 1 h4).
Definition h6 : config (D:=Z) := fst (start1 1 (names 2) 0 h5).

Ltac decided := refine (bool_decide_unpack _ _); vm_compute; exact I.

Lemma start_step (cfg : config (D:=Z)) i k now :
  (i < cf_n cfg)%nat -> (cf_n cfg <= length (names k))%nat -> NoDup (take (cf_n cfg) (names k)) ->
  Forall (fun e => (inl e : Name) ∉ ends (cf_net cfg)) (take (cf_n cfg) (names k)) -> ReadSnapshot (default MakePersister (storage cfg i)) = [] ->
  snd (Make (D:=Z) (cf_n cfg) (Z.of_nat i) now (default MakePersister (storage cfg i))) = Ret tt ->
  snd (start1 i (names k) now cfg) = Ret tt -> hstep cfg (fst (start1 i (names k) now cfg)).
Proof.
  intros Hi Hl Hnd Hf Hr Hmk Hs. eapply (h_start cfg i (names k) now); try done.
  - by apply Forall_forall.
  - by left.
  - by rewrite <- Hmk, <- surjective_pairing.
  - by rewrite <- Hs, <- surjective_pairing.
Qed.

Lemma h2_runs : rtc hstep (blank_config 3) h2.
Proof.
  eapply rtc_l; [|eapply rtc_l; [|apply rtc_refl]].
  - apply (start_step (blank_config 3) 0 0 0); try (vm_compute; reflexivity); decided.
  - apply (start_step h1 1 1 0); try (vm_compute; reflexivity); decided.
Qed.

Lemma h5_runs : rtc hstep (blank_config 3) h5.
Proof.
  etrans; [apply h2_runs|]. eapply rtc_l; [|eapply rtc_l; [|eapply rtc_l; [|apply rtc_refl]]].
  - eapply (h_connect h2 0); [decided|vm_compute; reflexivity..].
  - eapply (h_connect h3 1); [decided|vm_compute; reflexivity..].
  - eapply (h_crash h4 1); [decided|vm_compute; reflexivity].
Qed.

Lemma h6_runs : rtc hstep (blank_config 3) h6.
Proof. etrans; [apply h5_runs|]. apply rtc_once. apply (start_step h5 1 2 0); try (vm_compute; reflexivity); decided. Qed.

Lemma harness_connectivity_witness :
  readEndnameInfo (inl "a0"%string) (cf_net h6) = (true, Some (inr 0), Some 0%nat, true, false)
  /\ readEndnameInfo (inl "a1"%string) (cf_net h6) = (false, Some (inr 1), Some 2%nat, true, false)
  /\ let '(ok, servername, server, _, _) := readEndnameInfo (inl "a1"%string) (cf_net h6) in
     ok = up h6 0 && up h6 1 /\ servername = Some (inr 1)
     /\ (is_Some server <-> exists rf, cf_rafts h6 !! 1%nat = Some (Some rf))
     /\ (forall k, server = Some k -> present h6 1 k).
Proof.
  split; [vm_compute; reflexivity|]. split; [vm_compute; reflexivity|].
  apply (harness_connectivity 3 h6 0 1 "a1"); [exact h6_runs|vm_compute; reflexivity].
Defined.

(** All three servers are started; server 1 is restarted. *)
Definition all_started : config (D:=Z) := fst (start1 2 (names 2) 0 h2).
Definition fresh : Cluster (D:=Z) := init 3 boot.
Definition peer1 : Raft Z := fst (Make 3 1 0 MakePersister).

Lemma all_started_ok : harness_ok all_started.
Proof.
  apply (rtc_preserves hstep harness_ok (blank_config 3)); [apply hstep_ok|apply blank_ok|].
  etrans; [apply h2_runs|]. apply rtc_once. apply (start_step h2 2 2 0); try (vm_compute; reflexivity); decided.
Qed.

Lemma peer1_wf : wf peer1.
Proof.
  split; try (vm_compute; split; congruence); try reflexivity; try done.
  split.
  - intros [|k] e He; simplify_eq/=; reflexivity.
  - eexists. split; [reflexivity|]. by left.
  - intros k e He. simplify_eq/=.
Qed.

Lemma restart_is_crash_witness :
  exists cfg' rf', start1 1 (names 3) 0 all_started = (cfg', Ret tt) /\ harness_ok cfg' /\ up cfg' 1 = false
    /\ server_of (inr 1) (cf_net cfg') = Some 3%nat
    /\ Make 3 1 0 (persister peer1) = (rf', Ret tt) /\ state rf' = Follower
    /\ (currentTerm rf', voteFor rf', log rf', snapshot rf') = (0, -1, [mkLogEntry (-1) 0 None], [])
    /\ step fresh (restart 1 rf' fresh) /\ cf_rafts cfg' = Some <$> nodes (restart 1 rf' fresh).
Proof.
  apply (restart_is_crash all_started fresh 1 peer1 (names 3) 0);
    [exact all_started_ok|vm_compute; reflexivity..|exact peer1_wf|vm_compute; reflexivity|left; reflexivity|decided|decided|].
  apply Forall_forall. decided.
Defined.

(** ** Looking for a leader *)

Definition elected : Cluster (D:=Z) := default fresh (schedule elect fresh).
Definition looked : list Seen := [[(0%nat, (0, false)); (1%nat, (0, false))]; [(0%nat, (1, true)); (2%nat, (0, false)); (1%nat, (1, false))]].

Lemma elected_runs : rtc small_step fresh elected.
Proof. apply (schedule_sound elect). vm_compute. reflexivity. Qed.

Lemma watched_later {D : Type} `{LabGobOk D} (c c1 : Cluster (D:=D)) obs c2 :
  rtc small_step c c1 -> watched c1 obs c2 -> watched c obs c2.
Proof. induction 1 as [|x y z Hs _ IH]; [done|]. intros Hw. by eapply w_step; [|apply IH]. Qed.

Lemma looked_rounds : rounds_from fresh looked.
Proof.
  eapply r_round; [|decided|eapply r_round; [|decided|apply r_nil]].
  - do 2 (eapply w_look; [vm_compute; reflexivity..|]). apply w_nil.
  - apply (watched_later _ elected); [exact elected_runs|]. do 3 (eapply w_look; [vm_compute; reflexivity..|]). apply w_nil.
Qed.

Lemma one_leader_check_witness :
  checkOneLeader looked = Ret 0%nat
  /\ ((Forall leaderless (take 10 looked) /\ checkOneLeader looked = Panic)
      \/ exists before obs after i, take 10 looked = before ++ obs :: after /\ Forall leaderless before /\ newest obs i
           /\ checkOneLeader looked = Ret i).
Proof.
  split; [vm_compute; reflexivity|].
  apply (one_leader_check 3 boot fresh looked); [apply rtc_refl|exact looked_rounds].
Defined.
