(* ===== verification/SvcConfig.v ===== *)
(** The test harness of the replicated services: src/src/kvraft/config.go, and
    src/src/shardctrler/config.go, which is the same code for another server.

    [SmrServer] is what the harness needs of a server; the instances are at the end.  The
    names of randstring and the numbers of rand are arguments.  A clerk is a pointer: a
    number.  [Saved] is the pointer to a Persister, as in RaftConfig.v; clocks are left
    out. *)
From Stdlib Require Import ZArith Lia.
From stdpp Require Import base list numbers strings gmap.
From S2P Require Import Prelude RaftTypes RaftNode LabRpc NetOps RaftConfig.

#[local] Open Scope Z_scope.

(** A server of a replicated service.  [start n me now ps maxraftstate] is its start
    function; [nil_leader] is what the loop of Leader does with a server that is not
    there: kvraft dereferences the pointer, shardctrler skips it. *)
Class SmrServer (S : Type) :=
  { smr_start : nat -> Z -> Z -> Persister -> Z -> S * res unit;
    smr_kill : M S unit;
    smr_state : M S (Z * bool);
    smr_persister : S -> Persister;
    smr_nil_leader : res bool }.

Section Harness.
Context {S : Type} `{SmrServer S}.

Record config := mkSvcConfig
  { sc_net : Network Name;
    sc_n : nat;
    sc_servers : list (option S);
    sc_saved : list Saved;
    sc_endnames : list (option (list string));
    sc_clerks : gmap nat (list string);
    sc_nextClientId : Z;
    sc_maxraftstate : Z;
    sc_rpcs0 : Z;
    sc_ops : Z;
    sc_objects : nat }. (* labrpc servers made so far *)

Definition set_scnet (x : Network Name) (c : config) : config :=
  mkSvcConfig x (sc_n c) (sc_servers c) (sc_saved c) (sc_endnames c) (sc_clerks c) (sc_nextClientId c) (sc_maxraftstate c)
    (sc_rpcs0 c) (sc_ops c) (sc_objects c).
Definition set_scservers (x : list (option S)) (c : config) : config :=
  mkSvcConfig (sc_net c) (sc_n c) x (sc_saved c) (sc_endnames c) (sc_clerks c) (sc_nextClientId c) (sc_maxraftstate c)
    (sc_rpcs0 c) (sc_ops c) (sc_objects c).
Definition set_scsaved (x : list Saved) (c : config) : config :=
  mkSvcConfig (sc_net c) (sc_n c) (sc_servers c) x (sc_endnames c) (sc_clerks c) (sc_nextClientId c) (sc_maxraftstate c)
    (sc_rpcs0 c) (sc_ops c) (sc_objects c).
Definition set_scendnames (x : list (option (list string))) (c : config) : config :=
  mkSvcConfig (sc_net c) (sc_n c) (sc_servers c) (sc_saved c) x (sc_clerks c) (sc_nextClientId c) (sc_maxraftstate c)
    (sc_rpcs0 c) (sc_ops c) (sc_objects c).
Definition set_scclerks (x : gmap nat (list string)) (next : Z) (c : config) : config :=
  mkSvcConfig (sc_net c) (sc_n c) (sc_servers c) (sc_saved c) (sc_endnames c) x next (sc_maxraftstate c)
    (sc_rpcs0 c) (sc_ops c) (sc_objects c).
Definition set_scstats (rpcs0 ops : Z) (c : config) : config :=
  mkSvcConfig (sc_net c) (sc_n c) (sc_servers c) (sc_saved c) (sc_endnames c) (sc_clerks c) (sc_nextClientId c) (sc_maxraftstate c)
    rpcs0 ops (sc_objects c).
Definition set_scobjects (x : nat) (c : config) : config :=
  mkSvcConfig (sc_net c) (sc_n c) (sc_servers c) (sc_saved c) (sc_endnames c) (sc_clerks c) (sc_nextClientId c) (sc_maxraftstate c)
    (sc_rpcs0 c) (sc_ops c) x.

Abbreviation CM := (M config).

Definition on_scnet {A : Type} (m : M (Network Name) A) : CM A := fun c =>
  match m (sc_net c) with (rn', a) => (set_scnet rn' c, a) end.

(** [cfg.endnames[i][j]] *)
Definition sc_endname (i j : nat) : CM string :=
  o ← at_server sc_endnames i;
  lift (match o with Some l => go_idx l (Z.of_nat j) | None => Panic end).

(** ** Connections between servers *)

Definition connectUnlocked (i : nat) (to : list nat) : CM unit :=
  m_for to (fun x => e ← sc_endname i x; on_scnet (Enable (inl e) true));;
  m_for to (fun x => e ← sc_endname x i; on_scnet (Enable (inl e) true)).

(** The second loop tests the row of the position [j], not of [from[j]]. *)
Definition disconnectUnlocked (i : nat) (from : list nat) : CM unit :=
  m_for from (fun x =>
    o ← at_server sc_endnames i;
    when (bool_decide (is_Some o)) (e ← sc_endname i x; on_scnet (Enable (inl e) false)));;
  m_for (zip (seq 0 (length from)) from) (fun '(j, x) =>
    o ← at_server sc_endnames j;
    when (bool_decide (is_Some o)) (e ← sc_endname x i; on_scnet (Enable (inl e) false))).

(** The same under the harness's mutex. *)
Definition connect (i : nat) (to : list nat) : CM unit := connectUnlocked i to.
Definition disconnect (i : nat) (from : list nat) : CM unit := disconnectUnlocked i from.

Definition All (c : config) : list nat := seq 0 (sc_n c).

Definition ConnectAll : CM unit :=
  n ← gets sc_n;
  m_for (seq 0 n) (fun i => all ← gets All; connectUnlocked i all).

Definition partition (p1 p2 : list nat) : CM unit :=
  m_for p1 (fun i => disconnectUnlocked i p2;; connectUnlocked i p1);;
  m_for p2 (fun i => disconnectUnlocked i p1;; connectUnlocked i p2).

(** ** Clerks *)

(** [rnd i] is the result of the i-th [rand.Intn(i + 1)]. *)
Definition random_handles {A : Type} (rnd : nat -> nat) (kvh : list A) : list A :=
  foldl (fun sa i =>
           match sa !! i, sa !! rnd i with
           | Some x, Some y => <[i := y]> (<[rnd i := x]> sa)
           | _, _ => sa
           end) kvh (seq 0 (length kvh)).

(** Reading the map gives a nil slice for a clerk that is not there. *)
Definition clerk_names (ck : nat) : CM (list string) := gets (fun c => default [] (sc_clerks c !! ck)).

Definition ConnectClientUnlocked (ck : nat) (to : list nat) : CM unit :=
  endnames ← clerk_names ck;
  m_for to (fun x => s ← lift (go_idx endnames (Z.of_nat x)); on_scnet (Enable (inl s) true)).

Definition DisconnectClientUnlocked (ck : nat) (from : list nat) : CM unit :=
  endnames ← clerk_names ck;
  m_for from (fun x => s ← lift (go_idx endnames (Z.of_nat x)); on_scnet (Enable (inl s) false)).

Definition ConnectClient (ck : nat) (to : list nat) : CM unit := ConnectClientUnlocked ck to.
Definition DisconnectClient (ck : nat) (from : list nat) : CM unit := DisconnectClientUnlocked ck from.

(** [MakeEnd] and [Connect] for a row of names. *)
Definition make_ends (names : list string) : CM unit :=
  m_for (seq 0 (length names)) (fun j =>
    e ← lift (go_idx names (Z.of_nat j));
    on_scnet (MakeEnd (inl e));;
    on_scnet (Connect (inl e) (inr (Z.of_nat j)))).

(** [ck] is the address of the new clerk; the result has the handles that MakeClerk is
    given, in their order. *)
Definition makeClient (ck : nat) (names : list string) (rnd : nat -> nat) (to : list nat) : CM (list string) :=
  n ← gets sc_n;
  let endnames := take n names in
  make_ends endnames;;
  modify (fun c => set_scclerks (<[ck := endnames]> (sc_clerks c)) (sc_nextClientId c + 1) c);;
  ConnectClientUnlocked ck to;;
  mret (random_handles rnd endnames).

(** [os.Remove] of the names is on the file system. *)
Definition deleteClient (ck : nat) : CM unit :=
  modify (fun c => set_scclerks (delete ck (sc_clerks c)) (sc_nextClientId c) c).

(** ** Servers *)

Definition sc_saved_at (i : nat) : CM (option Persister) :=
  s ← at_server sc_saved i;
  match s with
  | Nil => mret None
  | Owned ps => mret (Some ps)
  | Shared => o ← at_server sc_servers i; mret (smr_persister <$> o)
  end.

Definition ShutdownServer (i : nat) : CM unit :=
  all ← gets All;
  disconnectUnlocked i all;;
  on_scnet (DeleteServer (inr (Z.of_nat i)));;
  o ← sc_saved_at i;
  match o with Some ps => put_server sc_saved set_scsaved i (Owned (Copy ps)) | None => mret tt end;;
  put_server sc_servers set_scservers i None. (* Kill marks an object nobody refers to any more *)

(** [now] is the clock of raft.Make. *)
Definition StartServer (i : nat) (names : list string) (now : Z) : CM unit :=
  n ← gets sc_n;
  put_server sc_endnames set_scendnames i (Some (take n names));;
  make_ends (take n names);;
  o ← sc_saved_at i;
  let ps := match o with Some ps => Copy ps | None => MakePersister end in
  put_server sc_saved set_scsaved i (Owned ps);;
  mx ← gets sc_maxraftstate;
  match smr_start n (Z.of_nat i) now ps mx with
  | (kv, r) =>
      lift r;;
      put_server sc_servers set_scservers i (Some kv);;
      put_server sc_saved set_scsaved i Shared;;
      k ← gets sc_objects;
      modify (set_scobjects (k + 1));;
      on_scnet (AddServer (inr (Z.of_nat i)) k)
  end.

(** A call on a server. *)
Definition on_server {A : Type} (i : nat) (nil : res A) (m : M S A) : CM A :=
  o ← at_server sc_servers i;
  match o with
  | None => lift nil
  | Some kv => match m kv with
               | (kv', r) => put_server sc_servers set_scservers i (Some kv');; lift r
               end
  end.

Fixpoint Leader_loop (servers : list nat) : CM (bool * nat) :=
  match servers with
  | [] => mret (false, 0%nat)
  | i :: servers' =>
      is_leader ← on_server i smr_nil_leader (x ← smr_state; mret (snd x));
      if is_leader : bool then mret (true, i) else Leader_loop servers'
  end.
Definition Leader : CM (bool * nat) := n ← gets sc_n; Leader_loop (seq 0 n).

(** The loop of make_partition: the two slices and [j]. *)
Definition partition_step (l : nat) (st : list nat * list nat * nat) (i : nat) : res (list nat * list nat * nat) :=
  let '(p1, p2, j) := st in
  if decide (i = l) then Ret st
  else if decide (j < length p1)%nat then
    match go_set p1 (Z.of_nat j) i with Ret p1' => Ret (p1', p2, j + 1)%nat | Panic => Panic end
  else
    match go_set p2 (Z.of_nat j - Z.of_nat (length p1)) i with Ret p2' => Ret (p1, p2', j + 1)%nat | Panic => Panic end.

Definition make_partition_of (n l : nat) : res (list nat * list nat) :=
  match foldl (fun r i => match r with Ret st => partition_step l st i | Panic => Panic end)
          (Ret (replicate (n / 2 + 1) 0%nat, replicate (n / 2) 0%nat, 0%nat)) (seq 0 n) with
  | Panic => Panic
  | Ret (p1, p2, _) =>
      match go_set p2 (Z.of_nat (length p2) - 1) l with Ret p2' => Ret (p1, p2') | Panic => Panic end
  end.

Definition make_partition : CM (list nat * list nat) :=
  r ← Leader;
  n ← gets sc_n;
  lift (make_partition_of n (snd r)).

(** ** The harness as a whole *)

Definition blank_svc (n : nat) (maxraftstate : Z) : config :=
  mkSvcConfig MakeNetwork n (replicate n None) (replicate n Nil) (replicate n None) ∅ (Z.of_nat n + 1000) maxraftstate 0 0 0.

Definition make_config (n : nat) (unreliable : bool) (maxraftstate : Z) (names : nat -> list string) (now : nat -> Z)
    : config * res unit :=
  (m_for (seq 0 n) (fun i => StartServer i (names i) (now i));;
   ConnectAll;;
   on_scnet (Reliable (negb unreliable))) (blank_svc n maxraftstate).

Definition kill_server (i : nat) : CM unit := on_server i (Ret tt) smr_kill.

Definition cleanup : CM unit :=
  servers ← gets sc_servers;
  m_for (seq 0 (length servers)) kill_server;;
  on_scnet Cleanup.

(** The largest of a size over all servers; a nil Persister is dereferenced. *)
Definition max_size (size : Persister -> Z) : CM Z :=
  n ← gets sc_n;
  sizes ← m_map (fun i => o ← sc_saved_at i; lift (match o with Some ps => Ret (size ps) | None => Panic end)) (seq 0 n);
  mret (foldl (fun acc x => if acc <? x then x else acc) 0 sizes).
Definition LogSize : CM Z := max_size RaftStateSize.
Definition SnapshotSize : CM Z := max_size SnapshotSize.

Definition rpcTotal (c : config) : Z := GetTotalCount (sc_net c).
Definition begin : CM unit := modify (fun c => set_scstats (rpcTotal c) 0 c).
Definition op : CM unit := modify (fun c => set_scstats (sc_rpcs0 c) (wrap 32 (sc_ops c + 1)) c).
(** peers, RPCs, operations *)
Definition end_stats (c : config) : nat * Z * Z := (sc_n c, rpcTotal c - sc_rpcs0 c, sc_ops c).

End Harness.
Arguments config S : clear implicits.
