(* ===== verification/SvcServers.v ===== *)
(** Servers and clerks of the service harness: starting, shutting down and restarting a
    server, making a configuration, and making clerks. *)
From Stdlib Require Import ZArith Lia.
From stdpp Require Import base list numbers strings gmap.
From S2P Require Import Prelude RaftTypes RaftNode LabRpc NetOps RaftConfig SvcConfig SvcNet.

#[local] Open Scope Z_scope.

Section Servers.
Context {S : Type} `{SmrServer S}.
Implicit Types (cfg : config S) (i j : nat) (rn : Network Name).

(** ** The invariant *)

Definition svc_storage cfg i : option Persister :=
  match sc_saved cfg !! i with
  | Some (Owned ps) => Some ps
  | Some Shared => o ← sc_servers cfg !! i; smr_persister <$> o
  | _ => None
  end.

Definition is_running cfg i : Prop := exists kv, sc_servers cfg !! i = Some (Some kv).

(** The end points of a server and of a clerk. *)
Definition Owner : Type := (nat + nat)%type.
Definition row cfg (o : Owner) : option (list string) :=
  match o with inl i => mjoin (sc_endnames cfg !! i) | inr ck => sc_clerks cfg !! ck end.

Record svc_ok cfg : Prop :=
  { so_rows : length (sc_endnames cfg) = sc_n cfg;
    so_servers : length (sc_servers cfg) = sc_n cfg;
    so_saved : length (sc_saved cfg) = sc_n cfg;
    so_row : forall o l, row cfg o = Some l -> length l = sc_n cfg /\ NoDup l;
    so_apart : forall o o' l l' e, row cfg o = Some l -> row cfg o' = Some l' -> e ∈ l -> e ∈ l' -> o = o';
    so_ends : forall o l e, row cfg o = Some l -> e ∈ l -> inl e ∈ ends (sc_net cfg);
    so_leads : forall o l j e, row cfg o = Some l -> l !! j = Some e -> connections (sc_net cfg) !! inl e = Some (Some (inr (Z.of_nat j)));
    so_shared : forall i, sc_saved cfg !! i = Some Shared <-> is_running cfg i;
    so_registered : forall i, is_Some (server_of (inr (Z.of_nat i)) (sc_net cfg)) <-> is_running cfg i }.

Lemma ename_row cfg i j : ename cfg i j = (l ← row cfg (inl i); l !! j).
Proof. unfold ename. simpl. by destruct (sc_endnames cfg !! i) as [[l|]|]. Qed.

Lemma ok_named cfg : svc_ok cfg -> (forall i, (i < sc_n cfg)%nat -> is_Some (row cfg (inl i))) -> named_all cfg.
Proof.
  intros Ho Hall. split; [apply Ho|..].
  - intros i Hi. destruct (Hall i Hi) as [l Hl]. exists l. split; [|by apply (so_row _ Ho (inl i))]. simpl in Hl.
    by destruct (sc_endnames cfg !! i) as [[x|]|]; simplify_eq/=.
  - intros i j i' j' e. rewrite !ename_row. destruct (row cfg (inl i)) as [l|] eqn:Hl; [|done]. destruct (row cfg (inl i')) as [l'|] eqn:Hl'; [|done].
    simpl. intros Hj Hj'. assert (inl i = (inl i' : Owner)) as [= <-].
    { by eapply (so_apart _ Ho _ _ l l' e); try eapply list_elem_of_lookup_2. }
    split; [done|]. rewrite Hl in Hl'. injection Hl' as <-. eapply NoDup_lookup; [|done..]. by apply (so_row _ Ho (inl i)).
Qed.

(** ** Fresh rows *)

Definition on_svc_net cfg rn : config S := set_scnet rn cfg.

Lemma run_svc_make_ends cfg es :
  NoDup es -> (forall e, e ∈ es -> inl e ∉ ends (sc_net cfg)) ->
  exists rn', make_ends es cfg = (on_svc_net cfg rn', Ret tt) /\ linked (sc_net cfg) rn' es.
Proof.
  intros Hnd Hf. assert (E : forall f : config S -> config S * res unit, f cfg = f (on_svc_net cfg (sc_net cfg))) by (by destruct cfg).
  setoid_rewrite (E (make_ends es)). apply (for_link (on_svc_net cfg)); [done..|]. intros j e rn' Hj He.
  assert (Hidx : go_idx es (Z.of_nat j) = Ret e) by (apply go_idx_lookup; split; [lia|by rewrite Nat2Z.id]). rewrite Hidx.
  rewrite (bind_run _ _ (on_svc_net cfg rn') (on_svc_net cfg rn') e) by done.
  rewrite (bind_run _ _ _ (on_svc_net cfg (fst (MakeEnd (inl e) rn'))) tt)
    by (unfold on_scnet; cbn [on_svc_net set_scnet sc_net]; by rewrite run_MakeEnd).
  by rewrite run_MakeEnd.
Qed.

(** A new row for owner [o], in place of the one it had. *)
Lemma new_row cfg rn' es o cfg' :
  svc_ok cfg -> length es = sc_n cfg -> NoDup es -> (forall e, e ∈ es -> inl e ∉ ends (sc_net cfg)) -> linked (sc_net cfg) rn' es ->
  (forall o', row cfg' o' = if decide (o' = o) then Some es else row cfg o') -> sc_n cfg' = sc_n cfg -> sc_net cfg' = rn' ->
  (forall o l, row cfg' o = Some l -> length l = sc_n cfg' /\ NoDup l)
  /\ (forall o o' l l' e, row cfg' o = Some l -> row cfg' o' = Some l' -> e ∈ l -> e ∈ l' -> o = o')
  /\ (forall o l e, row cfg' o = Some l -> e ∈ l -> inl e ∈ ends (sc_net cfg'))
  /\ (forall o l j e, row cfg' o = Some l -> l !! j = Some e -> connections (sc_net cfg') !! inl e = Some (Some (inr (Z.of_nat j)))).
Proof.
  intros Ho Hlen Hnd Hf [L1 L2 L3 L4 L5] Hrow En Enet. rewrite En, Enet.
  assert (Hold : forall o' l e, row cfg o' = Some l -> e ∈ l -> e ∉ es).
  { intros o' l e Hl He Hes. by apply (Hf e Hes), (so_ends _ Ho o' l). }
  split_and!.
  - intros o' l. rewrite Hrow. case_decide; [by intros [= <-]|by apply (so_row _ Ho)].
  - intros o1 o2 l1 l2 e. rewrite !Hrow. do 2 case_decide; simplify_eq; try done.
    + intros [= <-] Hl2 He He'. by destruct (Hold _ _ _ Hl2 He').
    + intros Hl1 [= <-] He He'. by destruct (Hold _ _ _ Hl1 He).
    + by apply (so_apart _ Ho).
  - intros o' l e. rewrite Hrow, L2. case_decide; [intros [= <-] He; right; by exists e|intros Hl He; left; by eapply (so_ends _ Ho)].
  - intros o' l j e. rewrite Hrow. case_decide; [intros [= <-]; apply L4|]. intros Hl Hj.
    destruct (L5 (inl e)) as [_ ->]; [|by eapply (so_leads _ Ho)].
    intros e' He' [= <-]. apply (Hold _ _ _ Hl (list_elem_of_lookup_2 _ _ _ Hj) He').
Qed.

(** ** Starting a server *)

Lemma run_sc_saved_at cfg i s :
  sc_saved cfg !! i = Some s -> (s = Shared -> is_Some (sc_servers cfg !! i)) -> sc_saved_at i cfg = (cfg, Ret (svc_storage cfg i)).
Proof.
  intros Hs Hr. unfold sc_saved_at, svc_storage. rewrite (bind_run _ _ _ _ _ (at_server_run _ _ _ _ Hs)), Hs. destruct s; [done| |done].
  destruct (Hr eq_refl) as [o Ho]. rewrite (bind_run _ _ _ _ _ (at_server_run _ _ _ _ Ho)), Ho. done.
Qed.

Lemma saved_some cfg i :
  svc_ok cfg -> (i < sc_n cfg)%nat -> exists s, sc_saved cfg !! i = Some s /\ (s = Shared -> is_Some (sc_servers cfg !! i)).
Proof.
  intros Ho Hi. destruct (lookup_lt_is_Some_2 (sc_saved cfg) i) as [s Hs]; [by rewrite (so_saved _ Ho)|]. exists s. split; [done|].
  intros _. apply lookup_lt_is_Some_2. by rewrite (so_servers _ Ho).
Qed.

(** The server runs on [kv]. *)
Definition svc_running cfg i (kv : S) : config S :=
  set_scnet (set_servers (<[inr (Z.of_nat i) := Some (sc_objects cfg)]> (servers (sc_net cfg))) (sc_net cfg))
    (set_scobjects (sc_objects cfg + 1)
      (set_scsaved (<[i := Shared]> (sc_saved cfg)) (set_scservers (<[i := Some kv]> (sc_servers cfg)) cfg))).

(** What [StartServer] leaves: a new row, end points that lead to the servers, and the
    server on [kv]. *)
Record svc_started cfg cfg' i (es : list string) (kv : S) : Prop :=
  { sd_n : sc_n cfg' = sc_n cfg;
    sd_row : forall o, row cfg' o = if decide (o = inl i) then Some es else row cfg o;
    sd_servers : sc_servers cfg' = <[i := Some kv]> (sc_servers cfg);
    sd_storage : forall j, j <> i -> svc_storage cfg' j = svc_storage cfg j;
    sd_registered : servers (sc_net cfg') = <[inr (Z.of_nat i) := Some (sc_objects cfg)]> (servers (sc_net cfg));
    sd_ends : forall x, x ∈ ends (sc_net cfg') <-> x ∈ ends (sc_net cfg) \/ exists e, x = inl e /\ e ∈ es;
    sd_new : forall e, e ∈ es -> enabled (sc_net cfg') !! inl e = Some false;
    sd_old : forall x, (forall e, e ∈ es -> x <> inl e) -> enabled (sc_net cfg') !! x = enabled (sc_net cfg) !! x;
    sd_mx : sc_maxraftstate cfg' = sc_maxraftstate cfg }.

Lemma run_StartServer cfg i names now kv :
  svc_ok cfg -> (i < sc_n cfg)%nat -> (sc_n cfg <= length names)%nat -> NoDup (take (sc_n cfg) names) ->
  (forall e, e ∈ take (sc_n cfg) names -> inl e ∉ ends (sc_net cfg)) ->
  smr_start (sc_n cfg) (Z.of_nat i) now (default MakePersister (svc_storage cfg i)) (sc_maxraftstate cfg) = (kv, Ret tt) ->
  exists cfg', StartServer i names now cfg = (cfg', Ret tt) /\ svc_ok cfg' /\ svc_started cfg cfg' i (take (sc_n cfg) names) kv.
Proof.
  intros Ho Hi Hlen Hnd Hf Hst. unfold StartServer. rewrite (bind_run _ _ cfg cfg (sc_n cfg)) by done. set (es := take (sc_n cfg) names) in *.
  assert (Hles : length es = sc_n cfg) by (unfold es; rewrite length_take; lia).
  rewrite (bind_run _ _ _ _ _ (put_server_run sc_endnames set_scendnames cfg i (Some es) ltac:(by rewrite (so_rows _ Ho)))).
  set (c1 := set_scendnames _ cfg). destruct (run_svc_make_ends c1 es Hnd Hf) as (rn' & R1 & L). rewrite (bind_run _ _ _ _ _ R1).
  assert (His : (i < length (sc_saved cfg))%nat) by (by rewrite (so_saved _ Ho)).
  destruct (saved_some cfg i Ho Hi) as (s & Hs & Hsh).
  rewrite (bind_run _ _ _ _ _ (run_sc_saved_at (on_svc_net c1 rn') i s Hs Hsh)). change (svc_storage (on_svc_net c1 rn') i) with (svc_storage cfg i).
  set (ps := match svc_storage cfg i with Some ps => Copy ps | None => MakePersister end).
  assert (Hps : ps = default MakePersister (svc_storage cfg i)) by (unfold ps; by destruct (svc_storage cfg i) as [[]|]).
  rewrite (bind_run _ _ _ _ _ (put_server_run sc_saved set_scsaved (on_svc_net c1 rn') i (Owned ps) His)).
  set (c2 := set_scsaved _ (on_svc_net c1 rn')). rewrite (bind_run _ _ c2 c2 (sc_maxraftstate cfg)) by done. rewrite Hps, Hst.
  rewrite (bind_run _ _ c2 c2 tt) by done.
  assert (Hir : (i < length (sc_servers c2))%nat) by (simpl; by rewrite (so_servers _ Ho)).
  rewrite (bind_run _ _ _ _ _ (put_server_run sc_servers set_scservers c2 i (Some kv) Hir)).
  rewrite (bind_run _ _ _ _ _ (put_server_run sc_saved set_scsaved (set_scservers _ c2) i Shared ltac:(simpl; by rewrite length_insert))).
  exists (svc_running c2 i kv). split; [done|].
  assert (Hrow : forall o, row (svc_running c2 i kv) o = if decide (o = inl i) then Some es else row cfg o).
  { intros [p|ck]; [|done]. simpl. destruct (decide (p = i)) as [->|Hne].
    - by rewrite list_lookup_insert_eq, decide_True by (try done; by rewrite (so_rows _ Ho)).
    - rewrite list_lookup_insert_ne, decide_False by congruence. done. }
  pose proof L as [L1 L2 L3 L4 L5]. split; [|split; simpl; try done].
  - destruct (new_row cfg rn' es (inl i) (on_svc_net (set_scendnames (<[i := Some es]> (sc_endnames cfg)) cfg) rn') Ho Hles Hnd Hf L Hrow eq_refl eq_refl)
      as (N1 & N2 & N3 & N4).
    split; simpl; rewrite ?length_insert; try apply Ho; try done.
    + intros j. rewrite list_insert_insert_eq. unfold is_running. simpl. destruct (decide (j = i)) as [->|Hne].
      * rewrite !list_lookup_insert_eq by (by rewrite ?(so_servers _ Ho)). split; [by eexists|done].
      * rewrite !list_lookup_insert_ne by done. apply (so_shared _ Ho).
    + intros j. unfold server_of, is_running. simpl. rewrite L1. destruct (decide (j = i)) as [->|Hne].
      * rewrite lookup_insert_eq, list_lookup_insert_eq by (by rewrite (so_servers _ Ho)). split; [by eexists|by eexists].
      * rewrite lookup_insert_ne, list_lookup_insert_ne by (try done; intros [= E]; lia). apply (so_registered _ Ho).
  - intros j Hne. unfold svc_storage. simpl. by rewrite !list_lookup_insert_ne by done.
  - by rewrite L1.
  - intros x Hx. by apply L5.
Qed.

(** ** Shutting down a server *)

(** An operation that only changes which end points are enabled. *)
Lemma effect_ok cfg f cfg' : effect cfg f cfg' -> svc_ok cfg -> svc_ok cfg'.
Proof.
  intros [[rn ->] W _ _] [O1 O2 O3 O4 O5 O6 O7 O8 O9]. injection W as W1 W2 W3 W4. simpl in *.
  split; simpl; rewrite ?W1, ?W2; try done. unfold server_of in *. simpl. by rewrite W3.
Qed.

Lemma effect_storage cfg f cfg' : effect cfg f cfg' ->
  sc_saved cfg' = sc_saved cfg /\ sc_servers cfg' = sc_servers cfg /\ sc_clerks cfg' = sc_clerks cfg
  /\ sc_maxraftstate cfg' = sc_maxraftstate cfg /\ servers (sc_net cfg') = servers (sc_net cfg) /\ ends (sc_net cfg') = ends (sc_net cfg).
Proof. intros [[rn ->] W _ _]. injection W as W1 W2 W3 W4. done. Qed.

(** The links of [i], in both directions. *)
Definition cut i : Effect := fun p q => if decide (p = i \/ q = i) then Some false else None.

Record shut cfg cfg' i : Prop :=
  { sh_n : sc_n cfg' = sc_n cfg;
    sh_row : forall o, row cfg' o = row cfg o;
    sh_servers : sc_servers cfg' = <[i := None]> (sc_servers cfg);
    sh_storage : forall j, svc_storage cfg' j = svc_storage cfg j;
    sh_registered : servers (sc_net cfg') = <[inr (Z.of_nat i) := None]> (servers (sc_net cfg));
    sh_ends : ends (sc_net cfg') = ends (sc_net cfg);
    sh_names : forall p q e, ename cfg p q = Some e ->
        enabled (sc_net cfg') !! inl e = match cut i p q with Some b => Some b | None => enabled (sc_net cfg) !! inl e end;
    sh_other : forall e : Name, (forall p q s, ename cfg p q = Some s -> e <> inl s) -> enabled (sc_net cfg') !! e = enabled (sc_net cfg) !! e;
    sh_mx : sc_maxraftstate cfg' = sc_maxraftstate cfg }.

Definition kept_saved (o : option Persister) : Saved := match o with Some ps => Owned ps | None => Nil end.

Definition without cfg i : config S :=
  set_scservers (<[i := None]> (sc_servers cfg)) (set_scsaved (<[i := kept_saved (svc_storage cfg i)]> (sc_saved cfg))
    (set_scnet (set_servers (<[inr (Z.of_nat i) := None]> (servers (sc_net cfg))) (sc_net cfg)) cfg)).

Lemma without_ok cfg i : svc_ok cfg -> (i < sc_n cfg)%nat -> svc_ok (without cfg i).
Proof.
  intros [O1 O2 O3 O4 O5 O6 O7 O8 O9] Hi. split; simpl; rewrite ?length_insert; try done; intros j; unfold is_running, server_of; simpl.
  - destruct (decide (j = i)) as [->|Hne]; [|by rewrite !list_lookup_insert_ne by done].
    rewrite !list_lookup_insert_eq by congruence. split; [by destruct (svc_storage cfg i)|by intros [? ?]].
  - destruct (decide (j = i)) as [->|Hne].
    + rewrite lookup_insert_eq, list_lookup_insert_eq by congruence. split; [by intros [? ?]|by intros [? ?]].
    + rewrite lookup_insert_ne, list_lookup_insert_ne by (try done; intros [= E]; lia). apply O9.
Qed.

Lemma without_storage cfg i j : svc_ok cfg -> (i < sc_n cfg)%nat -> svc_storage (without cfg i) j = svc_storage cfg j.
Proof.
  intros Ho Hi. unfold svc_storage at 1. simpl. destruct (decide (j = i)) as [->|Hne].
  - rewrite !list_lookup_insert_eq by (by rewrite ?(so_servers _ Ho), ?(so_saved _ Ho)). by destruct (svc_storage cfg i).
  - by rewrite !list_lookup_insert_ne by done.
Qed.

Lemma run_ShutdownServer cfg i :
  svc_ok cfg -> named_all cfg -> (i < sc_n cfg)%nat ->
  exists cfg', ShutdownServer i cfg = (cfg', Ret tt) /\ svc_ok cfg' /\ shut cfg cfg' i.
Proof.
  intros Ho Hn Hi. unfold ShutdownServer. rewrite (bind_run _ _ cfg cfg (All cfg)) by done.
  destruct (run_disconnectUnlocked cfg i (All cfg) Hn Hi) as (c1 & R1 & E1);
    [apply Forall_forall; intros x ?%elem_of_seq; lia|unfold All; by rewrite length_seq|].
  rewrite (bind_run _ _ _ _ _ R1). destruct (effect_frame _ _ _ E1) as (En & Ee & _). destruct (effect_storage _ _ _ E1) as (F1 & F2 & F3 & F4 & F5 & F6).
  pose proof (effect_ok _ _ _ E1 Ho) as Ho1. assert (Hi1 : (i < sc_n c1)%nat) by (by rewrite En).
  assert (Hst : forall j, svc_storage c1 j = svc_storage cfg j) by (intros j; unfold svc_storage; by rewrite F1, F2).
  set (c2 := set_scnet (set_servers (<[inr (Z.of_nat i) := None]> (servers (sc_net c1))) (sc_net c1)) c1).
  rewrite (bind_run _ _ c1 c2 tt) by done. destruct (saved_some c1 i Ho1 Hi1) as (s & Hs & Hsh).
  rewrite (bind_run _ _ _ _ _ (run_sc_saved_at c2 i s Hs Hsh)). change (svc_storage c2 i) with (svc_storage c1 i).
  assert (Hsv : (i < length (sc_saved c2))%nat) by (by eapply lookup_lt_Some).
  rewrite (bind_run _ _ _ (set_scsaved (<[i := kept_saved (svc_storage c1 i)]> (sc_saved c2)) c2) tt).
  2:{ destruct (svc_storage c1 i) as [ps|] eqn:Hps; [rewrite put_server_run by done; by destruct ps|]. simpl. rewrite list_insert_id; [by destruct c1|].
      unfold svc_storage in Hps. rewrite Hs in *. destruct s; try done. destruct (proj1 (so_shared _ Ho1 i) Hs) as [kv Hkv].
      rewrite Hkv in Hps. done. }
  rewrite put_server_run by (simpl; rewrite (so_servers _ Ho1); done). exists (without c1 i). split; [done|].
  split; [by apply without_ok|]. split; simpl.
  - done.
  - intros [p|ck]; simpl; by rewrite ?Ee, ?F3.
  - by rewrite F2.
  - intros j. rewrite without_storage by done. apply Hst.
  - by rewrite F5.
  - done.
  - intros p q e He. rewrite (ef_names _ _ _ E1 p q e He), around_eq. unfold cut.
    assert (Hpq : (p < sc_n cfg)%nat /\ (q < sc_n cfg)%nat) by (by apply (ename_range cfg p q e)). unfold All.
    repeat case_decide; rewrite ?elem_of_seq in *; try done; exfalso; naive_solver lia.
  - apply (ef_other _ _ _ E1).
  - done.
Qed.

End Servers.
