(* ===== verification/SvcProps.v ===== *)
(** The service harness: a configuration is made with every server running and connected,
    a restart keeps the storage and the clerks' connections, a clerk gets a shuffled handle
    on every server, and the leader of a partition is left with a minority. *)
From Stdlib Require Import ZArith Lia.
From stdpp Require Import base list numbers strings gmap.
From S2P Require Import Prelude RaftTypes RaftNode LabRpc NetOps RaftConfig SvcConfig SvcNet SvcServers.

#[local] Open Scope Z_scope.

(** ** random_handles *)

Section Shuffle.
Context {A : Type}.
Implicit Types (l : list A) (rnd : nat -> nat).

Lemma random_handles_permutation rnd l : Permutation (random_handles rnd l) l.
Proof.
  unfold random_handles. generalize (seq 0 (length l)). intros ks.
  assert (Hg : forall sa : list A, Permutation (foldl (fun (sa : list A) (i : nat) => match sa !! i, sa !! rnd i with
      Some x, Some y => <[i := y]> (<[rnd i := x]> sa) | _, _ => sa end) sa ks) sa); [|apply Hg].
  induction ks as [|i ks IH]; intros sa; [done|]. simpl. rewrite IH.
  destruct (sa !! i) as [x|] eqn:Hi; [|done]. destruct (sa !! rnd i) as [y|] eqn:Hj; [|done]. by apply Permutation_insert_swap.
Qed.

End Shuffle.

Section Props.
Context {S : Type} `{SmrServer S}.
Implicit Types (cfg : config S) (i j : nat).

(** ** make_config *)

Lemma blank_svc_ok n mx : svc_ok (blank_svc (S:=S) n mx).
Proof.
  assert (Hno : forall o, row (blank_svc (S:=S) n mx) o = None).
  { intros [i|ck]; simpl; [|apply lookup_empty]. destruct (replicate n None !! i) as [x|] eqn:E; [|done]. by apply lookup_replicate in E as [-> _]. }
  split; simpl; rewrite ?length_replicate; try done; try (intros o *; rewrite Hno; done).
  - intros i. unfold is_running. simpl. split; [by intros [? _]%lookup_replicate|]. by intros [kv [? _]%lookup_replicate].
  - intros i. unfold is_running. simpl. change (server_of (inr (Z.of_nat i)) MakeNetwork) with (@None nat).
    split; [by intros [? ?]|]. by intros [kv [? _]%lookup_replicate].
Qed.

(** The end point [j] of a row leads to server [j]. *)
Lemma leads_to cfg (o : Owner) j e :
  svc_ok cfg -> (l ← row cfg o; l !! j) = Some e ->
  readEndnameInfo (inl e) (sc_net cfg)
  = (is_enabled (inl e) (sc_net cfg), Some (inr (Z.of_nat j)), server_of (inr (Z.of_nat j)) (sc_net cfg), reliable (sc_net cfg), longReordering (sc_net cfg)).
Proof.
  intros Ho Hr. destruct (row cfg o) as [l|] eqn:Hl; [|done]. simpl in Hr. unfold readEndnameInfo.
  by rewrite (so_leads _ Ho o l j e Hl Hr).
Qed.

(** The servers from [k] on are started. *)
Lemma run_start_servers n mx (names : nat -> list string) (now : nat -> Z) (kv : nat -> S) k cfg :
  (k <= n)%nat -> sc_n cfg = n -> sc_maxraftstate cfg = mx -> svc_ok cfg ->
  (forall i, (i < n)%nat -> length (names i) = n /\ NoDup (names i)) ->
  (forall i e j, (i < n)%nat -> (j < n)%nat -> e ∈ names i -> e ∈ names j -> i = j) ->
  (forall i, (i < n)%nat -> smr_start n (Z.of_nat i) (now i) MakePersister mx = (kv i, Ret tt)) ->
  (forall i, (k <= i < n)%nat -> svc_storage cfg i = None) ->
  (forall i e, (k <= i < n)%nat -> e ∈ names i -> inl e ∉ ends (sc_net cfg)) ->
  (forall i, (i < k)%nat -> is_Some (row cfg (inl i)) /\ sc_servers cfg !! i = Some (Some (kv i))) ->
  exists cfg', m_for (seq k (n - k)) (fun i => StartServer i (names i) (now i)) cfg = (cfg', Ret tt)
    /\ sc_n cfg' = n /\ svc_ok cfg' /\ forall i, (i < n)%nat -> is_Some (row cfg' (inl i)) /\ sc_servers cfg' !! i = Some (Some (kv i)).
Proof.
  intros Hk. remember (n - k)%nat as m eqn:Hm. revert k Hk Hm cfg. induction m as [|m IH]; intros k Hk Hm cfg En Emx Ho Hlen Hdis Hmk Hst Hf Hdone.
  { exists cfg. split; [done|]. split_and!; try done. intros i Hi. apply Hdone. lia. }
  destruct (Hlen k ltac:(lia)) as [Hl Hnd]. assert (Htk : take (sc_n cfg) (names k) = names k) by (rewrite En, <- Hl; apply firstn_all).
  destruct (run_StartServer cfg k (names k) (now k) (kv k)) as (c1 & R & Ho1 & Hs); try (rewrite ?Htk; done); [lia|lia|..].
  { rewrite Htk. intros e He. apply (Hf k e); [lia|done]. } { rewrite (Hst k) by lia. rewrite En, Emx. apply Hmk. lia. }
  rewrite Htk in Hs. cbn [seq m_for]. rewrite (bind_run _ _ _ _ _ R).
  apply IH; [lia|lia|by rewrite (sd_n _ _ _ _ _ Hs)|by rewrite (sd_mx _ _ _ _ _ Hs)|done..| | |].
  - intros i Hi. rewrite (sd_storage _ _ _ _ _ Hs) by lia. apply Hst. lia.
  - intros i e Hi He Hin. apply (sd_ends _ _ _ _ _ Hs) in Hin as [Hin|(e' & [= <-] & He')]; [by apply (Hf i e); [lia|..]|].
    assert (i = k) by (eapply (Hdis i e k); try done; lia). lia.
  - intros i Hi. rewrite (sd_row _ _ _ _ _ Hs), (sd_servers _ _ _ _ _ Hs). destruct (decide (i = k)) as [->|Hne].
    + rewrite decide_True by done. rewrite list_lookup_insert_eq by (rewrite (so_servers _ Ho); lia). done.
    + rewrite decide_False by congruence. rewrite list_lookup_insert_ne by done. apply Hdone. lia.
Qed.

(** make_config of a service: with end point names that are all different and servers
    that start on blank storage, it returns a harness in which every server runs, and
    every end point between servers is enabled and leads to a running server. *)
Theorem svc_make_config (n : nat) unreliable mx (names : nat -> list string) (now : nat -> Z) (kv : nat -> S) :
  (forall i, (i < n)%nat -> length (names i) = n /\ NoDup (names i)) ->
  (forall i e j, (i < n)%nat -> (j < n)%nat -> e ∈ names i -> e ∈ names j -> i = j) ->
  (forall i, (i < n)%nat -> smr_start n (Z.of_nat i) (now i) MakePersister mx = (kv i, Ret tt)) ->
  exists cfg, make_config n unreliable mx names now = (cfg, Ret tt) /\ svc_ok cfg /\ named_all cfg /\ sc_n cfg = n
    /\ (forall i, (i < n)%nat -> sc_servers cfg !! i = Some (Some (kv i)))
    /\ forall i j e, ename cfg i j = Some e ->
         let '(ok, servername, server, _, _) := readEndnameInfo (inl e) (sc_net cfg) in
         ok = true /\ servername = Some (inr (Z.of_nat j)) /\ is_Some server.
Proof.
  intros Hlen Hdis Hst. unfold make_config.
  destruct (run_start_servers n mx names now kv 0 (blank_svc n mx)) as (c1 & R1 & En & Ho1 & Hall); try done; [lia|apply blank_svc_ok|..].
  { intros i Hi. unfold svc_storage. simpl. by rewrite lookup_replicate_2 by lia. } { lia. }
  rewrite Nat.sub_0_r in R1. rewrite (bind_run _ _ _ _ _ R1).
  assert (Hn1 : named_all c1) by (apply ok_named; [done|]; intros i Hi; apply Hall; by rewrite <- En).
  destruct (run_ConnectAll c1 Hn1) as (c2 & R2 & E2). rewrite (bind_run _ _ _ _ _ R2). destruct (effect_frame _ _ _ E2) as (En2 & _ & Hn2).
  pose proof (effect_ok _ _ _ E2 Ho1) as Ho2. destruct (effect_storage _ _ _ E2) as (_ & F2 & _).
  set (c3 := set_scnet (fst (Reliable (negb unreliable) (sc_net c2))) c2). exists c3. split; [done|].
  assert (Ho3 : svc_ok c3) by (destruct Ho2; by split). specialize (Hn2 Hn1). assert (Hn3 : named_all c3) by (destruct Hn2; by split).
  split_and!; try done; [by rewrite <- En, <- En2|intros i Hi; simpl; rewrite F2; by apply Hall|].
  intros i j e He. rewrite (leads_to c3 (inl i) j e Ho3) by (rewrite ename_row in He; exact He).
  destruct (ename_range _ _ _ _ Hn3 He) as [Hi Hj]. split; [|split; [done|]].
  - unfold is_enabled. simpl. by rewrite (ef_names _ _ _ E2 i j e) by (by unfold ename in *; simpl in He; destruct E2 as [[rn ->] _ _ _]).
  - apply (so_registered _ Ho3). exists (kv j). simpl. rewrite F2. apply Hall. rewrite <- En, <- En2. exact Hj.
Qed.

(** ** Restart *)

(** Shutting a server down and starting it again, with fresh end point names: it is made
    from the storage it had, the other servers and their storage are left alone, the links
    with the other servers are disabled in both directions and those among the others are
    as they were; what a clerk had enabled stays enabled, and its end point for the server
    leads to the new instance. *)
Theorem svc_restart cfg i names now kv :
  svc_ok cfg -> named_all cfg -> (i < sc_n cfg)%nat -> (sc_n cfg <= length names)%nat -> NoDup (take (sc_n cfg) names) ->
  (forall e, e ∈ take (sc_n cfg) names -> inl e ∉ ends (sc_net cfg)) ->
  smr_start (sc_n cfg) (Z.of_nat i) now (default MakePersister (svc_storage cfg i)) (sc_maxraftstate cfg) = (kv, Ret tt) ->
  exists cfg', (ShutdownServer i;; StartServer i names now) cfg = (cfg', Ret tt) /\ svc_ok cfg'
    /\ sc_servers cfg' = <[i := Some kv]> (sc_servers cfg)
    /\ (forall j, j <> i -> svc_storage cfg' j = svc_storage cfg j)
    /\ (forall p q e, ename cfg' p q = Some e ->
         is_enabled (inl e) (sc_net cfg') = if decide (p = i \/ q = i) then false else is_enabled (inl e) (sc_net cfg))
    /\ forall ck l e, sc_clerks cfg !! ck = Some l -> l !! i = Some e ->
         let '(ok, servername, server, _, _) := readEndnameInfo (inl e) (sc_net cfg') in
         ok = is_enabled (inl e) (sc_net cfg) /\ servername = Some (inr (Z.of_nat i)) /\ is_Some server.
Proof.
  intros Ho Hn Hi Hlen Hnd Hf Hst. destruct (run_ShutdownServer cfg i Ho Hn Hi) as (c1 & R1 & Ho1 & Hs). rewrite (bind_run _ _ _ _ _ R1).
  pose proof (sh_n _ _ _ Hs) as En.
  destruct (run_StartServer c1 i names now kv) as (c2 & R2 & Ho2 & Hd); rewrite ?En; try done.
  { rewrite (sh_ends _ _ _ Hs). done. } { rewrite (sh_storage _ _ _ Hs), (sh_mx _ _ _ Hs). done. }
  rewrite En in Hd. set (es := take (sc_n cfg) names) in *. exists c2. split; [done|]. split; [done|].
  assert (Hold : forall o l e, row cfg o = Some l -> e ∈ l -> forall e', e' ∈ es -> (inl e : Name) <> inl e').
  { intros o l e Hl He e' He' [= <-]. apply (Hf _ He'). by eapply (so_ends _ Ho). }
  split_and!.
  - rewrite (sd_servers _ _ _ _ _ Hd), (sh_servers _ _ _ Hs). apply list_insert_insert_eq.
  - intros j Hne. rewrite (sd_storage _ _ _ _ _ Hd j Hne). apply (sh_storage _ _ _ Hs).
  - intros p q e. rewrite ename_row, (sd_row _ _ _ _ _ Hd), (sh_row _ _ _ Hs). unfold is_enabled. destruct (decide (p = i)) as [->|Hne].
    + rewrite decide_True by done. rewrite (decide_True (P := i = i \/ q = i)) by auto. simpl. intros He.
      by rewrite (sd_new _ _ _ _ _ Hd) by (by eapply list_elem_of_lookup_2).
    + rewrite decide_False by congruence. destruct (row cfg (inl p)) as [l|] eqn:Hl; [|done]. simpl. intros He.
      rewrite (sd_old _ _ _ _ _ Hd) by (by eapply Hold; [|eapply list_elem_of_lookup_2]).
      rewrite (sh_names _ _ _ Hs p q e) by (by rewrite ename_row, Hl). unfold cut. by case_decide.
  - intros ck l e Hl He. assert (Hrow : row cfg (inr ck) = Some l) by done.
    assert (Hrow2 : row c2 (inr ck) = Some l) by (rewrite (sd_row _ _ _ _ _ Hd), decide_False by done; by rewrite (sh_row _ _ _ Hs)).
    rewrite (leads_to c2 (inr ck) i e Ho2) by (by rewrite Hrow2). split; [|split; [done|]].
    + unfold is_enabled. rewrite (sd_old _ _ _ _ _ Hd) by (by eapply Hold; [|eapply list_elem_of_lookup_2]).
      rewrite (sh_other _ _ _ Hs); [done|]. intros p q s' Hs' [= <-]. rewrite ename_row in Hs'.
      destruct (row cfg (inl p)) as [l'|] eqn:Hl'; [|done]. simpl in Hs'.
      assert (inl p = (inr ck : Owner)); [|done]. by eapply (so_apart _ Ho _ _ l' l e); try eapply list_elem_of_lookup_2.
    + apply (so_registered _ Ho2). exists kv. rewrite (sd_servers _ _ _ _ _ Hd). apply list_lookup_insert_eq.
      by rewrite (sh_servers _ _ _ Hs), length_insert, (so_servers _ Ho).
Qed.

(** ** Clerks *)

(** The end points for the servers of [to]. *)
Definition handles_for (l : list string) (to : list nat) : list Name := omap (fun j => inl <$> l !! j) to.

Lemma run_ConnectClient cfg ck l (to : list nat) :
  sc_clerks cfg !! ck = Some l -> Forall (fun x => (x < length l)%nat) to ->
  ConnectClientUnlocked ck to cfg = (on_svc_net cfg (enable_all (handles_for l to) true (sc_net cfg)), Ret tt).
Proof.
  intros Hl Ht. unfold ConnectClientUnlocked. rewrite (bind_run _ _ cfg cfg l) by (unfold clerk_names, gets; by rewrite Hl).
  assert (E : forall f : config S -> config S * res unit, f cfg = f (on_svc_net cfg (sc_net cfg))) by (by destruct cfg). rewrite E.
  apply (for_enable (on_svc_net cfg)). intros j rn Hj. rewrite Forall_forall in Ht.
  destruct (lookup_lt_is_Some_2 l j (Ht j Hj)) as [e He]. rewrite He. simpl.
  assert (Hidx : go_idx l (Z.of_nat j) = Ret e) by (apply go_idx_lookup; split; [lia|by rewrite Nat2Z.id]).
  by rewrite Hidx.
Qed.

Lemma elem_of_handles l (to : list nat) j e : NoDup l -> l !! j = Some e -> inl e ∈ handles_for l to <-> j ∈ to.
Proof.
  intros Hnd Hj. unfold handles_for. rewrite list_elem_of_omap. split.
  - intros (k & Hk & Hx). apply fmap_Some in Hx as (e' & Hk' & [= <-]). by rewrite (NoDup_lookup l j k e).
  - intros Hin. exists j. split; [done|]. by rewrite Hj.
Qed.

(** makeClient: a new clerk with fresh end point names, one for each server, gets the
    handles in some order; the handle of a server is enabled exactly for the servers of
    [to], and leads to that server; nothing changes for the other end points. *)
Theorem make_client_handles cfg ck names rnd (to : list nat) :
  svc_ok cfg -> sc_clerks cfg !! ck = None -> (sc_n cfg <= length names)%nat -> NoDup (take (sc_n cfg) names) ->
  (forall e, e ∈ take (sc_n cfg) names -> inl e ∉ ends (sc_net cfg)) -> Forall (fun x => (x < sc_n cfg)%nat) to ->
  exists cfg' handles, makeClient ck names rnd to cfg = (cfg', Ret handles) /\ svc_ok cfg'
    /\ Permutation handles (take (sc_n cfg) names) /\ sc_clerks cfg' = <[ck := take (sc_n cfg) names]> (sc_clerks cfg)
    /\ (forall j e, take (sc_n cfg) names !! j = Some e ->
         let '(ok, servername, server, _, _) := readEndnameInfo (inl e) (sc_net cfg') in
         ok = bool_decide (j ∈ to) /\ servername = Some (inr (Z.of_nat j)) /\ (is_Some server <-> is_running cfg j))
    /\ forall x, x ∈ ends (sc_net cfg) -> enabled (sc_net cfg') !! x = enabled (sc_net cfg) !! x.
Proof.
  intros Ho Hck Hlen Hnd Hf Ht. unfold makeClient. rewrite (bind_run _ _ cfg cfg (sc_n cfg)) by done. set (es := take (sc_n cfg) names) in *.
  assert (Hles : length es = sc_n cfg) by (unfold es; rewrite length_take; lia).
  destruct (run_svc_make_ends cfg es Hnd Hf) as (rn & R1 & L). rewrite (bind_run _ _ _ _ _ R1).
  set (c1 := set_scclerks (<[ck := es]> (sc_clerks cfg)) (sc_nextClientId cfg + 1) (on_svc_net cfg rn)).
  rewrite (bind_run _ _ (on_svc_net cfg rn) c1 tt) by done.
  rewrite (bind_run _ _ _ _ _ (run_ConnectClient c1 ck es to (lookup_insert_eq _ _ _) ltac:(by rewrite Hles))).
  set (c2 := on_svc_net c1 _). exists c2, (random_handles rnd es). split; [done|].
  assert (Hrow : forall o, row c2 o = if decide (o = inr ck) then Some es else row cfg o).
  { intros [p|k]; [done|]. simpl. destruct (decide (k = ck)) as [->|Hne]; [by rewrite lookup_insert_eq, decide_True|].
    by rewrite lookup_insert_ne, decide_False by congruence. }
  pose proof L as [L1 L2 L3 L4 L5].
  assert (HW : wiring (sc_net c2) = wiring rn) by apply enable_all_wiring. injection HW as W1 W2 W3 W4.
  assert (Hrun : forall j, is_running c2 j <-> is_running cfg j) by done.
  assert (Ho2 : svc_ok c2).
  { destruct (new_row cfg rn es (inr ck) c1 Ho Hles Hnd Hf L Hrow eq_refl eq_refl) as (N1 & N2 & N3 & N4).
    change (sc_net c2) with (enable_all (handles_for es to) true rn) in *.
    split; try done; try apply Ho; change (sc_net c2) with (enable_all (handles_for es to) true rn); rewrite ?W1, ?W2; try done.
    intros j. rewrite Hrun, <- (so_registered _ Ho). unfold server_of. by rewrite W3, L1. }
  split; [done|]. split_and!; [apply random_handles_permutation|done|..].
  - intros j e He. rewrite (leads_to c2 (inr ck) j e Ho2) by (rewrite Hrow, decide_True by done; done). split; [|split; [done|]].
    + unfold is_enabled. simpl. rewrite enable_all_lookup. destruct (decide (inl e ∈ handles_for es to)) as [Hin|Hout]; rewrite elem_of_handles in * by done.
      * by rewrite bool_decide_eq_true_2.
      * rewrite bool_decide_eq_false_2 by done. simpl. by rewrite (L3 e) by (by eapply list_elem_of_lookup_2).
    + apply (so_registered _ Ho2).
  - intros x Hx. simpl. rewrite enable_all_lookup, decide_False.
    + apply L5. intros e He ->. by apply (Hf e).
    + unfold handles_for. rewrite list_elem_of_omap. intros (j & _ & (e & He & ->)%fmap_Some). apply (Hf e); [by eapply list_elem_of_lookup_2|done].
Qed.

(** ** Partitions *)

(** Asking a server for its state does not change it. *)
Class SmrStateOk : Prop := smr_state_pure : forall kv : S, exists x, smr_state kv = (kv, Ret x).
Context `{!SmrStateOk}.

Definition leads (kv : S) : Prop := exists t, smr_state kv = (kv, Ret (t, true)).

Lemma run_Leader_loop cfg (l : list nat) :
  Forall (is_running cfg) l ->
  (exists i kv, Leader_loop l cfg = (cfg, Ret (true, i)) /\ i ∈ l /\ sc_servers cfg !! i = Some (Some kv) /\ leads kv)
  \/ (Leader_loop l cfg = (cfg, Ret (false, 0%nat)) /\ forall i kv, i ∈ l -> sc_servers cfg !! i = Some (Some kv) -> ~ leads kv).
Proof.
  induction l as [|i l IH]; intros Hr; [right; split; [done|]; by intros i kv ?%elem_of_nil|].
  apply Forall_cons in Hr as [[kv Hkv] Hr]. destruct (smr_state_pure kv) as [[t b] Hx]. simpl.
  rewrite (bind_run _ _ cfg cfg b); cycle 1.
  { unfold on_server. rewrite (bind_run _ _ _ _ _ (at_server_run _ _ _ _ Hkv)). rewrite (bind_run _ _ kv kv (t, b)) by done. simpl.
    rewrite (bind_run _ _ _ _ _ (put_server_run sc_servers set_scservers cfg i (Some kv) ltac:(by eapply lookup_lt_Some))).
    rewrite list_insert_id by done. by destruct cfg. }
  destruct b.
  - left. exists i, kv. split; [done|]. split; [left|]. split; [done|]. by exists t.
  - destruct (IH Hr) as [(j & kv' & E & Hj & ?)|[E Hno]].
    + left. exists j, kv'. split; [done|]. split; [by right|done].
    + right. split; [done|]. intros j kv' [->|Hj]%elem_of_cons; [|by apply Hno]. rewrite Hkv. intros [= <-] [u Hu]. congruence.
Qed.

(** Cutting the leader off: with an odd number of servers, at least three, all running,
    make_partition and partition split the servers into two groups; the first server that
    says it leads (server 0 when none does) is in the second, smaller one.  Afterwards its
    end points are enabled exactly for its own group, which is less than a majority, and
    the end points of clerks are as before. *)
Theorem leader_isolated cfg :
  svc_ok cfg -> named_all cfg -> Nat.odd (sc_n cfg) = true -> (3 <= sc_n cfg)%nat -> (forall i, (i < sc_n cfg)%nat -> is_running cfg i) ->
  exists b l p1 p2 cfg', Leader cfg = (cfg, Ret (b, l)) /\ make_partition cfg = (cfg, Ret (p1, p2)) /\ partition p1 p2 cfg = (cfg', Ret tt)
    /\ (b = true <-> exists i kv, sc_servers cfg !! i = Some (Some kv) /\ leads kv)
    /\ Permutation (p1 ++ p2) (seq 0 (sc_n cfg)) /\ l ∈ p2 /\ (2 * length p2 < sc_n cfg)%nat
    /\ (forall j e, ename cfg l j = Some e \/ ename cfg j l = Some e -> is_enabled (inl e) (sc_net cfg') = bool_decide (j ∈ p2))
    /\ forall ck es e, sc_clerks cfg !! ck = Some es -> e ∈ es -> is_enabled (inl e) (sc_net cfg') = is_enabled (inl e) (sc_net cfg).
Proof.
  intros Ho Hn Hodd H3 Hrun.
  assert (Hall : Forall (is_running cfg) (seq 0 (sc_n cfg))) by (apply Forall_forall; intros i ?%elem_of_seq; apply Hrun; lia).
  assert (HL : exists b l, Leader cfg = (cfg, Ret (b, l)) /\ (l < sc_n cfg)%nat
    /\ (b = true <-> exists i kv, sc_servers cfg !! i = Some (Some kv) /\ leads kv)).
  { unfold Leader. rewrite (bind_run _ _ cfg cfg (sc_n cfg)) by done.
    destruct (run_Leader_loop cfg (seq 0 (sc_n cfg)) Hall) as [(i & kv & E & Hi%elem_of_seq & Hkv & Hl)|[E Hno]].
    - exists true, i. split; [done|]. split; [lia|]. split; [by exists i, kv|done].
    - exists false, 0%nat. split; [done|]. split; [lia|]. split; [done|]. intros (i & kv & Hkv & Hl). exfalso.
      apply (Hno i kv); [|done..]. apply elem_of_seq. apply lookup_lt_Some in Hkv. rewrite (so_servers _ Ho) in Hkv. lia. }
  destruct HL as (b & l & HL & Hl & Hb). destruct (make_partition_odd (sc_n cfg) l Hodd H3 Hl) as (p1 & p2 & Hmp & Hperm & Hl1 & Hl2 & Hin).
  assert (Hin1 : inside cfg p1 /\ inside cfg p2).
  { split; apply Forall_forall; intros x Hx; assert (Hx' : x ∈ seq 0 (sc_n cfg)) by (rewrite <- Hperm; set_solver); apply elem_of_seq in Hx'; lia. }
  assert (Hd : p1 ## p2).
  { assert (Hnd : NoDup (p1 ++ p2)) by (rewrite Hperm; apply NoDup_seq). apply NoDup_app in Hnd as (_ & Hnd & _). intros x. apply Hnd. }
  assert (Hsz : (length p1 + length p2 = sc_n cfg)%nat) by (rewrite <- length_app, Hperm; apply length_seq).
  destruct (run_partition cfg p1 p2 Hn) as (cfg' & Hp & E); [apply Hin1|apply Hin1|lia|lia|done|].
  exists b, l, p1, p2, cfg'. split; [done|]. split.
  { unfold make_partition. rewrite (bind_run _ _ _ _ _ HL), (bind_run _ _ cfg cfg (sc_n cfg)) by done. simpl. by rewrite Hmp. }
  split_and!; try done; [lia|..].
  - intros j e He. assert (Hj : (j < sc_n cfg)%nat) by (destruct He as [He|He]; apply (ename_range _ _ _ _ Hn) in He; lia).
    assert (Hj' : j ∈ p1 \/ j ∈ p2) by (apply elem_of_app; rewrite Hperm; apply elem_of_seq; lia).
    assert (Hp12 : parted p1 p2 l j = Some (bool_decide (j ∈ p2)) /\ parted p1 p2 j l = Some (bool_decide (j ∈ p2))).
    { unfold parted. case_bool_decide; split; repeat case_decide; try done; exfalso; set_solver. }
    unfold is_enabled. destruct He as [He|He]; rewrite (ef_names _ _ _ E _ _ _ He); [by rewrite (proj1 Hp12)|by rewrite (proj2 Hp12)].
  - intros ck es e Hck He. unfold is_enabled. rewrite (ef_other _ _ _ E); [done|]. intros p q s' Hs' [= <-]. rewrite ename_row in Hs'.
    destruct (row cfg (inl p)) as [l'|] eqn:Hl'; [|done]. simpl in Hs'.
    assert (inl p = (inr ck : Owner)); [|done]. eapply (so_apart _ Ho _ _ l' es e); try done. by eapply list_elem_of_lookup_2.
Qed.

End Props.
