(* ===== verification/KvSrv.v ===== *)
(** The single key/value server of package kvsrv (src/src/kvsrv): server.go,
    common.go and the clerk of client.go.

    Every handler runs under [kv.mu], so a handler is one step.  [reply] is an
    argument of the helper functions because they fill in the caller's reply. *)
From Stdlib Require Import ZArith Lia.
From stdpp Require Import base list numbers strings gmap.
From S2P Require Import Prelude.

#[local] Open Scope string_scope.
#[local] Open Scope Z_scope.

Module KvSrv.

(** ** common.go *)

Record PutAppendArgs := mkPutAppendArgs
  { pa_Key : string; pa_Value : string; pa_ClientId : Z; pa_AckSeq : Z }.

Record PutAppendReply := mkPutAppendReply { par_Value : string; par_OpResult : bool }.

Record GetArgs := mkGetArgs { ga_Key : string; ga_ClientId : Z; ga_AckSeq : Z }.

Record GetReply := mkGetReply { gr_Value : string; gr_OpResult : bool }.

(** ** server.go *)

Record KVServer := mkKVServer { store : gmap string string; clientAck : gmap Z Z }.

Definition StartKVServer : KVServer := mkKVServer ∅ ∅.

Definition set_store (x : gmap string string) (kv : KVServer) : KVServer :=
  mkKVServer x (clientAck kv).
Definition set_clientAck (x : gmap Z Z) (kv : KVServer) : KVServer :=
  mkKVServer (store kv) x.

(** The result says whether to do the operation; the reply is updated. *)
Definition CheckWriteOpNecessary (args : PutAppendArgs) (reply : PutAppendReply) (kv : KVServer)
    : bool * PutAppendReply :=
  if pa_AckSeq args <? 0 then (false, reply)
  else match clientAck kv !! pa_ClientId args with
       | None =>
           if pa_AckSeq args =? 0 then (true, reply)
           else (false, mkPutAppendReply (par_Value reply) false)
       | Some value =>
           if value + 1 =? pa_AckSeq args then (true, reply)
           else if pa_AckSeq args <=? value then (false, mkPutAppendReply (par_Value reply) true)
           else (false, mkPutAppendReply (par_Value reply) false)
       end.

Definition CheckReadOpNecessary (args : GetArgs) (reply : GetReply) (kv : KVServer)
    : bool * GetReply :=
  if ga_AckSeq args <? 0 then (false, reply)
  else match clientAck kv !! ga_ClientId args with
       | None => if ga_AckSeq args =? 0 then (true, reply) else (false, reply)
       | Some value =>
           if value + 1 =? ga_AckSeq args then (true, reply)
           else if ga_AckSeq args <=? value then (true, reply)
           else (false, mkGetReply (gr_Value reply) false)
       end.

(** Both Maintain functions move the client's mark forward. *)
Definition bump (clientId ackSeq : Z) (kv : KVServer) : KVServer :=
  match clientAck kv !! clientId with
  | None => set_clientAck (<[clientId := ackSeq]> (clientAck kv)) kv
  | Some value =>
      if value <? ackSeq then set_clientAck (<[clientId := ackSeq]> (clientAck kv)) kv else kv
  end.

Definition MaintainState (args : PutAppendArgs) (reply : PutAppendReply) (kv : KVServer)
    : PutAppendReply * KVServer :=
  (mkPutAppendReply (par_Value reply) true, bump (pa_ClientId args) (pa_AckSeq args) kv).

Definition MaintainRState (args : GetArgs) (reply : GetReply) (kv : KVServer)
    : GetReply * KVServer :=
  (mkGetReply (gr_Value reply) true, bump (ga_ClientId args) (ga_AckSeq args) kv).

Definition Get (args : GetArgs) (reply : GetReply) (kv : KVServer) : GetReply * KVServer :=
  let '(necessary, reply) := CheckReadOpNecessary args reply kv in
  if negb necessary then (reply, kv)
  else
    let reply := mkGetReply (default "" (store kv !! ga_Key args)) (gr_OpResult reply) in
    MaintainRState args reply kv.

Definition Put (args : PutAppendArgs) (reply : PutAppendReply) (kv : KVServer)
    : PutAppendReply * KVServer :=
  let '(necessary, reply) := CheckWriteOpNecessary args reply kv in
  if negb necessary then (reply, kv)
  else
    let reply := mkPutAppendReply (default "" (store kv !! pa_Key args)) (par_OpResult reply) in
    let kv := set_store (<[pa_Key args := pa_Value args]> (store kv)) kv in
    MaintainState args reply kv.

Definition Append (args : PutAppendArgs) (reply : PutAppendReply) (kv : KVServer)
    : PutAppendReply * KVServer :=
  let '(necessary, reply) := CheckWriteOpNecessary args reply kv in
  if negb necessary then (reply, kv)
  else
    let '(reply, kv) :=
      match store kv !! pa_Key args with
      | Some value =>
          (mkPutAppendReply value (par_OpResult reply),
           set_store (<[pa_Key args := value +:+ pa_Value args]> (store kv)) kv)
      | None =>
          (mkPutAppendReply "" (par_OpResult reply),
           set_store (<[pa_Key args := pa_Value args]> (store kv)) kv)
      end in
    MaintainState args reply kv.

(** ** client.go *)

Record Clerk := mkClerk { clientId : Z; ackSeq : Z }.

(** [id] is what nrand returned. *)
Definition MakeClerk (id : Z) : Clerk := mkClerk id 0.

(** Under ck.lock: the arguments of a request, and the next sequence number. *)
Definition Clerk_GetArgs (key : string) (ck : Clerk) : GetArgs * Clerk :=
  (mkGetArgs key (clientId ck) (ackSeq ck), mkClerk (clientId ck) (ackSeq ck + 1)).

Definition Clerk_PutAppendArgs (key value : string) (ck : Clerk) : PutAppendArgs * Clerk :=
  (mkPutAppendArgs key value (clientId ck) (ackSeq ck), mkClerk (clientId ck) (ackSeq ck + 1)).

(** The retry loops.  Each attempt is given by what the network does with it:
    the request may be lost ([Lost]), served with the answer lost
    ([NoAnswer]), or served and answered ([Answered]).  [None]: still retrying
    when the attempts run out. *)
Inductive Net := Lost | NoAnswer | Answered.

#[export] Instance Net_eq_dec : EqDecision Net.
Proof. solve_decision. Defined.

Fixpoint PutAppend_loop (handler : PutAppendArgs -> PutAppendReply -> KVServer -> PutAppendReply * KVServer)
    (args : PutAppendArgs) (net : list Net) (reply : PutAppendReply) (kv : KVServer)
    : option string * KVServer :=
  match net with
  | [] => (None, kv)
  | Lost :: net' => PutAppend_loop handler args net' reply kv
  | NoAnswer :: net' =>
      PutAppend_loop handler args net' reply (snd (handler args (mkPutAppendReply "" false) kv))
  | Answered :: net' =>
      let '(answer, kv') := handler args (mkPutAppendReply "" false) kv in
      if par_OpResult answer then (Some (par_Value answer), kv')
      else PutAppend_loop handler args net' answer kv'
  end.

Fixpoint Get_loop (args : GetArgs) (net : list Net) (reply : GetReply) (kv : KVServer)
    : option string * KVServer :=
  match net with
  | [] => (None, kv)
  | Lost :: net' => Get_loop args net' reply kv
  | NoAnswer :: net' => Get_loop args net' reply (snd (Get args (mkGetReply "" false) kv))
  | Answered :: net' =>
      let '(answer, kv') := Get args (mkGetReply "" false) kv in
      if gr_OpResult answer then (Some (gr_Value answer), kv')
      else Get_loop args net' answer kv'
  end.

(** ** Requests as data, and runs of the server *)

Inductive Req := RGet (a : GetArgs) | RPut (a : PutAppendArgs) | RAppend (a : PutAppendArgs).

Definition serve (r : Req) (kv : KVServer) : KVServer :=
  match r with
  | RGet a => snd (Get a (mkGetReply "" false) kv)
  | RPut a => snd (Put a (mkPutAppendReply "" false) kv)
  | RAppend a => snd (Append a (mkPutAppendReply "" false) kv)
  end.

Definition serve_all (rs : list Req) (kv : KVServer) : KVServer := foldl (fun kv r => serve r kv) kv rs.

Definition req_client (r : Req) : Z :=
  match r with RGet a => ga_ClientId a | RPut a | RAppend a => pa_ClientId a end.
Definition req_seq (r : Req) : Z :=
  match r with RGet a => ga_AckSeq a | RPut a | RAppend a => pa_AckSeq a end.

(** What a write does to the store, and what it should answer. *)
Definition effect (r : Req) (m : gmap string string) : gmap string string :=
  match r with
  | RGet _ => m
  | RPut a => <[pa_Key a := pa_Value a]> m
  | RAppend a => <[pa_Key a := default "" (m !! pa_Key a) +:+ pa_Value a]> m
  end.

(** The sequence number a server expects next from a client. *)
Definition next_seq (kv : KVServer) (c : Z) : Z :=
  match clientAck kv !! c with Some v => v + 1 | None => 0 end.

(** ** Behaviour of one request *)

Definition marks_ok (kv : KVServer) : Prop := forall c v, clientAck kv !! c = Some v -> 0 <= v.

Lemma check_write a reply kv :
  marks_ok kv ->
  CheckWriteOpNecessary a reply kv =
  (bool_decide (pa_AckSeq a = next_seq kv (pa_ClientId a)),
   if decide (0 <= pa_AckSeq a /\ pa_AckSeq a <> next_seq kv (pa_ClientId a))
   then mkPutAppendReply (par_Value reply) (pa_AckSeq a <? next_seq kv (pa_ClientId a))
   else reply).
Proof.
  intros Hm. unfold CheckWriteOpNecessary, next_seq.
  destruct (clientAck kv !! pa_ClientId a) as [v|] eqn:Hc; [specialize (Hm _ _ Hc)|];
    destruct (Z.ltb_spec (pa_AckSeq a) 0).
  - rewrite bool_decide_false, decide_False by lia. done.
  - destruct (Z.eqb_spec (v + 1) (pa_AckSeq a)).
    + rewrite bool_decide_true, decide_False by lia. done.
    + rewrite bool_decide_false, decide_True by lia.
      destruct (Z.leb_spec (pa_AckSeq a) v), (Z.ltb_spec (pa_AckSeq a) (v + 1)); done || lia.
  - rewrite bool_decide_false, decide_False by lia. done.
  - destruct (Z.eqb_spec (pa_AckSeq a) 0).
    + rewrite bool_decide_true, decide_False by lia. done.
    + rewrite bool_decide_false, decide_True by lia.
      destruct (Z.ltb_spec (pa_AckSeq a) 0); [lia|done].
Qed.

Lemma check_read a reply kv :
  marks_ok kv ->
  fst (CheckReadOpNecessary a reply kv)
  = bool_decide (0 <= ga_AckSeq a <= next_seq kv (ga_ClientId a)).
Proof.
  intros Hm. unfold CheckReadOpNecessary, next_seq. symmetry.
  destruct (clientAck kv !! ga_ClientId a) as [v|] eqn:Hc; [specialize (Hm _ _ Hc)|];
    destruct (Z.ltb_spec (ga_AckSeq a) 0); simpl; try (apply bool_decide_eq_false_2; lia).
  - destruct (Z.eqb_spec (v + 1) (ga_AckSeq a)); simpl; [apply bool_decide_eq_true_2; lia|].
    destruct (Z.leb_spec (ga_AckSeq a) v); simpl; [apply bool_decide_eq_true_2|apply bool_decide_eq_false_2]; lia.
  - destruct (Z.eqb_spec (ga_AckSeq a) 0); simpl; [apply bool_decide_eq_true_2|apply bool_decide_eq_false_2]; lia.
Qed.

Lemma bump_next c n kv :
  n <= next_seq kv c -> 0 <= n ->
  bump c n kv = if decide (n = next_seq kv c)
                then set_clientAck (<[c := n]> (clientAck kv)) kv else kv.
Proof.
  unfold bump, next_seq. intros Hn H0. destruct (clientAck kv !! c) as [v|].
  - destruct (Z.ltb_spec v n); [rewrite decide_True by lia|rewrite decide_False by lia]; done.
  - rewrite decide_True by lia. done.
Qed.

(** A request is executed when it is the next one of its client, and then the
    mark moves past it; every other request leaves the server alone. *)
Lemma serve_spec r kv :
  marks_ok kv ->
  serve r kv = if decide (req_seq r = next_seq kv (req_client r))
               then mkKVServer (effect r (store kv))
                      (<[req_client r := req_seq r]> (clientAck kv))
               else kv.
Proof.
  intros Hm. assert (Hn : forall c, 0 <= next_seq kv c).
  { intros c. unfold next_seq. destruct (clientAck kv !! c) eqn:E; [specialize (Hm _ _ E)|]; lia. }
  destruct r as [a|a|a]; simpl.
  - unfold Get. pose proof (check_read a (mkGetReply "" false) kv Hm) as Hc.
    destruct (CheckReadOpNecessary a _ kv) as [b r]. simpl in *. subst b.
    case_bool_decide; simpl; [|by rewrite decide_False by (specialize (Hn (ga_ClientId a)); lia)].
    rewrite bump_next by lia. done.
  - unfold Put. rewrite check_write by done. specialize (Hn (pa_ClientId a)).
    case_bool_decide as E; simpl; [|by rewrite decide_False].
    rewrite (decide_True _ _ E). rewrite bump_next by (unfold next_seq in *; simpl in *; lia).
    rewrite decide_True by done. done.
  - unfold Append. rewrite check_write by done. specialize (Hn (pa_ClientId a)).
    case_bool_decide as E; simpl; [|by rewrite decide_False].
    rewrite (decide_True _ _ E). destruct (store kv !! pa_Key a) eqn:Hs; simpl;
      rewrite bump_next by (unfold next_seq in *; simpl in *; lia);
      rewrite decide_True by done; done.
Qed.

(** ** Runs of the server *)

(** The requests of [rs] that are executed, starting with marks [ack]. *)
Fixpoint executed (ack : gmap Z Z) (rs : list Req) : list Req :=
  match rs with
  | [] => []
  | r :: rs' =>
      if decide (req_seq r = match ack !! req_client r with Some v => v + 1 | None => 0 end)
      then r :: executed (<[req_client r := req_seq r]> ack) rs'
      else executed ack rs'
  end.

Definition from_client (c : Z) (rs : list Req) : list Req := filter (fun r => req_client r = c) rs.

Lemma marks_ok_serve r kv : marks_ok kv -> marks_ok (serve r kv).
Proof.
  intros Hm. rewrite serve_spec by done. case_decide as E; [|done]. intros c v. simpl.
  destruct (decide (c = req_client r)) as [->|Hne].
  - rewrite lookup_insert_eq. intros [= <-]. rewrite E. unfold next_seq.
    destruct (clientAck kv !! req_client r) eqn:Ek; [specialize (Hm _ _ Ek)|]; lia.
  - rewrite lookup_insert_ne by done. apply Hm.
Qed.

Lemma serve_all_executed rs kv :
  marks_ok kv ->
  store (serve_all rs kv) = foldl (fun m r => effect r m) (store kv) (executed (clientAck kv) rs).
Proof.
  revert kv. induction rs as [|r rs IH]; intros kv Hm; [done|]. simpl.
  rewrite IH by (by apply marks_ok_serve). rewrite serve_spec by done. unfold next_seq.
  case_decide; done.
Qed.

(** The executed requests of a client are numbered consecutively. *)
Lemma executed_seqs rs ack c :
  exists k, req_seq <$> from_client c (executed ack rs)
    = (fun i => match ack !! c with Some v => v + 1 | None => 0 end + i) <$> range k.
Proof.
  revert ack. induction rs as [|r rs IH]; intros ack; [by exists 0%nat|]. simpl.
  case_decide as E; [|apply IH]. unfold from_client. rewrite filter_cons.
  destruct (IH (<[req_client r := req_seq r]> ack)) as [k Hk]. unfold from_client in Hk.
  case_decide as Ec; [|exists k; rewrite lookup_insert_ne in Hk; done].
  exists (S k). rewrite fmap_cons, Hk. subst c. rewrite lookup_insert_eq.
  unfold range. simpl. f_equal; [rewrite E; lia|].
  rewrite <- fmap_S_seq, <- !list_fmap_compose. apply list_fmap_ext. intros i x _. simpl. lia.
Qed.

(** ** Retries *)

Inductive Write := WPut | WAppend.

Definition handler (w : Write) :=
  match w with WPut => Put | WAppend => Append end.

Definition as_req (w : Write) (a : PutAppendArgs) : Req :=
  match w with WPut => RPut a | WAppend => RAppend a end.

(** An attempt that reached the server. *)
Definition reached (x : Net) : Prop := x <> Lost.
#[export] Instance reached_dec x : Decision (reached x).
Proof. unfold reached. apply _. Defined.

Lemma serve_handler w a kv : serve (as_req w a) kv = snd (handler w a (mkPutAppendReply "" false) kv).
Proof. by destruct w. Qed.

(** The first time: executed, the old value is returned. *)
Lemma write_first w a kv :
  marks_ok kv -> pa_AckSeq a = next_seq kv (pa_ClientId a) ->
  handler w a (mkPutAppendReply "" false) kv
  = (mkPutAppendReply (default "" (store kv !! pa_Key a)) true,
     mkKVServer (effect (as_req w a) (store kv)) (<[pa_ClientId a := pa_AckSeq a]> (clientAck kv))).
Proof.
  intros Hm E. pose proof (serve_spec (as_req w a) kv Hm) as Hs. rewrite serve_handler in Hs.
  rewrite decide_True in Hs by (by destruct w).
  apply injective_projections; simpl; [|by destruct w].
  destruct w; simpl; unfold Put, Append; rewrite check_write, bool_decide_true, decide_False by
    (done || lia); simpl; [done|]. by destruct (store kv !! pa_Key a).
Qed.

(** Later: acknowledged without a value, nothing is executed. *)
Lemma write_again w a kv :
  marks_ok kv -> 0 <= pa_AckSeq a < next_seq kv (pa_ClientId a) ->
  handler w a (mkPutAppendReply "" false) kv = (mkPutAppendReply "" true, kv).
Proof.
  intros Hm E. destruct w; simpl; unfold Put, Append;
    rewrite check_write, bool_decide_false, decide_True by (done || lia); simpl;
    destruct (Z.ltb_spec (pa_AckSeq a) (next_seq kv (pa_ClientId a))); done || lia.
Qed.

Lemma loop_again w a net reply kv :
  marks_ok kv -> 0 <= pa_AckSeq a < next_seq kv (pa_ClientId a) ->
  PutAppend_loop (handler w) a net reply kv
  = (if decide (Answered ∈ net) then Some "" else None, kv).
Proof.
  intros Hm E. revert reply. induction net as [|x net IH]; intros reply; [done|]. simpl.
  rewrite (write_again w a kv Hm E). destruct x; simpl; rewrite ?IH;
    repeat case_decide; done || (exfalso; rewrite elem_of_cons in *; tauto || naive_solver).
Qed.

Lemma next_after_write w a kv :
  pa_AckSeq a < next_seq (mkKVServer (effect (as_req w a) (store kv))
                  (<[pa_ClientId a := pa_AckSeq a]> (clientAck kv))) (pa_ClientId a).
Proof. unfold next_seq. simpl. rewrite lookup_insert_eq. lia. Qed.

(** ** Theorems *)

(** Exactly once, in order: however requests of several clients are
    repeated, delayed or interleaved, the store of a server that started empty
    is the result of the executed requests only, and the executed requests of
    each client are its requests number 0, 1, 2, ... once each and in order. *)
Theorem requests_exactly_once (rs : list Req) :
  store (serve_all rs StartKVServer)
    = foldl (fun m r => effect r m) ∅ (executed ∅ rs)
  /\ forall c, exists k, req_seq <$> from_client c (executed ∅ rs) = range k.
Proof.
  split; [by apply (serve_all_executed rs StartKVServer)|].
  intros c. destruct (executed_seqs rs ∅ c) as [k Hk]. exists k. rewrite Hk, lookup_empty.
  rewrite <- (list_fmap_id (range k)) at 2. apply list_fmap_ext. by intros i x _.
Qed.

(** Retrying a Put or an Append until it is answered applies it exactly
    once if any attempt reached the server and not at all otherwise, and the
    loop returns as soon as one attempt is answered. *)
Theorem retry_applies_once (w : Write) (a : PutAppendArgs) (net : list Net) (kv : KVServer) :
  marks_ok kv -> pa_AckSeq a = next_seq kv (pa_ClientId a) ->
  exists o kv', PutAppend_loop (handler w) a net (mkPutAppendReply "" false) kv = (o, kv')
    /\ (o <> None <-> Answered ∈ net)
    /\ kv' = if decide (Exists reached net)
             then mkKVServer (effect (as_req w a) (store kv))
                    (<[pa_ClientId a := pa_AckSeq a]> (clientAck kv))
             else kv.
Proof.
  intros Hm E. assert (H0 : 0 <= pa_AckSeq a).
  { rewrite E. unfold next_seq. destruct (clientAck kv !! _) eqn:Ek; [specialize (Hm _ _ Ek)|]; lia. }
  pose proof (marks_ok_serve (as_req w a) kv Hm) as Hm'. rewrite serve_handler in Hm'.
  generalize (mkPutAppendReply "" false) at 1.
  induction net as [|x net IH]; intros reply.
  { exists None, kv. split_and!; [done|split; [done|set_solver]|]. by rewrite decide_False by inversion 1. }
  rewrite (write_first w a kv Hm E) in *. destruct x; cbn [PutAppend_loop].
  - destruct (IH reply) as (o & kv' & -> & Ho & ->). exists o. eexists. split_and!; [done|set_solver|].
    assert (Hiff : Exists reached (Lost :: net) <-> Exists reached net) by (rewrite Exists_cons; naive_solver).
    repeat case_decide; tauto || done.
  - rewrite (write_first w a kv Hm E).
    rewrite (loop_again w a net reply _ Hm') by (split; [done|apply next_after_write]).
    do 2 eexists. split_and!; [done| |by rewrite decide_True by (by left)].
    clear IH. rewrite elem_of_cons. case_decide as Hd; split; intros Hx; [right; exact Hd|done|done|].
    destruct Hx; done.
  - rewrite (write_first w a kv Hm E).
    do 2 eexists. split_and!; [done| |by rewrite decide_True by (by left)].
    split; [|done]. intros _. left.
Qed.

(** A repeated Append is acknowledged without the value it appended to: if
    the answer to the first attempt is lost, the client of an Append to a
    non-empty value gets the empty string, although the append it performed
    found that value. *)
Theorem append_retry_loses_old_value (a : PutAppendArgs) (kv : KVServer) (old : string) :
  marks_ok kv -> pa_AckSeq a = next_seq kv (pa_ClientId a) ->
  store kv !! pa_Key a = Some old ->
  fst (PutAppend_loop Append a [Answered] (mkPutAppendReply "" false) kv) = Some old
  /\ fst (PutAppend_loop Append a [NoAnswer; Answered] (mkPutAppendReply "" false) kv) = Some "".
Proof.
  intros Hm E Hs. pose proof (marks_ok_serve (as_req WAppend a) kv Hm) as Hm'.
  rewrite serve_handler, (write_first WAppend a kv Hm E) in Hm'.
  assert (H0 : 0 <= pa_AckSeq a).
  { rewrite E. unfold next_seq. destruct (clientAck kv !! _) eqn:Ek; [specialize (Hm _ _ Ek)|]; lia. }
  change Append with (handler WAppend). cbn [PutAppend_loop].
  rewrite (write_first WAppend a kv Hm E). split; [simpl; by rewrite Hs|].
  pose proof (loop_again WAppend a [Answered] (mkPutAppendReply "" false) _ Hm'
    (conj H0 (next_after_write WAppend a kv))) as Hl.
  cbn [PutAppend_loop snd] in Hl |- *. rewrite Hl. by rewrite decide_True by left.
Qed.

(** ** Witnesses *)

Definition kv1 : KVServer := mkKVServer {["k" := "x"]} {[7 := 0]}.
Definition append1 : PutAppendArgs := mkPutAppendArgs "k" "y" 7 1.

Lemma kv1_marks : marks_ok kv1.
Proof.
  intros c v. simpl. destruct (decide (c = 7)) as [->|Hne].
  - rewrite lookup_singleton_eq. intros [= <-]. lia.
  - rewrite lookup_singleton_ne by done. done.
Qed.

Lemma retry_applies_once_witness :
  exists o kv', PutAppend_loop Append append1 [Lost; NoAnswer; Answered] (mkPutAppendReply "" false) kv1
    = (o, kv') /\ store kv' !! "k" = Some "xy".
Proof.
  destruct (retry_applies_once WAppend append1 [Lost; NoAnswer; Answered] kv1 kv1_marks eq_refl)
    as (o & kv' & H1 & _ & H2).
  exists o, kv'. split; [exact H1|]. rewrite H2. reflexivity.
Defined.

Lemma append_retry_loses_old_value_witness :
  fst (PutAppend_loop Append append1 [NoAnswer; Answered] (mkPutAppendReply "" false) kv1) = Some "".
Proof. exact (proj2 (append_retry_loses_old_value append1 kv1 "x" kv1_marks eq_refl eq_refl)). Defined.

End KvSrv.
