(* ===== verification/KvRaft.v ===== *)
(** The replicated key/value server of package kvraft (src/src/kvraft):
    server.go, common.go and the clerk of client.go.

    The Raft peer below the server is reached through the interface [RaftSvc];
    the peer of RaftNode.v is an instance.  Each definition is one critical
    section of [kv.mu], or one call made outside it.  The notify channels are
    objects with an identity ([chans]), because a handler keeps its channel
    after it has been removed from the map.  A nil map is [None]. *)
From Stdlib Require Import ZArith Lia.
From stdpp Require Import base list numbers strings gmap.
From S2P Require Import Prelude RaftTypes RaftNode.

#[local] Open Scope string_scope.
#[local] Open Scope Z_scope.

(** ** common.go *)

Definition Err : Type := string.
Definition OK : Err := "OK".
Definition NoKey : Err := "ErrNoKey".
Definition WrongLeader : Err := "ErrWrongLeader".
Definition TimeOut : Err := "TimeOut".
Definition Duplicate : Err := "Duplicate".

Inductive OperationOp := OpPut | OpAppend | OpGet.

#[export] Instance OperationOp_eq_dec : EqDecision OperationOp.
Proof. solve_decision. Defined.

Record ClientRequestArgs := mkClientRequestArgs
  { cr_Op : OperationOp; cr_Key : string; cr_Value : string; cr_ClientId : Z; cr_ReqSeq : Z }.

Record ClientRequestReply := mkClientRequestReply { crr_Err : Err; crr_Value : string }.

(** ** server.go: the log entries and the interface to Raft *)

Record Op := mkOp
  { op_Op : OperationOp; op_Key : string; op_Value : string; op_ClientId : Z; op_ReqSeq : Z }.

#[export] Instance Op_eq_dec : EqDecision Op.
Proof. solve_decision. Defined.

Class RaftSvc (R : Type) :=
  { svc_Start : Op -> M R (Z * Z * bool);
    svc_GetState : M R (Z * bool);
    svc_Snapshot : Z -> bytes -> M R unit;
    svc_GetRaftStateSize : M R Z;
    svc_Kill : M R unit }.

#[export] Instance raft_svc `{LabGob Op} : RaftSvc (Raft Op) :=
  { svc_Start := Start;
    svc_GetState := GetState;
    svc_Snapshot := Snapshot;
    svc_GetRaftStateSize := GetRaftStateSize;
    svc_Kill := Kill }.

Abbreviation StoreMap := (gmap string string).
Abbreviation SeqMap := (gmap Z Z).
Abbreviation RestMap := (gmap Z ClientRequestReply).

(** labgob on the three maps of a snapshot.  [dec_snap] gives one result per
    Decode call; a call that fails leaves its variable nil, and the calls after
    it are not made. *)
Class SnapGob :=
  { enc_snap : StoreMap -> SeqMap -> RestMap -> bytes;
    dec_snap : bytes -> option StoreMap * option SeqMap * option RestMap }.

Class SnapGobOk `{SnapGob} : Prop :=
  { dec_enc_snap : forall s m r, dec_snap (enc_snap s m r) = (Some s, Some m, Some r);
    enc_snap_nonempty : forall s m r, enc_snap s m r <> [] }.

Section Server.
Context {R : Type} `{RaftSvc R} `{SnapGob}.

Record KVServer := mkKVServer
  { kv_me : Z;
    kv_rf : R;
    kv_dead : Z;
    maxraftstate : Z;
    kv_lastApplied : Z;
    Store : option StoreMap;
    ClientMaxReq : option SeqMap;
    ClientLastReqRest : option RestMap;
    notifyChannel : gmap Z nat;
    chans : list (list (option ClientRequestReply)) }. (* buffers, by identity *)

Abbreviation KM := (M KVServer).

Definition set_rf (x : R) (kv : KVServer) : KVServer :=
  mkKVServer (kv_me kv) x (kv_dead kv) (maxraftstate kv) (kv_lastApplied kv) (Store kv)
    (ClientMaxReq kv) (ClientLastReqRest kv) (notifyChannel kv) (chans kv).
Definition set_kvdead (x : Z) (kv : KVServer) : KVServer :=
  mkKVServer (kv_me kv) (kv_rf kv) x (maxraftstate kv) (kv_lastApplied kv) (Store kv)
    (ClientMaxReq kv) (ClientLastReqRest kv) (notifyChannel kv) (chans kv).
Definition set_applied (x : Z) (kv : KVServer) : KVServer :=
  mkKVServer (kv_me kv) (kv_rf kv) (kv_dead kv) (maxraftstate kv) x (Store kv)
    (ClientMaxReq kv) (ClientLastReqRest kv) (notifyChannel kv) (chans kv).
Definition set_maps (s : option StoreMap) (m : option SeqMap) (r : option RestMap) (kv : KVServer)
    : KVServer :=
  mkKVServer (kv_me kv) (kv_rf kv) (kv_dead kv) (maxraftstate kv) (kv_lastApplied kv) s m r
    (notifyChannel kv) (chans kv).
Definition set_channels (n : gmap Z nat) (c : list (list (option ClientRequestReply)))
    (kv : KVServer) : KVServer :=
  mkKVServer (kv_me kv) (kv_rf kv) (kv_dead kv) (maxraftstate kv) (kv_lastApplied kv) (Store kv)
    (ClientMaxReq kv) (ClientLastReqRest kv) n c.

(** A call on kv.rf. *)
Definition on_rf {A : Type} (m : M R A) : KM A := fun kv =>
  match m (kv_rf kv) with (r', a) => (set_rf r' kv, a) end.

(** Maps: reading a nil map finds nothing, writing one panics. *)
Definition map_get {K V : Type} `{Countable K} (m : option (gmap K V)) (k : K) : option V :=
  m' ← m; m' !! k.
Definition map_put {K V : Type} `{Countable K} (m : option (gmap K V)) (k : K) (v : V)
    : res (option (gmap K V)) :=
  match m with Some m' => Ret (Some (<[k := v]> m')) | None => Panic end.

(** ** The state machine *)

Definition StateMachineGet (key : string) : KM (string * Err) :=
  s ← gets Store;
  match map_get s key with
  | Some value => mret (value, OK)
  | None => mret ("", NoKey)
  end.

Definition StateMachinePut (key value : string) : KM Err :=
  kv ← gets id;
  s' ← lift (map_put (Store kv) key value);
  modify (set_maps s' (ClientMaxReq kv) (ClientLastReqRest kv));;
  mret OK.

Definition StateMachineAppend (key value : string) : KM Err :=
  kv ← gets id;
  s' ← lift (map_put (Store kv) key (default "" (map_get (Store kv) key) +:+ value));
  modify (set_maps s' (ClientMaxReq kv) (ClientLastReqRest kv));;
  mret OK.

Definition ApplyToStateMachine (opLog : Op) : KM ClientRequestReply :=
  match op_Op opLog with
  | OpGet =>
      ve ← StateMachineGet (op_Key opLog);
      mret (mkClientRequestReply (snd ve) (fst ve))
  | OpPut =>
      err ← StateMachinePut (op_Key opLog) (op_Value opLog);
      mret (mkClientRequestReply err "")
  | OpAppend =>
      err ← StateMachineAppend (op_Key opLog) (op_Value opLog);
      mret (mkClientRequestReply err "")
  end.

(** ** Notify channels *)

(** The identity of the channel of [index], made if there is none. *)
Definition GetNotifyChannel (index : Z) : KM nat :=
  kv ← gets id;
  match notifyChannel kv !! index with
  | Some ch => mret ch
  | None =>
      let ch := length (chans kv) in
      modify (set_channels (<[index := ch]> (notifyChannel kv)) (chans kv ++ [[]]));;
      mret ch
  end.

Definition RemoveNotifyChannel (index : Z) : KM unit :=
  modify (fun kv => set_channels (delete index (notifyChannel kv)) (chans kv) kv).

(** [notifyCh <- reply] on a channel of capacity 1; false: the send blocks. *)
Definition chan_send (ch : nat) (reply : option ClientRequestReply) : KM bool :=
  kv ← gets id;
  match chans kv !! ch with
  | Some [] => modify (set_channels (notifyChannel kv) (<[ch := [reply]]> (chans kv)));; mret true
  | _ => mret false
  end.

(** [<-notifyCh], when there is something to receive. *)
Definition chan_recv (ch : nat) : KM (option (option ClientRequestReply)) :=
  kv ← gets id;
  match chans kv !! ch with
  | Some (r :: rest) =>
      modify (set_channels (notifyChannel kv) (<[ch := rest]> (chans kv)));; mret (Some r)
  | _ => mret None
  end.

(** ** HandlerClientRequest *)

(** Lines 71-78: a repeated write is answered at once. *)
Definition handler_begin (args : ClientRequestArgs) : KM (option ClientRequestReply) :=
  m ← gets ClientMaxReq;
  match map_get m (cr_ClientId args) with
  | Some maxReq =>
      if (cr_ReqSeq args <=? maxReq) && negb (bool_decide (cr_Op args = OpGet))
      then mret (Some (mkClientRequestReply Duplicate ""))
      else mret None
  | None => mret None
  end.

Definition op_of (args : ClientRequestArgs) : Op :=
  mkOp (cr_Op args) (cr_Key args) (cr_Value args) (cr_ClientId args) (cr_ReqSeq args).

(** Lines 88-92: [inl]: the answer, [inr]: the index to wait for. *)
Definition handler_start (args : ClientRequestArgs) : KM (ClientRequestReply + Z) :=
  r ← on_rf (svc_Start (op_of args));
  let '(index, _, ok) := r in
  if negb ok then mret (inl (mkClientRequestReply WrongLeader "")) else mret (inr index).

(** Lines 103-107: the result has arrived; a nil pointer panics. *)
Definition handler_receive (ch : nat) : KM (option ClientRequestReply) :=
  o ← chan_recv ch;
  match o with
  | None => mret None
  | Some (Some result) => mret (Some (mkClientRequestReply (crr_Err result) (crr_Value result)))
  | Some None => lift Panic
  end.

(** Lines 109-112 *)
Definition handler_timeout : ClientRequestReply := mkClientRequestReply TimeOut "".

(** ** Snapshots *)

Definition ShouldSnapShot : KM bool :=
  max ← gets maxraftstate;
  if negb (max =? -1) then size ← on_rf svc_GetRaftStateSize; mret (max <? size)
  else mret false.

Definition TakeSnapShot (index : Z) : KM unit :=
  kv ← gets id;
  on_rf (svc_Snapshot index (enc_snap (default ∅ (Store kv)) (default ∅ (ClientMaxReq kv))
                               (default ∅ (ClientLastReqRest kv)))).

Definition RestoreSnapShot (snapShot : bytes) : KM unit :=
  if Z.of_nat (length snapShot) =? 0 then mret tt
  else
    let '(store, clientMaxReq, clientLastReqRest) := dec_snap snapShot in
    modify (set_maps store clientMaxReq clientLastReqRest).

(** ** ApplyTicket *)

(** Lines 190-197: apply the command unless its client is past it, and remember
    the answer. *)
Definition apply_once (opLog : Op) : KM (option ClientRequestReply) :=
  kv ← gets id;
  if match map_get (ClientMaxReq kv) (op_ClientId opLog) with
     | Some maxReq => op_ReqSeq opLog <=? maxReq
     | None => false
     end
  then mret (map_get (ClientLastReqRest kv) (op_ClientId opLog))
  else
    reply ← ApplyToStateMachine opLog;
    kv ← gets id;
    r' ← lift (map_put (ClientLastReqRest kv) (op_ClientId opLog) reply);
    m' ← lift (map_put (ClientMaxReq kv) (op_ClientId opLog) (op_ReqSeq opLog));
    modify (set_maps (Store kv) m' r');;
    mret (Some reply).

(** Lines 199-202: on a leader, hand the answer to the handler; false when the
    send blocks (with kv.mu held). *)
Definition notify (index : Z) (reply : option ClientRequestReply) : KM bool :=
  st ← on_rf svc_GetState;
  if snd st : bool then ch ← GetNotifyChannel index; chan_send ch reply else mret true.

(** Lines 204-206 *)
Definition snapshot_if_needed (index : Z) : KM unit :=
  should ← ShouldSnapShot;
  when should (TakeSnapShot index).

(** Lines 174-208: one command.  The result is false when the goroutine blocks. *)
Definition ApplyTicket_command (index : Z) (command : option Op) : KM bool :=
  applied ← gets kv_lastApplied;
  if index <=? applied then mret true
  else
    modify (set_applied index);;
    opLog ← lift (match command with Some o => Ret o | None => Panic end);
    reply ← apply_once opLog;
    sent ← notify index reply;
    if negb sent then mret false
    else snapshot_if_needed index;; mret true.

Definition ApplyTicket_msg (msg : ApplyMsg Op) : KM bool :=
  if am_CommandValid msg then ApplyTicket_command (am_CommandIndex msg) (am_Command msg)
  else if am_SnapshotValid msg then RestoreSnapShot (am_Snapshot msg);; mret true
  else mret true.

(** ** Life cycle *)

Definition KV_Kill : KM unit := modify (set_kvdead 1);; on_rf svc_Kill.

Definition KV_killed : KM bool := z ← gets kv_dead; mret (z =? 1).

(** [rf] is what raft.Make returned, [ps] the persister it was given. *)
Definition StartKVServer (me maxraftstate : Z) (rf : R) (ps : Persister) : KVServer :=
  fst (RestoreSnapShot (ReadSnapshot ps)
         (mkKVServer me rf 0 maxraftstate (-1) (Some ∅) (Some ∅) (Some ∅) ∅ [])).

End Server.
Arguments KVServer R : clear implicits.

(** ** client.go *)

Record Clerk := mkClerk
  { ck_servers : nat; ck_clientId : Z; ck_reqSeq : Z; ck_leaderId : Z }.

Definition MakeClerk (servers : nat) (id : Z) : Clerk := mkClerk servers id 0 0.

Definition clerk_args (key value : string) (op : OperationOp) (ck : Clerk) : ClientRequestArgs :=
  mkClientRequestArgs op key value (ck_clientId ck) (ck_reqSeq ck).

(** What one Call gives: [None] for [ok = false]. *)
Definition try_next (reply : option ClientRequestReply) : bool :=
  match reply with
  | None => true
  | Some r => bool_decide (crr_Err r = WrongLeader) || bool_decide (crr_Err r = TimeOut)
  end.

(** The loop of SendClientRequest; the answers of the calls are given.  The
    result has the servers called, in order, and the value when the loop ends. *)
Fixpoint SendClientRequest (answers : list (option ClientRequestReply)) (ck : Clerk)
    : Clerk * list Z * option string :=
  match answers with
  | [] => (ck, [], None)
  | a :: answers' =>
      if try_next a then
        let ck' := mkClerk (ck_servers ck) (ck_clientId ck) (ck_reqSeq ck)
                     (Z.rem (ck_leaderId ck + 1) (Z.of_nat (ck_servers ck))) in
        let '(ck'', called, v) := SendClientRequest answers' ck' in
        (ck'', ck_leaderId ck :: called, v)
      else
        (mkClerk (ck_servers ck) (ck_clientId ck) (ck_reqSeq ck + 1) (ck_leaderId ck),
         [ck_leaderId ck], crr_Value <$> a)
  end.
