(* ===== verification/KvSession.v ===== *)
(** What the replicated key/value server promises: the abstract session machine
    it implements, that the server refines it message by message, and that the
    channels it notifies never block it. *)
From Stdlib Require Import ZArith Lia.
From stdpp Require Import base list numbers strings gmap.
From S2P Require Import Prelude RaftTypes RaftNode RaftVote RaftWf RaftSafe RaftLeader RaftSpec KvRaft.

#[local] Open Scope string_scope.
#[local] Open Scope Z_scope.

(** ** The abstract machine *)

(** A store, and for each client its last request and the answer to it. *)
Record Session := mkSession { ses_store : StoreMap; ses_max : SeqMap; ses_rest : RestMap }.

Definition session0 : Session := mkSession ∅ ∅ ∅.

Definition sm_store (o : Op) (m : StoreMap) : StoreMap :=
  match op_Op o with
  | OpGet => m
  | OpPut => <[op_Key o := op_Value o]> m
  | OpAppend => <[op_Key o := default "" (m !! op_Key o) +:+ op_Value o]> m
  end.

Definition sm_reply (o : Op) (m : StoreMap) : ClientRequestReply :=
  match op_Op o with
  | OpGet => match m !! op_Key o with
             | Some v => mkClientRequestReply OK v
             | None => mkClientRequestReply NoKey ""
             end
  | _ => mkClientRequestReply OK ""
  end.

(** A request the client has already moved past. *)
Definition seen (o : Op) (mx : SeqMap) : bool :=
  match mx !! op_ClientId o with Some v => op_ReqSeq o <=? v | None => false end.

Definition session_step (s : Session) (o : Op) : Session :=
  if seen o (ses_max s) then s
  else mkSession (sm_store o (ses_store s)) (<[op_ClientId o := op_ReqSeq o]> (ses_max s))
         (<[op_ClientId o := sm_reply o (ses_store s)]> (ses_rest s)).

Definition session_reply (s : Session) (o : Op) : option ClientRequestReply :=
  ses_rest (session_step s o) !! op_ClientId o.

Definition replay (s : Session) (os : list Op) : Session := foldl session_step s os.

(** ** What the server needs from Raft *)

Class RaftSvcOk (R : Type) `{RaftSvc R} (inv : R -> Prop) : Prop :=
  { ok_GetState : forall r, inv r -> exists x, svc_GetState r = (r, Ret x);
    ok_Size : forall r, inv r -> exists x, svc_GetRaftStateSize r = (r, Ret x);
    ok_Snapshot : forall r i b, inv r -> exists r', svc_Snapshot i b r = (r', Ret tt) /\ inv r' }.

(** The peer of RaftNode provides it. *)
#[export] Instance raft_svc_ok `{LabGob Op} : RaftSvcOk (Raft Op) wf.
Proof.
  split.
  - intros r _. by eexists.
  - intros r _. by eexists.
  - intros r i b Hwf. destruct (wp_run _ _ _ (wf_Snapshot i b r Hwf)) as (r' & [] & Hr & ?).
    by exists r'.
Qed.

Section Server.
Context {R : Type} `{RaftSvc R} (inv : R -> Prop) `{!RaftSvcOk R inv} `{SnapGob}.
Implicit Types kv : KVServer R.

(** ** Refinement *)

Definition kv_is kv (s : Session) : Prop :=
  Store kv = Some (ses_store s) /\ ClientMaxReq kv = Some (ses_max s)
  /\ ClientLastReqRest kv = Some (ses_rest s).

(** Channels: distinct indices have distinct channels, and those of indices not
    yet applied are empty. *)
Record chans_ok kv : Prop :=
  { co_bound : forall i ch, notifyChannel kv !! i = Some ch -> (ch < length (chans kv))%nat;
    co_inj : forall i j ch, notifyChannel kv !! i = Some ch -> notifyChannel kv !! j = Some ch -> i = j;
    co_empty : forall i ch, kv_lastApplied kv < i -> notifyChannel kv !! i = Some ch ->
                 chans kv !! ch = Some [] }.

Lemma wp_ApplyToStateMachine (o : Op) kv s :
  kv_is kv s ->
  ApplyToStateMachine o kv
  = (set_maps (Some (sm_store o (ses_store s))) (Some (ses_max s)) (Some (ses_rest s)) kv,
     Ret (sm_reply o (ses_store s))).
Proof.
  intros (H1 & H2 & H3). unfold ApplyToStateMachine, sm_store, sm_reply.
  assert (Hid : kv = set_maps (Some (ses_store s)) (Some (ses_max s)) (Some (ses_rest s)) kv).
  { destruct kv. simpl in *. by rewrite H1, H2, H3. }
  destruct (op_Op o); unfold StateMachinePut, StateMachineAppend, StateMachineGet, map_put, map_get;
    m_exec; rewrite H1; m_exec; rewrite ?H2, ?H3; [done|done|].
  destruct (ses_store s !! op_Key o); m_exec; rewrite <- Hid; done.
Qed.

(** Computing the reply and updating the session. *)
Lemma run_apply_once (o : Op) kv s :
  kv_is kv s ->
  exists a b c, apply_once o kv = (set_maps a b c kv, Ret (session_reply s o))
    /\ kv_is (set_maps a b c kv) (session_step s o).
Proof.
  intros Hkv. pose proof Hkv as (H1 & H2 & H3). unfold apply_once, session_reply, session_step, seen, map_get.
  m_exec. unfold id. rewrite H2, H3. simpl.
  destruct (match _ with Some _ => _ | None => false end) eqn:E.
  - exists (Store kv), (ClientMaxReq kv), (ClientLastReqRest kv). split; [by destruct kv|done].
  - rewrite (wp_ApplyToStateMachine o kv s Hkv). m_exec.
    do 3 eexists. split; [by rewrite lookup_insert_eq|]. done.
Qed.

(** Notifying the handler that waits for [index]. *)
Lemma notify_stage index reply kv :
  (forall i ch, notifyChannel kv !! i = Some ch -> (ch < length (chans kv))%nat) ->
  (forall i j ch, notifyChannel kv !! i = Some ch -> notifyChannel kv !! j = Some ch -> i = j) ->
  (forall i ch, index <= i -> notifyChannel kv !! i = Some ch -> chans kv !! ch = Some []) ->
  kv_lastApplied kv = index ->
  exists n c, (ch ← GetNotifyChannel index; chan_send ch reply) kv = (set_channels n c kv, Ret true)
    /\ chans_ok (set_channels n c kv)
    /\ exists ch, n !! index = Some ch /\ c !! ch = Some [reply].
Proof.
  intros Hb Hi He Ha. unfold GetNotifyChannel, chan_send. m_exec.
  destruct (notifyChannel kv !! index) as [ch|] eqn:Hn; m_exec.
  - rewrite (He index ch) by (done || lia). m_exec. do 2 eexists. split; [done|].
    pose proof (Hb _ _ Hn). split.
    + split; simpl; [intros; rewrite length_insert; eauto|done|].
      intros i c Hlt Hc. rewrite list_lookup_insert_ne; [apply (He i); [lia|done]|].
      intros ->. assert (i = index) by eauto. lia.
    + exists ch. split; [done|]. by apply list_lookup_insert_eq.
  - rewrite list_lookup_middle by done. m_exec. do 2 eexists. split; [done|].
    rewrite insert_app_r_alt by done. replace (length (chans kv) - length (chans kv))%nat with 0%nat by lia.
    simpl. split.
    + split; simpl.
      * intros i c. rewrite length_app. simpl. intros [[-> <-]|[? ?%Hb]]%lookup_insert_Some; lia.
      * intros i j c [[-> <-]|[? Hi1]]%lookup_insert_Some [[<- ?]|[? Hj]]%lookup_insert_Some; eauto.
        -- apply Hb in Hj. lia.
        -- apply Hb in Hi1. lia.
      * intros i c Hlt [[-> _]|[? Hc]]%lookup_insert_Some; [lia|].
        rewrite lookup_app_l by (by eapply Hb). apply (He i); [lia|done].
    + exists (length (chans kv)). rewrite lookup_insert_eq. split; [done|]. by rewrite list_lookup_middle.
Qed.

(** The bytes of a snapshot of a session. *)
Definition session_bytes (s : Session) : bytes := enc_snap (ses_store s) (ses_max s) (ses_rest s).

(** What a server that holds [s] may do to its peer at [index]: nothing, or trim its log. *)
Definition trims (s : Session) (index : Z) (r r' : R) : Prop :=
  r' = r \/ svc_Snapshot index (session_bytes s) r = (r', Ret tt).

(** Trimming the log. *)
Lemma run_snapshot index kv s :
  kv_is kv s -> inv (kv_rf kv) ->
  exists r', snapshot_if_needed index kv = (set_rf r' kv, Ret tt) /\ inv r' /\ trims s index (kv_rf kv) r'.
Proof.
  intros (E1 & E2 & E3) Hr. assert (Hid : kv = set_rf (kv_rf kv) kv) by (by destruct kv).
  unfold snapshot_if_needed, ShouldSnapShot, TakeSnapShot, on_rf. m_exec.
  destruct (negb (maxraftstate kv =? -1)); m_exec; [|exists (kv_rf kv); rewrite <- Hid; by split_and!; [| |left]].
  destruct (ok_Size (kv_rf kv) Hr) as [x Hx]. rewrite Hx. m_exec. destruct (maxraftstate kv <? x); m_exec.
  - rewrite E1, E2, E3. simpl.
    destruct (ok_Snapshot (kv_rf kv) index (session_bytes s) Hr) as (r' & Hrun & ?). unfold session_bytes in Hrun.
    rewrite Hrun. exists r'. by split_and!; [| |right].
  - exists (kv_rf kv). by split_and!; [| |left].
Qed.

Lemma chans_ok_frame kv kv' :
  chans_ok kv -> notifyChannel kv' = notifyChannel kv -> chans kv' = chans kv ->
  kv_lastApplied kv <= kv_lastApplied kv' -> chans_ok kv'.
Proof.
  intros [Hb Hi He] Hn Hc Ha. split; rewrite ?Hn, ?Hc; eauto. intros i ch Hlt. apply He. lia.
Qed.

(** What a committed command leaves behind: the session has stepped, and on a
    leader the channel of its index holds the answer. *)
Definition applied_to kv kv' (s : Session) (index : Z) (o : Op) : Prop :=
  kv_is kv' (session_step s o) /\ kv_lastApplied kv' = index /\ chans_ok kv' /\ inv (kv_rf kv')
  /\ forall x, svc_GetState (kv_rf kv) = (kv_rf kv, Ret x) -> snd x = true ->
       exists ch, notifyChannel kv' !! index = Some ch
         /\ chans kv' !! ch = Some [session_reply s o].

Lemma run_notify index reply kv :
  inv (kv_rf kv) -> kv_lastApplied kv = index ->
  (forall i ch, notifyChannel kv !! i = Some ch -> (ch < length (chans kv))%nat) ->
  (forall i j ch, notifyChannel kv !! i = Some ch -> notifyChannel kv !! j = Some ch -> i = j) ->
  (forall i ch, index <= i -> notifyChannel kv !! i = Some ch -> chans kv !! ch = Some []) ->
  exists n c, notify index reply kv = (set_channels n c kv, Ret true)
    /\ chans_ok (set_channels n c kv)
    /\ forall x, svc_GetState (kv_rf kv) = (kv_rf kv, Ret x) -> snd x = true ->
         exists ch, n !! index = Some ch /\ c !! ch = Some [reply].
Proof.
  intros Hr Ha Hb Hi He. unfold notify.
  destruct (ok_GetState (kv_rf kv) Hr) as [x Hx].
  assert (Hst : on_rf svc_GetState kv = (kv, Ret x)).
  { unfold on_rf. rewrite Hx. by destruct kv. }
  rewrite (bind_run _ _ _ _ _ Hst). destruct (snd x) eqn:E.
  - destruct (notify_stage index reply kv) as (n & c & ? & ? & ?); try done. eauto 10.
  - exists (notifyChannel kv), (chans kv). split; [by destruct kv|]. split; [|intros y ? ?; congruence].
    split; simpl; [done|done|]. intros i ch Hlt. apply He. lia.
Qed.

(** A command above lastApplied is applied, and the peer is trimmed at most by a snapshot
    of the session after it. *)
Lemma run_command kv s index (o : Op) :
  kv_is kv s -> chans_ok kv -> inv (kv_rf kv) -> kv_lastApplied kv < index ->
  exists kv', ApplyTicket_command index (Some o) kv = (kv', Ret true) /\ applied_to kv kv' s index o
    /\ trims (session_step s o) index (kv_rf kv) (kv_rf kv').
Proof.
  intros Hkv [Hb Hi He] Hr Hlt. unfold ApplyTicket_command.
  rewrite (bind_run _ _ kv kv (kv_lastApplied kv)) by done.
  destruct (Z.leb_spec index (kv_lastApplied kv)); [lia|].
  set (kv1 := set_applied index kv).
  rewrite (bind_run _ _ kv kv1 tt) by done. rewrite (bind_run _ _ kv1 kv1 o) by done.
  destruct (run_apply_once o kv1 s Hkv) as (a & b & c & Hrun & Hkv2).
  rewrite (bind_run _ _ _ _ _ Hrun). set (kv2 := set_maps a b c kv1) in *.
  destruct (run_notify index (session_reply s o) kv2) as (n & ch & Hn & Hok & Hput); try done.
  { intros i d Hle. apply (He i d). lia. }
  rewrite (bind_run _ _ _ _ _ Hn). simpl.
  destruct (run_snapshot index (set_channels n ch kv2) (session_step s o)) as (r' & Hs & Hr' & Htr); [exact Hkv2|exact Hr|].
  rewrite (bind_run _ _ _ _ _ Hs). eexists. split; [done|]. split; [|exact Htr].
  split; [exact Hkv2|]. split; [done|]. split; [by apply (chans_ok_frame (set_channels n ch kv2))|].
  split; [exact Hr'|exact Hput].
Qed.

Lemma run_ApplyTicket_command kv s index (o : Op) :
  kv_is kv s -> chans_ok kv -> inv (kv_rf kv) -> kv_lastApplied kv < index ->
  exists kv', ApplyTicket_command index (Some o) kv = (kv', Ret true) /\ applied_to kv kv' s index o.
Proof.
  intros Hkv Hc Hr Hlt. destruct (run_command kv s index o Hkv Hc Hr Hlt) as (kv' & Hrun & Ha & _). by exists kv'.
Qed.

(** ** Snapshots *)

Lemma run_Restore kv s :
  SnapGobOk ->
  RestoreSnapShot (enc_snap (ses_store s) (ses_max s) (ses_rest s)) kv
  = (set_maps (Some (ses_store s)) (Some (ses_max s)) (Some (ses_rest s)) kv, Ret tt).
Proof.
  intros Hok. unfold RestoreSnapShot. pose proof (enc_snap_nonempty (ses_store s) (ses_max s) (ses_rest s)) as Hne.
  destruct (Z.eqb_spec (Z.of_nat (length (enc_snap (ses_store s) (ses_max s) (ses_rest s)))) 0) as [E|E].
  - destruct (enc_snap (ses_store s) (ses_max s) (ses_rest s)); simpl in *; [done|lia].
  - by rewrite dec_enc_snap.
Qed.

End Server.
