(* ===== verification/KvProps.v ===== *)
(** The theorems about the replicated key/value server. *)
From Stdlib Require Import ZArith Lia Sorted.
From stdpp Require Import base list numbers strings gmap.
From S2P Require Import Prelude RaftTypes RaftNode RaftVote RaftWf RaftSafe RaftLeader RaftSpec RaftApply KvRaft KvSession.

#[local] Open Scope string_scope.
#[local] Open Scope Z_scope.

(** ** The session machine *)

(** The commands of a log that take effect, starting with marks [mx]. *)
Fixpoint effective (mx : SeqMap) (os : list Op) : list Op :=
  match os with
  | [] => []
  | o :: os' =>
      if seen o mx then effective mx os'
      else o :: effective (<[op_ClientId o := op_ReqSeq o]> mx) os'
  end.

Definition of_client (c : Z) (os : list Op) : list Op := filter (fun o => op_ClientId o = c) os.

Lemma replay_store os s :
  ses_store (replay s os) = foldl (fun m o => sm_store o m) (ses_store s) (effective (ses_max s) os).
Proof.
  revert s. induction os as [|o os IH]; intros s; [done|]. simpl. rewrite IH. unfold session_step.
  by destruct (seen o (ses_max s)).
Qed.

Lemma effective_above mx os c :
  Forall (fun o => match mx !! c with Some v => v < op_ReqSeq o | None => True end)
    (of_client c (effective mx os)).
Proof.
  revert mx. induction os as [|o os IH]; intros mx; simpl; [constructor|].
  destruct (seen o mx) eqn:E; [apply IH|]. unfold of_client in *. rewrite filter_cons.
  specialize (IH (<[op_ClientId o := op_ReqSeq o]> mx)).
  case_decide as Hc; [|by rewrite lookup_insert_ne in IH].
  subst c. rewrite lookup_insert_eq in IH. unfold seen in E.
  destruct (mx !! op_ClientId o) as [v|]; [|by apply Forall_true].
  zify_bool. constructor; [done|]. eapply Forall_impl; [exact IH|]. simpl. lia.
Qed.

Lemma effective_sorted mx os c : StronglySorted Z.lt (op_ReqSeq <$> of_client c (effective mx os)).
Proof.
  revert mx. induction os as [|o os IH]; intros mx; simpl; [constructor|].
  destruct (seen o mx) eqn:E; [apply IH|]. unfold of_client in *. rewrite filter_cons.
  case_decide as Hc; [|apply IH]. constructor; [apply IH|]. subst c.
  pose proof (effective_above (<[op_ClientId o := op_ReqSeq o]> mx) os (op_ClientId o)) as Ha.
  rewrite lookup_insert_eq in Ha. apply Forall_fmap. exact Ha.
Qed.

Lemma replay_same_client os s (o : Op) :
  ses_max s !! op_ClientId o = Some (op_ReqSeq o) ->
  Forall (fun o' => op_ClientId o' = op_ClientId o -> op_ReqSeq o' <= op_ReqSeq o) os ->
  ses_max (replay s os) !! op_ClientId o = Some (op_ReqSeq o)
  /\ ses_rest (replay s os) !! op_ClientId o = ses_rest s !! op_ClientId o.
Proof.
  revert s. induction os as [|o' os IH]; intros s Hm Hf; [done|]. apply Forall_cons in Hf as [Ho Hf].
  simpl. unfold session_step. destruct (seen o' (ses_max s)) eqn:E; [by apply IH|].
  assert (Hne : op_ClientId o' <> op_ClientId o).
  { intros Heq. unfold seen in E. rewrite Heq, Hm in E. specialize (Ho Heq). zify_bool. lia. }
  destruct (IH (mkSession (sm_store o' (ses_store s)) (<[op_ClientId o' := op_ReqSeq o']> (ses_max s))
    (<[op_ClientId o' := sm_reply o' (ses_store s)]> (ses_rest s)))) as [IH1 IH2]; [|done|].
  - simpl. by rewrite lookup_insert_ne.
  - split; [exact IH1|]. rewrite IH2. simpl. by rewrite lookup_insert_ne.
Qed.

(** A command that was applied and that its client has not moved past: applying it
    again changes nothing and answers what the first application answered. *)
Lemma session_retry (s : Session) (o : Op) (os : list Op) :
  seen o (ses_max s) = false ->
  Forall (fun o' => op_ClientId o' = op_ClientId o -> op_ReqSeq o' <= op_ReqSeq o) os ->
  let s' := replay (session_step s o) os in
  session_step s' o = s' /\ session_reply s' o = Some (sm_reply o (ses_store s)).
Proof.
  intros Hs Hf s'. destruct (replay_same_client os (session_step s o) o) as [H1 H2]; [|done|].
  { unfold session_step. rewrite Hs. simpl. by rewrite lookup_insert_eq. }
  assert (Hstep : session_step s' o = s').
  { unfold session_step at 1, seen. unfold s' at 1. rewrite H1. by rewrite Z.leb_refl. }
  split; [done|]. unfold session_reply. rewrite Hstep. unfold s'. rewrite H2.
  unfold session_step. rewrite Hs. simpl. by rewrite lookup_insert_eq.
Qed.

(** ** The server *)

Section Server.
Context {R : Type} `{RaftSvc R} (inv : R -> Prop) `{!RaftSvcOk R inv} `{SnapGob} `{!SnapGobOk}.
Implicit Types kv : KVServer R.

(** Refinement: a server whose maps are an abstract session and that gets
    a committed command above its lastApplied performs exactly one step of the
    session machine, records the index, leaves the answer in the channel of
    that index when it leads, and does not block. *)
Theorem apply_refines_session kv s index (o : Op) :
  kv_is kv s -> chans_ok kv -> inv (kv_rf kv) -> kv_lastApplied kv < index ->
  exists kv', ApplyTicket_command index (Some o) kv = (kv', Ret true) /\ applied_to inv kv kv' s index o.
Proof. apply run_ApplyTicket_command; apply _. Qed.

(** A retry gets the first answer: a server that has applied a command [o] and
    then commands among which its client has not moved on, and that gets [o] once more
    at a later index, changes nothing in its maps and, when it leads, leaves in the
    channel of that index the answer of the first application. *)
Theorem retry_same_answer kv (s : Session) (o : Op) (os : list Op) index :
  seen o (ses_max s) = false ->
  Forall (fun o' => op_ClientId o' = op_ClientId o -> op_ReqSeq o' <= op_ReqSeq o) os ->
  kv_is kv (replay (session_step s o) os) -> chans_ok kv -> inv (kv_rf kv) -> kv_lastApplied kv < index ->
  exists kv', ApplyTicket_command index (Some o) kv = (kv', Ret true)
    /\ (Store kv', ClientMaxReq kv', ClientLastReqRest kv')
       = (Store kv, ClientMaxReq kv, ClientLastReqRest kv)
    /\ forall x, svc_GetState (kv_rf kv) = (kv_rf kv, Ret x) -> snd x = true ->
         exists ch, notifyChannel kv' !! index = Some ch
           /\ chans kv' !! ch = Some [Some (sm_reply o (ses_store s))].
Proof.
  intros Hs Hf Hkv Hch Hr Hlt. destruct (session_retry s o os Hs Hf) as [Hstep Hans].
  destruct (run_ApplyTicket_command inv kv _ index o Hkv Hch Hr Hlt) as (kv' & Hrun & Hkv' & _ & _ & _ & Hput).
  exists kv'. split; [done|]. rewrite Hstep in Hkv'. rewrite Hans in Hput. split; [|done].
  destruct Hkv as (-> & -> & ->), Hkv' as (-> & -> & ->). done.
Qed.

(** ** A whole stream of messages *)

(** Feeding messages one after the other; stops when the server blocks. *)
Fixpoint feed (ms : list (ApplyMsg Op)) : M (KVServer R) bool :=
  match ms with
  | [] => mret true
  | m :: ms' => ok ← ApplyTicket_msg m; if ok : bool then feed ms' else mret false
  end.

(** The session after the first [i] commands of the log [L]. *)
Definition upto (L : Z -> Op) (i : Z) : Session :=
  replay session0 ((fun k => L (k + 1)) <$> range (Z.to_nat i)).

(** Messages that tell the truth about [L]: the command of an index is the one
    of the log, a snapshot is the state after its index, and it is not older
    than what was delivered before it. *)
Fixpoint truthful (L : Z -> Op) (pos : Z) (ms : list (ApplyMsg Op)) : Prop :=
  match ms with
  | [] => True
  | m :: ms' =>
      (if am_CommandValid m then am_Command m = Some (L (am_CommandIndex m))
       else am_SnapshotValid m = true /\ pos <= am_SnapshotIndex m
            /\ am_Snapshot m = (let s := upto L (am_SnapshotIndex m) in
                                enc_snap (ses_store s) (ses_max s) (ses_rest s)))
      /\ truthful L (delivered pos m) ms'
  end.

Lemma upto_next L pos : 0 <= pos -> upto L (pos + 1) = session_step (upto L pos) (L (pos + 1)).
Proof.
  intros Hp. unfold upto, replay, range. replace (Z.to_nat (pos + 1)) with (S (Z.to_nat pos)) by lia.
  rewrite seq_S, !fmap_app, foldl_app. simpl. by rewrite Z2Nat.id by lia.
Qed.

(** In-order, truthful messages never block the server or make it panic, and leave it
    with the session of exactly the log prefix that was delivered. *)
Lemma run_feed (L : Z -> Op) (ms : list (ApplyMsg Op)) kv (pos : Z) :
  kv_is kv (upto L pos) -> chans_ok kv -> inv (kv_rf kv) ->
  0 <= pos -> kv_lastApplied kv <= pos -> in_order pos ms -> truthful L pos ms ->
  exists kv', feed ms kv = (kv', Ret true) /\ kv_is kv' (upto L (position pos ms)).
Proof.
  revert kv pos. induction ms as [|m ms IH]; intros kv pos Hkv Hch Hr Hpos Hla Ho Ht; [by exists kv|].
  destruct Ho as [Hidx Ho]. destruct Ht as [Hm Ht]. cbn [feed position foldl].
  unfold ApplyTicket_msg, delivered in *. destruct (am_CommandValid m).
  - specialize (Hidx eq_refl). rewrite Hm, Hidx in *.
    destruct (run_ApplyTicket_command inv kv (upto L pos) (pos + 1) (L (pos + 1)))
      as (kv1 & Hrun & Hs & Hl & Hc & Hr1 & _); try done; [lia|].
    rewrite (bind_run _ _ _ _ _ Hrun). rewrite <- upto_next in Hs by done.
    apply (IH kv1 (pos + 1)); try done; lia.
  - destruct Hm as (Hv & Hfresh & Hsnap). rewrite Hv, Hsnap in *. rewrite Z.max_r in * by done.
    set (s := upto L (am_SnapshotIndex m)) in *.
    rewrite (bind_run _ _ kv (set_maps (Some (ses_store s)) (Some (ses_max s)) (Some (ses_rest s)) kv) true)
      by (by rewrite (bind_run _ _ _ _ _ (run_Restore kv s _))).
    apply (IH _ (am_SnapshotIndex m)); try done; [| |simpl; lia].
    + by apply (chans_ok_frame kv).
    + lia.
Qed.

(** Exactly once: a fresh server that is fed in-order, truthful messages of a log
    with any repetitions never blocks or panics and ends with the store that only the
    effective commands of the delivered prefix give, each once; no client's effective
    commands contain a sequence number twice or out of order. *)
Theorem kv_exactly_once (L : Z -> Op) (ms : list (ApplyMsg Op)) kv :
  kv_is kv session0 -> chans_ok kv -> inv (kv_rf kv) -> kv_lastApplied kv <= 0 ->
  in_order 0 ms -> truthful L 0 ms ->
  let os := (fun k => L (k + 1)) <$> range (Z.to_nat (position 0 ms)) in
  exists kv', feed ms kv = (kv', Ret true)
    /\ Store kv' = Some (foldl (fun m o => sm_store o m) ∅ (effective ∅ os))
    /\ forall c, StronglySorted Z.lt (op_ReqSeq <$> of_client c (effective ∅ os)).
Proof.
  intros Hkv Hch Hr Hla Ho Ht os. destruct (run_feed L ms kv 0) as (kv' & Hrun & Hkv' & _); try done.
  exists kv'. split; [done|]. split; [|intros c; apply effective_sorted].
  rewrite Hkv'. f_equal. apply (replay_store os session0).
Qed.

(** C21.  Replicas agree: two servers, each holding the session of some prefix of one
    log (a restart or a snapshot may have brought it there), that are fed in-order,
    truthful messages up to the same position, neither block nor panic, and end with
    the same store, the same sequence numbers and the same remembered answers: those
    of the log up to that position. *)
Theorem kv_follows_log (L : Z -> Op) (ms1 ms2 : list (ApplyMsg Op)) kv1 kv2 (p1 p2 : Z) :
  kv_is kv1 (upto L p1) -> chans_ok kv1 -> inv (kv_rf kv1) -> 0 <= p1 -> kv_lastApplied kv1 <= p1 ->
  in_order p1 ms1 -> truthful L p1 ms1 ->
  kv_is kv2 (upto L p2) -> chans_ok kv2 -> inv (kv_rf kv2) -> 0 <= p2 -> kv_lastApplied kv2 <= p2 ->
  in_order p2 ms2 -> truthful L p2 ms2 ->
  position p1 ms1 = position p2 ms2 ->
  exists kv1' kv2', feed ms1 kv1 = (kv1', Ret true) /\ feed ms2 kv2 = (kv2', Ret true)
    /\ kv_is kv1' (upto L (position p1 ms1))
    /\ (Store kv1', ClientMaxReq kv1', ClientLastReqRest kv1')
       = (Store kv2', ClientMaxReq kv2', ClientLastReqRest kv2').
Proof.
  intros A1 A2 A3 A4 A5 A6 A7 B1 B2 B3 B4 B5 B6 B7 Hp.
  destruct (run_feed L ms1 kv1 p1) as (kv1' & R1 & K1); try done.
  destruct (run_feed L ms2 kv2 p2) as (kv2' & R2 & K2); try done.
  exists kv1', kv2'. split_and!; [done..|]. rewrite Hp in K1.
  destruct K1 as (-> & -> & ->), K2 as (-> & -> & ->). done.
Qed.

End Server.

(** ** Snapshots of a server above the Raft peer *)

Section Snapshots.
Context `{LabGob Op} `{SnapGob} `{!SnapGobOk}.

(** C24.  Snapshots are complete and durable: when a server takes a snapshot at an
    index inside its log, its own maps do not change, and a server started from what
    is then on the peer's storage has the same store, sequence numbers and answers. *)
Theorem snapshot_round_trip (kv : KVServer (Raft Op)) (s : Session) (index me max : Z) (rf : Raft Op) :
  kv_is kv s -> wf (kv_rf kv) -> firstIndex (log (kv_rf kv)) < index <= lastIndex (log (kv_rf kv)) ->
  exists kv', TakeSnapShot index kv = (kv', Ret tt) /\ kv_is kv' s
    /\ firstIndex (log (kv_rf kv')) = index
    /\ kv_is (StartKVServer me max rf (persister (kv_rf kv'))) s.
Proof.
  intros (E1 & E2 & E3) Hwf Hi. unfold TakeSnapShot, on_rf. m_exec. unfold id. rewrite E1, E2, E3. cbn [default].
  set (snap := enc_snap (ses_store s) (ses_max s) (ses_rest s)).
  destruct (wp_run _ _ _ (wp_Snapshot index snap (kv_rf kv) (wf_log _ Hwf))) as (rf' & [] & Hrun & Hspec).
  rewrite decide_True in Hspec by done. destruct Hspec as (Hfi & _ & _ & _ & _ & Hps & _).
  cbn. rewrite Hrun. exists (set_rf rf' kv). split; [done|]. split; [done|]. split; [done|].
  cbn. rewrite Hps. unfold StartKVServer. change (ReadSnapshot (Save _ snap _)) with snap.
  unfold snap. rewrite run_Restore by done. done.
Qed.

End Snapshots.

(** ** The clerk *)

(** One request of a clerk against servers of which the first calls fail, time
    out or refuse and the next one answers: the servers are tried in rotation from the
    remembered leader, the value is that of the answer, the sequence number grows by
    one however many calls were needed, and the server that answered is remembered. *)
Theorem clerk_rotates_until_answer (bad rest : list (option ClientRequestReply)) (r : ClientRequestReply)
    (ck : Clerk)
  (Hbad : Forall (fun a => try_next a = true) bad) (Hr : try_next (Some r) = false)
  (Hlead : 0 <= ck_leaderId ck < Z.of_nat (ck_servers ck)) :
  let server k := Z.rem (ck_leaderId ck + Z.of_nat k) (Z.of_nat (ck_servers ck)) in
  SendClientRequest (bad ++ Some r :: rest)%list ck
  = (mkClerk (ck_servers ck) (ck_clientId ck) (ck_reqSeq ck + 1) (server (length bad)),
     server <$> seq 0 (S (length bad)), Some (crr_Value r))
  /\ forall k, 0 <= server k < Z.of_nat (ck_servers ck).
Proof.
  cbn zeta. split; [|intros k; apply Z.rem_bound_pos; lia].
  revert ck Hlead. induction Hbad as [|a bad Ha _ IH]; intros ck Hlead.
  - cbn [app SendClientRequest]. rewrite Hr. simpl. rewrite Z.add_0_r, Z.rem_small by lia. done.
  - cbn [app SendClientRequest]. rewrite Ha. rewrite IH by (simpl; apply Z.rem_bound_pos; lia).
    cbn [ck_servers ck_clientId ck_reqSeq ck_leaderId length].
    assert (Hk : forall k, Z.rem (Z.rem (ck_leaderId ck + 1) (Z.of_nat (ck_servers ck)) + Z.of_nat k)
                      (Z.of_nat (ck_servers ck))
                = Z.rem (ck_leaderId ck + Z.of_nat (S k)) (Z.of_nat (ck_servers ck))).
    { intros k. rewrite (Z.rem_mod_nonneg (ck_leaderId ck + 1)) by lia.
      pose proof (Z.mod_pos_bound (ck_leaderId ck + 1) (Z.of_nat (ck_servers ck)) ltac:(lia)).
      rewrite !Z.rem_mod_nonneg, Zplus_mod_idemp_l by lia. f_equal. lia. }
    rewrite Hk. f_equal. f_equal.
    change (seq 0 (S (S (length bad)))) with (0%nat :: seq 1 (S (length bad))).
    rewrite <- (fmap_S_seq 0), fmap_cons, Z.add_0_r, (Z.rem_small (ck_leaderId ck)) by lia. f_equal.
    rewrite <- list_fmap_compose. apply list_fmap_ext. intros i x _. apply Hk.
Qed.

Lemma clerk_rotates_until_answer_witness :
  SendClientRequest
    [None; Some (mkClientRequestReply WrongLeader "");
     Some (mkClientRequestReply OK "v")] (mkClerk 3 7 4 2)
  = (mkClerk 3 7 5 1, [2; 0; 1], Some "v").
Proof.
  destruct (clerk_rotates_until_answer [None; Some (mkClientRequestReply WrongLeader "")] []
    (mkClientRequestReply OK "v") (mkClerk 3 7 4 2)) as [H _].
  - by repeat constructor.
  - done.
  - simpl. lia.
  - exact H.
Defined.
