(* ===== verification/KvDemo.v ===== *)
(** Concrete codecs for the key/value server, witnesses of its theorems, and two
    executions in which a client or a replica is misled. *)
From Stdlib Require Import ZArith Lia.
From stdpp Require Import base list numbers strings gmap relations countable.
From S2P Require Import Prelude RaftTypes RaftNode RaftVote RaftWf RaftSafe RaftLeader RaftSpec RaftApply KvRaft KvSession KvProps.

#[local] Open Scope string_scope.
#[local] Open Scope Z_scope.

(** ** Codecs: any countable type can be written as one number *)

Module CountGob.

Definition kind_code (k : OperationOp) : nat := match k with OpPut => 0 | OpAppend => 1 | OpGet => 2 end.
Definition kind_of (n : nat) : OperationOp := match n with 0%nat => OpPut | 1%nat => OpAppend | _ => OpGet end.

#[export] Instance kind_countable : Countable OperationOp.
Proof. refine (inj_countable' kind_code kind_of _). by intros []. Defined.

#[export] Instance op_countable : Countable Op.
Proof.
  refine (inj_countable' (fun o => (op_Op o, op_Key o, op_Value o, op_ClientId o, op_ReqSeq o))
            (fun '(a, b, c, d, e) => mkOp a b c d e) _). by intros [].
Defined.

#[export] Instance reply_eq_dec : EqDecision ClientRequestReply.
Proof. solve_decision. Defined.

#[export] Instance reply_countable : Countable ClientRequestReply.
Proof.
  refine (inj_countable' (fun r => (crr_Err r : string, crr_Value r))
            (fun '(a, b) => mkClientRequestReply a b) _). by intros [].
Defined.

#[export] Instance entry_eq_dec : EqDecision (LogEntry Op).
Proof. solve_decision. Defined.

#[export] Instance entry_countable : Countable (LogEntry Op).
Proof.
  refine (inj_countable' (fun e => (le_Term e, le_Index e, le_Data e))
            (fun '(a, b, c) => mkLogEntry a b c) _). by intros [].
Defined.

#[export] Instance log_gob : LabGob Op :=
  { enc_state := fun t v l => [Z.pos (encode (t, v, l))];
    dec_state := fun bs => match bs with [Z.pos p] => decode p | _ => None end }.

#[export] Instance log_gob_ok : LabGobOk Op.
Proof. split; [|done]. intros t v l. simpl. apply decode_encode. Qed.

#[export] Instance snap_gob : SnapGob :=
  { enc_snap := fun s m r => [Z.pos (encode s); Z.pos (encode m); Z.pos (encode r)];
    dec_snap := fun bs => match bs with
      | [Z.pos a; Z.pos b; Z.pos c] => (decode a, decode b, decode c)
      | _ => (None, None, None)
      end }.

#[export] Instance snap_gob_ok : SnapGobOk.
Proof. split; [|done]. intros s m r. simpl. by rewrite !decode_encode. Qed.

End CountGob.

Module KvRun.
Import CountGob.

Definition env0 : Env := fun _ => mkTick 7 0.
Definition dummy : LogEntry Op := mkLogEntry (-1) 0 None.

(** A leader of term 1 with an empty log. *)
Definition rf0 : Raft Op :=
  mkRaft 3 0 MakePersister 0 0 Leader 0 0 1 0 [dummy] [] 0 0 [1; 1; 1] [0; 0; 0].
Definition kv0 : KVServer (Raft Op) := StartKVServer 0 (-1) rf0 MakePersister.

Definition put1 : Op := mkOp OpPut "k" "v" 1 0.
Definition s1 : Session := session_step session0 put1.

Lemma rf0_wf : wf rf0.
Proof.
  split; try (simpl; lia); [|intros _; repeat constructor; vm_compute; discriminate]. split.
  - intros [|k] e He; simplify_eq/=; reflexivity.
  - eexists. split; [reflexivity|]. by left.
  - done.
Qed.

Lemma kv0_is : kv_is kv0 session0.
Proof. by split_and!. Qed.

Lemma kv0_chans : chans_ok kv0.
Proof. split; intros *; vm_compute; discriminate. Qed.

Lemma apply_refines_session_witness :
  exists kv', ApplyTicket_command 1 (Some put1) kv0 = (kv', Ret true)
    /\ Store kv' = Some (ses_store s1).
Proof.
  destruct (apply_refines_session wf kv0 session0 1 put1 kv0_is kv0_chans rf0_wf) as (kv' & H1 & H2 & _).
  { simpl. lia. }
  exists kv'. split; [exact H1|exact (proj1 H2)].
Defined.

Definition log1 : Z -> Op := fun i => mkOp OpAppend "k" "x" 1 i.
Definition two : list (ApplyMsg Op) :=
  [commandMsg (mkLogEntry 1 1 (Some (log1 1))); commandMsg (mkLogEntry 1 2 (Some (log1 2)))].

(** The server after [put1] was applied at index 1. *)
Definition kv1 : KVServer (Raft Op) := fst (ApplyTicket_command 1 (Some put1) kv0).

Lemma kv1_applied : applied_to wf kv0 kv1 session0 1 put1.
Proof.
  destruct (run_ApplyTicket_command wf kv0 session0 1 put1 kv0_is kv0_chans rf0_wf) as (kv' & E & H).
  { simpl. lia. }
  unfold kv1. rewrite E. exact H.
Qed.

Lemma retry_same_answer_witness :
  exists kv', ApplyTicket_command 2 (Some put1) kv1 = (kv', Ret true) /\ Store kv' = Store kv1
    /\ exists ch, notifyChannel kv' !! 2 = Some ch
         /\ chans kv' !! ch = Some [Some (mkClientRequestReply OK "")].
Proof.
  destruct kv1_applied as (Hkv & Hla & Hch & Hr & _).
  destruct (retry_same_answer wf kv1 session0 put1 [] 2) as (kv' & H1 & H2 & H3).
  - reflexivity.
  - constructor.
  - exact Hkv.
  - exact Hch.
  - exact Hr.
  - rewrite Hla. lia.
  - exists kv'. split; [exact H1|]. split; [congruence|]. apply (H3 (1, true)); reflexivity.
Defined.

Lemma kv_exactly_once_witness :
  exists kv', feed two kv0 = (kv', Ret true) /\ Store kv' = Some {["k" := "xx"]}.
Proof.
  destruct (kv_exactly_once wf log1 two kv0 kv0_is kv0_chans rf0_wf) as (kv' & H1 & H2 & _).
  1, 2, 3: simpl; lia || done.
  exists kv'. split; [exact H1|]. rewrite H2. reflexivity.
Defined.

(** One replica applies both commands, the other gets a snapshot of them. *)
Definition snap_two : ApplyMsg Op :=
  let s := upto log1 2 in snapshotMsg (enc_snap (ses_store s) (ses_max s) (ses_rest s)) 2 1.

Lemma kv_follows_log_witness :
  exists kv1' kv2', feed two kv0 = (kv1', Ret true) /\ feed [snap_two] kv0 = (kv2', Ret true)
    /\ Store kv1' = Store kv2'.
Proof.
  destruct (kv_follows_log wf log1 two [snap_two] kv0 kv0 0 0) as (k1 & k2 & H1 & H2 & _ & H4).
  1, 8: exact kv0_is.
  1, 7: exact kv0_chans.
  1, 6: exact rf0_wf.
  all: try (simpl; lia || done).
  exists k1, k2. split; [exact H1|]. split; [exact H2|congruence].
Defined.

(** The same leader with one entry in its log, and the server that applied it. *)
Definition rf1 : Raft Op :=
  mkRaft 3 0 MakePersister 0 0 Leader 0 0 1 0 [dummy; mkLogEntry 1 1 (Some put1)] [] 1 1 [2; 2; 2] [1; 1; 0].

Lemma rf1_wf : wf rf1.
Proof.
  split; try (simpl; lia); [|intros _; repeat constructor; vm_compute; discriminate]. split.
  - intros [|[|k]] e He; simplify_eq/=; reflexivity.
  - eexists. split; [reflexivity|]. by left.
  - intros [|k] e He; simplify_eq/=; lia.
Qed.

Lemma snapshot_round_trip_witness :
  exists kv', TakeSnapShot 1 (set_rf rf1 kv1) = (kv', Ret tt)
    /\ kv_is (StartKVServer 1 100 rf0 (persister (kv_rf kv'))) s1.
Proof.
  destruct (snapshot_round_trip (set_rf rf1 kv1) s1 1 1 100 rf0) as (kv' & H1 & _ & _ & H2).
  - exact (proj1 kv1_applied).
  - exact rf1_wf.
  - vm_compute. split; [reflexivity|discriminate].
  - exists kv'. split; [exact H1|exact H2].
Defined.

(** ** A client is told that a lost write succeeded *)

Definition lostArgs : ClientRequestArgs := mkClientRequestArgs OpPut "a" "1" 1 0.
Definition other : Op := mkOp OpPut "b" "2" 2 0.
Definition later : Op := mkOp OpPut "c" "3" 3 0.

(** The handler of [lostArgs] starts its command at index 1 and waits; a leader
    of term 2 replaces index 1; this server wins term 3, commits and applies;
    the handler receives. *)
Definition misled : M (KVServer (Raft Op)) (option ClientRequestReply) :=
  _ ← handler_begin lostArgs;
  r ← handler_start lostArgs;
  ch ← GetNotifyChannel (match r with inr index => index | inl _ => 0 end);
  on_rf (exec env0 (OpRequestSendLog
    (mkSendLogArgs 2 1 0 (-1) [mkLogEntry 2 1 (Some other)] 0 LogMsgType false)));;
  on_rf (exec env0 (OpTicker 1000));;
  on_rf (exec env0 (OpDecide (mkRequestVoteArgs 3 0 1 2) (mkTally 2 2 0)));;
  on_rf (exec env0 (OpStart later));;
  on_rf (exec env0 (OpSendLogReply 1
    (mkSendLogArgs 3 0 0 (-1) [mkLogEntry 2 1 (Some other); mkLogEntry 3 2 (Some later)] 0
       LogMsgType false) 1 (mkSendLogReply 3 true 0)));;
  batch ← on_rf applyTicket_collect;
  e ← lift (go_idx batch 0);
  ApplyTicket_command (le_Index e) (le_Data e);;
  handler_receive ch.

(** C39.  HandlerClientRequest takes whatever is applied at its index for its own
    command: there is an execution of a leading server in which it answers OK to
    a Put whose command was replaced in the log and is not in the store. *)
Theorem answer_for_another_command :
  exists kv', misled kv0 = (kv', Ret (Some (mkClientRequestReply OK "")))
    /\ Forall (fun e => le_Data e <> Some (op_of lostArgs)) (log (kv_rf kv'))
    /\ (m ← Store kv'; m !! cr_Key lostArgs) = None.
Proof.
  eexists. split; [vm_compute; reflexivity|]. split; [|vm_compute; reflexivity].
  repeat constructor; vm_compute; discriminate.
Qed.

(** ** A late snapshot rolls a replica back *)

Definition snapData : bytes := enc_snap {["k" := "3"]} {[1 := 3]} ∅.
Definition op4 : Op := mkOp OpPut "k" "4" 1 4.

Definition follower0 : Raft Op :=
  mkRaft 3 1 MakePersister 0 0 Follower 0 0 1 (-1) [dummy] [] 0 0 [1; 1; 1] [0; 0; 0].
Definition snap (i : Z) : RequestSnapShotArgs := mkRequestSnapShotArgs 1 0 i 1 0 snapData true.
Definition log4 : SendLogArgs Op :=
  mkSendLogArgs 1 0 3 1 [mkLogEntry 1 4 (Some op4)] 4 LogMsgType false.

Definition after (op : NodeOp (D:=Op)) (rf : Raft Op) : Raft Op := fst (exec env0 op rf).
Definition f2 : Raft Op := Eval vm_compute in after (OpRequestInstallSnapShot (snap 2)) follower0.
Definition f3 : Raft Op := Eval vm_compute in after (OpRequestInstallSnapShot (snap 3)) f2.
Definition f3d : Raft Op := Eval vm_compute in after (OpInstallSnapshotDone 3) f3.
Definition f4 : Raft Op := Eval vm_compute in after (OpRequestSendLog log4) f3d.
Definition batch4 : list (LogEntry Op) := [mkLogEntry 1 4 (Some op4)].
Definition f4d : Raft Op := Eval vm_compute in after (OpApplyFinish batch4) f4.
Definition f4e : Raft Op := Eval vm_compute in after (OpInstallSnapshotDone 2) f4d.

Definition out4 : list (ApplyMsg Op) :=
  [snapshotMsg snapData 3 1; commandMsg (mkLogEntry 1 4 (Some op4)); snapshotMsg snapData 2 1].

Lemma follower0_wf : wf follower0.
Proof. split; try (simpl; lia); [|discriminate]. apply rf0_wf. Qed.

Definition g2 (pc : SnapPc) : SnapGo := mkSnapGo 2 1 pc.
Definition g3 (pc : SnapPc) : SnapGo := mkSnapGo 3 1 pc.
Definition st (rf : Raft Op) (seq : option Holder) (a : Applier) (gs : list SnapGo) (k : nat)
    : Sys (D:=Op) := mkSys rf seq a gs (take k out4).

Lemma snap_pre rf i : state rf = Follower -> op_pre rf (OpRequestInstallSnapShot (D:=Op) (snap i)).
Proof. intros Hs. split; [simpl; lia|]. intros _. rewrite Hs. discriminate. Qed.

Lemma log4_pre : op_pre f3d (OpRequestSendLog log4).
Proof.
  split; [|split; [by repeat constructor|discriminate]].
  intros [|k] e He; simplify_eq/=; reflexivity.
Qed.

(** Two snapshots are installed and the goroutine of the second runs first. *)
Lemma run_second_first : rtc sstep (start_of follower0) (st f3d None ATop [g2 SStart] 1).
Proof.
  eapply rtc_l.
  { exact (ss_install (start_of follower0) env0 (snap 2) f2 (mkRequestSnapShotReply 1) (Some (2, 1))
             (snap_pre follower0 2 eq_refl) eq_refl). }
  eapply rtc_l.
  { exact (ss_install (st f2 None ATop [g2 SStart] 0) env0 (snap 3) f3 (mkRequestSnapShotReply 1)
             (Some (3, 1)) (snap_pre f2 3 eq_refl) eq_refl). }
  eapply rtc_l. { exact (ss_snap_lock (st f3 None ATop [g3 SStart; g2 SStart] 0) [] 3 1 [g2 SStart] eq_refl eq_refl). }
  eapply rtc_l. { exact (ss_snap_send (st f3 (Some BySnap) ATop [g3 SLocked; g2 SStart] 0) [] 3 1 [g2 SStart] eq_refl). }
  apply rtc_once.
  exact (ss_snap_done (st f3 (Some BySnap) ATop [g3 SSent; g2 SStart] 1) [] 3 1 [g2 SStart] f3d eq_refl eq_refl).
Qed.

(** Then index 4 is committed and applied. *)
Lemma run_apply4 : rtc sstep (st f3d None ATop [g2 SStart] 1) (st f4d None ATop [g2 SStart] 2).
Proof.
  eapply rtc_l.
  { exact (ss_handler (st f3d None ATop [g2 SStart] 1) env0 (OpRequestSendLog log4) f4 eq_refl log4_pre eq_refl). }
  eapply rtc_l. { exact (ss_collect (st f4 None ATop [g2 SStart] 1) batch4 eq_refl eq_refl eq_refl). }
  eapply rtc_l. { exact (ss_lock (st f4 None (ACollected batch4) [g2 SStart] 1) batch4 eq_refl eq_refl). }
  eapply rtc_l.
  { exact (ss_gate (st f4 (Some ByApplier) (AHolding batch4) [g2 SStart] 1) batch4 GateSend eq_refl eq_refl). }
  eapply rtc_l.
  { exact (ss_send (st f4 (Some ByApplier) (ASending batch4 [] batch4) [g2 SStart] 1) batch4 [] _ [] eq_refl). }
  apply rtc_once.
  exact (ss_finish (st f4 (Some ByApplier) (ASending batch4 batch4 []) [g2 SStart] 2) batch4 batch4 f4d eq_refl eq_refl).
Qed.

(** And only now the goroutine of the first snapshot delivers. *)
Lemma run_first_late : rtc sstep (st f4d None ATop [g2 SStart] 2) (st f4e None ATop [] 3).
Proof.
  eapply rtc_l. { exact (ss_snap_lock (st f4d None ATop [g2 SStart] 2) [] 2 1 [] eq_refl eq_refl). }
  eapply rtc_l. { exact (ss_snap_send (st f4d (Some BySnap) ATop [g2 SLocked] 2) [] 2 1 [] eq_refl). }
  apply rtc_once.
  exact (ss_snap_done (st f4d (Some BySnap) ATop [g2 SSent] 3) [] 2 1 [] f4e eq_refl eq_refl).
Qed.

(** A snapshot delivered late rolls the server back: the goroutines that
    deliver snapshots are not ordered among each other and RestoreSnapShot does
    not look at the index, so a peer can deliver a snapshot, then command 4,
    then the older snapshot; the server that consumes this has applied command 4
    (its lastApplied says so) but no longer has its effect. *)
Theorem late_snapshot_rolls_back :
  exists (rf : Raft Op) (s : Sys) kv',
    wf rf /\ rtc sstep (start_of rf) s
    /\ feed (s_out s) (StartKVServer 1 (-1) rf MakePersister) = (kv', Ret true)
    /\ kv_lastApplied kv' = 4 /\ lastApplied (s_rf s) = 4
    /\ (m ← Store kv'; m !! "k") = Some "3" /\ op_Value op4 = "4".
Proof.
  exists follower0, (st f4e None ATop [] 3). eexists.
  split; [apply follower0_wf|]. split.
  { etrans; [apply run_second_first|]. etrans; [apply run_apply4|apply run_first_late]. }
  split; [vm_compute; reflexivity|]. vm_compute. by split_and!.
Qed.

End KvRun.
