(* ===== verification/KvCluster.v ===== *)
(** The replicated key/value service as a whole: a cluster of Raft peers, each with the
    server of package kvraft on top of it.

    A server belongs to one incarnation of its peer.  It is started on what the peer has
    on storage, gets the messages of the applier of its incarnation, and runs the pieces
    of its request handlers in between; Start is a step of the cluster.  The service is
    configured without snapshots (maxraftstate is -1), so that the server only reads its
    peer: [kv_rf] is refreshed from the cluster before each piece, and may be anything
    well-formed once the incarnation has crashed. *)
From Stdlib Require Import ZArith Lia Sorted.
From stdpp Require Import base list numbers strings gmap relations.
From S2P Require Import Prelude RaftTypes RaftNode RaftVote RaftWf RaftSafe RaftLeader RaftSpec RaftCluster ElectionSafety ElectionProps LogTree SafetyInv SafetyRun SafetyProps RaftApply Delivery KvRaft KvSession KvProps.

#[local] Open Scope Z_scope.

Section Service.
Context `{LabGobOk Op} `{SnapGob}.
Abbreviation Server := (KVServer (Raft Op)).
Implicit Types (kv : Server) (d : Deployment (D:=Op)) (c : Cluster (D:=Op)).

(** ** State and steps *)

Record Service := mkService { sv_deployment : Deployment (D:=Op); sv_servers : gmap (nat * nat) Server }.
Implicit Types s : Service.

(** The pieces of HandlerClientRequest and Kill that touch the server. *)
Inductive Piece :=
| PBegin (args : ClientRequestArgs)
| PChannel (index : Z)
| PReceive (ch : nat)
| PRemove (index : Z)
| PKill.

Definition run_piece (p : Piece) : M Server unit :=
  match p with
  | PBegin args => ignore (handler_begin args)
  | PChannel index => ignore (GetNotifyChannel index)
  | PReceive ch => ignore (handler_receive ch)
  | PRemove index => RemoveNotifyChannel index
  | PKill => modify (set_kvdead 1)
  end.

(** [r] is what the server of incarnation [inc] of peer [i] sees of its peer. *)
Definition sees c (i inc : nat) (r : Raft Op) : Prop := wf r /\ (incs c !! i = Some inc -> nodes c !! i = Some r).

Inductive sstep s : Service -> Prop :=
| s_raft d' :
    plain_step (sv_deployment s) d' -> d_sent d' = d_sent (sv_deployment s) -> sstep s (mkService d' (sv_servers s))
| s_boot i inc rf :
    sv_servers s !! (i, inc) = None ->
    incs (d_cluster (sv_deployment s)) !! i = Some inc -> nodes (d_cluster (sv_deployment s)) !! i = Some rf ->
    sstep s (mkService (sv_deployment s)
               (<[(i, inc) := StartKVServer (Z.of_nat i) (-1) rf (persister rf)]> (sv_servers s)))
| s_apply i inc e d' kv r kv' b :
    plain_step (sv_deployment s) d' -> d_sent d' = d_sent (sv_deployment s) ++ [(i, inc, e)] ->
    sv_servers s !! (i, inc) = Some kv -> sees (d_cluster d') i inc r ->
    ApplyTicket_msg (commandMsg e) (set_rf r kv) = (kv', Ret b) ->
    sstep s (mkService d' (<[(i, inc) := kv']> (sv_servers s)))
| s_piece i inc kv r kv' p :
    sv_servers s !! (i, inc) = Some kv -> sees (d_cluster (sv_deployment s)) i inc r ->
    run_piece p (set_rf r kv) = (kv', Ret tt) ->
    sstep s (mkService (sv_deployment s) (<[(i, inc) := kv']> (sv_servers s))).

Definition service (n : nat) (now : nat -> Z) : Service := mkService (deploy n now) ∅.

(** ** The server never changes its peer *)

Definition same_peer kv kv' : Prop :=
  maxraftstate kv' = maxraftstate kv /\ (maxraftstate kv = -1 -> kv_rf kv' = kv_rf kv).

#[local] Instance same_peer_preorder : PreOrder same_peer.
Proof.
  split; unfold same_peer; [done|]. intros x y z [E1 F1] [E2 F2]. split; [congruence|]. intros E. rewrite F2, F1; congruence.
Qed.

#[local] Hint Extern 1 (keeps same_peer (modify _)) => apply keeps_modify; intros ?; by split : keeps.

Lemma snapshot_same_peer index : keeps same_peer (snapshot_if_needed (R:=Raft Op) index).
Proof.
  intros kv. unfold snapshot_if_needed, ShouldSnapShot, TakeSnapShot, on_rf. m_exec.
  destruct (Z.eqb_spec (maxraftstate kv) (-1)) as [E|E]; simpl; [by split|].
  case_match; simpl; [|by split]. destruct (Snapshot _ _ _). by split.
Qed.

Lemma state_same_peer : keeps same_peer (on_rf (R:=Raft Op) svc_GetState).
Proof. intros kv. split; [done|]. by destruct kv. Qed.
#[local] Hint Resolve snapshot_same_peer state_same_peer : keeps.

(** A server that is configured without snapshots leaves its peer alone. *)
Lemma apply_same_peer (msg : ApplyMsg Op) : keeps same_peer (ApplyTicket_msg (R:=Raft Op) msg).
Proof.
  unfold ApplyTicket_msg, ApplyTicket_command, apply_once, ApplyToStateMachine, StateMachineGet, StateMachinePut,
    StateMachineAppend, notify, GetNotifyChannel, chan_send, RestoreSnapShot. keeps_auto.
Qed.

(** ** What a server holds *)

Definition commands (l : list (LogEntry Op)) : list Op := omap le_Data l.

(** lastApplied of a server that was given [k] commands. *)
Definition applied_count (k : nat) : Z := if decide (k = 0%nat) then -1 else Z.of_nat k.

Record server_ok (got : list (LogEntry Op)) kv : Prop :=
  { so_maps : kv_is kv (replay session0 (commands got));
    so_chans : chans_ok kv;
    so_applied : kv_lastApplied kv = applied_count (length got) }.

(** *** Starting *)

Lemma boot_ok (me : Z) (rf : Raft Op) (ps : Persister) : ReadSnapshot ps = [] -> server_ok [] (StartKVServer me (-1) rf ps).
Proof. intros E. unfold StartKVServer. rewrite E. split; [done| |done]. by split. Qed.

(** *** Handlers *)

Lemma piece_ok p kv kv' : chans_ok kv -> run_piece p kv = (kv', Ret tt) ->
  chans_ok kv' /\ kv_lastApplied kv' = kv_lastApplied kv
  /\ (Store kv', ClientMaxReq kv', ClientLastReqRest kv') = (Store kv, ClientMaxReq kv, ClientLastReqRest kv).
Proof.
  intros Hc. destruct p as [args|index|ch|index|]; simpl; unfold ignore.
  - unfold handler_begin. m_exec. repeat case_match; m_exec; intros; simplify_eq; done.
  - unfold GetNotifyChannel. m_exec. destruct (notifyChannel kv !! index) as [ch|] eqn:Hn; m_exec; intros [= <-]; [done|].
    split; [|done]. destruct Hc as [Hb Hi He]. split; simpl.
    + intros i ch. rewrite length_app. simpl. intros [[-> <-]|[? ?%Hb]]%lookup_insert_Some; lia.
    + intros i j ch [[-> <-]|[? Hi1]]%lookup_insert_Some [[<- ?]|[? Hj]]%lookup_insert_Some; eauto;
        [apply Hb in Hj|apply Hb in Hi1]; lia.
    + intros i ch Hlt [[-> <-]|[? Hch]]%lookup_insert_Some; [by rewrite list_lookup_middle|].
      rewrite lookup_app_l by (by eapply Hb). by eapply He.
  - unfold handler_receive, chan_recv. m_exec. destruct (chans kv !! ch) as [[|r rest]|] eqn:Hch; m_exec; [by intros [= <-]| |by intros [= <-]].
    destruct r as [r|]; m_exec; [|done]. intros [= <-]. split; [|done]. destruct Hc as [Hb Hi He]. split; simpl.
    + intros i c. rewrite length_insert. apply Hb.
    + done.
    + intros i c Hlt Hn. rewrite list_lookup_insert_ne; [by eapply He|]. intros ->. rewrite (He i c Hlt Hn) in Hch. done.
  - intros [= <-]. split; [|done]. destruct Hc as [Hb Hi He]. split; simpl.
    + intros i ch [_ ?]%lookup_delete_Some. by eapply Hb.
    + intros i j ch [_ ?]%lookup_delete_Some [_ ?]%lookup_delete_Some. by eapply Hi.
    + intros i ch ? [_ ?]%lookup_delete_Some. by eapply He.
  - intros [= <-]. split; [|done]. destruct Hc. by split.
Qed.

(** *** Commands *)

Lemma apply_ok got e kv (o : Op) :
  server_ok got kv -> wf (kv_rf kv) -> le_Index e = Z.of_nat (length got) + 1 -> le_Data e = Some o ->
  exists kv', ApplyTicket_msg (commandMsg e) kv = (kv', Ret true) /\ server_ok (got ++ [e]) kv'.
Proof.
  intros [Hm Hc Ha] Hwf Hi Hd. unfold ApplyTicket_msg. simpl. rewrite Hd.
  destruct (run_ApplyTicket_command wf kv _ (le_Index e) o Hm Hc Hwf) as (kv' & Hr & Hm' & Ha' & Hc' & _).
  { rewrite Ha, Hi. unfold applied_count. case_decide; lia. }
  exists kv'. split; [done|]. split; [|done|].
  - unfold commands, replay in *. rewrite omap_app, foldl_app. simpl. rewrite Hd. done.
  - rewrite Ha', Hi, length_app. unfold applied_count. simpl. case_decide; lia.
Qed.

(** ** Executions *)

Section Runs.
Context (n : nat) (now : nat -> Z).

Record service_ok s : Prop :=
  { sk_run : rtc plain_step (deploy n now) (sv_deployment s);
    sk_up : forall i inc kv, sv_servers s !! (i, inc) = Some kv -> server_ok (sent_of i inc (d_sent (sv_deployment s))) kv;
    sk_down : forall i inc, sv_servers s !! (i, inc) = None -> sent_of i inc (d_sent (sv_deployment s)) = [] }.

(** The next message of an incarnation. *)
Lemma next_message d d' i inc e :
  rtc plain_step (deploy n now) d' -> d_sent d' = d_sent d ++ [(i, inc, e)] ->
  exists o, le_Data e = Some o /\ le_Index e = Z.of_nat (length (sent_of i inc (d_sent d))) + 1.
Proof.
  intros Hr Hs. assert (Hin : (i, inc, e) ∈ d_sent d') by (rewrite Hs; set_solver).
  destruct (sent_agree n now d' i i inc inc e e (plain_steps _ _ Hr) Hin Hin eq_refl) as (_ & [o Ho] & _).
  exists o. split; [done|]. pose proof (sent_in_sequence n now d' i inc Hr) as Hc.
  rewrite Hs, sent_of_snoc, decide_True in Hc by done. apply contig_app in Hc as [_ Hc]. apply contig_cons in Hc as [-> _]. lia.
Qed.

Lemma other_lanes (s : list (nat * nat * LogEntry Op)) i inc e j k :
  (j, k) <> (i, inc) -> sent_of j k (s ++ [(i, inc, e)]) = sent_of j k s.
Proof. intros Hne. rewrite sent_of_snoc, decide_False, app_nil_r; [done|]. intros [-> ->]. done. Qed.

Lemma stored_snapshot d i rf :
  rtc plain_step (deploy n now) d -> nodes (d_cluster d) !! i = Some rf -> ReadSnapshot (persister rf) = [].
Proof.
  intros Hr Hi. destruct (plain_run _ _ _ Hr) as (_ & [Hun _] & _). destruct (Hun _ _ Hi) as [_ Hsn].
  destruct (reachable_run n now _ (plain_cluster _ _ _ Hr)) as (h & R).
  destruct (proj2 (inv_nodes _ _ _ (run_inv _ _ _ _ R)) i rf Hi) as (_ & _ & Hrec). unfold persisted, recovered in Hrec.
  apply (f_equal snd) in Hrec. cbn [snd] in Hrec. rewrite <- Hsn, <- Hrec. by repeat case_match.
Qed.

Lemma session_unique kv (s1 s2 : Session) : kv_is kv s1 -> kv_is kv s2 -> s1 = s2.
Proof. destruct s1, s2. unfold kv_is. simpl. intros (E1 & E2 & E3) (F1 & F2 & F3). congruence. Qed.

Lemma set_rf_ok got kv (r : Raft Op) : server_ok got kv -> server_ok got (set_rf r kv).
Proof. intros [Hm Hc Ha]. split; [done| |done]. destruct Hc. by split. Qed.

Lemma apply_step_ok s i inc e d' kv r :
  service_ok s -> plain_step (sv_deployment s) d' -> d_sent d' = d_sent (sv_deployment s) ++ [(i, inc, e)] ->
  sv_servers s !! (i, inc) = Some kv -> wf r ->
  exists kv', ApplyTicket_msg (commandMsg e) (set_rf r kv) = (kv', Ret true)
    /\ server_ok (sent_of i inc (d_sent d')) kv'.
Proof.
  intros [Hr Hu _] Hst Hs Hkv Hwf. assert (Hr' : rtc plain_step (deploy n now) d') by (by eapply rtc_r).
  destruct (next_message _ _ _ _ _ Hr' Hs) as (o & Ho & Hi).
  destruct (apply_ok _ e (set_rf r kv) o (set_rf_ok _ _ r (Hu _ _ _ Hkv)) Hwf Hi Ho) as (kv' & Hrun & Hok).
  exists kv'. split; [done|]. by rewrite Hs, sent_of_snoc, decide_True.
Qed.

Lemma sstep_ok s s' : service_ok s -> sstep s s' -> service_ok s'.
Proof.
  intros HS Hst. pose proof HS as [Hr Hu Hd].
  destruct Hst as [d' Hp Hs|i inc rf Hno Hi Hrf|i inc e d' kv r kv' b Hp Hs Hkv [Hwf _] Hrun|i inc kv r kv' p Hkv [Hwf _] Hrun].
  - split; simpl; [by eapply rtc_r|by rewrite Hs..].
  - split; simpl; [done| |].
    + intros j k kv. destruct (decide ((j, k) = (i, inc))) as [[= -> ->]|Hne].
      * rewrite lookup_insert_eq. intros [= <-]. rewrite (Hd _ _ Hno). apply boot_ok.
        by eapply stored_snapshot.
      * rewrite lookup_insert_ne by congruence. apply Hu.
    + intros j k. intros [? ?]%lookup_insert_None. by apply Hd.
  - destruct (apply_step_ok _ _ _ _ _ _ _ HS Hp Hs Hkv Hwf) as (kv2 & Hrun2 & Hok). rewrite Hrun in Hrun2. injection Hrun2 as -> ->.
    split; simpl; [by eapply rtc_r| |].
    + intros j k x. destruct (decide ((j, k) = (i, inc))) as [[= -> ->]|Hne]; [rewrite lookup_insert_eq; by intros [= <-]|].
      rewrite lookup_insert_ne, Hs, other_lanes by congruence. apply Hu.
    + intros j k [? ?]%lookup_insert_None. rewrite Hs, other_lanes by congruence. by apply Hd.
  - split; simpl; [done| |].
    + intros j k x. destruct (decide ((j, k) = (i, inc))) as [[= -> ->]|Hne]; [|rewrite lookup_insert_ne by congruence; apply Hu].
      rewrite lookup_insert_eq. intros [= <-]. destruct (set_rf_ok _ _ r (Hu _ _ _ Hkv)) as [Hm Hc Ha].
      destruct (piece_ok _ _ _ Hc Hrun) as (? & ? & Hmaps). injection Hmaps as E1 E2 E3. split; [|done|congruence].
      unfold kv_is in *. by rewrite E1, E2, E3.
    + intros j k [? ?]%lookup_insert_None. by apply Hd.
Qed.

Lemma service_runs s : rtc sstep (service n now) s -> service_ok s.
Proof.
  apply rtc_preserves; [apply sstep_ok|]. split; simpl; [done|by intros|done].
Qed.

(** Replicas agree: in every execution of the service without snapshots (messages lost,
    delayed and reordered, peers crashing and restarting, handlers running in between), a
    server of any incarnation holds exactly the session of the commands its peer has
    delivered, and of two servers at any points of their lives the one that has applied
    more holds the session of the other one's commands followed by its further ones; when
    they have applied equally far their stores, sequence numbers and answers are equal. *)
Theorem replicas_agree s (i inc j inc' : nat) kv kv' :
  rtc sstep (service n now) s -> sv_servers s !! (i, inc) = Some kv -> sv_servers s !! (j, inc') = Some kv' ->
  kv_lastApplied kv <= kv_lastApplied kv' ->
  exists os more, kv_is kv (replay session0 os) /\ kv_is kv' (replay (replay session0 os) more)
    /\ (kv_lastApplied kv = kv_lastApplied kv' ->
        (Store kv, ClientMaxReq kv, ClientLastReqRest kv) = (Store kv', ClientMaxReq kv', ClientLastReqRest kv')).
Proof.
  intros [Hr Hu _]%service_runs Hi Hj Hle. destruct (Hu _ _ _ Hi) as [M1 _ A1], (Hu _ _ _ Hj) as [M2 _ A2].
  rewrite A1, A2 in Hle. set (l1 := sent_of i inc _) in *. set (l2 := sent_of j inc' _) in *.
  assert (Hlen : (length l1 <= length l2)%nat) by (unfold applied_count in Hle; repeat case_decide; lia).
  destruct (sent_comparable n now (sv_deployment s) i inc j inc' Hr Hlen) as [more Hmore]. fold l1 l2 in Hmore.
  exists (commands l1), (commands more). split; [done|].
  assert (Hrep : replay (replay session0 (commands l1)) (commands more) = replay session0 (commands l2)).
  { unfold replay, commands. rewrite Hmore, omap_app. by rewrite foldl_app. }
  rewrite Hrep. split; [done|]. rewrite A1, A2. intros Heq.
  assert (more = []) as ->. { apply length_zero_iff_nil. rewrite Hmore, length_app in Heq. unfold applied_count in Heq. repeat case_decide; lia. }
  rewrite app_nil_r in Hmore. rewrite Hmore in M2. destruct M1 as (-> & -> & ->), M2 as (-> & -> & ->). done.
Qed.

(** Nothing stops a replica: in every execution without snapshots, whenever the applier
    of a peer hands a message to a server that runs, the server applies it, does not
    panic, and is not blocked by the channels of its handlers. *)
Theorem replica_applies s (i inc : nat) e d' kv r :
  rtc sstep (service n now) s -> plain_step (sv_deployment s) d' ->
  d_sent d' = d_sent (sv_deployment s) ++ [(i, inc, e)] ->
  sv_servers s !! (i, inc) = Some kv -> sees (d_cluster d') i inc r ->
  exists kv' o, le_Data e = Some o /\ ApplyTicket_msg (commandMsg e) (set_rf r kv) = (kv', Ret true)
    /\ kv_lastApplied kv' = le_Index e
    /\ forall ses, kv_is kv ses -> kv_is kv' (session_step ses o).
Proof.
  intros HS%service_runs Hst Hs Hkv [Hwf _]. destruct (apply_step_ok _ _ _ _ _ _ _ HS Hst Hs Hkv Hwf) as (kv' & Hrun & [M' _ A']).
  assert (Hr' : rtc plain_step (deploy n now) d') by (eapply rtc_r; [apply HS|done]).
  destruct (next_message _ _ _ _ _ Hr' Hs) as (o & Ho & Hi). exists kv', o. split; [done|]. split; [done|].
  destruct (sk_up _ HS _ _ _ Hkv) as [M _ _]. rewrite Hs, sent_of_snoc, decide_True in A', M' by done. split.
  - rewrite A', Hi, length_app. unfold applied_count. simpl. case_decide; lia.
  - intros ses Hses. assert (ses = replay session0 (commands (sent_of i inc (d_sent (sv_deployment s))))) as ->.
    { by eapply session_unique. }
    unfold commands, replay in M'. rewrite omap_app, foldl_app in M'. simpl in M'. by rewrite Ho in M'.
Qed.

End Runs.
End Service.
