(* ===== verification/KvClusterDemo.v ===== *)
(** An executable scheduler for the replicated service, and an execution of it: peer 0
    is elected, a Put is submitted to it, replicated, committed and applied by the
    servers of peers 0 and 1. *)
From Stdlib Require Import ZArith Lia.
From stdpp Require Import base list numbers strings gmap relations.
From S2P Require Import Prelude RaftTypes RaftNode RaftVote RaftWf RaftSafe RaftCluster SafetyRun SafetyProps Delivery Scheduler KvRaft KvSession KvProps KvDemo KvCluster.

#[local] Open Scope Z_scope.

Section Scheduler.
Context `{LabGobOk Op} `{SnapGob}.

Inductive SEvent := SFire (ev : Event (D:=Op)) | SBoot (i : nat) | SApply (i : nat) | SPiece (i : nat) (p : Piece).

(** A step of the deployment, without snapshots. *)
Definition dplain (ev : DEvent) (d : Deployment (D:=Op)) : option (Deployment (D:=Op)) :=
  d' ← dfire ev d; if plain (d_cluster d') then Some d' else None.

(** The server of the present incarnation of [i], with its peer. *)
Definition present (i : nat) (s : Service) : option (nat * Raft Op) :=
  inc ← incs (d_cluster (sv_deployment s)) !! i; rf ← nodes (d_cluster (sv_deployment s)) !! i; Some (inc, rf).

Definition sfire (ev : SEvent) (s : Service) : option Service :=
  match ev with
  | SFire ev =>
      d' ← dplain (DFire ev) (sv_deployment s); Some (mkService d' (sv_servers s))
  | SBoot i =>
      '(inc, rf) ← present i s;
      match sv_servers s !! (i, inc) with
      | None => Some (mkService (sv_deployment s) (<[(i, inc) := StartKVServer (Z.of_nat i) (-1) rf (persister rf)]> (sv_servers s)))
      | Some _ => None
      end
  | SApply i =>
      '(inc, rf) ← present i s; kv ← sv_servers s !! (i, inc);
      d' ← dplain (DSend i inc) (sv_deployment s); x ← last (d_sent d');
      match ApplyTicket_msg (commandMsg (snd x)) (set_rf rf kv) with
      | (kv', Ret _) => Some (mkService d' (<[(i, inc) := kv']> (sv_servers s)))
      | _ => None
      end
  | SPiece i p =>
      '(inc, rf) ← present i s; kv ← sv_servers s !! (i, inc);
      match run_piece p (set_rf rf kv) with
      | (kv', Ret _) => Some (mkService (sv_deployment s) (<[(i, inc) := kv']> (sv_servers s)))
      | _ => None
      end
  end.

Definition serve (evs : list SEvent) (s : Service) : option Service := foldl (fun o ev => o ≫= sfire ev) (Some s) evs.

Lemma dplain_sound ev d d' : dplain ev d = Some d' -> plain_step d d'.
Proof.
  unfold dplain. destruct (dfire ev d) as [x|] eqn:E; [|done]. simpl. destruct (plain _) eqn:Hp; [|done]. intros [= <-].
  split; [by apply dfire_sound in E|by apply plain_uncompacted].
Qed.

Lemma dplain_fire_sent ev d d' : dplain (DFire ev) d = Some d' -> d_sent d' = d_sent d.
Proof.
  unfold dplain. destruct (dfire (DFire ev) d) as [x|] eqn:E; [|done]. simpl. destruct (plain _); [|done]. intros [= <-].
  simpl in E. destruct ev; destruct (fire_small _ _) as [c'|]; simpl in E; try done; simplify_option_eq; try done.
  by case_match; simplify_option_eq.
Qed.

Lemma dplain_send i inc d d' :
  dplain (DSend i inc) d = Some d' -> d_cluster d' = d_cluster d /\ exists e, d_sent d' = d_sent d ++ [(i, inc, e)].
Proof.
  unfold dplain. destruct (dfire (DSend i inc) d) as [x|] eqn:E; [|done]. simpl. destruct (plain _); [|done]. intros [= <-].
  simpl in E. destruct (batch_of _ _ _) as [b|]; simpl in E; [|done]. destruct (d_progress d !! _) as [k|]; simpl in E; [|done].
  destruct (b !! k) as [e|]; simpl in E; [|done]. destruct (may_send _ _ _ _); [|done]. injection E as <-. split; [done|]. by exists e.
Qed.

Lemma present_sees n now s i inc rf :
  rtc sstep (service n now) s -> present i s = Some (inc, rf) ->
  incs (d_cluster (sv_deployment s)) !! i = Some inc /\ nodes (d_cluster (sv_deployment s)) !! i = Some rf
  /\ sees (d_cluster (sv_deployment s)) i inc rf.
Proof.
  intros HS%service_runs. unfold present. destruct (incs _ !! i) as [k|] eqn:Hi; [|done]. simpl.
  destruct (nodes _ !! i) as [r|] eqn:Hn; [|done]. simpl. intros [= -> ->]. split; [done|]. split; [done|]. split; [|by rewrite Hn].
  destruct (plain_run _ _ _ (sk_run _ _ _ HS)) as ((h & g & Hsafe & _) & _). by eapply safe_wf.
Qed.

Lemma sfire_sound n now ev s s' : rtc sstep (service n now) s -> sfire ev s = Some s' -> sstep s s'.
Proof.
  intros HS. destruct ev as [ev|i|i|i p]; simpl.
  - destruct (dplain _ _) as [d'|] eqn:Hd; [|done]. simpl. intros [= <-].
    apply s_raft; [by apply dplain_sound in Hd|by apply dplain_fire_sent in Hd].
  - destruct (present i s) as [[inc rf]|] eqn:Hp; [|done]. simpl. destruct (present_sees _ _ _ _ _ _ HS Hp) as (? & ? & _).
    destruct (sv_servers s !! (i, inc)) eqn:Hk; [done|]. intros [= <-]. by apply s_boot.
  - destruct (present i s) as [[inc rf]|] eqn:Hp; [|done]. simpl. destruct (present_sees _ _ _ _ _ _ HS Hp) as (? & ? & Hs).
    destruct (sv_servers s !! (i, inc)) as [kv|] eqn:Hk; [|done]. simpl. destruct (dplain _ _) as [d'|] eqn:Hd; [|done]. simpl.
    destruct (dplain_send _ _ _ _ Hd) as (Hc & e & He). rewrite He, last_snoc. simpl.
    destruct (ApplyTicket_msg _ _) as [kv' [b|]] eqn:Hr; [|done]. intros [= <-].
    eapply (s_apply s i inc e d' kv rf kv' b); try done; [by apply dplain_sound in Hd|by rewrite Hc].
  - destruct (present i s) as [[inc rf]|] eqn:Hp; [|done]. simpl. destruct (present_sees _ _ _ _ _ _ HS Hp) as (? & ? & Hs).
    destruct (sv_servers s !! (i, inc)) as [kv|] eqn:Hk; [|done]. simpl.
    destruct (run_piece _ _) as [kv' [[]|]] eqn:Hr; [|done]. intros [= <-]. by eapply s_piece.
Qed.

Lemma serve_sound n now evs s' : serve evs (service n now) = Some s' -> rtc sstep (service n now) s'.
Proof.
  unfold serve. revert s'. induction evs as [|ev evs IH] using rev_ind; intros s'; simpl; [by intros [= <-]|].
  rewrite foldl_app. simpl. destruct (foldl _ _ evs) as [x|]; [|done]. simpl. intros Hf.
  eapply rtc_r; [by apply IH|]. by eapply sfire_sound; [apply IH|].
Qed.

End Scheduler.

(** ** An execution *)

Module PutRun.
Import CountGob.

Definition env0 : Env := fun _ => mkTick 7 0.
Definition boot : nat -> Z := fun _ => 0.
Definition put : Op := mkOp OpPut "k"%string "v"%string 1 0.

(** The servers start; peer 0 is elected with the vote of peer 1; the Put is appended,
    stored by peer 1, committed by peer 0, and peer 1 learns it; both collect it. *)
Definition upto_collect : list SEvent :=
  [SBoot 0; SBoot 1; SFire (ETick 0 1000 env0); SFire (EDeliver 0 env0); SFire (EResume 0 env0); SFire (EDecide 0);
   SFire (EStart 0 put); SPiece 0 (PChannel 1); SFire (ESendLog 0); SFire (EDeliver 0 env0); SFire (EResume 0 env0);
   SFire (ESendLog 0); SFire (EDeliver 0 env0); SFire (ECollect 0); SFire (ECollect 1)].

Definition applied : list SEvent := upto_collect ++ [SApply 0; SApply 1].

Abbreviation start := (service 3 boot).
Definition collected_at : Service := default start (serve upto_collect start).
Definition applied_at : Service := default start (serve applied start).

Lemma collected_runs : serve upto_collect start = Some collected_at.
Proof. vm_compute. reflexivity. Qed.
Lemma applied_runs : serve applied start = Some applied_at.
Proof. vm_compute. reflexivity. Qed.

Definition idle_server : KVServer (Raft Op) := StartKVServer 0 (-1) (fst (Make 3 0 0 MakePersister)) MakePersister.
Definition server (s : Service) (i : nat) : KVServer (Raft Op) := default idle_server (sv_servers s !! (i, 0%nat)).

Lemma replicas_agree_witness :
  Store (server applied_at 0) = Some {["k"%string := "v"%string]}
  /\ exists os more, kv_is (server applied_at 0) (replay session0 os)
    /\ kv_is (server applied_at 1) (replay (replay session0 os) more)
    /\ (kv_lastApplied (server applied_at 0) = kv_lastApplied (server applied_at 1) ->
        (Store (server applied_at 0), ClientMaxReq (server applied_at 0), ClientLastReqRest (server applied_at 0))
        = (Store (server applied_at 1), ClientMaxReq (server applied_at 1), ClientLastReqRest (server applied_at 1))).
Proof.
  split; [vm_compute; reflexivity|].
  apply (replicas_agree 3 boot applied_at 0 0 1 0); [apply (serve_sound 3 boot applied); exact applied_runs|vm_compute; reflexivity..|].
  vm_compute. discriminate.
Defined.

(** Peer 0 hands its first message to its server. *)
Definition entry : LogEntry Op := mkLogEntry 1 1 (Some put).
Definition after_send : Deployment (D:=Op) :=
  default (deploy 3 boot) (dplain (DSend 0 0) (sv_deployment collected_at)).

Lemma replica_applies_witness :
  exists kv' o, le_Data entry = Some o
    /\ ApplyTicket_msg (commandMsg entry) (set_rf (kv_rf (server applied_at 0)) (server collected_at 0)) = (kv', Ret true)
    /\ kv_lastApplied kv' = le_Index entry
    /\ forall ses, kv_is (server collected_at 0) ses -> kv_is kv' (session_step ses o).
Proof.
  assert (HR : rtc sstep start collected_at) by (apply (serve_sound 3 boot upto_collect); exact collected_runs).
  assert (H1 : plain_step (sv_deployment collected_at) after_send)
    by (apply (dplain_sound (DSend 0 0)); vm_compute; reflexivity).
  assert (H2 : d_sent after_send = d_sent (sv_deployment collected_at) ++ [(0%nat, 0%nat, entry)]) by (vm_compute; reflexivity).
  assert (H3 : sv_servers collected_at !! (0%nat, 0%nat) = Some (server collected_at 0)) by (vm_compute; reflexivity).
  assert (H4 : sees (d_cluster after_send) 0 0 (kv_rf (server applied_at 0))).
  { destruct (present_sees 3 boot collected_at 0 0 (kv_rf (server applied_at 0)) HR) as (_ & _ & [Hwf _]); [vm_compute; reflexivity|].
    split; [exact Hwf|intros _; vm_compute; reflexivity]. }
  exact (replica_applies 3 boot collected_at 0 0 entry after_send _ _ HR H1 H2 H3 H4).
Defined.

End PutRun.
