(* ===== verification/KvReplica.v ===== *)
(** The replicated key/value service with snapshots: the server of kvraft is a consumer
    in the sense of Replica, so that its replicas agree while logs are compacted,
    snapshots are sent to peers that lag behind, and peers crash and restart. *)
From Stdlib Require Import ZArith Lia.
From stdpp Require Import base list numbers strings gmap relations.
From S2P Require Import Prelude RaftTypes RaftNode RaftVote RaftWf RaftSafe RaftCluster LogTree SafetyRun SharedLog RaftApply Delivery SnapMoves Replica KvRaft KvSession KvProps KvCluster.

#[local] Open Scope Z_scope.

Section Service.
Context `{LabGobOk Op} `{SnapGob} `{!SnapGobOk} (maxraft : Z).
Abbreviation Server := (KVServer (Raft Op)).
Implicit Types (kv : Server) (rf : Raft Op).

(** ** The server as a consumer *)

(** One iteration of ApplyTicket, its calls on the peer included. *)
Definition kv_handle (msg : ApplyMsg Op) rf kv : Server * Raft Op * res bool :=
  let '(kv', r) := ApplyTicket_msg msg (set_rf rf kv) in (kv', kv_rf kv', r).

#[export] Instance kv_consumer : Consumer Op Server Piece :=
  { cs_boot := fun i rf => StartKVServer (Z.of_nat i) maxraft rf (persister rf);
    cs_handle := kv_handle;
    cs_piece := run_piece }.

Definition kv_holds kv (l : list (LogEntry Op)) : Prop :=
  kv_is kv (replay session0 (commands l)) /\ chans_ok kv /\ kv_lastApplied kv <= Z.of_nat (length l).

(** A snapshot of the session of [l]. *)
Definition kv_image (l : list (LogEntry Op)) (b : bytes) : Prop := b = session_bytes (replay session0 (commands l)).

Lemma replay_snoc (l : list (LogEntry Op)) e o :
  le_Data e = Some o -> replay session0 (commands (l ++ [e])) = session_step (replay session0 (commands l)) o.
Proof. intros E. unfold commands, replay. rewrite omap_app, foldl_app. simpl. by rewrite E. Qed.

Lemma restore_image kv l b :
  kv_image l b -> chans_ok kv -> kv_lastApplied kv <= Z.of_nat (length l) ->
  exists kv', RestoreSnapShot b kv = (kv', Ret tt) /\ kv_holds kv' l /\ kv_rf kv' = kv_rf kv.
Proof.
  intros -> [Hb Hi He] Ha. unfold session_bytes. rewrite run_Restore by done. eexists. split; [done|]. split; [|done].
  split; [by split_and!|]. by split.
Qed.

Lemma chans_rf kv rf : chans_ok kv -> chans_ok (set_rf rf kv).
Proof. intros []. by split. Qed.

Lemma boot_image (me : Z) rf l : kv_image l (ReadSnapshot (persister rf)) -> kv_holds (StartKVServer me maxraft rf (persister rf)) l.
Proof.
  intros Him. unfold StartKVServer. destruct (restore_image (mkKVServer me rf 0 maxraft (-1) (Some ∅) (Some ∅) (Some ∅) ∅ []) l _ Him)
    as (kv' & -> & Hh & _); [by split|simpl; lia|done].
Qed.

#[export] Instance kv_consumer_ok : ConsumerOk Op Server Piece kv_holds kv_image.
Proof.
  split.
  - intros i rf E. destruct (boot_ok (Z.of_nat i) rf (persister rf) E) as [Hm Hc Ha].
    unfold cs_boot, kv_consumer, StartKVServer in *. rewrite E in *. split; [done|]. by split.
  - intros i rf l. apply boot_image.
  - intros kv l e rf (Hm & Hc & Ha) Hwf Hi [o Ho]. unfold cs_handle, kv_consumer, kv_handle, ApplyTicket_msg. simpl. rewrite Ho.
    destruct (run_command wf (set_rf rf kv) _ (le_Index e) o Hm (chans_rf _ _ Hc) Hwf) as (kv' & -> & (Hm' & Ha' & Hc' & _) & Htr); [simpl; lia|].
    exists kv', (kv_rf kv'). split; [done|]. split.
    + split; [by rewrite (replay_snoc _ _ _ Ho)|]. split; [done|]. rewrite Ha', length_app. simpl. lia.
    + destruct Htr as [E|Hs]; [by left|right]. eexists. split; [|exact Hs]. unfold kv_image. by rewrite (replay_snoc _ _ _ Ho).
  - intros kv l l' snap idx t rf (Hm & Hc & Ha) Him Hle. unfold cs_handle, kv_consumer, kv_handle, ApplyTicket_msg. simpl.
    destruct (restore_image (set_rf rf kv) l' snap Him (chans_rf _ _ Hc)) as (kv' & Hr & Hh & Erf); [simpl; lia|].
    rewrite (bind_run _ _ _ _ _ Hr). simpl. rewrite Erf. by exists kv'.
  - intros kv l p kv' (Hm & Hc & Ha) Hr. destruct (KvCluster.piece_ok p kv kv' Hc Hr) as (Hc' & Ea & Hmaps). injection Hmaps as E1 E2 E3.
    split; [unfold kv_is in *; by rewrite E1, E2, E3|]. split; [done|]. lia.
Qed.

(** ** Executions *)

Section Runs.
Context (n : nat) (now : nat -> Z).
Abbreviation start := (system (D:=Op) (S:=Server) (P:=Piece) n now).

(** Executions of the service over the arrays behind the logs. *)
Abbreviation begin := (start, boot_memory (init n now)).
Implicit Types w : System (D:=Op) (S:=Server) * Memory (D:=Op).

Lemma intact_service w w' : rtc (intact run_step) begin w -> rtc (intact run_step) w w' -> rtc run_step start (fst w) /\ rtc run_step (fst w) (fst w').
Proof. intros Hr Hr'. exact (intact_start run_step start w w' Hr Hr'). Qed.

(** C17.  Replicas agree with snapshots: in every execution of the service over the arrays
    behind the logs, in which logs are compacted by the servers' own snapshots and
    snapshots are installed on peers that lag behind (messages lost, delayed and
    reordered, peers crashing and restarting from their snapshots), two servers, at any
    two points of the execution, hold the sessions of two command sequences of which one
    is a prefix of the other.  This is for executions in which no AppendEntries message is
    overwritten in the log of its sender between being prepared and being encoded, no
    goroutine sends an installed snapshot after its peer has delivered past the index of
    this snapshot, and log indices stay within 2^53. *)
Theorem replicas_agree_compacted w w' (i j : nat) ln ln' :
  rtc (intact run_step) begin w -> rtc (intact run_step) w w' -> sy_lanes (fst w) !! i = Some ln -> sy_lanes (fst w') !! j = Some ln' ->
  exists os os', kv_is (ln_server ln) (replay session0 os) /\ kv_is (ln_server ln') (replay session0 os')
    /\ (os `prefix_of` os' \/ os' `prefix_of` os).
Proof.
  intros Hw Hw' Hi Hj. destruct (intact_service _ _ Hw Hw') as [Hr Hr'].
  destruct (servers_comparable kv_holds kv_image n now _ _ i j ln ln' Hr Hr' Hi Hj) as (l & l' & (Hm & _) & (Hm' & _) & Hc).
  exists (commands l), (commands l'). split; [done|]. split; [done|]. unfold commands.
  destruct Hc as [[v ->]|[v ->]]; [left|right]; rewrite omap_app; by eexists.
Qed.

(** C22.  Nothing stops a replica with snapshots: whatever message the server of a peer has been
    given, a command or an installed snapshot, it handles it without a panic and is not
    blocked.  This is for executions over the arrays behind the logs in which no
    AppendEntries message is overwritten in the log of its sender between being prepared
    and being encoded, no goroutine sends an installed snapshot after its peer has
    delivered past the index of this snapshot, and log indices stay within 2^53. *)
Theorem replica_handles w (i : nat) rf ln msg :
  rtc (intact run_step) begin w -> nodes (sy_cluster (fst w)) !! i = Some rf -> sy_lanes (fst w) !! i = Some ln -> ln_inbox ln = Some msg ->
  exists kv, ApplyTicket_msg msg (set_rf rf (ln_server ln)) = (kv, Ret true).
Proof.
  intros Hw Hi Hln Hin. destruct (intact_service _ _ Hw (rtc_refl _ _)) as [Hr _].
  destruct (server_handles kv_holds kv_image n now _ i rf ln msg Hr Hi Hln Hin) as (kv & rf' & Hh).
  exists kv. unfold cs_handle, kv_consumer, kv_handle in Hh. destruct (ApplyTicket_msg msg _) as [kv' r]. by injection Hh as -> _ ->.
Qed.

(** C23.  Snapshots are those of the replicated session: the snapshot a peer keeps at any time is
    empty and its log complete, or it is the encoding of the session of some commands, as
    many as the log has lost, and these commands agree with what any server of any peer
    has applied, then or later.  This is for executions over the arrays behind the logs in
    which no AppendEntries message is overwritten in the log of its sender between being
    prepared and being encoded, no goroutine sends an installed snapshot after its peer
    has delivered past the index of this snapshot, and log indices stay within 2^53. *)
Theorem snapshots_consistent w w' (i j : nat) rf ln :
  rtc (intact run_step) begin w -> rtc (intact run_step) w w' -> nodes (sy_cluster (fst w)) !! i = Some rf -> sy_lanes (fst w') !! j = Some ln ->
  firstIndex (log rf) = 0 /\ snapshot rf = []
  \/ exists l os, Z.of_nat (length l) = firstIndex (log rf) /\ snapshot rf = session_bytes (replay session0 (commands l))
       /\ kv_is (ln_server ln) (replay session0 os) /\ (commands l `prefix_of` os \/ os `prefix_of` commands l).
Proof.
  intros Hw Hw' Hi Hj. destruct (intact_service _ _ Hw Hw') as [Hr Hr'].
  destruct (snapshots_backed kv_holds kv_image n now _ _ i j rf ln Hr Hr' Hi Hj) as [?|(l & l' & Him & Hf & (Hm & _) & Hc)]; [by left|right].
  exists l, (commands l'). split; [done|]. split; [done|]. split; [done|]. unfold commands.
  destruct Hc as [[v ->]|[v ->]]; [left|right]; rewrite omap_app; by eexists.
Qed.

End Runs.
End Service.
