(* ===== verification/ReplicaRun.v ===== *)
(** A scheduler for replicated services with snapshots, and an execution: a Put is
    committed and applied by peer 0, whose server takes a snapshot and compacts the log;
    peer 2, which has missed everything, is sent the snapshot, installs it and delivers
    it; then peer 0 crashes and starts again from its snapshot. *)
From Stdlib Require Import ZArith Lia.
From stdpp Require Import base list numbers strings gmap relations.
From S2P Require Import Prelude RaftTypes RaftNode RaftVote RaftWf RaftSafe RaftCluster LogTree SafetyRun Scheduler SharedLog RaftApply Delivery SnapMoves Replica KvRaft KvSession KvProps KvDemo KvCluster KvReplica.

#[local] Open Scope Z_scope.

Section Scheduler.
Context {D S P : Type} `{EqDecision D} `{LabGobOk D} `{!Consumer D S P}.
Abbreviation Sys := (System (D:=D) (S:=S)).

(** A position is that of a task, a message or a peer. *)
Inductive REvent :=
| RFire (ev : Event (D:=D))
| RInstall (k : nat) (env : Env)
| RCollect (i : nat)
| RGate (i k : nat)
| RSend (i : nat)
| RFinish (k : nat)
| RSnapLock (k : nat)
| RSnapSend (i : nat) (t : Z)
| RSnapDone (k : nat)
| RHandle (i : nat)
| RPiece (i : nat) (p : P)
| RCrash (i : nat) (now : Z).

#[local] Instance task_dec : EqDecision (Task (D:=D)).
Proof. solve_decision. Defined.

#[local] Instance seq_dec : EqDecision (Seq (D:=D)).
Proof. solve_decision. Defined.

Definition point (rf : Raft D) : Z * bytes := (firstIndex (log rf), snapshot rf).

(** [undelivering], decided. *)
Definition idle_step (c c' : Cluster (D:=D)) : bool :=
  bool_decide (incs c' = incs c) && bool_decide (deliveries c' = deliveries c)
  && bool_decide (point <$> nodes c' = point <$> nodes c).

Lemma idle_step_sound c c' : idle_step c c' = true -> undelivering c c'.
Proof.
  unfold idle_step. rewrite !andb_true_iff, !bool_decide_eq_true. intros [[Hi Hd] Hn]. split; [done|]. split; [done|].
  intros i rf rf' Hr Hr'. apply (f_equal (lookup i)) in Hn. rewrite !list_lookup_fmap, Hr, Hr' in Hn. by injection Hn as -> ->.
Qed.

Definition rfire (ev : REvent) (s : Sys) : option Sys :=
  let c := sy_cluster s in
  match ev with
  | RFire ev => c' ← fire ev c; if idle_step c c' then Some (mkSystem c' (sy_lanes s)) else None
  | RInstall k env =>
      '(l1, call, l2) ← pick k (requests c); rf ← nodes c !! c_dst call; inc ← incs c !! c_dst call;
      match c_req call with
      | ReqSnap a _ =>
          '(rf', x) ← runs (RequestInstallSnapShot env a) rf;
          match x with
          | (r, Some (x, _)) =>
              Some (mkSystem (set_tasks (TInstalled (c_dst call) inc x :: tasks c)
                 (set_responses ((call, Some (RepSnap r)) :: responses c)
                   (set_requests (l1 ++ l2) (set_node (c_dst call) rf' c)))) (sy_lanes s))
          | _ => None
          end
      | _ => None
      end
  | RCollect i =>
      rf ← nodes c !! i; inc ← incs c !! i; '(_, w) ← runs applyTicket_waits rf; '(_, batch) ← runs applyTicket_collect rf;
      if w || existsb (applying i inc) (tasks c) then None
      else Some (mkSystem (set_tasks (TApply i inc batch :: tasks c) c) (sy_lanes s))
  | RGate i k =>
      rf ← nodes c !! i; inc ← incs c !! i; ln ← sy_lanes s !! i; t ← tasks c !! k;
      match ln_seq ln, t with
      | SFree, TApply j inc' batch =>
          '(_, gate) ← runs (applyTicket_gate batch) rf;
          if decide (j = i /\ inc' = inc)
          then Some (set_lane i (set_seq (match gate with GateWait => SFree | GateSkip => SLost | GateSend => SApplier batch 0 end) ln) s)
          else None
      | _, _ => None
      end
  | RSend i =>
      ln ← sy_lanes s !! i;
      match ln_seq ln, ln_inbox ln with
      | SApplier batch k, None =>
          e ← batch !! k; Some (set_lane i (mkLane (SApplier batch (Datatypes.S k)) (Some (commandMsg e)) (ln_server ln)) s)
      | _, _ => None
      end
  | RFinish k =>
      '(t1, t, t2) ← pick k (tasks c);
      match t with
      | TApply i inc batch =>
          rf ← nodes c !! i; ln ← sy_lanes s !! i; '(rf', _) ← runs (applyTicket_finish batch) rf;
          if decide (incs c !! i = Some inc /\ ln_seq ln = SApplier batch (length batch))
          then Some (set_lane i (set_seq SFree ln) (mkSystem (set_tasks (t1 ++ t2) (set_node i rf' c)) (sy_lanes s)))
          else None
      | _ => None
      end
  | RSnapLock k =>
      t ← tasks c !! k;
      match t with
      | TInstalled i inc idx =>
          ln ← sy_lanes s !! i;
          if decide (incs c !! i = Some inc /\ ln_seq ln = SFree) then Some (set_lane i (set_seq (SSnap idx false) ln) s) else None
      | _ => None
      end
  | RSnapSend i t =>
      rf ← nodes c !! i; ln ← sy_lanes s !! i;
      match ln_seq ln, ln_inbox ln with
      | SSnap idx false, None =>
          Some (set_lane i (mkLane (SSnap idx true) (Some (snapshotMsg (snapshot rf) idx t)) (ln_server ln)) s)
      | _, _ => None
      end
  | RSnapDone k =>
      '(t1, t, t2) ← pick k (tasks c);
      match t with
      | TInstalled i inc idx =>
          rf ← nodes c !! i; ln ← sy_lanes s !! i; '(rf', _) ← runs (installSnapshotDone idx) rf;
          if decide (incs c !! i = Some inc /\ ln_seq ln = SSnap idx true)
          then Some (set_lane i (set_seq SFree ln) (mkSystem (set_tasks (t1 ++ t2) (set_node i rf' c)) (sy_lanes s)))
          else None
      | _ => None
      end
  | RHandle i =>
      rf ← nodes c !! i; ln ← sy_lanes s !! i; msg ← ln_inbox ln;
      match cs_handle (P:=P) msg rf (ln_server ln) with
      | (sv, rf', Ret _) => Some (set_lane i (mkLane (ln_seq ln) None sv) (mkSystem (set_node i rf' c) (sy_lanes s)))
      | _ => None
      end
  | RPiece i p =>
      ln ← sy_lanes s !! i;
      match cs_piece p (ln_server ln) with
      | (sv, Ret _) => Some (set_lane i (mkLane (ln_seq ln) (ln_inbox ln) sv) s)
      | _ => None
      end
  | RCrash i now =>
      rf ← nodes c !! i;
      match Make (peers rf) (me rf) now (persister rf) with
      | (rf', Ret _) => Some (set_lane i (mkLane SFree None (cs_boot (P:=P) i rf')) (mkSystem (restart i rf' c) (sy_lanes s)))
      | _ => None
      end
  end.

Lemma rfire_sound ev s s' : rfire ev s = Some s' -> small (sy_cluster s') -> rstep (P:=P) s s'.
Proof.
  destruct ev; simpl; intros E Hsm; opens.
  - destruct (fire ev (sy_cluster s)) as [c'|] eqn:Hf; [|done]. simpl in E. destruct (idle_step _ _) eqn:Hi; [|done]. injection E as <-.
    apply r_cluster; [split; [by apply fire_sound in Hf|done]|by apply idle_step_sound].
  - destruct (c_req c) as [| |a ctx] eqn:Hq; [done..|]. opens. destruct p as [rep [[x y]|]]; [|done]. injection E as <-. by eapply r_install.
  - destruct b; [done|]. destruct (existsb _ _) eqn:Hx; [done|]. injection E as <-.
    pose proof (waits_same _ _ _ Hr) as ->. pose proof (collect_same _ _ _ Hr0) as ->. eapply r_collect; try done. intros b Hb.
    assert (Ht : existsb (applying i n) (tasks (sy_cluster s)) = true); [|congruence].
    apply existsb_exists. exists (TApply i n b). split; [by apply list_elem_of_In|]. simpl. by rewrite bool_decide_eq_true_2.
  - destruct (ln_seq l) eqn:Hs; try done. destruct t as [| |j inc b]; try done. opens. case_decide as Hd; [|done]. destruct Hd as [-> ->].
    injection E as <-. pose proof (gate_same _ _ _ _ Hr) as ->. eapply r_gate; try done. by eapply list_elem_of_lookup_2.
  - destruct (ln_seq l) as [|b k| |] eqn:Hs; try done. destruct (ln_inbox l) eqn:Hi; [done|]. opens. by eapply r_send.
  - destruct t as [| |i inc b]; try done. opens. case_decide as Hd; [|done]. destruct Hd. injection E as <-. destruct u. by eapply r_finish.
  - destruct t as [|i inc idx|]; try done. opens. case_decide as Hd; [|done]. destruct Hd. injection E as <-.
    eapply r_snap_lock; try done. by eapply list_elem_of_lookup_2.
  - destruct (ln_seq l) as [| |idx [|]|] eqn:Hs; try done. destruct (ln_inbox l) eqn:Hi; [done|].
    injection E as <-. by eapply r_snap_send.
  - destruct t as [|i inc idx|]; try done. opens. case_decide as Hd; [|done]. destruct Hd. injection E as <-. destruct u. by eapply r_snap_done.
  - destruct (ln_inbox l) as [msg|] eqn:Hi; [|done]. simpl in E. destruct (cs_handle _ _ _) as [[sv rf'] [b|]] eqn:Hh; [|done]. injection E as <-. by eapply r_handle.
  - destruct (cs_piece _ _) as [sv [[]|]] eqn:Hp; [|done]. injection E as <-. by eapply r_piece.
  - destruct (Make _ _ _ _) as [rf' [[]|]] eqn:Hm; [|done]. injection E as <-. eapply r_crash; try done. by left.
Qed.

(** [in_time], decided. *)
Definition on_time (rf : Raft D) (ln ln' : Lane (D:=D) (S:=S)) : bool :=
  match ln_seq ln, ln_seq ln' with
  | SSnap idx false, SSnap idx' true => negb (idx =? idx') || (lastApplied rf <? idx)
  | _, _ => true
  end.

Definition in_time_b (s s' : Sys) : bool :=
  forallb (fun i => match nodes (sy_cluster s) !! i, sy_lanes s !! i, sy_lanes s' !! i with
                    | Some rf, Some ln, Some ln' => on_time rf ln ln'
                    | _, _, _ => true
                    end) (seq 0 (length (sy_lanes s))).

Lemma in_time_sound s s' : in_time_b s s' = true -> in_time s s'.
Proof.
  unfold in_time_b. rewrite forallb_forall. intros Hf i ln ln' rf idx Hi Hs Hi' Hs' Hrf.
  specialize (Hf i). rewrite Hrf, Hi, Hi' in Hf. unfold on_time in Hf. rewrite Hs, Hs', Z.eqb_refl in Hf. apply Z.ltb_lt, Hf, in_seq.
  apply lookup_lt_Some in Hi. lia.
Qed.

Definition run_fire (ev : REvent) (s : Sys) : option Sys :=
  s' ← rfire ev s; if fits (sy_cluster s') && in_time_b s s' then Some s' else None.

Lemma run_fire_sound ev s s' : run_fire ev s = Some s' -> run_step (P:=P) s s'.
Proof.
  unfold run_fire. destruct (rfire ev s) as [y|] eqn:Hf; [|done]. simpl. destruct (fits _) eqn:Hs; [|done]. simpl.
  destruct (in_time_b s y) eqn:Ht; [|done]. intros [= <-]. apply fits_small in Hs. split_and!; [by eapply rfire_sound|done|by apply in_time_sound].
Qed.

End Scheduler.

(** ** An execution *)

Module SnapRun.
Import CountGob.

Definition env0 : Env := fun _ => mkTick 7 0.
Definition boot : nat -> Z := fun _ => 0.
Definition put : Op := mkOp OpPut "k"%string "v"%string 1 0.

#[export] Instance consumer : Consumer Op (KVServer (Raft Op)) Piece := kv_consumer 0. (* a snapshot after every command *)

Abbreviation Sys := (System (D:=Op) (S:=KVServer (Raft Op))).
Abbreviation REv := (REvent (D:=Op) (P:=Piece)).
Abbreviation Ev := (WEvent (Ev:=REv)).
Abbreviation start := (system (D:=Op) (S:=KVServer (Raft Op)) (P:=Piece) 3 boot).
Abbreviation begin := (start, boot_memory (init (D:=Op) 3 boot)).

(** Peer 0 is elected with the vote of peer 1, the Put is stored by peer 1 and committed;
    the message to peer 2 stays with its goroutine. *)
Definition put_committed : list Ev :=
  (WFire <$> ([RFire (ETick 0 1000 env0); RFire (EDeliver 0 env0); RFire (EResume 0 env0); RFire (EDecide 0); RFire (EStart 0 put);
     RPiece 0 (PChannel 1); RFire (ESendLog 0)] : list REv))
  ++ [WEncode 0 0] ++ (WFire <$> ([RFire (EDeliver 0 env0); RFire (EResume 0 env0)] : list REv)).

(** It is delivered to the server of peer 0, which compacts the log. *)
Definition compacted : list Ev := put_committed ++ (WFire <$> ([RCollect 0; RGate 0 0; RSend 0; RHandle 0; RFinish 0] : list REv)).

(** Peer 2 gets the snapshot: sent, in transit, installed. *)
Definition shipping : list Ev := WFire <$> ([RFire (ESendLog 0); RFire (ESendSnap 0); RInstall 0 env0] : list REv).

(** It is handed to the server of peer 2, which handles it. *)
Definition handed : list Ev := compacted ++ shipping ++ (WFire <$> ([RSnapLock 0; RSnapSend 2 1] : list REv)).
Definition after_install : list Ev := shipping ++ (WFire <$> ([RSnapLock 0; RSnapSend 2 1; RHandle 2; RSnapDone 0; RCrash 0 5000] : list REv)).
Definition restored : list Ev := compacted ++ after_install.

Definition run (evs : list Ev) : option (Sys * Memory (D:=Op)) := intact_run run_fire Delayed.double evs begin.
Definition state_after (evs : list Ev) : Sys * Memory (D:=Op) := default begin (run evs).

Lemma runs_to evs : run evs = Some (state_after evs) -> rtc (intact run_step) begin (state_after evs).
Proof. apply (intact_run_sound run_step run_fire run_fire_sound). Qed.

Lemma runs_on evs more : run evs = Some (state_after evs) -> run (evs ++ more) = Some (state_after (evs ++ more)) ->
  rtc (intact run_step) (state_after evs) (state_after (evs ++ more)).
Proof. apply (intact_run_app run_step run_fire run_fire_sound). Qed.

Definition idle_lane0 : Lane (D:=Op) (S:=KVServer (Raft Op)) := mkLane SFree None (StartKVServer 0 0 (fst (Make 3 0 0 MakePersister)) MakePersister).
Definition lane_at (evs : list Ev) (i : nat) : Lane (D:=Op) (S:=KVServer (Raft Op)) := default idle_lane0 (sy_lanes (fst (state_after evs)) !! i).
Definition peer_at (evs : list Ev) (i : nat) : Raft Op :=
  default (fst (Make 3 0 0 MakePersister)) (nodes (sy_cluster (fst (state_after evs))) !! i).

(** The server of peer 0 after the Put, and that of peer 2 after the snapshot, without any
    command. *)
Lemma replicas_agree_compacted_witness :
  Store (ln_server (lane_at restored 2)) = Some {["k"%string := "v"%string]}
  /\ exists os os', kv_is (ln_server (lane_at compacted 0)) (replay session0 os)
    /\ kv_is (ln_server (lane_at restored 2)) (replay session0 os') /\ (os `prefix_of` os' \/ os' `prefix_of` os).
Proof.
  split; [vm_compute; reflexivity|].
  apply (replicas_agree_compacted 0 3 boot (state_after compacted) (state_after restored) 0 2);
    [apply runs_to; vm_compute; reflexivity|apply (runs_on compacted after_install); vm_compute; reflexivity|vm_compute; reflexivity..].
Defined.

(** The message with the snapshot is in the hands of the server of peer 2. *)
Lemma replica_handles_witness :
  exists msg, ln_inbox (lane_at handed 2) = Some msg /\ am_SnapshotValid msg = true
    /\ exists kv, ApplyTicket_msg msg (set_rf (peer_at handed 2) (ln_server (lane_at handed 2))) = (kv, Ret true).
Proof.
  eexists. split; [vm_compute; reflexivity|]. split; [reflexivity|].
  apply (replica_handles 0 3 boot (state_after handed) 2); [apply runs_to; vm_compute; reflexivity|vm_compute; reflexivity..].
Defined.

(** The snapshot of peer 0 and the server of peer 2 that was fed with it. *)
Lemma snapshots_consistent_witness :
  firstIndex (log (peer_at compacted 0)) = 1
  /\ (firstIndex (log (peer_at compacted 0)) = 0 /\ snapshot (peer_at compacted 0) = []
  \/ exists l os, Z.of_nat (length l) = firstIndex (log (peer_at compacted 0))
       /\ snapshot (peer_at compacted 0) = session_bytes (replay session0 (commands l))
       /\ kv_is (ln_server (lane_at restored 2)) (replay session0 os) /\ (commands l `prefix_of` os \/ os `prefix_of` commands l)).
Proof.
  split; [vm_compute; reflexivity|].
  apply (snapshots_consistent 0 3 boot (state_after compacted) (state_after restored) 0 2);
    [apply runs_to; vm_compute; reflexivity|apply (runs_on compacted after_install); vm_compute; reflexivity|vm_compute; reflexivity..].
Defined.

End SnapRun.
