(* ===== verification/Bitset.v ===== *)
(** The bit sets of the linearizability checker (src/src/porcupine/bitset.go): slices
    of 64-bit words.  [set] and [clear] write the words of the receiver and return it;
    the model returns the updated words. *)
From Stdlib Require Import ZArith Lia.
From stdpp Require Import base list numbers list_numbers.
From S2P Require Import Prelude.

#[local] Open Scope Z_scope.

Module Bitset.

Abbreviation bitset := (list Z).

Definition newBitset (bits : Z) : bitset :=
  let extra := if bits mod 64 =? 0 then 0 else 1 in
  replicate (Z.to_nat (bits / 64 + extra)) 0.

Definition bitsetIndex (pos : Z) : Z * Z := (pos / 64, pos mod 64).

Definition set (b : bitset) (pos : Z) : res bitset :=
  let '(major, minor) := bitsetIndex pos in
  match go_idx b major with
  | Ret w => go_set b major (Z.lor w (Z.shiftl 1 minor))
  | Panic => Panic
  end.

Definition clear (b : bitset) (pos : Z) : res bitset :=
  let '(major, minor) := bitsetIndex pos in
  match go_idx b major with
  | Ret w => go_set b major (Z.ldiff w (Z.shiftl 1 minor))
  | Panic => Panic
  end.

Definition get (b : bitset) (pos : Z) : res bool :=
  let '(major, minor) := bitsetIndex pos in
  match go_idx b major with
  | Ret w => Ret (negb (Z.land w (Z.shiftl 1 minor) =? 0))
  | Panic => Panic
  end.

(** bits.OnesCount64 *)
Definition OnesCount64 (v : Z) : Z := Z.of_nat (length (filter (fun i => Z.testbit v i = true) (seqZ 0 64))).

Definition popcnt (b : bitset) : Z := foldl (fun total v => total + OnesCount64 v) 0 b.

Definition hash (b : bitset) : Z := foldl Z.lxor (popcnt b) b.

Fixpoint equal_words (b b2 : bitset) : bool :=
  match b, b2 with
  | v :: b', v2 :: b2' => if v =? v2 then equal_words b' b2' else false
  | _, _ => true
  end.

Definition equals (b b2 : bitset) : bool :=
  if Nat.eqb (length b) (length b2) then equal_words b b2 else false.

(** ** The set a slice stands for *)

Definition word (w : Z) : Prop := 0 <= w < 2 ^ 64.
Definition wf (b : bitset) : Prop := Forall word b.
Definition capacity (b : bitset) : Z := 64 * Z.of_nat (length b).

Definition has (b : bitset) (pos : Z) : bool := match get b pos with Ret x => x | Panic => false end.

(** The positions whose bit is set, in order. *)
Definition members (b : bitset) : list Z := filter (fun pos => has b pos = true) (seqZ 0 (capacity b)).

(** ** Words *)

Lemma word_bits w : word w <-> 0 <= w /\ forall i, 64 <= i -> Z.testbit w i = false.
Proof.
  unfold word. split; intros [H0 H]; split; try done.
  - intros i Hi. destruct (decide (w = 0)) as [->|Hne]; [by apply Z.bits_0|].
    apply Z.bits_above_log2; [done|]. apply Z.log2_lt_pow2 in H; lia.
  - destruct (decide (w = 0)) as [->|Hne]; [lia|]. apply Z.log2_lt_pow2; [lia|].
    destruct (Z.lt_ge_cases (Z.log2 w) 64) as [|Hge]; [done|].
    assert (Hb : Z.testbit w (Z.log2 w) = true) by (apply Z.bit_log2; lia). by rewrite H in Hb.
Qed.

Lemma shifted_one m i : 0 <= m -> Z.testbit (Z.shiftl 1 m) i = (i =? m).
Proof.
  intros Hm. rewrite Z.shiftl_1_l. destruct (Z.eqb_spec i m) as [->|Hne].
  - by apply Z.pow2_bits_true.
  - by apply Z.pow2_bits_false.
Qed.

Lemma land_shifted w m : 0 <= m -> negb (Z.land w (Z.shiftl 1 m) =? 0) = Z.testbit w m.
Proof.
  intros Hm. destruct (Z.testbit w m) eqn:E.
  - apply negb_true_iff, Z.eqb_neq. intros Hz. apply (f_equal (fun z => Z.testbit z m)) in Hz.
    by rewrite Z.land_spec, shifted_one, E, Z.eqb_refl, Z.bits_0 in Hz by done.
  - apply negb_false_iff, Z.eqb_eq, Z.bits_inj_0. intros i. rewrite Z.land_spec, shifted_one by done.
    destruct (Z.eqb_spec i m) as [->|]; [by rewrite E|apply andb_false_r].
Qed.

Lemma word_lor w m : word w -> 0 <= m < 64 -> word (Z.lor w (Z.shiftl 1 m)).
Proof.
  rewrite !word_bits. intros [H0 H] Hm. split.
  - apply Z.lor_nonneg. split; [done|]. apply Z.shiftl_nonneg. lia.
  - intros i Hi. rewrite Z.lor_spec, shifted_one, H by lia. apply Z.eqb_neq. lia.
Qed.

Lemma word_ldiff w m : word w -> word (Z.ldiff w (Z.shiftl 1 m)).
Proof.
  rewrite !word_bits. intros [H0 H]. split; [apply Z.ldiff_nonneg; by left|].
  intros i Hi. by rewrite Z.ldiff_spec, H.
Qed.

(** ** Positions *)

Lemma index_bounds b pos :
  0 <= pos < capacity b ->
  0 <= pos / 64 < Z.of_nat (length b) /\ 0 <= pos mod 64 < 64 /\ pos = 64 * (pos / 64) + pos mod 64.
Proof.
  unfold capacity. intros H. pose proof (Z.mod_pos_bound pos 64 ltac:(lia)).
  pose proof (Z.div_mod pos 64 ltac:(lia)). lia.
Qed.

Lemma get_bit b pos w :
  0 <= pos -> b !! Z.to_nat (pos / 64) = Some w -> get b pos = Ret (Z.testbit w (pos mod 64)).
Proof.
  intros Hp Hw. unfold get, bitsetIndex.
  assert (E : go_idx b (pos / 64) = Ret w) by (apply go_idx_lookup; split; [apply Z.div_pos; lia|done]).
  rewrite E, land_shifted; [done|]. apply Z.mod_pos_bound. lia.
Qed.

Lemma has_bit b pos w :
  0 <= pos -> b !! Z.to_nat (pos / 64) = Some w -> has b pos = Z.testbit w (pos mod 64).
Proof. intros Hp Hw. unfold has. by rewrite (get_bit b pos w). Qed.

Lemma elem_of_members b pos : pos ∈ members b <-> 0 <= pos < capacity b /\ has b pos = true.
Proof. unfold members. rewrite list_elem_of_filter, elem_of_seqZ. rewrite Z.add_0_l. tauto. Qed.

(** Overwriting one word with [f] of it changes only that bit. *)
Lemma update_word (f : Z -> Z) b pos (v : bool) :
  wf b -> 0 <= pos < capacity b ->
  (forall w, word w -> word (f w)) ->
  (forall w i, 0 <= i -> Z.testbit (f w) i = if i =? pos mod 64 then v else Z.testbit w i) ->
  exists w b', go_idx b (pos / 64) = Ret w /\ go_set b (pos / 64) (f w) = Ret b' /\ wf b'
    /\ length b' = length b
    /\ forall q, 0 <= q < capacity b -> has b' q = if q =? pos then v else has b q.
Proof.
  intros Hwf Hpos Hf Hbit. destruct (index_bounds b pos Hpos) as (Hi & Hm & Heq).
  destruct (lookup_lt_is_Some_2 b (Z.to_nat (pos / 64))) as [w Hw]; [lia|].
  exists w, (<[Z.to_nat (pos / 64) := f w]> b). split_and!.
  - apply go_idx_lookup. split; [lia|done].
  - by apply go_set_ok.
  - apply Forall_insert; [done|]. apply Hf. by eapply Forall_lookup_1.
  - apply length_insert.
  - intros q Hq. destruct (index_bounds b q Hq) as (Hj & Hn & Hq').
    destruct (decide (q / 64 = pos / 64)) as [E|E].
    + rewrite (has_bit _ q (f w)); [|lia|rewrite E, list_lookup_insert_eq by lia; done].
      rewrite (has_bit b q w); [|lia|by rewrite E]. rewrite Hbit by lia.
      destruct (Z.eqb_spec (q mod 64) (pos mod 64)), (Z.eqb_spec q pos); try done; lia.
    + destruct (lookup_lt_is_Some_2 b (Z.to_nat (q / 64))) as [w' Hw']; [lia|].
      rewrite (has_bit _ q w'); [|lia|rewrite list_lookup_insert_ne by lia; done].
      rewrite (has_bit b q w') by (done || lia).
      destruct (Z.eqb_spec q pos) as [->|]; done.
Qed.

Lemma set_spec b pos :
  wf b -> 0 <= pos < capacity b ->
  exists b', set b pos = Ret b' /\ wf b' /\ length b' = length b
    /\ forall q, 0 <= q < capacity b -> has b' q = if q =? pos then true else has b q.
Proof.
  intros Hwf Hpos. destruct (index_bounds b pos Hpos) as (_ & Hm & _).
  destruct (update_word (fun w => Z.lor w (Z.shiftl 1 (pos mod 64))) b pos true) as (w & b' & E & E' & H).
  - done.
  - done.
  - intros w Hw. by apply word_lor.
  - intros w i Hi. rewrite Z.lor_spec, shifted_one by lia. destruct (i =? _); [apply orb_true_r|apply orb_false_r].
  - exists b'. split; [|done]. unfold set, bitsetIndex. by rewrite E.
Qed.

Lemma clear_spec b pos :
  wf b -> 0 <= pos < capacity b ->
  exists b', clear b pos = Ret b' /\ wf b' /\ length b' = length b
    /\ forall q, 0 <= q < capacity b -> has b' q = if q =? pos then false else has b q.
Proof.
  intros Hwf Hpos. destruct (index_bounds b pos Hpos) as (_ & Hm & _).
  destruct (update_word (fun w => Z.ldiff w (Z.shiftl 1 (pos mod 64))) b pos false) as (w & b' & E & E' & H).
  - done.
  - done.
  - intros w Hw. by apply word_ldiff.
  - intros w i Hi. rewrite Z.ldiff_spec, shifted_one by lia. destruct (i =? _); [apply andb_false_r|apply andb_true_r].
  - exists b'. split; [|done]. unfold clear, bitsetIndex. by rewrite E.
Qed.

(** ** Counting and comparing *)

Lemma popcnt_snoc b v : popcnt (b ++ [v]) = popcnt b + OnesCount64 v.
Proof. unfold popcnt. by rewrite foldl_app. Qed.

Lemma members_snoc b v :
  members (b ++ [v])
  = members b ++ ((Z.add (capacity b)) <$> filter (fun i => Z.testbit v i = true) (seqZ 0 64)).
Proof.
  assert (Hlow : forall q, 0 <= q < capacity b -> has (b ++ [v]) q = has b q).
  { intros q Hq. destruct (index_bounds b q Hq) as (Hi & _ & _).
    destruct (lookup_lt_is_Some_2 b (Z.to_nat (q / 64))) as [w Hw]; [lia|].
    rewrite (has_bit b q w), (has_bit (b ++ [v]) q w) by (done || lia || by rewrite lookup_app_l by lia).
    done. }
  assert (Hhigh : forall i, 0 <= i < 64 -> has (b ++ [v]) (capacity b + i) = Z.testbit v i).
  { intros i Hi. unfold capacity. rewrite (has_bit _ _ v); [|lia|].
    - f_equal. rewrite Z.add_comm, Z.mul_comm, Z.mod_add by lia. by apply Z.mod_small.
    - rewrite Z.add_comm, Z.mul_comm, Z.div_add, Z.div_small, Z.add_0_l, Nat2Z.id by lia.
      by rewrite lookup_app_r, Nat.sub_diag by lia. }
  unfold members. replace (capacity (b ++ [v])) with (capacity b + 64)
    by (unfold capacity; rewrite length_app; simpl; lia).
  rewrite seqZ_app by (unfold capacity; lia). rewrite filter_app. f_equal.
  - apply list_filter_ext_in. intros q Hq%elem_of_seqZ. by rewrite Hlow by lia.
  - replace (seqZ (0 + capacity b) 64) with (Z.add (capacity b) <$> seqZ 0 64)
      by (rewrite fmap_add_seqZ; f_equal; lia).
    rewrite filter_fmap_list.
    f_equal. apply list_filter_ext_in. intros i Hi%elem_of_seqZ. cbn. by rewrite Hhigh by lia.
Qed.

Lemma popcnt_members b : popcnt b = Z.of_nat (length (members b)).
Proof.
  induction b as [|v b IH] using rev_ind; [done|].
  rewrite popcnt_snoc, members_snoc, length_app, length_fmap, IH. unfold OnesCount64. lia.
Qed.

Lemma equals_eq b b2 : equals b b2 = true <-> b = b2.
Proof.
  unfold equals. split.
  - destruct (Nat.eqb_spec (length b) (length b2)) as [Hl|]; [|done]. revert b2 Hl.
    induction b as [|v b IH]; intros [|v2 b2] Hl; try done. simpl. destruct (Z.eqb_spec v v2) as [->|]; [|done].
    intros H. f_equal. apply IH; [by injection Hl|done].
  - intros <-. rewrite Nat.eqb_refl. induction b as [|v b IH]; [done|]. simpl. by rewrite Z.eqb_refl.
Qed.

Lemma members_inj b b2 : wf b -> wf b2 -> length b = length b2 -> members b = members b2 -> b = b2.
Proof.
  intros Hw Hw2 Hl Hm. apply list_eq_same_length with (length b); [done|done|].
  intros k x y Hk Hx Hy. assert (Hc : capacity b = capacity b2) by (unfold capacity; by rewrite Hl).
  pose proof (Forall_lookup_1 _ _ _ _ Hw Hx) as Wx. pose proof (Forall_lookup_1 _ _ _ _ Hw2 Hy) as Wy.
  apply Z.bits_inj'. intros i Hi. destruct (Z.lt_ge_cases i 64) as [Hlt|Hge].
  - set (q := 64 * Z.of_nat k + i).
    assert (Hd : q / 64 = Z.of_nat k) by (symmetry; apply (Z.div_unique _ _ _ i); lia).
    assert (Hmod : q mod 64 = i) by (symmetry; apply (Z.mod_unique _ _ (Z.of_nat k)); lia).
    assert (Hb : has b q = Z.testbit x i).
    { rewrite <- Hmod. apply has_bit; [lia|]. by rewrite Hd, Nat2Z.id. }
    assert (Hb2 : has b2 q = Z.testbit y i).
    { rewrite <- Hmod. apply has_bit; [lia|]. by rewrite Hd, Nat2Z.id. }
    assert (Hq : 0 <= q < capacity b) by (unfold capacity; lia).
    rewrite <- Hb, <- Hb2. apply eq_true_iff_eq.
    pose proof (elem_of_members b q) as E. pose proof (elem_of_members b2 q) as E2. rewrite Hm, Hc in E. rewrite Hc in Hq. tauto.
  - apply word_bits in Wx as [_ Wx]. apply word_bits in Wy as [_ Wy]. by rewrite Wx, Wy.
Qed.

Lemma new_empty bits : members (newBitset bits) = [].
Proof.
  apply elem_of_nil_inv. intros q [Hq Hh]%elem_of_members. destruct (index_bounds _ _ Hq) as (Hi & _ & _).
  unfold newBitset in *. rewrite length_replicate in Hi.
  rewrite (has_bit _ _ 0), Z.bits_0 in Hh; [done|lia|]. apply lookup_replicate. split; [done|lia].
Qed.

Lemma get_members b pos : 0 <= pos < capacity b -> get b pos = Ret (bool_decide (pos ∈ members b)).
Proof.
  intros Hpos. destruct (index_bounds b pos Hpos) as (Hi & _ & _).
  destruct (lookup_lt_is_Some_2 b (Z.to_nat (pos / 64))) as [w Hw]; [lia|].
  pose proof (elem_of_members b pos) as Hm. unfold has in Hm. rewrite (get_bit b pos w) in * by (done || lia).
  f_equal. apply eq_true_iff_eq. rewrite bool_decide_eq_true. tauto.
Qed.

Lemma members_update b b' pos (v : bool) :
  length b' = length b -> 0 <= pos < capacity b ->
  (forall q, 0 <= q < capacity b -> has b' q = if q =? pos then v else has b q) ->
  forall q, q ∈ members b' <-> if decide (q = pos) then v = true else q ∈ members b.
Proof.
  intros Hl Hpos Hq q. rewrite !elem_of_members. replace (capacity b') with (capacity b)
    by (unfold capacity; by rewrite Hl).
  case_decide as E; [subst q|rewrite elem_of_members]; split.
  - intros [_ H]. by rewrite Hq, Z.eqb_refl in H.
  - intros ->. split; [done|]. by rewrite Hq, Z.eqb_refl.
  - intros [Hr H]. split; [done|]. rewrite Hq in H by done. by destruct (Z.eqb_spec q pos).
  - intros [Hr H]. split; [done|]. rewrite Hq by done. by destruct (Z.eqb_spec q pos).
Qed.

Lemma members_ext b b2 :
  wf b -> wf b2 -> length b = length b2 -> (forall q, q ∈ members b <-> q ∈ members b2) -> b = b2.
Proof.
  intros Hw Hw2 Hl Hm. apply members_inj; [done..|]. unfold members.
  assert (Hc : capacity b = capacity b2) by (unfold capacity; by rewrite Hl). rewrite Hc.
  apply list_filter_ext_in. intros q Hq%elem_of_seqZ. specialize (Hm q). rewrite !elem_of_members, Hc in Hm.
  rewrite Z.add_0_l in Hq. tauto.
Qed.

(** Setting a free bit, and that clearing it restores the words. *)
Lemma set_then_clear b pos :
  wf b -> 0 <= pos < capacity b -> pos ∉ members b ->
  exists b', set b pos = Ret b' /\ wf b' /\ length b' = length b
    /\ (forall q, q ∈ members b' <-> q = pos \/ q ∈ members b) /\ clear b' pos = Ret b.
Proof.
  intros Hwf Hpos Hfree. destruct (set_spec b pos Hwf Hpos) as (b' & E & Hwf' & Hl & Hq).
  assert (Hm : forall q, q ∈ members b' <-> q = pos \/ q ∈ members b).
  { intros q. rewrite (members_update b b' pos true) by done. case_decide; naive_solver. }
  exists b'. split_and!; [done..|].
  assert (Hpos' : 0 <= pos < capacity b') by (unfold capacity in *; by rewrite Hl).
  destruct (clear_spec b' pos Hwf' Hpos') as (b2 & E2 & Hwf2 & Hl2 & Hq2). rewrite E2. f_equal.
  apply members_ext; [done|done|congruence|]. intros q. rewrite (members_update b' b2 pos false) by done.
  case_decide; [subst q; split; [done|by intros ?%Hfree]|]. rewrite Hm. tauto.
Qed.

(** A bit set stands for a set of positions below its capacity: newBitset is
    empty and has room for its argument, set and clear do not panic, stay within 64-bit
    words and change exactly one position, popcnt is the number of members, and
    equals decides equality of the sets. *)
Theorem bitset_is_set (bits pos : Z) (b : bitset)
  (Hbits : 0 <= bits) (Hwf : wf b) (Hpos : 0 <= pos < capacity b) :
  (wf (newBitset bits) /\ bits <= capacity (newBitset bits) /\ members (newBitset bits) = [])
  /\ get b pos = Ret (bool_decide (pos ∈ members b))
  /\ (exists b', set b pos = Ret b' /\ wf b' /\ length b' = length b
        /\ forall q, q ∈ members b' <-> q = pos \/ q ∈ members b)
  /\ (exists b', clear b pos = Ret b' /\ wf b' /\ length b' = length b
        /\ forall q, q ∈ members b' <-> q <> pos /\ q ∈ members b)
  /\ popcnt b = Z.of_nat (length (members b))
  /\ forall b2, wf b2 -> length b2 = length b -> equals b b2 = true <-> members b = members b2.
Proof.
  split_and!.
  - apply Forall_replicate. by split.
  - unfold newBitset, capacity. rewrite length_replicate. pose proof (Z.div_mod bits 64 ltac:(lia)).
    pose proof (Z.mod_pos_bound bits 64 ltac:(lia)). pose proof (Z.div_pos bits 64 ltac:(lia) ltac:(lia)).
    destruct (Z.eqb_spec (bits mod 64) 0); lia.
  - apply new_empty.
  - by apply get_members.
  - destruct (set_spec b pos Hwf Hpos) as (b' & E & Hwf' & Hl & Hq). exists b'. split_and!; [done..|].
    intros q. rewrite (members_update b b' pos true) by done. case_decide; naive_solver.
  - destruct (clear_spec b pos Hwf Hpos) as (b' & E & Hwf' & Hl & Hq). exists b'. split_and!; [done..|].
    intros q. rewrite (members_update b b' pos false) by done. case_decide; naive_solver.
  - apply popcnt_members.
  - intros b2 Hw2 Hl. rewrite equals_eq. split; [by intros <-|]. by apply members_inj.
Qed.

Lemma bitset_is_set_witness :
  (exists b', set [5; 0] 65 = Ret b' /\ wf b' /\ length b' = 2%nat
    /\ forall q, q ∈ members b' <-> q = 65 \/ q ∈ members [5; 0])
  /\ popcnt [5; 0] = Z.of_nat (length (members [5; 0])).
Proof.
  destruct (bitset_is_set 70 65 [5; 0]) as (_ & _ & H & _ & Hp & _).
  - lia.
  - unfold wf, word. repeat apply Forall_cons_2; [lia|lia|apply Forall_nil_2].
  - unfold capacity. simpl. lia.
  - split; [exact H|exact Hp].
Defined.

End Bitset.
