(* ===== verification/KvModel.v ===== *)
(** What the linearizability checker works on: the operations and events of
    src/src/porcupine/model.go, the entries of checker.go made from them, and the
    key/value model of src/src/models/kv.go that the tests of both key/value services
    use.  The search itself (checkSingle) is not in this file. *)
From Stdlib Require Import ZArith Lia Sorted.
From stdpp Require Import base list numbers strings gmap sorting.
From S2P Require Import Prelude.

#[local] Open Scope string_scope.
#[local] Open Scope Z_scope.

(** ** model.go *)

Record Operation (I O : Type) := mkOperation
  { op_client : Z; op_Input : I; op_Call : Z; op_Output : O; op_Return : Z }.
Arguments mkOperation {I O}.
Arguments op_client {I O}.
Arguments op_Input {I O}.
Arguments op_Call {I O}.
Arguments op_Output {I O}.
Arguments op_Return {I O}.

Inductive EventKind := CallEvent | ReturnEvent.

Record Event (V : Type) := mkEvent { ev_ClientId : Z; ev_Kind : EventKind; ev_Value : V; ev_Id : Z }.
Arguments mkEvent {V}.
Arguments ev_ClientId {V}.
Arguments ev_Kind {V}.
Arguments ev_Value {V}.
Arguments ev_Id {V}.

(** ** checker.go: entries *)

Inductive entryKind := callEntry | returnEntry.

Record entry (V : Type) := mkEntry
  { en_kind : entryKind; en_value : V; en_id : Z; en_time : Z; en_clientId : Z }.
Arguments mkEntry {V}.
Arguments en_kind {V}.
Arguments en_value {V}.
Arguments en_id {V}.
Arguments en_time {V}.
Arguments en_clientId {V}.

(** Less of byTime: at the same time a call comes before a return. *)
Definition byTime_Less {V} (a b : entry V) : bool :=
  if negb (en_time a =? en_time b) then en_time a <? en_time b
  else match en_kind a, en_kind b with callEntry, returnEntry => true | _, _ => false end.

Fixpoint entries_from {I O} (id : Z) (history : list (Operation I O)) : list (entry (I + O)) :=
  match history with
  | [] => []
  | elem :: history' =>
      mkEntry callEntry (inl (op_Input elem)) id (op_Call elem) (op_client elem)
      :: mkEntry returnEntry (inr (op_Output elem)) id (op_Return elem) (op_client elem)
      :: entries_from (id + 1) history'
  end.

(** [sort] is sort.Sort for byTime. *)
Definition makeEntries {I O} (sort : list (entry (I + O)) -> list (entry (I + O)))
    (history : list (Operation I O)) : list (entry (I + O)) := sort (entries_from 0 history).

Fixpoint renumber_from {V} (m : gmap Z Z) (id : Z) (events : list (Event V)) : list (Event V) :=
  match events with
  | [] => []
  | v :: events' =>
      match m !! ev_Id v with
      | Some r => mkEvent (ev_ClientId v) (ev_Kind v) (ev_Value v) r :: renumber_from m id events'
      | None =>
          mkEvent (ev_ClientId v) (ev_Kind v) (ev_Value v) id
          :: renumber_from (<[ev_Id v := id]> m) (id + 1) events'
      end
  end.

Definition renumber {V} (events : list (Event V)) : list (Event V) := renumber_from ∅ 0 events.

Definition convertEntries {V} (events : list (Event V)) : list (entry V) :=
  imap (fun i elem =>
          mkEntry (match ev_Kind elem with ReturnEvent => returnEntry | CallEvent => callEntry end)
            (ev_Value elem) (ev_Id elem) (Z.of_nat i) (ev_ClientId elem)) events.

(** ** models/kv.go *)

Record KvInput := mkKvInput { kin_Op : Z; kin_Key : string; kin_Value : string }.
Record KvOutput := mkKvOutput { kout_Value : string }.

Abbreviation KvOperation := (Operation KvInput KvOutput).

Definition op_key (v : KvOperation) : string := kin_Key (op_Input v).

(** [m[key] = append(m[key], v)] for each operation *)
Definition group (history : list KvOperation) : gmap string (list KvOperation) :=
  foldl (fun m v => <[op_key v := (default [] (m !! op_key v) ++ [v])%list]> m) ∅ history.

(** sort.Strings *)
Definition sort_strings : list string -> list string := merge_sort String.le.

Definition Partition (history : list KvOperation) : list (list KvOperation) :=
  let m := group history in
  (fun k => default [] (m !! k)) <$> sort_strings (map_to_list m).*1.

Definition Init : string := "".

Definition Step (st : string) (inp : KvInput) (out : KvOutput) : bool * string :=
  if kin_Op inp =? 0 then (bool_decide (kout_Value out = st), st)
  else if kin_Op inp =? 1 then (true, kin_Value inp)
  else if kin_Op inp =? 2 then (true, st ++ kin_Value inp)
  else (bool_decide (kout_Value out = st), st ++ kin_Value inp).

(** ** Sequential histories *)

(** The operations in this order are legal for one value that starts as [st]. *)
Fixpoint legal (st : string) (l : list KvOperation) : bool :=
  match l with
  | [] => true
  | v :: l' => let '(ok, st') := Step st (op_Input v) (op_Output v) in if ok then legal st' l' else false
  end.

(** The specification of a whole store, in which an absent key holds "". *)
Fixpoint store_legal (m : gmap string string) (l : list KvOperation) : bool :=
  match l with
  | [] => true
  | v :: l' =>
      let '(ok, st') := Step (default Init (m !! op_key v)) (op_Input v) (op_Output v) in
      if ok then store_legal (<[op_key v := st']> m) l' else false
  end.

Definition of_key (k : string) (l : list KvOperation) : list KvOperation := filter (fun v => op_key v = k) l.

Lemma store_legal_keys m l :
  store_legal m l = true <-> forall k, legal (default Init (m !! k)) (of_key k l) = true.
Proof.
  revert m. induction l as [|v l IH]; intros m; [done|]. cbn [store_legal].
  destruct (Step _ (op_Input v) (op_Output v)) as [ok st'] eqn:E.
  assert (Hv : legal (default Init (m !! op_key v)) (of_key (op_key v) (v :: l))
               = if ok then legal st' (of_key (op_key v) l) else false).
  { unfold of_key. rewrite filter_cons_True by done. cbn [legal]. by rewrite E. }
  destruct ok; [|split; [done|intros H; specialize (H (op_key v)); by rewrite Hv in H]].
  rewrite IH. split; intros H k; specialize (H k).
  - destruct (decide (k = op_key v)) as [->|Hne]; [by rewrite Hv; rewrite lookup_insert_eq in H|].
    rewrite lookup_insert_ne in H by done. unfold of_key. by rewrite filter_cons_False.
  - destruct (decide (k = op_key v)) as [->|Hne]; [rewrite lookup_insert_eq; by rewrite Hv in H|].
    rewrite lookup_insert_ne by done. unfold of_key in H. by rewrite filter_cons_False in H.
Qed.

(** ** Partition *)

Lemma group_lookup h k : group h !! k = if decide (of_key k h = []) then None else Some (of_key k h).
Proof.
  unfold group, of_key. induction h as [|v h IH] using rev_ind; [done|].
  rewrite foldl_app, filter_app, filter_cons, filter_nil. cbn [foldl].
  destruct (decide (op_key v = k)) as [<-|Hne].
  - rewrite lookup_insert_eq, IH.
    rewrite (decide_False (P := (filter _ h ++ [v])%list = [])) by (by intros [_ ?]%app_nil).
    f_equal. case_decide as E; cbn; [by rewrite E|done].
  - rewrite lookup_insert_ne by done. by rewrite IH, app_nil_r.
Qed.

Definition keys_of (h : list KvOperation) : list string := sort_strings (map_to_list (group h)).*1.

Lemma elem_of_keys h k : k ∈ keys_of h <-> of_key k h <> [].
Proof.
  unfold keys_of, sort_strings. rewrite merge_sort_Permutation, list_elem_of_fmap. split.
  - intros ([k' g] & -> & Hin%elem_of_map_to_list). cbn. rewrite group_lookup in Hin. by case_decide.
  - intros Hne. exists (k, of_key k h). split; [done|]. apply elem_of_map_to_list.
    by rewrite group_lookup, decide_False.
Qed.

Lemma NoDup_keys h : NoDup (keys_of h).
Proof. unfold keys_of, sort_strings. rewrite merge_sort_Permutation. apply NoDup_fst_map_to_list. Qed.

Lemma Partition_keys h : Partition h = (fun k => of_key k h) <$> keys_of h.
Proof.
  unfold Partition. fold (keys_of h). apply list_fmap_ext. intros i k Hk. cbn.
  assert (Hne : of_key k h <> []) by (apply elem_of_keys; by apply list_elem_of_lookup_2 in Hk).
  by rewrite group_lookup, decide_False.
Qed.

(** Partition splits a history into one group per key that occurs, in increasing
    order of keys, each the operations of that key in their order and none of them
    empty; and a sequential history is legal for the whole store exactly when each
    group is legal for the one-value model Init/Step, which is why checking the groups
    one by one is enough. *)
Theorem partition_by_key (h : list KvOperation) :
  (exists ks, Partition h = (fun k => of_key k h) <$> ks
     /\ StronglySorted String.le ks /\ NoDup ks /\ forall k, k ∈ ks <-> of_key k h <> [])
  /\ (store_legal ∅ h = true <-> Forall (fun g => legal Init g = true) (Partition h)).
Proof.
  split.
  - exists (keys_of h). split_and!; [apply Partition_keys| |apply NoDup_keys|apply elem_of_keys].
    apply StronglySorted_merge_sort; apply _.
  - rewrite store_legal_keys, Partition_keys, Forall_fmap, Forall_forall. setoid_rewrite lookup_empty. cbn.
    split; intros H k; [intros _; apply H|]. destruct (decide (of_key k h = [])) as [->|Hne]; [done|].
    apply H. by apply elem_of_keys.
Qed.
