(* ===== verification/Linked.v ===== *)
(** The doubly linked list of the linearizability checker
    (src/src/porcupine/checker.go): nodes in a heap, with insertBefore, length,
    makeLinkedEntries, lift and unlift.

    A heap is the list of the nodes allocated so far, a pointer is a position in it,
    and [None] is nil; dereferencing nil panics.  [chain] says which list of pointers a
    heap holds; lift takes an operation out of the list and unlift undoes it. *)
From Stdlib Require Import ZArith Lia.
From stdpp Require Import base list numbers gmap.
From S2P Require Import Prelude KvModel.

Abbreviation ptr := nat.

Record node (V : Type) := mkNode
  { nd_value : option V; nd_match : option ptr; nd_id : Z; nd_next : option ptr; nd_prev : option ptr }.
Arguments mkNode {V}.
Arguments nd_value {V}.
Arguments nd_match {V}.
Arguments nd_id {V}.
Arguments nd_next {V}.
Arguments nd_prev {V}.

Abbreviation HM V := (M (list (node V))).

Section Heap.
Context {V : Type}.
Abbreviation heap := (list (node V)).

(** ** Memory *)

Definition with_next (x : option ptr) (n : node V) : node V :=
  mkNode (nd_value n) (nd_match n) (nd_id n) x (nd_prev n).
Definition with_prev (x : option ptr) (n : node V) : node V :=
  mkNode (nd_value n) (nd_match n) (nd_id n) (nd_next n) x.

(** [&node{...}] *)
Definition alloc (n : node V) : HM V ptr :=
  h ← gets id; modify (fun h => h ++ [n]);; mret (length h).

Definition load (p : option ptr) : HM V (node V) :=
  h ← gets id; lift (match p with Some q => match h !! q with Some n => Ret n | None => Panic end | None => Panic end).

Definition set_next (p : option ptr) (x : option ptr) : HM V unit :=
  load p;; modify (fun h => match p with Some q => alter (with_next x) q h | None => h end).
Definition set_prev (p : option ptr) (x : option ptr) : HM V unit :=
  load p;; modify (fun h => match p with Some q => alter (with_prev x) q h | None => h end).

(** ** Operations *)

Definition insertBefore (n : ptr) (mark : option ptr) : HM V ptr :=
  match mark with
  | Some _ =>
      m ← load mark;
      let beforeMark := nd_prev m in
      set_prev mark (Some n);;
      set_next (Some n) mark;;
      match beforeMark with
      | Some _ => set_prev (Some n) beforeMark;; set_next beforeMark (Some n)
      | None => mret tt
      end;;
      mret n
  | None => mret n
  end.

(** [fuel] bounds the nodes that can be visited. *)
Fixpoint length_loop (fuel : nat) (n : option ptr) (l : Z) : HM V Z :=
  match fuel, n with
  | S fuel', Some _ => nd ← load n; length_loop fuel' (nd_next nd) (l + 1)
  | _, _ => mret l
  end.

Definition length_list (n : option ptr) : HM V Z :=
  h ← gets id; length_loop (length h) n 0.

(** The loop of makeLinkedEntries over the entries from the last to the first. *)
Fixpoint link_entries (entries : list (entry V)) (root : option ptr) (match_ : gmap Z ptr)
    : HM V (option ptr) :=
  match entries with
  | [] => mret root
  | elem :: entries' =>
      match en_kind elem with
      | returnEntry =>
          e ← alloc (mkNode (Some (en_value elem)) None (en_id elem) None None);
          insertBefore e root;;
          link_entries entries' (Some e) (<[en_id elem := e]> match_)
      | callEntry =>
          e ← alloc (mkNode (Some (en_value elem)) (match_ !! en_id elem) (en_id elem) None None);
          insertBefore e root;;
          link_entries entries' (Some e) match_
      end
  end.

Definition makeLinkedEntries (entries : list (entry V)) : HM V (option ptr) :=
  link_entries (reverse entries) None ∅.

(** Lines 160-161 *)
Definition cut_entry (entry : option ptr) : HM V unit :=
  e ← load entry;
  set_next (nd_prev e) (nd_next e);;
  e ← load entry;
  set_prev (nd_next e) (nd_prev e).

(** Lines 163-166 *)
Definition cut_match (match_ : option ptr) : HM V unit :=
  m ← load match_;
  set_next (nd_prev m) (nd_next m);;
  m ← load match_;
  match nd_next m with
  | Some _ => set_prev (nd_next m) (nd_prev m)
  | None => mret tt
  end.

Definition lift_node (entry : option ptr) : HM V unit :=
  cut_entry entry;;
  e ← load entry;
  cut_match (nd_match e).

(** Lines 171-174 *)
Definition paste_match (match_ : option ptr) : HM V unit :=
  m ← load match_;
  set_next (nd_prev m) match_;;
  m ← load match_;
  match nd_next m with
  | Some _ => set_prev (nd_next m) match_
  | None => mret tt
  end.

(** Lines 175-176 *)
Definition paste_entry (entry : option ptr) : HM V unit :=
  e ← load entry;
  set_next (nd_prev e) entry;;
  e ← load entry;
  set_prev (nd_next e) entry.

Definition unlift_node (entry : option ptr) : HM V unit :=
  e ← load entry;
  paste_match (nd_match e);;
  paste_entry entry.

(** ** Fields of a heap *)

Definition next_of (h : heap) (p : ptr) : option ptr := h !! p ≫= nd_next.
Definition prev_of (h : heap) (p : ptr) : option ptr := h !! p ≫= nd_prev.
(** What never changes after allocation. *)
Definition static_of (h : heap) (p : ptr) : option (option V * option ptr * Z) :=
  (fun n => (nd_value n, nd_match n, nd_id n)) <$> h !! p.

Lemma heap_eq h h' :
  (forall p, static_of h p = static_of h' p) -> (forall p, next_of h p = next_of h' p) ->
  (forall p, prev_of h p = prev_of h' p) -> h = h'.
Proof.
  intros Hs Hn Hp. apply list_eq. intros i. specialize (Hs i). specialize (Hn i). specialize (Hp i).
  unfold static_of, next_of, prev_of in *. destruct (h !! i) as [[]|], (h' !! i) as [[]|]; simplify_eq/=; done.
Qed.

Definition write_next (q : ptr) (x : option ptr) (h : heap) : heap := alter (with_next x) q h.
Definition write_prev (q : ptr) (x : option ptr) (h : heap) : heap := alter (with_prev x) q h.

Lemma lookup_write_next q x h p : write_next q x h !! p = (if decide (p = q) then with_next x else id) <$> h !! p.
Proof.
  unfold write_next. destruct (decide (p = q)) as [->|Hne]; [apply list_lookup_alter_eq|].
  rewrite list_lookup_alter_ne by done. by destruct (h !! p).
Qed.

Lemma lookup_write_prev q x h p : write_prev q x h !! p = (if decide (p = q) then with_prev x else id) <$> h !! p.
Proof.
  unfold write_prev. destruct (decide (p = q)) as [->|Hne]; [apply list_lookup_alter_eq|].
  rewrite list_lookup_alter_ne by done. by destruct (h !! p).
Qed.

Definition valid (h : heap) (p : ptr) : Prop := is_Some (h !! p).

Lemma valid_write_next q x h p : valid (write_next q x h) p <-> valid h p.
Proof. unfold valid. rewrite lookup_write_next. apply fmap_is_Some. Qed.
Lemma valid_write_prev q x h p : valid (write_prev q x h) p <-> valid h p.
Proof. unfold valid. rewrite lookup_write_prev. apply fmap_is_Some. Qed.

Lemma static_write_next q x h p : static_of (write_next q x h) p = static_of h p.
Proof. unfold static_of. rewrite lookup_write_next. destruct (h !! p); [|done]. by case_decide. Qed.
Lemma static_write_prev q x h p : static_of (write_prev q x h) p = static_of h p.
Proof. unfold static_of. rewrite lookup_write_prev. destruct (h !! p); [|done]. by case_decide. Qed.

Lemma next_write_prev q x h p : next_of (write_prev q x h) p = next_of h p.
Proof. unfold next_of. rewrite lookup_write_prev. destruct (h !! p); [|done]. by case_decide. Qed.
Lemma prev_write_next q x h p : prev_of (write_next q x h) p = prev_of h p.
Proof. unfold prev_of. rewrite lookup_write_next. destruct (h !! p); [|done]. by case_decide. Qed.

Lemma next_write_next q x h p :
  valid h q -> next_of (write_next q x h) p = if decide (p = q) then x else next_of h p.
Proof.
  intros [n Hq]. unfold next_of. rewrite lookup_write_next. destruct (decide (p = q)) as [->|].
  - by rewrite Hq.
  - by destruct (h !! p).
Qed.
Lemma prev_write_prev q x h p :
  valid h q -> prev_of (write_prev q x h) p = if decide (p = q) then x else prev_of h p.
Proof.
  intros [n Hq]. unfold prev_of. rewrite lookup_write_prev. destruct (decide (p = q)) as [->|].
  - by rewrite Hq.
  - by destruct (h !! p).
Qed.

(** ** Running the primitives *)

Lemma run_load h p :
  valid h p ->
  exists n, load (Some p) h = (h, Ret n) /\ nd_next n = next_of h p /\ nd_prev n = prev_of h p
    /\ static_of h p = Some (nd_value n, nd_match n, nd_id n).
Proof.
  intros [n Hn]. exists n. unfold load, next_of, prev_of, static_of. m_exec. unfold id. by rewrite Hn.
Qed.

Lemma run_set_next h p x : valid h p -> set_next (Some p) x h = (write_next p x h, Ret tt).
Proof. intros Hv. unfold set_next. destruct (run_load h p Hv) as (n & E & _). by rewrite (bind_run _ _ _ _ _ E). Qed.

Lemma run_set_prev h p x : valid h p -> set_prev (Some p) x h = (write_prev p x h, Ret tt).
Proof. intros Hv. unfold set_prev. destruct (run_load h p Hv) as (n & E & _). by rewrite (bind_run _ _ _ _ _ E). Qed.

(** ** Segments *)

(** The pointers [l] are linked in this order; [pp] is before the first, [nn] after the
    last. *)
Fixpoint seg (h : heap) (pp : option ptr) (l : list ptr) (nn : option ptr) : Prop :=
  match l with
  | [] => True
  | p :: l' =>
      valid h p /\ prev_of h p = pp
      /\ next_of h p = match l' with [] => nn | q :: _ => Some q end
      /\ seg h (Some p) l' nn
  end.

Definition first_of (l : list ptr) (nn : option ptr) : option ptr := match l with [] => nn | q :: _ => Some q end.
Definition last_of (pp : option ptr) (l : list ptr) : option ptr := match last l with Some p => Some p | None => pp end.

Lemma seg_app h pp l1 l2 nn :
  seg h pp (l1 ++ l2) nn <-> seg h pp l1 (first_of l2 nn) /\ seg h (last_of pp l1) l2 nn.
Proof.
  revert pp. induction l1 as [|p l1 IH]; intros pp; [simpl; tauto|].
  rewrite <- app_comm_cons. cbn [seg]. rewrite IH.
  assert (Hl : last_of pp (p :: l1) = last_of (Some p) l1).
  { unfold last_of. destruct l1; [done|]. rewrite last_cons_cons.
    by destruct (last _) eqn:E; [|apply last_None in E]. }
  rewrite Hl. destruct l1; simpl; tauto.
Qed.

Lemma seg_valid h pp l nn p : seg h pp l nn -> p ∈ l -> valid h p.
Proof.
  revert pp. induction l as [|q l IH]; intros pp Hs Hp; [by apply elem_of_nil in Hp|].
  destruct Hs as (Hv & _ & _ & Hs). apply elem_of_cons in Hp as [->|Hp]; [done|by eapply IH].
Qed.

(** A segment survives changes elsewhere, and changes of its two ends. *)
Lemma seg_change h h' pp nn pp' nn' l :
  NoDup l -> seg h pp l nn -> (forall p, p ∈ l -> valid h' p) ->
  (forall p, p ∈ l -> next_of h' p = if decide (last l = Some p) then nn' else next_of h p) ->
  (forall p, p ∈ l -> prev_of h' p = if decide (head l = Some p) then pp' else prev_of h p) ->
  seg h' pp' l nn'.
Proof.
  revert pp pp'. induction l as [|p l IH]; intros pp pp' Hnd Hs Hv Hn Hp; [done|].
  apply NoDup_cons in Hnd as [Hni Hnd]. destruct Hs as (_ & _ & Hnx & Hs). split_and!.
  - apply Hv. left.
  - rewrite Hp by left. by rewrite decide_True.
  - rewrite Hn by left. destruct l as [|q l]; [by rewrite decide_True|].
    rewrite last_cons_cons, decide_False; [done|]. intros E. apply Hni, last_Some_elem_of. done.
  - apply (IH (Some p) (Some p)); [done|done|intros q Hq; apply Hv; by right| |].
    + intros q Hq. rewrite Hn by (by right). destruct l as [|q' l]; [by apply elem_of_nil in Hq|].
      by rewrite last_cons_cons.
    + intros q Hq. rewrite Hp by (by right). rewrite decide_False by (intros [= ->]; done).
      destruct l as [|q' l]; [by apply elem_of_nil in Hq|]. cbn. case_decide as E; [|done].
      injection E as ->. by destruct Hs as (_ & ? & _).
Qed.

(** The heap holds the list [l]. *)
Definition chain (h : heap) (l : list ptr) : Prop := NoDup l /\ seg h None l None.

Lemma chain_at h l1 x l2 :
  chain h (l1 ++ x :: l2) ->
  valid h x /\ prev_of h x = last l1 /\ next_of h x = head l2.
Proof.
  intros [_ Hs]. apply seg_app in Hs as [_ (Hv & Hp & Hn & _)]. split_and!; [done| |].
  - rewrite Hp. unfold last_of. by destruct (last l1).
  - rewrite Hn. by destruct l2.
Qed.

(** ** Taking one node out of a list, and putting it back *)

Section Cut.
Context (a c : list ptr) (p x : ptr).
Abbreviation before := ((a ++ [p]) ++ x :: c).

(** [h'] is [h] with [x] bypassed; the fields of [x] itself are kept. *)
Record cut (h h' : heap) : Prop :=
  { cu_static : forall q, static_of h' q = static_of h q;
    cu_valid : forall q, valid h' q <-> valid h q;
    cu_next : forall q, next_of h' q = if decide (q = p) then head c else next_of h q;
    cu_prev : forall q, prev_of h' q = if decide (head c = Some q) then Some p else prev_of h q }.

Lemma neighbours h :
  chain h before ->
  (valid h p /\ next_of h p = Some x) /\ (valid h x /\ prev_of h x = Some p /\ next_of h x = head c)
  /\ (forall q, head c = Some q -> valid h q /\ prev_of h q = Some x /\ q <> x) /\ p <> x.
Proof.
  intros Hc. destruct (chain_at h a p (x :: c)) as (P1 & _ & P2); [by rewrite <- (assoc_L (++)) in Hc|].
  destruct (chain_at h (a ++ [p]) x c Hc) as (E1 & E2 & E3). rewrite last_snoc in E2.
  pose proof Hc as [Hnd _]. apply NoDup_app in Hnd as (_ & Hd & Hnd). apply NoDup_cons in Hnd as [Hx _].
  split_and!; try done.
  - intros q Hq. destruct c as [|q' c']; [done|]. injection Hq as ->.
    destruct (chain_at h ((a ++ [p]) ++ [x]) q c') as (Hv & Hq & _); [by rewrite <- (assoc_L (++))|].
    rewrite last_snoc in Hq. split_and!; [done|done|]. intros ->. apply Hx. left.
  - intros ->. apply (Hd x); [apply elem_of_app; right|]; left.
Qed.

Lemma cut_chain h h' : chain h before -> cut h h' -> chain h' ((a ++ [p]) ++ c).
Proof.
  intros [Hnd Hs] [_ Lv Ln Lp]. apply NoDup_app in Hnd as (NA & Hd & NC). apply NoDup_cons in NC as [Hx NC].
  apply seg_app in Hs as [SA (_ & _ & _ & SC)].
  assert (DA : forall q, q ∈ a ++ [p] -> q ∉ c) by (intros q Hq Hc; apply (Hd q Hq); by right).
  assert (HC : forall q, head c = Some q -> q ∈ c) by (intros q; destruct c; [done|intros [= ->]; left]).
  split; [by apply NoDup_app|]. apply seg_app. split.
  - apply (seg_change h h' _ _ _ _ _ NA SA); intros q Hq.
    + apply Lv. exact (seg_valid _ _ _ _ _ SA Hq).
    + rewrite Ln, last_snoc. destruct (decide (q = p)) as [->|]; [by rewrite decide_True; destruct c|].
      by rewrite decide_False by congruence.
    + rewrite Lp, decide_False by (intros E; by apply (DA q Hq), HC).
      case_decide as E; [|done]. by destruct (a ++ [p]) as [|y l]; [|injection E as ->; destruct SA as (_ & -> & _)].
  - apply (seg_change h h' _ _ _ _ _ NC SC); intros q Hq.
    + apply Lv. exact (seg_valid _ _ _ _ _ SC Hq).
    + rewrite Ln, decide_False.
      * case_decide as E; [|done]. apply last_Some in E as [l El]. revert SC. rewrite El.
        intros [_ (_ & _ & ? & _)]%seg_app. done.
      * intros ->. apply (DA p); [apply elem_of_app; right; left|done].
    + rewrite Lp. unfold last_of. by rewrite last_snoc.
Qed.

(** The two writes that bypass [x] and the two that undo it. *)
Definition bypass (h : heap) : heap :=
  let h1 := write_next p (head c) h in
  match head c with Some q => write_prev q (Some p) h1 | None => h1 end.
Definition restore (h : heap) : heap :=
  let h1 := write_next p (Some x) h in
  match head c with Some q => write_prev q (Some x) h1 | None => h1 end.

Lemma bypass_cut h : chain h before -> cut h (bypass h).
Proof.
  intros Hc. destruct (neighbours h Hc) as ((Vp & _) & _ & Hq & _). unfold bypass. split.
  - intros q. destruct (head c); by rewrite ?static_write_prev, static_write_next.
  - intros q. destruct (head c); by rewrite ?valid_write_prev, valid_write_next.
  - intros q. destruct (head c); by rewrite ?next_write_prev, next_write_next.
  - intros q. destruct (head c) as [q0|] eqn:E; [|by rewrite decide_False, prev_write_next].
    destruct (Hq q0 eq_refl) as (Vq & _). rewrite prev_write_prev, prev_write_next by (by apply valid_write_next).
    destruct (decide (q = q0)) as [->|]; [by rewrite decide_True|]. by rewrite decide_False by congruence.
Qed.

Lemma restore_cut h h' : chain h before -> cut h h' -> restore h' = h.
Proof.
  intros Hc [Ls Lv Ln Lp]. destruct (neighbours h Hc) as ((Vp & Np) & _ & Hq & _). unfold restore.
  apply heap_eq; intros q.
  - destruct (head c); by rewrite ?static_write_prev, static_write_next, Ls.
  - assert (E : next_of (write_next p (Some x) h') q = next_of h q).
    { rewrite next_write_next, Ln by (by apply Lv). by destruct (decide (q = p)) as [->|]. }
    destruct (head c); by rewrite ?next_write_prev.
  - destruct (head c) as [q0|] eqn:E; [|by rewrite prev_write_next, Lp, decide_False].
    destruct (Hq q0 eq_refl) as (Vq & Pq & _).
    rewrite prev_write_prev, prev_write_next, Lp by (by apply valid_write_next, Lv).
    destruct (decide (q = q0)) as [->|]; [done|]. by rewrite decide_False by congruence.
Qed.

Lemma run_cut_match h : chain h before -> cut_match (Some x) h = (bypass h, Ret tt).
Proof.
  intros Hc. destruct (neighbours h Hc) as ((Vp & _) & (Vx & Px & Nx) & Hq & Hpx). unfold cut_match, bypass.
  destruct (run_load h x Vx) as (n & E & X & Y & _). rewrite (bind_run _ _ _ _ _ E), X, Y, Px, Nx.
  rewrite (bind_run _ _ _ _ _ (run_set_next h p _ Vp)). set (h1 := write_next p (head c) h).
  destruct (run_load h1 x) as (n1 & E1 & X1 & Y1 & _); [by apply valid_write_next|].
  rewrite (bind_run _ _ _ _ _ E1), X1, Y1. unfold h1 at 1 2 3 4.
  rewrite next_write_next, prev_write_next, decide_False, Px, Nx by done.
  destruct (head c) as [q|] eqn:Eq; [|done]. rewrite run_set_prev; [done|]. by apply valid_write_next, Hq.
Qed.

Lemma run_cut_entry h : chain h before -> c <> [] -> cut_entry (Some x) h = (bypass h, Ret tt).
Proof.
  intros Hc Hne. rewrite <- run_cut_match by done. unfold cut_entry, cut_match.
  destruct (neighbours h Hc) as ((Vp & _) & (Vx & Px & Nx) & _ & Hpx).
  destruct (run_load h x Vx) as (n & E & X & Y & _). rewrite !(bind_run _ _ _ _ _ E), X, Y, Px, Nx.
  rewrite !(bind_run _ _ _ _ _ (run_set_next h p _ Vp)).
  destruct (run_load (write_next p (head c) h) x) as (n1 & E1 & X1 & _); [by apply valid_write_next|].
  rewrite !(bind_run _ _ _ _ _ E1), X1, next_write_next, decide_False, Nx by done. by destruct c.
Qed.

Lemma run_paste_match h h' : chain h before -> cut h h' -> paste_match (Some x) h' = (h, Ret tt).
Proof.
  intros Hc Hcut. rewrite <- (restore_cut h h' Hc Hcut). pose proof Hcut as [_ Lv Ln Lp].
  destruct (neighbours h Hc) as ((Vp & _) & (Vx & Px & Nx) & Hq & Hpx). unfold paste_match, restore.
  assert (Hh : head c <> Some x) by (intros E; by destruct (Hq x E) as (_ & _ & ?)).
  destruct (run_load h' x) as (n & E & _ & Y & _); [by apply Lv|].
  rewrite (bind_run _ _ _ _ _ E), Y, Lp, decide_False, Px by done.
  rewrite (bind_run _ _ _ _ _ (run_set_next h' p _ (proj2 (Lv p) Vp))). set (h1 := write_next p (Some x) h').
  destruct (run_load h1 x) as (n1 & E1 & X1 & _); [by apply valid_write_next, Lv|].
  rewrite (bind_run _ _ _ _ _ E1), X1. unfold h1 at 1 2 3.
  rewrite next_write_next, decide_False, Ln, decide_False, Nx by (by auto || by apply Lv).
  destruct (head c) as [q|] eqn:Eq; [|done]. rewrite run_set_prev; [done|].
  apply valid_write_next, Lv. by apply Hq.
Qed.

Lemma run_paste_entry h h' : chain h before -> c <> [] -> cut h h' -> paste_entry (Some x) h' = (h, Ret tt).
Proof.
  intros Hc Hne Hcut. rewrite <- (run_paste_match h h') by done. unfold paste_entry, paste_match.
  destruct (neighbours h Hc) as ((Vp & _) & (Vx & Px & Nx) & Hq & Hpx). pose proof Hcut as [_ Lv Ln Lp].
  assert (Hh : head c <> Some x) by (intros E; by destruct (Hq x E) as (_ & _ & ?)).
  destruct (run_load h' x) as (n & E & _ & Y & _); [by apply Lv|].
  rewrite !(bind_run _ _ _ _ _ E), Y, Lp, decide_False, Px by done.
  rewrite !(bind_run _ _ _ _ _ (run_set_next h' p _ (proj2 (Lv p) Vp))).
  destruct (run_load (write_next p (Some x) h') x) as (n1 & E1 & X1 & _); [by apply valid_write_next, Lv|].
  rewrite !(bind_run _ _ _ _ _ E1), X1.
  rewrite next_write_next, decide_False, Ln, decide_False, Nx by (by auto || by apply Lv). by destruct c.
Qed.

End Cut.

(** ** lift and unlift *)

Lemma snoc_of_app (a b : list ptr) p : exists a' p', (a ++ [p]) ++ b = a' ++ [p'].
Proof.
  destruct (exists_last (l := (a ++ [p]) ++ b)) as (a' & p' & E); [by destruct a|]. by exists a', p'.
Qed.

(** lift takes a call and its return out of the list, and unlift restores the heap
    exactly as it was. *)
Lemma run_lift h a p e b m c v id :
  chain h ((a ++ [p]) ++ e :: b ++ m :: c) -> static_of h e = Some (v, Some m, id) ->
  exists h', lift_node (Some e) h = (h', Ret tt) /\ chain h' ((a ++ [p]) ++ b ++ c)
    /\ (forall q, static_of h' q = static_of h q) /\ unlift_node (Some e) h' = (h, Ret tt).
Proof.
  intros Hc Hm. assert (Hne : b ++ m :: c <> []) by (by destruct b).
  pose proof (bypass_cut _ _ _ _ _ Hc) as C1. set (h1 := bypass (b ++ m :: c) p h) in *.
  pose proof (cut_chain _ _ _ _ _ _ Hc C1) as Hc1.
  destruct (snoc_of_app a b p) as (a' & p' & E). rewrite (assoc_L (++)), E in Hc1.
  pose proof (bypass_cut _ _ _ _ _ Hc1) as C2. set (h2 := bypass c p' h1) in *.
  pose proof (cut_chain _ _ _ _ _ _ Hc1 C2) as Hc2. rewrite <- E, <- (assoc_L (++)) in Hc2.
  assert (S1 : static_of h1 e = Some (v, Some m, id)) by (by rewrite (cu_static _ _ _ _ C1)).
  assert (V1 : valid h1 e) by (apply (cu_valid _ _ _ _ C1); by destruct (neighbours _ _ _ _ _ Hc) as (_ & (? & _) & _)).
  assert (V2 : valid h2 e) by (by apply (cu_valid _ _ _ _ C2)).
  exists h2. split_and!.
  - unfold lift_node. rewrite (bind_run _ _ _ _ _ (run_cut_entry _ _ _ _ _ Hc Hne)). fold h1.
    destruct (run_load h1 e V1) as (n & En & _ & _ & Z). rewrite (bind_run _ _ _ _ _ En).
    rewrite S1 in Z. injection Z as _ <- _. exact (run_cut_match _ _ _ _ _ Hc1).
  - done.
  - intros q. by rewrite (cu_static _ _ _ _ C2), (cu_static _ _ _ _ C1).
  - unfold unlift_node. destruct (run_load h2 e V2) as (n & En & _ & _ & Z). rewrite (bind_run _ _ _ _ _ En).
    rewrite (cu_static _ _ _ _ C2), S1 in Z. injection Z as _ <- _.
    rewrite (bind_run _ _ _ _ _ (run_paste_match _ _ _ _ _ _ Hc1 C2)). by apply (run_paste_entry _ _ _ _ _ _ Hc Hne).
Qed.

(** ** Building the list *)

(** The map [match] after the entries [P]: for an id the pointer of its return. *)
Fixpoint matches_from (k : nat) (P : list (entry V)) (m : gmap Z ptr) : gmap Z ptr :=
  match P with
  | [] => m
  | e :: P' => matches_from (S k) P' (match en_kind e with returnEntry => <[en_id e := k]> m | callEntry => m end)
  end.
Definition matches (P : list (entry V)) : gmap Z ptr := matches_from 0 P ∅.

Lemma matches_snoc P e :
  matches (P ++ [e]) = match en_kind e with returnEntry => <[en_id e := length P]> (matches P) | callEntry => matches P end.
Proof.
  unfold matches. assert (H : forall k m, matches_from k (P ++ [e]) m
    = match en_kind e with returnEntry => <[en_id e := (k + length P)%nat]> (matches_from k P m) | callEntry => matches_from k P m end).
  { induction P as [|x P IH]; intros k m; cbn; [by rewrite Nat.add_0_r|]. rewrite IH.
    by replace (S k + length P)%nat with (k + S (length P))%nat by lia. }
  apply H.
Qed.

(** The fixed fields of the node of the [q]th entry processed. *)
Definition node_info (P : list (entry V)) (q : ptr) (e : entry V) : option V * option ptr * Z :=
  (Some (en_value e),
   match en_kind e with returnEntry => None | callEntry => matches (take q P) !! en_id e end, en_id e).

Record linked (h : heap) (P : list (entry V)) : Prop :=
  { lk_chain : chain h (reverse (seq 0 (length P)));
    lk_size : length h = length P;
    lk_info : forall q e, P !! q = Some e -> static_of h q = Some (node_info P q e) }.

Lemma next_alloc h n q : valid h q -> next_of (h ++ [n]) q = next_of h q.
Proof. intros [y Hy]. unfold next_of. by rewrite (lookup_app_l_Some _ _ _ _ Hy), Hy. Qed.
Lemma prev_alloc h n q : valid h q -> prev_of (h ++ [n]) q = prev_of h q.
Proof. intros [y Hy]. unfold prev_of. by rewrite (lookup_app_l_Some _ _ _ _ Hy), Hy. Qed.
Lemma static_alloc h n q : valid h q -> static_of (h ++ [n]) q = static_of h q.
Proof. intros [y Hy]. unfold static_of. by rewrite (lookup_app_l_Some _ _ _ _ Hy), Hy. Qed.
Lemma valid_alloc h n q : valid h q -> valid (h ++ [n]) q.
Proof. intros [y Hy]. exists y. by apply lookup_app_l_Some. Qed.

Lemma length_write_next q x h : length (write_next q x h) = length h.
Proof. apply length_alter. Qed.
Lemma length_write_prev q x h : length (write_prev q x h) = length h.
Proof. apply length_alter. Qed.

(** A new node in front of a list. *)
Lemma run_push h l v m id :
  chain h l ->
  exists h', insertBefore (length h) (head l) (h ++ [mkNode v m id None None]) = (h', Ret (length h))
    /\ chain h' (length h :: l) /\ length h' = S (length h)
    /\ (forall q, valid h q -> static_of h' q = static_of h q) /\ static_of h' (length h) = Some (v, m, id).
Proof.
  intros [Hnd Hs]. set (n := mkNode v m id None None). set (x := length h). set (h0 := h ++ [n]).
  assert (Hx : h0 !! x = Some n) by apply list_lookup_middle, eq_refl.
  assert (Vx : valid h0 x) by (by exists n).
  assert (Hlx : x ∉ l).
  { intros Hin. destruct (seg_valid _ _ _ _ _ Hs Hin) as [y Hy%lookup_lt_Some]. unfold x in Hy. lia. }
  assert (Hl0 : length h0 = S (length h)) by (unfold h0; rewrite length_app; simpl; lia).
  destruct l as [|r l].
  { exists h0. split; [done|]. split_and!.
    - split; [apply NoDup_singleton|]. cbn. unfold prev_of, next_of. by rewrite Hx.
    - done.
    - intros q. apply static_alloc.
    - unfold static_of. by rewrite Hx. }
  pose proof Hs as (Vr & Pr & _). assert (Hxr : x <> r) by (intros ->; apply Hlx; left).
  assert (Vr0 : valid h0 r) by (by apply valid_alloc).
  cbn [insertBefore head]. destruct (run_load h0 r Vr0) as (nr & Er & _ & Yr & _).
  rewrite (bind_run _ _ _ _ _ Er), Yr. unfold h0 at 1. rewrite prev_alloc, Pr by done.
  rewrite (bind_run _ _ _ _ _ (run_set_prev h0 r _ Vr0)).
  rewrite (bind_run _ _ _ _ _ (run_set_next (write_prev r (Some x) h0) x _ (proj2 (valid_write_prev _ _ _ _) Vx))).
  eexists. split; [done|]. split_and!.
  - split; [by apply NoDup_cons|]. split_and!.
    + by apply valid_write_next, valid_write_prev.
    + rewrite prev_write_next, prev_write_prev, decide_False by done. unfold prev_of. by rewrite Hx.
    + rewrite next_write_next, decide_True by (done || by apply valid_write_prev). done.
    + apply (seg_change h _ None None _ _ _ Hnd Hs); intros q Hq; pose proof (seg_valid _ _ _ _ _ Hs Hq) as Vq.
      * by apply valid_write_next, valid_write_prev, valid_alloc.
      * rewrite next_write_next, decide_False, next_write_prev by (by intros -> || by apply valid_write_prev).
        unfold h0. rewrite next_alloc by done. case_decide as E; [|done].
        apply last_Some in E as [l' El]. revert Hs. rewrite El. intros [_ (_ & _ & ? & _)]%seg_app. done.
      * rewrite prev_write_next, prev_write_prev by done. unfold h0. rewrite prev_alloc by done. cbn.
        destruct (decide (q = r)) as [->|]; [by rewrite decide_True|]. by rewrite decide_False by congruence.
  - by rewrite length_write_next, length_write_prev.
  - intros q Vq. rewrite static_write_next, static_write_prev. by apply static_alloc.
  - rewrite static_write_next, static_write_prev. unfold static_of. by rewrite Hx.
Qed.

Lemma reverse_seq_S k : reverse (seq 0 (S k)) = k :: reverse (seq 0 k).
Proof. by rewrite seq_S, reverse_snoc. Qed.

Lemma linked_valid h P q e : linked h P -> P !! q = Some e -> valid h q.
Proof.
  intros [_ Hz _] Hq. apply lookup_lt_is_Some_2. rewrite Hz. by eapply lookup_lt_Some.
Qed.

Lemma run_link_one h P (e : entry V) :
  linked h P ->
  exists h', insertBefore (length h) (head (reverse (seq 0 (length P))))
      (h ++ [mkNode (Some (en_value e)) (match en_kind e with returnEntry => None | callEntry => matches P !! en_id e end)
               (en_id e) None None]) = (h', Ret (length h))
    /\ linked h' (P ++ [e]).
Proof.
  intros Hl. pose proof Hl as [Hc Hz Hi]. destruct (run_push h _ (Some (en_value e))
    (match en_kind e with returnEntry => None | callEntry => matches P !! en_id e end) (en_id e) Hc)
    as (h' & Hrun & Hc' & Hz' & Hs & Hsx).
  exists h'. split; [exact Hrun|]. split.
  - rewrite length_app, Nat.add_1_r, reverse_seq_S, <- Hz. by rewrite <- Hz in Hc'.
  - rewrite length_app, Nat.add_1_r, <- Hz. done.
  - intros q e' Hq. destruct (decide (q < length P)%nat) as [Hlt|Hge].
    + rewrite lookup_app_l in Hq by done. rewrite Hs by (by eapply linked_valid). rewrite (Hi q e' Hq).
      unfold node_info. by rewrite take_app_le by lia.
    + assert (q = length P) as ->.
      { apply lookup_lt_Some in Hq. rewrite length_app in Hq. simpl in Hq. lia. }
      rewrite list_lookup_middle in Hq by done. injection Hq as <-. rewrite <- Hz at 1. rewrite Hsx.
      unfold node_info. by rewrite take_app_length.
Qed.

Lemma run_link_entries rest P h :
  linked h P ->
  exists h', link_entries rest (head (reverse (seq 0 (length P)))) (matches P) h
             = (h', Ret (head (reverse (seq 0 (length (P ++ rest))))))
    /\ linked h' (P ++ rest).
Proof.
  revert P h. induction rest as [|e rest IH]; intros P h Hl.
  { exists h. rewrite app_nil_r. by split. }
  destruct (run_link_one h P e Hl) as (h1 & Hrun & Hl1). pose proof (lk_size _ _ Hl) as Hz.
  destruct (IH (P ++ [e]) h1 Hl1) as (h' & Hrun' & Hl'). exists h'.
  rewrite <- (assoc_L (++)) in Hrun', Hl'. split; [|done].
  change (P ++ e :: rest) with (P ++ [e] ++ rest). rewrite <- Hrun'.
  rewrite matches_snoc, length_app, Nat.add_1_r, reverse_seq_S, <- Hz. cbn [link_entries head].
  destruct (en_kind e); rewrite (bind_run _ _ h (h ++ [_]) (length h)) by done;
    rewrite Hz in Hrun; rewrite Hz; by rewrite (bind_run _ _ _ _ _ Hrun).
Qed.

Lemma linked_nil : linked [] [].
Proof. split; [|done|done]. by split; [constructor|]. Qed.

(** makeLinkedEntries allocates one node per entry, the last entry first, and links
    them in the order of the entries. *)
Lemma run_makeLinkedEntries entries :
  exists h, makeLinkedEntries entries [] = (h, Ret (head (reverse (seq 0 (length entries)))))
    /\ linked h (reverse entries).
Proof.
  destruct (run_link_entries (reverse entries) [] [] linked_nil) as (h & Hrun & Hl). exists h.
  rewrite app_nil_l, length_reverse in Hrun. by split.
Qed.

(** length counts the nodes of the list. *)
Lemma run_length_loop h l pp fuel k :
  seg h pp l None -> (length l <= fuel)%nat ->
  length_loop fuel (head l) k h = (h, Ret (k + Z.of_nat (length l))).
Proof.
  revert pp fuel k. induction l as [|p l IH]; intros pp fuel k Hs Hf.
  { destruct fuel; cbn; by rewrite Z.add_0_r. }
  destruct fuel as [|fuel]; simpl in Hf; [lia|]. destruct Hs as (Hv & _ & Hn & Hs). cbn [length_loop head].
  destruct (run_load h p Hv) as (n & E & X & _). rewrite (bind_run _ _ _ _ _ E), X, Hn.
  replace (match l with [] => None | q :: _ => Some q end) with (head l) by (by destruct l).
  rewrite (IH (Some p)) by (done || lia). f_equal. f_equal. simpl length. lia.
Qed.

End Heap.
