(* ===== verification/Checker.v ===== *)
(** The linearizability checker (src/src/porcupine/checker.go): the search for one
    partition (checkSingle) and the driver (checkParallel, checkOperations,
    checkEvents).

    A Model is the Go struct; a nil function is [None], and Step may panic (it asserts
    the dynamic types of its arguments).  The loop of checkSingle runs
    with fuel, and the flag [kill] is given as its value at each iteration.  The
    goroutines of checkParallel only communicate through the channel of results, so
    the driver is a function of the order in which results arrive and of the moment
    the timer fires.  A pointer to a slice of ids in [longest] is a number that
    identifies the slice together with its contents. *)
From Stdlib Require Import ZArith Lia.
From stdpp Require Import base list numbers gmap.
From S2P Require Import Prelude Bitset KvModel Linked.

Import Bitset.

(** ** model.go *)

Record Model (I O S : Type) := mkModel
  { mo_Partition : option (list (Operation I O) -> list (list (Operation I O)));
    mo_PartitionEvent : option (list (Event (I + O)) -> list (list (Event (I + O))));
    mo_Init : S;
    mo_Step : S -> (I + O) -> (I + O) -> res (bool * S);
    mo_Equal : option (S -> S -> bool) }.
Arguments mkModel {I O S}.
Arguments mo_Partition {I O S}.
Arguments mo_PartitionEvent {I O S}.
Arguments mo_Init {I O S}.
Arguments mo_Step {I O S}.
Arguments mo_Equal {I O S}.

Definition NoPartition {A} (history : list A) : list (list A) := [history].
Definition ShallowEqual {S} `{EqDecision S} (a b : S) : bool := bool_decide (a = b).

Inductive CheckResult := Unknown | Ok | Illegal.

Section Checker.
Context {I O S : Type} `{EqDecision S}.
Abbreviation V := (I + O)%type.

Definition fillDefault (model : Model I O S) : Model I O S :=
  mkModel (Some (default NoPartition (mo_Partition model)))
    (Some (default NoPartition (mo_PartitionEvent model)))
    (mo_Init model) (mo_Step model) (Some (default ShallowEqual (mo_Equal model))).

(** Calling a function that may be nil, and using a value that may be nil. *)
Definition not_nil {A} (x : option A) : res A := match x with Some a => Ret a | None => Panic end.

(** uint(x) for an int *)
Definition uint (x : Z) : Z := x mod 2 ^ 64.

(** ** checkSingle *)

Abbreviation cacheEntry := (list Z * S)%type.
Abbreviation seqPtr := (nat * list Z)%type.

(** The local variables of checkSingle; [sr_seqs] counts the slices allocated. *)
Record Search := mkSearch
  { sr_heap : list (node V);
    sr_entry : option ptr;
    sr_state : S;
    sr_linearized : list Z;
    sr_cache : gmap Z (list cacheEntry);
    sr_calls : list (ptr * S);
    sr_longest : list (option seqPtr);
    sr_seqs : nat }.

Abbreviation SM := (M Search).

Definition set_heap (h : list (node V)) (s : Search) : Search :=
  mkSearch h (sr_entry s) (sr_state s) (sr_linearized s) (sr_cache s) (sr_calls s) (sr_longest s) (sr_seqs s).
Definition set_entry (e : option ptr) (s : Search) : Search :=
  mkSearch (sr_heap s) e (sr_state s) (sr_linearized s) (sr_cache s) (sr_calls s) (sr_longest s) (sr_seqs s).
Definition set_sstate (x : S) (s : Search) : Search :=
  mkSearch (sr_heap s) (sr_entry s) x (sr_linearized s) (sr_cache s) (sr_calls s) (sr_longest s) (sr_seqs s).
Definition set_linearized (b : list Z) (s : Search) : Search :=
  mkSearch (sr_heap s) (sr_entry s) (sr_state s) b (sr_cache s) (sr_calls s) (sr_longest s) (sr_seqs s).
Definition set_cache (c : gmap Z (list cacheEntry)) (s : Search) : Search :=
  mkSearch (sr_heap s) (sr_entry s) (sr_state s) (sr_linearized s) c (sr_calls s) (sr_longest s) (sr_seqs s).
Definition set_calls (l : list (ptr * S)) (s : Search) : Search :=
  mkSearch (sr_heap s) (sr_entry s) (sr_state s) (sr_linearized s) (sr_cache s) l (sr_longest s) (sr_seqs s).
Definition set_longest (l : list (option seqPtr)) (k : nat) (s : Search) : Search :=
  mkSearch (sr_heap s) (sr_entry s) (sr_state s) (sr_linearized s) (sr_cache s) (sr_calls s) l k.

Definition on_heap {A} (m : HM V A) : SM A :=
  fun s => let '(h, r) := m (sr_heap s) in (set_heap h s, r).

Definition cacheContains (equal : S -> S -> bool) (cache : gmap Z (list cacheEntry)) (entry : cacheEntry) : bool :=
  existsb (fun elem => equals (fst entry) (fst elem) && equal (snd entry) (snd elem))
    (default [] (cache !! hash (fst entry))).

(** The ids of the calls made so far. *)
Definition call_ids : SM (list Z) :=
  calls ← gets sr_calls;
  m_map (fun v => n ← on_heap (load (Some (fst v))); mret (nd_id n)) calls.

(** Lines 219-234: remember the calls as the longest prefix for those they improve. *)
Definition update_longest : SM unit :=
  calls ← gets sr_calls;
  seq ← call_ids;
  k ← gets sr_seqs;
  m_for calls (fun v =>
    n ← on_heap (load (Some (fst v)));
    longest ← gets sr_longest;
    old ← lift (go_idx longest (nd_id n));
    when (match old with None => true | Some p => (length (snd p) <? length calls)%nat end)
      (longest' ← lift (go_set longest (nd_id n) (Some (k, seq)));
       modify (set_longest longest' (Datatypes.S k)))).

(** Lines 195-213: try to linearize the call under the cursor. *)
Definition try_call (model : Model I O S) (headEntry : ptr) (e : node V) : SM unit :=
  matching ← on_heap (load (nd_match e));
  st ← gets sr_state;
  v ← lift (not_nil (nd_value e));
  w ← lift (not_nil (nd_value matching));
  r ← lift (mo_Step model st v w);
  let '(ok, newState) := r in
  if (ok : bool) then
    lin ← gets sr_linearized;
    newLinearized ← lift (set lin (uint (nd_id e)));
    equal ← lift (not_nil (mo_Equal model));
    cache ← gets sr_cache;
    if negb (cacheContains equal cache (newLinearized, newState)) then
      let h := hash newLinearized in
      modify (set_cache (<[h := default [] (cache !! h) ++ [(newLinearized, newState)]]> cache));;
      calls ← gets sr_calls;
      entry ← gets sr_entry;
      p ← lift (not_nil entry);
      modify (set_calls (calls ++ [(p, st)]));;
      modify (set_sstate newState);;
      lin' ← lift (set lin (uint (nd_id e)));
      modify (set_linearized lin');;
      on_heap (lift_node entry);;
      hd ← on_heap (load (Some headEntry));
      modify (set_entry (nd_next hd))
    else modify (set_entry (nd_next e))
  else modify (set_entry (nd_next e)).

(** Lines 235-241: undo the last call. *)
Definition backtrack : SM unit :=
  calls ← gets sr_calls;
  callsTop ← lift (go_idx calls (Z.of_nat (length calls) - 1));
  let entry := Some (fst callsTop) in
  modify (set_sstate (snd callsTop));;
  e ← on_heap (load entry);
  lin ← gets sr_linearized;
  lin' ← lift (clear lin (uint (nd_id e)));
  modify (set_linearized lin');;
  calls' ← lift (go_to calls (Z.of_nat (length calls) - 1));
  modify (set_calls calls');;
  on_heap (unlift_node entry);;
  e' ← on_heap (load entry);
  modify (set_entry (nd_next e')).

(** One iteration; [Some b] when checkSingle returns b. *)
Definition iteration (model : Model I O S) (computePartial : bool) (headEntry : ptr) (killed : bool)
    : SM (option bool) :=
  hd ← on_heap (load (Some headEntry));
  match nd_next hd with
  | None =>
      seq ← call_ids;
      k ← gets sr_seqs;
      longest ← gets sr_longest;
      modify (set_longest ((fun _ => Some (k, seq)) <$> longest) (Datatypes.S k));;
      mret (Some true)
  | Some _ =>
      if (killed : bool) then mret (Some false)
      else
        entry ← gets sr_entry;
        e ← on_heap (load entry);
        match nd_match e with
        | Some _ => try_call model headEntry e;; mret None
        | None =>
            calls ← gets sr_calls;
            if Nat.eqb (length calls) 0 then mret (Some false)
            else when computePartial update_longest;; backtrack;; mret None
        end
  end.

(** None: the fuel ran out. *)
Fixpoint search_loop (model : Model I O S) (computePartial : bool) (headEntry : ptr)
    (fuel : nat) (kill : nat -> bool) (i : nat) : SM (option bool) :=
  match fuel with
  | 0%nat => mret None
  | Datatypes.S fuel' =>
      r ← iteration model computePartial headEntry (kill i);
      match r with
      | Some b => mret (Some b)
      | None => search_loop model computePartial headEntry fuel' kill (Datatypes.S i)
      end
  end.

(** Lines 180-189: the list, its length and the node before it. *)
Definition setup (history : list (entry V)) : HM V (option ptr * Z * ptr) :=
  root ← makeLinkedEntries history;
  len ← length_list root;
  x ← alloc (mkNode None None (-1) None None);
  headEntry ← insertBefore x root;
  mret (root, len, headEntry).

Definition checkSingle (model : Model I O S) (history : list (entry V)) (computePartial : bool)
    (fuel : nat) (kill : nat -> bool) : res (option (bool * list (option seqPtr))) :=
  match setup history [] with
  | (h, Ret (root, len, headEntry)) =>
      let n := len ÷ 2 in
      let s := mkSearch h root (mo_Init model) (newBitset (uint n)) ∅ [] (replicate (Z.to_nat n) None) 0 in
      match search_loop model computePartial headEntry fuel kill 0 s with
      | (s', Ret (Some b)) => Ret (Some (b, sr_longest s'))
      | (_, Ret None) => Ret None
      | (_, Panic) => Panic
      end
  | (_, Panic) => Panic
  end.

(** ** checkParallel *)

(** The loop over the channel of results: [events] are the results in the order they
    arrive and the timer.  The result is [ok] and [timedOut]; None while it waits. *)
Inductive Arrival := Result (ok : bool) | Timer.

Fixpoint collect (computeInfo : bool) (partitions : nat) (events : list Arrival) (ok : bool) (count : nat)
    : option (bool * bool) :=
  match events with
  | [] => None
  | Result result :: events' =>
      let ok' := ok && result in
      if negb ok' && negb computeInfo then Some (ok', false)
      else if (partitions <=? Datatypes.S count)%nat then Some (ok', false)
      else collect computeInfo partitions events' ok' (Datatypes.S count)
  | Timer :: _ => Some (ok, true)
  end.

Definition verdict (r : bool * bool) : CheckResult :=
  let '(ok, timedOut) := r in if negb ok then Illegal else if (timedOut : bool) then Unknown else Ok.

(** Lines 320-338: the distinct slices among the longest prefixes of a partition; Go
    lists them in any order. *)
Fixpoint partials_of (seen : list nat) (longest : list (option seqPtr)) : list (list Z) :=
  match longest with
  | [] => []
  | None :: l => partials_of seen l
  | Some (p, seq) :: l => if decide (p ∈ seen) then partials_of seen l else seq :: partials_of (p :: seen) l
  end.

(** The results of the goroutines that are received before [kill] is set are those of
    checkSingle with [kill] zero.  [order] is the order in which they arrive and
    [timer] after how many of them the timer fires, if it does.  None: the fuel ran
    out or the loop still waits. *)
Definition result_of (model : Model I O S) (history : list (list (entry V))) (computeInfo : bool) (fuel : nat) (i : nat)
    : option bool :=
  match checkSingle model (default [] (history !! i)) computeInfo fuel (fun _ => false) with
  | Ret (Some (b, _)) => Some b
  | _ => None
  end.

Definition checkParallel (model : Model I O S) (history : list (list (entry V))) (computeInfo : bool)
    (fuel : nat) (order : list nat) (timer : option nat) : option CheckResult :=
  results ← mapM (result_of model history computeInfo fuel) order;
  let events := Result <$> results in
  let events := match timer with Some t => take t events ++ [Timer] | None => events end in
  verdict <$> collect computeInfo (length history) events true 0.

(** [sort] is sort.Sort for byTime. *)
Definition checkOperations (sort : list (entry V) -> list (entry V)) (model : Model I O S)
    (history : list (Operation I O)) (verbose : bool) (fuel : nat) (order : list nat) (timer : option nat)
    : res (option CheckResult) :=
  let model := fillDefault model in
  match mo_Partition model with
  | None => Panic
  | Some partition =>
      Ret (checkParallel model (makeEntries sort <$> partition history) verbose fuel order timer)
  end.

Definition checkEvents (model : Model I O S) (history : list (Event V)) (verbose : bool)
    (fuel : nat) (order : list nat) (timer : option nat) : res (option CheckResult) :=
  let model := fillDefault model in
  match mo_PartitionEvent model with
  | None => Panic
  | Some partition =>
      Ret (checkParallel model ((fun sub => convertEntries (renumber sub)) <$> partition history) verbose fuel order timer)
  end.

End Checker.
