(* ===== verification/CheckerSpec.v ===== *)
(** Linearizability of one partition, as a search tree over its entries, and the facts
    about well-formed histories that the search of checkSingle relies on. *)
From Stdlib Require Import ZArith Lia.
From stdpp Require Import base list numbers gmap.
From S2P Require Import Prelude KvModel Linked Checker.

#[export] Instance entryKind_eq_dec : EqDecision entryKind.
Proof. solve_decision. Defined.

Section Spec.
Context {V S : Type} (step : S -> V -> V -> bool * S).

Definition is_call (e : entry V) : Prop := en_kind e = callEntry.
Definition is_return (e : entry V) : Prop := en_kind e = returnEntry.

(** [ids] is an order in which the operations of the entries can take effect one by
    one from state [s]: the next operation is one whose call has no return before it,
    and the step function accepts its values. *)
Inductive linearizes : S -> list (entry V) -> list Z -> Prop :=
| lin_done s : linearizes s [] []
| lin_next s a e b m c s' ids :
    Forall is_call a -> is_call e -> is_return m -> en_id m = en_id e ->
    step s (en_value e) (en_value m) = (true, s') ->
    linearizes s' (a ++ b ++ c) ids ->
    linearizes s (a ++ e :: b ++ m :: c) (en_id e :: ids).

(** A partial linearization, up to state [s'] and entries [l']. *)
Inductive linearizes_upto : S -> list (entry V) -> list Z -> S -> list (entry V) -> Prop :=
| upto_nil s l : linearizes_upto s l [] s l
| upto_snoc s l ids s1 a e b m c s2 :
    linearizes_upto s l ids s1 (a ++ e :: b ++ m :: c) ->
    Forall is_call a -> is_call e -> is_return m -> en_id m = en_id e ->
    step s1 (en_value e) (en_value m) = (true, s2) ->
    linearizes_upto s l (ids ++ [en_id e]) s2 (a ++ b ++ c).

Lemma linearizes_from s l ids s1 l1 ids1 :
  linearizes_upto s l ids s1 l1 -> linearizes s1 l1 ids1 -> linearizes s l (ids ++ ids1).
Proof.
  intros Hu. revert ids1. induction Hu as [|s l ids s1 a e b m c s2 _ IH Ha He Hm Hid Hst]; intros ids1 Hl; [done|].
  rewrite <- (assoc_L (++)). apply IH. cbn. by eapply lin_next.
Qed.

Lemma linearizes_length s l ids : linearizes s l ids -> length l = (2 * length ids)%nat.
Proof.
  induction 1 as [|s a e b m c s' ids _ _ _ _ _ _ IH]; [done|]. rewrite !length_app in *. cbn. rewrite !length_app. cbn. lia.
Qed.

(** ** Well-formed histories *)

Definition key (e : entry V) : entryKind * Z := (en_kind e, en_id e).

(** Ids are numbers of operations, no operation has two calls or two returns, and the
    return of an operation comes after its call. *)
Record well_formed (E : list (entry V)) : Prop :=
  { wf_ids : Forall (fun e => 0 <= en_id e < Z.of_nat (length E) ÷ 2) E;
    wf_keys : NoDup (key <$> E);
    wf_match : forall x e w, E = x ++ e :: w -> is_call e ->
                 exists m, m ∈ w /\ is_return m /\ en_id m = en_id e }.

(** The entries of the operations that are not in [L]. *)
Definition remaining (E : list (entry V)) (L : list Z) : list (entry V) := filter (fun e => en_id e ∉ L) E.

Lemma remaining_nil E : remaining E [] = E.
Proof.
  unfold remaining. induction E as [|e E IH]; [done|]. rewrite filter_cons, IH.
  by rewrite decide_True by apply not_elem_of_nil.
Qed.

Lemma remaining_equiv E L L' : (forall z, z ∈ L <-> z ∈ L') -> remaining E L = remaining E L'.
Proof. intros H. apply list_filter_iff. intros e. by rewrite H. Qed.

Lemma remaining_snoc E L i : remaining E (L ++ [i]) = filter (fun e => en_id e <> i) (remaining E L).
Proof.
  unfold remaining. rewrite list_filter_filter. apply list_filter_iff. intros e.
  rewrite elem_of_app, list_elem_of_singleton. tauto.
Qed.

Lemma filter_split {A} (Q : A -> Prop) `{!forall x, Decision (Q x)} (l : list A) a e w :
  filter Q l = a ++ e :: w -> exists x y, l = x ++ e :: y /\ filter Q x = a /\ filter Q y = w.
Proof.
  revert a. induction l as [|z l IH]; intros a; [by destruct a|]. rewrite filter_cons. case_decide as Hz.
  - destruct a as [|z' a]; cbn.
    + intros [= -> <-]. by exists [], l.
    + intros [= -> Hf]. destruct (IH a Hf) as (x & y & -> & <- & <-). exists (z' :: x), y.
      split_and!; [done| |done]. by rewrite filter_cons_True.
  - intros Hf. destruct (IH a Hf) as (x & y & -> & <- & <-). exists (z :: x), y.
    split_and!; [done| |done]. by rewrite filter_cons_False.
Qed.

Lemma filter_all {A} (Q : A -> Prop) `{!forall x, Decision (Q x)} (l : list A) : Forall Q l -> filter Q l = l.
Proof. induction 1; [done|]. rewrite filter_cons_True by done. by f_equal. Qed.

Section History.
Context (E : list (entry V)) (HE : well_formed E).

Lemma remaining_keys L : NoDup (key <$> remaining E L).
Proof.
  pose proof (wf_keys E HE) as Hk. unfold remaining. clear HE. revert Hk.
  induction E as [|e l IH]; intros Hk; [done|]. rewrite filter_cons.
  apply NoDup_cons in Hk as [Hin Hk]. case_decide; [|by apply IH]. cbn. apply NoDup_cons. split; [|by apply IH].
  intros (y & Hy & [_ Hf]%list_elem_of_filter)%list_elem_of_fmap. apply Hin, list_elem_of_fmap. by exists y.
Qed.

Lemma key_unique e e' : e ∈ E -> e' ∈ E -> key e = key e' -> e = e'.
Proof.
  pose proof (wf_keys E HE) as Hk. intros [i Hi]%list_elem_of_lookup [j Hj]%list_elem_of_lookup Heq.
  assert (i = j) as ->.
  { eapply NoDup_lookup; [exact Hk| |]; rewrite list_lookup_fmap; [by rewrite Hi|rewrite Hj; cbn; by rewrite Heq]. }
  congruence.
Qed.

(** The return of a remaining call is among the entries after it. *)
Lemma remaining_match L a e w :
  remaining E L = a ++ e :: w -> is_call e ->
  exists b m c, w = b ++ m :: c /\ is_return m /\ en_id m = en_id e.
Proof.
  intros Hr Hc. pose proof Hr as (x & y & Hxy & _ & Hw)%filter_split.
  destruct (wf_match E HE x e y Hxy Hc) as (m & Hm & Hret & Hid).
  assert (Hmw : m ∈ w).
  { rewrite <- Hw. apply list_elem_of_filter. split; [|done]. rewrite Hid.
    assert (He : e ∈ remaining E L) by (rewrite Hr; apply elem_of_app; right; left).
    by apply list_elem_of_filter in He as [? _]. }
  apply list_elem_of_split in Hmw as (b & c & Hw'). by exists b, m, c.
Qed.

(** Taking an operation out. *)
Lemma remaining_take L a e b m c :
  remaining E L = a ++ e :: b ++ m :: c -> is_call e -> is_return m -> en_id m = en_id e ->
  remaining E (L ++ [en_id e]) = a ++ b ++ c.
Proof.
  intros Hr He Hm Hid. rewrite remaining_snoc, Hr. pose proof (remaining_keys L) as Hk. rewrite Hr in Hk.
  assert (Hoth : forall z, z ∈ a ++ b ++ c -> en_id z <> en_id e).
  { intros z Hz Heq. rewrite !elem_of_app in Hz.
    assert (Hkz : key z = key e \/ key z = key m).
    { unfold key, is_call, is_return in *. destruct (en_kind z); [left|right]; congruence. }
    rewrite fmap_app, fmap_cons, fmap_app, fmap_cons in Hk.
    apply NoDup_app in Hk as (_ & Hd & Hk). apply NoDup_cons in Hk as [Hne Hk].
    apply NoDup_app in Hk as (_ & Hd2 & Hk). apply NoDup_cons in Hk as [Hnm _].
    assert (Hf : forall l, z ∈ l -> key z ∈ key <$> l) by (intros l; apply list_elem_of_fmap_2).
    destruct Hz as [Hz|[Hz|Hz]]; apply Hf in Hz.
    - apply (Hd _ Hz). rewrite elem_of_cons, elem_of_app, elem_of_cons. destruct Hkz; tauto.
    - destruct Hkz as [Hkz|Hkz]; rewrite Hkz in Hz; [apply Hne, elem_of_app; tauto|].
      apply (Hd2 _ Hz). left.
    - destruct Hkz as [Hkz|Hkz]; rewrite Hkz in Hz; [|done].
      apply Hne, elem_of_app. right. by right. }
  rewrite filter_app, filter_cons_False, filter_app, filter_cons_False by (rewrite ?Hid; tauto).
  rewrite <- !filter_app. apply filter_all. apply Forall_forall. exact Hoth.
Qed.

Lemma split_unique (a a' w w' : list (entry V)) x x' :
  NoDup (key <$> (a ++ x :: w)) -> a ++ x :: w = a' ++ x' :: w' -> key x = key x' -> a = a' /\ x = x' /\ w = w'.
Proof.
  revert a'. induction a as [|y a IH]; intros [|y' a'] Hnd Heq Hk; cbn in *; injection Heq as Hy Hw; subst.
  - done.
  - apply NoDup_cons in Hnd as [[] _]. rewrite Hk. apply list_elem_of_fmap_2, elem_of_app. right. left.
  - apply NoDup_cons in Hnd as [[] _]. rewrite <- Hk. apply list_elem_of_fmap_2, elem_of_app. right. left.
  - apply NoDup_cons in Hnd as [_ Hnd]. by destruct (IH a' Hnd Hw Hk) as (-> & -> & ->).
Qed.

(** A linearization that starts with a given operation. *)
Lemma lin_first L s a e b m c ids :
  remaining E L = a ++ e :: b ++ m :: c -> is_call e -> is_return m -> en_id m = en_id e ->
  linearizes s (remaining E L) (en_id e :: ids) ->
  exists s', step s (en_value e) (en_value m) = (true, s') /\ linearizes s' (remaining E (L ++ [en_id e])) ids.
Proof.
  intros Hr He Hm Hid Hl. pose proof (remaining_keys L) as Hk. rewrite (remaining_take L a e b m c) by done.
  rewrite Hr in Hk, Hl. inversion Hl as [|? a0 e0 b0 m0 c0 s' ? Ha He0 Hm0 Hid0 Hst Hl' Heq1 Heq2].
  destruct (split_unique a a0 (b ++ m :: c) (b0 ++ m0 :: c0) e e0) as (-> & -> & Hw); [done|done|by unfold key, is_call in *; congruence|].
  assert (Hk2 : NoDup (key <$> (b ++ m :: c))).
  { rewrite fmap_app, fmap_cons in Hk. apply NoDup_app in Hk as (_ & _ & Hk). by apply NoDup_cons in Hk as [_ Hk]. }
  destruct (split_unique b b0 c c0 m m0) as (-> & -> & ->); [done|done|by unfold key, is_return in *; congruence|].
  by exists s'.
Qed.

(** A linearization starts with a call that no return precedes. *)
Lemma lin_starts s a r c ids :
  Forall is_call a -> is_return r -> linearizes s (a ++ r :: c) ids ->
  exists e ids', e ∈ a /\ ids = en_id e :: ids'.
Proof.
  intros Ha Hr Hl. remember (a ++ r :: c) as l eqn:Heq. destruct Hl as [|s a0 e0 b0 m0 c0 s' ids' Ha0 He0]; [by destruct a|].
  exists e0, ids'. split; [|done]. clear - Ha0 He0 Hr Heq. unfold is_call, is_return in *.
  revert a Heq. induction Ha0 as [|x a0 Hx _ IH]; intros [|y a] Heq; cbn in *; injection Heq as Hy Heq; subst.
  - congruence.
  - left.
  - congruence.
  - right. by apply IH.
Qed.

End History.
End Spec.
