(* ===== verification/CheckerProof.v ===== *)
(** checkSingle explores the search tree of [linearizes]: with enough fuel it returns
    true exactly when the history has a linearization, and what it reports as longest
    prefixes are partial linearizations. *)
From Stdlib Require Import ZArith Lia.
From stdpp Require Import base list numbers gmap relations.
From S2P Require Import Prelude Bitset KvModel Linked Checker CheckerSpec.

Import Bitset.

(** ** Pointers and entries *)

Section Pointers.
Context {V : Type}.
Implicit Types e m : entry V.

Lemma matches_last (A : list (entry V)) m B :
  is_return m -> (forall e, e ∈ B -> is_return e -> en_id e <> en_id m) ->
  matches (A ++ m :: B) !! en_id m = Some (length A).
Proof.
  intros Hm. induction B as [|e B IH] using rev_ind; intros HB.
  - rewrite matches_snoc, Hm. apply lookup_insert_eq.
  - rewrite app_comm_cons, (assoc_L (++)), matches_snoc.
    assert (IH' : matches (A ++ m :: B) !! en_id m = Some (length A)).
    { apply IH. intros e' He'. apply HB, elem_of_app. by left. }
    destruct (en_kind e) eqn:Hk; [done|]. rewrite lookup_insert_ne; [done|].
    apply HB; [|done]. apply elem_of_app. right. left.
Qed.

Context (E : list (entry V)) (HE : well_formed E).
Abbreviation P := (reverse E).

Lemma ptr_unique q r e e' : P !! q = Some e -> P !! r = Some e' -> key e = key e' -> q = r.
Proof.
  intros Hq Hr Hk. assert (Hnd : NoDup (key <$> P)) by (rewrite reverse_Permutation; apply (wf_keys E HE)).
  eapply NoDup_lookup; [exact Hnd| |]; rewrite list_lookup_fmap; [by rewrite Hq|rewrite Hr; cbn; by rewrite Hk].
Qed.

(** A call node points to the node of its return. *)
Lemma match_pointer q e r m :
  P !! q = Some e -> is_call e -> P !! r = Some m -> is_return m -> en_id m = en_id e ->
  matches (take q P) !! en_id e = Some r.
Proof.
  intros Hq He Hr Hm Hid.
  assert (Hin : e ∈ E) by (apply elem_of_reverse; by eapply list_elem_of_lookup_2).
  apply list_elem_of_split in Hin as (x & w & HxE).
  destruct (wf_match E HE x e w HxE He) as (m' & Hw & Hm' & Hid').
  assert (m' = m) as ->.
  { apply (key_unique E HE); [rewrite HxE; apply elem_of_app; right; by right| |unfold key; congruence].
    apply elem_of_reverse. by eapply list_elem_of_lookup_2. }
  apply list_elem_of_split in Hw as (y & z & ->).
  assert (HP : P = (reverse z ++ m :: reverse y) ++ e :: reverse x).
  { rewrite HxE. rewrite reverse_app, reverse_cons, reverse_app, reverse_cons. by list_simplifier. }
  assert (q = length (reverse z ++ m :: reverse y)) as ->.
  { eapply (ptr_unique _ _ e e); [done| |done]. rewrite HP. by apply list_lookup_middle. }
  assert (r = length (reverse z)) as ->.
  { eapply (ptr_unique _ _ m m); [done| |done]. rewrite HP, <- (assoc_L (++)). by apply list_lookup_middle. }
  rewrite HP, take_app_length, <- Hid. apply matches_last; [done|].
  intros e' He' Hret Hk. pose proof (wf_keys E HE) as Hnd. rewrite HxE in Hnd.
  rewrite fmap_app, fmap_cons, fmap_app, fmap_cons in Hnd.
  apply NoDup_app in Hnd as (_ & _ & Hnd). apply NoDup_cons in Hnd as [_ Hnd].
  apply NoDup_app in Hnd as (_ & Hd & _). apply (Hd (key m)); [|left].
  apply list_elem_of_fmap. exists e'. split; [|by apply elem_of_reverse]. unfold key, is_return in *. congruence.
Qed.

End Pointers.

(** ** The state of the search *)

Section Search.
Context {I O S : Type} `{EqDecision S} (model : Model I O S) (equal : S -> S -> bool).
Abbreviation V := (I + O)%type.
Context (step : S -> V -> V -> bool * S).
Abbreviation SearchState := (Search (I:=I) (O:=O) (S:=S)).
Context (Hequal : mo_Equal model = Some equal).
Context (Hbisim : forall s t v w, equal s t = true ->
  fst (step s v w) = fst (step t v w)
  /\ (fst (step s v w) = true -> equal (snd (step s v w)) (snd (step t v w)) = true)).
Context (E : list (entry V)) (HE : well_formed E).
Context (Hstep : forall e m st, e ∈ E -> m ∈ E -> is_call e -> is_return m ->
  mo_Step model st (en_value e) (en_value m) = Ret (step st (en_value e) (en_value m))).
Context (Hlen : Z.of_nat (length E) < 2 ^ 63).
Abbreviation P := (reverse E).
Abbreviation N := (length E).
Definition nops : Z := Z.of_nat (length E) ÷ 2.
Definition words : nat := length (newBitset (uint nops)).

Definition points (q : ptr) (e : entry V) : Prop := P !! q = Some e.

Record inv (s : SearchState) (L : list Z) (rem : list ptr) : Prop :=
  { iv_chain : chain (sr_heap s) (N :: rem);
    iv_rem : Forall2 points rem (remaining E L);
    iv_info : forall q e, points q e -> static_of (sr_heap s) q = Some (node_info P q e);
    iv_wf : wf (sr_linearized s) /\ length (sr_linearized s) = words;
    iv_members : forall z, z ∈ members (sr_linearized s) <-> z ∈ L;
    iv_nodup : NoDup L;
    iv_calls : Forall2 (fun c i => exists e, points (fst c) e /\ en_id e = i) (sr_calls s) L;
    iv_path : linearizes_upto step (mo_Init model) E L (sr_state s) (remaining E L) }.

(** What [longest] may hold. *)
Definition longest_ok (l : list (option (nat * list Z))) : Prop :=
  length l = Z.to_nat nops
  /\ forall i k seq, l !! i = Some (Some (k, seq)) ->
       Z.of_nat i ∈ seq /\ exists s' l', linearizes_upto step (mo_Init model) E seq s' l'.

Definition dead (s : S) (L : list Z) : Prop := forall ids, ~ linearizes step s (remaining E L) ids.

Definition cached (cache : gmap Z (list (list Z * S))) (b : list Z) (s : S) : Prop :=
  exists h l, cache !! h = Some l /\ (b, s) ∈ l.

(** What is cached and bigger than the current prefix has been explored in vain. *)
Definition cache_good (d : nat) (cache : gmap Z (list (list Z * S))) : Prop :=
  forall b s, cached cache b s -> wf b /\ length b = words
    /\ ((d < length (members b))%nat -> dead s (members b)).

Definition istep (cp : bool) (s s' : SearchState) : Prop := iteration model cp N false s = (s', Ret None).

(** ** Facts *)

Lemma nops_range : 0 <= nops < 2 ^ 63.
Proof. unfold nops. split; [apply Z.quot_pos; lia|]. pose proof (Z.quot_le_upper_bound (Z.of_nat N) 2 (Z.of_nat N)). lia. Qed.

Lemma uint_id x : 0 <= x < 2 ^ 63 -> uint x = x.
Proof. intros Hx. unfold uint. apply Z.mod_small. lia. Qed.

Lemma id_range e : e ∈ E -> 0 <= en_id e < nops.
Proof. intros He. pose proof (wf_ids E HE) as Hi. rewrite Forall_forall in Hi. by apply Hi. Qed.

Lemma words_cover x : 0 <= x < nops -> 0 <= x < 64 * Z.of_nat words.
Proof.
  intros Hx. pose proof nops_range. unfold words. rewrite uint_id by lia. unfold newBitset. rewrite length_replicate.
  pose proof (Z.div_mod nops 64 ltac:(lia)). pose proof (Z.mod_pos_bound nops 64 ltac:(lia)).
  pose proof (Z.div_pos nops 64 ltac:(lia) ltac:(lia)). destruct (Z.eqb_spec (nops mod 64) 0); lia.
Qed.

Lemma points_in q e : points q e -> e ∈ E.
Proof. intros Hq. apply elem_of_reverse. by eapply list_elem_of_lookup_2. Qed.

Lemma NoDup_members b : NoDup (members b).
Proof. unfold members. apply NoDup_filter, NoDup_seqZ. Qed.

Lemma members_length b L : NoDup L -> (forall z, z ∈ members b <-> z ∈ L) -> length (members b) = length L.
Proof. intros HL Hm. apply Permutation_length, NoDup_Permutation; [apply NoDup_members|done|done]. Qed.

Lemma equal_simulates s t l ids : equal s t = true -> linearizes step s l ids -> linearizes step t l ids.
Proof.
  intros Heq Hl. revert t Heq. induction Hl as [s|s a e b m c s' ids Ha He Hm Hid Hst Hl IH]; intros t Heq; [constructor|].
  destruct (Hbisim s t (en_value e) (en_value m) Heq) as [H1 H2]. rewrite Hst in H1, H2. cbn in *.
  destruct (step t (en_value e) (en_value m)) as [ok t'] eqn:Ht. cbn in *. subst ok.
  eapply lin_next; try done. by apply IH, H2.
Qed.

Lemma set_heap_id (s : SearchState) : set_heap (sr_heap s) s = s.
Proof. by destruct s. Qed.

Lemma run_on_heap_load (s : SearchState) p :
  valid (sr_heap s) p ->
  exists n, on_heap (load (Some p)) s = (s, Ret n) /\ nd_next n = next_of (sr_heap s) p
    /\ static_of (sr_heap s) p = Some (nd_value n, nd_match n, nd_id n).
Proof.
  intros Hv. destruct (run_load _ _ Hv) as (n & En & Hn & _ & Hs). exists n. unfold on_heap. rewrite En.
  split; [by rewrite set_heap_id|done].
Qed.

Lemma inv_valid s L rem q : inv s L rem -> q ∈ N :: rem -> valid (sr_heap s) q.
Proof. intros Hi Hq. destruct (iv_chain _ _ _ Hi) as [_ Hs]. by eapply (seg_valid _ _ _ _ _ Hs). Qed.

(** Nodes outside the list keep their place in memory. *)
Lemma info_valid s L rem q e : inv s L rem -> points q e -> valid (sr_heap s) q.
Proof.
  intros Hi Hq. pose proof (iv_info _ _ _ Hi q e Hq) as Hs. unfold static_of in Hs.
  unfold valid. by destruct (sr_heap s !! q).
Qed.

Lemma inv_next s L pre q suf : inv s L (pre ++ q :: suf) -> next_of (sr_heap s) q = head suf.
Proof.
  intros Hi. pose proof (iv_chain _ _ _ Hi) as Hc. rewrite app_comm_cons in Hc.
  by apply chain_at in Hc as (_ & _ & ?).
Qed.

Lemma inv_head s L rem : inv s L rem -> next_of (sr_heap s) N = head rem.
Proof. intros Hi. by destruct (chain_at _ [] N rem (iv_chain _ _ _ Hi)) as (_ & _ & ?). Qed.

(** ** One iteration *)

Lemma iter_start cp s L rem q n :
  inv s L rem -> q ∈ rem -> sr_entry s = Some q -> on_heap (load (Some q)) s = (s, Ret n) ->
  iteration model cp N false s
  = (match nd_match n with
     | Some _ => try_call model N n;; mret None
     | None =>
         calls ← gets sr_calls;
         if Nat.eqb (length calls) 0 then mret (Some false)
         else when cp update_longest;; backtrack;; mret None
     end) s.
Proof.
  intros Hi Hq Hen Hn. unfold iteration.
  destruct (run_on_heap_load s N) as (hd & Eh & Hh & _); [apply (inv_valid s L rem); [done|left]|].
  rewrite (bind_run _ _ _ _ _ Eh), Hh, (inv_head s L rem Hi).
  destruct rem as [|x rem]; [by apply elem_of_nil in Hq|]. cbn [head].
  rewrite (bind_run _ _ s s (sr_entry s)) by done. rewrite Hen. by rewrite (bind_run _ _ _ _ _ Hn).
Qed.

(** The ids of the calls, read back from the nodes. *)
Lemma load_call s L rem q e :
  inv s L rem -> points q e ->
  exists n, on_heap (load (Some q)) s = (s, Ret n) /\ nd_next n = next_of (sr_heap s) q
    /\ (nd_value n, nd_match n, nd_id n) = node_info P q e.
Proof.
  intros Hi Hq. destruct (run_on_heap_load s q) as (n & En & Hn & Hs); [by eapply (info_valid s L rem)|].
  exists n. rewrite (iv_info _ _ _ Hi _ _ Hq) in Hs. split_and!; [done|done|congruence].
Qed.

Lemma run_call_ids s L rem : inv s L rem -> call_ids s = (s, Ret L).
Proof.
  intros Hi. unfold call_ids. rewrite (bind_run _ _ s s (sr_calls s)) by done.
  pose proof (iv_calls _ _ _ Hi) as Hc. revert Hc. generalize (sr_calls s) at 1 2. generalize L at 1 2.
  intros L0 cs Hc. induction Hc as [|c i cs js Hx _ IH]; [done|].
  destruct Hx as (e & He & <-). cbn [m_map]. destruct (load_call s L rem _ _ Hi He) as (n & En & _ & Hs).
  injection Hs as _ _ Hid. rewrite (bind_run _ _ s s (nd_id n)) by (by rewrite (bind_run _ _ _ _ _ En)).
  rewrite (bind_run _ _ _ _ _ IH). by rewrite Hid.
Qed.

Lemma iter_done cp s L :
  inv s L [] -> longest_ok (sr_longest s) ->
  exists s' k, iteration model cp N false s = (s', Ret (Some true))
    /\ sr_longest s' = replicate (Z.to_nat nops) (Some (k, L)).
Proof.
  intros Hi [Hz _]. unfold iteration.
  destruct (run_on_heap_load s N) as (hd & Eh & Hh & _); [apply (inv_valid s L []); [done|left]|].
  rewrite (bind_run _ _ _ _ _ Eh), Hh, (inv_head s L [] Hi). cbn [head].
  rewrite (bind_run _ _ _ _ _ (run_call_ids s L [] Hi)). eexists _, (sr_seqs s). split; [done|]. cbn.
  rewrite <- Hz. by apply const_fmap.
Qed.

Lemma run_update_longest s L rem :
  inv s L rem -> longest_ok (sr_longest s) ->
  exists l k, update_longest s = (set_longest l k s, Ret tt) /\ longest_ok l.
Proof.
  intros Hi Hok. unfold update_longest. rewrite (bind_run _ _ s s (sr_calls s)) by done.
  rewrite (bind_run _ _ _ _ _ (run_call_ids s L rem Hi)), (bind_run _ _ s s (sr_seqs s)) by done.
  set (Inv := fun (_ : list (ptr * S)) (s' : SearchState) => exists l k, s' = set_longest l k s /\ longest_ok l).
  match goal with |- exists l k, m_for ?xs ?body s = _ /\ _ => assert (Hwp : wp (m_for xs body) (fun _ => Inv xs) s) end.
  - apply wp_m_for.
    + exists (sr_longest s), (sr_seqs s). split; [by destruct s|done].
    + intros l1 c l2 s' Hcs (l & k & -> & Hl). set (s1 := set_longest l k s).
      assert (Hi1 : inv s1 L rem) by (by destruct Hi).
      pose proof (iv_calls _ _ _ Hi) as Hc. rewrite Hcs in Hc. apply Forall2_app_inv_l in Hc as (j1 & j2 & Hc1 & Hc2 & HL).
      apply Forall2_cons_inv_l in Hc2 as (i & j3 & (e & He & Hid) & _ & ->).
      destruct (load_call s1 L rem _ _ Hi1 He) as (n & En & _ & Hs). injection Hs as _ _ Hn.
      assert (Hr : 0 <= en_id e < Z.of_nat (length l)).
      { destruct Hl as [-> _]. pose proof (id_range e (points_in _ _ He)). pose proof nops_range. lia. }
      rewrite wp_bind. eapply wp_intro; [exact En|]. rewrite wp_bind, wp_gets, Hn. cbn [sr_longest s1 set_longest].
      destruct (go_idx_ok l (en_id e) Hr) as [old Hold]. rewrite Hold, wp_bind, wp_lift.
      apply wp_when; intros _; [|by exists l, k].
      rewrite (go_set_ok l (en_id e) _ Hr), wp_bind, wp_lift, wp_modify. eexists _, _. split; [done|].
      split; [rewrite length_insert; apply Hl|]. intros i' k' seq Hlk.
      apply list_lookup_insert_Some in Hlk as [(<- & [= <- <-] & _)|(_ & Hlk)]; [|by apply Hl in Hlk].
      rewrite Z2Nat.id by lia. split; [|by exists (sr_state s), (remaining E L); apply Hi].
      rewrite HL, <- Hid. apply elem_of_app. right. left.
  - destruct (wp_run _ _ _ Hwp) as (s' & [] & Hrun & (l & k & -> & Hl)). exists l, k. by split.
Qed.

(** A call under the cursor: the entries of the remaining list around it, and the node
    of its return. *)
Record at_call (s : SearchState) (L : list Z) (pre : list ptr) (q : ptr) (e : entry V) (b : list ptr) (r : ptr)
    (m : entry V) (c : list ptr) (pre' b' c' : list (entry V)) : Prop :=
  { ac_inv : inv s L (pre ++ q :: b ++ r :: c);
    ac_rem : remaining E L = pre' ++ e :: b' ++ m :: c';
    ac_pre : Forall2 points pre pre';
    ac_q : points q e;
    ac_b : Forall2 points b b';
    ac_r : points r m;
    ac_c : Forall2 points c c';
    ac_call : is_call e;
    ac_ret : is_return m;
    ac_id : en_id m = en_id e }.

Lemma call_under_cursor s L pre q suf e :
  inv s L (pre ++ q :: suf) -> points q e -> is_call e ->
  exists b r m c pre' b' c', suf = b ++ r :: c /\ at_call s L pre q e b r m c pre' b' c'.
Proof.
  intros Hi Hq He. pose proof (iv_rem _ _ _ Hi) as Hr.
  apply Forall2_app_inv_l in Hr as (pre' & x & Hpre & Hx & Hrem).
  apply Forall2_cons_inv_l in Hx as (e' & suf' & Hq' & Hsuf & ->).
  assert (e' = e) as -> by (unfold points in *; congruence).
  destruct (remaining_match E HE L pre' e suf' Hrem He) as (b' & m & c' & -> & Hm & Hid).
  apply Forall2_app_inv_r in Hsuf as (b & y & Hb & Hy & ->).
  apply Forall2_cons_inv_r in Hy as (r & c & Hrm & Hc & ->).
  exists b, r, m, c, pre', b', c'. by split.
Qed.

Section Call.
Context (s : SearchState) (L : list Z) (pre : list ptr) (q : ptr) (e : entry V) (b : list ptr) (r : ptr)
  (m : entry V) (c : list ptr) (pre' b' c' : list (entry V)).
Context (Hat : at_call s L pre q e b r m c pre' b' c').

Lemma call_fresh : en_id e ∉ L.
Proof.
  assert (He : e ∈ remaining E L) by (rewrite (ac_rem _ _ _ _ _ _ _ _ _ _ _ _ Hat); apply elem_of_app; right; left).
  by apply list_elem_of_filter in He as [? _].
Qed.

Lemma call_info : node_info P q e = (Some (en_value e), Some r, en_id e).
Proof.
  destruct Hat as [_ _ _ Hq _ Hr _ Hc Hm Hid]. unfold node_info. rewrite Hc.
  by rewrite (match_pointer E HE q e r m).
Qed.

Lemma return_info : node_info P r m = (Some (en_value m), None, en_id m).
Proof. destruct Hat as [_ _ _ _ _ _ _ _ Hm _]. unfold node_info. by rewrite Hm. Qed.

Lemma id_capacity : 0 <= en_id e < capacity (sr_linearized s).
Proof.
  destruct Hat as [Hi _ _ Hq _ _ _ _ _ _]. unfold capacity. destruct (iv_wf _ _ _ Hi) as [_ ->].
  apply words_cover, id_range. by eapply points_in.
Qed.

Lemma uint_call : uint (en_id e) = en_id e.
Proof.
  destruct Hat as [_ _ _ Hq _ _ _ _ _ _]. pose proof (id_range e (points_in _ _ Hq)). pose proof nops_range.
  apply uint_id. lia.
Qed.

(** The bit of the call. *)
Lemma mark_call :
  exists lin, set (sr_linearized s) (uint (en_id e)) = Ret lin
    /\ wf lin /\ length lin = words /\ (forall z, z ∈ members lin <-> z ∈ L ++ [en_id e])
    /\ clear lin (uint (en_id e)) = Ret (sr_linearized s).
Proof.
  rewrite uint_call. pose proof (ac_inv _ _ _ _ _ _ _ _ _ _ _ _ Hat) as Hi. destruct (iv_wf _ _ _ Hi) as [Hw Hl].
  destruct (set_then_clear (sr_linearized s) (en_id e) Hw id_capacity) as (lin & H1 & H2 & H3 & H4 & H5).
  { rewrite (iv_members _ _ _ Hi). apply call_fresh. }
  exists lin. split_and!; [done|done|congruence| |done]. intros z. rewrite H4, elem_of_app, list_elem_of_singleton.
  rewrite (iv_members _ _ _ Hi). tauto.
Qed.

(** After the call is linearized. *)
Definition pushed (h : list (node V)) (lin : list Z) (st : S) : SearchState :=
  mkSearch h (head (pre ++ b ++ c)) st lin
    (<[hash lin := default [] (sr_cache s !! hash lin) ++ [(lin, st)]]> (sr_cache s))
    (sr_calls s ++ [(q, sr_state s)]) (sr_longest s) (sr_seqs s).

Lemma lift_call :
  exists h, lift_node (Some q) (sr_heap s) = (h, Ret tt) /\ chain h (N :: pre ++ b ++ c)
    /\ (forall p, static_of h p = static_of (sr_heap s) p) /\ unlift_node (Some q) h = (sr_heap s, Ret tt).
Proof.
  pose proof Hat as [Hi _ _ Hq _ _ _ _ _ _]. destruct (snoc_of_app [] pre N) as (a & p & Hap). cbn in Hap.
  pose proof (iv_chain _ _ _ Hi) as Hc. rewrite app_comm_cons, Hap in Hc.
  pose proof (iv_info _ _ _ Hi q e Hq) as Hs. rewrite call_info in Hs.
  destruct (run_lift _ _ _ _ _ _ _ _ _ Hc Hs) as (h & H1 & H2 & H3 & H4).
  exists h. rewrite <- Hap in H2. by split_and!.
Qed.

Lemma run_try_call n lin h :
  nd_value n = Some (en_value e) -> nd_match n = Some r -> nd_id n = en_id e -> nd_next n = head (b ++ r :: c) ->
  sr_entry s = Some q -> set (sr_linearized s) (uint (en_id e)) = Ret lin ->
  lift_node (Some q) (sr_heap s) = (h, Ret tt) -> chain h (N :: pre ++ b ++ c) ->
  try_call model N n s
  = let '(ok, st) := step (sr_state s) (en_value e) (en_value m) in
    if ok && negb (cacheContains equal (sr_cache s) (lin, st)) then (pushed h lin st, Ret tt)
    else (set_entry (head (b ++ r :: c)) s, Ret tt).
Proof.
  intros Hv Hm Hid Hnx Hen Hset Hlift Hchain. pose proof Hat as [Hi _ _ Hq _ Hr _ Hcall Hret _].
  destruct (load_call s L _ r m Hi Hr) as (n2 & En2 & _ & Hinfo2). rewrite return_info in Hinfo2. injection Hinfo2 as Hv2 _ _.
  unfold try_call. rewrite Hm, (bind_run _ _ _ _ _ En2), Hv, Hv2, Hid, Hnx.
  rewrite (bind_run _ _ s s (sr_state s)), (bind_run _ _ s s (en_value e)), (bind_run _ _ s s (en_value m)) by done.
  rewrite Hstep by (done || by eapply points_in). rewrite (bind_run _ _ s s (step (sr_state s) (en_value e) (en_value m))) by done.
  destruct (step (sr_state s) (en_value e) (en_value m)) as [[] st]; [|done].
  rewrite (bind_run _ _ s s (sr_linearized s)) by done. rewrite Hset, Hequal.
  rewrite (bind_run _ _ s s lin), (bind_run _ _ s s equal), (bind_run _ _ s s (sr_cache s)) by done.
  destruct (cacheContains equal (sr_cache s) (lin, st)); [done|]. cbn [negb andb].
  unfold on_heap. m_exec. unfold not_nil. rewrite Hen. cbn. rewrite Hlift. cbn.
  destruct (chain_at h [] N _ Hchain) as ([hd Hhd] & _ & Hh). unfold next_of in Hh. rewrite Hhd in *. cbn in *.
  by rewrite Hh.
Qed.

Lemma iter_call cp lin :
  sr_entry s = Some q -> set (sr_linearized s) (uint (en_id e)) = Ret lin ->
  let '(ok, st) := step (sr_state s) (en_value e) (en_value m) in
  if ok && negb (cacheContains equal (sr_cache s) (lin, st)) then
    exists h, chain h (N :: pre ++ b ++ c) /\ (forall p, static_of h p = static_of (sr_heap s) p)
      /\ unlift_node (Some q) h = (sr_heap s, Ret tt) /\ istep cp s (pushed h lin st)
  else istep cp s (set_entry (head (b ++ r :: c)) s).
Proof.
  intros Hen Hset. pose proof Hat as [Hi _ _ Hq _ _ _ _ _ _].
  destruct (load_call s L _ q e Hi Hq) as (n & En & Hnx & Hinfo). rewrite call_info in Hinfo. injection Hinfo as Hv Hm Hid.
  rewrite (inv_next s L pre q (b ++ r :: c) Hi) in Hnx.
  destruct lift_call as (h & Hlift & Hchain & Hstat & Hun).
  pose proof (run_try_call n lin h Hv Hm Hid Hnx Hen Hset Hlift Hchain) as Htry.
  assert (Hstart : forall s', try_call model N n s = (s', Ret tt) -> istep cp s s').
  { intros s' H'. unfold istep.
    rewrite (iter_start cp s L _ q n Hi) by (done || (apply elem_of_app; right; left)).
    rewrite Hm. by rewrite (bind_run _ _ _ _ _ H'). }
  destruct (step (sr_state s) (en_value e) (en_value m)) as [ok st].
  destruct (ok && negb _); [|by apply Hstart]. exists h. split_and!; [done..|]. by apply Hstart.
Qed.

Lemma pushed_inv h lin st :
  step (sr_state s) (en_value e) (en_value m) = (true, st) -> Forall is_call pre' ->
  wf lin -> length lin = words -> (forall z, z ∈ members lin <-> z ∈ L ++ [en_id e]) ->
  chain h (N :: pre ++ b ++ c) -> (forall p, static_of h p = static_of (sr_heap s) p) ->
  inv (pushed h lin st) (L ++ [en_id e]) (pre ++ b ++ c).
Proof.
  intros Hst Hpre Hw Hl Hm Hc Hs. pose proof Hat as [Hi Hrem Fp Fq Fb Fr Fc Hcall Hret Hid].
  assert (Hrem' : remaining E (L ++ [en_id e]) = pre' ++ b' ++ c') by (by apply (remaining_take E HE L _ _ _ m)).
  split; cbn.
  - done.
  - rewrite Hrem'. apply Forall2_app; [done|by apply Forall2_app].
  - intros q0 e0 Hq0. rewrite Hs. by apply (iv_info _ _ _ Hi).
  - done.
  - done.
  - apply NoDup_app. split_and!; [apply Hi| |apply NoDup_singleton].
    intros z Hz ->%list_elem_of_singleton. by apply call_fresh.
  - apply Forall2_app; [apply Hi|]. repeat constructor. by exists e.
  - rewrite Hrem'. eapply upto_snoc; try done. rewrite <- Hrem. apply Hi.
Qed.

(** The state in which the search comes back to the call. *)
Definition popped (cache : gmap Z (list (list Z * S))) (l : list (option (nat * list Z))) (k : nat) : SearchState :=
  mkSearch (sr_heap s) (head (b ++ r :: c)) (sr_state s) (sr_linearized s) cache (sr_calls s) l k.

Lemma run_backtrack s2 L2 rem2 :
  inv s2 L2 rem2 -> unlift_node (Some q) (sr_heap s2) = (sr_heap s, Ret tt) ->
  sr_calls s2 = sr_calls s ++ [(q, sr_state s)] -> clear (sr_linearized s2) (uint (en_id e)) = Ret (sr_linearized s) ->
  backtrack s2 = (popped (sr_cache s2) (sr_longest s2) (sr_seqs s2), Ret tt).
Proof.
  intros Hi2 Hun Hcalls Hclear. pose proof Hat as [Hi _ _ Hq _ _ _ _ _ _].
  unfold backtrack. rewrite (bind_run _ _ s2 s2 (sr_calls s2)), Hcalls by done.
  assert (Hlast : go_idx (sr_calls s ++ [(q, sr_state s)]) (Z.of_nat (length (sr_calls s ++ [(q, sr_state s)])) - 1)
                  = Ret (q, sr_state s)).
  { apply go_idx_lookup. rewrite length_app. cbn. split; [lia|].
    replace (Z.to_nat _) with (length (sr_calls s)) by lia. by apply list_lookup_middle. }
  rewrite Hlast, (bind_run _ _ s2 s2 (q, sr_state s)) by done. cbn [fst snd].
  rewrite (bind_run _ _ s2 (set_sstate (sr_state s) s2) tt) by done. set (s3 := set_sstate (sr_state s) s2).
  destruct (run_on_heap_load s3 q) as (n & En3 & _ & Hs); [by eapply (info_valid s2 L2 rem2 q e Hi2)|].
  cbn [s3 set_sstate sr_heap] in Hs. rewrite (iv_info _ _ _ Hi2 q e Hq), call_info in Hs. injection Hs as _ _ Hid.
  rewrite (bind_run _ _ _ _ _ En3), <- Hid, (bind_run _ _ s3 s3 (sr_linearized s2)) by done. rewrite Hclear.
  rewrite (bind_run _ _ s3 s3 (sr_linearized s)) by done.
  rewrite (bind_run _ _ s3 (set_linearized (sr_linearized s) s3) tt) by done. set (s4 := set_linearized _ s3).
  assert (Hto : go_to (sr_calls s ++ [(q, sr_state s)]) (Z.of_nat (length (sr_calls s ++ [(q, sr_state s)])) - 1)
                = Ret (sr_calls s)).
  { rewrite go_to_ok by (rewrite length_app; cbn; lia). f_equal. rewrite length_app. cbn.
    replace (Z.to_nat _) with (length (sr_calls s)) by lia. apply take_app_length. }
  rewrite Hto, (bind_run _ _ s4 s4 (sr_calls s)) by done.
  rewrite (bind_run _ _ s4 (set_calls (sr_calls s) s4) tt) by done. set (s5 := set_calls _ s4).
  rewrite (bind_run _ _ s5 (set_heap (sr_heap s) s5) tt) by (unfold on_heap; cbn; by rewrite Hun).
  set (s6 := set_heap _ s5).
  destruct (run_on_heap_load s6 q) as (n6 & E6 & Hn6 & _); [by eapply (info_valid s L _ q e Hi)|].
  rewrite (bind_run _ _ _ _ _ E6), Hn6. cbn [s6 sr_heap set_heap]. by rewrite (inv_next s L pre q (b ++ r :: c) Hi).
Qed.

Lemma iter_back cp s2 L2 rem2 r2 m2 :
  inv s2 L2 rem2 -> longest_ok (sr_longest s2) -> r2 ∈ rem2 -> points r2 m2 -> is_return m2 -> sr_entry s2 = Some r2 ->
  unlift_node (Some q) (sr_heap s2) = (sr_heap s, Ret tt) ->
  sr_calls s2 = sr_calls s ++ [(q, sr_state s)] -> clear (sr_linearized s2) (uint (en_id e)) = Ret (sr_linearized s) ->
  exists l k, longest_ok l /\ istep cp s2 (popped (sr_cache s2) l k).
Proof.
  intros Hi2 Hlo Hr2 Hp2 Hm2 Hen Hun Hcalls Hclear.
  destruct (load_call s2 L2 rem2 r2 m2 Hi2 Hp2) as (n & En & _ & Hinfo).
  assert (Hnm : nd_match n = None) by (unfold node_info in Hinfo; rewrite Hm2 in Hinfo; by injection Hinfo).
  assert (Hstart : iteration model cp N false s2 = (when cp update_longest;; backtrack;; mret None) s2).
  { rewrite (iter_start cp s2 L2 rem2 r2 n Hi2 Hr2 Hen En), Hnm.
    rewrite (bind_run _ _ s2 s2 (sr_calls s2)) by done. rewrite Hcalls, length_app. cbn.
    by rewrite Nat.add_1_r. }
  assert (Hup : exists l k, when cp update_longest s2 = (set_longest l k s2, Ret tt) /\ longest_ok l).
  { destruct cp; [by eapply run_update_longest|]. exists (sr_longest s2), (sr_seqs s2). split; [by destruct s2|done]. }
  destruct Hup as (l & k & Hup & Hl). exists l, k. split; [done|]. unfold istep. rewrite Hstart.
  rewrite (bind_run _ _ _ _ _ Hup).
  assert (Hi3 : inv (set_longest l k s2) L2 rem2) by (by destruct Hi2).
  by rewrite (bind_run _ _ _ _ _ (run_backtrack (set_longest l k s2) L2 rem2 Hi3 Hun Hcalls Hclear)).
Qed.

End Call.

(** ** The exploration *)

(** A cache hit: the same operations were linearized before, up to an equal state. *)
Lemma cache_hit d cache lin st :
  cacheContains equal cache (lin, st) = true -> cache_good d cache -> (d < length (members lin))%nat -> dead st (members lin).
Proof.
  intros Hc Hg Hd ids Hlin. unfold cacheContains in Hc. cbn [fst snd] in Hc.
  destruct (cache !! hash lin) as [l|] eqn:Hl0; cbn in Hc; [|done].
  apply existsb_exists in Hc as ([b t] & Hin & [Hb Ht]%andb_prop). cbn in *. apply list_elem_of_In in Hin.
  assert (Hcb : cached cache b t) by (by exists (hash lin), l).
  destruct (Hg b t Hcb) as (Hwb & Hlb & Hdead).
  apply equals_eq in Hb as <-.
  apply (Hdead Hd ids). by eapply equal_simulates.
Qed.

(** What an exploration leaves unchanged. *)
Record same (s s' : SearchState) : Prop :=
  { sm_heap : sr_heap s' = sr_heap s;
    sm_state : sr_state s' = sr_state s;
    sm_lin : sr_linearized s' = sr_linearized s;
    sm_calls : sr_calls s' = sr_calls s }.

Lemma same_inv s s' L rem : same s s' -> inv s L rem -> inv s' L rem.
Proof. intros [H1 H2 H3 H4] [I1 I2 I3 I4 I5 I6 I7 I8]. split; rewrite ?H1, ?H2, ?H3, ?H4; done. Qed.

Lemma same_trans s1 s2 s3 : same s1 s2 -> same s2 s3 -> same s1 s3.
Proof. intros [] []. split; congruence. Qed.

Definition grown (n : nat) (s s' : SearchState) : Prop :=
  forall b t, cached (sr_cache s') b t -> cached (sr_cache s) b t \/ (n < length (members b))%nat.

Definition found (cp : bool) (s : SearchState) : Prop :=
  exists s' L', rtc (istep cp) s s' /\ inv s' L' [] /\ longest_ok (sr_longest s').

(** The search comes back to the prefix [L] with the cursor at a return: no call before
    that return starts a linearization. *)
Definition failed (cp : bool) (s : SearchState) (L : list Z) (rem : list ptr) : Prop :=
  exists s' r m, rtc (istep cp) s s' /\ same s s' /\ r ∈ rem /\ points r m /\ is_return m
    /\ sr_entry s' = Some r /\ longest_ok (sr_longest s') /\ cache_good (length L) (sr_cache s')
    /\ grown (length L) s s' /\ dead (sr_state s) L.

Lemma found_step cp s s1 : rtc (istep cp) s s1 -> found cp s1 -> found cp s.
Proof. intros H (s' & L' & H1 & H2). exists s', L'. split; [by etrans|done]. Qed.

Lemma failed_step cp s s1 L rem :
  rtc (istep cp) s s1 -> same s s1 -> grown (length L) s s1 -> failed cp s1 L rem -> failed cp s L rem.
Proof.
  intros Hr Hs Hg (s' & r & m & H1 & H2 & H3 & H4 & H5 & H6 & H7 & H8 & H9 & H10). exists s', r, m.
  split_and!; try done; [by etrans|by eapply same_trans| |by rewrite <- (sm_state _ _ Hs)].
  intros b t Hb. destruct (H9 b t Hb) as [?|?]; [by apply Hg|by right].
Qed.

(** Nothing in the list before the cursor starts a linearization. *)
Definition no_start (s : S) (L : list Z) (pre : list ptr) : Prop :=
  forall q, q ∈ pre -> exists e, points q e /\ is_call e /\ forall ids, ~ linearizes step s (remaining E L) (en_id e :: ids).

Lemma no_start_calls s L pre pre' : no_start s L pre -> Forall2 points pre pre' -> Forall is_call pre'.
Proof.
  intros Hn Hf. apply Forall_forall. intros e' [i Hi]%list_elem_of_lookup.
  destruct (Forall2_lookup_r _ _ _ _ _ Hf Hi) as (q & Hq & Hp).
  destruct (Hn q) as (e & He & Hc & _); [by eapply list_elem_of_lookup_2|].
  by assert (e = e') as <- by (unfold points in *; congruence).
Qed.

Lemma no_start_dead s L pre pre' m c' :
  no_start s L pre -> Forall2 points pre pre' -> remaining E L = pre' ++ m :: c' -> is_return m -> dead s L.
Proof.
  intros Hn Hf Hrem Hm ids Hl. rewrite Hrem in Hl.
  destruct (lin_starts step s pre' m c' ids) as (e' & ids' & [i Hi]%list_elem_of_lookup & ->); [by eapply no_start_calls|done|done|].
  destruct (Forall2_lookup_r _ _ _ _ _ Hf Hi) as (q & Hq & Hp).
  destruct (Hn q) as (e & He & _ & Hno); [by eapply list_elem_of_lookup_2|].
  assert (e = e') as <- by (unfold points in *; congruence). apply (Hno ids'). by rewrite Hrem.
Qed.

Lemma no_start_snoc s L pre q e :
  no_start s L pre -> points q e -> is_call e -> (forall ids, ~ linearizes step s (remaining E L) (en_id e :: ids)) ->
  no_start s L (pre ++ [q]).
Proof. intros Hn Hq He H q' [Hq'| ->%list_elem_of_singleton]%elem_of_app; [by apply Hn|by exists e]. Qed.

Lemma dead_equiv s L L' : (forall z, z ∈ L <-> z ∈ L') -> dead s L -> dead s L'.
Proof. intros Heq Hd ids. rewrite <- (remaining_equiv E L L' Heq). apply Hd. Qed.

Lemma cached_insert cache h lin st b t :
  cached (<[h := default [] (cache !! h) ++ [(lin, st)]]> cache) b t -> cached cache b t \/ (b = lin /\ t = st).
Proof.
  intros (h' & l & Hl & Hin). destruct (decide (h = h')) as [<-|Hne].
  - rewrite lookup_insert_eq in Hl. injection Hl as <-. apply elem_of_app in Hin as [Hin|Hin].
    + left. destruct (cache !! h) as [l|] eqn:Hc; [by exists h, l|by apply elem_of_nil in Hin].
    + apply list_elem_of_singleton in Hin. right. by injection Hin.
  - rewrite lookup_insert_ne in Hl by done. left. by exists h', l.
Qed.

(** The call under the cursor is explored: every linearization that starts with it is
    found, or the search comes back behind it. *)
Lemma explore_call cp s L pre q e b r m c pre' b' c' :
  at_call s L pre q e b r m c pre' b' c' -> sr_entry s = Some q -> longest_ok (sr_longest s) ->
  cache_good (length L) (sr_cache s) -> no_start (sr_state s) L pre ->
  (forall s', inv s' (L ++ [en_id e]) (pre ++ b ++ c) -> longest_ok (sr_longest s') ->
     cache_good (length (L ++ [en_id e])) (sr_cache s') -> sr_entry s' = head (pre ++ b ++ c) ->
     found cp s' \/ failed cp s' (L ++ [en_id e]) (pre ++ b ++ c)) ->
  found cp s
  \/ exists s', rtc (istep cp) s s' /\ same s s' /\ sr_entry s' = head (b ++ r :: c) /\ longest_ok (sr_longest s')
       /\ cache_good (length L) (sr_cache s') /\ grown (length L) s s'
       /\ forall ids, ~ linearizes step (sr_state s) (remaining E L) (en_id e :: ids).
Proof.
  intros Hat Hen Hlo Hcg Hns IH. pose proof Hat as [Hi Hrem Hpre _ _ _ _ Hcall Hret Hid].
  destruct (mark_call s L pre q e b r m c pre' b' c' Hat) as (lin & Hset & Hw & Hl & Hmem & Hclear).
  assert (Hnd : NoDup (L ++ [en_id e])).
  { apply NoDup_app. split_and!; [apply Hi| |apply NoDup_singleton]. intros z Hz ->%list_elem_of_singleton.
    by eapply call_fresh. }
  pose proof (members_length lin _ Hnd Hmem) as Hml. rewrite length_app in Hml. cbn in Hml.
  assert (Hno : forall st, step (sr_state s) (en_value e) (en_value m) = (true, st) -> dead st (L ++ [en_id e]) ->
    forall ids, ~ linearizes step (sr_state s) (remaining E L) (en_id e :: ids)).
  { intros st Hst Hd ids Hlin. destruct (lin_first step E HE L _ _ _ _ _ _ _ Hrem Hcall Hret Hid Hlin) as (st' & Hst' & Hlin').
    assert (st' = st) as -> by congruence. by apply (Hd ids). }
  pose proof (iter_call s L pre q e b r m c pre' b' c' Hat cp lin Hen Hset) as Hit.
  destruct (step (sr_state s) (en_value e) (en_value m)) as [ok st] eqn:Hst.
  destruct (ok && negb (cacheContains equal (sr_cache s) (lin, st))) eqn:Hb.
  - apply andb_prop in Hb as [-> _]. destruct Hit as (h & Hc & Hs & Hun & Hst1).
    pose proof (no_start_calls _ _ _ _ Hns Hpre) as Hcalls.
    set (s1 := pushed s pre q b c h lin st) in *.
    assert (Hi1 : inv s1 (L ++ [en_id e]) (pre ++ b ++ c)) by (by eapply pushed_inv).
    destruct (IH s1) as [Hf|(s2 & r2 & m2 & Hr & Hsm & Hin & Hp & Hm & Hen2 & Hlo2 & Hcg2 & Hgr & Hdead)]; [done|done| |done|..].
    { intros b0 t Hbt. apply cached_insert in Hbt as [Hbt|[-> ->]].
      - destruct (Hcg b0 t Hbt) as (? & ? & Hd). split_and!; [done|done|]. intros. apply Hd. rewrite length_app in *. cbn in *. lia.
      - split_and!; [done|done|]. intros. rewrite length_app in *. cbn in *. lia. }
    { left. eapply found_step; [by apply rtc_once|done]. }
    right. pose proof (same_inv _ _ _ _ Hsm Hi1) as Hi2. destruct Hsm as [Sh Ss Sl Sc].
    destruct (iter_back s L pre q e b r m c pre' b' c' Hat cp s2 _ _ r2 m2 Hi2) as (l & k & Hl2 & Hback);
      [done|done|done|done|done|by rewrite Sh|by rewrite Sc|by rewrite Sl|].
    eexists. split_and!; [by eapply rtc_l; [|eapply rtc_r]|done|done|done| | |].
    + intros b0 t Hbt. destruct (Hcg2 b0 t Hbt) as (Hwb & Hlb & Hd). split_and!; [done|done|]. intros Hlt.
      destruct (Hgr b0 t Hbt) as [Hc1|Hlt2]; [|by apply Hd].
      apply cached_insert in Hc1 as [Hc1|[-> ->]]; [by apply (Hcg b0 t)|].
      eapply dead_equiv; [|exact Hdead]. intros z. by rewrite Hmem.
    + intros b0 t Hbt. destruct (Hgr b0 t Hbt) as [Hc1|Hlt2]; [|rewrite length_app in Hlt2; cbn in Hlt2; right; lia].
      apply cached_insert in Hc1 as [Hc1|[-> ->]]; [by left|]. right. lia.
    + by eapply Hno.
  - right. eexists. split_and!; [by apply rtc_once|done|done|done|done|by left|]. destruct ok.
    + cbn in Hb. apply negb_false_iff in Hb. eapply Hno; [done|]. eapply dead_equiv; [exact Hmem|].
      eapply cache_hit; [done..|]. lia.
    + intros ids Hlin. destruct (lin_first step E HE L _ _ _ _ _ _ _ Hrem Hcall Hret Hid Hlin) as (st' & Hst' & _). congruence.
Qed.

(** The exploration below a prefix ends: with a linearization, or back at the prefix. *)
Lemma explore cp k : forall s L pre suf,
  (length (remaining E L) <= k)%nat -> inv s L (pre ++ suf) -> longest_ok (sr_longest s) ->
  cache_good (length L) (sr_cache s) -> sr_entry s = head suf -> no_start (sr_state s) L pre ->
  found cp s \/ failed cp s L (pre ++ suf).
Proof.
  induction k as [k IHk] using lt_wf_ind. intros s L pre suf. revert s pre.
  induction suf as [|q suf IHs]; intros s pre Hk Hi Hlo Hcg Hen Hns.
  - rewrite app_nil_r in *. destruct pre as [|q pre]; [left; by exists s, L|].
    destruct (Hns q) as (e & He & Hc & _); [left|].
    destruct (call_under_cursor s L [] q pre e Hi He Hc) as (b & r & m & c & ? & ? & ? & -> & Hat).
    destruct Hat as [_ _ _ _ _ Hr _ _ Hret _].
    destruct (Hns r) as (e' & He' & Hc' & _); [right; apply elem_of_app; right; left|].
    exfalso. unfold points, is_call, is_return in *. congruence.
  - pose proof (iv_rem _ _ _ Hi) as Hr. apply Forall2_app_inv_l in Hr as (pre' & x & Hpre & Hx & Hrem).
    apply Forall2_cons_inv_l in Hx as (e & suf' & Hq & Hsuf & ->).
    destruct (en_kind e) eqn:Hkind.
    + destruct (call_under_cursor s L pre q suf e Hi Hq Hkind) as (b & r & m & c & pre2 & b' & c' & -> & Hat).
      destruct (explore_call cp s L pre q e b r m c pre2 b' c' Hat Hen Hlo Hcg Hns)
        as [Hf|(s1 & Hrt & Hsm & Hen1 & Hlo1 & Hcg1 & Hgr & Hno)]; [|by left|].
      * intros s' Hi' Hlo' Hcg' Hen'. apply (IHk (length (pre ++ b ++ c)) ) with (pre := []); try done.
        -- rewrite <- (Forall2_length _ _ _ (iv_rem _ _ _ Hi)) in Hk. rewrite !length_app in *. cbn in *.
           rewrite length_app in Hk. cbn in Hk. lia.
        -- by rewrite <- (Forall2_length _ _ _ (iv_rem _ _ _ Hi')).
        -- by intros ? ?%elem_of_nil.
      * rewrite (cons_middle q pre) in *. rewrite (assoc_L (++)) in *.
        destruct (IHs s1 (pre ++ [q])) as [Hf|Hf]; try done.
        -- by eapply same_inv.
        -- rewrite (sm_state _ _ Hsm). by eapply no_start_snoc.
        -- left. by eapply found_step.
        -- right. by eapply failed_step.
    + right. exists s, q, e. split_and!; try done; [apply elem_of_app; right; left|by left|by eapply no_start_dead].
Qed.

(** ** The loop *)

Lemma loop_steps cp s s' s2 b :
  rtc (istep cp) s s' -> iteration model cp N false s' = (s2, Ret (Some b)) ->
  exists fuel, forall fuel' i, (fuel <= fuel')%nat ->
    search_loop model cp N fuel' (fun _ => false) i s = (s2, Ret (Some b)).
Proof.
  intros Hr Hf. induction Hr as [s'|s s1 s' Hst _ IH].
  - exists 1%nat. intros [|fuel'] i Hle; [lia|]. cbn [search_loop]. by rewrite (bind_run _ _ _ _ _ Hf).
  - destruct (IH Hf) as [fuel Hfuel]. exists (Datatypes.S fuel). intros [|fuel'] i Hle; [lia|]. cbn [search_loop].
    unfold istep in Hst. rewrite (bind_run _ _ _ _ _ Hst). apply Hfuel. lia.
Qed.

(** With an empty prefix the search stops at the return. *)
Lemma iter_fail cp s L rem r m :
  inv s L rem -> r ∈ rem -> points r m -> is_return m -> sr_entry s = Some r -> sr_calls s = [] ->
  iteration model cp N false s = (s, Ret (Some false)).
Proof.
  intros Hi Hr Hp Hm Hen Hc. destruct (load_call s L rem r m Hi Hp) as (n & En & _ & Hinfo).
  assert (Hnm : nd_match n = None) by (unfold node_info in Hinfo; rewrite Hm in Hinfo; by injection Hinfo).
  rewrite (iter_start cp s L rem r n Hi Hr Hen En), Hnm. rewrite (bind_run _ _ s s (sr_calls s)) by done. by rewrite Hc.
Qed.

(** ** The initial state *)

Lemma points_seq : Forall2 points (reverse (seq 0 N)) E.
Proof.
  rewrite <- (reverse_involutive E) at 2. apply Forall2_reverse. apply Forall2_same_length_lookup_2.
  - by rewrite length_seq, length_reverse.
  - intros i q e Hq He. apply lookup_seq in Hq as [-> _]. exact He.
Qed.

Lemma run_setup :
  exists h, setup E [] = (h, Ret (head (reverse (seq 0 N)), Z.of_nat N, N)) /\ chain h (N :: reverse (seq 0 N))
    /\ forall q e, points q e -> static_of h q = Some (node_info P q e).
Proof.
  destruct (run_makeLinkedEntries E) as (h & Hrun & Hlk). pose proof Hlk as [Hc Hz Hs].
  rewrite length_reverse in *. unfold setup. rewrite (bind_run _ _ _ _ _ Hrun).
  assert (Hlen' : length_list (head (reverse (seq 0 N))) h = (h, Ret (Z.of_nat N))).
  { unfold length_list. rewrite (bind_run _ _ h h h) by done. destruct Hc as [_ Hseg].
    rewrite (run_length_loop h _ None) by (done || (rewrite length_reverse, length_seq; lia)).
    by rewrite length_reverse, length_seq. }
  rewrite (bind_run _ _ _ _ _ Hlen').
  destruct (run_push h _ None None (-1) Hc) as (h' & Hrun' & Hc' & _ & Hst & _).
  exists h'. rewrite (bind_run _ _ h (h ++ [mkNode None None (-1) None None]) (length h)) by done. rewrite Hz in *.
  rewrite (bind_run _ _ _ _ _ Hrun'). split_and!; [done|done|].
  intros q e Hq. rewrite Hst; [by apply Hs|by eapply linked_valid].
Qed.

Definition start (h : list (node V)) : SearchState :=
  mkSearch h (head (reverse (seq 0 N))) (mo_Init model) (newBitset (uint nops)) ∅ [] (replicate (Z.to_nat nops) None) 0.

Lemma start_inv h :
  chain h (N :: reverse (seq 0 N)) -> (forall q e, points q e -> static_of h q = Some (node_info P q e)) ->
  inv (start h) [] (reverse (seq 0 N)).
Proof.
  intros Hc Hs. split; cbn; try done.
  - rewrite remaining_nil. apply points_seq.
  - split; [|done]. apply Forall_replicate. by split.
  - intros z. by rewrite new_empty.
  - constructor.
  - rewrite remaining_nil. constructor.
Qed.

(** A complete linearization has every operation. *)
Lemma all_ids s L i :
  inv s L [] -> linearizes step (mo_Init model) E L -> 0 <= i < nops -> i ∈ L.
Proof.
  intros Hi Hl Hr. pose proof (linearizes_length _ _ _ _ Hl) as Hn. pose proof nops_range as Hb.
  assert (Hnops : nops = Z.of_nat (length L)).
  { unfold nops. rewrite Hn, Nat2Z.inj_mul, Z.mul_comm. by apply Z.quot_mul. }
  assert (Hsub : L ⊆ seqZ 0 nops).
  { intros z [j Hj]%list_elem_of_lookup. destruct (Forall2_lookup_r _ _ _ _ _ (iv_calls _ _ _ Hi) Hj) as (x & _ & e & He & <-).
    apply elem_of_seqZ. pose proof (id_range e (points_in _ _ He)). lia. }
  assert (Hp : L ≡ₚ seqZ 0 nops).
  { apply submseteq_length_Permutation; [apply NoDup_submseteq; [apply Hi|done]|]. rewrite length_seqZ. lia. }
  rewrite Hp. apply elem_of_seqZ. lia.
Qed.

(** The verdict on a well-formed history, and what is reported with it. *)
Lemma checkSingle_decides cp :
  exists fuel0 b longest, (forall fuel, (fuel0 <= fuel)%nat -> checkSingle model E cp fuel (fun _ => false) = Ret (Some (b, longest)))
    /\ (b = true <-> exists ids, linearizes step (mo_Init model) E ids) /\ longest_ok longest
    /\ (b = true -> exists k L, longest = replicate (Z.to_nat nops) (Some (k, L)) /\ linearizes step (mo_Init model) E L).
Proof.
  destruct run_setup as (h & Hrun & Hc & Hs). pose proof (start_inv h Hc Hs) as Hi.
  assert (Hlo : longest_ok (sr_longest (start h))).
  { split; [apply length_replicate|]. intros i k seq [? _]%lookup_replicate. done. }
  assert (Hend : forall s' s2 b, rtc (istep cp) (start h) s' -> iteration model cp N false s' = (s2, Ret (Some b)) ->
    exists fuel0, forall fuel, (fuel0 <= fuel)%nat -> checkSingle model E cp fuel (fun _ => false) = Ret (Some (b, sr_longest s2))).
  { intros s' s2 b Hr Hit. destruct (loop_steps cp _ _ _ _ Hr Hit) as [fuel0 Hf]. exists fuel0. intros fuel Hle.
    unfold checkSingle. rewrite Hrun. specialize (Hf fuel 0%nat Hle). unfold start, nops in Hf. by rewrite Hf. }
  destruct (explore cp (length (remaining E [])) (start h) [] [] (reverse (seq 0 N)))
    as [(s' & L & Hr & Hi' & Hlo')|(s' & r & m & Hr & Hsm & Hin & Hp & Hm & Hen & Hlo' & _ & _ & Hd)]; try done.
  - intros b t (h' & l & Hl & _). cbn [sr_cache start] in Hl. by rewrite lookup_empty in Hl.
  - by intros ? ?%elem_of_nil.
  - destruct (iter_done cp s' L Hi' Hlo') as (s2 & k & Hit & Hl2). destruct (Hend _ _ _ Hr Hit) as [fuel0 Hf].
    assert (HL : linearizes step (mo_Init model) E L).
    { rewrite <- (app_nil_r L). eapply linearizes_from; [apply Hi'|].
      pose proof (iv_rem _ _ _ Hi') as Hrem. apply Forall2_nil_inv_l in Hrem as ->. constructor. }
    exists fuel0, true, (sr_longest s2). split_and!; [done|by split; [intros; exists L|]| |intros; by exists k, L].
    rewrite Hl2. split; [apply length_replicate|]. intros i k' seq [Heq Hlt]%lookup_replicate. injection Heq as -> ->.
    split; [|exists (sr_state s'), (remaining E L); apply Hi']. eapply (all_ids s' L); [done|done|lia].
  - assert (Hit : iteration model cp N false s' = (s', Ret (Some false))).
    { eapply iter_fail; [by eapply same_inv|done|done|done|done|]. by rewrite (sm_calls _ _ Hsm). }
    destruct (Hend _ _ _ Hr Hit) as [fuel0 Hf]. exists fuel0, false, (sr_longest s').
    split_and!; [done|split; [done|]|done|done]. intros [ids Hids]. destruct (Hd ids). by rewrite remaining_nil.
Qed.

End Search.
