(* ===== verification/Linear.v ===== *)
(** Linearizability of a history of operations: an order of the operations that respects
    real time and that the step function accepts.  An order of the entries made by
    makeEntries is the same thing, and a store is linearizable exactly when each of its
    keys is. *)
From Stdlib Require Import ZArith Lia Sorted.
From stdpp Require Import base list numbers strings gmap sorting.
From S2P Require Import Prelude KvModel Checker CheckerSpec.

#[local] Open Scope Z_scope.

(** ** Orders of operations *)

Section Orders.
Context {I O S : Type} (step : S -> I -> O -> bool * S).
Implicit Types v : Operation I O.

(** [a] may come before [b]: b did not return before a was called. *)
Definition may_precede (a b : Operation I O) : Prop := op_Call a <= op_Return b.

Definition timed v : Prop := op_Call v <= op_Return v.

Fixpoint accepts (s : S) (l : list (Operation I O)) : bool :=
  match l with
  | [] => true
  | v :: l' => let '(ok, s') := step s (op_Input v) (op_Output v) in if ok then accepts s' l' else false
  end.

Record linearization (s : S) (h l : list (Operation I O)) : Prop :=
  { ln_perm : l ≡ₚ h;
    ln_time : StronglySorted may_precede l;
    ln_legal : accepts s l = true }.

Definition linearizable (s : S) (h : list (Operation I O)) : Prop := exists l, linearization s h l.

(** The step function on the values of entries. *)
Definition on_values (s : S) (v w : I + O) : bool * S :=
  match v, w with inl i, inr o => step s i o | _, _ => (false, s) end.

(** ** Entries of numbered operations *)

Definition call_of (x : Z * Operation I O) : entry (I + O) :=
  mkEntry callEntry (inl (op_Input x.2)) x.1 (op_Call x.2) (op_client x.2).
Definition return_of (x : Z * Operation I O) : entry (I + O) :=
  mkEntry returnEntry (inr (op_Output x.2)) x.1 (op_Return x.2) (op_client x.2).
Definition both_of (x : Z * Operation I O) : list (entry (I + O)) := [call_of x; return_of x].

Definition in_order (a b : entry (I + O)) : Prop := byTime_Less b a = false.

Lemma elem_of_both e (T : list (Z * Operation I O)) :
  e ∈ T ≫= both_of <-> exists x, x ∈ T /\ (e = call_of x \/ e = return_of x).
Proof.
  rewrite list_elem_of_bind. unfold both_of. split.
  - intros (x & He & Hx). exists x. rewrite !elem_of_cons in He. split; [done|]. destruct He as [?|[?|[]%elem_of_nil]]; tauto.
  - intros (x & Hx & He). exists x. split; [|done]. rewrite !elem_of_cons. tauto.
Qed.

Lemma call_elem e (T : list (Z * Operation I O)) : e ∈ T ≫= both_of -> is_call e -> exists x, x ∈ T /\ e = call_of x.
Proof. intros (x & Hx & [->| ->])%elem_of_both He; [by exists x|done]. Qed.

Lemma return_elem e (T : list (Z * Operation I O)) : e ∈ T ≫= both_of -> is_return e -> exists x, x ∈ T /\ e = return_of x.
Proof. intros (x & Hx & [->| ->])%elem_of_both He; [done|by exists x]. Qed.

(** Calls come before returns at the same time. *)
Lemma call_before_return (a w : list (entry (I + O))) e r :
  StronglySorted in_order (a ++ e :: w) -> is_call e -> is_return r -> en_time e <= en_time r -> r ∉ a.
Proof.
  intros Hs He Hr Ht Hin. apply StronglySorted_app_1_elem_of with (x1 := r) (x2 := e) in Hs; [|done|left].
  unfold in_order, byTime_Less in Hs. rewrite He, Hr in Hs. destruct (Z.eqb_spec (en_time e) (en_time r)); [done|].
  cbn in Hs. lia.
Qed.

Lemma return_after_call (a w : list (entry (I + O))) e r :
  StronglySorted in_order (a ++ e :: w) -> is_call e -> is_return r -> r ∈ w -> en_time e <= en_time r.
Proof.
  intros Hs He Hr Hin. apply StronglySorted_app_1_r in Hs. apply StronglySorted_inv in Hs as [_ Hs].
  rewrite Forall_forall in Hs. specialize (Hs r Hin). unfold in_order, byTime_Less in Hs.
  destruct (Z.eqb_spec (en_time r) (en_time e)); cbn in Hs; lia.
Qed.

Lemma sorted_sublist {A} (R : relation A) (l1 l2 : list A) : l1 `sublist_of` l2 -> StronglySorted R l2 -> StronglySorted R l1.
Proof.
  induction 1 as [|x l1 l2 Hsub IH|x l1 l2 Hsub IH]; intros Hs; [done| |].
  - apply StronglySorted_inv in Hs as [Hs Hf]. constructor; [by apply IH|]. rewrite Forall_forall in *.
    intros y Hy. apply Hf. by eapply sublist_subseteq.
  - apply StronglySorted_inv in Hs as [Hs _]. by apply IH.
Qed.

Lemma pair_removed (T T' : list (Z * Operation I O)) x a b c :
  T ≡ₚ x :: T' -> a ++ call_of x :: b ++ return_of x :: c ≡ₚ T ≫= both_of -> a ++ b ++ c ≡ₚ T' ≫= both_of.
Proof.
  intros HT Hp. rewrite HT in Hp. cbn in Hp. apply (Permutation_cons_inv (a := return_of x)), (Permutation_cons_inv (a := call_of x)).
  rewrite <- Hp. solve_Permutation.
Qed.

Lemma tagged_unique (T : list (Z * Operation I O)) x y : NoDup T.*1 -> x ∈ T -> y ∈ T -> x.1 = y.1 -> x = y.
Proof.
  intros Hnd [i Hi]%list_elem_of_lookup [j Hj]%list_elem_of_lookup Heq. assert (i = j) as ->; [|congruence].
  eapply NoDup_lookup; [exact Hnd| |]; rewrite list_lookup_fmap; [by rewrite Hi|rewrite Hj; cbn; by rewrite Heq].
Qed.

(** An order of the entries is an order of the operations, *)
Lemma entries_to_operations s F ids (T : list (Z * Operation I O)) :
  linearizes on_values s F ids -> NoDup T.*1 -> F ≡ₚ T ≫= both_of -> StronglySorted in_order F ->
  exists l, l ≡ₚ T /\ l.*1 = ids /\ StronglySorted may_precede l.*2 /\ accepts s l.*2 = true.
Proof.
  intros Hl. revert T. induction Hl as [s|s a e b m c s' ids Ha He Hm Hid Hst _ IH]; intros T Hnd Hp Hs.
  { destruct T as [|x T]; [|by apply Permutation_length in Hp]. exists []. split_and!; [done|done|constructor|done]. }
  destruct (call_elem e T) as (x & Hx & ->); [rewrite <- Hp; apply elem_of_app; right; left|done|].
  destruct (return_elem m T) as (y & Hy & ->); [rewrite <- Hp, !elem_of_app, elem_of_cons, elem_of_app, elem_of_cons; tauto|done|].
  assert (y = x) as -> by (by apply (tagged_unique T)).
  destruct (proj1 (elem_of_Permutation _ _) Hx) as [T' HT].
  destruct (IH T') as (l & Hlp & <- & Hls & Hlegal).
  { rewrite HT in Hnd. by apply NoDup_cons in Hnd as [_ Hnd]. }
  { by eapply pair_removed. }
  { eapply sorted_sublist; [|exact Hs]. apply sublist_app; [done|]. apply sublist_cons, sublist_app; [done|]. by apply sublist_cons. }
  exists (x :: l). split_and!; [by rewrite HT, Hlp|done| |].
  - cbn. constructor; [done|]. apply Forall_forall. intros v (z & -> & Hz)%list_elem_of_fmap. rewrite Hlp in Hz.
    assert (Hin : return_of z ∈ a ++ b ++ c).
    { rewrite (pair_removed T T' x a b c HT Hp). apply elem_of_both. exists z. tauto. }
    apply (return_after_call a (b ++ return_of x :: c) (call_of x) (return_of z)); [done|done|done|].
    rewrite !elem_of_app in *. rewrite elem_of_cons. destruct Hin as [Hin|[Hin|Hin]]; [|tauto|tauto].
    rewrite Forall_forall in Ha. specialize (Ha _ Hin). done.
  - cbn in *. by rewrite Hst.
Qed.

(** and the other way round. *)
Lemma operations_to_entries s F (l T : list (Z * Operation I O)) :
  l ≡ₚ T -> NoDup T.*1 -> F ≡ₚ T ≫= both_of -> StronglySorted in_order F -> Forall (fun x => timed x.2) T ->
  StronglySorted may_precede l.*2 -> accepts s l.*2 = true -> linearizes on_values s F l.*1.
Proof.
  revert s F T. induction l as [|x l IH]; intros s F T Hlp Hnd Hp Hs Ht Hls Hlegal.
  { apply Permutation_nil_l in Hlp. subst T. apply Permutation_nil_r in Hp as ->. constructor. }
  assert (Hx : x ∈ T) by (rewrite <- Hlp; left).
  assert (Hc : call_of x ∈ F) by (rewrite Hp; apply elem_of_both; exists x; tauto).
  apply list_elem_of_split in Hc as (a & w & ->).
  assert (Hafter : forall z, z ∈ T -> return_of z ∉ a).
  { intros z Hz. eapply (call_before_return a w (call_of x)); [done|done|done|]. cbn. rewrite <- Hlp in Hz.
    apply elem_of_cons in Hz as [->|Hz]; [rewrite Forall_forall in Ht; by apply Ht|].
    cbn in Hls. apply StronglySorted_inv in Hls as [_ Hf]. rewrite Forall_forall in Hf. apply Hf, list_elem_of_fmap. by exists z. }
  assert (Hr : return_of x ∈ w).
  { assert (Hin : return_of x ∈ a ++ call_of x :: w) by (rewrite Hp; apply elem_of_both; exists x; tauto).
    rewrite elem_of_app, elem_of_cons in Hin. destruct Hin as [Hin|[Hin|Hin]]; [by apply Hafter in Hin|done|done]. }
  apply list_elem_of_split in Hr as (b & c & ->). cbn in Hlegal.
  destruct (step s (op_Input x.2) (op_Output x.2)) as [[] s'] eqn:Hst; [|done].
  eapply (lin_next on_values s a (call_of x) b (return_of x) c s'); [|done|done|done|done|].
  - apply Forall_forall. intros e He. unfold is_call. destruct (en_kind e) eqn:Hk; [done|].
    destruct (return_elem e T) as (z & Hz & ->); [rewrite <- Hp; apply elem_of_app; by left|done|].
    by apply Hafter in He.
  - assert (HT : T ≡ₚ x :: l) by done. apply (IH s' _ l); [done| | | | | |done].
    + rewrite HT in Hnd. by apply NoDup_cons in Hnd as [_ Hnd].
    + by eapply pair_removed.
    + eapply sorted_sublist; [|exact Hs]. apply sublist_app; [done|]. apply sublist_cons, sublist_app; [done|]. by apply sublist_cons.
    + rewrite HT in Ht. by apply Forall_cons in Ht as [_ Ht].
    + cbn in Hls. by apply StronglySorted_inv in Hls as [Hls _].
Qed.

(** ** makeEntries *)

Definition numbered (id : Z) (h : list (Operation I O)) : list (Z * Operation I O) := zip (seqZ id (Z.of_nat (length h))) h.

Lemma numbered_cons id v h : numbered id (v :: h) = (id, v) :: numbered (id + 1) h.
Proof. unfold numbered. cbn [length]. rewrite seqZ_cons by lia. cbn. by replace (Z.pred _) with (Z.of_nat (length h)) by lia. Qed.

Lemma entries_numbered id h : entries_from id h = numbered id h ≫= both_of.
Proof. revert id. induction h as [|v h IH]; intros id; [done|]. rewrite numbered_cons. cbn. by rewrite IH. Qed.

Lemma numbered_ids id h : (numbered id h).*1 = seqZ id (Z.of_nat (length h)).
Proof. apply fst_zip. by rewrite length_seqZ, Nat2Z.id. Qed.

Lemma numbered_ops id h : (numbered id h).*2 = h.
Proof. apply snd_zip. by rewrite length_seqZ, Nat2Z.id. Qed.

Lemma NoDup_numbered id h : NoDup (numbered id h).*1.
Proof. rewrite numbered_ids. apply NoDup_seqZ. Qed.

Lemma timed_numbered id h : Forall timed h -> Forall (fun x => timed x.2) (numbered id h).
Proof. intros Ht. apply (Forall_fmap snd timed). by rewrite numbered_ops. Qed.

Lemma length_both (T : list (Z * Operation I O)) : length (T ≫= both_of) = (2 * length T)%nat.
Proof. induction T as [|x T IH]; [done|]. cbn in *. rewrite IH. lia. Qed.

Lemma keys_both (T : list (Z * Operation I O)) : NoDup T.*1 -> NoDup (key <$> (T ≫= both_of)).
Proof.
  induction T as [|x T IH]; intros Hnd; [constructor|]. cbn in Hnd. apply NoDup_cons in Hnd as [Hx Hnd].
  assert (Hno : forall k, (k, x.1) ∉ key <$> (T ≫= both_of)).
  { intros k (e & He & (y & Hy & Hc)%elem_of_both)%list_elem_of_fmap. apply Hx, list_elem_of_fmap. exists y. split; [|done].
    destruct Hc as [->| ->]; by injection He. }
  cbn. apply NoDup_cons. split; [|apply NoDup_cons; split; [apply Hno|by apply IH]].
  rewrite elem_of_cons. intros [?|Hin]; [done|by apply Hno in Hin].
Qed.

(** The contract of sort.Sort: a permutation in which no entry is less than an earlier one. *)
Definition sorts (sort : list (entry (I + O)) -> list (entry (I + O))) : Prop :=
  forall l, sort l ≡ₚ l /\ StronglySorted in_order (sort l).

Section Sorted.
Context (sort : list (entry (I + O)) -> list (entry (I + O))) (Hsort : sorts sort).

Lemma makeEntries_perm h : makeEntries sort h ≡ₚ numbered 0 h ≫= both_of.
Proof. unfold makeEntries. rewrite (proj1 (Hsort _)). by rewrite entries_numbered. Qed.

Lemma makeEntries_sorted h : StronglySorted in_order (makeEntries sort h).
Proof. apply Hsort. Qed.

Lemma length_makeEntries h : length (makeEntries sort h) = (2 * length h)%nat.
Proof.
  rewrite makeEntries_perm, length_both. unfold numbered. rewrite length_zip_with_l_eq; rewrite length_seqZ; lia.
Qed.

Lemma makeEntries_wf h : Forall timed h -> well_formed (makeEntries sort h).
Proof.
  intros Ht. pose proof (makeEntries_perm h) as Hp. pose proof (makeEntries_sorted h) as Hs. split.
  - apply Forall_forall. intros e He. rewrite length_makeEntries. rewrite Hp in He.
    apply elem_of_both in He as (x & Hx & Hc). assert (Hid : en_id e = x.1) by (by destruct Hc as [->| ->]). rewrite Hid.
    assert (Hin : x.1 ∈ (numbered 0 h).*1) by (by apply list_elem_of_fmap_2).
    rewrite numbered_ids, elem_of_seqZ in Hin. rewrite Nat2Z.inj_mul, Z.mul_comm, Z.quot_mul by lia. lia.
  - rewrite Hp. apply keys_both, NoDup_numbered.
  - intros a e w HE He. destruct (call_elem e (numbered 0 h)) as (x & Hx & ->);
      [rewrite <- Hp, HE; apply elem_of_app; right; left|done|].
    exists (return_of x). split; [|done].
    assert (Hin : return_of x ∈ a ++ call_of x :: w) by (rewrite <- HE, Hp; apply elem_of_both; exists x; tauto).
    rewrite elem_of_app, elem_of_cons in Hin. destruct Hin as [Hin|[Hin|Hin]]; [|done|done]. exfalso.
    rewrite HE in Hs. apply (call_before_return a w (call_of x) (return_of x)) in Hin; try done.
    pose proof (timed_numbered 0 h Ht) as Ht'. rewrite Forall_forall in Ht'. by apply Ht'.
Qed.

(** The entries have a linearization exactly when the operations have one. *)
Lemma makeEntries_linearizable s h :
  Forall timed h -> (exists ids, linearizes on_values s (makeEntries sort h) ids) <-> linearizable s h.
Proof.
  intros Ht. split.
  - intros [ids Hl]. destruct (entries_to_operations s _ ids (numbered 0 h) Hl) as (l & Hp & _ & Hs & Ha);
      [apply NoDup_numbered|apply makeEntries_perm|apply makeEntries_sorted|].
    exists l.*2. split; [|done|done]. rewrite Hp. by rewrite numbered_ops.
  - intros [l [Hp Hs Ha]]. assert (Hl : exists l', l' ≡ₚ numbered 0 h /\ l'.*2 = l).
    { rewrite <- (numbered_ops 0 h) in Hp. apply Permutation_map_inv in Hp as (l' & -> & Hp). by exists l'. }
    destruct Hl as (l' & Hp' & <-). exists l'.*1.
    by eapply (operations_to_entries s _ l' (numbered 0 h)); [|apply NoDup_numbered|apply makeEntries_perm|
      apply makeEntries_sorted|apply timed_numbered|..].
Qed.

End Sorted.
End Orders.

(** ** Locality: a store is linearizable when each key is *)

Section Store.
Implicit Types h l : list KvOperation.

Record store_linearization h l : Prop :=
  { sl_perm : l ≡ₚ h;
    sl_time : StronglySorted may_precede l;
    sl_legal : store_legal ∅ l = true }.

Definition store_linearizable h : Prop := exists l, store_linearization h l.

Lemma accepts_legal st l : accepts Step st l = legal st l.
Proof. revert st. induction l as [|v l IH]; intros st; [done|]. cbn. destruct (Step st _ _) as [[] ?]; [apply IH|done]. Qed.

Lemma of_key_cons_eq k v l : op_key v = k -> of_key k (v :: l) = v :: of_key k l.
Proof. intros. unfold of_key. by rewrite filter_cons_True. Qed.

Lemma of_key_cons_ne k v l : op_key v <> k -> of_key k (v :: l) = of_key k l.
Proof. intros. unfold of_key. by rewrite filter_cons_False. Qed.

Lemma of_key_perm k l h : l ≡ₚ h -> of_key k l ≡ₚ of_key k h.
Proof. intros Hp. unfold of_key. by rewrite Hp. Qed.

Lemma elem_of_key k v l : v ∈ of_key k l <-> op_key v = k /\ v ∈ l.
Proof. unfold of_key. by rewrite list_elem_of_filter. Qed.

Lemma timed_of_key k h : Forall timed h -> Forall timed (of_key k h).
Proof. rewrite !Forall_forall. intros Ht v [_ Hv]%elem_of_key. by apply Ht. Qed.

(** Histories with the same operations for every key are permutations. *)
Lemma keys_perm l h : (forall k, of_key k l ≡ₚ of_key k h) -> l ≡ₚ h.
Proof.
  revert h. induction l as [|v l IH]; intros h Hk.
  - destruct h as [|w h]; [done|]. specialize (Hk (op_key w)). rewrite of_key_cons_eq in Hk by done.
    by apply Permutation_length in Hk.
  - assert (Hv : v ∈ h).
    { assert (Hv : v ∈ of_key (op_key v) h) by (rewrite <- Hk, of_key_cons_eq by done; left). by apply elem_of_key in Hv as [_ ?]. }
    apply elem_of_Permutation in Hv as [h' Hh]. rewrite Hh. constructor. apply IH. intros k. specialize (Hk k).
    rewrite (of_key_perm k h (v :: h') Hh) in Hk. destruct (decide (op_key v = k)).
    + rewrite !of_key_cons_eq in Hk by done. by apply Permutation_cons_inv in Hk.
    + by rewrite !of_key_cons_ne in Hk.
Qed.

Lemma earliest_return h : h <> [] -> exists x, x ∈ h /\ forall z, z ∈ h -> op_Return x <= op_Return z.
Proof.
  induction h as [|v h IH]; intros Hne; [done|]. destruct h as [|w h].
  - exists v. split; [left|]. intros z ->%list_elem_of_singleton. lia.
  - destruct IH as (x & Hx & Hmin); [done|]. destruct (Z.le_gt_cases (op_Return v) (op_Return x)).
    + exists v. split; [left|]. intros z [->|Hz]%elem_of_cons; [lia|]. specialize (Hmin z Hz). lia.
    + exists x. split; [by right|]. intros z [->|Hz]%elem_of_cons; [lia|by apply Hmin].
Qed.

(** Orders of the keys merge into an order of the history: the next operation is the
    first one of the key whose operation returns first. *)
Lemma merge_keys h (g : string -> list KvOperation) :
  (forall k, g k ≡ₚ of_key k h) -> (forall k, StronglySorted may_precede (g k)) -> Forall timed h ->
  exists l, (forall k, of_key k l = g k) /\ StronglySorted may_precede l.
Proof.
  remember (length h) as n eqn:Hn. revert h g Hn. induction n as [|n IH]; intros h g Hn Hg Hs Ht.
  { apply eq_sym, nil_length_inv in Hn as ->. exists []. split; [|constructor]. intros k. specialize (Hg k).
    by apply Permutation_nil_r in Hg as ->. }
  destruct (earliest_return h) as (x & Hx & Hmin); [by intros ->|].
  assert (Hxg : x ∈ g (op_key x)) by (rewrite Hg; by apply elem_of_key).
  destruct (g (op_key x)) as [|y rest] eqn:Hgx; [by apply elem_of_nil in Hxg|].
  assert (Hy : y ∈ of_key (op_key x) h) by (rewrite <- Hg, Hgx; left). apply elem_of_key in Hy as [Hky Hy].
  assert (Hyx : op_Call y <= op_Return x).
  { apply elem_of_cons in Hxg as [->|Hin]; [rewrite Forall_forall in Ht; by apply Ht|].
    specialize (Hs (op_key x)). rewrite Hgx in Hs. apply StronglySorted_inv in Hs as [_ Hs]. rewrite Forall_forall in Hs. by apply Hs. }
  apply elem_of_Permutation in Hy as [h' Hh].
  destruct (IH h' (fun k => if decide (k = op_key x) then rest else g k)) as (l & Hl & Hsl).
  - rewrite Hh in Hn. cbn in Hn. lia.
  - intros k. specialize (Hg k). rewrite (of_key_perm k h (y :: h') Hh) in Hg. case_decide as Hk.
    + subst k. rewrite Hgx, of_key_cons_eq in Hg by done. by apply Permutation_cons_inv in Hg.
    + by rewrite of_key_cons_ne in Hg by congruence.
  - intros k. case_decide; [|done]. subst k. specialize (Hs (op_key x)). rewrite Hgx in Hs. by apply StronglySorted_inv in Hs as [? _].
  - rewrite Hh in Ht. by apply Forall_cons in Ht as [_ ?].
  - exists (y :: l). split.
    + intros k. destruct (decide (k = op_key x)) as [->|Hk].
      * rewrite of_key_cons_eq, Hl, decide_True by done. by rewrite Hgx.
      * rewrite of_key_cons_ne, Hl, decide_False by congruence. done.
    + constructor; [done|]. apply Forall_forall. intros z Hz. unfold may_precede.
      assert (Hzh : z ∈ h); [|specialize (Hmin z Hzh); lia].
      assert (Hzl : z ∈ of_key (op_key z) l) by (by apply elem_of_key). rewrite Hl in Hzl.
      assert (Hzg : z ∈ g (op_key z)) by (case_decide as Hk; [rewrite Hk, Hgx; by right|done]).
      rewrite Hg in Hzg. by apply elem_of_key in Hzg as [_ ?].
Qed.

Lemma finite_choice {K A} `{EqDecision K} (R : K -> A -> Prop) (d : A) (ks : list K) :
  (forall k, k ∈ ks -> exists a, R k a) -> exists g, (forall k, k ∈ ks -> R k (g k)) /\ forall k, k ∉ ks -> g k = d.
Proof.
  induction ks as [|k ks IH]; intros H; [exists (fun _ => d); split; [by intros k ?%elem_of_nil|done]|].
  destruct IH as (g & Hg & Hd); [intros k' Hk'; apply H; by right|]. destruct (H k) as [a Ha]; [left|].
  exists (fun k' => if decide (k' = k) then a else g k'). split.
  - intros k' [->|Hk']%elem_of_cons; case_decide; subst; [done|done|done|by apply Hg].
  - intros k' [Hne Hk']%not_elem_of_cons. rewrite decide_False by done. by apply Hd.
Qed.

Lemma store_local h :
  Forall timed h -> store_linearizable h <-> forall k, linearizable Step Init (of_key k h).
Proof.
  intros Ht. split.
  - intros [l [Hp Hs Hl]] k. exists (of_key k l). split; [by apply of_key_perm| |].
    + eapply sorted_sublist; [|exact Hs]. apply sublist_filter.
    + rewrite accepts_legal. rewrite store_legal_keys in Hl. specialize (Hl k). by rewrite lookup_empty in Hl.
  - intros Hk. destruct (finite_choice (fun k => linearization Step Init (of_key k h)) [] (keys_of h)) as (g & Hg & Hd).
    { intros k _. apply Hk. }
    assert (Hlin : forall k, linearization Step Init (of_key k h) (g k)).
    { intros k. destruct (decide (of_key k h = [])) as [Heq|Hne]; [|by apply Hg, elem_of_keys].
      rewrite Heq, Hd by (rewrite elem_of_keys; tauto). split; [done|constructor|done]. }
    destruct (merge_keys h g) as (l & Hl & Hs); [apply Hlin|apply Hlin|done|].
    exists l. split; [|done|].
    + apply keys_perm. intros k. rewrite Hl. apply Hlin.
    + apply store_legal_keys. intros k. rewrite lookup_empty, Hl, <- accepts_legal. apply Hlin.
Qed.

End Store.
