(* ===== verification/LinProps.v ===== *)
(** What the linearizability checker decides: checkSingle on a well-formed history, and
    checkOperations with the key/value model of models/kv.go on the operations recorded
    by a test of a key/value service. *)
From Stdlib Require Import ZArith Lia Sorted.
From stdpp Require Import base list numbers strings gmap sorting.
From S2P Require Import Prelude KvModel Linked Checker CheckerSpec CheckerProof Linear.

#[local] Open Scope string_scope.
#[local] Open Scope Z_scope.

(** models/kv.go: Step asserts the types of its arguments. *)
Definition KvModel : Model KvInput KvOutput string :=
  mkModel (Some Partition) None Init
    (fun st v w => match v, w with inl inp, inr out => Ret (Step st inp out) | _, _ => Panic end) None.

(** ** checkSingle *)

Section Single.
Context {I O S : Type} `{EqDecision S}.

(** What a model must satisfy for a history: Step does not panic on its values, and
    states that are equal cannot be told apart by Step. *)
Record fits (model : Model I O S) (step : S -> I + O -> I + O -> bool * S) (equal : S -> S -> bool) (E : list (entry (I + O)))
    : Prop :=
  { ft_equal : mo_Equal model = Some equal;
    ft_step : forall e m st, e ∈ E -> m ∈ E -> is_call e -> is_return m ->
      mo_Step model st (en_value e) (en_value m) = Ret (step st (en_value e) (en_value m));
    ft_bisim : forall s t v w, equal s t = true ->
      fst (step s v w) = fst (step t v w)
      /\ (fst (step s v w) = true -> equal (snd (step s v w)) (snd (step t v w)) = true) }.

Lemma partials_elem (longest : list (option (nat * list Z))) seen seq :
  seq ∈ partials_of seen longest -> exists k, Some (k, seq) ∈ longest.
Proof.
  revert seen. induction longest as [|[[k s]|] l IH]; intros seen; cbn; [by intros ?%elem_of_nil| |].
  - case_decide; [intros Hs; destruct (IH _ Hs) as [k' ?]; exists k'; by right|].
    intros [->|Hs]%elem_of_cons; [exists k; left|]. destruct (IH _ Hs) as [k' ?]. exists k'. by right.
  - intros Hs. destruct (IH _ Hs) as [k' ?]. exists k'. by right.
Qed.

Lemma shallow_bisim (step : S -> I + O -> I + O -> bool * S) s t v w :
  ShallowEqual s t = true ->
  fst (step s v w) = fst (step t v w)
  /\ (fst (step s v w) = true -> ShallowEqual (snd (step s v w)) (snd (step t v w)) = true).
Proof. intros Heq. apply bool_decide_eq_true in Heq as ->. split; [done|]. intros _. by apply bool_decide_eq_true. Qed.

(** C15.  checkSingle terminates and decides linearizability: with
    enough iterations it returns true exactly when some order of the operations, each
    taken when its call has no return of a remaining operation before it, is accepted by
    Step; what it reports as longest for an operation is the ids of a partial
    linearization that contains it, and of a complete one when it returns true; the
    prefixes the driver collects from them are partial linearizations. *)
Theorem checkSingle_correct (model : Model I O S) (step : S -> I + O -> I + O -> bool * S) (equal : S -> S -> bool)
    (E : list (entry (I + O))) (computePartial : bool)
  (Hfit : fits model step equal E) (HE : well_formed E) (Hlen : Z.of_nat (length E) < 2 ^ 63) :
  exists fuel0 b longest,
    (forall fuel, (fuel0 <= fuel)%nat -> checkSingle model E computePartial fuel (fun _ => false) = Ret (Some (b, longest)))
    /\ (b = true <-> exists ids, linearizes step (mo_Init model) E ids)
    /\ (forall i k seq, longest !! i = Some (Some (k, seq)) ->
          Z.of_nat i ∈ seq /\ exists s' l', linearizes_upto step (mo_Init model) E seq s' l')
    /\ (b = true -> exists k seq, longest = replicate (Z.to_nat (Z.of_nat (length E) ÷ 2)) (Some (k, seq))
          /\ linearizes step (mo_Init model) E seq)
    /\ (forall seq, seq ∈ partials_of [] longest -> exists s' l', linearizes_upto step (mo_Init model) E seq s' l').
Proof.
  destruct Hfit as [Heq Hstep Hbisim].
  destruct (checkSingle_decides model equal step Heq Hbisim E HE Hstep Hlen computePartial) as (f & b & l & H1 & H2 & [_ H3] & H4).
  exists f, b, l. split_and!; try done. intros seq (k & [i Hi]%list_elem_of_lookup)%partials_elem. by eapply H3.
Qed.

End Single.

(** ** The driver *)

Lemma collect_all ci n bs ok c :
  bs <> [] -> (c + length bs = n)%nat -> ok || ci = true ->
  collect ci n (Result <$> bs) ok c = Some (ok && forallb id bs, false).
Proof.
  revert ok c. induction bs as [|b bs IH]; intros ok c Hne Hn Hok; [done|]. cbn in *.
  destruct (negb (ok && b) && negb ci) eqn:Hstop.
  - apply andb_prop in Hstop as [Hb _]. apply negb_true_iff in Hb. f_equal. f_equal. rewrite andb_assoc, Hb. done.
  - destruct bs as [|b' bs]; [|].
    + rewrite (proj2 (Nat.leb_le n (S c))) by (cbn in Hn; lia). cbn. by rewrite andb_true_r.
    + rewrite (proj2 (Nat.leb_gt n (S c))) by (cbn in *; lia). rewrite IH; [by rewrite andb_assoc|done|cbn in *; lia|].
      destruct (ok && b), ci; done.
Qed.

(** With a timer: a verdict is as without it, and Unknown only when results are missing. *)
Lemma collect_timer ci n bs t ok c :
  (c + length bs = n)%nat -> ok || ci = true ->
  exists ok' late, collect ci n (take t (Result <$> bs) ++ [Timer]) ok c = Some (ok', late)
    /\ (ok' = false -> ok && forallb id bs = false)
    /\ (ok' = true -> late = false -> ok && forallb id bs = true)
    /\ (late = true -> bs = [] \/ (t < length bs)%nat).
Proof.
  revert t ok c. induction bs as [|b bs IH]; intros t ok c Hn Hok.
  { exists ok, true. cbn [fmap list_fmap]. rewrite take_nil. cbn. rewrite andb_true_r. split_and!; [done|done|done|by left]. }
  destruct t as [|t]; cbn.
  { exists ok, true. split_and!; [done|by intros ->|done|right; lia]. }
  destruct (negb (ok && b) && negb ci) eqn:Hstop.
  { apply andb_prop in Hstop as [Hb _]. apply negb_true_iff in Hb. exists (ok && b), false.
    rewrite andb_assoc, Hb. by split_and!. }
  cbn in Hn. destruct (Nat.leb_spec n (S c)) as [Hle|Hlt].
  - assert (bs = []) as -> by (apply nil_length_inv; lia). exists (ok && b), false. cbn. rewrite andb_true_r. by split_and!.
  - destruct (IH t (ok && b) (S c)) as (ok' & late & H1 & H2 & H3 & H4); [lia|by destruct (ok && b), ci|].
    exists ok', late. rewrite andb_assoc. split_and!; [done|done|done|]. intros Hl. right.
    destruct (H4 Hl) as [->|]; [cbn in Hn; lia|lia].
Qed.

Section Driver.
Context {I O S : Type} `{EqDecision S} (model : Model I O S) (ci : bool).
Abbreviation V := (I + O)%type.
Context (good : list (entry V) -> Prop).

(** The partitions are decided with enough fuel. *)
Definition decided (E : list (entry V)) : Prop :=
  exists fuel0 b longest, (forall fuel, (fuel0 <= fuel)%nat -> checkSingle model E ci fuel (fun _ => false) = Ret (Some (b, longest)))
    /\ (b = true <-> good E).

Lemma all_decided (Es : list (list (entry V))) :
  Forall decided Es ->
  exists fuel0 bs, Forall2 (fun E b => b = true <-> good E) Es bs
    /\ forall fuel, (fuel0 <= fuel)%nat ->
         Forall2 (fun E b => exists l, checkSingle model E ci fuel (fun _ => false) = Ret (Some (b, l))) Es bs.
Proof.
  induction 1 as [|E Es (f1 & b & l & Hb & Hg) _ (f2 & bs & Hbs & Hf)].
  { exists 0%nat, []. split; [constructor|]. intros; constructor. }
  exists (f1 `max` f2)%nat, (b :: bs). split; [by constructor|]. intros fuel Hle. constructor; [exists l; apply Hb; lia|].
  apply Hf. lia.
Qed.

Lemma arrivals (Es : list (list (entry V))) order :
  Forall decided Es -> order ≡ₚ seq 0 (length Es) ->
  exists fuel0 bs, length bs = length Es /\ (forallb id bs = true <-> Forall good Es)
    /\ forall fuel, (fuel0 <= fuel)%nat -> mapM (result_of model Es ci fuel) order = Some bs.
Proof.
  intros Hd Ho. destruct (all_decided Es Hd) as (fuel0 & bs & Hbs & Hf).
  pose proof (Forall2_length _ _ _ Hbs) as Hn.
  exists fuel0, ((fun i => default false (bs !! i)) <$> order). split_and!.
  - rewrite length_fmap, Ho. apply length_seq.
  - assert (Hall : forallb id ((fun i => default false (bs !! i)) <$> order) = true <-> Forall (fun b => b = true) bs).
    { rewrite forallb_forall, Forall_lookup. setoid_rewrite <- list_elem_of_In. split.
      - intros H i b Hb. specialize (H (default false (bs !! i))). rewrite Hb in H. apply H. apply list_elem_of_fmap.
        exists i. rewrite Hb. split; [done|]. rewrite Ho. apply elem_of_seq. apply lookup_lt_Some in Hb. lia.
      - intros H x (i & -> & Hi)%list_elem_of_fmap. rewrite Ho, elem_of_seq in Hi.
        destruct (lookup_lt_is_Some_2 bs i) as [b Hb]; [lia|]. rewrite Hb. by apply (H i). }
    rewrite Hall, !Forall_lookup. split.
    + intros H i E HE. destruct (Forall2_lookup_l _ _ _ _ _ Hbs HE) as (b & Hb & Hg). apply Hg. by apply (H i).
    + intros H i b Hb. destruct (Forall2_lookup_r _ _ _ _ _ Hbs Hb) as (E & HE & Hg). apply Hg. by apply (H i).
  - intros fuel Hle. apply mapM_Some, Forall2_fmap_r, Forall_Forall2_diag, Forall_forall. intros i Hi.
    rewrite Ho, elem_of_seq in Hi. destruct (lookup_lt_is_Some_2 bs i) as [b Hb]; [lia|]. unfold result_of.
    destruct (Forall2_lookup_r _ _ _ _ _ (Hf fuel Hle) Hb) as (E & HE & l & Hl). simpl. rewrite HE. simpl. rewrite Hl. simpl. by rewrite Hb.
Qed.

(** Without a timer the driver answers as soon as there is a partition. *)
Lemma parallel_decides (Es : list (list (entry V))) order :
  Forall decided Es -> Es <> [] -> order ≡ₚ seq 0 (length Es) ->
  exists fuel0 r, (forall fuel, (fuel0 <= fuel)%nat -> checkParallel model Es ci fuel order None = Some r)
    /\ ((r = Ok /\ Forall good Es) \/ (r = Illegal /\ ~ Forall good Es)).
Proof.
  intros Hd Hne Ho. destruct (arrivals Es order Hd Ho) as (fuel0 & bs & Hn & Hg & Hf).
  exists fuel0, (verdict (forallb id bs, false)). split.
  - intros fuel Hle. unfold checkParallel. rewrite (Hf fuel Hle). cbn. rewrite (collect_all ci (length Es) bs true 0); [done| |done|done].
    intros ->. by destruct Es.
  - rewrite <- Hg. destruct (forallb id bs); [by left|by right].
Qed.

Lemma parallel_timer (Es : list (list (entry V))) order t :
  Forall decided Es -> order ≡ₚ seq 0 (length Es) ->
  exists fuel0 r, (forall fuel, (fuel0 <= fuel)%nat -> checkParallel model Es ci fuel order (Some t) = Some r)
    /\ (r = Ok -> Forall good Es) /\ (r = Illegal -> ~ Forall good Es) /\ (r = Unknown -> Es = [] \/ (t < length Es)%nat).
Proof.
  intros Hd Ho. destruct (arrivals Es order Hd Ho) as (fuel0 & bs & Hn & Hg & Hf).
  destruct (collect_timer ci (length Es) bs t true 0) as (ok & late & Hc & H1 & H2 & H3); [done|done|].
  exists fuel0, (verdict (ok, late)). split_and!.
  - intros fuel Hle. unfold checkParallel. rewrite (Hf fuel Hle). cbn. by rewrite Hc.
  - intros Hr. apply Hg. by destruct ok, late; try done; apply H2.
  - intros Hr. rewrite <- Hg. cbn in H1. destruct ok, late; try done; by rewrite H1.
  - intros Hr. assert (Hl : late = true) by (by destruct ok, late). destruct (H3 Hl) as [->|]; [|right; lia].
    left. by destruct Es.
Qed.

End Driver.

(** ** checkOperations with the key/value model *)

Section Kv.
Context (sort : list (entry (KvInput + KvOutput)) -> list (entry (KvInput + KvOutput))) (Hsort : sorts sort).

Lemma kv_fits h : fits (fillDefault KvModel) (on_values Step) ShallowEqual (makeEntries sort h).
Proof.
  split; [done| |].
  - intros e m st He Hm Hc Hr. rewrite makeEntries_perm in He, Hm by done.
    apply call_elem in He as (x & _ & ->); [|done]. by apply return_elem in Hm as (y & _ & ->).
  - intros s t v w. apply shallow_bisim.
Qed.

Definition kv_good (E : list (entry (KvInput + KvOutput))) : Prop := exists ids, linearizes (on_values Step) Init E ids.

Lemma kv_decided verbose h :
  Forall timed h -> Z.of_nat (length h) < 2 ^ 62 -> decided (fillDefault KvModel) verbose kv_good (makeEntries sort h).
Proof.
  intros Ht Hn. destruct (kv_fits h) as [Heq Hstep Hbisim].
  destruct (checkSingle_decides (fillDefault KvModel) ShallowEqual (on_values Step) Heq Hbisim (makeEntries sort h)
    (makeEntries_wf sort Hsort h Ht) Hstep) with (cp := verbose) as (f & b & l & H1 & H2 & _ & _).
  - rewrite length_makeEntries by done. lia.
  - exists f, b, l. by split.
Qed.

Section History.
Context (h : list KvOperation) (Ht : Forall timed h) (Hn : Z.of_nat (length h) < 2 ^ 62).

Lemma kv_partitions_decided verbose : Forall (decided (fillDefault KvModel) verbose kv_good) (makeEntries sort <$> Partition h).
Proof.
  apply Forall_fmap, Forall_forall. intros g Hg. rewrite Partition_keys in Hg. apply list_elem_of_fmap in Hg as (k & -> & _).
  apply kv_decided.
  - by apply timed_of_key.
  - assert (length (of_key k h) <= length h)%nat by apply length_filter. lia.
Qed.

Lemma kv_partitions_good : Forall kv_good (makeEntries sort <$> Partition h) <-> store_linearizable h.
Proof.
  rewrite store_local, Forall_fmap, Forall_forall, Partition_keys by done. split.
  - intros H k. destruct (decide (of_key k h = [])) as [->|Hne]; [by exists []; split; [|constructor|]|].
    apply (makeEntries_linearizable Step sort Hsort); [by apply timed_of_key|]. apply H, list_elem_of_fmap. exists k.
    split; [done|]. by apply elem_of_keys.
  - intros H g (k & -> & _)%list_elem_of_fmap. apply (makeEntries_linearizable Step sort Hsort); [by apply timed_of_key|apply H].
Qed.

End History.
End Kv.

(** ** A sort.Sort, and histories *)

#[export] Instance in_order_dec {I O} : RelDecision (@in_order I O).
Proof. intros a b. unfold in_order. apply _. Defined.

#[export] Instance in_order_total {I O} : Total (@in_order I O).
Proof.
  intros a b. unfold in_order, byTime_Less. rewrite (Z.eqb_sym (en_time b)).
  destruct (Z.eqb_spec (en_time a) (en_time b)); cbn; [destruct (en_kind a), (en_kind b); tauto|].
  destruct (Z.ltb_spec (en_time b) (en_time a)), (Z.ltb_spec (en_time a) (en_time b)); tauto || lia.
Qed.

#[export] Instance in_order_trans {I O} : Transitive (@in_order I O).
Proof.
  intros a b c. unfold in_order, byTime_Less.
  destruct (Z.eqb_spec (en_time b) (en_time a)), (Z.eqb_spec (en_time c) (en_time b)), (Z.eqb_spec (en_time c) (en_time a));
    cbn; rewrite ?Z.ltb_ge; try lia; destruct (en_kind a), (en_kind b), (en_kind c); done || lia.
Qed.

Definition byTime_sort {I O} : list (entry (I + O)) -> list (entry (I + O)) := merge_sort in_order.

Lemma byTime_sorts {I O} : sorts (@byTime_sort I O).
Proof. intros l. split; [apply merge_sort_Permutation|apply StronglySorted_merge_sort; apply _]. Qed.

Definition op (client : Z) (kind : Z) (k v out : string) (call return_ : Z) : KvOperation :=
  mkOperation client (mkKvInput kind k v) call (mkKvOutput out) return_.

(** Two clients on key x, one of them also on key y; the Get that overlaps the Append may
    see either value. *)
Definition good_history : list KvOperation :=
  [op 0 1 "x" "a" "" 0 10; op 1 0 "x" "" "ab" 12 30; op 0 2 "x" "b" "" 15 25; op 1 3 "y" "c" "" 31 40; op 0 0 "y" "" "c" 41 50].

(** The second Get sees an older value than the first one. *)
Definition bad_history : list KvOperation :=
  [op 0 1 "x" "a" "" 0 10; op 0 1 "x" "b" "" 11 40; op 1 0 "x" "" "b" 12 20; op 2 0 "x" "" "a" 21 30].

(** The checker run on them. *)
Example good_run : checkOperations byTime_sort KvModel good_history true 100 [1; 0]%nat None = Ret (Some Ok).
Proof. vm_compute. reflexivity. Qed.

Example bad_run : checkOperations byTime_sort KvModel bad_history true 100 [0]%nat None = Ret (Some Illegal).
Proof. vm_compute. reflexivity. Qed.

(** C14.  checkOperations with the key/value model and no timeout decides whether the history
    of a whole store is linearizable: for every history that is not empty, has fewer than
    2^62 operations and only operations that return no earlier than they are called, for
    every way sort.Sort may order entries of equal rank and every order in which the
    partitions finish, it terminates, and it answers Ok exactly when some order of all the
    operations respects real time and is legal for the store, and Illegal otherwise.
    Checking one key at a time is therefore enough.  (For the empty history it would wait
    for ever, and with a timeout it may answer Unknown.) *)
Theorem checkOperations_decides (sort : list (entry (KvInput + KvOutput)) -> list (entry (KvInput + KvOutput)))
    (h : list KvOperation) (verbose : bool) (order : list nat)
  (Hsort : sorts sort) (Ht : Forall timed h) (Hlen : Z.of_nat (length h) < 2 ^ 62) (Hne : h <> [])
  (Horder : order ≡ₚ seq 0 (length (Partition h))) :
  exists fuel0 r,
    (forall fuel, (fuel0 <= fuel)%nat -> checkOperations sort KvModel h verbose fuel order None = Ret (Some r))
    /\ ((r = Ok /\ store_linearizable h) \/ (r = Illegal /\ ~ store_linearizable h)).
Proof.
  destruct (parallel_decides (fillDefault KvModel) verbose kv_good (makeEntries sort <$> Partition h) order)
    as (f & r & Hf & Hr).
  - by apply kv_partitions_decided.
  - rewrite Partition_keys. destruct h as [|v h]; [done|]. intros Hnil%fmap_nil_inv%fmap_nil_inv.
    apply (not_elem_of_nil (op_key v)). rewrite <- Hnil, elem_of_keys. unfold of_key. by rewrite filter_cons_True.
  - by rewrite length_fmap.
  - exists f, r. rewrite (kv_partitions_good sort Hsort h Ht) in Hr. split; [|done]. intros fuel Hle.
    unfold checkOperations. cbn [mo_Partition fillDefault KvModel default]. by rewrite Hf.
Qed.

(** With a timer the verdicts stay sound: Ok and Illegal mean what they mean without it,
    and Unknown is only answered when the timer fired before the result of some partition
    arrived or when there is no partition. *)
Theorem checkOperations_timeout (sort : list (entry (KvInput + KvOutput)) -> list (entry (KvInput + KvOutput)))
    (h : list KvOperation) (verbose : bool) (order : list nat) (timer : nat)
  (Hsort : sorts sort) (Ht : Forall timed h) (Hlen : Z.of_nat (length h) < 2 ^ 62)
  (Horder : order ≡ₚ seq 0 (length (Partition h))) :
  exists fuel0 r,
    (forall fuel, (fuel0 <= fuel)%nat -> checkOperations sort KvModel h verbose fuel order (Some timer) = Ret (Some r))
    /\ (r = Ok -> store_linearizable h) /\ (r = Illegal -> ~ store_linearizable h)
    /\ (r = Unknown -> Partition h = [] \/ (timer < length (Partition h))%nat).
Proof.
  destruct (parallel_timer (fillDefault KvModel) verbose kv_good (makeEntries sort <$> Partition h) order timer)
    as (f & r & Hf & Hok & Hill & Hunk); [by apply kv_partitions_decided|by rewrite length_fmap|].
  exists f, r. rewrite (kv_partitions_good sort Hsort h Ht) in Hok, Hill. rewrite length_fmap in Hunk.
  split_and!; [|done|done|intros Hr; destruct (Hunk Hr) as [?%fmap_nil_inv|?]; tauto].
  intros fuel Hle. unfold checkOperations. cbn [mo_Partition fillDefault KvModel default]. by rewrite Hf.
Qed.

(** A history without operations has no partition: the driver waits for a result that no
    goroutine sends, and only a timer ends it, with Unknown. *)
Theorem checkOperations_empty (sort : list (entry (KvInput + KvOutput)) -> list (entry (KvInput + KvOutput)))
    (verbose : bool) (fuel timer : nat) :
  checkOperations sort KvModel [] verbose fuel [] None = Ret None
  /\ checkOperations sort KvModel [] verbose fuel [] (Some timer) = Ret (Some Unknown)
  /\ store_linearizable [].
Proof. split_and!; [done|by destruct timer|]. exists []. split; [done|constructor|done]. Qed.

(** ** Witnesses *)

Lemma good_timed : Forall timed good_history.
Proof. repeat constructor; unfold timed; cbn; lia. Qed.

Lemma bad_timed : Forall timed bad_history.
Proof. repeat constructor; unfold timed; cbn; lia. Qed.

Lemma checkSingle_correct_witness :
  exists fuel0 b longest,
    (forall fuel, (fuel0 <= fuel)%nat ->
       checkSingle (fillDefault KvModel) (makeEntries byTime_sort bad_history) true fuel (fun _ => false) = Ret (Some (b, longest)))
    /\ (b = true <-> exists ids, linearizes (on_values Step) Init (makeEntries byTime_sort bad_history) ids).
Proof.
  destruct (checkSingle_correct (fillDefault KvModel) (on_values Step) ShallowEqual (makeEntries byTime_sort bad_history) true)
    as (fuel0 & b & longest & H1 & H2 & _).
  - apply kv_fits, byTime_sorts.
  - apply makeEntries_wf; [apply byTime_sorts|apply bad_timed].
  - vm_compute. reflexivity.
  - exists fuel0, b, longest. by split.
Defined.

Lemma checkOperations_decides_witness :
  exists fuel0 r,
    (forall fuel, (fuel0 <= fuel)%nat ->
       checkOperations byTime_sort KvModel good_history true fuel [1; 0]%nat None = Ret (Some r))
    /\ ((r = Ok /\ store_linearizable good_history) \/ (r = Illegal /\ ~ store_linearizable good_history)).
Proof.
  apply (checkOperations_decides byTime_sort good_history true [1; 0]%nat); [apply byTime_sorts|apply good_timed| |done|].
  - vm_compute. reflexivity.
  - assert (Hl : length (Partition good_history) = 2%nat) by (vm_compute; reflexivity). rewrite Hl. cbn. apply Permutation_swap.
Defined.

Lemma checkOperations_timeout_witness :
  exists fuel0 r,
    (forall fuel, (fuel0 <= fuel)%nat ->
       checkOperations byTime_sort KvModel bad_history false fuel [0]%nat (Some 1%nat) = Ret (Some r))
    /\ (r = Ok -> store_linearizable bad_history) /\ (r = Illegal -> ~ store_linearizable bad_history)
    /\ (r = Unknown -> Partition bad_history = [] \/ (1 < length (Partition bad_history))%nat).
Proof.
  apply (checkOperations_timeout byTime_sort bad_history false [0]%nat 1); [apply byTime_sorts|apply bad_timed| |].
  - vm_compute. reflexivity.
  - assert (Hl : length (Partition bad_history) = 1%nat) by (vm_compute; reflexivity). by rewrite Hl.
Defined.
