(* ===== verification/LinEvents.v ===== *)
(** checkEvents: renumbering the events of a partition gives a well-formed history, so
    that the search decides it. *)
From Stdlib Require Import ZArith Lia.
From stdpp Require Import base list numbers strings gmap.
From S2P Require Import Prelude KvModel Linked Checker CheckerSpec CheckerProof LinProps.

#[local] Open Scope Z_scope.

#[export] Instance EventKind_eq_dec : EqDecision EventKind.
Proof. solve_decision. Defined.

Section Events.
Context {V : Type}.
Implicit Types (v : Event V) (l events : list (Event V)).

Definition ev_key v : EventKind * Z := (ev_Kind v, ev_Id v).

(** Every operation is called once and then returns once. *)
Record paired events : Prop :=
  { pd_once : NoDup (ev_key <$> events);
    pd_return : forall a e w, events = a ++ e :: w -> ev_Kind e = CallEvent ->
                  exists r, r ∈ w /\ ev_Kind r = ReturnEvent /\ ev_Id r = ev_Id e;
    pd_call : forall r, r ∈ events -> ev_Kind r = ReturnEvent ->
                exists e, e ∈ events /\ ev_Kind e = CallEvent /\ ev_Id e = ev_Id r }.

Definition with_id (f : Z -> Z) v : Event V := mkEvent (ev_ClientId v) (ev_Kind v) (ev_Value v) (f (ev_Id v)).

(** The numbers given so far: different ids have different numbers below the next one. *)
Record numbering (m : gmap Z Z) (id : Z) : Prop :=
  { nb_next : id = Z.of_nat (size m);
    nb_range : forall k r, m !! k = Some r -> 0 <= r < id;
    nb_inj : forall k k' r, m !! k = Some r -> m !! k' = Some r -> k = k' }.

Lemma numbering_insert m id k : numbering m id -> m !! k = None -> numbering (<[k := id]> m) (id + 1).
Proof.
  intros [Hn Hr Hi] Hk. split.
  - rewrite map_size_insert_None by done. lia.
  - intros k' r' [[_ <-]|[_ Hl]]%lookup_insert_Some; [lia|]. specialize (Hr _ _ Hl). lia.
  - intros k1 k2 r' [[<- <-]|[_ H1]]%lookup_insert_Some [[<- Heq]|[_ H2]]%lookup_insert_Some; try done.
    + specialize (Hr _ _ H2). lia.
    + specialize (Hr _ _ H1). lia.
    + by eapply Hi.
Qed.

Lemma renumber_from_spec m id events :
  numbering m id ->
  exists m', m ⊆ m' /\ numbering m' (Z.of_nat (size m')) /\ dom m' = dom m ∪ list_to_set (ev_Id <$> events)
    /\ renumber_from m id events = with_id (fun i => default 0 (m' !! i)) <$> events.
Proof.
  revert m id. induction events as [|v events IH]; intros m id Hm.
  { exists m. split_and!; [done|by rewrite <- (nb_next _ _ Hm)|set_solver|done]. }
  cbn. destruct (m !! ev_Id v) as [r|] eqn:Hv.
  - destruct (IH m id Hm) as (m' & Hsub & Hn & Hd & Heq). exists m'. split_and!; [done|done| |].
    + rewrite Hd. assert (ev_Id v ∈ dom m) by (by apply elem_of_dom_2 in Hv). set_solver.
    + rewrite Heq. unfold with_id at 2. by rewrite (lookup_weaken _ _ _ _ Hv Hsub).
  - destruct (IH _ _ (numbering_insert m id (ev_Id v) Hm Hv)) as (m' & Hsub & Hn & Hd & Heq). exists m'. split_and!.
    + etrans; [|exact Hsub]. by apply insert_subseteq.
    + done.
    + rewrite Hd, dom_insert_L. set_solver.
    + rewrite Heq. unfold with_id at 2. by rewrite (lookup_weaken _ _ _ _ (lookup_insert_eq m _ id) Hsub).
Qed.

(** ** As many calls as operations, and as many returns *)

Definition of_kind (k : EventKind) events : list (Event V) := filter (fun v => ev_Kind v = k) events.

Lemma both_kinds events : length events = (length (of_kind CallEvent events) + length (of_kind ReturnEvent events))%nat.
Proof.
  unfold of_kind. induction events as [|v events IH]; [done|]. rewrite !filter_cons.
  destruct (ev_Kind v); repeat case_decide; try done; cbn; rewrite IH; lia.
Qed.

Lemma NoDup_of_kind k events : NoDup (ev_key <$> events) -> NoDup (ev_Id <$> of_kind k events).
Proof.
  unfold of_kind. induction events as [|v events IH]; intros Hnd; [constructor|]. cbn in Hnd.
  apply NoDup_cons in Hnd as [Hv Hnd]. rewrite filter_cons. case_decide as Hk; [|by apply IH]. cbn.
  apply NoDup_cons. split; [|by apply IH]. intros (w & Hw & [Hkw Hin]%list_elem_of_filter)%list_elem_of_fmap.
  apply Hv, list_elem_of_fmap. exists w. split; [|done]. unfold ev_key. congruence.
Qed.

Lemma paired_kind k events i : paired events -> i ∈ ev_Id <$> events -> i ∈ ev_Id <$> of_kind k events.
Proof.
  intros [_ Hret Hcall] (v & -> & Hv)%list_elem_of_fmap.
  assert (Hw : exists w, w ∈ events /\ ev_Kind w = k /\ ev_Id w = ev_Id v).
  { destruct (decide (ev_Kind v = k)) as [Hk|Hk]; [by exists v|]. destruct k, (ev_Kind v) eqn:Hkv; try done.
    - by apply Hcall.
    - apply list_elem_of_split in Hv as (a & w & Heq). destruct (Hret a v w Heq Hkv) as (r & Hr & ?). exists r.
      split; [|done]. rewrite Heq. apply elem_of_app. right. by right. }
  destruct Hw as (w & Hin & Hk & <-). apply list_elem_of_fmap_2, list_elem_of_filter. by split.
Qed.

Lemma paired_size events : paired events -> length events = (2 * size (list_to_set (ev_Id <$> events) : gset Z))%nat.
Proof.
  intros Hp. assert (Hk : forall k, length (of_kind k events) = size (list_to_set (ev_Id <$> events) : gset Z)).
  { intros k. rewrite <- (length_fmap ev_Id), <- (size_list_to_set (C := gset Z)) by (apply NoDup_of_kind, Hp).
    f_equal. apply set_eq. intros i. rewrite !elem_of_list_to_set. split.
    - intros (v & -> & [_ Hv]%list_elem_of_filter)%list_elem_of_fmap. by apply list_elem_of_fmap_2.
    - by apply paired_kind. }
  rewrite both_kinds, !Hk. lia.
Qed.

(** ** The entries *)

Definition kind_of (k : EventKind) : entryKind := match k with ReturnEvent => returnEntry | CallEvent => callEntry end.

Lemma convert_lookup f events i :
  convertEntries (with_id f <$> events) !! i
  = (fun u => mkEntry (kind_of (ev_Kind u)) (ev_Value u) (f (ev_Id u)) (Z.of_nat i) (ev_ClientId u)) <$> events !! i.
Proof. unfold convertEntries. rewrite list_lookup_imap, list_lookup_fmap. by destruct (events !! i). Qed.

Lemma renumber_spec events :
  exists f, renumber events = with_id f <$> events
    /\ (forall i, i ∈ ev_Id <$> events -> 0 <= f i < Z.of_nat (size (list_to_set (ev_Id <$> events) : gset Z)))
    /\ (forall i j, i ∈ ev_Id <$> events -> j ∈ ev_Id <$> events -> f i = f j -> i = j).
Proof.
  destruct (renumber_from_spec ∅ 0 events) as (m' & _ & Hn & Hd & Heq).
  { split; [done| |]; intros *; by rewrite lookup_empty. }
  assert (Hin : forall i, i ∈ ev_Id <$> events -> exists r, m' !! i = Some r).
  { intros i Hi. apply elem_of_dom. rewrite Hd. apply elem_of_union_r. by apply elem_of_list_to_set. }
  exists (fun i => default 0 (m' !! i)). split_and!; [done| |].
  - intros i Hi. destruct (Hin i Hi) as [r Hr]. rewrite Hr. cbn. pose proof (nb_range _ _ Hn _ _ Hr) as Hrange.
    rewrite <- size_dom, Hd, dom_empty_L, (left_id_L ∅ (∪)) in Hrange. done.
  - intros i j Hi Hj Hf. destruct (Hin i Hi) as [r Hr], (Hin j Hj) as [r' Hr']. rewrite Hr, Hr' in Hf. cbn in Hf. subst r'.
    by eapply (nb_inj _ _ Hn).
Qed.

Lemma convert_wf events : paired events -> well_formed (convertEntries (renumber events)).
Proof.
  intros Hp. destruct (renumber_spec events) as (f & Hf & Hrange & Hinj). rewrite Hf.
  assert (Hid : forall i u, events !! i = Some u -> ev_Id u ∈ ev_Id <$> events).
  { intros i u Hu. apply list_elem_of_fmap_2. by eapply list_elem_of_lookup_2. }
  split.
  - apply Forall_lookup. intros i e He. rewrite convert_lookup in He. destruct (events !! i) as [u|] eqn:Hu; [|done].
    injection He as <-. cbn. unfold convertEntries.
    rewrite length_imap, length_fmap, (paired_size events Hp), Nat2Z.inj_mul, Z.mul_comm, Z.quot_mul by lia.
    by eapply Hrange, Hid.
  - apply NoDup_alt. intros i j k Hi Hj. rewrite list_lookup_fmap, convert_lookup in Hi, Hj.
    destruct (events !! i) as [u|] eqn:Hu; [|done]. destruct (events !! j) as [u'|] eqn:Hu'; [|done].
    injection Hi as <-. injection Hj as Hkind Hfid. apply Hinj in Hfid; [|by eapply Hid..].
    eapply NoDup_lookup; [apply (pd_once _ Hp)| |]; rewrite list_lookup_fmap; [by rewrite Hu|rewrite Hu'; cbn].
    f_equal. unfold ev_key. f_equal; [|done]. by destruct (ev_Kind u), (ev_Kind u').
  - intros a e w HE He. assert (Hi : convertEntries (with_id f <$> events) !! length a = Some e).
    { rewrite HE. by apply list_lookup_middle. }
    rewrite convert_lookup in Hi. destruct (events !! length a) as [u|] eqn:Hu; [|done]. injection Hi as <-.
    pose proof (take_drop_middle _ _ _ Hu) as Hsplit.
    destruct (pd_return _ Hp _ _ _ (eq_sym Hsplit)) as (r & [j Hj]%list_elem_of_lookup & Hr & Hrid).
    { unfold is_call, kind_of in He. cbn in He. by destruct (ev_Kind u). }
    rewrite lookup_drop in Hj.
    assert (Hm : convertEntries (with_id f <$> events) !! (S (length a) + j)%nat
                 = Some (mkEntry returnEntry (ev_Value r) (f (ev_Id r)) (Z.of_nat (S (length a) + j)) (ev_ClientId r))).
    { rewrite convert_lookup, Hj. cbn. by rewrite Hr. }
    rewrite HE, lookup_app_r in Hm by lia. replace (S (length a) + j - length a)%nat with (S j) in Hm by lia. cbn in Hm.
    eexists. split; [by eapply list_elem_of_lookup_2|]. split; [done|]. cbn. by rewrite Hrid.
Qed.

End Events.

(** checkEvents terminates and decides: Ok when every partition has a linearization,
    Illegal otherwise, for every partition function whose groups call and return each
    operation once. *)
Theorem checkEvents_decides {I O S : Type} `{EqDecision S} (model : Model I O S) (step : S -> I + O -> I + O -> bool * S)
    (equal : S -> S -> bool) (parts : list (list (Event (I + O)))) (history : list (Event (I + O))) (verbose : bool) (order : list nat)
  (Hparts : default NoPartition (mo_PartitionEvent model) history = parts) (Hne : parts <> [])
  (Hpaired : Forall paired parts) (Hlen : Forall (fun p => Z.of_nat (length p) < 2 ^ 63) parts)
  (Hfit : Forall (fun p => fits (fillDefault model) step equal (convertEntries (renumber p))) parts)
  (Horder : order ≡ₚ seq 0 (length parts)) :
  exists fuel0 r,
    (forall fuel, (fuel0 <= fuel)%nat -> checkEvents model history verbose fuel order None = Ret (Some r))
    /\ (r = Ok \/ r = Illegal)
    /\ (r = Ok <-> Forall (fun p => exists ids, linearizes step (mo_Init model) (convertEntries (renumber p)) ids) parts).
Proof.
  set (good := fun E => exists ids, linearizes step (mo_Init model) E ids).
  destruct (parallel_decides (fillDefault model) verbose good ((fun p => convertEntries (renumber p)) <$> parts) order)
    as (f & r & Hf & Hr).
  - apply Forall_fmap, Forall_forall. intros p Hp. rewrite Forall_forall in Hpaired, Hlen, Hfit.
    destruct (Hfit p Hp) as [Heq Hstep Hbisim].
    destruct (checkSingle_decides (fillDefault model) equal step Heq Hbisim _ (convert_wf p (Hpaired p Hp)) Hstep) with (cp := verbose)
      as (f & b & l & H1 & H2 & _ & _); [|by exists f, b, l].
    specialize (Hlen p Hp). destruct (renumber_spec p) as (g & -> & _). unfold convertEntries. by rewrite length_imap, length_fmap.
  - by intros ?%fmap_nil_inv.
  - by rewrite length_fmap.
  - exists f, r. rewrite Forall_fmap in Hr. split_and!.
    + intros fuel Hle. unfold checkEvents. cbn [mo_PartitionEvent fillDefault]. by rewrite Hparts, Hf.
    + tauto.
    + destruct Hr as [[-> Hg]|[-> Hg]]; split; done || (intros; exfalso; by apply Hg).
Qed.

(** ** Witness: two overlapping operations on one value *)

#[local] Open Scope string_scope.

Definition put_call : Event (KvInput + KvOutput) := mkEvent 0 CallEvent (inl (mkKvInput 1 "x" "a")) 7.
Definition get_call : Event (KvInput + KvOutput) := mkEvent 1 CallEvent (inl (mkKvInput 0 "x" "")) 3.
Definition put_return : Event (KvInput + KvOutput) := mkEvent 0 ReturnEvent (inr (mkKvOutput "")) 7.
Definition get_return : Event (KvInput + KvOutput) := mkEvent 1 ReturnEvent (inr (mkKvOutput "")) 3.
Definition two_events : list (Event (KvInput + KvOutput)) := [put_call; get_call; put_return; get_return].

Ltac pick x := exists x; split; [set_solver|split; reflexivity].

Lemma two_paired : paired two_events.
Proof.
  split.
  - apply (bool_decide_unpack _). vm_compute. exact Logic.I.
  - intros a e w Heq He. unfold two_events in Heq.
    do 4 (destruct a as [|? a]; [injection Heq as <- <-; try done; first [pick put_return|pick get_return]
                                |injection Heq as <- Heq]). by destruct a.
  - intros r Hr Hk. unfold two_events in *. rewrite !elem_of_cons, elem_of_nil in Hr.
    destruct Hr as [->|[->|[->|[->|[]]]]]; try done; first [pick put_call|pick get_call].
Qed.

Lemma two_fits : fits (fillDefault KvModel) (Linear.on_values Step) ShallowEqual (convertEntries (renumber two_events)).
Proof.
  split; [done| |].
  - intros e m st He Hm Hc Hr. revert He Hm.
    let x := eval vm_compute in (convertEntries (renumber two_events)) in change (convertEntries (renumber two_events)) with x.
    intros He Hm. rewrite !elem_of_cons, elem_of_nil in He, Hm.
    destruct He as [->|[->|[->|[->|[]]]]]; try done; destruct Hm as [->|[->|[->|[->|[]]]]]; done.
  - intros s t v w. apply shallow_bisim.
Qed.

Lemma checkEvents_decides_witness :
  exists fuel0 r,
    (forall fuel, (fuel0 <= fuel)%nat -> checkEvents KvModel two_events false fuel [0]%nat None = Ret (Some r))
    /\ (r = Ok \/ r = Illegal)
    /\ (r = Ok <-> Forall (fun p => exists ids, linearizes (Linear.on_values Step) Init (convertEntries (renumber p)) ids) [two_events]).
Proof.
  apply (checkEvents_decides KvModel (Linear.on_values Step) ShallowEqual [two_events] two_events false [0]%nat); try done.
  - constructor; [apply two_paired|constructor].
  - by repeat constructor.
  - constructor; [apply two_fits|constructor].
Defined.
