(* ===== verification/Visual.v ===== *)
(** What the checker shows for a history: computeVisualizationData of
    src/src/porcupine/visualization.go.

    [describe] and [show] are DescribeOperation and DescribeState of the model, the first
    of values that may be nil; [sort] is sort.Slice with the longer slices first.  The
    JSON and HTML output is left out. *)
From Stdlib Require Import ZArith Lia.
From stdpp Require Import base list numbers strings gmap.
From S2P Require Import Prelude Bitset KvModel Linked Checker CheckerSpec CheckerProof LinProps.

#[local] Open Scope Z_scope.

Record historyElement := mkHistoryElement { ClientId : Z; Start : Z; End : Z; Description : string }.
Definition element0 : historyElement := mkHistoryElement 0 0 0 "".

Record partitionVisualizationData := mkPartitionData
  { History : list historyElement;
    PartialLinearizations : list (list (Z * string));
    Largest : gmap Z nat }.

Section Visual.
Context {I O S : Type} `{EqDecision S} (model : Model I O S).
Abbreviation V := (I + O)%type.
Context (describe : option V -> option V -> res string) (show : S -> string).
Context (sort : list (list Z) -> list (list Z)).

(** ** The history of a partition *)

Record Fill := mkFill { fl_history : list historyElement; fl_call : gmap Z V; fl_return : gmap Z V }.

Definition update_element (id : Z) (f : historyElement -> historyElement) : M Fill unit :=
  h ← gets fl_history;
  x ← lift (go_idx h id);
  h' ← lift (go_set h id (f x));
  modify (fun s => mkFill h' (fl_call s) (fl_return s)).

Definition fill (elem : entry V) : M Fill unit :=
  match en_kind elem with
  | callEntry =>
      update_element (en_id elem) (fun x => mkHistoryElement (en_clientId elem) (en_time elem) (End x) (Description x));;
      modify (fun s => mkFill (fl_history s) (<[en_id elem := en_value elem]> (fl_call s)) (fl_return s))
  | returnEntry =>
      call ← gets (fun s => fl_call s !! en_id elem);
      d ← lift (describe call (Some (en_value elem)));
      update_element (en_id elem) (fun x => mkHistoryElement (ClientId x) (Start x) (en_time elem) d);;
      modify (fun s => mkFill (fl_history s) (fl_call s) (<[en_id elem := en_value elem]> (fl_return s)))
  end.

(** ** The partial linearizations *)

Record Trail := mkTrail { tr_state : S; tr_steps : list (Z * string); tr_size : gmap Z nat; tr_index : gmap Z nat }.

(** The body of the inner loop, for the [i]-th slice, of length [size]. *)
Definition trail_step (calls returns : gmap Z V) (i size : nat) (histId : Z) : M Trail unit :=
  st ← gets tr_state;
  v ← lift (not_nil (calls !! histId));
  w ← lift (not_nil (returns !! histId));
  r ← lift (mo_Step model st v w);
  if fst r : bool then
    modify (fun s => mkTrail (snd r) (tr_steps s ++ [(histId, show (snd r))]) (tr_size s) (tr_index s));;
    sz ← gets (fun s => default 0%nat (tr_size s !! histId));
    when (sz <? size)%nat
      (modify (fun s => mkTrail (tr_state s) (tr_steps s) (<[histId := size]> (tr_size s)) (<[histId := i]> (tr_index s))))
  else lift Panic.

(** The body of the outer loop; the state is what is kept between the slices. *)
Definition trail (calls returns : gmap Z V) (i : nat) (partial : list Z) : M (gmap Z nat * gmap Z nat) (list (Z * string)) := fun '(size, index) =>
  match m_for partial (trail_step calls returns i (length partial)) (mkTrail (mo_Init model) [] size index) with
  | (s, Ret _) => ((tr_size s, tr_index s), Ret (tr_steps s))
  | (s, Panic) => ((tr_size s, tr_index s), Panic)
  end.

Definition visualize_partition (history : list (entry V)) (partials : list (list Z)) : res partitionVisualizationData :=
  match m_for history fill (mkFill (replicate (length history / 2) element0) ∅ ∅) with
  | (_, Panic) => Panic
  | (s, Ret _) =>
      let sorted := sort partials in
      match m_map (fun '(i, partial) => trail (fl_call s) (fl_return s) i partial) (zip (seq 0 (length sorted)) sorted) (∅, ∅) with
      | (_, Panic) => Panic
      | ((_, index), Ret lins) => Ret (mkPartitionData (fl_history s) lins index)
      end
  end.

(** [info.partialLinearizations[partition]] is indexed. *)
Definition computeVisualizationData (history : list (list (entry V))) (partialLinearizations : list (list (list Z)))
    : res (list partitionVisualizationData) :=
  snd (m_map (fun '(i, h) =>
         partials ← lift (go_idx partialLinearizations (Z.of_nat i));
         lift (visualize_partition h partials)) (zip (seq 0 (length history)) history) tt).

End Visual.

(** ** porcupine.go: the entry points

    A timeout of 0 is no timer. *)
Section Entry.
Context {I O S : Type} `{EqDecision S} (model : Model I O S).
Abbreviation V := (I + O)%type.
Context (sortEntries : list (entry V) -> list (entry V)) (fuel : nat) (order : list nat).

Definition is_Ok (r : CheckResult) : bool := match r with Ok => true | _ => false end.

Definition and_Ok (r : res (option CheckResult)) : res (option bool) :=
  match r with Ret o => Ret (is_Ok <$> o) | Panic => Panic end.

Definition CheckOperations (history : list (Operation I O)) : res (option bool) :=
  and_Ok (checkOperations sortEntries model history false fuel order None).
Definition CheckOperationsTimeout (history : list (Operation I O)) (timer : option nat) : res (option CheckResult) :=
  checkOperations sortEntries model history false fuel order timer.
Definition CheckOperationsVerbose (history : list (Operation I O)) (timer : option nat) : res (option CheckResult) :=
  checkOperations sortEntries model history true fuel order timer.
Definition CheckEvents (history : list (Event V)) : res (option bool) := and_Ok (checkEvents model history false fuel order None).
Definition CheckEventsTimeout (history : list (Event V)) (timer : option nat) : res (option CheckResult) :=
  checkEvents model history false fuel order timer.
Definition CheckEventsVerbose (history : list (Event V)) (timer : option nat) : res (option CheckResult) :=
  checkEvents model history true fuel order timer.

End Entry.

(** ** models/kv.go: the description of an operation

    The values are asserted to be a KvInput and a KvOutput. *)
Definition DescribeOperation (input output : option (KvInput + KvOutput)) : res string :=
  match input, output with
  | Some (inl inp), Some (inr out) =>
      Ret (if (kin_Op inp =? 0)%Z then "get('" +:+ kin_Key inp +:+ "') -> '" +:+ kout_Value out +:+ "'"
           else if (kin_Op inp =? 1)%Z then "put('" +:+ kin_Key inp +:+ "', '" +:+ kin_Value inp +:+ "')"
           else if (kin_Op inp =? 2)%Z then "append('" +:+ kin_Key inp +:+ "', '" +:+ kin_Value inp +:+ "')"
           else "<invalid>")%string
  | _, _ => Panic
  end.
