(* ===== verification/VisualProps.v ===== *)
(** The visualization of what the checker reports: it never panics, every operation is
    shown with its own client and times, and Largest points to a longest partial
    linearization of each operation. *)
From Stdlib Require Import ZArith Lia Sorted.
From stdpp Require Import base list numbers strings sorting gmap.
From S2P Require Import Prelude Bitset KvModel Linked NetOps Checker CheckerSpec CheckerProof Linear LinProps Visual.

#[local] Open Scope Z_scope.

(** [sort] puts the longer slices first. *)
Definition sorts_by_length (sort : list (list Z) -> list (list Z)) : Prop :=
  forall l, Permutation (sort l) l /\ StronglySorted (fun a b : list Z => (length b <= length a)%nat) (sort l).

(** The operations of a linearization as it is shown. *)
Definition shown (l : list (Z * string)) : list Z := l.*1.

(** What is shown of a partition: every operation with its client, its times and the
    description of its values; the slices; and for each operation a slice that has it,
    none longer. *)
Record view_of {V : Type} (describe : option V -> option V -> res string) (E : list (entry V)) (partials : list (list Z))
    (data : partitionVisualizationData) : Prop :=
  { vw_len : length (History data) = (length E / 2)%nat;
    vw_history : forall e m, e ∈ E -> m ∈ E -> is_call e -> is_return m -> en_id e = en_id m ->
         exists d, describe (Some (en_value e)) (Some (en_value m)) = Ret d
           /\ History data !! Z.to_nat (en_id e) = Some (mkHistoryElement (en_clientId e) (en_time e) (en_time m) d);
    vw_slices : Permutation (shown <$> PartialLinearizations data) partials;
    vw_largest : forall id, match Largest data !! id with
                    | Some k => exists p, (shown <$> PartialLinearizations data) !! k = Some p /\ id ∈ p
                                  /\ forall q, q ∈ partials -> id ∈ q -> (length q <= length p)%nat
                    | None => forall q, q ∈ partials -> id ∉ q
                    end }.

Section Proofs.
Context {I O S : Type} `{EqDecision S} (model : Model I O S).
Abbreviation V := (I + O)%type.
Context (step : S -> V -> V -> bool * S) (equal : S -> S -> bool).
Context (describe : option V -> option V -> res string) (show : S -> string).
Context (sort : list (list Z) -> list (list Z)).
Context (E : list (entry V)) (HE : well_formed E) (Hfit : fits model step equal E).
Context (Hdesc : forall e m, e ∈ E -> m ∈ E -> is_call e -> is_return m -> exists d, describe (Some (en_value e)) (Some (en_value m)) = Ret d).

(** ** Every return has its call before it *)

Definition ops : Z := Z.of_nat (length E) ÷ 2.

Lemma all_keys k i : 0 <= i < ops -> exists e, e ∈ E /\ key e = (k, i).
Proof.
  intros Hi. set (K := ((callEntry,.) <$> seqZ 0 ops) ++ ((returnEntry,.) <$> seqZ 0 ops)).
  assert (Hlen : (length K <= length (key <$> E))%nat).
  { unfold K. rewrite length_app, !length_fmap, length_seqZ. unfold ops.
    pose proof (Z.mul_quot_le (Z.of_nat (length E)) 2). rewrite Z.quot_div_nonneg in * by lia. lia. }
  assert (Hsub : (key <$> E) ⊆ K).
  { intros kk (e & -> & He)%list_elem_of_fmap. pose proof (wf_ids E HE) as Hids. rewrite Forall_forall in Hids. specialize (Hids e He).
    apply elem_of_app. unfold key. destruct (en_kind e); [left|right]; apply list_elem_of_fmap; exists (en_id e); (split; [done|]); apply elem_of_seqZ; unfold ops; lia. }
  assert (Hp : (key <$> E) ≡ₚ K) by (apply submseteq_length_Permutation; [apply NoDup_submseteq; [apply HE|done]|done]).
  assert (Hin : (k, i) ∈ key <$> E).
  { rewrite Hp. apply elem_of_app. destruct k; [left|right]; apply list_elem_of_fmap; exists i; (split; [done|]); apply elem_of_seqZ; lia. }
  apply list_elem_of_fmap in Hin as (e & Hk & He). by exists e.
Qed.

Lemma call_first x m y : E = x ++ m :: y -> is_return m -> exists e, e ∈ x /\ is_call e /\ en_id e = en_id m.
Proof.
  intros HEq Hm. assert (HmE : m ∈ E) by (rewrite HEq; set_solver).
  pose proof (wf_ids E HE) as Hids. rewrite Forall_forall in Hids. specialize (Hids m HmE).
  destruct (all_keys callEntry (en_id m)) as (e & He & Hk); [unfold ops; lia|]. injection Hk as Hkind Hid.
  exists e. split; [|done]. rewrite HEq in He. apply elem_of_app in He as [?|[->|Hy]%elem_of_cons]; [done| |].
  { unfold is_return in Hm. congruence. }
  exfalso. apply list_elem_of_split in Hy as (y1 & y2 & ->).
  destruct (wf_match E HE (x ++ m :: y1) e y2) as (m' & Hm' & Hr' & Hid'); [rewrite HEq; by rewrite <- app_assoc|done|].
  pose proof (wf_keys E HE) as Hnd. rewrite HEq, fmap_app in Hnd. apply NoDup_app in Hnd as (_ & _ & Hnd). simpl in Hnd.
  apply NoDup_cons in Hnd as [Hnot _]. apply Hnot. apply list_elem_of_fmap. exists m'. split; [|set_solver].
  unfold key, is_return in *. congruence.
Qed.

(** ** The history *)

Record filled (x : list (entry V)) (s : Fill (I:=I) (O:=O)) : Prop :=
  { fd_len : length (fl_history s) = (length E / 2)%nat;
    fd_call : forall i v, fl_call s !! i = Some v <-> exists e, e ∈ x /\ is_call e /\ en_id e = i /\ en_value e = v;
    fd_return : forall i v, fl_return s !! i = Some v <-> exists m, m ∈ x /\ is_return m /\ en_id m = i /\ en_value m = v;
    fd_called : forall e, e ∈ x -> is_call e -> exists h, fl_history s !! Z.to_nat (en_id e) = Some h /\ ClientId h = en_clientId e /\ Start h = en_time e;
    fd_returned : forall e m, e ∈ x -> m ∈ x -> is_call e -> is_return m -> en_id e = en_id m ->
        exists h, fl_history s !! Z.to_nat (en_id m) = Some h /\ End h = en_time m
          /\ describe (Some (en_value e)) (Some (en_value m)) = Ret (Description h) }.

Lemma run_update (s : Fill (I:=I) (O:=O)) id h f :
  0 <= id -> fl_history s !! Z.to_nat id = Some h ->
  update_element id f s = (mkFill (<[Z.to_nat id := f h]> (fl_history s)) (fl_call s) (fl_return s), Ret tt).
Proof.
  intros Hid Hh. unfold update_element. m_exec. assert (Hg : go_idx (fl_history s) id = Ret h) by (by apply go_idx_lookup). rewrite Hg.
  rewrite go_set_ok by (apply lookup_lt_Some in Hh; lia). done.
Qed.

Lemma id_slot e : e ∈ E -> 0 <= en_id e /\ (Z.to_nat (en_id e) < length E / 2)%nat.
Proof.
  intros He. pose proof (wf_ids E HE) as Hids. rewrite Forall_forall in Hids. specialize (Hids e He).
  rewrite Z.quot_div_nonneg in Hids by lia. split; [lia|]. apply Nat2Z.inj_lt. rewrite Nat2Z.inj_div, Z2Nat.id by lia. simpl. lia.
Qed.

(** No other entry of a prefix has the key of the next one. *)
Lemma fresh_key x e y e' : E = x ++ e :: y -> e' ∈ x -> en_kind e' = en_kind e -> en_id e' <> en_id e.
Proof.
  intros HEq He' Hk Hid. pose proof (wf_keys E HE) as Hnd. rewrite HEq, fmap_app in Hnd. apply NoDup_app in Hnd as (_ & Hnd & _).
  apply (Hnd (key e)); [|left]. apply list_elem_of_fmap. exists e'. split; [unfold key; congruence|done].
Qed.

Lemma fill_call x e y s :
  E = x ++ e :: y -> is_call e -> filled x s -> exists s', fill describe e s = (s', Ret tt) /\ filled (x ++ [e]) s'.
Proof.
  intros HEq He [F1 F2 F3 F4 F5]. assert (HeE : e ∈ E) by (rewrite HEq; set_solver). destruct (id_slot e HeE) as [Hid Hlt]. rewrite <- F1 in Hlt.
  destruct (lookup_lt_is_Some_2 _ _ Hlt) as [h Hh]. unfold fill. rewrite He. rewrite (bind_run _ _ _ _ _ (run_update s _ h _ Hid Hh)).
  eexists. split; [done|]. assert (Hother : forall e', e' ∈ x -> is_call e' -> en_id e' <> en_id e).
  { intros e' He' Hc'. eapply (fresh_key x e y); [done|done|]. unfold is_call in *. congruence. }
  split; simpl.
  - by rewrite length_insert.
  - intros i v. rewrite lookup_insert_Some, F2. setoid_rewrite elem_of_app. setoid_rewrite list_elem_of_singleton. split.
    + intros [[<- <-]|[_ (e' & ? & ? & ? & ?)]]; [by exists e; auto|by exists e'; auto].
    + intros (e' & [Hx| ->] & Hc & <- & <-); [right; split; [intros Heq; by apply (Hother e')|by exists e']|by left].
  - intros i v. rewrite F3. setoid_rewrite elem_of_app. setoid_rewrite list_elem_of_singleton. split.
    + intros (m & ? & ?). by exists m; auto.
    + intros (m & [Hx| ->] & Hr & Hrest); [by exists m|]. unfold is_call, is_return in *. congruence.
  - intros e' [Hx|Heq]%elem_of_app Hc.
    + destruct (F4 e' Hx Hc) as (h' & Hh' & ?). exists h'. split; [|done]. rewrite list_lookup_insert_ne; [done|].
      destruct (id_slot e') as [? _]; [rewrite HEq; set_solver|]. intros Hz. apply (Hother e' Hx Hc). lia.
    + apply list_elem_of_singleton in Heq as ->. rewrite list_lookup_insert_eq by done. by eexists.
  - intros e' m He' Hm Hc Hr Hi. apply elem_of_app in Hm as [Hm|Hm]; [|apply list_elem_of_singleton in Hm as ->; unfold is_call, is_return in *; congruence].
    assert (Hm' : exists x1 x2, x = x1 ++ m :: x2) by (by apply list_elem_of_split). destruct Hm' as (x1 & x2 & Hx).
    destruct (call_first x1 m (x2 ++ e :: y)) as (e1 & He1 & Hc1 & Hi1); [rewrite HEq, Hx; by rewrite <- app_assoc|done|].
    assert (He1x : e1 ∈ x) by (rewrite Hx; set_solver).
    assert (e' = e1) as ->.
    { eapply (key_unique E HE); [rewrite HEq; set_solver..|]. unfold key, is_call in *. congruence. }
    destruct (F5 e1 m He1x Hm Hc1 Hr Hi1) as (h' & Hh' & ?). exists h'. split; [|done]. rewrite list_lookup_insert_ne; [done|].
    destruct (id_slot m) as [? _]; [rewrite HEq; set_solver|]. intros Hz. apply (Hother e1 He1x Hc1). lia.
Qed.

Lemma fill_return x m y s :
  E = x ++ m :: y -> is_return m -> filled x s -> exists s', fill describe m s = (s', Ret tt) /\ filled (x ++ [m]) s'.
Proof.
  intros HEq Hm [F1 F2 F3 F4 F5]. assert (HmE : m ∈ E) by (rewrite HEq; set_solver). destruct (id_slot m HmE) as [Hid Hlt]. rewrite <- F1 in Hlt.
  destruct (call_first x m y HEq Hm) as (e & Hex & Hc & Hide). assert (HeE : e ∈ E) by (rewrite HEq; set_solver).
  destruct (Hdesc e m HeE HmE Hc Hm) as [d Hd]. destruct (F4 e Hex Hc) as (h & Hh & Hcl & Hst). rewrite Hide in Hh.
  assert (Hcall : fl_call s !! en_id m = Some (en_value e)) by (apply F2; by exists e).
  unfold fill. rewrite Hm. rewrite (bind_run _ _ s s (Some (en_value e))) by (unfold gets; by rewrite Hcall).
  rewrite (bind_run _ _ s s d) by (unfold lift; by rewrite Hd). rewrite (bind_run _ _ _ _ _ (run_update s _ h _ Hid Hh)).
  eexists. split; [done|].
  assert (Hother : forall m', m' ∈ x -> is_return m' -> en_id m' <> en_id m).
  { intros m' Hm' Hr'. eapply (fresh_key x m y); [done|done|]. unfold is_return in *. congruence. }
  split; simpl.
  - by rewrite length_insert.
  - intros i v. rewrite F2. setoid_rewrite elem_of_app. setoid_rewrite list_elem_of_singleton. split.
    + intros (e' & ? & ?). by exists e'; auto.
    + intros (e' & [Hx| ->] & Hr & Hrest); [by exists e'|]. unfold is_call, is_return in *. congruence.
  - intros i v. rewrite lookup_insert_Some, F3. setoid_rewrite elem_of_app. setoid_rewrite list_elem_of_singleton. split.
    + intros [[<- <-]|[_ (e' & ? & ? & ? & ?)]]; [by exists m; auto|by exists e'; auto].
    + intros (e' & [Hx| ->] & Hr & <- & <-); [right; split; [intros Heq; by apply (Hother e')|by exists e']|by left].
  - intros e' [Hx|Heq]%elem_of_app Hc'; [|apply list_elem_of_singleton in Heq as ->; unfold is_call, is_return in *; congruence].
    destruct (F4 e' Hx Hc') as (h' & Hh' & ? & ?). destruct (decide (Z.to_nat (en_id e') = Z.to_nat (en_id m))) as [Hz|Hz].
    + rewrite Hz in *. rewrite list_lookup_insert_eq by done. rewrite Hh in Hh'. injection Hh' as <-. by eexists.
    + rewrite list_lookup_insert_ne by done. by exists h'.
  - intros e' m' He' Hm' Hc' Hr' Hi. apply elem_of_app in He' as [He'|He']; [|apply list_elem_of_singleton in He' as ->; unfold is_call, is_return in *; congruence].
    apply elem_of_app in Hm' as [Hm'|Hm'].
    + destruct (F5 e' m' He' Hm' Hc' Hr' Hi) as (h' & Hh' & ?). exists h'. split; [|done]. rewrite list_lookup_insert_ne; [done|].
      destruct (id_slot m') as [? _]; [rewrite HEq; set_solver|]. intros Hz. apply (Hother m' Hm' Hr'). lia.
    + apply list_elem_of_singleton in Hm' as ->. rewrite list_lookup_insert_eq by done. eexists. split; [done|]. simpl. split; [done|].
      assert (e' = e) as ->; [|done]. eapply (key_unique E HE); [rewrite HEq; set_solver|done|]. unfold key, is_call in *. congruence.
Qed.

Lemma run_fill x y s0 :
  E = x ++ y -> filled x s0 -> exists s, m_for y (fill describe) s0 = (s, Ret tt) /\ filled E s.
Proof.
  revert x s0. induction y as [|e y IH]; intros x s0 HEq Hf.
  { exists s0. split; [done|]. rewrite app_nil_r in HEq. by subst x. }
  assert (Hs : exists s', fill describe e s0 = (s', Ret tt) /\ filled (x ++ [e]) s').
  { destruct (en_kind e) eqn:Hk; [by eapply fill_call|by eapply fill_return]. }
  destruct Hs as (s1 & R1 & F1'). cbn [m_for]. rewrite (bind_run _ _ _ _ _ R1). apply (IH (x ++ [e])); [by rewrite <- app_assoc|done].
Qed.

Lemma filled_start : filled [] (mkFill (replicate (length E / 2) element0) ∅ ∅).
Proof.
  split; simpl; try (by intros ? ?%elem_of_nil); try (by intros ? ? ?%elem_of_nil); [apply length_replicate|..];
    intros i v; rewrite lookup_empty; (split; [done|]); by intros (? & ?%elem_of_nil & _).
Qed.

(** ** The partial linearizations *)


Lemma upto_incl s0 l ids s' l' : linearizes_upto step s0 l ids s' l' -> forall e, e ∈ l' -> e ∈ l.
Proof. induction 1 as [|s0 l ids s1 a e b m c s2 Hu IH]; [done|]. intros e' He'. apply IH. set_solver. Qed.

(** What a slice does to [size] or [index]: [new] for its operations that had less. *)
Definition raised (seq : list Z) (size0 : gmap Z nat) (size : nat) (m0 m : gmap Z nat) (new : nat) : Prop :=
  forall id, m !! id = if decide (id ∈ seq /\ (default 0%nat (size0 !! id) < size)%nat) then Some new else m0 !! id.

Section Trails.
Context (calls returns : gmap Z V).
Context (Hcalls : forall e, e ∈ E -> is_call e -> calls !! en_id e = Some (en_value e)).
Context (Hreturns : forall m, m ∈ E -> is_return m -> returns !! en_id m = Some (en_value m)).

Lemma run_trail_steps i size size0 index0 s0 l seq s' l' :
  linearizes_upto step s0 l seq s' l' -> (forall e, e ∈ l -> e ∈ E) ->
  exists steps size1 index1, m_for seq (trail_step model show calls returns i size) (mkTrail s0 [] size0 index0)
      = (mkTrail s' steps size1 index1, Ret tt)
    /\ shown steps = seq /\ raised seq size0 size size0 size1 size /\ raised seq size0 size index0 index1 i.
Proof.
  intros Hu Hl. induction Hu as [s0 l|s0 l ids s1 a e b m c s2 Hu IH Ha He Hm Hid Hst].
  { exists [], size0, index0. split; [done|]. split; [done|]. by split; intros id; rewrite decide_False by (by intros [?%elem_of_nil _]). }
  destruct (IH Hl) as (steps & size1 & index1 & R & Hsteps & Hr1 & Hr2). rewrite (m_for_app _ _ _ _ _ R). cbn [m_for].
  assert (HeE : e ∈ E) by (apply Hl; eapply upto_incl; [exact Hu|set_solver]). assert (HmE : m ∈ E) by (apply Hl; eapply upto_incl; [exact Hu|set_solver]).
  set (t1 := mkTrail s1 steps size1 index1).
  set (bigger := (default 0%nat (size1 !! en_id e) <? size)%nat).
  assert (Hstep1 : trail_step model show calls returns i size (en_id e) t1
    = (mkTrail s2 (steps ++ [(en_id e, show s2)]) (if bigger then <[en_id e := size]> size1 else size1) (if bigger then <[en_id e := i]> index1 else index1), Ret tt)).
  { unfold trail_step. rewrite (bind_run _ _ t1 t1 s1) by done. rewrite (Hcalls e HeE He).
    rewrite (bind_run _ _ t1 t1 (en_value e)) by done. rewrite <- Hid, (Hreturns m HmE Hm).
    rewrite (bind_run _ _ t1 t1 (en_value m)) by done. rewrite (ft_step _ _ _ _ Hfit e m s1 HeE HmE He Hm), Hst.
    rewrite (bind_run _ _ t1 t1 (true, s2)) by done. cbn [fst snd]. m_exec. unfold bigger. rewrite Hid. by destruct (_ <? _)%nat. }
  rewrite (bind_run _ _ _ _ _ Hstep1). eexists _, _, _. split; [done|]. split; [unfold shown in *; by rewrite fmap_app, Hsteps|].
  assert (Hup : forall m0 m1 new, raised ids size0 size m0 m1 new -> raised (ids ++ [en_id e]) size0 size m0 (if bigger then <[en_id e := new]> m1 else m1) new).
  { intros m0 m1 new Hr id. unfold bigger. rewrite (Hr1 (en_id e)). destruct (decide (id = en_id e)) as [->|Hne].
    - destruct (decide (en_id e ∈ ids /\ (default 0%nat (size0 !! en_id e) < size)%nat)) as [[Hin Hlt]|Hno].
      + simpl. rewrite Nat.ltb_irrefl, (Hr (en_id e)). rewrite !decide_True by (split; [|done]; set_solver). done.
      + destruct (Nat.ltb_spec (default 0%nat (size0 !! en_id e)) size) as [Hlt|Hge].
        * rewrite lookup_insert_eq, decide_True by (split; [set_solver|done]). done.
        * rewrite (Hr (en_id e)). rewrite !decide_False by (intros [_ ?]; lia). done.
    - match goal with |- context [if ?b then <[_ := _]> _ else _] => transitivity (m1 !! id); [destruct b; [by rewrite lookup_insert_ne by done|done]|] end.
      rewrite (Hr id).
      apply decide_ext. set_solver. }
  by split; apply Hup.
Qed.

(** *** All slices, the longer ones first *)

Definition partial_ok (p : list Z) : Prop := exists s' l', linearizes_upto step (mo_Init model) E p s' l'.

(** After the slices [done]: each operation has its first slice. *)
Definition first_slices (ps : list (list Z)) (size index : gmap Z nat) : Prop :=
  forall id, (index !! id = None /\ size !! id = None /\ (forall p, p ∈ ps -> id ∉ p))
    \/ exists k p, ps !! k = Some p /\ id ∈ p /\ index !! id = Some k /\ size !! id = Some (length p)
         /\ forall q, q ∈ ps -> id ∈ q -> (length q <= length p)%nat.

Lemma first_slices_snoc ps p size index size' index' :
  first_slices ps size index -> (forall q, q ∈ ps -> (length p <= length q)%nat) ->
  raised p size (length p) size size' (length p) -> raised p size (length p) index index' (length ps) -> first_slices (ps ++ [p]) size' index'.
Proof.
  intros Hf Hle Hs Hi id. rewrite (Hs id), (Hi id). destruct (Hf id) as [(Hn1 & Hn2 & Hno)|(k & q & Hk & Hin & Hx & Hz & Hmax)].
  - rewrite Hn1, Hn2. simpl. destruct (decide (id ∈ p)) as [Hp|Hp].
    + right. exists (length ps), p. rewrite lookup_app_r, Nat.sub_diag by lia. split; [done|]. split; [done|].
      assert (0 < length p)%nat by (destruct p; [by apply elem_of_nil in Hp|simpl; lia]). rewrite !decide_True by done.
      split; [done|]. split; [done|]. intros q. rewrite elem_of_app, list_elem_of_singleton. intros [Hq| ->] Hidq; [by destruct (Hno q Hq)|done].
    + left. rewrite !decide_False by (intros [? _]; done). split; [done|]. split; [done|].
      intros q [Hq|Hq]%elem_of_app; [by apply Hno|]. by apply list_elem_of_singleton in Hq as ->.
  - right. exists k, q. rewrite Hx, Hz. simpl. pose proof (Hle q (list_elem_of_lookup_2 _ _ _ Hk)).
    rewrite !decide_False by (intros [_ ?]; lia). split; [by apply lookup_app_l_Some|]. split_and!; try done.
    intros r. rewrite elem_of_app, list_elem_of_singleton. intros [Hr| ->] Hidr; [by apply Hmax|done].
Qed.

Lemma run_trails (ps rest : list (list Z)) size index :
  Forall partial_ok rest -> StronglySorted (fun a b : list Z => (length b <= length a)%nat) (ps ++ rest) -> first_slices ps size index ->
  exists size' index' lins, m_map (fun '(i, partial) => trail model show calls returns i partial) (zip (seq (length ps) (length rest)) rest) (size, index)
      = ((size', index'), Ret lins)
    /\ (shown <$> lins) = rest /\ first_slices (ps ++ rest) size' index'.
Proof.
  revert ps size index. induction rest as [|p rest IH]; intros ps size index Hok Hsort Hf.
  { exists size, index, []. split; [done|]. split; [done|]. by rewrite app_nil_r. }
  apply Forall_cons in Hok as [(s' & l' & Hu) Hok]. cbn [seq length zip m_map].
  destruct (run_trail_steps (length ps) (length p) size index _ _ p s' l' Hu) as (steps & size1 & index1 & R & Hsteps & Hr1 & Hr2); [done|].
  assert (Hf1 : first_slices (ps ++ [p]) size1 index1).
  { eapply first_slices_snoc; try done. intros q Hq. apply list_elem_of_split in Hq as (l1 & l2 & ->).
    clear - Hsort. rewrite <- app_assoc in Hsort. induction l1 as [|x l1 IH1]; simpl in Hsort; apply StronglySorted_inv in Hsort as [Hs Hx]; [|by apply IH1].
    rewrite Forall_forall in Hx. apply Hx. set_solver. }
  destruct (IH (ps ++ [p]) size1 index1) as (size' & index' & lins & R' & Hl & Hf'); [done|by rewrite <- app_assoc|done|].
  exists size', index', (steps :: lins). rewrite (bind_run _ _ (size, index) (size1, index1) steps) by (unfold trail; by rewrite R).
  rewrite length_app, Nat.add_1_r in R'. rewrite (bind_run _ _ _ _ _ R'). split; [done|]. split; [rewrite fmap_cons; by rewrite Hsteps, Hl|].
  by rewrite <- app_assoc in Hf'.
Qed.

End Trails.

Lemma visualize_ok partials :
  sorts_by_length sort -> Forall partial_ok partials ->
  exists data, visualize_partition model describe show sort E partials = Ret data /\ view_of describe E partials data.
Proof.
  intros Hsort Hok. destruct (Hsort partials) as [Hperm Hss]. unfold visualize_partition.
  destruct (run_fill [] E _ eq_refl filled_start) as (s & R & [F1 F2 F3 F4 F5]). rewrite R.
  destruct (run_trails (fl_call s) (fl_return s)) with (ps := @nil (list Z)) (rest := sort partials) (size := (∅ : gmap Z nat)) (index := (∅ : gmap Z nat))
    as (size & index & lins & R' & Hl & Hf).
  { intros e He Hc. apply F2. by exists e. } { intros m Hm Hr. apply F3. by exists m. } { by rewrite Hperm. } { done. }
  { intros id. left. rewrite !lookup_empty. split_and!; try done. by intros p ?%elem_of_nil. }
  simpl in R'. rewrite R'. eexists. split; [done|]. split; simpl.
  - done.
  - intros e m He Hm Hc Hr Hid. destruct (F4 e He Hc) as (h & Hh & Hcl & Hst). destruct (F5 e m He Hm Hc Hr Hid) as (h' & Hh' & Hend & Hd).
    rewrite <- Hid, Hh in Hh'. injection Hh' as <-. exists (Description h). split; [done|]. rewrite Hh. f_equal. destruct h. simpl in *. congruence.
  - by rewrite Hl.
  - intros id. rewrite Hl. destruct (Hf id) as [(-> & _ & Hno)|(k & p & Hk & Hin & -> & _ & Hmax)].
    + intros q Hq. apply Hno. simpl. by rewrite Hperm.
    + exists p. split; [done|]. split; [done|]. intros q Hq Hidq. apply Hmax; [|done]. simpl. by rewrite Hperm.
Qed.

End Proofs.

(** ** All partitions *)

Section Whole.
Context {I O S : Type} `{EqDecision S} (model : Model I O S).
Abbreviation V := (I + O)%type.
Context (step : S -> V -> V -> bool * S) (equal : S -> S -> bool).
Context (describe : option V -> option V -> res string) (show : S -> string) (sort : list (list Z) -> list (list Z)).
Implicit Types (E : list (entry V)).

(** A history that the checker accepts as input, with operations that can be described. *)
Record viewable E : Prop :=
  { vb_wf : well_formed E;
    vb_fits : fits model step equal E;
    vb_len : Z.of_nat (length E) < 2 ^ 63;
    vb_describe : forall e m, e ∈ E -> m ∈ E -> is_call e -> is_return m ->
      exists d, describe (Some (en_value e)) (Some (en_value m)) = Ret d }.

Lemma compute_views (Es : list (list (entry V))) (before pss : list (list (list Z))) :
  Forall2 (fun E ps => exists data, visualize_partition model describe show sort E ps = Ret data /\ view_of describe E ps data) Es pss ->
  exists datas, snd (m_map (fun '(i, h) =>
         partials ← lift (go_idx (before ++ pss) (Z.of_nat i));
         lift (visualize_partition model describe show sort h partials)) (zip (seq (length before) (length Es)) Es) tt) = Ret datas
    /\ Forall2 (fun x data => view_of describe (fst x) (snd x) data) (zip Es pss) datas.
Proof.
  intros Hv. revert before. induction Hv as [|E ps Es pss (data & Hd & Hview) Hv IH]; intros before; [by exists []|].
  destruct (IH (before ++ [ps])) as (datas & Hrest & Hviews). exists (data :: datas). split; [|by constructor].
  cbn [seq length zip m_map]. rewrite (bind_run _ _ tt tt data); cycle 1.
  { rewrite (bind_run _ _ tt tt ps); [unfold lift; by rewrite Hd|]. unfold lift. f_equal. apply go_idx_lookup. split; [lia|].
    by rewrite Nat2Z.id, lookup_app_r, Nat.sub_diag by lia. }
  rewrite <- app_assoc, length_app, Nat.add_1_r in Hrest. simpl in Hrest.
  destruct (m_map _ _ tt) as [[] r] eqn:Em. simpl in Hrest. subst r. rewrite (bind_run _ _ _ _ _ Em). done.
Qed.

(** C27.  The visualization of a check never panics: for partitions that the checker takes as
    input, the verbose search of each partition ends with some [longest]; whatever the order
    in which their distinct slices are listed, computeVisualizationData returns a view of
    every partition: all operations with their clients, times and descriptions, exactly the
    slices, and for each operation a longest slice that has it. *)
Theorem visualize_checked (Es : list (list (entry V))) :
  sorts_by_length sort -> Forall viewable Es ->
  exists fuel0 (longests : list (list (option (nat * list Z)))),
    (forall fuel, (fuel0 <= fuel)%nat ->
       Forall2 (fun E longest => exists b, checkSingle model E true fuel (fun _ => false) = Ret (Some (b, longest))) Es longests)
    /\ forall pss, Forall2 (fun ps longest => Permutation ps (partials_of [] longest)) pss longests ->
       exists datas, computeVisualizationData model describe show sort Es pss = Ret datas
         /\ Forall2 (fun x data => view_of describe (fst x) (snd x) data) (zip Es pss) datas.
Proof.
  intros Hsort HEs.
  assert (Hall : exists fuel0 longests,
    (forall fuel, (fuel0 <= fuel)%nat ->
       Forall2 (fun E longest => exists b, checkSingle model E true fuel (fun _ => false) = Ret (Some (b, longest))) Es longests)
    /\ Forall2 (fun E longest => forall p, p ∈ partials_of [] longest -> partial_ok model step E p) Es longests).
  { induction HEs as [|E Es [Hwf Hf Hl Hd] _ (f1 & ls & H1 & H2)]; [by exists 0%nat, []|]. pose proof Hf as [Heq Hstep Hbisim].
    destruct (checkSingle_decides model equal step Heq Hbisim E Hwf Hstep Hl true) as (f2 & b & l & Hc & _ & [_ Hok] & _).
    exists (f1 `max` f2)%nat, (l :: ls). split.
    - intros fuel Hle. constructor; [exists b; apply Hc; lia|]. apply H1. lia.
    - constructor; [|done]. intros p (k & [i Hi]%list_elem_of_lookup)%partials_elem. by eapply Hok. }
  destruct Hall as (fuel0 & longests & H1 & H2). exists fuel0, longests. split; [done|]. intros pss Hp.
  apply (compute_views Es [] pss). clear H1. revert pss Hp HEs.
  induction H2 as [|E l Es longests Hok _ IH]; intros pss Hp HEs.
  - apply Forall2_nil_inv_r in Hp as ->. constructor.
  - apply Forall2_cons_inv_r in Hp as (ps & pss' & Hps & Hp & ->). apply Forall_cons in HEs as [[Hwf Hf Hl Hd] HEs]. constructor; [|by apply IH].
    eapply (visualize_ok model step equal); [done|done|done|done|]. apply Forall_forall. intros p Hin. apply Hok. by rewrite <- Hps.
Qed.

End Whole.

(** ** The key/value model *)

Definition longer (a b : list Z) : Prop := (length b <= length a)%nat.
#[export] Instance longer_dec : RelDecision longer.
Proof. intros a b. unfold longer. apply _. Defined.
#[export] Instance longer_trans : Transitive longer.
Proof. intros a b c. unfold longer. lia. Qed.
#[export] Instance longer_total : Total longer.
Proof. intros a b. unfold longer. lia. Qed.
Definition longer_first : list (list Z) -> list (list Z) := merge_sort longer.

Lemma longer_first_sorts : sorts_by_length longer_first.
Proof.
  intros l. split; [apply merge_sort_Permutation|]. apply (StronglySorted_merge_sort longer).
Qed.

Lemma kv_viewable sort h :
  sorts sort -> Forall timed h -> Z.of_nat (length h) < 2 ^ 62 ->
  viewable (fillDefault KvModel) (on_values Step) ShallowEqual DescribeOperation (makeEntries sort h).
Proof.
  intros Hs Ht Hl. split; [by apply makeEntries_wf|by apply kv_fits|rewrite length_makeEntries by done; lia|].
  intros e m He Hm Hc Hr. rewrite makeEntries_perm in He, Hm by done.
  apply call_elem in He as (x & _ & ->); [|done]. apply return_elem in Hm as (y & _ & ->); [|done]. by eexists.
Qed.

(** The history that is not linearizable. *)
Lemma visualize_checked_witness :
  exists fuel0 (longests : list (list (option (nat * list Z)))),
    (forall fuel, (fuel0 <= fuel)%nat ->
       Forall2 (fun E longest => exists b, checkSingle (fillDefault KvModel) E true fuel (fun _ => false) = Ret (Some (b, longest)))
         [makeEntries byTime_sort bad_history] longests)
    /\ forall pss, Forall2 (fun ps longest => Permutation ps (partials_of [] longest)) pss longests ->
       exists datas, computeVisualizationData (fillDefault KvModel) DescribeOperation (fun s : string => s) longer_first
           [makeEntries byTime_sort bad_history] pss = Ret datas
         /\ Forall2 (fun x data => view_of DescribeOperation (fst x) (snd x) data) (zip [makeEntries byTime_sort bad_history] pss) datas.
Proof.
  apply (visualize_checked (fillDefault KvModel) (on_values Step) ShallowEqual DescribeOperation (fun s : string => s) longer_first);
    [exact longer_first_sorts|].
  constructor; [|constructor]. apply kv_viewable; [apply byTime_sorts|apply bad_timed|vm_compute; reflexivity].
Defined.
