(* ===== verification/Shard.v ===== *)
(** The clerks of the sharded services: src/src/shardctrler/client.go and
    src/src/shardkv/client.go with the types of their common.go.  The servers of both
    services are empty handlers in this repository, so the answers of the calls are
    given: an answer is None when Call returned false. *)
From Stdlib Require Import ZArith Lia.
From stdpp Require Import base list numbers strings gmap.
From S2P Require Import Prelude.

#[local] Open Scope string_scope.
#[local] Open Scope Z_scope.

(** ** shardctrler *)
Module ShardCtrler.

Definition NShards : Z := 10.

Record Config := mkConfig { Num : Z; Shards : list Z; Groups : gmap Z (list string) }.

Record JoinArgs := mkJoinArgs { Servers : gmap Z (list string) }.
Record JoinReply := mkJoinReply { jr_WrongLeader : bool; jr_Err : string }.
Record LeaveArgs := mkLeaveArgs { GIDs : list Z }.
Record LeaveReply := mkLeaveReply { lr_WrongLeader : bool; lr_Err : string }.
Record MoveArgs := mkMoveArgs { Shard : Z; GID : Z }.
Record MoveReply := mkMoveReply { mr_WrongLeader : bool; mr_Err : string }.
Record QueryArgs := mkQueryArgs { q_Num : Z }.
Record QueryReply := mkQueryReply { qr_WrongLeader : bool; qr_Err : string; qr_Config : Config }.

(** The clerk: how many servers it knows. *)
Record Clerk := mkClerk { servers : nat }.
Definition MakeClerk (n : nat) : Clerk := mkClerk n.

(** The two nested loops that try each known server over and over, from server
    [srv]; the result has the servers called and the first answer that is not from a
    wrong leader.  Without servers no call is ever made. *)
Fixpoint try_servers {R} (wrong : R -> bool) (n srv : nat) (answers : list (option R))
    : list nat * option R :=
  match answers with
  | [] => ([], None)
  | a :: answers' =>
      if Nat.eqb n 0 then ([], None)
      else
        let next := if Nat.eqb (S srv) n then 0%nat else S srv in
        match a with
        | Some r =>
            if wrong r then let '(l, v) := try_servers wrong n next answers' in (srv :: l, v)
            else ([srv], Some r)
        | None => let '(l, v) := try_servers wrong n next answers' in (srv :: l, v)
        end
  end.

Definition Query (num : Z) (answers : list (option QueryReply)) (ck : Clerk)
    : QueryArgs * list nat * option Config :=
  let '(l, v) := try_servers qr_WrongLeader (servers ck) 0 answers in
  (mkQueryArgs num, l, qr_Config <$> v).

Definition Join (ss : gmap Z (list string)) (answers : list (option JoinReply)) (ck : Clerk)
    : JoinArgs * list nat * option unit :=
  let '(l, v) := try_servers jr_WrongLeader (servers ck) 0 answers in
  (mkJoinArgs ss, l, (fun _ => tt) <$> v).

Definition Leave (gids : list Z) (answers : list (option LeaveReply)) (ck : Clerk)
    : LeaveArgs * list nat * option unit :=
  let '(l, v) := try_servers lr_WrongLeader (servers ck) 0 answers in
  (mkLeaveArgs gids, l, (fun _ => tt) <$> v).

Definition Move (shard gid : Z) (answers : list (option MoveReply)) (ck : Clerk)
    : MoveArgs * list nat * option unit :=
  let '(l, v) := try_servers mr_WrongLeader (servers ck) 0 answers in
  (mkMoveArgs shard gid, l, (fun _ => tt) <$> v).

(** The servers are called in rotation, and the first usable answer ends the loop. *)
Lemma try_servers_rotates {R} (wrong : R -> bool) n srv bad r rest :
  (srv < n)%nat -> Forall (fun a => match a with Some x => wrong x = true | None => True end) bad ->
  wrong r = false ->
  try_servers wrong n srv (bad ++ Some r :: rest)%list
  = ((fun k => (srv + k) mod n)%nat <$> seq 0 (S (length bad)), Some r).
Proof.
  intros Hsrv Hbad Hr. revert srv Hsrv. induction Hbad as [|a bad Ha _ IH]; intros srv Hsrv.
  - cbn [app try_servers]. destruct (Nat.eqb_spec n 0); [lia|]. rewrite Hr. cbn. f_equal. f_equal.
    rewrite Nat.add_0_r, Nat.mod_small; [done|lia].
  - cbn [app try_servers]. destruct (Nat.eqb_spec n 0); [lia|].
    set (next := if Nat.eqb (S srv) n then 0%nat else S srv).
    assert (Hn : next = (S srv mod n)%nat).
    { unfold next. destruct (Nat.eqb_spec (S srv) n) as [->|]; [symmetry; apply Nat.Div0.mod_same|].
      symmetry. apply Nat.mod_small. lia. }
    assert (Hlt : (next < n)%nat) by (rewrite Hn; apply Nat.mod_upper_bound; lia).
    rewrite (IH next Hlt). change (seq 0 (S (length (a :: bad)))) with (0%nat :: seq 1 (S (length bad))).
    rewrite <- (fmap_S_seq 0), fmap_cons, <- list_fmap_compose, Nat.add_0_r, (Nat.mod_small srv) by lia.
    assert (E : ((fun k => (next + k) mod n)%nat <$> seq 0 (S (length bad)))
                = ((fun k => (srv + k) mod n)%nat ∘ S) <$> seq 0 (S (length bad))).
    { apply list_fmap_ext. intros i k _. cbn. rewrite Hn, Nat.Div0.add_mod_idemp_l. f_equal. lia. }
    rewrite <- E. destruct a as [x|]; [|done]. by rewrite Ha.
Qed.

End ShardCtrler.

(** ** shardkv *)
Module ShardKv.
Import ShardCtrler.

Definition OK : string := "OK".
Definition ErrNoKey : string := "ErrNoKey".
Definition ErrWrongGroup : string := "ErrWrongGroup".

Record PutAppendArgs := mkPutAppendArgs { pa_Key : string; pa_Value : string; pa_Op : string }.
Record PutAppendReply := mkPutAppendReply { pr_Err : string }.
Record GetArgs := mkGetArgs { g_Key : string }.
Record GetReply := mkGetReply { gr_Err : string; gr_Value : string }.

Definition key2shard (key : string) : Z :=
  let shard := match key with
               | EmptyString => 0
               | String a _ => Z.of_nat (Ascii.nat_of_ascii a)
               end in
  Z.rem shard NShards.

(** How the loop over the servers of a group ends. *)
Inductive Attempt (R : Type) := Answered (r : R) | GiveUp.
Arguments Answered {R} r.
Arguments GiveUp {R}.

(** The loop over [servers]: the names called, and the answer it returns with; [done]
    and [moved] are the conditions of the return and of the break.  None when the
    answers run out. *)
Fixpoint ask_group {R} (done moved : R -> bool) (group : list string) (answers : list (option R))
    : list string * option (Attempt R) :=
  match group with
  | [] => ([], Some GiveUp)
  | srv :: group' =>
      match answers with
      | [] => ([], None)
      | a :: answers' =>
          match a with
          | Some r =>
              if done r then ([srv], Some (Answered r))
              else if moved r then ([srv], Some GiveUp)
              else let '(l, v) := ask_group done moved group' answers' in (srv :: l, v)
          | None => let '(l, v) := ask_group done moved group' answers' in (srv :: l, v)
          end
      end
  end.

(** The outer loop.  Each round has the answers of the group's servers and the
    configuration that the controller returns at the end of the round.  Panic: the
    shard is not an index of Shards. *)
Fixpoint request {R} (done moved : R -> bool) (key : string)
    (rounds : list (list (option R) * Config)) (config : Config)
    : res (list (Config * list string) * option R * Config) :=
  match rounds with
  | [] => Ret ([], None, config)
  | (answers, config') :: rounds' =>
      match go_idx (Shards config) (key2shard key) with
      | Panic => Panic
      | Ret gid =>
          let '(called, v) := match Groups config !! gid with
                              | Some group => ask_group done moved group answers
                              | None => ([], Some GiveUp)
                              end in
          match v with
          | Some (Answered r) => Ret ([(config, called)], Some r, config)
          | None => Ret ([(config, called)], None, config)
          | Some GiveUp =>
              match request done moved key rounds' config' with
              | Panic => Panic
              | Ret (l, r, c) => Ret ((config, called) :: l, r, c)
              end
          end
      end
  end.

Definition get_done (r : GetReply) : bool := bool_decide (gr_Err r = OK) || bool_decide (gr_Err r = ErrNoKey).
Definition get_moved (r : GetReply) : bool := bool_decide (gr_Err r = ErrWrongGroup).
Definition put_done (r : PutAppendReply) : bool := bool_decide (pr_Err r = OK).
Definition put_moved (r : PutAppendReply) : bool := bool_decide (pr_Err r = ErrWrongGroup).

Definition Get (key : string) (rounds : list (list (option GetReply) * Config)) (config : Config) :=
  request get_done get_moved key rounds config.

Definition PutAppend (key : string) (rounds : list (list (option PutAppendReply) * Config)) (config : Config) :=
  request put_done put_moved key rounds config.

(** A configuration whose shard array has the declared length. *)
Definition config_ok (c : Config) : Prop := Z.of_nat (length (Shards c)) = NShards.

Lemma key2shard_range key : 0 <= key2shard key < NShards.
Proof. unfold key2shard. apply Z.rem_bound_pos; [destruct key; lia|done]. Qed.

Lemma ask_group_calls {R} (done moved : R -> bool) group answers :
  (ask_group done moved group answers).1 `prefix_of` group.
Proof.
  revert answers. induction group as [|srv group IH]; intros [|a answers]; cbn; try apply prefix_nil.
  destruct (ask_group done moved group answers) as [l v] eqn:E. specialize (IH answers). rewrite E in IH.
  assert (H1 : [srv] `prefix_of` srv :: group) by apply prefix_cons, prefix_nil.
  destruct a as [r|]; [|by apply prefix_cons].
  destruct (done r); [done|]. destruct (moved r); [done|]. by apply prefix_cons.
Qed.

(** A request never panics on well-formed configurations, and each round calls only
    servers of the group that owns the key's shard in the configuration of the round. *)
Lemma request_routes {R} (done moved : R -> bool) key rounds config :
  config_ok config -> Forall (fun x => config_ok x.2) rounds ->
  exists l r c, request done moved key rounds config = Ret (l, r, c)
    /\ Forall (fun '(cf, called) =>
         called <> [] -> exists gid group, Shards cf !! Z.to_nat (key2shard key) = Some gid
                         /\ Groups cf !! gid = Some group /\ called `prefix_of` group) l.
Proof.
  intros Hc Hr. revert config Hc. induction Hr as [|[answers config'] rounds Hc' _ IH]; intros config Hc.
  { by exists [], None, config. }
  cbn [request]. pose proof (key2shard_range key) as Hk. unfold config_ok in Hc.
  destruct (go_idx_ok (Shards config) (key2shard key)) as [gid Hg]; [lia|]. rewrite Hg.
  apply go_idx_lookup in Hg as [_ Hg].
  set (x := match Groups config !! gid with
            | Some group => ask_group done moved group answers | None => ([], Some GiveUp) end).
  assert (Hx : x.1 <> [] -> exists gid group, Shards config !! Z.to_nat (key2shard key) = Some gid
                            /\ Groups config !! gid = Some group /\ x.1 `prefix_of` group).
  { unfold x. destruct (Groups config !! gid) as [group|] eqn:E; [|done].
    intros _. exists gid, group. split_and!; [done|done|apply ask_group_calls]. }
  destruct x as [called v]. cbn in Hx. destruct v as [[r|]|].
  - exists [(config, called)], (Some r), config. split; [done|]. by repeat constructor.
  - destruct (IH config' Hc') as (l & r & c & -> & Hl). exists ((config, called) :: l), r, c.
    split; [done|]. by constructor.
  - exists [(config, called)], None, config. split; [done|]. by repeat constructor.
Qed.

End ShardKv.
