(* ===== verification/ShardServers.v ===== *)
(** The server of the shard controller (src/src/shardctrler/server.go): it starts a Raft peer
    and has empty handlers.  What the clerk makes of the answers of such servers. *)
From Stdlib Require Import ZArith Lia.
From stdpp Require Import base list numbers strings gmap.
From S2P Require Import Prelude RaftTypes RaftNode Shard.

#[local] Open Scope Z_scope.

(** ** shardctrler/server.go *)
Module CtrlServer.
Import Shard.ShardCtrler.

(** Op is a struct without fields. *)
Definition Op : Type := unit.

Record ShardCtrler := mkShardCtrler { sc_me : Z; sc_rf : Raft Op; configs : list Config }.

(** The zero value, with an empty map for Groups. *)
Definition config0 : Config := mkConfig 0 (replicate (Z.to_nat NShards) 0) ∅.

Section Server.
Context `{LabGob Op}.

Definition StartServer (n : nat) (me now : Z) (persister : Persister) : ShardCtrler * res unit :=
  match Make n me now persister with (rf, r) => (mkShardCtrler me rf [config0], r) end.

Definition Kill : M ShardCtrler unit := fun sc =>
  match RaftNode.Kill (sc_rf sc) with (rf, r) => (mkShardCtrler (sc_me sc) rf (configs sc), r) end.

Definition get_raft (sc : ShardCtrler) : Raft Op := sc_rf sc.

(** The handlers: the reply stays what the caller of the method made it, the zero value. *)
Definition Join (args : JoinArgs) (reply : JoinReply) : M ShardCtrler JoinReply := mret reply.
Definition Leave (args : LeaveArgs) (reply : LeaveReply) : M ShardCtrler LeaveReply := mret reply.
Definition Move (args : MoveArgs) (reply : MoveReply) : M ShardCtrler MoveReply := mret reply.
Definition Query (args : QueryArgs) (reply : QueryReply) : M ShardCtrler QueryReply := mret reply.

End Server.

(** The reply that the service dispatcher allocates for a call. *)
Definition join_reply0 : JoinReply := mkJoinReply false "".
Definition query_reply0 : QueryReply := mkQueryReply false "" config0.

(** A server that is called: the reply of its handler. *)
Definition answer {A R : Type} (h : A -> R -> M ShardCtrler R) (args : A) (reply0 : R) (sc : ShardCtrler) : option R :=
  match h args reply0 sc with (_, Ret r) => Some r | (_, Panic) => None end.

End CtrlServer.

(** ** The services as they stand *)
Section Stubs.
Import Shard.ShardCtrler.

(** The controller does not do what it acknowledges: whatever servers are lost or answer,
    as soon as one call gets through, the clerk's Join returns as if the groups had been
    added, no server has changed, and a Query after it gives configuration 0, without
    groups. *)
Lemma ctrl_ignores_join (ss : gmap Z (list string)) (num : Z) (sc : CtrlServer.ShardCtrler) (ck : Clerk)
    (lost : list (option JoinReply)) (lost' : list (option QueryReply)) rest rest' :
  (0 < servers ck)%nat -> Forall (fun a => a = None) lost -> Forall (fun a => a = None) lost' ->
  let sc' := fst (CtrlServer.Join (mkJoinArgs ss) CtrlServer.join_reply0 sc) in
  sc' = sc
  /\ snd (Join ss (lost ++ CtrlServer.answer CtrlServer.Join (mkJoinArgs ss) CtrlServer.join_reply0 sc :: rest) ck) = Some tt
  /\ snd (Query num (lost' ++ CtrlServer.answer CtrlServer.Query (mkQueryArgs num) CtrlServer.query_reply0 sc' :: rest') ck)
     = Some CtrlServer.config0.
Proof.
  intros Hn Hl Hl' sc'. split; [done|]. unfold Join, Query, CtrlServer.answer, CtrlServer.Join, CtrlServer.Query. simpl.
  rewrite (try_servers_rotates jr_WrongLeader _ _ lost CtrlServer.join_reply0 rest Hn); [|by eapply Forall_impl; [exact Hl|]; intros ? ->|done].
  by rewrite (try_servers_rotates qr_WrongLeader _ _ lost' CtrlServer.query_reply0 rest' Hn); [|eapply Forall_impl; [exact Hl'|]; intros ? ->|].
Qed.

End Stubs.
