(* ===== verification/ShardKvServer.v ===== *)
(** The server of the sharded key/value service (src/src/shardkv/server.go): it starts a Raft
    peer and has empty handlers. *)
From Stdlib Require Import ZArith Lia.
From stdpp Require Import base list numbers strings gmap.
From S2P Require Import Prelude RaftTypes RaftNode Shard.

#[local] Open Scope Z_scope.

Module KvServer.
Import Shard.ShardKv.

Definition Op : Type := unit.

Record ShardKV := mkShardKV
  { kv_me : Z; kv_rf : Raft Op; kv_gid : Z; kv_ctrlers : list string; kv_maxraftstate : Z }.

Section Server.
Context `{LabGob Op}.

Definition StartServer (n : nat) (me now : Z) (persister : Persister) (maxraftstate gid : Z) (ctrlers : list string) : ShardKV * res unit :=
  match Make n me now persister with (rf, r) => (mkShardKV me rf gid ctrlers maxraftstate, r) end.

Definition Kill : M ShardKV unit := fun kv =>
  match RaftNode.Kill (kv_rf kv) with (rf, r) => (mkShardKV (kv_me kv) rf (kv_gid kv) (kv_ctrlers kv) (kv_maxraftstate kv), r) end.

Definition Get (args : GetArgs) (reply : GetReply) : M ShardKV GetReply := mret reply.
Definition PutAppend (args : PutAppendArgs) (reply : PutAppendReply) : M ShardKV PutAppendReply := mret reply.

End Server.

End KvServer.
