(* ===== verification/ShardConfig.v ===== *)
(** The test harness of the sharded service: src/src/shardkv/config.go.

    Groups of shard servers and services of controllers share one network of labrpc, where
    end points and servers have names that are strings.  A controller service is an object
    that tests pass around, and more than one can be started: [sh_ctlers] is the store of
    these objects and a controller service is its index.  [Saved] is the pointer to a
    Persister, as in RaftConfig.v.  The names of randstring are a sequence [rnd], of which
    [sh_random] have been drawn; [clock] gives the time at which the servers are started.
    A clerk is a pointer: a number.  A slice of names that is nil has no element, as one
    that is empty.  [pretty] prints a number as strconv.Itoa does. *)
From Stdlib Require Import ZArith Lia.
From stdpp Require Import base list numbers strings gmap pretty.
From S2P Require Import Prelude RaftTypes RaftNode LabRpc NetOps RaftConfig SvcConfig Shard ShardServers ShardKvServer.

#[local] Open Scope Z_scope.
Import ShardServers.CtrlServer ShardKvServer.KvServer.
Abbreviation CtrlClerk := ShardCtrler.Clerk.

(** ** State *)

Record group := mkGroup
  { gg_gid : Z;
    gg_servers : list (option ShardKV);
    gg_saved : list Saved;
    gg_endnames : list (list string);
    gg_mendnames : list (list string) }.

Record ctrler := mkCtrler
  { ct_n : nat;
    ct_servers : list (option ShardCtrler);
    ct_names : list string;
    ct_ck : option CtrlClerk }.

Record config := mkShardConfig
  { sh_net : Network string;
    sh_ctlers : list ctrler;
    sh_ctl : nat;
    sh_ngroups : nat;
    sh_n : nat;
    sh_groups : list group;
    sh_clerks : gmap nat (list string);
    sh_nextClientId : Z;
    sh_maxraftstate : Z;
    sh_objects : nat; (* labrpc servers made so far *)
    sh_random : nat }. (* random strings drawn so far *)

Abbreviation CM := (M config).

Definition set_shnet (x : Network string) (c : config) : config :=
  mkShardConfig x (sh_ctlers c) (sh_ctl c) (sh_ngroups c) (sh_n c) (sh_groups c) (sh_clerks c) (sh_nextClientId c) (sh_maxraftstate c) (sh_objects c) (sh_random c).
Definition set_shctlers (x : list ctrler) (c : config) : config :=
  mkShardConfig (sh_net c) x (sh_ctl c) (sh_ngroups c) (sh_n c) (sh_groups c) (sh_clerks c) (sh_nextClientId c) (sh_maxraftstate c) (sh_objects c) (sh_random c).
Definition set_shgroups (x : list group) (c : config) : config :=
  mkShardConfig (sh_net c) (sh_ctlers c) (sh_ctl c) (sh_ngroups c) (sh_n c) x (sh_clerks c) (sh_nextClientId c) (sh_maxraftstate c) (sh_objects c) (sh_random c).
Definition set_shclerks (x : gmap nat (list string)) (next : Z) (c : config) : config :=
  mkShardConfig (sh_net c) (sh_ctlers c) (sh_ctl c) (sh_ngroups c) (sh_n c) (sh_groups c) x next (sh_maxraftstate c) (sh_objects c) (sh_random c).
Definition set_shobjects (x : nat) (c : config) : config :=
  mkShardConfig (sh_net c) (sh_ctlers c) (sh_ctl c) (sh_ngroups c) (sh_n c) (sh_groups c) (sh_clerks c) (sh_nextClientId c) (sh_maxraftstate c) x (sh_random c).
Definition set_shape (ctl ngroups n : nat) (c : config) : config :=
  mkShardConfig (sh_net c) (sh_ctlers c) ctl ngroups n (sh_groups c) (sh_clerks c) (sh_nextClientId c) (sh_maxraftstate c) (sh_objects c) (sh_random c).

Definition set_random (x : nat) (c : config) : config :=
  mkShardConfig (sh_net c) (sh_ctlers c) (sh_ctl c) (sh_ngroups c) (sh_n c) (sh_groups c) (sh_clerks c) (sh_nextClientId c) (sh_maxraftstate c) (sh_objects c) x.

Definition set_servers_of (x : list (option ShardKV)) (g : group) : group := mkGroup (gg_gid g) x (gg_saved g) (gg_endnames g) (gg_mendnames g).
Definition set_saved_of (x : list Saved) (g : group) : group := mkGroup (gg_gid g) (gg_servers g) x (gg_endnames g) (gg_mendnames g).
Definition set_endnames_of (x : list (list string)) (g : group) : group := mkGroup (gg_gid g) (gg_servers g) (gg_saved g) x (gg_mendnames g).
Definition set_mendnames_of (x : list (list string)) (g : group) : group := mkGroup (gg_gid g) (gg_servers g) (gg_saved g) (gg_endnames g) x.
Definition set_ctservers (x : list (option ShardCtrler)) (ct : ctrler) : ctrler := mkCtrler (ct_n ct) x (ct_names ct) (ct_ck ct).
Definition set_ctck (x : CtrlClerk) (ct : ctrler) : ctrler := mkCtrler (ct_n ct) (ct_servers ct) (ct_names ct) (Some x).

Definition on_shnet {A : Type} (m : M (Network string) A) : CM A := fun c =>
  match m (sh_net c) with (rn', a) => (set_shnet rn' c, a) end.

(** An operation on the group [cfg.groups[gi]], or on the controller service [k]. *)
Definition on_group {A : Type} (gi : nat) (m : M group A) : CM A :=
  g ← at_server sh_groups gi;
  match m g with (g', r) => put_server sh_groups set_shgroups gi g';; lift r end.

Definition on_ctl {A : Type} (k : nat) (m : M ctrler A) : CM A :=
  ct ← at_server sh_ctlers k;
  match m ct with (ct', r) => put_server sh_ctlers set_shctlers k ct';; lift r end.

(** ** Names and end points *)

Definition ctrlername (k i : nat) : CM string := on_ctl k (at_server ct_names i).

Definition servername (gid : Z) (i : nat) : string := "server-" +:+ pretty gid +:+ "-" +:+ pretty i.

(** A loop with a variable. *)
Fixpoint m_fold {S A B : Type} (l : list A) (f : B -> A -> M S B) (b : B) : M S B :=
  match l with
  | [] => mret b
  | x :: l' => b' ← f b x; m_fold l' f b'
  end.

(** [MakeEnd], [Connect] and [Enable] of an end point. *)
Definition wire_end (e : string) (sn : CM string) : CM unit :=
  on_shnet (MakeEnd e);; s ← sn; on_shnet (Connect e s);; on_shnet (Enable e true).

Section Harness.
Context `{LabGob unit} (rnd : nat -> string) (clock : nat -> Z).

Definition randstring : CM string := k ← gets sh_random; modify (set_random (k + 1));; mret (rnd k).

Definition new_end (sn : CM string) : CM string := e ← randstring; wire_end e sn;; mret e.

(** The function that servers and clerks are given. *)
Definition make_end (servername : string) : CM string := new_end (mret servername).

(** ** Controllers *)

(** End points to the [n] controllers of service [k]. *)
Definition ctrler_ends (k n : nat) : CM (list string) := m_map (fun j => new_end (ctrlername k j)) (seq 0 n).

(** Nobody else refers to the server's Persister. *)
Definition StartCtrlerServer (k i : nat) : CM unit :=
  n ← on_ctl k (gets ct_n);
  ends ← ctrler_ends k n;
  o ← gets sh_objects;
  match CtrlServer.StartServer (length ends) (Z.of_nat i) (clock o) MakePersister with
  | (sc, r) =>
      lift r;;
      on_ctl k (put_server ct_servers set_ctservers i (Some sc));;
      modify (set_shobjects (o + 1));;
      sn ← ctrlername k i;
      on_shnet (AddServer sn o)
  end.

Definition ctrlerclerk (k : nat) : CM CtrlClerk :=
  n ← on_ctl k (gets ct_n);
  ends ← ctrler_ends k n;
  mret (ShardCtrler.MakeClerk (length ends)).

(** [ctl.n = 3] *)
Definition ctl_size : nat := 3.

Definition StartCtrlerService : CM nat :=
  k ← gets (fun c => length (sh_ctlers c));
  names ← m_map (fun _ => s ← randstring; mret ("ctlr-" +:+ s)) (seq 0 ctl_size);
  modify (fun c => set_shctlers (sh_ctlers c ++ [mkCtrler ctl_size (replicate ctl_size None) names None]) c);;
  m_for (seq 0 ctl_size) (StartCtrlerServer k);;
  ck ← ctrlerclerk k;
  on_ctl k (modify (set_ctck ck));;
  mret k.

(** ** Clerks *)

(** Not used by this harness. *)
Definition random_handles := SvcConfig.random_handles (A := string).

(** The slice of names has [cfg.n] elements, and the loop goes over the controllers.
    MakeClerk gets the end points, and makes a clerk of the controller with them. *)
Definition makeClient (ck k : nat) : CM CtrlClerk :=
  n ← gets sh_n;
  cn ← on_ctl k (gets ct_n);
  endnames ← m_fold (seq 0 cn) (fun endnames j =>
    s ← randstring;
    endnames' ← lift (go_set endnames (Z.of_nat j) s);
    wire_end s (ctrlername k j);;
    mret endnames') (replicate n EmptyString);
  modify (fun c => set_shclerks (<[ck := endnames]> (sh_clerks c)) (sh_nextClientId c + 1) c);;
  mret (ShardCtrler.MakeClerk cn).

(** [os.Remove] of the names is on the file system. *)
Definition deleteClient (ck : nat) : CM unit :=
  modify (fun c => set_shclerks (delete ck (sh_clerks c)) (sh_nextClientId c) c).

(** ** Servers *)

(** [gg.saved[i]] *)
Definition saved_at (i : nat) : M group (option Persister) :=
  s ← at_server gg_saved i;
  match s with
  | Nil => mret None
  | Owned ps => mret (Some ps)
  | Shared => o ← at_server gg_servers i; mret (persister ∘ kv_rf <$> o)
  end.

Definition name_at (f : group -> list (list string)) (i j : nat) : M group string :=
  l ← at_server f i; lift (go_idx l (Z.of_nat j)).

Definition ShutdownServer (gi i : nat) : CM unit :=
  g ← at_server sh_groups gi;
  m_for (seq 0 (length (gg_servers g))) (fun j =>
    name ← on_group gi (name_at gg_endnames i j); on_shnet (Enable name false));;
  mends ← on_group gi (at_server gg_mendnames i);
  m_for (seq 0 (length mends)) (fun j =>
    name ← on_group gi (name_at gg_mendnames i j); on_shnet (Enable name false));;
  on_shnet (DeleteServer (servername (gg_gid g) i));;
  on_group gi (
    o ← saved_at i;
    match o with Some ps => put_server gg_saved set_saved_of i (Owned (Copy ps)) | None => mret tt end;;
    o ← at_server gg_servers i;
    match o with
    | Some kv => lift (snd (KvServer.Kill kv));; put_server gg_servers set_servers_of i None
    | None => mret tt
    end).

Definition ShutdownGroup (gi : nat) : CM unit := n ← gets sh_n; m_for (seq 0 n) (ShutdownServer gi).

(** The row of mendnames is filled when its end points have been made. *)
Definition StartServer (gi i : nat) : CM unit :=
  g ← at_server sh_groups gi;
  n ← gets sh_n;
  names ← m_map (fun _ => randstring) (seq 0 n);
  on_group gi (put_server gg_endnames set_endnames_of i names);;
  m_for (seq 0 n) (fun j =>
    e ← on_group gi (name_at gg_endnames i j); wire_end e (mret (servername (gg_gid g) j)));;
  k ← gets sh_ctl;
  cn ← on_ctl k (gets ct_n);
  on_group gi (put_server gg_mendnames set_mendnames_of i (replicate cn EmptyString));;
  mends ← ctrler_ends k cn;
  on_group gi (put_server gg_mendnames set_mendnames_of i mends);;
  ps ← on_group gi (
    o ← saved_at i;
    let ps := match o with Some ps => Copy ps | None => MakePersister end in
    put_server gg_saved set_saved_of i (Owned ps);; mret ps);
  mx ← gets sh_maxraftstate;
  o ← gets sh_objects;
  match KvServer.StartServer n (Z.of_nat i) (clock o) ps mx (gg_gid g) mends with
  | (kv, r) =>
      lift r;;
      on_group gi (put_server gg_servers set_servers_of i (Some kv);; put_server gg_saved set_saved_of i Shared);;
      modify (set_shobjects (o + 1));;
      on_shnet (AddServer (servername (gg_gid g) i) o)
  end.

Definition StartGroup (gi : nat) : CM unit := n ← gets sh_n; m_for (seq 0 n) (StartServer gi).

(** ** The harness as a whole *)

Definition blank_shard (maxraftstate : Z) : config :=
  mkShardConfig MakeNetwork [] 0 0 0 [] ∅ 0 maxraftstate 0 0.

Definition ngroups : nat := 3.

(** A group without servers; mendnames has as many rows as there are controllers. *)
Definition blank_group (gi n cn : nat) : group :=
  mkGroup (100 + Z.of_nat gi) (replicate n None) (replicate n Nil) (replicate n []) (replicate cn []).

Definition make_config (n : nat) (unreliable : bool) (maxraftstate : Z) : config * res unit :=
  (k ← StartCtrlerService;
   modify (set_shape k ngroups n);;
   m_for (seq 0 ngroups) (fun gi =>
     cn ← on_ctl k (gets ct_n);
     modify (fun c => set_shgroups (sh_groups c ++ [blank_group gi n cn]) c);;
     m_for (seq 0 n) (StartServer gi));;
   modify (set_shclerks ∅ (Z.of_nat n + 1000));;
   on_shnet (Reliable (negb unreliable))) (blank_shard maxraftstate).

(** Kill of a server that is not there dereferences nil. *)
Definition kill_ctrler (k i : nat) : CM unit :=
  on_ctl k (o ← at_server ct_servers i;
            match o with
            | Some sc => match CtrlServer.Kill sc with (sc', r) => put_server ct_servers set_ctservers i (Some sc');; lift r end
            | None => lift Panic
            end).

Definition cleanup : CM unit :=
  ng ← gets sh_ngroups;
  m_for (seq 0 ng) ShutdownGroup;;
  k ← gets sh_ctl;
  cn ← on_ctl k (gets ct_n);
  m_for (seq 0 cn) (kill_ctrler k);;
  on_shnet Cleanup.

(** What checklogs stops the test with. *)
Inductive LogComplaint := TooBig (size : Z) | HasSnapshot.

Definition checklog (gi i : nat) : CM (option LogComplaint) :=
  o ← on_group gi (saved_at i);
  ps ← lift (match o with Some ps => Ret ps | None => Panic end);
  mx ← gets sh_maxraftstate;
  let raft := RaftStateSize ps in
  let snap := Z.of_nat (length (ReadSnapshot ps)) in
  mret (if (0 <=? mx) && (8 * mx <? raft) then Some (TooBig raft)
        else if (mx <? 0) && (0 <? snap) then Some HasSnapshot
        else None).

Fixpoint checklogs_loop (l : list (nat * nat)) : CM (option LogComplaint) :=
  match l with
  | [] => mret None
  | (gi, i) :: l' =>
      r ← checklog gi i;
      match r with Some x => mret (Some x) | None => checklogs_loop l' end
  end.

Definition checklogs : CM (option LogComplaint) :=
  ng ← gets sh_ngroups;
  n ← gets sh_n;
  checklogs_loop (gi ← seq 0 ng; i ← seq 0 n; [(gi, i)]).

(** ** Joining and leaving *)

Definition clerk_of (k : nat) : CM CtrlClerk :=
  o ← on_ctl k (gets ct_ck);
  lift (match o with Some ck => Ret ck | None => Panic end).

Definition gid_of (gi : nat) : CM Z := g ← at_server sh_groups gi; mret (gg_gid g).

(** The arguments of the call, the servers that are called and the result, for the answers
    that the calls get. *)
Definition joinm (gis : list nat) (k : nat) (answers : list (option ShardCtrler.JoinReply)) : CM (ShardCtrler.JoinArgs * list nat * option unit) :=
  m ← m_fold gis (fun m gi =>
        gid ← gid_of gi;
        n ← gets sh_n;
        mret (<[gid := servername gid <$> seq 0 n]> m)) ∅;
  ck ← clerk_of k;
  mret (ShardCtrler.Join m answers ck).

Definition ctljoin (gi k : nat) (answers : list (option ShardCtrler.JoinReply)) : CM (ShardCtrler.JoinArgs * list nat * option unit) :=
  joinm [gi] k answers.

Definition join (gi : nat) (answers : list (option ShardCtrler.JoinReply)) : CM (ShardCtrler.JoinArgs * list nat * option unit) :=
  k ← gets sh_ctl; joinm [gi] k answers.

Definition leavem (gis : list nat) (answers : list (option ShardCtrler.LeaveReply)) : CM (ShardCtrler.LeaveArgs * list nat * option unit) :=
  gids ← m_map gid_of gis;
  k ← gets sh_ctl;
  ck ← clerk_of k;
  mret (ShardCtrler.Leave gids answers ck).

Definition leave (gi : nat) (answers : list (option ShardCtrler.LeaveReply)) : CM (ShardCtrler.LeaveArgs * list nat * option unit) :=
  leavem [gi] answers.

End Harness.
