(* ===== verification/ShardNet.v ===== *)
(** The operations of the sharded harness, run: the names of servers are distinct, and every
    operation has a closed form of what it leaves. *)
From Stdlib Require Import ZArith Lia Ascii.
From stdpp Require Import base list numbers strings gmap pretty.
From S2P Require Import Prelude RaftTypes RaftNode RaftVote RaftWf RaftSpec LabRpc NetOps RaftConfig Shard ShardServers ShardKvServer ShardConfig.

#[local] Open Scope Z_scope.
Import ShardServers.CtrlServer ShardKvServer.KvServer.

(** ** Names of servers *)

Section Names.

Lemma servername_inj (g g' : Z) (i i' : nat) : 0 <= g -> 0 <= g' -> servername g i = servername g' i' -> g = g' /\ i = i'.
Proof.
  intros Hg Hg' E. unfold servername in E. simpl in E. injection E as E.
  destruct (split_at "-" (pretty g) (pretty g') (pretty i) (pretty i')) as [E1 E2]; [by apply pretty_free..|done|].
  split; [by apply (inj pretty)|]. by apply (inj pretty).
Qed.

Lemma servername_ctlr g i (s : string) : servername g i <> "ctlr-" +:+ s.
Proof. done. Qed.

End Names.

(** ** End points *)

Section Wires.
Implicit Types (rn : Network string) (l : list (string * string)).

Definition wire (e s : string) rn : Network string :=
  set_ends ({[e]} ∪ ends rn) (<[e := true]> (enabled rn)) (<[e := Some s]> (connections rn)) rn.

Definition wires l rn : Network string := foldl (fun rn p => wire (fst p) (snd p) rn) rn l.

Lemma wires_servers l rn : servers (wires l rn) = servers rn.
Proof. unfold wires. revert rn. induction l as [|p l IH]; intros rn; [done|]. simpl. by rewrite IH. Qed.

Lemma wires_ends l rn e : e ∈ ends (wires l rn) <-> e ∈ l.*1 \/ e ∈ ends rn.
Proof.
  unfold wires. revert rn. induction l as [|p l IH]; intros rn; [by split; [right|intros [?%elem_of_nil|?]]|].
  simpl. rewrite IH. simpl. rewrite elem_of_union, elem_of_singleton, elem_of_cons. tauto.
Qed.

Lemma wires_enabled l rn e : enabled (wires l rn) !! e = if decide (e ∈ l.*1) then Some true else enabled rn !! e.
Proof.
  unfold wires. revert rn. induction l as [|p l IH]; intros rn; [by rewrite decide_False by (by intros ?%elem_of_nil)|].
  simpl. rewrite IH. simpl. destruct (decide (e ∈ l.*1)) as [Hin|Hout]; [by rewrite decide_True by (by right)|].
  destruct (decide (e = fst p)) as [->|Hne]; [by rewrite lookup_insert_eq, decide_True by left|].
  rewrite lookup_insert_ne, decide_False by (done || by intros [?|?]%elem_of_cons). done.
Qed.

Lemma wires_connections_old l rn e : e ∉ l.*1 -> connections (wires l rn) !! e = connections rn !! e.
Proof.
  unfold wires. revert rn. induction l as [|p l IH]; intros rn He; [done|]. simpl in *. apply not_elem_of_cons in He as [Hne He].
  rewrite IH by done. simpl. by rewrite lookup_insert_ne.
Qed.

Lemma wires_connections_new l rn e s : NoDup l.*1 -> (e, s) ∈ l -> connections (wires l rn) !! e = Some (Some s).
Proof.
  revert rn. induction l as [|p l IH]; intros rn Hnd Hin; [by apply elem_of_nil in Hin|]. simpl in Hnd. apply NoDup_cons in Hnd as [Hp Hnd].
  apply elem_of_cons in Hin as [<-|Hin]; [|by apply IH].
  change (wires ((e, s) :: l) rn) with (wires l (wire e s rn)). rewrite wires_connections_old by done. simpl. by rewrite lookup_insert_eq.
Qed.

(** The end points [es] lead to the servers [ss], one to one. *)
Definition leads rn (es ss : list string) : Prop := Forall2 (fun e s => connections rn !! e = Some (Some s)) es ss.

Lemma wires_leads rn (es ss : list string) : NoDup es -> length es = length ss -> leads (wires (zip es ss) rn) es ss.
Proof.
  intros Hnd Hlen. apply Forall2_same_length_lookup_2; [done|]. intros j e s He Hs.
  apply wires_connections_new; [by rewrite fst_zip by lia|]. apply list_elem_of_lookup. exists j. apply lookup_zip_Some. done.
Qed.

Lemma leads_wires rn l es ss : (forall e, e ∈ es -> e ∉ l.*1) -> leads rn es ss -> leads (wires l rn) es ss.
Proof.
  intros Hd Hl. apply Forall2_same_length_lookup_2; [by apply (Forall2_length _ _ _ Hl)|]. intros j e s He Hs.
  rewrite wires_connections_old by (apply Hd; by eapply list_elem_of_lookup_2). by eapply Forall2_lookup_lr in Hl.
Qed.

Lemma leads_lookup rn es ss j e s : leads rn es ss -> es !! j = Some e -> ss !! j = Some s -> connections rn !! e = Some (Some s).
Proof. intros Hl He Hs. by apply (Forall2_lookup_lr _ _ _ _ _ _ Hl He Hs). Qed.

End Wires.

(** ** Reading and writing the parts *)

Section Parts.
Implicit Types (c : config) (g : group) (ct : ctrler).

Lemma on_group_run {A : Type} gi (m : M group A) c g g' a :
  sh_groups c !! gi = Some g -> m g = (g', Ret a) -> on_group gi m c = (set_shgroups (<[gi := g']> (sh_groups c)) c, Ret a).
Proof.
  intros Hg Hm. unfold on_group. rewrite (bind_run _ _ _ _ _ (at_server_run _ _ _ _ Hg)), Hm.
  by rewrite (bind_run _ _ _ _ _ (put_server_run sh_groups set_shgroups c gi g' (lookup_lt_Some _ _ _ Hg))).
Qed.

Lemma on_group_read {A : Type} gi (m : M group A) c g a :
  sh_groups c !! gi = Some g -> m g = (g, Ret a) -> on_group gi m c = (c, Ret a).
Proof. intros Hg Hm. rewrite (on_group_run _ _ _ _ _ _ Hg Hm), list_insert_id by done. by destruct c. Qed.

(** A group that has just been written. *)
Lemma on_group_again {A : Type} gi (m : M group A) c G g g' a :
  sh_groups c = <[gi := g]> G -> (gi < length G)%nat -> m g = (g', Ret a) -> on_group gi m c = (set_shgroups (<[gi := g']> G) c, Ret a).
Proof.
  intros Hc Hgi Hm. rewrite (on_group_run gi m c g g' a); [by rewrite Hc, list_insert_insert_eq| |done].
  rewrite Hc. by rewrite list_lookup_insert_eq.
Qed.

Lemma on_ctl_run {A : Type} k (m : M ctrler A) c ct ct' a :
  sh_ctlers c !! k = Some ct -> m ct = (ct', Ret a) -> on_ctl k m c = (set_shctlers (<[k := ct']> (sh_ctlers c)) c, Ret a).
Proof.
  intros Hg Hm. unfold on_ctl. rewrite (bind_run _ _ _ _ _ (at_server_run _ _ _ _ Hg)), Hm.
  by rewrite (bind_run _ _ _ _ _ (put_server_run sh_ctlers set_shctlers c k ct' (lookup_lt_Some _ _ _ Hg))).
Qed.

Lemma on_ctl_read {A : Type} k (m : M ctrler A) c ct a :
  sh_ctlers c !! k = Some ct -> m ct = (ct, Ret a) -> on_ctl k m c = (c, Ret a).
Proof. intros Hg Hm. rewrite (on_ctl_run _ _ _ _ _ _ Hg Hm), list_insert_id by done. by destruct c. Qed.

Lemma run_ctrlername c k ct i s : sh_ctlers c !! k = Some ct -> ct_names ct !! i = Some s -> ctrlername k i c = (c, Ret s).
Proof. intros Hk Hi. eapply on_ctl_read; [done|]. by apply at_server_run. Qed.

Lemma run_name_at (f : group -> list (list string)) g i j es e : f g !! i = Some es -> es !! j = Some e -> name_at f i j g = (g, Ret e).
Proof.
  intros Hi Hj. unfold name_at. rewrite (bind_run _ _ _ _ _ (at_server_run _ _ _ _ Hi)). unfold lift. f_equal.
  apply go_idx_lookup. split; [lia|by rewrite Nat2Z.id].
Qed.

(** What [gg.saved[i]] points to. *)
Definition storage g i : option Persister :=
  match gg_saved g !! i with
  | Some (Owned ps) => Some ps
  | Some Shared => o ← gg_servers g !! i; persister ∘ kv_rf <$> o
  | _ => None
  end.

Lemma run_group_saved g i : (i < length (gg_saved g))%nat -> (i < length (gg_servers g))%nat -> saved_at i g = (g, Ret (storage g i)).
Proof.
  intros Hs Hv. destruct (lookup_lt_is_Some_2 _ _ Hs) as [s Es]. destruct (lookup_lt_is_Some_2 _ _ Hv) as [o Eo].
  unfold saved_at, storage. rewrite (bind_run _ _ _ _ _ (at_server_run _ _ _ _ Es)), Es. destruct s; [done| |done].
  rewrite (bind_run _ _ _ _ _ (at_server_run _ _ _ _ Eo)), Eo. done.
Qed.

End Parts.

(** ** Making end points *)

Section Draws.
Context `{LabGob unit} (rnd : nat -> string) `{!Inj (=) (=) rnd}.
Implicit Types (c : config) (g : group) (ct : ctrler) (rn : Network string).

(** The names of end points are random strings drawn before. *)
Definition drawn c : Prop := forall e, e ∈ ends (sh_net c) -> exists k, (k < sh_random c)%nat /\ e = rnd k.

Definition names (k n : nat) : list string := rnd <$> seq k n.

Lemma names_NoDup k n : NoDup (names k n).
Proof. apply NoDup_fmap; [done|apply NoDup_seq]. Qed.

Lemma names_length k n : length (names k n) = n.
Proof. unfold names. by rewrite length_fmap, length_seq. Qed.

Lemma names_elem k n e : e ∈ names k n <-> exists j, (k <= j < k + n)%nat /\ e = rnd j.
Proof.
  unfold names. rewrite list_elem_of_fmap. setoid_rewrite elem_of_seq. naive_solver.
Qed.

Lemma names_fresh c k n e : drawn c -> (sh_random c <= k)%nat -> e ∈ names k n -> e ∉ ends (sh_net c).
Proof. intros Hd Hk (j & Hj & ->)%names_elem (j' & Hj' & E)%Hd. apply (inj rnd) in E. lia. Qed.

Lemma draws_apart k n k' n' e : (k + n <= k')%nat -> e ∈ names k n -> e ∉ names k' n'.
Proof. intros Hk (j & Hj & ->)%names_elem (j' & Hj' & E)%names_elem. apply (inj rnd) in E. lia. Qed.

Lemma run_wire_end e s (sn : M config string) c :
  e ∉ ends (sh_net c) -> (forall rn, sn (set_shnet rn c) = (set_shnet rn c, Ret s)) ->
  wire_end e sn c = (set_shnet (wire e s (sh_net c)) c, Ret tt).
Proof.
  intros He Hs. unfold wire_end.
  rewrite (bind_run _ _ c (set_shnet (fst (MakeEnd e (sh_net c))) c) tt) by (unfold on_shnet, MakeEnd; m_exec; unfold id; by rewrite decide_False).
  rewrite (bind_run _ _ _ _ _ (Hs _)). unfold MakeEnd, on_shnet, Connect, Enable. m_exec. unfold id. rewrite decide_False by done. simpl.
  unfold set_shnet, wire, set_ends. simpl. by rewrite !insert_insert_eq.
Qed.

(** A loop that wires the end points [es], in order. *)
Lemma for_wire (body : nat -> M config unit) a (es ss : list string) c :
  length es = length ss -> NoDup es -> (forall e, e ∈ es -> e ∉ ends (sh_net c)) ->
  (forall j e s rn, es !! j = Some e -> ss !! j = Some s -> e ∉ ends rn ->
     body (a + j)%nat (set_shnet rn c) = (set_shnet (wire e s rn) c, Ret tt)) ->
  m_for (seq a (length es)) body c = (set_shnet (wires (zip es ss) (sh_net c)) c, Ret tt).
Proof.
  revert a ss c. induction es as [|e es IH]; intros a [|s ss] c Hlen Hnd Hf Hb; try done; [by destruct c|].
  apply NoDup_cons in Hnd as [He Hnd]. simpl.
  assert (H0 : body a c = (set_shnet (wire e s (sh_net c)) c, Ret tt)).
  { pose proof (Hb 0%nat e s (sh_net c) eq_refl eq_refl ltac:(apply Hf; left)) as H0. rewrite Nat.add_0_r in H0. by destruct c. }
  rewrite (bind_run _ _ _ _ _ H0), (IH (S a) ss); [done|by injection Hlen|done| |].
  - intros x Hx. simpl. intros [->%elem_of_singleton|Hin]%elem_of_union; [done|]. apply (Hf x); [by right|done].
  - intros j x t rn Hj Ht Hx. specialize (Hb (S j) x t rn Hj Ht Hx). by rewrite Nat.add_succ_r in Hb.
Qed.

(** [n] new end points, that lead to [ss]. *)
Definition spun c n (ss : list string) : config :=
  set_random (sh_random c + n) (set_shnet (wires (zip (names (sh_random c) n) ss) (sh_net c)) c).

Lemma drawn_spun c n ss : drawn c -> length ss = n -> drawn (spun c n ss).
Proof.
  intros Hd Hs e. unfold spun. simpl. rewrite wires_ends, fst_zip by (rewrite names_length; lia).
  intros [(j & ? & ->)%names_elem|(j & ? & ->)%Hd]; exists j; split; (done || lia).
Qed.

Lemma run_new_end sn s c :
  drawn c -> (forall rn k, sn (set_random k (set_shnet rn c)) = (set_random k (set_shnet rn c), Ret s)) ->
  new_end rnd sn c = (spun c 1 [s], Ret (rnd (sh_random c))).
Proof.
  intros Hd Hs. unfold new_end. set (c1 := set_random (sh_random c + 1) c).
  rewrite (bind_run _ _ c c1 (rnd (sh_random c))) by done.
  rewrite (bind_run _ _ c1 (set_shnet (wire (rnd (sh_random c)) s (sh_net c1)) c1) tt); [done|].
  apply run_wire_end; [|intros rn; apply (Hs rn)]. apply (names_fresh c (sh_random c) 1); [done|lia|by left].
Qed.

(** End points for the servers of a controller service, from the [a]-th on. *)
Lemma run_ctrler_ends c k ct a (ss : list string) :
  drawn c -> sh_ctlers c !! k = Some ct -> drop a (ct_names ct) = ss ->
  m_map (fun j => new_end rnd (ctrlername k j)) (seq a (length ss)) c
  = (spun c (length ss) ss, Ret (names (sh_random c) (length ss))).
Proof.
  revert a c. induction ss as [|s ss IH]; intros a c Hd Hk Hss; [unfold spun; simpl; rewrite Nat.add_0_r; by destruct c|].
  assert (Ha : ct_names ct !! a = Some s) by (rewrite <- (Nat.add_0_r a), <- lookup_drop, Hss; done).
  cbn [length seq m_map]. rewrite (bind_run _ _ _ _ _ (run_new_end (ctrlername k a) s c Hd ltac:(intros; by eapply run_ctrlername))).
  rewrite (bind_run _ _ _ _ _ (IH (S a) (spun c 1 [s]) (drawn_spun c 1 [s] Hd eq_refl) Hk ltac:(
    change (S a) with (1 + a)%nat; rewrite Nat.add_comm, <- drop_drop, Hss; done))).
  unfold mret, M_ret. unfold spun, names. simpl. by rewrite Nat.add_1_r, Nat.add_succ_r.
Qed.

Lemma run_ctrler_ends_all c k ct :
  drawn c -> sh_ctlers c !! k = Some ct -> length (ct_names ct) = ct_n ct ->
  ctrler_ends rnd k (ct_n ct) c = (spun c (ct_n ct) (ct_names ct), Ret (names (sh_random c) (ct_n ct))).
Proof. intros Hd Hk Hlen. unfold ctrler_ends. rewrite <- Hlen. by eapply run_ctrler_ends. Qed.

(** Random strings without end points. *)
Lemma run_draws {A : Type} (body : M config A) (f : string -> A) c a n :
  (forall c, body c = (set_random (sh_random c + 1) c, Ret (f (rnd (sh_random c))))) ->
  m_map (fun _ => body) (seq a n) c = (set_random (sh_random c + n) c, Ret (f <$> names (sh_random c) n)).
Proof.
  intros Hb. revert a c. induction n as [|n IH]; intros a c; [simpl; rewrite Nat.add_0_r; by destruct c|]. cbn [seq m_map].
  rewrite (bind_run _ _ _ _ _ (Hb c)), (bind_run _ _ _ _ _ (IH (S a) _)).
  unfold mret, M_ret, names. simpl. by rewrite Nat.add_1_r, Nat.add_succ_r.
Qed.

Lemma drawn_more c n : drawn c -> drawn (set_random (sh_random c + n) c).
Proof. intros Hd e He. destruct (Hd e He) as (k & ? & ->). exists k. simpl. split; [lia|done]. Qed.

(** ** Starting a server of a group *)

Definition log_of (ps : Persister) : list (LogEntry unit) := snd (fst (recovered ps)).

Definition started c gi i g ct (kv : ShardKV) : config :=
  let n := sh_n c in
  let r := sh_random c in
  let es := names r n in
  let ms := names (r + n) (ct_n ct) in
  mkShardConfig
    (set_servers (<[servername (gg_gid g) i := Some (sh_objects c)]> (servers (sh_net c)))
       (wires (zip ms (ct_names ct)) (wires (zip es (servername (gg_gid g) <$> seq 0 n)) (sh_net c))))
    (sh_ctlers c) (sh_ctl c) (sh_ngroups c) n
    (<[gi := mkGroup (gg_gid g) (<[i := Some kv]> (gg_servers g)) (<[i := Shared]> (gg_saved g)) (<[i := es]> (gg_endnames g)) (<[i := ms]> (gg_mendnames g))]>
       (sh_groups c))
    (sh_clerks c) (sh_nextClientId c) (sh_maxraftstate c) (sh_objects c + 1) (r + n + ct_n ct).

(** The slices of a group have a place for server [i]. *)
Record has_slot g i : Prop :=
  { sl_servers : (i < length (gg_servers g))%nat;
    sl_saved : (i < length (gg_saved g))%nat;
    sl_ends : (i < length (gg_endnames g))%nat }.

(** The end points to the servers of the group; the state after them, with the row in place. *)
Lemma run_peer_ends c gi i g :
  drawn c -> sh_groups c !! gi = Some g -> (i < length (gg_endnames g))%nat ->
  let es := names (sh_random c) (sh_n c) in
  let c1 := set_shgroups (<[gi := set_endnames_of (<[i := es]> (gg_endnames g)) g]> (sh_groups c)) (set_random (sh_random c + sh_n c) c) in
  m_for (seq 0 (sh_n c)) (fun j => e ← on_group gi (name_at gg_endnames i j); wire_end e (mret (servername (gg_gid g) j))) c1
  = (set_shnet (wires (zip es (servername (gg_gid g) <$> seq 0 (sh_n c))) (sh_net c)) c1, Ret tt).
Proof.
  intros Hd Hg Hi es c1. assert (Hlen : length es = sh_n c) by apply names_length.
  assert (Hg1 : forall rn, sh_groups (set_shnet rn c1) !! gi = Some (set_endnames_of (<[i := es]> (gg_endnames g)) g)).
  { intros rn. simpl. by rewrite list_lookup_insert_eq by (by eapply lookup_lt_Some). }
  rewrite <- Hlen at 1. change (sh_net c) with (sh_net c1). apply for_wire.
  - by rewrite length_fmap, length_seq.
  - apply names_NoDup.
  - intros e He. by apply (names_fresh c (sh_random c) (sh_n c)).
  - intros j e s rn Hj Hs He. apply list_lookup_fmap_Some in Hs as (j' & -> & [-> _]%lookup_seq).
    assert (Hn : name_at gg_endnames i j (set_endnames_of (<[i := es]> (gg_endnames g)) g) = (set_endnames_of (<[i := es]> (gg_endnames g)) g, Ret e)).
    { eapply run_name_at; [|done]. simpl. by rewrite list_lookup_insert_eq. }
    rewrite (bind_run _ _ _ _ _ (on_group_read gi _ (set_shnet rn c1) _ e (Hg1 rn) Hn)).
    rewrite (run_wire_end e (servername (gg_gid g) (0 + j))) by done. done.
Qed.

Lemma make_from_storage n i now ps :
  (i < n)%nat -> log_ok (log_of ps) ->
  exists rf, Make n (Z.of_nat i) now ps = (rf, Ret tt) /\ persister rf = ps /\ recovered ps = (currentTerm rf, voteFor rf, log rf, snapshot rf).
Proof.
  intros Hi Hl. unfold log_of in Hl. destruct (recovered ps) as [[[t v] l] sn] eqn:E.
  destruct (wp_Make n (Z.of_nat i) now ps t v l sn E Hl ltac:(lia)) as (rf & Hm & Hp & Hs & _).
  exists rf. split; [done|]. injection Hp as _ _ -> _. by injection Hs as -> -> -> ->.
Qed.

(** [gg.saved[i]] is replaced by a copy, or by blank storage. *)
Lemma run_group_load g i :
  (i < length (gg_servers g))%nat -> (i < length (gg_saved g))%nat ->
  (o ← saved_at i; let ps := match o with Some ps => Copy ps | None => MakePersister end in
   put_server gg_saved set_saved_of i (Owned ps);; mret ps) g
  = (set_saved_of (<[i := Owned (default MakePersister (storage g i))]> (gg_saved g)) g, Ret (default MakePersister (storage g i))).
Proof.
  intros S1 S2. rewrite (bind_run _ _ _ _ _ (run_group_saved g i S2 S1)).
  assert (Eq : match storage g i with Some q => Copy q | None => MakePersister end = default MakePersister (storage g i)) by (by destruct (storage g i) as [[]|]).
  cbv zeta. rewrite Eq. by rewrite (bind_run _ _ _ _ _ (put_server_run gg_saved set_saved_of g i _ S2)).
Qed.

Lemma run_install g i (kv : ShardKV) :
  (i < length (gg_servers g))%nat -> (i < length (gg_saved g))%nat ->
  (put_server gg_servers set_servers_of i (Some kv);; put_server gg_saved set_saved_of i Shared) g
  = (mkGroup (gg_gid g) (<[i := Some kv]> (gg_servers g)) (<[i := Shared]> (gg_saved g)) (gg_endnames g) (gg_mendnames g), Ret tt).
Proof. intros S1 S2. by rewrite (bind_run _ _ _ _ _ (put_server_run gg_servers set_servers_of g i (Some kv) S1)), put_server_run. Qed.

(** The server that [StartServer] makes on the peer [rf]. *)
Definition new_kv c i g ct rf : ShardKV :=
  mkShardKV (Z.of_nat i) rf (gg_gid g) (names (sh_random c + sh_n c) (ct_n ct)) (sh_maxraftstate c).

(** ** Shutting down a server *)

Definition shut c gi i g (es ms : list string) : config :=
  set_shgroups
    (<[gi := mkGroup (gg_gid g) (<[i := None]> (gg_servers g))
               (match storage g i with Some ps => <[i := Owned ps]> (gg_saved g) | None => gg_saved g end) (gg_endnames g) (gg_mendnames g)]>
       (sh_groups c))
    (set_shnet (set_servers (<[servername (gg_gid g) i := None]> (servers (sh_net c))) (enable_all (es ++ ms) false (sh_net c))) c).

(** A loop that disables the end points of a row. *)
Lemma run_disable (f : group -> list (list string)) c gi i g (l : list string) :
  sh_groups c !! gi = Some g -> f g !! i = Some l ->
  m_for (seq 0 (length l)) (fun j => name ← on_group gi (name_at f i j); on_shnet (Enable name false)) c
  = (set_shnet (enable_all l false (sh_net c)) c, Ret tt).
Proof.
  intros Hg Hl. transitivity (m_for (seq 0 (length l)) (fun j => name ← on_group gi (name_at f i j); on_shnet (Enable name false)) (set_shnet (sh_net c) c));
    [by destruct c|].
  rewrite (for_enable (fun rn => set_shnet rn c) _ (fun j => l !! j) false).
  - do 4 f_equal. clear. induction l as [|x l IH] using rev_ind; [done|]. rewrite length_app, seq_app, omap_app. simpl.
    rewrite lookup_app_r, Nat.sub_diag by lia. simpl. f_equal. rewrite <- IH at 2. apply list_omap_ext.
    apply Forall_Forall2_diag, Forall_forall. intros j Hj%elem_of_seq. by rewrite lookup_app_l by lia.
  - intros j rn Hj%elem_of_seq. destruct (lookup_lt_is_Some_2 l j) as [e He]; [lia|]. rewrite He.
    by rewrite (bind_run _ _ _ _ _ (on_group_read gi _ (set_shnet rn c) g e Hg (run_name_at f g i j l e Hl He))).
Qed.

Lemma run_shard_shutdown c gi i g (es ms : list string) :
  sh_groups c !! gi = Some g -> has_slot g i -> gg_endnames g !! i = Some es -> gg_mendnames g !! i = Some ms ->
  length es = length (gg_servers g) -> ShutdownServer gi i c = (shut c gi i g es ms, Ret tt).
Proof.
  intros Hg [S1 S2 S3] He Hm Hlen. unfold ShutdownServer.
  rewrite (bind_run _ _ _ _ _ (at_server_run _ _ _ _ Hg)). rewrite <- Hlen.
  rewrite (bind_run _ _ _ _ _ (run_disable gg_endnames c gi i g es Hg He)). set (c1 := set_shnet _ c).
  rewrite (bind_run _ _ _ _ _ (on_group_read gi _ c1 g ms Hg (at_server_run _ _ _ _ Hm))).
  rewrite (bind_run _ _ _ _ _ (run_disable gg_mendnames c1 gi i g ms Hg Hm)). set (c2 := set_shnet _ c1).
  set (c3 := set_shnet (set_servers (<[servername (gg_gid g) i := None]> (servers (sh_net c2))) (sh_net c2)) c2).
  rewrite (bind_run _ _ c2 c3 tt) by done. destruct (lookup_lt_is_Some_2 _ _ S1) as [o Ho].
  set (g1 := set_saved_of (match storage g i with Some ps => <[i := Owned ps]> (gg_saved g) | None => gg_saved g end) g).
  rewrite (on_group_run gi _ c3 g (set_servers_of (<[i := None]> (gg_servers g)) g1) tt Hg).
  - unfold shut, c3, c2, c1, set_shnet, set_shgroups, set_servers. simpl. rewrite enable_all_app.
    pose proof (enable_all_wiring es false (sh_net c)) as W1. pose proof (enable_all_wiring ms false (enable_all es false (sh_net c))) as W2.
    injection W1 as _ _ W1 _. injection W2 as _ _ W2 _. by rewrite W2, W1.
  - rewrite (bind_run _ _ _ _ _ (run_group_saved g i S2 S1)).
    rewrite (bind_run _ _ g g1 tt) by (unfold g1; destruct (storage g i) as [[]|]; [by rewrite put_server_run|by destruct g]).
    rewrite (bind_run _ _ _ _ _ (at_server_run gg_servers g1 i o Ho)). destruct o as [kv|].
    + rewrite (bind_run _ _ g1 g1 tt) by done. by rewrite put_server_run.
    + rewrite list_insert_id by done. by destruct g.
Qed.

(** ** Clerks *)

Definition client_body (k : nat) (endnames : list string) (j : nat) : M config (list string) :=
  s ← randstring rnd;
  endnames' ← lift (go_set endnames (Z.of_nat j) s);
  wire_end s (ctrlername k j);;
  mret endnames'.

Lemma run_client_body c k ct s (acc : list string) a :
  drawn c -> sh_ctlers c !! k = Some ct -> ct_names ct !! a = Some s -> (a < length acc)%nat ->
  client_body k acc a c = (spun c 1 [s], Ret (<[a := rnd (sh_random c)]> acc)).
Proof.
  intros Hd Hk Hs Ha. unfold client_body. set (c1 := set_random (sh_random c + 1) c).
  rewrite (bind_run _ _ c c1 (rnd (sh_random c))) by done. rewrite go_set_ok by lia. rewrite Nat2Z.id.
  rewrite (bind_run _ _ c1 c1 (<[a := rnd (sh_random c)]> acc)) by done.
  rewrite (bind_run _ _ c1 (set_shnet (wire (rnd (sh_random c)) s (sh_net c1)) c1) tt); [done|].
  apply run_wire_end; [|intros rn; by eapply run_ctrlername]. apply (names_fresh c (sh_random c) 1); [done|lia|by left].
Qed.

Lemma spun_more c s (ss : list string) : spun (spun c 1 [s]) (length ss) ss = spun c (length (s :: ss)) (s :: ss).
Proof. unfold spun, names. simpl. by rewrite Nat.add_1_r, Nat.add_succ_r. Qed.

Lemma run_client_loop c k ct a (ss acc : list string) :
  drawn c -> sh_ctlers c !! k = Some ct -> drop a (ct_names ct) = ss -> (a + length ss = length acc)%nat ->
  m_fold (seq a (length ss)) (client_body k) acc c = (spun c (length ss) ss, Ret (take a acc ++ names (sh_random c) (length ss))).
Proof.
  revert a c acc. induction ss as [|s ss IH]; intros a c acc Hd Hk Hss Ha.
  { unfold spun. simpl. rewrite Nat.add_0_r, app_nil_r, take_ge by (simpl in *; lia). by destruct c. }
  assert (Hs : ct_names ct !! a = Some s) by (rewrite <- (Nat.add_0_r a), <- lookup_drop, Hss; done).
  assert (Hss' : drop (S a) (ct_names ct) = ss) by (change (S a) with (1 + a)%nat; rewrite Nat.add_comm, <- drop_drop, Hss; done).
  cbn [length seq m_fold] in *. rewrite (bind_run _ _ _ _ _ (run_client_body c k ct s acc a Hd Hk Hs ltac:(lia))).
  rewrite (IH (S a) (spun c 1 [s])); [|by apply drawn_spun|done|done|rewrite length_insert; lia].
  rewrite spun_more. simpl length. do 2 f_equal. rewrite take_S_r with (x := rnd (sh_random c)) by (apply list_lookup_insert_eq; lia).
  rewrite take_insert_ge, <- app_assoc by lia. unfold names. simpl. by rewrite Nat.add_1_r.
Qed.

(** The slice of names is too short. *)
Lemma client_loop_panics c k ct a (ss acc : list string) :
  drawn c -> sh_ctlers c !! k = Some ct -> drop a (ct_names ct) = ss -> (a <= length acc < a + length ss)%nat ->
  snd (m_fold (seq a (length ss)) (client_body k) acc c) = Panic.
Proof.
  revert a c acc. induction ss as [|s ss IH]; intros a c acc Hd Hk Hss Ha; [simpl in Ha; lia|].
  assert (Hs : ct_names ct !! a = Some s) by (rewrite <- (Nat.add_0_r a), <- lookup_drop, Hss; done).
  assert (Hss' : drop (S a) (ct_names ct) = ss) by (change (S a) with (1 + a)%nat; rewrite Nat.add_comm, <- drop_drop, Hss; done).
  cbn [length seq m_fold] in *. destruct (decide (a < length acc)%nat) as [Hlt|Hge].
  - rewrite (bind_run _ _ _ _ _ (run_client_body c k ct s acc a Hd Hk Hs Hlt)).
    apply IH; [by apply drawn_spun|done|done|rewrite length_insert; lia].
  - unfold client_body. m_exec. unfold go_set. rewrite (proj2 (Z.ltb_ge _ _)) by lia. by rewrite andb_false_r.
Qed.

Definition with_client c ck ct : config :=
  let c' := spun c (ct_n ct) (ct_names ct) in
  set_shclerks (<[ck := names (sh_random c) (ct_n ct)]> (sh_clerks c)) (sh_nextClientId c + 1) c'.

Lemma run_shard_client c ck k ct :
  drawn c -> sh_ctlers c !! k = Some ct -> length (ct_names ct) = ct_n ct -> sh_n c = ct_n ct ->
  makeClient rnd ck k c = (with_client c ck ct, Ret (ShardCtrler.MakeClerk (ct_n ct))).
Proof.
  intros Hd Hk Hlen Hn. unfold makeClient. rewrite (bind_run _ _ c c (sh_n c)) by done.
  rewrite (bind_run _ _ _ _ _ (on_ctl_read k (gets ct_n) c ct (ct_n ct) Hk ltac:(done))).
  pose proof (run_client_loop c k ct 0 (ct_names ct) (replicate (sh_n c) EmptyString) Hd Hk eq_refl
    ltac:(rewrite length_replicate; simpl; lia)) as Hr.
  rewrite Hlen in Hr. by rewrite (bind_run _ _ _ _ _ Hr).
Qed.

Lemma makeClient_panics c ck k ct :
  drawn c -> sh_ctlers c !! k = Some ct -> length (ct_names ct) = ct_n ct -> (sh_n c < ct_n ct)%nat ->
  snd (makeClient rnd ck k c) = Panic.
Proof.
  intros Hd Hk Hlen Hn. unfold makeClient. rewrite (bind_run _ _ c c (sh_n c)) by done.
  rewrite (bind_run _ _ _ _ _ (on_ctl_read k (gets ct_n) c ct (ct_n ct) Hk ltac:(done))).
  pose proof (client_loop_panics c k ct 0 (ct_names ct) (replicate (sh_n c) EmptyString) Hd Hk eq_refl
    ltac:(rewrite length_replicate; simpl; lia)) as Hr.
  rewrite Hlen in Hr. fold (client_body k). unfold mbind at 1, M_bind, m_bind. by destruct (m_fold _ _ _ c) as [? [?|]].
Qed.

(** ** Controllers *)

Definition with_ctrler c k i ct (sn : string) (sc : ShardCtrler) : config :=
  let c' := spun c (ct_n ct) (ct_names ct) in
  set_shctlers (<[k := set_ctservers (<[i := Some sc]> (ct_servers ct)) ct]> (sh_ctlers c))
    (set_shobjects (sh_objects c + 1) (set_shnet (set_servers (<[sn := Some (sh_objects c)]> (servers (sh_net c'))) (sh_net c')) c')).

(** ** Starting servers *)

Context (clock : nat -> Z).

Lemma run_shard_start c gi i g ct :
  drawn c -> sh_groups c !! gi = Some g -> has_slot g i -> (i < length (gg_mendnames g))%nat -> (i < sh_n c)%nat ->
  sh_ctlers c !! sh_ctl c = Some ct -> length (ct_names ct) = ct_n ct -> log_ok (log_of (default MakePersister (storage g i))) ->
  exists rf, Make (sh_n c) (Z.of_nat i) (clock (sh_objects c)) (default MakePersister (storage g i)) = (rf, Ret tt)
    /\ ShardConfig.StartServer rnd clock gi i c = (started c gi i g ct (new_kv c i g ct rf), Ret tt).
Proof.
  intros Hd Hg [S1 S2 S3] Hm Hi Hct Hlen Hlog. set (ps := default MakePersister (storage g i)) in *.
  destruct (make_from_storage (sh_n c) i (clock (sh_objects c)) ps Hi Hlog) as (rf & Hmk & _ & _).
  exists rf. split; [done|]. pose proof (lookup_lt_Some _ _ _ Hg) as Hgi. unfold ShardConfig.StartServer.
  rewrite (bind_run _ _ _ _ _ (at_server_run _ _ _ _ Hg)), (bind_run _ _ c c (sh_n c)) by done.
  rewrite (bind_run _ _ _ _ _ (run_draws (randstring rnd) id c 0 (sh_n c) ltac:(done))), list_fmap_id.
  set (es := names (sh_random c) (sh_n c)). set (c0 := set_random _ c).
  rewrite (bind_run _ _ _ _ _ (on_group_run gi _ c0 g _ tt Hg (put_server_run gg_endnames set_endnames_of g i es S3))).
  rewrite (bind_run _ _ _ _ _ (run_peer_ends c gi i g Hd Hg S3)). fold es.
  set (g1 := set_endnames_of _ g). set (G := sh_groups c) in *. set (c1 := set_shnet _ _).
  rewrite (bind_run _ _ c1 c1 (sh_ctl c)) by done.
  rewrite (bind_run _ _ _ _ _ (on_ctl_read (sh_ctl c) (gets ct_n) c1 ct (ct_n ct) Hct ltac:(done))).
  rewrite (bind_run _ _ _ _ _ (on_group_again gi _ c1 G g1 _ tt eq_refl Hgi (put_server_run gg_mendnames set_mendnames_of g1 i _ Hm))).
  set (g2 := set_mendnames_of _ g1). set (c2 := set_shgroups _ c1).
  assert (Hd2 : drawn c2) by (apply (drawn_spun c (sh_n c) (servername (gg_gid g) <$> seq 0 (sh_n c)) Hd); by rewrite length_fmap, length_seq).
  rewrite (bind_run _ _ _ _ _ (run_ctrler_ends_all c2 (sh_ctl c) ct Hd2 Hct Hlen)).
  change (sh_random c2) with (sh_random c + sh_n c)%nat. set (ms := names _ (ct_n ct)). set (c3 := spun c2 _ _).
  rewrite (bind_run _ _ _ _ _ (on_group_again gi _ c3 G g2 _ tt eq_refl Hgi
    (put_server_run gg_mendnames set_mendnames_of g2 i ms ltac:(simpl; by rewrite length_insert)))).
  set (g3 := set_mendnames_of _ g2). set (c4 := set_shgroups _ c3).
  pose proof (run_group_load g3 i S1 S2) as Hsv. change (storage g3 i) with (storage g i) in Hsv. fold ps in Hsv.
  rewrite (bind_run _ _ _ _ _ (on_group_again gi _ c4 G g3 _ ps eq_refl Hgi Hsv)). set (g4 := set_saved_of _ g3). set (c5 := set_shgroups _ c4).
  rewrite (bind_run _ _ c5 c5 (sh_maxraftstate c)), (bind_run _ _ c5 c5 (sh_objects c)) by done.
  unfold StartServer, Op. rewrite Hmk. fold ms. rewrite (bind_run _ _ c5 c5 tt) by done.
  set (kv := mkShardKV _ _ _ _ _).
  pose proof (run_install g4 i kv S1 ltac:(simpl; by rewrite length_insert)) as Hkv.
  rewrite (bind_run _ _ _ _ _ (on_group_again gi _ c5 G g4 _ tt eq_refl Hgi Hkv)).
  unfold started, on_shnet, AddServer, new_kv. m_exec. fold es ms kv. unfold set_shnet, set_shobjects, set_shgroups, set_servers. simpl.
  by rewrite !wires_servers, !list_insert_insert_eq.
Qed.

(** There is no row for the end points to the controllers. *)
Lemma StartServer_panics c gi i g ct :
  drawn c -> sh_groups c !! gi = Some g -> has_slot g i -> (length (gg_mendnames g) <= i)%nat ->
  sh_ctlers c !! sh_ctl c = Some ct -> snd (ShardConfig.StartServer rnd clock gi i c) = Panic.
Proof.
  intros Hd Hg [S1 S2 S3] Hm Hct. unfold ShardConfig.StartServer.
  rewrite (bind_run _ _ _ _ _ (at_server_run _ _ _ _ Hg)), (bind_run _ _ c c (sh_n c)) by done.
  rewrite (bind_run _ _ _ _ _ (run_draws (randstring rnd) id c 0 (sh_n c) ltac:(done))), list_fmap_id.
  set (c0 := set_random _ c).
  rewrite (bind_run _ _ _ _ _ (on_group_run gi _ c0 g _ tt Hg (put_server_run gg_endnames set_endnames_of g i (names (sh_random c) (sh_n c)) S3))).
  rewrite (bind_run _ _ _ _ _ (run_peer_ends c gi i g Hd Hg S3)). set (c1 := set_shnet _ _).
  rewrite (bind_run _ _ c1 c1 (sh_ctl c)) by done.
  rewrite (bind_run _ _ _ _ _ (on_ctl_read (sh_ctl c) (gets ct_n) c1 ct (ct_n ct) Hct ltac:(done))).
  unfold mbind at 1, M_bind, m_bind, on_group at 1.
  rewrite (bind_run _ _ c1 c1 (set_endnames_of (<[i := names (sh_random c) (sh_n c)]> (gg_endnames g)) g));
    [|apply at_server_run; simpl; rewrite list_lookup_insert_eq by (by eapply lookup_lt_Some); done].
  unfold put_server at 1. m_exec. unfold go_set at 1. simpl. rewrite (proj2 (Z.ltb_ge _ _)) by lia. rewrite andb_false_r.
  unfold put_server at 1. m_exec. rewrite go_set_ok by (rewrite length_insert; apply lookup_lt_Some in Hg; lia). done.
Qed.

Lemma run_StartCtrlerServer c k i ct sn :
  drawn c -> sh_ctlers c !! k = Some ct -> length (ct_names ct) = ct_n ct -> (i < length (ct_servers ct))%nat -> ct_names ct !! i = Some sn ->
  exists sc, StartCtrlerServer rnd clock k i c = (with_ctrler c k i ct sn sc, Ret tt).
Proof.
  intros Hd Hk Hlen Hi Hsn. unfold StartCtrlerServer.
  rewrite (bind_run _ _ _ _ _ (on_ctl_read k (gets ct_n) c ct (ct_n ct) Hk ltac:(done))).
  rewrite (bind_run _ _ _ _ _ (run_ctrler_ends_all c k ct Hd Hk Hlen)). set (c1 := spun c _ _).
  rewrite (bind_run _ _ c1 c1 (sh_objects c)) by done. rewrite names_length.
  assert (Hin : (i < ct_n ct)%nat) by (rewrite <- Hlen; by eapply lookup_lt_Some).
  destruct (make_from_storage (ct_n ct) i (clock (sh_objects c)) MakePersister Hin) as (rf & Hmk & _).
  { split; [|by eexists; split; [done|left]|done]. intros [|j] e He; by simplify_eq/=. }
  unfold CtrlServer.StartServer, CtrlServer.Op. rewrite Hmk. set (sc := mkShardCtrler _ _ _). exists sc.
  rewrite (bind_run _ _ c1 c1 tt) by done.
  rewrite (bind_run _ _ _ _ _ (on_ctl_run k _ c1 ct _ tt Hk (put_server_run ct_servers set_ctservers ct i (Some sc) Hi))).
  set (c2 := set_shctlers _ c1). rewrite (bind_run _ _ c2 (set_shobjects (sh_objects c + 1) c2) tt) by done.
  assert (Hn : ctrlername k i (set_shobjects (sh_objects c + 1) c2) = (set_shobjects (sh_objects c + 1) c2, Ret sn)).
  { apply (run_ctrlername _ k (set_ctservers (<[i := Some sc]> (ct_servers ct)) ct)); [|done]. simpl.
    by rewrite list_lookup_insert_eq by (by eapply lookup_lt_Some). }
  by rewrite (bind_run _ _ _ _ _ Hn).
Qed.

End Draws.
