(* ===== verification/ShardHarness.v ===== *)
(** The sharded harness as a whole: what holds of groups, controllers, clerks and end points
    whatever the tests do with them, and making a configuration. *)
From Stdlib Require Import ZArith Lia Ascii.
From stdpp Require Import base list numbers strings gmap relations pretty.
From S2P Require Import Prelude RaftTypes RaftNode RaftVote RaftWf RaftSpec LabRpc NetOps RaftConfig Shard ShardServers ShardKvServer ShardConfig ShardNet.

#[local] Open Scope Z_scope.
Import ShardServers.CtrlServer ShardKvServer.KvServer.

(** ** Rows of end points *)

(** Who has end points: a server of a group to its group and to the controllers, and a clerk. *)
Inductive Owner := OPeer (gi i : nat) | OCtl (gi i : nat) | OClerk (ck : nat).

#[export] Instance owner_eq : EqDecision Owner.
Proof. solve_decision. Defined.

Section Rows.
Implicit Types (rn : Network string) (row : Owner -> list string) (on : Owner -> Prop) (tgt : Owner -> list string -> Prop) (o : Owner).

(** The rows are apart; those of owners that are on are enabled, the others are not; a row
    is empty or leads to the servers it is made for. *)
Record rows_ok rn row on tgt : Prop :=
  { ro_ends : forall o e, e ∈ row o -> e ∈ ends rn;
    ro_apart : forall o o' e, e ∈ row o -> e ∈ row o' -> o = o';
    ro_on : forall o e, on o -> e ∈ row o -> enabled rn !! e = Some true;
    ro_off : forall o e, ~ on o -> e ∈ row o -> enabled rn !! e = Some false;
    ro_leads : forall o, row o = [] \/ exists ss, tgt o ss /\ leads rn (row o) ss }.

(** End points that exist stay as they are. *)
Definition calm rn rn' : Prop :=
  forall e, e ∈ ends rn -> e ∈ ends rn' /\ enabled rn' !! e = enabled rn !! e /\ connections rn' !! e = connections rn !! e.

Lemma leads_calm rn rn' es ss : calm rn rn' -> (forall e, e ∈ es -> e ∈ ends rn) -> leads rn es ss -> leads rn' es ss.
Proof.
  intros Hc He Hl. apply Forall2_same_length_lookup_2; [by apply (Forall2_length _ _ _ Hl)|]. intros j e s Hj Hs.
  destruct (Hc e) as (_ & _ & ->); [apply He; by eapply list_elem_of_lookup_2|]. by eapply leads_lookup.
Qed.

Lemma rows_calm rn rn' row row' on on' tgt tgt' :
  calm rn rn' -> (forall o, row' o = row o) -> (forall o, row o <> [] -> on' o <-> on o) -> (forall o ss, row o <> [] -> tgt o ss -> tgt' o ss) ->
  rows_ok rn row on tgt -> rows_ok rn' row' on' tgt'.
Proof.
  intros Hc Er Eo Et [R1 R2 R3 R4 R5].
  assert (Hne : forall o e, e ∈ row o -> row o <> []) by (intros o e He E; rewrite E in He; by apply elem_of_nil in He).
  split; intros o; rewrite ?Er.
  - intros e He. by apply Hc, (R1 o).
  - intros o' e. rewrite Er. apply R2.
  - intros e Ho He. destruct (Hc e (R1 o e He)) as (_ & -> & _). by apply (R3 o); [apply Eo; [by eapply Hne|]|].
  - intros e Ho He. destruct (Hc e (R1 o e He)) as (_ & -> & _). apply (R4 o); [|done]. intros Hx. by apply Ho, Eo; [eapply Hne|].
  - destruct (decide (row o = [])) as [|Hn]; [by left|]. destruct (R5 o) as [|(ss & Ht & Hl)]; [by left|right].
    exists ss. split; [by apply Et|]. by apply (leads_calm rn); [|apply R1|].
Qed.

(** One row is replaced by one of new end points. *)
Lemma rows_set rn row row' on on' tgt o es ss :
  rows_ok rn row on tgt -> (forall o', row' o' = if decide (o' = o) then es else row o') ->
  (forall e, e ∈ es -> e ∈ ends rn /\ enabled rn !! e = Some true /\ forall o', e ∉ row o') ->
  on' o -> (forall o', o' <> o -> on' o' <-> on o') -> tgt o ss -> leads rn es ss -> rows_ok rn row' on' tgt.
Proof.
  intros [R1 R2 R3 R4 R5] Er Hes Ho Ho' Ht Hl. split; intros o1; rewrite Er.
  - intros e. case_decide; [apply Hes|apply R1].
  - intros o2 e. rewrite Er. repeat case_decide; subst; try done.
    + intros He Hin. exfalso. by eapply Hes.
    + intros Hin He. exfalso. by eapply Hes.
    + apply R2.
  - intros e Hx. case_decide; [apply Hes|]. apply R3. by apply Ho'.
  - intros e Hx. case_decide; subst; [done|]. apply R4. by rewrite <- Ho'.
  - case_decide; subst; [right; by exists ss|apply R5].
Qed.

(** The rows of two owners are turned off. *)
Lemma rows_off rn row row' on on' tgt o o' :
  rows_ok rn row on tgt -> (forall x, row' x = row x) -> ~ on' o -> ~ on' o' -> (forall x, x <> o -> x <> o' -> on' x <-> on x) ->
  rows_ok (enable_all (row o ++ row o') false rn) row' on' tgt.
Proof.
  intros [R1 R2 R3 R4 R5] Er Ho Ho' Hx. pose proof (enable_all_wiring (row o ++ row o') false rn) as W. injection W as W1 W2 _ _.
  assert (Hin : forall x e, e ∈ row x -> e ∈ row o ++ row o' <-> x = o \/ x = o').
  { intros x e He. rewrite elem_of_app. split; [intros [H|H]; [left|right]; by eapply R2|]. intros [->| ->]; [by left|by right]. }
  split; intros x; rewrite ?Er, ?W1.
  - apply R1.
  - intros y e. rewrite Er. apply R2.
  - intros e Hn He. rewrite enable_all_lookup, decide_False; [|rewrite (Hin x) by done; naive_solver].
    apply (R3 x); [|done]. apply Hx; [naive_solver..|done].
  - intros e Hn He. rewrite enable_all_lookup. case_decide as Hd; [done|]. rewrite (Hin x) in Hd by done. apply (R4 x); [|done]. rewrite <- Hx; [done|naive_solver..].
  - unfold leads. rewrite W2. apply R5.
Qed.

End Rows.

(** ** The invariant *)

Definition row (c : config) (o : Owner) : list string :=
  match o with
  | OPeer gi i => default [] (g ← sh_groups c !! gi; gg_endnames g !! i)
  | OCtl gi i => default [] (g ← sh_groups c !! gi; gg_mendnames g !! i)
  | OClerk ck => default [] (sh_clerks c !! ck)
  end.

Definition running (c : config) (gi i : nat) : Prop := exists g kv, sh_groups c !! gi = Some g /\ gg_servers g !! i = Some (Some kv).

Definition on (c : config) (o : Owner) : Prop := match o with OPeer gi i | OCtl gi i => running c gi i | OClerk _ => True end.

(** The servers that the end points of [o] are for; [svc] is the controller service that
    makeClient was given for each clerk. *)
Definition tgt (svc : gmap nat nat) (c : config) (o : Owner) (ss : list string) : Prop :=
  match o with
  | OPeer gi _ => ss = servername (100 + Z.of_nat gi) <$> seq 0 (sh_n c)
  | OCtl _ _ => exists ct, sh_ctlers c !! sh_ctl c = Some ct /\ ss = ct_names ct
  | OClerk ck => exists k ct, svc !! ck = Some k /\ sh_ctlers c !! k = Some ct /\ ss = ct_names ct
  end.

Record ctl_ok (rn : Network string) (ct : ctrler) : Prop :=
  { cl_n : ct_n ct = ctl_size;
    cl_names : length (ct_names ct) = ct_n ct;
    cl_servers : length (ct_servers ct) = ct_n ct;
    cl_name : Forall (fun s => exists x, s = "ctlr-" +:+ x) (ct_names ct);
    cl_registered : forall i sc s, ct_servers ct !! i = Some (Some sc) -> ct_names ct !! i = Some s -> is_Some (server_of s rn) }.

Section Inv.
Context `{LabGob unit} (rnd : nat -> string) `{!Inj (=) (=) rnd}.
Implicit Types (c : config) (g : group) (ct : ctrler) (rn : Network string).

Record group_ok rn (n gi : nat) g : Prop :=
  { go_gid : gg_gid g = 100 + Z.of_nat gi;
    go_servers : length (gg_servers g) = n;
    go_saved : length (gg_saved g) = n;
    go_ends : length (gg_endnames g) = n;
    go_mends : length (gg_mendnames g) = ctl_size;
    go_shared : forall i, gg_saved g !! i = Some Shared <-> exists kv, gg_servers g !! i = Some (Some kv);
    go_registered : forall i, is_Some (server_of (servername (gg_gid g) i) rn) <-> exists kv, gg_servers g !! i = Some (Some kv);
    go_log : forall i ps, storage g i = Some ps -> log_ok (log_of ps) }.

Record harness_ok (svc : gmap nat nat) c : Prop :=
  { ho_drawn : drawn rnd c;
    ho_rows : rows_ok (sh_net c) (row c) (on c) (tgt svc c);
    ho_groups : forall gi g, sh_groups c !! gi = Some g -> group_ok (sh_net c) (sh_n c) gi g;
    ho_unborn : forall gi i, sh_groups c !! gi = None -> server_of (servername (100 + Z.of_nat gi) i) (sh_net c) = None;
    ho_ctl : forall k ct, sh_ctlers c !! k = Some ct -> ctl_ok (sh_net c) ct }.

#[local] Arguments ho_drawn {svc} _ _.
#[local] Arguments ho_rows {svc} _ _.
#[local] Arguments ho_groups {svc} _ _.
#[local] Arguments ho_ctl {svc} _ _.

Context {svc : gmap nat nat}.

(** *** Server names *)

Lemma server_of_set (s s' : string) x rn :
  server_of s (set_servers (<[s' := x]> (servers rn)) rn) = if decide (s = s') then x else server_of s rn.
Proof.
  unfold server_of. simpl. case_decide; subst; [by rewrite lookup_insert_eq|by rewrite lookup_insert_ne].
Qed.

Lemma group_name_inj (gi gi' i i' : nat) : servername (100 + Z.of_nat gi) i = servername (100 + Z.of_nat gi') i' -> gi = gi' /\ i = i'.
Proof. intros [E ->]%servername_inj; [split; [lia|done]|lia..]. Qed.

Lemma group_calm rn rn' n gi g : (forall s, server_of s rn' = server_of s rn) -> group_ok rn n gi g -> group_ok rn' n gi g.
Proof. intros Hs []. split; try done. intros i. by rewrite Hs. Qed.

Lemma ctl_calm rn rn' ct : (forall s, is_Some (server_of s rn) -> is_Some (server_of s rn')) -> ctl_ok rn ct -> ctl_ok rn' ct.
Proof. intros Hs []. split; eauto. Qed.

(** A server of a group is registered or deleted: the controllers do not notice. *)
Lemma ctl_other rn ct gid i x : ctl_ok rn ct -> ctl_ok (set_servers (<[servername gid i := x]> (servers rn)) rn) ct.
Proof.
  intros [C1 C2 C3 C4 C5]. split; try done. intros j sc s Hj Hs. rewrite server_of_set, decide_False; [by eapply C5|].
  rewrite Forall_forall in C4. destruct (C4 s) as [y ->]; [by eapply list_elem_of_lookup_2|]. by apply not_eq_sym, servername_ctlr.
Qed.

(** Nor do the other groups. *)
Lemma group_other rn n gi gi' g i x :
  gi' <> gi -> group_ok rn n gi' g -> group_ok (set_servers (<[servername (100 + Z.of_nat gi) i := x]> (servers rn)) rn) n gi' g.
Proof.
  intros Hne [G1 G2 G3 G4 G5 G6 G7 G8]. split; try done. intros j. rewrite server_of_set, decide_False; [apply G7|].
  rewrite G1. by intros [-> _]%group_name_inj.
Qed.

(** And groups do not notice a controller. *)
Lemma group_ctlr rn n gi g s x : group_ok rn n gi g -> group_ok (set_servers (<["ctlr-" +:+ s := x]> (servers rn)) rn) n gi g.
Proof.
  intros [G1 G2 G3 G4 G5 G6 G7 G8]. split; try done. intros j. rewrite server_of_set, decide_False; [apply G7|]. by apply servername_ctlr.
Qed.

(** *** New end points *)

Lemma spun_calm c n ss : drawn rnd c -> length ss = n -> calm (sh_net c) (sh_net (spun rnd c n ss)).
Proof.
  intros Hd Hlen e He. unfold spun. simpl.
  assert (Hn : e ∉ (zip (names rnd (sh_random c) n) ss).*1).
  { rewrite fst_zip by (rewrite names_length; lia). intros Hin. by apply (names_fresh rnd c (sh_random c) n e Hd). }
  rewrite wires_ends, wires_enabled, decide_False, wires_connections_old by done. split; [by right|done].
Qed.

Lemma spun_ok c n ss : harness_ok svc c -> length ss = n -> harness_ok svc (spun rnd c n ss).
Proof.
  intros [H1 H2 H3 H4 H5] Hlen.
  assert (Hs : forall s, server_of s (sh_net (spun rnd c n ss)) = server_of s (sh_net c)) by (intros s; unfold server_of; simpl; by rewrite wires_servers).
  split.
  - by apply drawn_spun.
  - by apply (rows_calm (sh_net c) _ (row c) _ (on c) _ (tgt svc c) _ (spun_calm c n ss H1 Hlen)).
  - intros gi g Hg. by eapply group_calm, H3.
  - intros gi i Hg. rewrite Hs. by apply H4.
  - intros k ct Hk. eapply ctl_calm, H5; [|done]. intros s. by rewrite Hs.
Qed.

(** The new end points belong to nobody, are enabled, and lead where they should. *)
Lemma spun_fresh c n ss e :
  harness_ok svc c -> length ss = n -> e ∈ names rnd (sh_random c) n ->
  e ∈ ends (sh_net (spun rnd c n ss)) /\ enabled (sh_net (spun rnd c n ss)) !! e = Some true /\ forall o, e ∉ row (spun rnd c n ss) o.
Proof.
  intros Hok Hlen He. assert (Hz : e ∈ (zip (names rnd (sh_random c) n) ss).*1) by (by rewrite fst_zip by (rewrite names_length; lia)).
  unfold spun at 1 2. simpl. rewrite wires_ends, wires_enabled, decide_True by done. split; [by left|]. split; [done|].
  intros o Hin. apply (names_fresh rnd c (sh_random c) n e (ho_drawn _ Hok)); [done|done|]. by apply (ro_ends _ _ _ _ (ho_rows _ Hok) o).
Qed.

Lemma spun_leads c n ss : length ss = n -> leads (sh_net (spun rnd c n ss)) (names rnd (sh_random c) n) ss.
Proof. intros Hlen. apply wires_leads; [by apply names_NoDup|by rewrite names_length]. Qed.

(** *** A server is started *)

Definition seat_group g i (kv : ShardKV) (es ms : list string) : group :=
  mkGroup (gg_gid g) (<[i := Some kv]> (gg_servers g)) (<[i := Shared]> (gg_saved g)) (<[i := es]> (gg_endnames g)) (<[i := ms]> (gg_mendnames g)).

Definition seat c gi i g (kv : ShardKV) (es ms : list string) : config :=
  set_shobjects (sh_objects c + 1) (set_shgroups (<[gi := seat_group g i kv es ms]> (sh_groups c))
    (set_shnet (set_servers (<[servername (gg_gid g) i := Some (sh_objects c)]> (servers (sh_net c))) (sh_net c)) c)).

Lemma started_seat c gi i g ct kv :
  started rnd c gi i g ct kv
  = seat (spun rnd (spun rnd c (sh_n c) (servername (gg_gid g) <$> seq 0 (sh_n c))) (ct_n ct) (ct_names ct)) gi i g kv
      (names rnd (sh_random c) (sh_n c)) (names rnd (sh_random c + sh_n c) (ct_n ct)).
Proof. unfold started, seat, set_shobjects, set_shgroups, set_shnet, spun, set_servers. simpl. by rewrite !wires_servers. Qed.

(** A place of a list is written. *)
Lemma some_at (l : list (option ShardKV)) i j (x : option ShardKV) :
  (i < length l)%nat -> (exists kv, <[i := x]> l !! j = Some (Some kv)) <-> (if decide (j = i) then is_Some x else exists kv, l !! j = Some (Some kv)).
Proof.
  intros Hi. case_decide as Hj; [subst; rewrite list_lookup_insert_eq by done|by rewrite list_lookup_insert_ne by done].
  split; [intros [kv [= ->]]; by eexists|intros [kv ->]; by exists kv].
Qed.

Lemma storage_other g g' i :
  gg_saved g' !! i = gg_saved g !! i -> gg_servers g' !! i = gg_servers g !! i -> storage g' i = storage g i.
Proof. intros E1 E2. unfold storage. by rewrite E1, E2. Qed.

Lemma seat_group_ok rn n gi g i kv es ms o :
  group_ok rn n gi g -> (i < n)%nat -> log_ok (log_of (persister (kv_rf kv))) ->
  group_ok (set_servers (<[servername (gg_gid g) i := Some o]> (servers rn)) rn) n gi (seat_group g i kv es ms).
Proof.
  intros [G1 G2 G3 G4 G5 G6 G7 G8] Hi Hl. split; simpl; rewrite ?length_insert; try done.
  - intros j. rewrite some_at by lia. destruct (decide (j = i)) as [->|Hj]; [rewrite list_lookup_insert_eq by lia|by rewrite list_lookup_insert_ne by done].
    split; [by eexists|done].
  - intros j. rewrite some_at, server_of_set by lia. destruct (decide (j = i)) as [->|Hj]; [by rewrite decide_True|].
    rewrite decide_False; [apply G7|]. rewrite G1. by intros [_ ?]%group_name_inj.
  - intros j ps. destruct (decide (j = i)) as [->|Hj].
    + unfold storage. simpl. rewrite !list_lookup_insert_eq by lia. simpl. by intros [= <-].
    + rewrite (storage_other g) by (simpl; by rewrite list_lookup_insert_ne). apply G8.
Qed.

Lemma row_groups c c' gi g' o :
  sh_groups c' = <[gi := g']> (sh_groups c) -> sh_clerks c' = sh_clerks c -> (gi < length (sh_groups c))%nat ->
  row c' o = match o with
             | OPeer p i => if decide (p = gi) then default [] (gg_endnames g' !! i) else row c o
             | OCtl p i => if decide (p = gi) then default [] (gg_mendnames g' !! i) else row c o
             | OClerk _ => row c o
             end.
Proof.
  intros Eg Ec Hgi. destruct o as [p i|p i|ck]; simpl; rewrite ?Eg, ?Ec; [| |done];
    (case_decide as Hp; [subst; by rewrite list_lookup_insert_eq|by rewrite list_lookup_insert_ne]).
Qed.

Lemma running_groups c c' gi g' p i :
  sh_groups c' = <[gi := g']> (sh_groups c) -> (gi < length (sh_groups c))%nat ->
  running c' p i <-> if decide (p = gi) then exists kv, gg_servers g' !! i = Some (Some kv) else running c p i.
Proof.
  intros Eg Hgi. unfold running. rewrite Eg. case_decide as Hp; [subst; rewrite list_lookup_insert_eq by done|by rewrite list_lookup_insert_ne].
  naive_solver.
Qed.

(** Apart from the row and the state of server [i] of group [gi] nothing changes. *)
Lemma seat_rows c gi i g kv es ms ct :
  harness_ok svc c -> sh_groups c !! gi = Some g -> (i < sh_n c)%nat -> (i < ctl_size)%nat ->
  (forall e, e ∈ es ++ ms -> e ∈ ends (sh_net c) /\ enabled (sh_net c) !! e = Some true /\ forall o, e ∉ row c o) ->
  (forall e, e ∈ es -> e ∉ ms) -> leads (sh_net c) es (servername (gg_gid g) <$> seq 0 (sh_n c)) ->
  sh_ctlers c !! sh_ctl c = Some ct -> leads (sh_net c) ms (ct_names ct) ->
  rows_ok (sh_net c) (row (seat c gi i g kv es ms)) (on (seat c gi i g kv es ms)) (tgt svc c).
Proof.
  intros Hok Hg Hi Hic Hfr Hd Les Hct Lms. pose proof (ho_groups _ Hok gi g Hg) as [G1 G2 G3 G4 G5 _ _ _].
  pose proof (lookup_lt_Some _ _ _ Hg) as Hgi. rewrite G1 in Les. set (c' := seat c gi i g kv es ms).
  set (row1 o := if decide (o = OPeer gi i) then es else row c o). set (on1 o := o = OPeer gi i \/ on c o).
  assert (R1 : rows_ok (sh_net c) row1 on1 (tgt svc c)).
  { apply (rows_set _ (row c) row1 (on c) on1 (tgt svc c) (OPeer gi i) es (servername (100 + Z.of_nat gi) <$> seq 0 (sh_n c)) (ho_rows _ Hok)); try done.
    - intros e He. apply Hfr. set_solver.
    - by left.
    - intros o Ho. unfold on1. naive_solver. }
  assert (Hrow : forall o, row c' o = if decide (o = OCtl gi i) then ms else row1 o).
  { intros o. rewrite (row_groups c c' gi (seat_group g i kv es ms) o) by done. unfold row1. destruct o as [p j|p j|ck]; simpl.
    - destruct (decide (p = gi)) as [->|Hp]; [|repeat case_decide; congruence].
      destruct (decide (j = i)) as [->|Hj]; [rewrite list_lookup_insert_eq by lia|rewrite list_lookup_insert_ne by done]; repeat case_decide; simplify_eq; try done.
      simpl. by rewrite Hg.
    - destruct (decide (p = gi)) as [->|Hp]; [|repeat case_decide; congruence].
      destruct (decide (j = i)) as [->|Hj]; [rewrite list_lookup_insert_eq by lia|rewrite list_lookup_insert_ne by done]; repeat case_decide; simplify_eq; try done.
      simpl. by rewrite Hg.
    - repeat case_decide; congruence. }
  assert (Hrun : forall p j, running c' p j <-> (p = gi /\ j = i) \/ running c p j).
  { intros p j. rewrite (running_groups c c' gi (seat_group g i kv es ms)) by done. simpl.
    destruct (decide (p = gi)) as [->|Hp]; [|naive_solver]. rewrite some_at by lia. unfold running. rewrite Hg. destruct (decide (j = i)) as [->|Hj]; [|naive_solver].
    split; [by left|by eexists]. }
  apply (rows_set _ row1 _ on1 _ (tgt svc c) (OCtl gi i) ms (ct_names ct) R1 Hrow).
  - intros e He. destruct (Hfr e ltac:(set_solver)) as (? & ? & Ho). split; [done|]. split; [done|]. intros o. unfold row1. case_decide; [set_solver|apply Ho].
  - simpl. apply Hrun. by left.
  - intros [p j|p j|ck] Ho; unfold on1; simpl; rewrite ?Hrun; naive_solver.
  - by exists ct.
  - done.
Qed.

Lemma seat_ok c gi i g kv es ms ct :
  harness_ok svc c -> sh_groups c !! gi = Some g -> (i < sh_n c)%nat -> (i < ctl_size)%nat -> log_ok (log_of (persister (kv_rf kv))) ->
  (forall e, e ∈ es ++ ms -> e ∈ ends (sh_net c) /\ enabled (sh_net c) !! e = Some true /\ forall o, e ∉ row c o) ->
  (forall e, e ∈ es -> e ∉ ms) -> leads (sh_net c) es (servername (gg_gid g) <$> seq 0 (sh_n c)) ->
  sh_ctlers c !! sh_ctl c = Some ct -> leads (sh_net c) ms (ct_names ct) -> harness_ok svc (seat c gi i g kv es ms).
Proof.
  intros Hok Hg Hi Hic Hl Hfr Hd Les Hct Lms. pose proof (seat_rows c gi i g kv es ms ct Hok Hg Hi Hic Hfr Hd Les Hct Lms) as HR.
  pose proof (lookup_lt_Some _ _ _ Hg) as Hgi. destruct Hok as [H1 H2 H3 H4 H5]. pose proof (H3 gi g Hg) as Hgo. pose proof (go_gid _ _ _ _ Hgo) as G1.
  split.
  - done.
  - by destruct HR.
  - intros p g'. simpl. destruct (decide (p = gi)) as [->|Hp].
    + rewrite list_lookup_insert_eq by done. intros [= <-]. by apply seat_group_ok.
    + rewrite list_lookup_insert_ne by done. intros Hg'. rewrite G1. by apply group_other; [|apply H3].
  - intros p j. simpl. rewrite list_lookup_insert_None. intros Hp. rewrite server_of_set, decide_False; [by apply H4|].
    rewrite G1. intros [-> _]%group_name_inj. congruence.
  - intros k ct' Hk. simpl. apply ctl_other. by eapply H5.
Qed.

Lemma started_ok c gi i g ct kv :
  harness_ok svc c -> sh_groups c !! gi = Some g -> (i < sh_n c)%nat -> (i < ctl_size)%nat -> sh_ctlers c !! sh_ctl c = Some ct ->
  log_ok (log_of (persister (kv_rf kv))) -> harness_ok svc (started rnd c gi i g ct kv).
Proof.
  intros Hok Hg Hi Hic Hct Hl. rewrite started_seat. set (ss := servername (gg_gid g) <$> seq 0 (sh_n c)).
  assert (Hss : length ss = sh_n c) by (unfold ss; by rewrite length_fmap, length_seq).
  pose proof (spun_ok c _ ss Hok Hss) as Hok1. set (c1 := spun rnd c (sh_n c) ss) in *.
  pose proof (cl_names _ _ (ho_ctl _ Hok _ _ Hct)) as Hn. pose proof (spun_ok c1 _ _ Hok1 Hn) as Hok2. set (c2 := spun rnd c1 _ _) in *.
  pose proof (spun_calm c1 _ _ (ho_drawn _ Hok1) Hn) as Hcalm. fold c2 in Hcalm.
  assert (Hes : forall e, e ∈ names rnd (sh_random c) (sh_n c) -> e ∈ ends (sh_net c1)) by (intros e He; by apply (spun_fresh c _ ss)).
  apply (seat_ok c2 gi i g kv _ _ ct Hok2 Hg Hi Hic Hl); [| | |done|by apply spun_leads].
  - intros e [He|He]%elem_of_app; [|by apply (spun_fresh c1)]. destruct (Hcalm e (Hes e He)) as (? & -> & _). split; [done|].
    by destruct (spun_fresh c _ ss e Hok Hss He) as (_ & ? & ?).
  - intros e He. apply (draws_apart _ _ _ _ _ _ ltac:(reflexivity) He).
  - apply (leads_calm (sh_net c1)); [done|done|]. by apply spun_leads.
Qed.

(** *** A server is shut down *)

Definition shut_group g i : group :=
  mkGroup (gg_gid g) (<[i := None]> (gg_servers g))
    (match storage g i with Some ps => <[i := Owned ps]> (gg_saved g) | None => gg_saved g end) (gg_endnames g) (gg_mendnames g).

(** What is stored stays. *)
Lemma shut_storage rn n gi g i j : group_ok rn n gi g -> (i < n)%nat -> storage (shut_group g i) j = storage g j.
Proof.
  intros [G1 G2 G3 G4 G5 G6 G7 G8] Hi. destruct (decide (j = i)) as [->|Hj].
  - unfold storage at 1. simpl. destruct (storage g i) as [ps|] eqn:E; [by rewrite list_lookup_insert_eq by lia|].
    unfold storage in E. destruct (gg_saved g !! i) as [[| |]|] eqn:Es; try done. destruct (proj1 (G6 i) Es) as [kv Hkv]. by rewrite Hkv in E.
  - apply storage_other; simpl; [|by rewrite list_lookup_insert_ne]. destruct (storage g i); [by rewrite list_lookup_insert_ne|done].
Qed.

Lemma shut_group_ok rn n gi g i :
  group_ok rn n gi g -> (i < n)%nat -> group_ok (set_servers (<[servername (gg_gid g) i := None]> (servers rn)) rn) n gi (shut_group g i).
Proof.
  intros Hgo Hi. pose proof (fun j => shut_storage rn n gi g i j Hgo Hi) as Hst. destruct Hgo as [G1 G2 G3 G4 G5 G6 G7 G8]. split; simpl; rewrite ?length_insert; try done.
  - destruct (storage g i); [by rewrite length_insert|done].
  - intros j. rewrite some_at by lia. destruct (decide (j = i)) as [->|Hj].
    + split; [|by intros [? ?]]. destruct (storage g i) eqn:E; [by rewrite list_lookup_insert_eq by lia|]. intros Es.
      unfold storage in E. rewrite Es in E. destruct (proj1 (G6 i) Es) as [kv Hkv]. by rewrite Hkv in E.
    + destruct (storage g i); [by rewrite list_lookup_insert_ne|done].
  - intros j. rewrite some_at, server_of_set by lia. destruct (decide (j = i)) as [->|Hj]; [by rewrite decide_True|].
    rewrite decide_False; [apply G7|]. rewrite G1. by intros [_ ?]%group_name_inj.
  - intros j ps. rewrite Hst. apply G8.
Qed.

Lemma shut_ok c gi i g :
  harness_ok svc c -> sh_groups c !! gi = Some g -> (i < sh_n c)%nat -> harness_ok svc (shut c gi i g (row c (OPeer gi i)) (row c (OCtl gi i))).
Proof.
  intros Hok Hg Hi. pose proof (lookup_lt_Some _ _ _ Hg) as Hgi. destruct Hok as [H1 H2 H3 H4 H5].
  pose proof (H3 gi g Hg) as Hgo. pose proof (go_gid _ _ _ _ Hgo) as G1. set (c' := shut c gi i g _ _).
  set (rn := enable_all (row c (OPeer gi i) ++ row c (OCtl gi i)) false (sh_net c)).
  pose proof (enable_all_wiring (row c (OPeer gi i) ++ row c (OCtl gi i)) false (sh_net c)) as W. fold rn in W. injection W as W1 W2 W3 W4.
  assert (Enet : sh_net c' = set_servers (<[servername (gg_gid g) i := None]> (servers rn)) rn) by (unfold c', shut; simpl; fold rn; by rewrite W3).
  assert (Hs : forall s, server_of s rn = server_of s (sh_net c)) by (intros s; unfold server_of; by rewrite W3).
  assert (Hrun : forall p j, running c' p j <-> running c p j /\ ~ (p = gi /\ j = i)).
  { intros p j. rewrite (running_groups c c' gi (shut_group g i)) by done. unfold running.
    destruct (decide (p = gi)) as [->|Hp]; [simpl; rewrite some_at by (rewrite (go_servers _ _ _ _ Hgo); lia); rewrite Hg|naive_solver].
    destruct (decide (j = i)) as [->|Hj]; [|naive_solver]. split; [by intros [? ?]|naive_solver]. }
  split.
  - intros e. rewrite Enet. simpl. rewrite W1. apply H1.
  - rewrite Enet. apply (rows_calm rn _ (row c) _ (on c') _ (tgt svc c)); [done| |done|done|].
    + intros o. rewrite (row_groups c c' gi (shut_group g i) o) by done. destruct o as [p j|p j|ck]; simpl; [| |done]; (case_decide as Hp; [|done]); by rewrite Hp, Hg.
    + apply (rows_off _ (row c) _ (on c) _ _ (OPeer gi i) (OCtl gi i) H2); [done|simpl; rewrite Hrun; tauto..|].
      intros [p j|p j|ck] Hx Hy; simpl; rewrite ?Hrun; [naive_solver..|done].
  - intros p g'. rewrite Enet. simpl. destruct (decide (p = gi)) as [->|Hp].
    + rewrite list_lookup_insert_eq by done. intros [= <-]. apply shut_group_ok; [|done]. by apply (group_calm (sh_net c)).
    + rewrite list_lookup_insert_ne by done. intros Hg'. rewrite G1. apply group_other; [done|]. by apply (group_calm (sh_net c)); [|apply H3].
  - intros p j. rewrite Enet. simpl. rewrite list_lookup_insert_None. intros Hp. rewrite server_of_set. case_decide; [done|]. rewrite Hs. by apply H4.
  - intros k ct' Hk. rewrite Enet. apply ctl_other. apply (ctl_calm (sh_net c)); [|by eapply H5]. intros s. by rewrite Hs.
Qed.

End Inv.

Arguments ho_drawn {_} _ {svc} _ _.
Arguments ho_rows {_} _ {svc} _ _.
Arguments ho_groups {_} _ {svc} _ _.
Arguments ho_ctl {_} _ {svc} _ _.

Section Props.
Context `{LabGob unit} (rnd : nat -> string) `{!Inj (=) (=) rnd} {svc : gmap nat nat}.
Implicit Types (c : config) (g : group) (ct : ctrler) (rn : Network string).

(** ** Controllers and clerks *)

(** The controller services keep their names. *)
Lemma rows_ctlers c c' :
  (forall k ct, sh_ctlers c !! k = Some ct -> exists ct', sh_ctlers c' !! k = Some ct' /\ ct_names ct' = ct_names ct) ->
  sh_groups c' = sh_groups c -> sh_clerks c' = sh_clerks c -> sh_n c' = sh_n c -> sh_ctl c' = sh_ctl c -> calm (sh_net c) (sh_net c') ->
  rows_ok (sh_net c) (row c) (on c) (tgt svc c) -> rows_ok (sh_net c') (row c') (on c') (tgt svc c').
Proof.
  intros Hk Eg Ec En El Hc. apply rows_calm; [done|..].
  - intros [p i|p i|ck]; simpl; by rewrite ?Eg, ?Ec.
  - intros [p i|p i|ck] _; simpl; unfold running; by rewrite ?Eg.
  - intros [p i|p i|ck] ss _; simpl; rewrite ?En, ?El; [done| |].
    + intros (ct & Ht & ->). destruct (Hk _ _ Ht) as (ct' & ? & ?). by exists ct'.
    + intros (k & ct & Hs & Ht & ->). destruct (Hk _ _ Ht) as (ct' & ? & ?). by exists k, ct'.
Qed.

Lemma with_ctrler_ok c k i ct (sn : string) sc :
  harness_ok rnd svc c -> sh_ctlers c !! k = Some ct -> ct_names ct !! i = Some sn -> harness_ok rnd svc (with_ctrler rnd c k i ct sn sc).
Proof.
  intros Hok Hk Hsn. pose proof (ho_ctl _ _ Hok _ _ Hk) as [C1 C2 C3 C4 C5]. pose proof (spun_ok rnd c _ _ Hok C2) as Hok1.
  assert (Hx : exists x, sn = "ctlr-" +:+ x) by (rewrite Forall_forall in C4; apply C4; by eapply list_elem_of_lookup_2). destruct Hx as [x Hx].
  unfold with_ctrler. set (c1 := spun rnd c _ _) in *. destruct Hok1 as [H1 H2 H3 H4 H5]. pose proof (lookup_lt_Some _ _ _ Hk) as Hlt. split.
  - done.
  - apply (rows_ctlers c1); try done. intros k' ct' Hk'. simpl. destruct (decide (k' = k)) as [->|Hne].
    + rewrite list_lookup_insert_eq by done. change (sh_ctlers c1) with (sh_ctlers c) in Hk'. eexists. split; [done|]. by simplify_eq.
    + rewrite list_lookup_insert_ne by done. by exists ct'.
  - intros gi g Hg. simpl. rewrite Hx. apply group_ctlr. by apply H3.
  - intros gi j Hg. simpl. rewrite server_of_set, decide_False; [by apply H4|]. rewrite Hx. apply servername_ctlr.
  - intros k' ct'. simpl. assert (Hmono : forall s, is_Some (server_of s (sh_net c1)) ->
      is_Some (server_of s (set_servers (<[sn := Some (sh_objects c)]> (servers (sh_net c1))) (sh_net c1)))).
    { intros s Hs. rewrite server_of_set. case_decide; [by eexists|done]. }
    destruct (decide (k' = k)) as [->|Hne]; [|rewrite list_lookup_insert_ne by done; intros Hk'; by apply (ctl_calm (sh_net c1)); [|by eapply H5]].
    rewrite list_lookup_insert_eq by done. intros [= <-]. destruct (H5 k ct Hk) as [D1 D2 D3 D4 D5]. split; simpl; rewrite ?length_insert; try done.
    intros j sc' s Hj Hs. destruct (decide (j = i)) as [->|Hj'].
    + rewrite Hsn in Hs. injection Hs as <-. rewrite server_of_set, decide_True by done. by eexists.
    + rewrite list_lookup_insert_ne in Hj by done. apply Hmono. by eapply D5.
Qed.

Lemma with_client_ok c ck k ct : harness_ok rnd svc c -> sh_ctlers c !! k = Some ct -> harness_ok rnd (<[ck := k]> svc) (with_client rnd c ck ct).
Proof.
  intros Hok Hk. pose proof (cl_names _ _ (ho_ctl _ _ Hok _ _ Hk)) as Hn. pose proof (spun_ok rnd c _ _ Hok Hn) as Hok1.
  pose proof (fun e => spun_fresh rnd c _ _ e Hok Hn) as Hfr. pose proof (spun_leads rnd c _ _ Hn) as Hl.
  unfold with_client. set (c1 := spun rnd c _ _) in *. destruct Hok1 as [H1 H2 H3 H4 H5]. split; try done.
  set (svc' := <[ck := k]> svc). set (row0 o := if decide (o = OClerk ck) then [] else row c1 o).
  assert (H0 : rows_ok (sh_net c1) row0 (on c1) (tgt svc' c1)).
  { destruct H2 as [R1 R2 R3 R4 R5]. unfold row0.
    assert (Hsub : forall o e, e ∈ (if decide (o = OClerk ck) then [] else row c1 o) -> e ∈ row c1 o)
      by (intros o e; case_decide; [by intros ?%elem_of_nil|done]).
    split; [by eauto using Hsub..|]. intros o. case_decide as Ho; [by left|]. destruct (R5 o) as [|(ss & Ht & Hls)]; [by left|].
    right. exists ss. split; [|done]. destruct o as [p i|p i|ck']; [done..|]. simpl in *. unfold svc'. by rewrite lookup_insert_ne by congruence. }
  apply (rows_set _ row0 _ (on c1) _ (tgt svc' c1) (OClerk ck) (names rnd (sh_random c) (ct_n ct)) (ct_names ct) H0); try done.
  - intros [p i|p i|ck']; unfold row0; simpl; [by repeat case_decide..|]. destruct (decide (ck' = ck)) as [->|Hne].
    + by rewrite lookup_insert_eq, decide_True.
    + rewrite lookup_insert_ne, !decide_False by congruence. done.
  - intros e He. destruct (Hfr e He) as (? & ? & Hout). split_and!; try done. intros o. unfold row0. case_decide; [apply not_elem_of_nil|apply Hout].
  - exists k, ct. split; [apply lookup_insert_eq|done].
Qed.

Lemma without_client_ok c ck : harness_ok rnd svc c -> harness_ok rnd svc (set_shclerks (delete ck (sh_clerks c)) (sh_nextClientId c) c).
Proof.
  intros [H1 [R1 R2 R3 R4 R5] H3 H4 H5]. split; try done. set (c' := set_shclerks _ _ c).
  assert (Hsub : forall o e, e ∈ row c' o -> e ∈ row c o).
  { intros [p i|p i|ck'] e; [done..|]. simpl. destruct (decide (ck' = ck)) as [->|Hne]; [rewrite lookup_delete_eq; by intros ?%elem_of_nil|].
    by rewrite lookup_delete_ne by congruence. }
  split; eauto. intros [p i|p i|ck']; [apply (R5 (OPeer p i))|apply (R5 (OCtl p i))|]. simpl.
  destruct (decide (ck' = ck)) as [->|Hne]; [left; by rewrite lookup_delete_eq|]. rewrite lookup_delete_ne by congruence. apply (R5 (OClerk ck')).
Qed.

(** A controller service without servers. *)
Definition blank_ctl (names : list string) : ctrler := mkCtrler ctl_size (replicate ctl_size None) names None.

Lemma add_ctl_ok c n (names : list string) :
  harness_ok rnd svc c -> length names = ctl_size -> Forall (fun s => exists x, s = "ctlr-" +:+ x) names ->
  harness_ok rnd svc (set_shctlers (sh_ctlers c ++ [blank_ctl names]) (set_random (sh_random c + n) c)).
Proof.
  intros [H1 H2 H3 H4 H5] Hlen Hf. split; try done.
  - by apply drawn_more.
  - apply (rows_ctlers c); try done. intros k ct Hk. exists ct. split; [|done]. simpl. by apply lookup_app_l_Some.
  - intros k ct [Hk|[_ Hk]]%lookup_app_Some; [by eapply H5|]. apply list_lookup_singleton_Some in Hk as [_ <-].
    split; simpl; try done. intros [|[|[|i]]] sc s Hi; by simplify_eq/=.
Qed.

(** ** Services and configurations *)

Context (clock : nat -> Z).

(** What the controllers leave alone. *)
Definition shape c : nat * nat * nat * list group * gmap nat (list string) * Z :=
  (sh_ctl c, sh_ngroups c, sh_n c, sh_groups c, sh_clerks c, sh_maxraftstate c).

Definition complete ct : Prop := (forall i, (i < ctl_size)%nat -> exists sc, ct_servers ct !! i = Some (Some sc)) /\ is_Some (ct_ck ct).

Lemma run_ctl_server c pre ct i :
  harness_ok rnd svc c -> sh_ctlers c = pre ++ [ct] -> (i < ctl_size)%nat ->
  exists sc c', StartCtrlerServer rnd clock (length pre) i c = (c', Ret tt) /\ harness_ok rnd svc c' /\ shape c' = shape c
    /\ sh_ctlers c' = pre ++ [set_ctservers (<[i := Some sc]> (ct_servers ct)) ct].
Proof.
  intros Hok Ec Hi. assert (Hk : sh_ctlers c !! length pre = Some ct) by (rewrite Ec, lookup_app_r, Nat.sub_diag by lia; done).
  pose proof (ho_ctl _ _ Hok _ _ Hk) as [C1 C2 C3 C4 C5]. destruct (lookup_lt_is_Some_2 (ct_names ct) i) as [sn Hsn]; [lia|].
  destruct (run_StartCtrlerServer rnd clock c (length pre) i ct sn (ho_drawn _ _ Hok) Hk C2 ltac:(lia) Hsn) as [sc Hr].
  exists sc, (with_ctrler rnd c (length pre) i ct sn sc). split; [done|]. split; [by apply with_ctrler_ok|]. split; [done|].
  simpl. by rewrite Ec, insert_app_r_alt, Nat.sub_diag by lia.
Qed.

Lemma set_clerk_ok c pre ct ck :
  harness_ok rnd svc c -> sh_ctlers c = pre ++ [ct] -> harness_ok rnd svc (set_shctlers (pre ++ [set_ctck ck ct]) c).
Proof.
  intros [H1 H2 H3 H4 H5] Ec. split; try done.
  - apply (rows_ctlers c); try done. intros k x. rewrite Ec. intros [Hx|[Hlen Hx]]%lookup_app_Some; [exists x; split; [by apply lookup_app_l_Some|done]|].
    apply list_lookup_singleton_Some in Hx as [Hx <-]. exists (set_ctck ck ct). split; [|done]. simpl. rewrite lookup_app_r, Hx by done. done.
  - intros k x [Hx|[Hlen Hx]]%lookup_app_Some.
    + apply (H5 k). rewrite Ec. by apply lookup_app_l_Some.
    + apply list_lookup_singleton_Some in Hx as [Hx <-]. destruct (H5 k ct) as [D1 D2 D3 D4 D5]; [rewrite Ec, lookup_app_r, Hx by done; done|]. by split.
Qed.

Lemma run_StartCtrlerService c :
  harness_ok rnd svc c ->
  exists ct c', StartCtrlerService rnd clock c = (c', Ret (length (sh_ctlers c))) /\ harness_ok rnd svc c' /\ shape c' = shape c
    /\ sh_ctlers c' = sh_ctlers c ++ [ct] /\ complete ct.
Proof.
  intros Hok. unfold StartCtrlerService. rewrite (bind_run _ _ c c (length (sh_ctlers c))) by done.
  rewrite (bind_run _ _ _ _ _ (run_draws rnd (s ← randstring rnd; mret ("ctlr-" +:+ s)) (fun s => "ctlr-" +:+ s) c 0 ctl_size ltac:(done))).
  set (nm := _ <$> names rnd _ _). set (c0 := set_random _ c).
  assert (Hok1 : harness_ok rnd svc (set_shctlers (sh_ctlers c ++ [blank_ctl nm]) c0)).
  { apply add_ctl_ok; [done|unfold nm; by rewrite length_fmap, names_length|]. apply Forall_fmap, Forall_forall. intros x _. by exists x. }
  rewrite (bind_run _ _ c0 (set_shctlers (sh_ctlers c ++ [blank_ctl nm]) c0) tt) by done. set (c1 := set_shctlers _ c0) in *.
  destruct (run_ctl_server c1 (sh_ctlers c) _ 0 Hok1 eq_refl ltac:(unfold ctl_size; lia)) as (s1 & c2 & R2 & Hok2 & F2 & E2).
  destruct (run_ctl_server c2 (sh_ctlers c) _ 1 Hok2 E2 ltac:(unfold ctl_size; lia)) as (s2 & c3 & R3 & Hok3 & F3 & E3).
  destruct (run_ctl_server c3 (sh_ctlers c) _ 2 Hok3 E3 ltac:(unfold ctl_size; lia)) as (s3 & c4 & R4 & Hok4 & F4 & E4).
  set (ct := mkCtrler ctl_size [Some s1; Some s2; Some s3] nm None).
  change (sh_ctlers c4 = sh_ctlers c ++ [ct]) in E4.
  rewrite (bind_run _ _ c1 c4 tt).
  2:{ cbn [seq m_for ctl_size]. rewrite (bind_run _ _ _ _ _ R2), (bind_run _ _ _ _ _ R3), (bind_run _ _ _ _ _ R4). done. }
  assert (Hk : sh_ctlers c4 !! length (sh_ctlers c) = Some ct) by (rewrite E4, lookup_app_r, Nat.sub_diag by lia; done).
  pose proof (ho_ctl _ _ Hok4 _ _ Hk) as Hct. pose proof (cl_names _ _ Hct) as Hn. pose proof (spun_ok rnd c4 _ _ Hok4 Hn) as Hok5.
  set (c5 := spun rnd c4 _ _) in *. rewrite (bind_run _ _ c4 c5 (ShardCtrler.MakeClerk ctl_size)).
  2:{ unfold ctrlerclerk. rewrite (bind_run _ _ _ _ _ (on_ctl_read _ (gets ct_n) c4 ct (ct_n ct) Hk ltac:(done))).
      rewrite (bind_run _ _ _ _ _ (run_ctrler_ends_all rnd c4 _ ct (ho_drawn _ _ Hok4) Hk Hn)). by rewrite names_length. }
  rewrite (bind_run _ _ _ _ _ (on_ctl_run _ (modify (set_ctck (ShardCtrler.MakeClerk ctl_size))) c5 ct _ tt Hk ltac:(done))).
  assert (Ec : sh_ctlers c5 = sh_ctlers c ++ [ct]) by done. rewrite Ec, insert_app_r_alt, Nat.sub_diag by lia. simpl insert.
  eexists (set_ctck _ ct), _. split; [done|]. split_and!.
  - by apply set_clerk_ok.
  - change (shape c4 = shape c). by rewrite F4, F3, F2.
  - done.
  - split; [|by eexists]. intros [|[|[|i]]] Hi; [by eexists..|unfold ctl_size in Hi; lia].
Qed.

(** *** Servers of groups *)

Definition frame c : list ctrler * nat * nat * nat * gmap nat (list string) * Z * nat :=
  (sh_ctlers c, sh_ctl c, sh_ngroups c, sh_n c, sh_clerks c, sh_maxraftstate c, length (sh_groups c)).

(** Server [i] of group [p] has all its end points. *)
Definition filled c (p i : nat) : Prop := length (row c (OPeer p i)) = sh_n c /\ length (row c (OCtl p i)) = ctl_size.

Lemma started_effect c gi i g ct kv :
  harness_ok rnd svc c -> sh_groups c !! gi = Some g -> (i < sh_n c)%nat -> (i < ctl_size)%nat -> sh_ctlers c !! sh_ctl c = Some ct ->
  let c' := started rnd c gi i g ct kv in
  frame c' = frame c
  /\ (forall p j, running c' p j <-> (p = gi /\ j = i) \/ running c p j)
  /\ (forall p j, filled c' p j <-> (p = gi /\ j = i) \/ filled c p j).
Proof.
  intros Hok Hg Hi Hic Hct c'. pose proof (ho_groups _ _ Hok gi g Hg) as [G1 G2 G3 G4 G5 _ _ _]. pose proof (lookup_lt_Some _ _ _ Hg) as Hgi.
  pose proof (cl_n _ _ (ho_ctl _ _ Hok _ _ Hct)) as Hcn. split_and!.
  - unfold frame. simpl. by rewrite length_insert.
  - intros p j. rewrite (running_groups c c' gi _) by done. destruct (decide (p = gi)) as [->|Hp]; [|naive_solver]. simpl. rewrite some_at by lia.
    unfold running. rewrite Hg. destruct (decide (j = i)) as [->|Hj]; [|naive_solver]. split; [by left|by eexists].
  - intros p j. unfold filled. rewrite !(row_groups c c' gi _ _ eq_refl eq_refl Hgi). change (sh_n c') with (sh_n c). simpl.
    destruct (decide (p = gi)) as [->|Hp]; [|naive_solver]. rewrite Hg. simpl. destruct (decide (j = i)) as [->|Hj].
    + rewrite !list_lookup_insert_eq by lia. simpl. rewrite !names_length, Hcn. split; [by left|done].
    + rewrite !list_lookup_insert_ne by done. naive_solver.
Qed.

Lemma run_start c gi i g ct :
  harness_ok rnd svc c -> sh_groups c !! gi = Some g -> (i < sh_n c)%nat -> (i < ctl_size)%nat -> sh_ctlers c !! sh_ctl c = Some ct ->
  exists rf, Make (sh_n c) (Z.of_nat i) (clock (sh_objects c)) (default MakePersister (storage g i)) = (rf, Ret tt)
    /\ let c' := started rnd c gi i g ct (new_kv rnd c i g ct rf) in
       ShardConfig.StartServer rnd clock gi i c = (c', Ret tt) /\ harness_ok rnd svc c'.
Proof.
  intros Hok Hg Hi Hic Hct. pose proof (ho_groups _ _ Hok gi g Hg) as [G1 G2 G3 G4 G5 G6 G7 G8].
  assert (Hl : log_ok (log_of (default MakePersister (storage g i)))).
  { destruct (storage g i) eqn:E; [by eapply G8|]. split; [|by eexists; split; [done|left]|done]. intros [|j] e He; by simplify_eq/=. }
  destruct (run_shard_start rnd clock c gi i g ct (ho_drawn _ _ Hok) Hg) as (rf & Hm & Hr); try lia; try done.
  { split; lia. }
  { by apply (cl_names _ _ (ho_ctl _ _ Hok _ _ Hct)). }
  exists rf. split; [done|]. split; [done|]. apply started_ok; try done. simpl.
  destruct (make_from_storage (sh_n c) i (clock (sh_objects c)) _ Hi Hl) as (rf' & Hm' & Hp & _). pose proof (eq_trans (eq_sym Hm') Hm) as E. injection E as <-. change (log_ok (log_of (persister rf'))). by rewrite Hp.
Qed.

(** The servers of a group, in turn. *)
Lemma run_row c gi ct m :
  harness_ok rnd svc c -> (gi < length (sh_groups c))%nat -> (m <= sh_n c)%nat -> (m <= ctl_size)%nat -> sh_ctlers c !! sh_ctl c = Some ct ->
  exists c', m_for (seq 0 m) (ShardConfig.StartServer rnd clock gi) c = (c', Ret tt) /\ harness_ok rnd svc c' /\ frame c' = frame c
    /\ (forall p j, running c' p j <-> (p = gi /\ (j < m)%nat) \/ running c p j)
    /\ (forall p j, filled c' p j <-> (p = gi /\ (j < m)%nat) \/ filled c p j).
Proof.
  intros Hok Hgi Hm Hmc Hct. induction m as [|m IH].
  { exists c. split; [done|]. split; [done|]. split; [done|]. split; intros; naive_solver lia. }
  destruct IH as (c1 & R1 & Hok1 & F1 & U1 & V1); [lia..|]. pose proof F1 as F. unfold frame in F. injection F as Fc Fl Fg Fn Fk Fx Fs.
  destruct (lookup_lt_is_Some_2 (sh_groups c1) gi) as [g Hg]; [lia|].
  assert (Hct1 : sh_ctlers c1 !! sh_ctl c1 = Some ct) by (by rewrite Fc, Fl).
  destruct (run_start c1 gi m g ct Hok1 Hg ltac:(lia) ltac:(lia) Hct1) as (rf & _ & R2 & Hok2).
  destruct (started_effect c1 gi m g ct (new_kv rnd c1 m g ct rf) Hok1 Hg ltac:(lia) ltac:(lia) Hct1) as (F2 & U2 & V2).
  eexists. rewrite seq_S, (m_for_app _ _ _ _ _ R1). cbn [m_for Nat.add]. rewrite (bind_run _ _ _ _ _ R2). split; [done|]. split; [done|].
  split; [by rewrite F2|]. split; intros p j; [rewrite U2, U1|rewrite V2, V1]; naive_solver lia.
Qed.

(** *** A group is added *)

Lemma add_group_ok c n cn :
  harness_ok rnd svc c -> sh_n c = n -> cn = ctl_size ->
  harness_ok rnd svc (set_shgroups (sh_groups c ++ [blank_group (length (sh_groups c)) n cn]) c).
Proof.
  intros [H1 H2 H3 H4 H5] <- ->. set (gi := length (sh_groups c)). set (c' := set_shgroups _ c).
  assert (Hl : forall p, sh_groups c' !! p = if decide (p = gi) then Some (blank_group gi (sh_n c) ctl_size) else sh_groups c !! p).
  { intros p. simpl. case_decide as Hp; [subst; unfold gi at 1; by rewrite lookup_app_r, Nat.sub_diag by lia|].
    destruct (decide (p < gi)%nat); [by rewrite lookup_app_l|]. rewrite lookup_app_r, (lookup_ge_None_2 (sh_groups c)) by (unfold gi in *; lia).
    apply lookup_ge_None_2. simpl. unfold gi in *. lia. }
  assert (Hnone : sh_groups c !! gi = None) by (apply lookup_ge_None_2; unfold gi; lia).
  split; try done.
  - apply (rows_calm (sh_net c) _ (row c) _ (on c) _ (tgt svc c)); [done| | |done|done].
    + assert (Hr : forall k i, default [] (replicate k [] !! i) = ([] : list string)).
      { intros k i. destruct (replicate k [] !! i) eqn:E; [|done]. by apply lookup_replicate_1 in E as [-> _]. }
      intros [p i|p i|ck]; [cbn [row]; rewrite Hl..|done]; (case_decide as Hp; [|done]); subst; rewrite Hnone; [apply (Hr (sh_n c))|apply (Hr ctl_size)].
    + intros [p i|p i|ck] _; simpl; unfold running; rewrite ?Hl; [..|done]; (case_decide as Hp; [|done]); subst; rewrite Hnone;
        (split; [|naive_solver]); intros (g & kv & [= <-] & Hkv); by apply lookup_replicate_1 in Hkv as [? _].
  - intros p g. rewrite Hl. case_decide as Hp; [|apply H3]. intros [= <-]. subst. split; simpl; rewrite ?length_replicate; try done.
    + intros i. split; [intros Hx|intros [kv Hx]]; by apply lookup_replicate_1 in Hx as [? _].
    + intros i. rewrite H4 by done. split; [by intros [? ?]|intros [kv Hx]; by apply lookup_replicate_1 in Hx as [? _]].
    + intros i ps. unfold storage. simpl. destruct (_ !! i) eqn:E; [|done]. by apply lookup_replicate_1 in E as [-> _].
  - intros p i. rewrite Hl. case_decide; [done|]. apply H4.
Qed.

(** *** make_config *)

Definition group_body (k n gi : nat) : M config unit :=
  cn ← on_ctl k (gets ct_n);
  modify (fun c => set_shgroups (sh_groups c ++ [blank_group gi n cn]) c);;
  m_for (seq 0 n) (ShardConfig.StartServer rnd clock gi).

(** The body up to its loop. *)
Lemma enter_group c k n gi ct :
  harness_ok rnd svc c -> sh_ctlers c !! k = Some ct -> length (sh_groups c) = gi ->
  group_body k n gi c = m_for (seq 0 n) (ShardConfig.StartServer rnd clock gi) (set_shgroups (sh_groups c ++ [blank_group gi n ctl_size]) c).
Proof.
  intros Hok Hct Hgi. unfold group_body. rewrite (bind_run _ _ _ _ _ (on_ctl_read k (gets ct_n) c ct (ct_n ct) Hct ltac:(done))).
  by rewrite (cl_n _ _ (ho_ctl _ _ Hok _ _ Hct)).
Qed.

Lemma run_groups c ct m :
  harness_ok rnd svc c -> sh_ctlers c !! sh_ctl c = Some ct -> (sh_n c <= ctl_size)%nat -> sh_groups c = [] ->
  exists c', m_for (seq 0 m) (group_body (sh_ctl c) (sh_n c)) c = (c', Ret tt) /\ harness_ok rnd svc c'
    /\ frame c' = (sh_ctlers c, sh_ctl c, sh_ngroups c, sh_n c, sh_clerks c, sh_maxraftstate c, m)
    /\ (forall p j, (p < m)%nat -> (j < sh_n c)%nat -> running c' p j /\ filled c' p j).
Proof.
  intros Hok Hct Hn Hg. induction m as [|m IH].
  { exists c. split; [done|]. split; [done|]. unfold frame. rewrite Hg. split; [done|]. intros; lia. }
  destruct IH as (c1 & R1 & Hok1 & F1 & U1). pose proof F1 as F. unfold frame in F. injection F as Fc Fl Fg Fn Fk Fx Fs.
  assert (Hct1 : sh_ctlers c1 !! sh_ctl c = Some ct) by (by rewrite Fc). pose proof (add_group_ok c1 (sh_n c) ctl_size Hok1 Fn eq_refl) as Hok2. rewrite Fs in Hok2.
  rewrite seq_S, (m_for_app _ _ _ _ _ R1). cbn [m_for Nat.add]. pose proof (enter_group c1 (sh_ctl c) (sh_n c) m ct Hok1 Hct1 Fs) as Hen.
  set (c2 := set_shgroups _ c1) in *.
  assert (Hold : forall p j, (p < m)%nat -> running c1 p j /\ filled c1 p j -> running c2 p j /\ filled c2 p j).
  { intros p j Hp. unfold running, filled. simpl. by rewrite lookup_app_l by lia. }
  destruct (run_row c2 m ct (sh_n c) Hok2) as (c3 & R3 & Hok3 & F3 & U3 & V3); try done; try (simpl; rewrite ?length_app, ?Fs, ?Fn; simpl; lia).
  { simpl. by rewrite Fl. }
  exists c3. rewrite (bind_run _ _ _ _ _ (eq_trans Hen R3)). split; [done|]. split; [done|]. split.
  - rewrite F3. unfold frame. simpl. rewrite length_app, Fc, Fl, Fg, Fn, Fk, Fx, Fs. simpl. repeat f_equal. lia.
  - intros p j Hp Hj. destruct (decide (p = m)) as [->|Hne]; [split; [apply U3|apply V3]; by left|].
    destruct (Hold p j ltac:(lia) (U1 p j ltac:(lia) Hj)). split; [apply U3|apply V3]; by right.
Qed.

(** Before any group exists, the sizes can be set. *)
Lemma set_shape_ok c k ng n : harness_ok rnd svc c -> sh_groups c = [] -> sh_clerks c = ∅ -> harness_ok rnd svc (set_shape k ng n c).
Proof.
  intros [H1 H2 H3 H4 H5] Hg Hk. assert (Hr : forall o, row c o = []) by (intros [p i|p i|ck]; simpl; by rewrite ?Hg, ?Hk, ?lookup_empty).
  split; try done; [|simpl; by rewrite Hg].
  apply (rows_calm (sh_net c) _ (row c) _ (on c) _ (tgt svc c)); [done|done| | |done]; intros o; rewrite Hr; by intros.
Qed.

Lemma sh_blank_ok mx : harness_ok rnd svc (blank_shard mx).
Proof.
  split; try done. assert (Hr : forall o, row (blank_shard mx) o = []) by (intros [p i|p i|ck]; done).
  split; intros o; rewrite Hr; try (by intros e ?%elem_of_nil); try (by intros o' e ?%elem_of_nil); try (by intros e ? ?%elem_of_nil). by left.
Qed.

(** The controllers, and the sizes. *)
Lemma run_make_prefix n mx :
  exists ct c, StartCtrlerService rnd clock (blank_shard mx) = (c, Ret 0%nat) /\ harness_ok rnd svc (set_shape 0 ngroups n c)
    /\ sh_ctlers c = [ct] /\ complete ct /\ sh_groups c = [] /\ sh_clerks c = ∅.
Proof.
  destruct (run_StartCtrlerService (blank_shard mx) (sh_blank_ok mx)) as (ct & c & Hr & Hok & F & Ec & Hc).
  injection F as F1 F2 F3 F4 F5 F6. exists ct, c. split; [done|]. split; [by apply set_shape_ok|done].
Qed.

Record ready c : Prop :=
  { rd_ctl : is_Some (sh_ctlers c !! sh_ctl c);
    rd_complete : forall k ct, sh_ctlers c !! k = Some ct -> complete ct;
    rd_groups : length (sh_groups c) = ngroups;
    rd_filled : forall p j, (p < ngroups)%nat -> (j < sh_n c)%nat -> filled c p j;
    rd_clerks : forall ck, sh_clerks c !! ck <> Some [] }.

Lemma run_make_config n unreliable mx :
  (n <= ctl_size)%nat ->
  exists c, make_config rnd clock n unreliable mx = (c, Ret tt) /\ harness_ok rnd svc c /\ ready c /\ sh_n c = n
    /\ forall p j, (p < ngroups)%nat -> (j < n)%nat -> running c p j.
Proof.
  intros Hn. destruct (run_make_prefix n mx) as (ct & c0 & R0 & Hok0 & Ec & Hc & Eg & Ek). set (c1 := set_shape 0 ngroups n c0) in *.
  assert (Hct : sh_ctlers c1 !! sh_ctl c1 = Some ct) by (simpl; by rewrite Ec).
  destruct (run_groups c1 ct ngroups Hok0 Hct Hn Eg) as (c2 & R2 & Hok2 & F & U). unfold frame in F. simpl in F. injection F as Fc Fl Fg Fn Fk Fx Fs.
  unfold make_config. rewrite (bind_run _ _ _ _ _ R0), (bind_run _ _ c0 c1 tt) by done.
  change (fun gi => on_ctl 0 (gets ct_n) ≫= _) with (group_body (sh_ctl c1) (sh_n c1)). rewrite (bind_run _ _ _ _ _ R2). eexists. split; [done|].
  assert (Ek2 : sh_clerks c2 = ∅) by (by rewrite Fk, Ek).
  assert (Hrow : forall o (m : Z) rn, row (set_shnet rn (set_shclerks ∅ m c2)) o = row c2 o) by (intros [p i|p i|ck] m rn; [done..|]; simpl; by rewrite Ek2).
  split_and!.
  - destruct Hok2 as [H1 H2 H3 H4 H5]. split; try done; [by apply (rows_calm (sh_net c2) _ (row c2) _ (on c2) _ (tgt svc c2))|..].
    + intros gi g Hg. by apply (group_calm (sh_net c2)), H3.
    + intros k x Hk. by apply (ctl_calm (sh_net c2)), (H5 k).
  - split; simpl; rewrite ?Fc, ?Fl, ?Ec; [by eexists| |by rewrite Fs| |by intros ck].
    + intros [|k] x Hk; [by injection Hk as <-|done].
    + intros p j Hp Hj. rewrite Fn in Hj. by apply U.
  - done.
  - intros p j Hp Hj. by apply U.
Qed.

(** The fourth server of a group has no row for its end points to the controllers. *)
Lemma make_config_panics n unreliable mx : (ctl_size < n)%nat -> snd (make_config rnd clock n unreliable mx) = Panic.
Proof.
  intros Hn. destruct (run_make_prefix n mx) as (ct & c0 & R0 & Hok0 & Ec & Hc & Eg & Ek). set (c1 := set_shape 0 ngroups n c0) in *.
  assert (Hct : sh_ctlers c1 !! 0%nat = Some ct) by (simpl; by rewrite Ec).
  unfold make_config. rewrite (bind_run _ _ _ _ _ R0), (bind_run _ _ c0 c1 tt) by done.
  change (fun gi => on_ctl 0 (gets ct_n) ≫= _) with (group_body 0 n). unfold ngroups. cbn [seq m_for].
  assert (Hp : snd (group_body 0 n 0 c1) = Panic).
  { rewrite (enter_group c1 0 n 0 ct Hok0 Hct) by (simpl; by rewrite Eg). pose proof (add_group_ok c1 n ctl_size Hok0 eq_refl eq_refl) as Hok2.
    change (length (sh_groups c1)) with (length (sh_groups c0)) in Hok2. rewrite Eg in Hok2. simpl sh_groups in *. rewrite Eg in *.
    set (c2 := set_shgroups _ c1) in *. destruct (run_row c2 0 ct ctl_size Hok2) as (c3 & R3 & Hok3 & F3 & _); [simpl; lia|simpl; lia|lia|done|].
    unfold frame in F3. injection F3 as Fc Fl Fg Fn Fk Fx Fs. destruct (lookup_lt_is_Some_2 (sh_groups c3) 0) as [g Hg]; [lia|].
    pose proof (ho_groups _ _ Hok3 0 g Hg) as [G1 G2 G3 G4 G5 _ _ _]. rewrite Fn in *.
    replace n with (ctl_size + S (n - ctl_size - 1))%nat by lia. rewrite seq_app, (m_for_app _ _ _ _ _ R3). cbn [seq m_for Nat.add].
    unfold mbind, M_bind, m_bind.
    pose proof (StartServer_panics rnd clock c3 0 ctl_size g ct (ho_drawn _ _ Hok3) Hg) as Hpan.
    destruct (ShardConfig.StartServer rnd clock 0 ctl_size c3) as [c4 [|]]; [|done].
    exfalso. assert (Hx : @Ret unit tt = Panic); [|done]. destruct a. apply Hpan; [split; simpl in *; lia|lia|]. rewrite Fc, Fl. done. }
  unfold mbind, M_bind, m_bind. destruct (group_body 0 n 0 c1) as [c2 [[]|]]; done.
Qed.

End Props.
