(* ===== verification/ShardTests.v ===== *)
(** What the tests of the sharded service rely on: whatever they shut down, start and make,
    servers and clerks reach exactly what they should. *)
From Stdlib Require Import ZArith Lia Ascii.
From stdpp Require Import base list numbers strings gmap relations pretty.
From S2P Require Import Prelude RaftTypes RaftNode RaftVote RaftWf RaftSpec LabRpc NetOps RaftConfig Shard ShardServers ShardKvServer ShardConfig ShardNet ShardHarness.

#[local] Open Scope Z_scope.
Import ShardServers.CtrlServer ShardKvServer.KvServer.

Section Tests.
Context `{LabGob unit} (rnd : nat -> string) `{!Inj (=) (=) rnd} (clock : nat -> Z).
Implicit Types (c : config) (g : group) (ct : ctrler) (svc : gmap nat nat).

(** A server has gone on: its peer is another, whose storage it can be started from. *)
Definition go_on gi i g (kv : ShardKV) c : config :=
  set_shgroups (<[gi := set_servers_of (<[i := Some kv]> (gg_servers g)) g]> (sh_groups c)) c.

(** What a test may do next.  Beside the harness, [svc] is the service that each clerk was last
    made for: the second argument of makeClient. *)
Inductive hstep : config * gmap nat nat -> config * gmap nat nat -> Prop :=
| h_shutdown c svc gi i c' : (gi < ngroups)%nat -> (i < sh_n c)%nat -> ShutdownServer gi i c = (c', Ret tt) -> hstep (c, svc) (c', svc)
| h_start c svc gi i c' : (gi < ngroups)%nat -> (i < sh_n c)%nat -> ShardConfig.StartServer rnd clock gi i c = (c', Ret tt) -> hstep (c, svc) (c', svc)
| h_client c svc ck k cl c' : (k < length (sh_ctlers c))%nat -> makeClient rnd ck k c = (c', Ret cl) -> hstep (c, svc) (c', <[ck := k]> svc)
| h_delete c svc ck c' : deleteClient ck c = (c', Ret tt) -> hstep (c, svc) (c', svc)
| h_service c svc k c' : StartCtrlerService rnd clock c = (c', Ret k) -> hstep (c, svc) (c', svc)
| h_end c svc s e c' : make_end rnd s c = (c', Ret e) -> hstep (c, svc) (c', svc)
| h_runs c svc gi i g kv kv' :
    sh_groups c !! gi = Some g -> gg_servers g !! i = Some (Some kv) -> log_ok (log_of (persister (kv_rf kv'))) -> hstep (c, svc) (go_on gi i g kv' c, svc).

(** ** The steps keep the harness in order *)

Record good svc c : Prop := { gd_ok : harness_ok rnd svc c; gd_ready : ready c; gd_n : sh_n c = ctl_size }.

Arguments gd_ok {svc} _ _.
Arguments gd_ready {svc} _ _.
Arguments gd_n {svc} _ _.

Lemma group_at {svc} c gi : good svc c -> (gi < ngroups)%nat -> exists g, sh_groups c !! gi = Some g /\ group_ok (sh_net c) (sh_n c) gi g.
Proof.
  intros [Hok Hr _] Hgi. destruct (lookup_lt_is_Some_2 (sh_groups c) gi) as [g Hg]; [by rewrite (rd_groups _ Hr)|].
  exists g. split; [done|]. by apply (ho_groups _ _ Hok).
Qed.

(** The frame of a state, and its filled rows, are enough for [ready]. *)
Lemma ready_frame c c' : frame c' = frame c -> (forall p j, filled c p j -> filled c' p j) -> ready c -> ready c'.
Proof.
  intros F V [R1 R2 R3 R4 R5]. unfold frame in F. injection F as Fc Fl Fg Fn Fk Fx Fs.
  split; rewrite ?Fc, ?Fl, ?Fs, ?Fn, ?Fk; try done. intros p j Hp Hj. by apply V, R4.
Qed.

Lemma start_good {svc} c gi i :
  good svc c -> (gi < ngroups)%nat -> (i < sh_n c)%nat ->
  exists g rf c', sh_groups c !! gi = Some g
    /\ Make (sh_n c) (Z.of_nat i) (clock (sh_objects c)) (default MakePersister (storage g i)) = (rf, Ret tt)
    /\ ShardConfig.StartServer rnd clock gi i c = (c', Ret tt) /\ good svc c' /\ running c' gi i
    /\ (forall p j, running c' p j <-> (p = gi /\ j = i) \/ running c p j)
    /\ exists g' kv', sh_groups c' = <[gi := g']> (sh_groups c) /\ gg_servers g' = <[i := Some kv']> (gg_servers g) /\ gg_saved g' = <[i := Shared]> (gg_saved g)
         /\ kv_rf kv' = rf.
Proof.
  intros Hgd Hgi Hi. destruct (group_at c gi Hgd Hgi) as (g & Hg & Hgo). pose proof Hgd as [Hok Hr Hn]. destruct (rd_ctl _ Hr) as [ct Hct].
  assert (Hic : (i < ctl_size)%nat) by lia. destruct (run_start rnd clock c gi i g ct Hok Hg Hi Hic Hct) as (rf & Hm & Hrun & Hok').
  destruct (started_effect rnd clock c gi i g ct (new_kv rnd c i g ct rf) Hok Hg Hi Hic Hct) as (F & U & V).
  exists g, rf. eexists. split; [done|]. split; [done|]. split; [exact Hrun|]. split_and!.
  - split; [done| |done]. apply (ready_frame c); [done| |done]. intros p j Hf. apply V. by right.
  - apply U. by left.
  - done.
  - by eexists _, _.
Qed.

Lemma shut_good {svc} c gi i :
  good svc c -> (gi < ngroups)%nat -> (i < sh_n c)%nat ->
  exists g c', sh_groups c !! gi = Some g /\ ShutdownServer gi i c = (c', Ret tt) /\ good svc c'
    /\ (forall p j, running c' p j <-> running c p j /\ ~ (p = gi /\ j = i))
    /\ sh_groups c' = <[gi := shut_group g i]> (sh_groups c) /\ (forall o, row c' o = row c o).
Proof.
  intros Hgd Hgi Hi. destruct (group_at c gi Hgd Hgi) as (g & Hg & Hgo). pose proof Hgd as [Hok Hr Hn].
  pose proof (rd_filled _ Hr gi i Hgi Hi) as [L1 L2]. pose proof (lookup_lt_Some _ _ _ Hg) as Hlt. pose proof Hgo as [G1 G2 G3 G4 G5 _ _ _].
  destruct (lookup_lt_is_Some_2 (gg_endnames g) i) as [es He]; [lia|]. destruct (lookup_lt_is_Some_2 (gg_mendnames g) i) as [ms Hm]; [lia|].
  assert (Ees : row c (OPeer gi i) = es) by (simpl; rewrite Hg; simpl; by rewrite He).
  assert (Ems : row c (OCtl gi i) = ms) by (simpl; rewrite Hg; simpl; by rewrite Hm).
  pose proof (shut_ok rnd c gi i g Hok Hg Hi) as Hok'. rewrite Ees, Ems in *. set (c' := shut c gi i g es ms) in *.
  exists g, c'. split; [done|]. split; [apply run_shard_shutdown; try done; [split; lia|by rewrite L1, G2]|].
  assert (Hrow : forall o, row c' o = row c o).
  { intros o. rewrite (row_groups c c' gi (shut_group g i) o eq_refl eq_refl Hlt). destruct o as [p j|p j|ck]; simpl; [| |done]; (case_decide as Hp; [|done]); by rewrite Hp, Hg. }
  split_and!.
  - split; [done| |done]. apply (ready_frame c); [unfold frame; simpl; by rewrite length_insert| |done].
    intros p j. unfold filled. by rewrite !Hrow.
  - intros p j. rewrite (running_groups c c' gi (shut_group g i) p j eq_refl Hlt). unfold running.
    destruct (decide (p = gi)) as [->|Hp]; [simpl; rewrite some_at by lia; rewrite Hg|naive_solver].
    destruct (decide (j = i)) as [->|Hj]; [|naive_solver]. split; [by intros [? ?]|naive_solver].
  - done.
  - done.
Qed.

Lemma go_on_good {svc} c gi i g kv kv' :
  good svc c -> sh_groups c !! gi = Some g -> gg_servers g !! i = Some (Some kv) -> log_ok (log_of (persister (kv_rf kv'))) -> good svc (go_on gi i g kv' c).
Proof.
  intros [Hok Hr Hn] Hg Hi Hl. pose proof (lookup_lt_Some _ _ _ Hg) as Hlt. pose proof (lookup_lt_Some _ _ _ Hi) as Hil.
  set (g' := set_servers_of (<[i := Some kv']> (gg_servers g)) g). set (c' := go_on gi i g kv' c).
  assert (Hrow : forall o, row c' o = row c o).
  { intros o. rewrite (row_groups c c' gi g' o eq_refl eq_refl Hlt). destruct o as [p j|p j|ck]; simpl; [| |done]; (case_decide as Hp; [|done]); by rewrite Hp, Hg. }
  assert (Hsome : forall j, (exists k, gg_servers g' !! j = Some (Some k)) <-> exists k, gg_servers g !! j = Some (Some k)).
  { intros j. simpl. rewrite some_at by done. destruct (decide (j = i)) as [->|Hj]; [|done]. split; [by exists kv|by eexists]. }
  assert (Hrun : forall p j, running c' p j <-> running c p j).
  { intros p j. rewrite (running_groups c c' gi g' p j eq_refl Hlt). destruct (decide (p = gi)) as [->|Hp]; [|done]. rewrite Hsome. unfold running. rewrite Hg. naive_solver. }
  split; [|apply (ready_frame c); [unfold frame; simpl; by rewrite length_insert|intros p j; unfold filled; by rewrite !Hrow|done]|done].
  destruct Hok as [H1 H2 H3 H4 H5]. split; try done.
  - apply (rows_calm (sh_net c) _ (row c) _ (on c) _ (tgt svc c)); [done|done|intros [p j|p j|ck] _; simpl; by rewrite ?Hrun|done|done].
  - intros p x. simpl. destruct (decide (p = gi)) as [->|Hp]; [|rewrite list_lookup_insert_ne by done; apply H3].
    rewrite list_lookup_insert_eq by done. intros [= <-]. destruct (H3 gi g Hg) as [G1 G2 G3 G4 G5 G6 G7 G8]. fold g'.
    split; try done; try (by simpl; rewrite length_insert).
    + intros j. by rewrite Hsome.
    + intros j. by rewrite Hsome.
    + intros j ps. destruct (decide (j = i)) as [->|Hj].
      * unfold storage. simpl. rewrite (proj2 (G6 i)) by (by exists kv). rewrite list_lookup_insert_eq by done. simpl. by intros [= <-].
      * rewrite (storage_other g) by (simpl; by rewrite ?list_lookup_insert_ne). apply G8.
  - intros p j. simpl. rewrite list_lookup_insert_None. apply H4.
Qed.

Lemma client_good {svc} c ck k :
  good svc c -> (k < length (sh_ctlers c))%nat ->
  exists ct, sh_ctlers c !! k = Some ct /\ makeClient rnd ck k c = (with_client rnd c ck ct, Ret (ShardCtrler.MakeClerk ctl_size)) /\ good (<[ck := k]> svc) (with_client rnd c ck ct).
Proof.
  intros [Hok Hr Hn] Hk. destruct (lookup_lt_is_Some_2 (sh_ctlers c) k Hk) as [ct Hct]. pose proof (ho_ctl _ _ Hok _ _ Hct) as [C1 C2 _ _ _].
  exists ct. split; [done|]. split; [rewrite <- C1; apply run_shard_client; [done|apply Hok|done|done|by rewrite Hn, C1]|].
  split; [by eapply with_client_ok| |done]. destruct Hr as [R1 R2 R3 R4 R5]. split; try done. intros ck'. simpl.
  destruct (decide (ck' = ck)) as [->|Hne]; [rewrite lookup_insert_eq; intros [= E]; by rewrite C1 in E|by rewrite lookup_insert_ne].
Qed.

Lemma service_good {svc} c :
  good svc c -> exists c', StartCtrlerService rnd clock c = (c', Ret (length (sh_ctlers c))) /\ good svc c'.
Proof.
  intros [Hok Hr Hn]. destruct (run_StartCtrlerService rnd clock c Hok) as (ct & c' & Hrun & Hok' & F & Ec & Hc). injection F as Fl Fg Fn Fs Fk Fx.
  exists c'. split; [done|]. split; [done| |by rewrite Fn]. destruct Hr as [[ct0 R1] R2 R3 R4 R5]. split; [.. |by rewrite Fk].
  - rewrite Ec, Fl. exists ct0. by apply lookup_app_l_Some.
  - intros k x. rewrite Ec. intros [Hx|[_ Hx]]%lookup_app_Some; [by eapply R2|]. by apply list_lookup_singleton_Some in Hx as [_ <-].
  - by rewrite Fs.
  - intros p j. rewrite Fn. intros Hp Hj. specialize (R4 p j Hp Hj). unfold filled in *. simpl in *. by rewrite Fs, Fn.
Qed.

Lemma end_good {svc} c s : good svc c -> exists c', make_end rnd s c = (c', Ret (rnd (sh_random c))) /\ good svc c'.
Proof.
  intros [Hok Hr Hn]. exists (spun rnd c 1 [s]). split; [by apply run_new_end; [|apply Hok|]|]. split; [by apply spun_ok|by destruct Hr; split|done].
Qed.

Lemma hstep_good c svc c' svc' : good svc c -> hstep (c, svc) (c', svc') -> good svc' c'.
Proof.
  intros Hgd Hs. inversion Hs as [? ? gi i x Hgi Hi Hr|? ? gi i x Hgi Hi Hr|? ? ck k cl x Hk Hr|? ? ck x Hr|? ? k x Hr|? ? s e x Hr|? ? gi i g kv kv' Hg Hi Hl]; subst.
  - destruct (shut_good c gi i Hgd Hgi Hi) as (g & y & _ & Hy & ? & _). rewrite Hr in Hy. by injection Hy as ->.
  - destruct (start_good c gi i Hgd Hgi Hi) as (g & rf & y & _ & _ & Hy & ? & _). rewrite Hr in Hy. by injection Hy as ->.
  - destruct (client_good c ck k Hgd Hk) as (ct & _ & Hy & ?). rewrite Hr in Hy. by injection Hy as -> _.
  - injection Hr as <-. destruct Hgd as [Hok [R1 R2 R3 R4 R5] Hn]. split; [by apply without_client_ok|split; try done|done].
    intros ck'. simpl. by intros [_ ?%R5]%lookup_delete_Some.
  - destruct (service_good c Hgd) as (y & Hy & ?). rewrite Hr in Hy. by injection Hy as -> _.
  - destruct (end_good c s Hgd) as (y & Hy & ?). rewrite Hr in Hy. by injection Hy as -> _.
  - by eapply go_on_good.
Qed.

Lemma tests_good unreliable mx c0 c svc :
  make_config rnd clock ctl_size unreliable mx = (c0, Ret tt) -> rtc hstep (c0, ∅) (c, svc) -> good svc c.
Proof.
  intros Hm Hr. enough (Hp : forall w, rtc hstep (c0, ∅) w -> good w.2 w.1) by exact (Hp _ Hr). clear Hr.
  intros w. apply (rtc_preserves hstep (fun w => good w.2 w.1)); [intros [] []; apply hstep_good|].
  destruct (run_make_config rnd (svc:=∅) clock ctl_size unreliable mx ltac:(lia)) as (c1 & Hm1 & Hok & Hrd & Hn & _).
  rewrite Hm in Hm1. injection Hm1 as <-. by split.
Qed.

(** ** What the tests rely on *)

(** A call on the end point is passed to the server that is registered as [s]. *)
Definition reaches c (e s : string) : Prop :=
  let '(ok, sn, server, _, _) := readEndnameInfo e (sh_net c) in ok = true /\ sn = Some s /\ is_Some server.

Lemma row_reaches {svc} c o ss j s :
  harness_ok rnd svc c -> on c o -> row c o <> [] -> (forall ss', tgt svc c o ss' -> ss' = ss) -> ss !! j = Some s -> is_Some (server_of s (sh_net c)) ->
  exists e, row c o !! j = Some e /\ reaches c e s.
Proof.
  intros Hok Ho Hne Ht Hs Hreg. pose proof (ho_rows _ _ Hok) as [R1 R2 R3 R4 R5]. destruct (R5 o) as [|(ss' & Hss & Hl)]; [done|].
  rewrite (Ht ss' Hss) in Hl. destruct (lookup_lt_is_Some_2 (row c o) j) as [e He].
  { rewrite (Forall2_length _ _ _ Hl). by eapply lookup_lt_Some. }
  exists e. split; [done|]. unfold reaches, readEndnameInfo, is_enabled.
  rewrite (R3 o e Ho (list_elem_of_lookup_2 _ _ _ He)), (leads_lookup _ _ _ _ _ _ Hl He Hs). done.
Qed.

Lemma server_registered {svc} c gi i : good svc c -> (gi < ngroups)%nat -> is_Some (server_of (servername (100 + Z.of_nat gi) i) (sh_net c)) <-> running c gi i.
Proof.
  intros Hgd Hgi. destruct (group_at c gi Hgd Hgi) as (g & Hg & Hgo). rewrite <- (go_gid _ _ _ _ Hgo), (go_registered _ _ _ _ Hgo). unfold running. rewrite Hg. naive_solver.
Qed.

Lemma ctlr_registered {svc} c k ct j s : good svc c -> sh_ctlers c !! k = Some ct -> ct_names ct !! j = Some s -> is_Some (server_of s (sh_net c)).
Proof.
  intros [Hok Hr _] Hk Hs. pose proof (ho_ctl _ _ Hok _ _ Hk) as [C1 C2 C3 C4 C5].
  destruct (proj1 (rd_complete _ Hr _ _ Hk) j) as [sc Hsc]; [rewrite <- C1, <- C2; by eapply lookup_lt_Some|]. by eapply C5.
Qed.

Lemma running_range {svc} c gi i : good svc c -> running c gi i -> (gi < ngroups)%nat /\ (i < sh_n c)%nat.
Proof.
  intros Hgd (g & kv & Hg & Hi). assert (Hgi : (gi < ngroups)%nat) by (rewrite <- (rd_groups _ (gd_ready _ Hgd)); by eapply lookup_lt_Some).
  split; [done|]. rewrite <- (go_servers _ _ _ _ (ho_groups _ _ (gd_ok _ Hgd) _ _ Hg)). by eapply lookup_lt_Some.
Qed.

(** A server that is down is cut off: not registered, its end points disabled, not reached. *)
Lemma down_isolated {svc} c gi i :
  good svc c -> (gi < ngroups)%nat -> ~ running c gi i ->
  server_of (servername (100 + Z.of_nat gi) i) (sh_net c) = None
  /\ (forall e, e ∈ row c (OPeer gi i) ++ row c (OCtl gi i) -> is_enabled e (sh_net c) = false)
  /\ forall e, ~ reaches c e (servername (100 + Z.of_nat gi) i).
Proof.
  intros Hgd Hgi Hd. pose proof (ro_off _ _ _ _ (ho_rows _ _ (gd_ok _ Hgd))) as R4. split_and!.
  - apply eq_None_not_Some. by rewrite (server_registered c gi i Hgd Hgi).
  - intros e [He|He]%elem_of_app; unfold is_enabled; [by rewrite (R4 (OPeer gi i) e)|by rewrite (R4 (OCtl gi i) e)].
  - intros e. unfold reaches, readEndnameInfo. intros (_ & Hs & Hx). rewrite Hs in Hx. by apply (server_registered c gi i Hgd Hgi) in Hx.
Qed.

(** C34.  The sharded harness keeps its groups wired: while the tests shut servers down, start them
    again, make and delete clerks, start further controller services, and servers and clerks
    make end points of their own, (1) a running server reaches every running server of its
    group and (2) every controller; (3) the end points that are recorded for a server that is
    down (its rows of gg.endnames and gg.mendnames) are disabled, and no end point of the
    network reaches that server; (4) every clerk reaches, through the end points recorded for
    it, every controller of the very service that makeClient was given for it. *)
Theorem shard_harness_wired unreliable mx c0 c svc :
  make_config rnd clock ctl_size unreliable mx = (c0, Ret tt) -> rtc hstep (c0, ∅) (c, svc) ->
  (forall gi i j, running c gi i -> running c gi j -> exists e, row c (OPeer gi i) !! j = Some e /\ reaches c e (servername (100 + Z.of_nat gi) j))
  /\ (forall gi i ct j s, running c gi i -> sh_ctlers c !! sh_ctl c = Some ct -> ct_names ct !! j = Some s ->
        exists e, row c (OCtl gi i) !! j = Some e /\ reaches c e s)
  /\ (forall gi i, (gi < ngroups)%nat -> (i < ctl_size)%nat -> ~ running c gi i ->
        (forall e, e ∈ row c (OPeer gi i) ++ row c (OCtl gi i) -> is_enabled e (sh_net c) = false)
        /\ forall e, ~ reaches c e (servername (100 + Z.of_nat gi) i))
  /\ (forall ck es, sh_clerks c !! ck = Some es -> exists k ct, svc !! ck = Some k /\ sh_ctlers c !! k = Some ct
        /\ forall j s, ct_names ct !! j = Some s -> exists e, es !! j = Some e /\ reaches c e s).
Proof.
  intros Hm Hr. pose proof (tests_good _ _ _ _ _ Hm Hr) as Hgd. pose proof Hgd as [Hok Hrd Hn]. pose proof (ho_rows _ _ Hok) as [R1 R2 R3 R4 R5].
  assert (Hne : forall gi i, running c gi i -> row c (OPeer gi i) <> [] /\ row c (OCtl gi i) <> []).
  { intros gi i Hrun. destruct (running_range _ _ _ Hgd Hrun) as [Hgi Hi]. destruct (rd_filled _ Hrd gi i Hgi Hi) as [L1 L2].
    split; intros E; rewrite E in *; unfold ctl_size in *; simpl in *; lia. }
  split_and!.
  - intros gi i j Hi Hj. destruct (running_range _ _ _ Hgd Hj) as [Hgi Hjn].
    apply (row_reaches (svc:=svc) c (OPeer gi i) (servername (100 + Z.of_nat gi) <$> seq 0 (sh_n c))); [done|done|by apply Hne|done| |by apply (server_registered c gi j Hgd Hgi)].
    rewrite list_lookup_fmap, lookup_seq_lt by done. done.
  - intros gi i ct j s Hi Hct Hs. apply (row_reaches (svc:=svc) c (OCtl gi i) (ct_names ct)); [done|done|by apply Hne| |done|by eapply ctlr_registered].
    intros ss (ct' & Hct' & ->). rewrite Hct in Hct'. by injection Hct' as <-.
  - intros gi i Hgi _ Hd. by destruct (down_isolated c gi i Hgd Hgi Hd) as (_ & ? & ?).
  - intros ck es Hck. assert (Er : row c (OClerk ck) = es) by (simpl; by rewrite Hck). destruct (R5 (OClerk ck)) as [E|(ss & (k & ct & Hsvc & Hct & ->) & Hl)].
    { exfalso. apply (rd_clerks _ Hrd ck). congruence. }
    exists k, ct. split; [done|]. split; [done|]. intros j s Hs. rewrite Er in Hl.
    destruct (lookup_lt_is_Some_2 es j) as [e He]; [rewrite (Forall2_length _ _ _ Hl); by eapply lookup_lt_Some|]. exists e. split; [done|].
    unfold reaches, readEndnameInfo, is_enabled. rewrite (R3 (OClerk ck) e I ltac:(rewrite Er; by eapply list_elem_of_lookup_2)), (leads_lookup _ _ _ _ _ _ Hl He Hs).
    split; [done|]. split; [done|]. by eapply ctlr_registered.
Qed.

(** C35.  A server of a group restarts: shutting a running server down and starting it again
    returns; in between the server is cut off: it does not run, nothing is registered under its
    name, no end point reaches it, and every end point that was recorded for it, to its group
    and to the controllers, is disabled; the new server's peer has the term, vote, log
    and snapshot that the old one had stored; and every other server of every group is as
    it was, with its storage. *)
Theorem shard_restart unreliable mx c0 c svc gi i g kv :
  make_config rnd clock ctl_size unreliable mx = (c0, Ret tt) -> rtc hstep (c0, ∅) (c, svc) ->
  sh_groups c !! gi = Some g -> gg_servers g !! i = Some (Some kv) ->
  exists c1 c2 g2 kv', ShutdownServer gi i c = (c1, Ret tt)
    /\ (~ running c1 gi i /\ server_of (servername (gg_gid g) i) (sh_net c1) = None
        /\ (forall e, ~ reaches c1 e (servername (gg_gid g) i))
        /\ forall e, e ∈ row c (OPeer gi i) ++ row c (OCtl gi i) -> is_enabled e (sh_net c1) = false)
    /\ ShardConfig.StartServer rnd clock gi i c1 = (c2, Ret tt)
    /\ sh_groups c2 !! gi = Some g2 /\ gg_servers g2 !! i = Some (Some kv')
    /\ recovered (persister (kv_rf kv)) = (currentTerm (kv_rf kv'), voteFor (kv_rf kv'), log (kv_rf kv'), snapshot (kv_rf kv'))
    /\ forall p j x, (p, j) <> (gi, i) -> sh_groups c !! p = Some x ->
         exists x', sh_groups c2 !! p = Some x' /\ gg_servers x' !! j = gg_servers x !! j /\ storage x' j = storage x j.
Proof.
  intros Hm Hr Hg Hi. pose proof (tests_good _ _ _ _ _ Hm Hr) as Hgd.
  assert (Hrun : running c gi i) by (by exists g, kv). destruct (running_range _ _ _ Hgd Hrun) as [Hgi Hin].
  pose proof (ho_groups _ _ (gd_ok _ Hgd) _ _ Hg) as Hgo. pose proof (lookup_lt_Some _ _ _ Hg) as Hlt.
  destruct (shut_good c gi i Hgd Hgi Hin) as (g' & c1 & Hg' & R1 & Hgd1 & U1 & E1 & Erow). rewrite Hg in Hg'. injection Hg' as <-.
  pose proof (fun j => shut_storage _ _ _ _ i j Hgo Hin) as Hst.
  assert (Hs : storage g i = Some (persister (kv_rf kv))).
  { unfold storage. rewrite (proj2 (go_shared _ _ _ _ Hgo i)) by (by exists kv). by rewrite Hi. }
  assert (Hn1 : sh_n c1 = sh_n c) by (by rewrite (gd_n _ Hgd), (gd_n _ Hgd1)). assert (Hin1 : (i < sh_n c1)%nat) by lia.
  destruct (start_good c1 gi i Hgd1 Hgi Hin1) as (g1 & rf & c2 & Hg1 & Hmk & R2 & Hgd2 & _ & _ & g2 & kv' & E2 & Esv & Esd & Erf).
  rewrite E1, list_lookup_insert_eq in Hg1 by done. injection Hg1 as <-. rewrite Hst, Hs in Hmk. simpl in Hmk.
  assert (Hl : log_ok (log_of (persister (kv_rf kv)))) by (by eapply (go_log _ _ _ _ Hgo)).
  destruct (make_from_storage (sh_n c1) i (clock (sh_objects c1)) _ Hin1 Hl) as (rf' & Hmk' & _ & Hrec).
  pose proof (eq_trans (eq_sym Hmk') Hmk) as E. injection E as Erf'. rewrite E1, list_insert_insert_eq in E2.
  pose proof (go_servers _ _ _ _ Hgo) as Ls. pose proof (go_saved _ _ _ _ Hgo) as Lv.
  exists c1, c2, g2, kv'. split; [done|]. split.
  { assert (Hd : ~ running c1 gi i) by (rewrite U1; tauto). destruct (down_isolated c1 gi i Hgd1 Hgi Hd) as (D1 & D2 & D3).
    rewrite !Erow, <- (go_gid _ _ _ _ Hgo) in *. done. }
  split; [done|]. split; [by rewrite E2, list_lookup_insert_eq|].
  split; [rewrite Esv; simpl; rewrite list_insert_insert_eq, list_lookup_insert_eq by lia; done|]. split; [rewrite Erf, <- Erf'; exact Hrec|].
  intros p j x Hne Hx. destruct (decide (p = gi)) as [->|Hp]; [|exists x; by rewrite E2, list_lookup_insert_ne].
  rewrite Hg in Hx. injection Hx as <-. assert (Hj : j <> i) by congruence. exists g2. rewrite E2, list_lookup_insert_eq by done. split; [done|].
  assert (Ej : gg_servers g2 !! j = gg_servers g !! j) by (rewrite Esv; simpl; by rewrite !list_lookup_insert_ne).
  split; [done|]. rewrite (storage_other (shut_group g i) g2 j); [apply Hst|by rewrite Esd, list_lookup_insert_ne|by rewrite Esv, list_lookup_insert_ne].
Qed.

(** C36.  The harness only works for groups of three servers: make_config returns if and only if
    there are no more servers in a group than controllers, and in the configurations it
    makes makeClient returns if and only if there are as many. *)
Theorem shard_sizes n unreliable mx :
  (returns (snd (make_config rnd clock n unreliable mx)) <-> (n <= ctl_size)%nat)
  /\ forall c0 ck, make_config rnd clock n unreliable mx = (c0, Ret tt) -> returns (snd (makeClient rnd ck (sh_ctl c0) c0)) <-> n = ctl_size.
Proof.
  split.
  - destruct (decide (n <= ctl_size)%nat) as [Hle|Hgt].
    + destruct (run_make_config rnd (svc:=∅) clock n unreliable mx Hle) as (c & -> & _). split; [done|by exists tt].
    + rewrite (make_config_panics rnd (svc:=∅) clock n unreliable mx) by lia. split; [by intros [? ?]|lia].
  - intros c0 ck Hm. destruct (decide (n <= ctl_size)%nat) as [Hle|Hgt].
    2:{ pose proof (make_config_panics rnd (svc:=∅) clock n unreliable mx ltac:(lia)) as Hp. by rewrite Hm in Hp. }
    destruct (run_make_config rnd (svc:=∅) clock n unreliable mx Hle) as (c & Hm' & Hok & Hr & Hn & _). rewrite Hm in Hm'. injection Hm' as <-.
    destruct (rd_ctl _ Hr) as [ct Hct]. pose proof (ho_ctl _ _ Hok _ _ Hct) as [C1 C2 _ _ _]. destruct (decide (n = ctl_size)) as [->|Hne].
    + rewrite (run_shard_client rnd c0 ck (sh_ctl c0) ct (ho_drawn _ _ Hok) Hct C2) by congruence. split; [done|by eexists].
    + rewrite (makeClient_panics rnd c0 ck (sh_ctl c0) ct (ho_drawn _ _ Hok) Hct C2) by lia. split; [by intros [? ?]|done].
Qed.

(** ** Joining *)

Definition join_map (n : nat) (gis : list nat) (m : gmap Z (list string)) : gmap Z (list string) :=
  foldl (fun m gi => let gid := 100 + Z.of_nat gi in <[gid := servername gid <$> seq 0 n]> m) m gis.

Definition gid_at (gi : nat) : Z := 100 + Z.of_nat gi.

Lemma join_map_lookup n gis m gid :
  join_map n gis m !! gid = if decide (gid ∈ gid_at <$> gis) then Some (servername gid <$> seq 0 n) else m !! gid.
Proof.
  revert m. induction gis as [|gi gis IH]; intros m; [by rewrite decide_False by (by intros ?%elem_of_nil)|].
  change (join_map n (gi :: gis) m) with (join_map n gis (<[gid_at gi := servername (gid_at gi) <$> seq 0 n]> m)). rewrite IH, fmap_cons. destruct (decide (gid ∈ gid_at <$> gis)) as [Hx|Hx].
  - by rewrite decide_True by (by right).
  - destruct (decide (gid = gid_at gi)) as [->|Hne].
    + rewrite decide_True by left. apply lookup_insert_eq.
    + rewrite decide_False by (by intros [?|?]%elem_of_cons). by apply lookup_insert_ne.
Qed.

Lemma run_join_map {svc} c gis m :
  good svc c -> Forall (fun gi => (gi < ngroups)%nat) gis ->
  m_fold gis (fun m gi => gid ← gid_of gi; n ← gets sh_n; mret (<[gid := servername gid <$> seq 0 n]> m)) m c = (c, Ret (join_map (sh_n c) gis m)).
Proof.
  intros Hgd Hf. revert m. induction Hf as [|gi gis Hgi _ IH]; intros m; [done|]. cbn [m_fold]. destruct (group_at c gi Hgd Hgi) as (g & Hg & Hgo).
  rewrite (bind_run _ _ c c (<[100 + Z.of_nat gi := servername (100 + Z.of_nat gi) <$> seq 0 (sh_n c)]> m)); [apply IH|].
  unfold gid_of. rewrite (bind_run _ _ c c (gg_gid g)) by (by rewrite (bind_run _ _ _ _ _ (at_server_run _ _ _ _ Hg))).
  by rewrite (go_gid _ _ _ _ Hgo).
Qed.

(** Joining announces the servers under the names they are registered with: joinm returns,
    and calls Join of the service's clerk with exactly the groups it was given; an end
    point that anybody makes for an announced name reaches a server if and only if that
    server of that group is running. *)
Theorem join_announces unreliable mx c0 c svc gis k answers :
  make_config rnd clock ctl_size unreliable mx = (c0, Ret tt) -> rtc hstep (c0, ∅) (c, svc) ->
  Forall (fun gi => (gi < ngroups)%nat) gis -> (k < length (sh_ctlers c))%nat ->
  exists m ck, joinm gis k answers c = (c, Ret (ShardCtrler.Join m answers ck))
    /\ (forall gid l, m !! gid = Some l <-> exists gi, gi ∈ gis /\ gid = 100 + Z.of_nat gi /\ l = servername gid <$> seq 0 ctl_size)
    /\ forall gi l j s, gi ∈ gis -> m !! (100 + Z.of_nat gi) = Some l -> l !! j = Some s ->
         exists c' e, make_end rnd s c = (c', Ret e) /\ (reaches c' e s <-> running c gi j).
Proof.
  intros Hm Hr Hf Hk. pose proof (tests_good _ _ _ _ _ Hm Hr) as Hgd. destruct (lookup_lt_is_Some_2 _ _ Hk) as [ct Hct].
  destruct (rd_complete _ (gd_ready _ Hgd) _ _ Hct) as [_ [ck Hck]].
  exists (join_map (sh_n c) gis ∅), ck. split_and!.
  - unfold joinm. rewrite (bind_run _ _ _ _ _ (run_join_map c gis ∅ Hgd Hf)). unfold clerk_of.
    rewrite (bind_run _ _ c c ck); [done|].
    rewrite (bind_run _ _ _ _ _ (on_ctl_read k (gets ct_ck) c ct (Some ck) Hct ltac:(unfold gets; by rewrite Hck))). done.
  - intros gid l. rewrite join_map_lookup, (gd_n _ Hgd), lookup_empty. case_decide as Hx; rewrite list_elem_of_fmap in Hx.
    + destruct Hx as (gi & -> & ?). split; [intros [= <-]; by exists gi|]. intros (gi' & _ & _ & ->). done.
    + split; [done|]. intros (gi & ? & -> & _). destruct Hx. by exists gi.
  - intros gi l j s Hgi Hl Hs. rewrite join_map_lookup, decide_True in Hl by (apply list_elem_of_fmap; by exists gi). injection Hl as <-.
    apply list_lookup_fmap_Some in Hs as (j' & -> & [-> Hj]%lookup_seq). simpl in *.
    rewrite Forall_forall in Hf. exists (spun rnd c 1 [servername (100 + Z.of_nat gi) j]), (rnd (sh_random c)). split; [by apply run_new_end; [|apply Hgd|]|].
    rewrite <- (server_registered c gi j Hgd (Hf gi Hgi)). unfold reaches, readEndnameInfo, is_enabled. simpl.
    rewrite !lookup_insert_eq. simpl. unfold server_of. simpl. split; [by intros (_ & _ & ?)|done].
Qed.

End Tests.

(** ** A run *)
Module ShardRun.

#[local] Ltac by_decision := refine (bool_decide_unpack _ _); vm_compute; exact I.

#[export] Instance unit_gob : LabGob unit :=
  { enc_state := fun t v l => [Z.pos (encode (t, v, (fun e => (le_Term e, le_Index e, le_Data e)) <$> l))];
    dec_state := fun bs => match bs with
      | [Z.pos p] => '(t, v, l) ← decode p; Some (t, v, (fun '(a, b, d) => mkLogEntry a b d) <$> (l : list (Z * Z * option unit)))
      | _ => None
      end }.

Definition names : nat -> string := pretty.
Definition clock0 : nat -> Z := fun _ => 0.

(** Three groups of three; server 1 of group 2 is shut down, a clerk is made, server 1 is
    started again, server 0 of group 0 is shut down; then a second service of controllers is
    started and a clerk is made for it. *)
Definition c0 : config := fst (make_config names clock0 ctl_size false 1000).
Definition c1 : config := fst (ShutdownServer 2 1 c0).
Definition c2 : config := fst (makeClient names 7 0 c1).
Definition c3 : config := fst (ShardConfig.StartServer names clock0 2 1 c2).
Definition c4 : config := fst (ShutdownServer 0 0 c3).
Definition c5 : config := fst (StartCtrlerService names clock0 c4).
Definition c6 : config := fst (makeClient names 8 1 c5).
Definition made_for : gmap nat nat := {[8 := 1; 7 := 0]}%nat.

Lemma ends_with {A B : Type} (x : A * B) b : snd x = b -> x = (fst x, b).
Proof. by destruct x; intros <-. Qed.

Lemma made : make_config names clock0 ctl_size false 1000 = (c0, Ret tt).
Proof. unfold c0. apply ends_with. vm_compute. reflexivity. Qed.

Lemma steps : rtc (hstep names clock0) (c0, ∅) (c6, made_for).
Proof.
  assert (E1 : ShutdownServer 2 1 c0 = (c1, Ret tt)) by (unfold c1; apply ends_with; vm_compute; reflexivity).
  assert (E2 : makeClient names 7 0 c1 = (c2, Ret (ShardCtrler.MakeClerk 3))) by (unfold c2; apply ends_with; vm_compute; reflexivity).
  assert (E3 : ShardConfig.StartServer names clock0 2 1 c2 = (c3, Ret tt)) by (unfold c3; apply ends_with; vm_compute; reflexivity).
  assert (E4 : ShutdownServer 0 0 c3 = (c4, Ret tt)) by (unfold c4; apply ends_with; vm_compute; reflexivity).
  assert (E5 : StartCtrlerService names clock0 c4 = (c5, Ret 1%nat)) by (unfold c5; apply ends_with; vm_compute; reflexivity).
  assert (E6 : makeClient names 8 1 c5 = (c6, Ret (ShardCtrler.MakeClerk 3))) by (unfold c6; apply ends_with; vm_compute; reflexivity).
  eapply rtc_l; [apply (h_shutdown _ _ c0 ∅ 2 1 c1); [unfold ngroups; lia|by_decision|exact E1]|].
  eapply rtc_l; [apply (h_client _ _ c1 ∅ 7 0 (ShardCtrler.MakeClerk 3) c2); [by_decision|exact E2]|].
  eapply rtc_l; [apply (h_start _ _ c2 _ 2 1 c3); [unfold ngroups; lia|by_decision|exact E3]|].
  eapply rtc_l; [apply (h_shutdown _ _ c3 _ 0 0 c4); [unfold ngroups; lia|by_decision|exact E4]|].
  eapply rtc_l; [apply (h_service _ _ c4 _ 1 c5 E5)|].
  eapply rtc_l; [apply (h_client _ _ c5 _ 8 1 (ShardCtrler.MakeClerk 3) c6); [by_decision|exact E6]|]. apply rtc_refl.
Qed.

#[export] Instance names_inj : Inj (=) (=) names.
Proof. unfold names. apply _. Qed.

Definition runs (c : config) (gi i : nat) : bool :=
  match sh_groups c !! gi with
  | Some g => match gg_servers g !! i with Some (Some _) => true | _ => false end
  | None => false
  end.

Lemma runs_spec c gi i : running c gi i <-> runs c gi i = true.
Proof.
  unfold running, runs. split.
  - by intros (g & kv & -> & ->).
  - destruct (sh_groups c !! gi) as [g|]; [|done]. destruct (gg_servers g !! i) as [[kv|]|] eqn:E; try done. intros _. by exists g, kv.
Qed.

Ltac by_running := apply runs_spec; vm_compute; reflexivity.
Ltac by_down := rewrite runs_spec; vm_compute; discriminate.

(** The restarted server is reached again; the one that is down is not; the second clerk
    reaches the second service. *)
Lemma shard_harness_wired_witness :
  (exists e, row c6 (OPeer 2 0) !! 1%nat = Some e /\ reaches c6 e "server-102-1")
  /\ (exists e, row c6 (OPeer 2 1) !! 0%nat = Some e /\ reaches c6 e "server-102-0")
  /\ (forall e, ~ reaches c6 e "server-100-0")
  /\ (exists ct, sh_ctlers c6 !! 1%nat = Some ct
        /\ forall j s, ct_names ct !! j = Some s -> exists e, row c6 (OClerk 8) !! j = Some e /\ reaches c6 e s).
Proof.
  destruct (shard_harness_wired names clock0 false 1000 c0 c6 made_for made steps) as (H1 & _ & H3 & H4). split; [|split; [|split]].
  - apply (H1 2%nat 0%nat 1%nat); by_running.
  - apply (H1 2%nat 1%nat 0%nat); by_running.
  - apply (H3 0%nat 0%nat); [unfold ngroups; lia|unfold ctl_size; lia|by_down].
  - destruct (H4 8%nat (row c6 (OClerk 8)) ltac:(vm_compute; reflexivity)) as (k & ct & Hk & Hct & Hall).
    assert (Ek : made_for !! 8%nat = Some 1%nat) by (vm_compute; reflexivity). rewrite Ek in Hk. injection Hk as <-. exists ct. exact (conj Hct Hall).
Defined.

(** Server 2 of group 1 restarts. *)
Lemma shard_restart_witness :
  exists d1 d2 g2 kv', ShutdownServer 1 2 c6 = (d1, Ret tt)
    /\ (~ running d1 1 2 /\ server_of "server-101-2" (sh_net d1) = None)
    /\ ShardConfig.StartServer names clock0 1 2 d1 = (d2, Ret tt)
    /\ sh_groups d2 !! 1%nat = Some g2 /\ gg_servers g2 !! 2%nat = Some (Some kv').
Proof.
  destruct (proj2 (runs_spec c6 1 2) ltac:(vm_compute; reflexivity)) as (g & kv & Hg & Hk).
  assert (Egid : gg_gid <$> sh_groups c6 !! 1%nat = Some 101) by (vm_compute; reflexivity). rewrite Hg in Egid. injection Egid as Egid.
  destruct (shard_restart names clock0 false 1000 c0 c6 made_for 1 2 g kv made steps Hg Hk) as (d1 & d2 & g2 & kv' & H1 & (H2 & H2' & _) & H3 & H4 & H5 & _).
  rewrite Egid in H2'. exists d1, d2, g2, kv'. exact (conj H1 (conj (conj H2 H2') (conj H3 (conj H4 H5)))).
Defined.

Lemma shard_sizes_witness :
  ~ returns (snd (make_config names clock0 4 false 1000))
  /\ returns (snd (make_config names clock0 2 false 1000))
  /\ returns (snd (makeClient names 0 (sh_ctl c0) c0)).
Proof.
  destruct (shard_sizes names clock0 4 false 1000) as [H4 _]. destruct (shard_sizes names clock0 2 false 1000) as [H2 _].
  destruct (shard_sizes names clock0 3 false 1000) as [_ H3]. split; [|split].
  - rewrite H4. unfold ctl_size. lia.
  - apply H2. unfold ctl_size. lia.
  - apply (H3 c0 0%nat made). reflexivity.
Defined.

(** Groups 0 and 2 join; server 0 of group 0 is down. *)
Lemma join_announces_witness :
  exists m ck, joinm [0; 2]%nat 0 [] c6 = (c6, Ret (ShardCtrler.Join m [] ck))
    /\ m !! 100 = Some ["server-100-0"; "server-100-1"; "server-100-2"]%string
    /\ (exists c' e, make_end names "server-100-0" c6 = (c', Ret e) /\ ~ reaches c' e "server-100-0")
    /\ (exists c' e, make_end names "server-102-1" c6 = (c', Ret e) /\ reaches c' e "server-102-1").
Proof.
  destruct (join_announces names clock0 false 1000 c0 c6 made_for [0; 2]%nat 0 [] made steps) as (m & ck & H1 & H2 & H3);
    [repeat constructor; unfold ngroups; lia|by_decision|].
  assert (H100 : m !! 100 = Some ["server-100-0"; "server-100-1"; "server-100-2"]%string).
  { apply H2. exists 0%nat. split; [left|]. split; reflexivity. }
  assert (H102 : m !! 102 = Some ["server-102-0"; "server-102-1"; "server-102-2"]%string).
  { apply H2. exists 2%nat. split; [right; left|]. split; reflexivity. }
  exists m, ck. split; [exact H1|]. split; [exact H100|]. split.
  - destruct (H3 0%nat _ 0%nat "server-100-0"%string ltac:(left) H100 eq_refl) as (c' & e & He & Hx). exists c', e. split; [exact He|]. rewrite Hx. by_down.
  - destruct (H3 2%nat _ 1%nat "server-102-1"%string ltac:(right; left) H102 eq_refl) as (c' & e & He & Hx). exists c', e. split; [exact He|]. apply Hx. by_running.
Defined.

End ShardRun.
