(* ===== verification/SvcInst.v ===== *)
(** The servers that the service harness runs: the replicated key/value server and the
    shard controller, as instances of [SmrServer]; the harness of src/src/shardctrler/config.go. *)
From Stdlib Require Import ZArith Lia.
From stdpp Require Import base list numbers strings gmap.
From S2P Require Import Prelude RaftTypes RaftNode ElectionSafety LabRpc NetOps RaftConfig SvcConfig SvcNet SvcServers SvcProps KvRaft KvDemo Shard ShardServers.

#[local] Open Scope Z_scope.

(** ** kvraft *)

Section Kv.
Context `{LabGobOk Op} `{SnapGob}.

#[export] Instance kv_smr : SmrServer (KVServer (Raft Op)) :=
  { smr_start n me now ps maxraftstate :=
      match Make n me now ps with (rf, r) => (StartKVServer me maxraftstate rf ps, r) end;
    smr_kill := KV_Kill;
    smr_state := on_rf svc_GetState;
    smr_persister kv := persister (kv_rf kv);
    smr_nil_leader := Panic }.

#[export] Instance kv_state_ok : SmrStateOk (S := KVServer (Raft Op)).
Proof. intros kv. eexists. unfold smr_state. simpl. unfold on_rf. simpl. by destruct kv. Qed.

(** A server starts on blank storage. *)
Lemma kv_starts_blank n (i : nat) now mx : (i < n)%nat -> exists kv, smr_start n (Z.of_nat i) now MakePersister mx = (kv, Ret tt).
Proof. intros Hi. destruct (Make_blank (D:=Op) n i now Hi) as (rf & Hm & _). unfold smr_start. simpl. rewrite Hm. by eexists. Qed.

End Kv.

(** ** shardctrler *)
Module ShardCtrlHarness.
Import ShardServers.CtrlServer.

Section Ctrl.
Context `{LabGobOk CtrlServer.Op}.

#[export] Instance ctrl_smr : SmrServer ShardCtrler :=
  { smr_start n me now ps _ := CtrlServer.StartServer n me now ps;
    smr_kill := CtrlServer.Kill;
    smr_state := fun sc => match GetState (sc_rf sc) with (rf, r) => (mkShardCtrler (sc_me sc) rf (configs sc), r) end;
    smr_persister sc := persister (sc_rf sc);
    smr_nil_leader := Ret false }.

#[export] Instance ctrl_state_ok : SmrStateOk (S := ShardCtrler).
Proof. intros sc. eexists. unfold smr_state. simpl. by destruct sc. Qed.

(** The text of the harness is that of kvraft, for another type of server. *)
Definition connectUnlocked := SvcConfig.connectUnlocked (S := ShardCtrler).
Definition disconnectUnlocked := SvcConfig.disconnectUnlocked (S := ShardCtrler).
Definition connect := SvcConfig.connect (S := ShardCtrler).
Definition disconnect := SvcConfig.disconnect (S := ShardCtrler).
Definition All := SvcConfig.All (S := ShardCtrler).
Definition ConnectAll := SvcConfig.ConnectAll (S := ShardCtrler).
Definition partition := SvcConfig.partition (S := ShardCtrler).
Definition random_handles := SvcConfig.random_handles (A := string).
Definition makeClient := SvcConfig.makeClient (S := ShardCtrler).
Definition deleteClient := SvcConfig.deleteClient (S := ShardCtrler).
Definition ConnectClientUnlocked := SvcConfig.ConnectClientUnlocked (S := ShardCtrler).
Definition DisconnectClientUnlocked := SvcConfig.DisconnectClientUnlocked (S := ShardCtrler).
Definition ConnectClient := SvcConfig.ConnectClient (S := ShardCtrler).
Definition DisconnectClient := SvcConfig.DisconnectClient (S := ShardCtrler).
Definition ShutdownServer := SvcConfig.ShutdownServer (S := ShardCtrler).
Definition StartServer := SvcConfig.StartServer (S := ShardCtrler).
Definition Leader := SvcConfig.Leader (S := ShardCtrler).
Definition make_partition := SvcConfig.make_partition (S := ShardCtrler).
Definition cleanup := SvcConfig.cleanup (S := ShardCtrler).
Definition LogSize := SvcConfig.LogSize (S := ShardCtrler).
Definition make_config (n : nat) (unreliable : bool) := SvcConfig.make_config (S := ShardCtrler) n unreliable 0.

End Ctrl.
End ShardCtrlHarness.
