(* ===== verification/SvcDemo.v ===== *)
(** Runs of the service harness on concrete inputs: three key/value servers. *)
From Stdlib Require Import ZArith Lia.
From stdpp Require Import base list numbers strings gmap.
From S2P Require Import Prelude RaftTypes RaftNode ElectionSafety LabRpc NetOps RaftConfig SvcConfig SvcNet SvcServers SvcProps KvRaft KvDemo SvcInst.

#[local] Open Scope Z_scope.
Import CountGob.

Abbreviation Kv := (KVServer (Raft Op)).

Definition svc_names (i : nat) : list string :=
  match i with
  | 0%nat => ["a0"; "a1"; "a2"] | 1%nat => ["b0"; "b1"; "b2"] | 2%nat => ["c0"; "c1"; "c2"]
  | 3%nat => ["d0"; "d1"; "d2"] | _ => []
  end%string.
Definition clock0 : nat -> Z := fun _ => 0.
Definition kv_at (i : nat) : Kv := fst (smr_start 3 (Z.of_nat i) 0 MakePersister (-1)).

Ltac by_decision := refine (bool_decide_unpack _ _); vm_compute; exact I.

Lemma names_apart i e j : (i < 3)%nat -> (j < 3)%nat -> e ∈ svc_names i -> e ∈ svc_names j -> i = j.
Proof.
  intros Hi Hj Hin Hjn. destruct i as [|[|[|i]]]; [..|lia]; (destruct j as [|[|[|j]]]; [..|lia]); try reflexivity; exfalso; set_solver.
Qed.

Lemma svc_make_config_witness :
  exists cfg, make_config (S := Kv) 3 false (-1) svc_names clock0 = (cfg, Ret tt) /\ svc_ok cfg /\ named_all cfg /\ sc_n cfg = 3%nat
    /\ (forall i, (i < 3)%nat -> sc_servers cfg !! i = Some (Some (kv_at i)))
    /\ forall i j e, ename cfg i j = Some e ->
         let '(ok, servername, server, _, _) := readEndnameInfo (inl e) (sc_net cfg) in
         ok = true /\ servername = Some (inr (Z.of_nat j)) /\ is_Some server.
Proof.
  apply (svc_make_config 3 false (-1) svc_names clock0 kv_at).
  - intros i Hi. destruct i as [|[|[|i]]]; [split; [reflexivity|by_decision]..|lia].
  - exact names_apart.
  - intros i Hi. destruct i as [|[|[|i]]]; [vm_compute; reflexivity..|lia].
Defined.

(** The servers are started one after the other. *)
Definition k1 : config Kv := fst (StartServer 0 (svc_names 0) 0 (blank_svc 3 (-1))).
Definition k2 : config Kv := fst (StartServer 1 (svc_names 1) 0 k1).
Definition k3 : config Kv := fst (StartServer 2 (svc_names 2) 0 k2).

Lemma start_ok (cfg : config Kv) (i : nat) :
  svc_ok cfg -> (i < sc_n cfg)%nat -> (sc_n cfg <= length (svc_names i))%nat -> NoDup (take (sc_n cfg) (svc_names i)) ->
  Forall (fun e => (inl e : Name) ∉ ends (sc_net cfg)) (take (sc_n cfg) (svc_names i)) ->
  snd (smr_start (S := Kv) (sc_n cfg) (Z.of_nat i) 0 (default MakePersister (svc_storage cfg i)) (sc_maxraftstate cfg)) = Ret tt ->
  svc_ok (fst (StartServer i (svc_names i) 0 cfg)).
Proof.
  intros Ho Hi Hlen Hnd Hf Hs. destruct (smr_start _ _ _ _ _) as [kv r] eqn:E. simpl in Hs. subst r.
  destruct (run_StartServer cfg i (svc_names i) 0 kv Ho Hi Hlen Hnd) as (cfg' & -> & Ho' & _); [by apply Forall_forall|done|done].
Qed.

Lemma k3_ok : svc_ok k3.
Proof.
  assert (O0 : svc_ok (blank_svc (S := Kv) 3 (-1))) by apply blank_svc_ok.
  assert (O1 : svc_ok k1) by (apply start_ok; [exact O0|by_decision..|vm_compute; reflexivity]).
  assert (O2 : svc_ok k2) by (apply start_ok; [exact O1|by_decision..|vm_compute; reflexivity]).
  apply start_ok; [exact O2|by_decision..|vm_compute; reflexivity].
Qed.

Lemma k3_named : named_all k3.
Proof.
  apply ok_named; [exact k3_ok|]. intros i Hi. change (i < 3)%nat in Hi. destruct i as [|[|[|i]]]; [vm_compute; by eexists..|lia].
Qed.

Lemma leader_isolated_witness :
  exists b l p1 p2 cfg', Leader k3 = (k3, Ret (b, l)) /\ make_partition k3 = (k3, Ret (p1, p2)) /\ partition p1 p2 k3 = (cfg', Ret tt)
    /\ (b = true <-> exists i kv, sc_servers k3 !! i = Some (Some kv) /\ leads kv)
    /\ Permutation (p1 ++ p2) (seq 0 (sc_n k3)) /\ l ∈ p2 /\ (2 * length p2 < sc_n k3)%nat
    /\ (forall j e, ename k3 l j = Some e \/ ename k3 j l = Some e -> is_enabled (inl e) (sc_net cfg') = bool_decide (j ∈ p2))
    /\ forall ck es e, sc_clerks k3 !! ck = Some es -> e ∈ es -> is_enabled (inl e) (sc_net cfg') = is_enabled (inl e) (sc_net k3).
Proof.
  apply (leader_isolated k3); [exact k3_ok|exact k3_named|vm_compute; reflexivity|by_decision|].
  intros i Hi. change (i < 3)%nat in Hi. destruct i as [|[|[|i]]]; [eexists; vm_compute; reflexivity..|lia].
Defined.

(** A clerk for servers 0 and 2. *)
Definition clerk_names0 : list string := ["x0"; "x1"; "x2"]%string.
Definition with_clerk : config Kv := fst (makeClient 0 clerk_names0 (fun _ => 0%nat) [0; 2]%nat k3).

Lemma make_client_handles_witness :
  snd (makeClient 0 clerk_names0 (fun _ => 0%nat) [0; 2]%nat k3) = Ret ["x2"; "x0"; "x1"]%string
  /\ exists cfg' handles, makeClient 0 clerk_names0 (fun _ => 0%nat) [0; 2]%nat k3 = (cfg', Ret handles) /\ svc_ok cfg'
    /\ Permutation handles (take (sc_n k3) clerk_names0) /\ sc_clerks cfg' = <[0%nat := take (sc_n k3) clerk_names0]> (sc_clerks k3)
    /\ (forall j e, take (sc_n k3) clerk_names0 !! j = Some e ->
         let '(ok, servername, server, _, _) := readEndnameInfo (inl e) (sc_net cfg') in
         ok = bool_decide (j ∈ [0; 2]%nat) /\ servername = Some (inr (Z.of_nat j)) /\ (is_Some server <-> is_running k3 j))
    /\ forall x, x ∈ ends (sc_net k3) -> enabled (sc_net cfg') !! x = enabled (sc_net k3) !! x.
Proof.
  split; [vm_compute; reflexivity|].
  apply (make_client_handles k3 0 clerk_names0 (fun _ => 0%nat) [0; 2]%nat); [exact k3_ok|vm_compute; reflexivity|by_decision..| |by_decision].
  apply Forall_forall. by_decision.
Defined.

Lemma svc_restart_witness :
  exists cfg', (ShutdownServer 1;; StartServer 1 (svc_names 3) 0) k3 = (cfg', Ret tt) /\ svc_ok cfg'
    /\ sc_servers cfg' = <[1%nat := Some (kv_at 1)]> (sc_servers k3)
    /\ (forall j, j <> 1%nat -> svc_storage cfg' j = svc_storage k3 j)
    /\ (forall p q e, ename cfg' p q = Some e ->
         is_enabled (inl e) (sc_net cfg') = if decide (p = 1%nat \/ q = 1%nat) then false else is_enabled (inl e) (sc_net k3))
    /\ forall ck l e, sc_clerks k3 !! ck = Some l -> l !! 1%nat = Some e ->
         let '(ok, servername, server, _, _) := readEndnameInfo (inl e) (sc_net cfg') in
         ok = is_enabled (inl e) (sc_net k3) /\ servername = Some (inr 1) /\ is_Some server.
Proof.
  apply (svc_restart k3 1 (svc_names 3) 0 (kv_at 1)); [exact k3_ok|exact k3_named|by_decision..| |vm_compute; reflexivity].
  apply Forall_forall. by_decision.
Defined.

(** The groups for four servers overlap, and there are none for one server. *)
Lemma make_partition_even : make_partition_of 4 1 = Ret ([0; 2; 3], [0; 1])%nat /\ make_partition_of 1 0 = Panic.
Proof. vm_compute. done. Qed.
