(* ===== verification/KvSrvConfig.v ===== *)
(** The test harness of the single key/value server (src/src/kvsrv/config.go): a network
    with one server, and clerks that come and go. *)
From Stdlib Require Import ZArith Lia.
From stdpp Require Import base list numbers strings gmap relations.
From S2P Require Import Prelude RaftTypes LabRpc NetOps KvSrv.

#[local] Open Scope Z_scope.
Import KvSrv.KvSrv.

Definition SERVERID : Z := 0.

(** A clerk is a pointer: a number. *)
Record config := mkSrvConfig
  { vc_net : Network Name;
    vc_kvserver : option KVServer;
    vc_clerks : gmap nat string;
    vc_nextClientId : Z;
    vc_rpcs0 : Z;
    vc_ops : Z;
    vc_objects : nat }. (* labrpc servers made so far *)

Abbreviation CM := (M config).

Definition set_vcnet (x : Network Name) (c : config) : config :=
  mkSrvConfig x (vc_kvserver c) (vc_clerks c) (vc_nextClientId c) (vc_rpcs0 c) (vc_ops c) (vc_objects c).
Definition set_vcclerks (x : gmap nat string) (next : Z) (c : config) : config :=
  mkSrvConfig (vc_net c) (vc_kvserver c) x next (vc_rpcs0 c) (vc_ops c) (vc_objects c).
Definition set_vcserver (x : KVServer) (k : nat) (c : config) : config :=
  mkSrvConfig (vc_net c) (Some x) (vc_clerks c) (vc_nextClientId c) (vc_rpcs0 c) (vc_ops c) k.
Definition set_vcstats (rpcs0 ops : Z) (c : config) : config :=
  mkSrvConfig (vc_net c) (vc_kvserver c) (vc_clerks c) (vc_nextClientId c) rpcs0 ops (vc_objects c).

Definition on_vcnet {A : Type} (m : M (Network Name) A) : CM A := fun c =>
  match m (vc_net c) with (rn', a) => (set_vcnet rn' c, a) end.

(** The empty string for a clerk that is not in the map. *)
Definition clerk_end (ck : nat) : CM string := gets (fun c => default ""%string (vc_clerks c !! ck)).

Definition ConnectClientUnlocked (ck : nat) : CM unit := endname ← clerk_end ck; on_vcnet (Enable (inl endname) true).

(** [ck] is the address of the new clerk, [endname] what randstring gave. *)
Definition makeClient (ck : nat) (endname : string) : CM unit :=
  on_vcnet (MakeEnd (inl endname));;
  on_vcnet (Connect (inl endname) (inr SERVERID));;
  modify (fun c => set_vcclerks (<[ck := endname]> (vc_clerks c)) (vc_nextClientId c + 1) c);;
  ConnectClientUnlocked ck.

(** [os.Remove] is on the file system. *)
Definition deleteClient (ck : nat) : CM unit :=
  v ← clerk_end ck;
  on_vcnet (DeleteEnd (inl v));;
  modify (fun c => set_vcclerks (delete ck (vc_clerks c)) (vc_nextClientId c) c).

Definition StartServer : CM unit :=
  k ← gets vc_objects;
  modify (set_vcserver StartKVServer (k + 1));;
  on_vcnet (AddServer (inr 0) k).

Definition make_config (unreliable : bool) : config * res unit :=
  (StartServer;; on_vcnet (Reliable (negb unreliable)))
    (mkSrvConfig MakeNetwork None ∅ (SERVERID + 1) 0 0 0).

Definition cleanup : CM unit := on_vcnet Cleanup.
Definition rpcTotal (c : config) : Z := GetTotalCount (vc_net c).
Definition begin : CM unit := modify (fun c => set_vcstats (rpcTotal c) 0 c).
Definition op : CM unit := modify (fun c => set_vcstats (vc_rpcs0 c) (wrap 32 (vc_ops c + 1)) c).
(** RPCs, operations *)
Definition end_stats (c : config) : Z * Z := (rpcTotal c - vc_rpcs0 c, vc_ops c).

(** ** Clerks stay connected *)

(** The clerks' end points are distinct, enabled, and lead to the server. *)
Record clerks_ok (c : config) : Prop :=
  { vo_server : is_Some (server_of (inr SERVERID) (vc_net c));
    vo_apart : forall ck ck' e, vc_clerks c !! ck = Some e -> vc_clerks c !! ck' = Some e -> ck = ck';
    vo_ends : forall ck e, vc_clerks c !! ck = Some e -> inl e ∈ ends (vc_net c);
    vo_enabled : forall ck e, vc_clerks c !! ck = Some e -> enabled (vc_net c) !! inl e = Some true;
    vo_leads : forall ck e, vc_clerks c !! ck = Some e -> connections (vc_net c) !! inl e = Some (Some (inr SERVERID)) }.

(** Clerks are made with fresh names and deleted once. *)
Inductive vstep (c : config) : config -> Prop :=
| v_make ck e c' : vc_clerks c !! ck = None -> inl e ∉ ends (vc_net c) -> makeClient ck e c = (c', Ret tt) -> vstep c c'
| v_delete ck e c' : vc_clerks c !! ck = Some e -> deleteClient ck c = (c', Ret tt) -> vstep c c'
| v_connect ck e c' : vc_clerks c !! ck = Some e -> ConnectClientUnlocked ck c = (c', Ret tt) -> vstep c c'.

Definition joined (ck : nat) (e : string) (c : config) : config :=
  set_vcclerks (<[ck := e]> (vc_clerks c)) (vc_nextClientId c + 1) (set_vcnet (enable_one (inl e) true (link_one e 0 (vc_net c))) c).

Lemma run_makeClient ck e c : inl e ∉ ends (vc_net c) -> makeClient ck e c = (joined ck e c, Ret tt).
Proof.
  intros He. unfold makeClient.
  rewrite (bind_run _ _ c (set_vcnet (fst (MakeEnd (inl e) (vc_net c))) c) tt) by (unfold on_vcnet; by rewrite run_MakeEnd).
  rewrite run_MakeEnd by done. cbn [fst].
  match goal with |- (_ ≫= _) ?x = _ => rewrite (bind_run _ _ x (set_vcnet (link_one e 0 (vc_net c)) c) tt) by done end.
  set (c1 := set_vcclerks (<[ck := e]> (vc_clerks c)) (vc_nextClientId c + 1) (set_vcnet (link_one e 0 (vc_net c)) c)).
  rewrite (bind_run _ _ _ c1 tt) by done. unfold ConnectClientUnlocked.
  rewrite (bind_run _ _ c1 c1 e); [done|]. unfold clerk_end, gets. cbn [c1 vc_clerks set_vcclerks]. by rewrite lookup_insert_eq.
Qed.

Definition parted (ck : nat) (e : string) (c : config) : config :=
  set_vcclerks (delete ck (vc_clerks c)) (vc_nextClientId c)
    (set_vcnet (set_ends (ends (vc_net c) ∖ {[inl e]}) (delete (inl e) (enabled (vc_net c))) (delete (inl e) (connections (vc_net c))) (vc_net c)) c).

Lemma run_deleteClient ck e c :
  vc_clerks c !! ck = Some e -> inl e ∈ ends (vc_net c) -> deleteClient ck c = (parted ck e c, Ret tt).
Proof.
  intros Hck He. unfold deleteClient, clerk_end. rewrite (bind_run _ _ c c e) by (unfold gets; by rewrite Hck).
  assert (Hd : DeleteEnd (inl e) (vc_net c) = (vc_net (parted ck e c), Ret tt)) by (unfold DeleteEnd; m_exec; unfold id; by rewrite decide_True).
  by rewrite (bind_run _ _ c (set_vcnet (vc_net (parted ck e c)) c) tt) by (unfold on_vcnet; by rewrite Hd).
Qed.

Lemma joined_ok ck e c : clerks_ok c -> vc_clerks c !! ck = None -> inl e ∉ ends (vc_net c) -> clerks_ok (joined ck e c).
Proof.
  intros [O1 O2 O3 O4 O5] Hck He. assert (Hne : forall k x, vc_clerks c !! k = Some x -> x <> e) by (intros k x Hk ->; by apply He, (O3 k)).
  split; simpl.
  - done.
  - intros k k' x. rewrite !lookup_insert_Some. intros [[<- <-]|[_ Hk]] [[<- Ex]|[_ Hk']]; try done.
    + exfalso. by apply (Hne _ _ Hk').
    + subst x. exfalso. by apply (Hne _ _ Hk).
    + by eapply O2.
  - intros k x. rewrite lookup_insert_Some, elem_of_union, elem_of_singleton. intros [[<- <-]|[_ Hk]]; [by left|right; by eapply O3].
  - intros k x. rewrite lookup_insert_Some. intros [[<- <-]|[_ Hk]]; [by rewrite lookup_insert_eq|].
    rewrite !lookup_insert_ne by (intros [= Ex]; by apply (Hne _ _ Hk)). by eapply O4.
  - intros k x. rewrite lookup_insert_Some. intros [[<- <-]|[_ Hk]]; [by rewrite lookup_insert_eq|].
    rewrite !lookup_insert_ne by (intros [= Ex]; by apply (Hne _ _ Hk)). by eapply O5.
Qed.

Lemma parted_ok ck e c : clerks_ok c -> vc_clerks c !! ck = Some e -> clerks_ok (parted ck e c).
Proof.
  intros [O1 O2 O3 O4 O5] Hck. assert (Hne : forall k x, ck <> k -> vc_clerks c !! k = Some x -> e <> x) by (intros k x Hk Hx ->; by apply Hk, (O2 _ _ x)).
  split; simpl.
  - done.
  - intros k k' x [_ Hk]%lookup_delete_Some [_ Hk']%lookup_delete_Some. by eapply O2.
  - intros k x [Hk Hx]%lookup_delete_Some. apply elem_of_difference. split; [by eapply O3|]. rewrite elem_of_singleton. intros [= Ex]. by apply (Hne k x).
  - intros k x [Hk Hx]%lookup_delete_Some. rewrite lookup_delete_ne by (intros [= Ex]; by apply (Hne k x)). by eapply O4.
  - intros k x [Hk Hx]%lookup_delete_Some. rewrite lookup_delete_ne by (intros [= Ex]; by apply (Hne k x)). by eapply O5.
Qed.

Lemma vstep_ok c c' : clerks_ok c -> vstep c c' -> clerks_ok c'.
Proof.
  intros Hc [ck e x Hck He Hr|ck e x Hck Hr|ck e x Hck Hr].
  - rewrite run_makeClient in Hr by done. injection Hr as <-. by apply joined_ok.
  - rewrite (run_deleteClient ck e) in Hr by (try done; by eapply (vo_ends _ Hc)). injection Hr as <-. by apply parted_ok.
  - unfold ConnectClientUnlocked in Hr. rewrite (bind_run _ _ c c e) in Hr by (unfold clerk_end, gets; by rewrite Hck).
    injection Hr as <-. destruct Hc as [O1 O2 O3 O4 O5]. split; simpl; try done. intros k y Hk.
    destruct (decide (y = e)) as [->|Hne]; [by rewrite lookup_insert_eq|]. rewrite lookup_insert_ne by congruence. by eapply O4.
Qed.

(** The clerks of the single server: while clerks are made with fresh names, connected and
    deleted, a call of any clerk that exists is passed to the server, and no two clerks
    share an end point.  The operations themselves always return. *)
Theorem kvsrv_clerks_connected unreliable c0 c :
  make_config unreliable = (c0, Ret tt) -> rtc vstep c0 c ->
  (forall ck e, vc_clerks c !! ck = Some e ->
     let '(ok, servername, server, _, _) := readEndnameInfo (inl e) (vc_net c) in
     ok = true /\ servername = Some (inr SERVERID) /\ is_Some server)
  /\ (forall ck ck' e, vc_clerks c !! ck = Some e -> vc_clerks c !! ck' = Some e -> ck = ck')
  /\ (forall ck e, inl e ∉ ends (vc_net c) -> returns (snd (makeClient ck e c)))
  /\ (forall ck, is_Some (vc_clerks c !! ck) -> returns (snd (deleteClient ck c))).
Proof.
  intros [= <-] Hr. assert (Hc : clerks_ok c).
  { revert Hr. apply rtc_preserves; [apply vstep_ok|]. split; simpl; try done. }
  split_and!.
  - intros ck e Hck. unfold readEndnameInfo, is_enabled. rewrite (vo_enabled _ Hc _ _ Hck), (vo_leads _ Hc _ _ Hck).
    split; [done|]. split; [done|]. apply (vo_server _ Hc).
  - apply (vo_apart _ Hc).
  - intros ck e He. rewrite run_makeClient by done. by exists tt.
  - intros ck [e Hck]. rewrite (run_deleteClient ck e) by (try done; by eapply (vo_ends _ Hc)). by exists tt.
Qed.

(** Two clerks are made and the first is deleted. *)
Definition two_clerks : config := fst ((makeClient 0 "x";; makeClient 1 "y";; deleteClient 0) (fst (make_config false))).

Lemma kvsrv_clerks_connected_witness :
  vc_clerks two_clerks = {[1%nat := "y"%string]}
  /\ (forall ck e, vc_clerks two_clerks !! ck = Some e ->
     let '(ok, servername, server, _, _) := readEndnameInfo (inl e) (vc_net two_clerks) in
     ok = true /\ servername = Some (inr SERVERID) /\ is_Some server)
  /\ (forall ck ck' e, vc_clerks two_clerks !! ck = Some e -> vc_clerks two_clerks !! ck' = Some e -> ck = ck')
  /\ (forall ck e, inl e ∉ ends (vc_net two_clerks) -> returns (snd (makeClient ck e two_clerks)))
  /\ (forall ck, is_Some (vc_clerks two_clerks !! ck) -> returns (snd (deleteClient ck two_clerks))).
Proof.
  split; [vm_compute; reflexivity|].
  apply (kvsrv_clerks_connected false (fst (make_config false))); [reflexivity|].
  eapply rtc_l; [|eapply rtc_l; [|eapply rtc_l; [|apply rtc_refl]]].
  - apply (v_make (fst (make_config false)) 0 "x"); [reflexivity|refine (bool_decide_unpack _ _); vm_compute; exact I|vm_compute; reflexivity].
  - eapply (v_make _ 1 "y"); [reflexivity|refine (bool_decide_unpack _ _); vm_compute; exact I|vm_compute; reflexivity].
  - apply (v_delete _ 0 "x"); vm_compute; reflexivity.
Defined.
