(* ===== verification/MrCoordinator.v ===== *)
(** The MapReduce coordinator of package mr (src/src/mr/coordinator.go, with the
    types of rpc.go).

    Every handler and every timer runs under [c.lock], so each is one step.  The
    slices in [c.allJob] share their arrays with [c.mapJob] and [c.reduceJob]
    (MakeCoordinator assigns them and nothing appends later), so there is one
    copy of each array and [allJob] is a view of it.  The timers that GetJob
    starts are the list [timers] of the system state, and the replies that workers hold
    are the list [held]: a job is reported only by a worker it was given to. *)
From Stdlib Require Import ZArith Lia.
From stdpp Require Import base list numbers strings relations.
From S2P Require Import Prelude.

#[local] Open Scope string_scope.
#[local] Open Scope Z_scope.

Module Mr.

(** ** rpc.go *)

Inductive MRJobType := UnknownJob | MapJob | ReduceJob | TerminalJob | WaitJob.
Inductive MRJobState := UnknownState | UnFinish | Doing | Finished.

#[export] Instance MRJobType_eq_dec : EqDecision MRJobType.
Proof. solve_decision. Defined.
#[export] Instance MRJobState_eq_dec : EqDecision MRJobState.
Proof. solve_decision. Defined.

Record Job := mkJob
  { JobType : MRJobType; JobState : MRJobState; JobId : Z; OperateFileName : string }.

Record ExampleReply := mkExampleReply
  { er_JobType : MRJobType;
    er_JobId : Z;
    er_MapJobFileName : string;
    er_MapJobId : Z;
    er_NReduce : Z;
    er_ReduceJobId : Z }.

Definition zeroReply : ExampleReply := mkExampleReply UnknownJob 0 "" 0 0 0.

Record JobFinishArgs := mkJobFinishArgs
  { jf_JobType : MRJobType; jf_Success : bool; jf_JobId : Z }.

(** ** coordinator.go *)

Record Coordinator := mkCoordinator
  { files : list string;
    nReduce : Z;
    mapJobFinish : bool;
    mapJob : list Job;
    reduceJobFinish : bool;
    reduceJob : list Job }.

Definition set_mapJobFinish (x : bool) (c : Coordinator) : Coordinator :=
  mkCoordinator (files c) (nReduce c) x (mapJob c) (reduceJobFinish c) (reduceJob c).
Definition set_mapJob (x : list Job) (c : Coordinator) : Coordinator :=
  mkCoordinator (files c) (nReduce c) (mapJobFinish c) x (reduceJobFinish c) (reduceJob c).
Definition set_reduceJobFinish (x : bool) (c : Coordinator) : Coordinator :=
  mkCoordinator (files c) (nReduce c) (mapJobFinish c) (mapJob c) x (reduceJob c).
Definition set_reduceJob (x : list Job) (c : Coordinator) : Coordinator :=
  mkCoordinator (files c) (nReduce c) (mapJobFinish c) (mapJob c) (reduceJobFinish c) x.

Abbreviation CM := (M Coordinator).

(** [c.allJob[t]]: nil for a type that is not a key. *)
Definition allJob (t : MRJobType) (c : Coordinator) : list Job :=
  match t with MapJob => mapJob c | ReduceJob => reduceJob c | _ => [] end.

Definition set_allJob (t : MRJobType) (l : list Job) (c : Coordinator) : Coordinator :=
  match t with MapJob => set_mapJob l c | ReduceJob => set_reduceJob l c | _ => c end.

Definition set_JobState (x : MRJobState) (j : Job) : Job :=
  mkJob (JobType j) x (JobId j) (OperateFileName j).

(** [c.allJob[t][id].JobState = x] *)
Definition assign (t : MRJobType) (id : Z) (x : MRJobState) : CM unit :=
  l ← gets (allJob t);
  j ← lift (go_idx l id);
  l' ← lift (go_set l id (set_JobState x j));
  modify (set_allJob t l').

(** The first element with state UnFinish, and its index. *)
Fixpoint first_unfinish (l : list Job) : option (nat * Job) :=
  match l with
  | [] => None
  | j :: l' => if decide (JobState j = UnFinish) then Some (0%nat, j)
               else '(i, x) ← first_unfinish l'; Some (S i, x)
  end.

(** GetJob; the second result is the timer it starts. *)
Definition GetJob (reply : ExampleReply) : CM (ExampleReply * option (MRJobType * Z)) :=
  mapDone ← gets mapJobFinish;
  maps ← gets mapJob;
  match (if negb mapDone then first_unfinish maps else None) with
  | Some (i, job) =>
      n ← gets nReduce;
      assign MapJob (Z.of_nat i) Doing;;
      mret (mkExampleReply (JobType job) (Z.of_nat i) (OperateFileName job) (er_MapJobId reply) n
              (er_ReduceJobId reply),
            Some (JobType job, Z.of_nat i))
  | None =>
      reduces ← gets reduceJob;
      match (if mapDone : bool then first_unfinish reduces else None) with
      | Some (i, job) =>
          assign ReduceJob (Z.of_nat i) Doing;;
          mret (mkExampleReply (JobType job) (Z.of_nat i) (er_MapJobFileName reply)
                  (er_MapJobId reply) (er_NReduce reply) (er_ReduceJobId reply),
                Some (JobType job, Z.of_nat i))
      | None =>
          reduceDone ← gets reduceJobFinish;
          let t := if reduceDone : bool then TerminalJob else WaitJob in
          mret (mkExampleReply t (er_JobId reply) (er_MapJobFileName reply) (er_MapJobId reply)
                  (er_NReduce reply) (er_ReduceJobId reply), None)
      end
  end.

(** What a timer does when it fires. *)
Definition timerFired (t : MRJobType) (id : Z) : CM unit :=
  l ← gets (allJob t);
  j ← lift (go_idx l id);
  when (bool_decide (JobState j = Doing)) (assign t id UnFinish).

Definition all_finished (l : list Job) : bool := forallb (fun j => bool_decide (JobState j = Finished)) l.

Definition CheckAllState (t : MRJobType) : CM unit :=
  c ← gets id;
  let mapJobAllFinish := if decide (t = MapJob) then all_finished (allJob MapJob c) else true in
  let reduceJobAllFinish := if decide (t = ReduceJob) then all_finished (allJob ReduceJob c) else true in
  when (bool_decide (t = MapJob) && mapJobAllFinish) (modify (set_mapJobFinish true));;
  when (bool_decide (t = ReduceJob) && reduceJobAllFinish) (modify (set_reduceJobFinish true)).

Definition ReportJobResult (args : JobFinishArgs) : CM unit :=
  if bool_decide (jf_JobType args = TerminalJob) || bool_decide (jf_JobType args = WaitJob)
  then mret tt
  else
    l ← gets (allJob (jf_JobType args));
    j ← lift (go_idx l (jf_JobId args));
    if negb (jf_Success args) then
      when (bool_decide (JobState j = Doing)) (assign (jf_JobType args) (jf_JobId args) UnFinish)
    else
      when (bool_decide (JobState j = Doing))
        (assign (jf_JobType args) (jf_JobId args) Finished;; CheckAllState (jf_JobType args)).

Definition Done : CM bool := gets reduceJobFinish.

Definition MakeCoordinator (fs : list string) (n : Z) : Coordinator :=
  mkCoordinator fs n false
    (imap (fun i f => mkJob MapJob UnFinish (Z.of_nat i) f) fs) false
    ((fun i => mkJob ReduceJob UnFinish i "") <$> range (Z.to_nat n)).

(** ** The system: the coordinator, its timers and its workers *)

(** What a worker reports after processing [reply]. *)
Definition report_of (reply : ExampleReply) (success : bool) : JobFinishArgs :=
  mkJobFinishArgs (er_JobType reply) success (er_JobId reply).

(** [held]: the replies that workers were given and have not reported on.  A worker reports
    each reply once, also when its timer has fired in the meantime, or dies with it. *)
Record Sys := mkSys { co : Coordinator; timers : list (MRJobType * Z); held : list ExampleReply }.

Inductive cstep (s : Sys) : Sys -> Prop :=
| cs_get reply' timer c' :
    GetJob zeroReply (co s) = (c', Ret (reply', timer)) ->
    cstep s (mkSys c' (option_list timer ++ timers s)%list (reply' :: held s))
| cs_report h1 reply h2 success c' :
    held s = (h1 ++ reply :: h2)%list -> ReportJobResult (report_of reply success) (co s) = (c', Ret tt) ->
    cstep s (mkSys c' (timers s) (h1 ++ h2)%list)
| cs_die h1 reply h2 :
    held s = (h1 ++ reply :: h2)%list -> cstep s (mkSys (co s) (timers s) (h1 ++ h2)%list)
| cs_fire l1 t i l2 c' :
    timers s = (l1 ++ (t, i) :: l2)%list -> timerFired t i (co s) = (c', Ret tt) ->
    cstep s (mkSys c' (l1 ++ l2)%list (held s)).

Definition boot (fs : list string) (n : Z) : Sys := mkSys (MakeCoordinator fs n) [] [].

End Mr.
