(* ===== verification/MrProps.v ===== *)
(** Correctness of the MapReduce coordinator: job states, phases, timers, and
    that a run can always be completed. *)
From Stdlib Require Import ZArith Lia.
From stdpp Require Import base list numbers strings relations.
From S2P Require Import Prelude MrCoordinator.

#[local] Open Scope string_scope.
#[local] Open Scope Z_scope.

Module MrProps.
Import Mr.

(** ** Updating one job *)

Definition upd (t : MRJobType) (i : nat) (x : MRJobState) (c : Coordinator) : Coordinator :=
  set_allJob t (alter (set_JobState x) i (allJob t c)) c.

Definition is_phase (t : MRJobType) : Prop := t = MapJob \/ t = ReduceJob.

Lemma allJob_phase t i c j : allJob t c !! i = Some j -> is_phase t.
Proof. destruct t; try done; unfold is_phase; auto. Qed.

Lemma allJob_upd t c i x : is_phase t -> allJob t (upd t i x c) = alter (set_JobState x) i (allJob t c).
Proof. by intros [->| ->]. Qed.

Lemma allJob_upd_other t u c i x : t <> u -> allJob u (upd t i x c) = allJob u c.
Proof. by destruct t, u. Qed.

Lemma insert_is_alter {A} (f : A -> A) (l : list A) (i : nat) x : l !! i = Some x -> <[i := f x]> l = alter f i l.
Proof.
  revert i. induction l as [|y l IH]; intros [|i] Hx; simplify_eq/=; [done|]. f_equal. by apply IH.
Qed.

Lemma run_assign t i x c j :
  allJob t c !! i = Some j -> assign t (Z.of_nat i) x c = (upd t i x c, Ret tt).
Proof.
  intros Hj. unfold assign. pose proof (lookup_lt_Some _ _ _ Hj).
  assert (Hidx : go_idx (allJob t c) (Z.of_nat i) = Ret j)
    by (apply go_idx_lookup; split; [lia|by rewrite Nat2Z.id]).
  m_exec. rewrite Hidx. rewrite go_set_ok by lia. unfold upd. rewrite Nat2Z.id.
  by rewrite (insert_is_alter _ _ _ _ Hj).
Qed.

Lemma go_idx_inv {A} (l : list A) z x : go_idx l z = Ret x -> exists i, z = Z.of_nat i /\ l !! i = Some x.
Proof. intros [? ?]%go_idx_lookup. exists (Z.to_nat z). split; [lia|done]. Qed.

Lemma first_unfinish_some l i j :
  first_unfinish l = Some (i, j) -> l !! i = Some j /\ JobState j = UnFinish.
Proof.
  revert i. induction l as [|y l IH]; intros i; simpl; [done|]. case_decide; [by intros [= <- <-]|].
  destruct (first_unfinish l) as [[k z]|]; [|done]. intros [= <- <-]. by apply IH.
Qed.

Lemma first_unfinish_none l : first_unfinish l = None -> Forall (fun j => JobState j <> UnFinish) l.
Proof.
  induction l as [|y l IH]; simpl; [constructor|]. case_decide; [done|].
  destruct (first_unfinish l) as [[k z]|]; [done|]. intros _. constructor; auto.
Qed.

(** ** What the handlers do *)

Inductive get_outcome (c : Coordinator) (r r' : ExampleReply) : Coordinator -> option (MRJobType * Z) -> Prop :=
| GO_map i j :
    mapJobFinish c = false -> mapJob c !! i = Some j -> JobState j = UnFinish ->
    er_JobType r' = JobType j -> er_JobId r' = Z.of_nat i ->
    er_MapJobFileName r' = OperateFileName j -> er_NReduce r' = nReduce c ->
    get_outcome c r r' (upd MapJob i Doing c) (Some (JobType j, Z.of_nat i))
| GO_reduce i j :
    mapJobFinish c = true -> reduceJob c !! i = Some j -> JobState j = UnFinish ->
    er_JobType r' = JobType j -> er_JobId r' = Z.of_nat i ->
    get_outcome c r r' (upd ReduceJob i Doing c) (Some (JobType j, Z.of_nat i))
| GO_none :
    (if mapJobFinish c then Forall (fun j => JobState j <> UnFinish) (reduceJob c)
     else Forall (fun j => JobState j <> UnFinish) (mapJob c)) ->
    er_JobType r' = (if reduceJobFinish c then TerminalJob else WaitJob) ->
    get_outcome c r r' c None.

Lemma run_GetJob r c :
  exists c' r' tm, GetJob r c = (c', Ret (r', tm)) /\ get_outcome c r r' c' tm.
Proof.
  unfold GetJob. m_exec. destruct (mapJobFinish c) eqn:Hm; simpl.
  - destruct (first_unfinish (reduceJob c)) as [[i j]|] eqn:Hf.
    + apply first_unfinish_some in Hf as [Hi Hj]. m_exec.
      rewrite (run_assign ReduceJob i Doing c j Hi). do 3 eexists. split; [done|]. by eapply GO_reduce.
    + m_exec. do 3 eexists. split; [done|]. eapply GO_none; [|done]. rewrite Hm.
      by apply first_unfinish_none.
  - destruct (first_unfinish (mapJob c)) as [[i j]|] eqn:Hf.
    + apply first_unfinish_some in Hf as [Hi Hj]. m_exec.
      rewrite (run_assign MapJob i Doing c j Hi). do 3 eexists. split; [done|]. by eapply GO_map.
    + m_exec. do 3 eexists. split; [done|]. eapply GO_none; [|done]. rewrite Hm.
      by apply first_unfinish_none.
Qed.

(** CheckAllState as a function. *)
Definition check (t : MRJobType) (c : Coordinator) : Coordinator :=
  if decide (t = MapJob) then if all_finished (mapJob c) then set_mapJobFinish true c else c
  else if decide (t = ReduceJob) then if all_finished (reduceJob c) then set_reduceJobFinish true c else c
  else c.

Lemma run_CheckAllState t c : CheckAllState t c = (check t c, Ret tt).
Proof.
  unfold CheckAllState, check. m_exec. destruct t; simpl; try done.
  - by destruct (all_finished (mapJob c)).
  - by destruct (all_finished (reduceJob c)).
Qed.

Inductive report_outcome (c : Coordinator) : Coordinator -> Prop :=
| RO_ignored : report_outcome c c
| RO_failed t i j :
    allJob t c !! i = Some j -> JobState j = Doing -> report_outcome c (upd t i UnFinish c)
| RO_done t i j :
    allJob t c !! i = Some j -> JobState j = Doing ->
    report_outcome c (check t (upd t i Finished c)).

Lemma report_inv args c c' : ReportJobResult args c = (c', Ret tt) -> report_outcome c c'.
Proof.
  unfold ReportJobResult. destruct (_ || _); [intros [= <-]; constructor|]. m_exec.
  destruct (go_idx _ _) as [j|] eqn:Hj; [|done]. apply go_idx_inv in Hj as (i & -> & Hj).
  destruct (jf_Success args); simpl; case_bool_decide as Hd; m_exec; try (intros [= <-]; constructor).
  - rewrite (run_assign _ i Finished c j Hj). rewrite run_CheckAllState. intros [= <-]. by eapply RO_done.
  - rewrite (run_assign _ i UnFinish c j Hj). intros [= <-]. by eapply RO_failed.
Qed.

Lemma fire_inv t z c c' :
  timerFired t z c = (c', Ret tt) ->
  exists i j, z = Z.of_nat i /\ allJob t c !! i = Some j
    /\ ((JobState j <> Doing /\ c' = c) \/ (JobState j = Doing /\ c' = upd t i UnFinish c)).
Proof.
  unfold timerFired. m_exec. destruct (go_idx _ _) as [j|] eqn:Hj; [|done].
  apply go_idx_inv in Hj as (i & -> & Hj). case_bool_decide; m_exec.
  - rewrite (run_assign _ i UnFinish c j Hj). intros [= <-]. eauto 10.
  - intros [= <-]. eauto 10.
Qed.

(** ** The invariant *)

Definition fin (l : list Job) : Prop := Forall (fun j => JobState j = Finished) l.

Lemma all_finished_spec l : all_finished l = true <-> fin l.
Proof.
  unfold all_finished, fin. rewrite forallb_forall, Forall_forall. split; intros Hl j Hj.
  - specialize (Hl j). rewrite bool_decide_eq_true in Hl. apply Hl. by apply list_elem_of_In.
  - apply bool_decide_eq_true, Hl. by apply list_elem_of_In.
Qed.

Lemma not_fin l i j : l !! i = Some j -> JobState j <> Finished -> ~ fin l.
Proof. intros Hi Hj Hf. unfold fin in Hf. rewrite Forall_lookup in Hf. by apply Hj, (Hf i). Qed.

Record Inv (fs : list string) (n : Z) (s : Sys) : Prop :=
  { i_nred : nReduce (co s) = n;
    i_lenm : length (mapJob (co s)) = length fs;
    i_lenr : length (reduceJob (co s)) = Z.to_nat n;
    i_type : forall t i j, allJob t (co s) !! i = Some j -> JobType j = t /\ JobState j <> UnknownState;
    i_names : forall i j, mapJob (co s) !! i = Some j -> fs !! i = Some (OperateFileName j);
    i_map : mapJobFinish (co s) = true -> fin (mapJob (co s));
    i_pend : mapJobFinish (co s) = false -> Forall (fun j => JobState j = UnFinish) (reduceJob (co s));
    i_red : reduceJobFinish (co s) = true -> mapJobFinish (co s) = true /\ fin (reduceJob (co s));
    i_mapc : mapJob (co s) <> [] -> fin (mapJob (co s)) -> mapJobFinish (co s) = true;
    i_redc : reduceJob (co s) <> [] -> fin (reduceJob (co s)) -> reduceJobFinish (co s) = true;
    i_timer : forall t i j, allJob t (co s) !! i = Some j -> JobState j = Doing ->
                (t, Z.of_nat i) ∈ timers s }.

Lemma boot_inv fs n : 0 <= n -> Inv fs n (boot fs n).
Proof.
  intros Hn. assert (Hty : forall t i j, allJob t (co (boot fs n)) !! i = Some j ->
    JobType j = t /\ JobState j = UnFinish).
  { intros t i j. destruct t; simpl; try done.
    - rewrite list_lookup_imap. destruct (fs !! i); [|done]. by intros [= <-].
    - rewrite list_lookup_fmap. destruct (range _ !! i); [|done]. by intros [= <-]. }
  assert (Hne : forall l, (forall i j, l !! i = Some j -> JobState j = UnFinish) -> l <> [] -> ~ fin l).
  { intros l Hl Hnn Hf. destruct l as [|j l]; [done|].
    apply Forall_cons in Hf as [Hf _]. specialize (Hl 0%nat j eq_refl). congruence. }
  split; try done.
  - simpl. by rewrite length_imap.
  - simpl. unfold range. by rewrite !length_fmap, length_seq.
  - intros t i j Hj. destruct (Hty t i j Hj) as [? Hs]. by rewrite Hs.
  - intros i j. simpl. rewrite list_lookup_imap. destruct (fs !! i); [|done]. by intros [= <-].
  - intros _. apply Forall_lookup. intros i j Hj. by apply (Hty ReduceJob i j).
  - intros Hnn Hf. exfalso. apply (Hne _ (fun i j Hj => proj2 (Hty MapJob i j Hj)) Hnn Hf).
  - intros Hnn Hf. exfalso. apply (Hne _ (fun i j Hj => proj2 (Hty ReduceJob i j Hj)) Hnn Hf).
  - intros t i j Hj Hd. destruct (Hty t i j Hj). congruence.
Qed.

(** Looking up a job after one of them changed its state. *)
Lemma upd_lookup t i x c u k j' :
  is_phase t -> allJob u (upd t i x c) !! k = Some j' ->
  exists j, allJob u c !! k = Some j
    /\ ((t = u /\ i = k /\ j' = set_JobState x j) \/ ((t <> u \/ i <> k) /\ j' = j)).
Proof.
  intros Hp. destruct (decide (t = u)) as [<-|Hne].
  - rewrite allJob_upd by done. destruct (decide (i = k)) as [<-|Hk].
    + rewrite list_lookup_alter_eq. destruct (allJob t c !! i) as [j|]; [|done]. intros [= <-]. eauto 10.
    + rewrite list_lookup_alter_ne by done. eauto 10.
  - rewrite allJob_upd_other by done. eauto 10.
Qed.

Lemma upd_present t i x c j :
  allJob t c !! i = Some j -> allJob t (upd t i x c) !! i = Some (set_JobState x j).
Proof.
  intros Hj. rewrite allJob_upd by (by eapply allJob_phase). by rewrite list_lookup_alter_eq, Hj.
Qed.

Lemma upd_length t i x c u : length (allJob u (upd t i x c)) = length (allJob u c).
Proof. destruct t, u; simpl; try done; by rewrite length_alter. Qed.

Lemma reduce_started fs n s i j :
  Inv fs n s -> reduceJob (co s) !! i = Some j -> JobState j <> UnFinish -> mapJobFinish (co s) = true.
Proof.
  intros HI Hj Hd. destruct (mapJobFinish (co s)) eqn:E; [done|].
  pose proof (i_pend _ _ _ HI E) as Hf. rewrite Forall_lookup in Hf. by apply Hf in Hj.
Qed.

Lemma upd_flags t i x c :
  mapJobFinish (upd t i x c) = mapJobFinish c /\ reduceJobFinish (upd t i x c) = reduceJobFinish c
  /\ nReduce (upd t i x c) = nReduce c.
Proof. by destruct t. Qed.

(** The part of the invariant that does not concern completion. *)
Lemma upd_shape fs n s t i x j (tms : list (MRJobType * Z)) :
  Inv fs n s -> allJob t (co s) !! i = Some j -> x <> UnknownState ->
  (x = Doing -> (t, Z.of_nat i) ∈ tms) ->
  (forall p, p ∈ timers s -> p <> (t, Z.of_nat i) -> p ∈ tms) ->
  let c' := upd t i x (co s) in
  nReduce c' = n /\ length (mapJob c') = length fs /\ length (reduceJob c') = Z.to_nat n
  /\ (forall u k j', allJob u c' !! k = Some j' -> JobType j' = u /\ JobState j' <> UnknownState)
  /\ (forall k j', mapJob c' !! k = Some j' -> fs !! k = Some (OperateFileName j'))
  /\ (forall u k j', allJob u c' !! k = Some j' -> JobState j' = Doing -> (u, Z.of_nat k) ∈ tms).
Proof.
  intros HI Hj Hx Hnew Hkeep c'. pose proof (allJob_phase _ _ _ _ Hj) as Hp.
  pose proof (upd_length t i x (co s) MapJob) as Hlm. pose proof (upd_length t i x (co s) ReduceJob) as Hlr.
  simpl in Hlm, Hlr. split_and!.
  - unfold c'. destruct (upd_flags t i x (co s)) as (_ & _ & ->). apply HI.
  - unfold c'. rewrite Hlm. apply HI.
  - unfold c'. rewrite Hlr. apply HI.
  - intros u k j' Hl. apply upd_lookup in Hl as (j0 & H0 & Hcase); [|done].
    destruct (i_type _ _ _ HI _ _ _ H0). destruct Hcase as [(_ & _ & ->)|[_ ->]]; done.
  - intros k j' Hl. apply (upd_lookup t i x (co s) MapJob) in Hl as (j0 & H0 & Hcase); [|done].
    rewrite (i_names _ _ _ HI _ _ H0). destruct Hcase as [(_ & _ & ->)|[_ ->]]; done.
  - intros u k j' Hl Hd. apply upd_lookup in Hl as (j0 & H0 & Hcase); [|done].
    destruct Hcase as [(<- & <- & ->)|[Hne ->]]; [by apply Hnew|].
    apply Hkeep; [by eapply (i_timer _ _ _ HI)|]. intros [= -> ?]. destruct Hne; [done|lia].
Qed.

(** A job is handed out, given up, or its timer fires. *)
Lemma upd_inv fs n s t i x j (tms : list (MRJobType * Z)) (hs : list ExampleReply) :
  Inv fs n s -> allJob t (co s) !! i = Some j -> JobState j <> Finished ->
  (x = Doing \/ x = UnFinish) -> (t = ReduceJob -> mapJobFinish (co s) = true) ->
  (x = Doing -> (t, Z.of_nat i) ∈ tms) ->
  (forall p, p ∈ timers s -> p <> (t, Z.of_nat i) -> p ∈ tms) ->
  Inv fs n (mkSys (upd t i x (co s)) tms hs).
Proof.
  intros HI Hj Hnf Hx Hred Hnew Hkeep.
  destruct (upd_shape fs n s t i x j tms) as (? & ? & ? & ? & ? & ?); try done; [by destruct Hx; subst|].
  destruct (upd_flags t i x (co s)) as (Hmf & Hrf & _).
  assert (Hnot : ~ fin (allJob t (co s))) by (by eapply not_fin).
  assert (Hnot' : ~ fin (allJob t (upd t i x (co s)))).
  { eapply not_fin; [by eapply upd_present|]. simpl. by destruct Hx; subst. }
  pose proof (allJob_upd_other t MapJob (co s) i x) as Hom.
  pose proof (allJob_upd_other t ReduceJob (co s) i x) as Hor. simpl in Hom, Hor.
  split; simpl; rewrite ?Hmf, ?Hrf; try done.
  - intros Hm. pose proof (i_map _ _ _ HI Hm). destruct (allJob_phase _ _ _ _ Hj) as [->| ->]; [done|].
    by rewrite Hom.
  - intros Hm. destruct (allJob_phase _ _ _ _ Hj) as [->| ->]; [|rewrite Hred in Hm; done].
    rewrite Hor by done. by apply HI.
  - intros Hr. destruct (i_red _ _ _ HI Hr) as [Hm Hf]. pose proof (i_map _ _ _ HI Hm).
    destruct (allJob_phase _ _ _ _ Hj) as [->| ->]; done.
  - intros Hne Hf. destruct (allJob_phase _ _ _ _ Hj) as [->| ->]; [done|].
    rewrite Hom in * by done. by apply (i_mapc _ _ _ HI).
  - intros Hne Hf. destruct (allJob_phase _ _ _ _ Hj) as [->| ->]; [|done].
    rewrite Hor in * by done. by apply (i_redc _ _ _ HI).
Qed.

Lemma check_arrays t c :
  mapJob (check t c) = mapJob c /\ reduceJob (check t c) = reduceJob c /\ nReduce (check t c) = nReduce c.
Proof. unfold check. by repeat case_decide; [destruct (all_finished _)|destruct (all_finished _)|]. Qed.

Lemma check_allJob t c u : allJob u (check t c) = allJob u c.
Proof. destruct (check_arrays t c) as (H1 & H2 & _). by destruct u. Qed.

(** A job is reported done. *)
Lemma done_inv fs n s t i j (hs : list ExampleReply) :
  Inv fs n s -> allJob t (co s) !! i = Some j -> JobState j = Doing ->
  Inv fs n (mkSys (check t (upd t i Finished (co s))) (timers s) hs).
Proof.
  intros HI Hj Hd. assert (Hnf : ~ fin (allJob t (co s))) by (eapply not_fin; [done|by rewrite Hd]).
  assert (Hred : t = ReduceJob -> mapJobFinish (co s) = true).
  { intros ->. eapply reduce_started; [done|exact Hj|by rewrite Hd]. }
  destruct (upd_shape fs n s t i Finished j (timers s)) as (Hn & Hlm & Hlr & Hty & Hnm & Htm); try done.
  destruct (check_arrays t (upd t i Finished (co s))) as (Em & Er & En).
  destruct (upd_flags t i Finished (co s)) as (Hmf & Hrf & _).
  pose proof (allJob_upd_other t MapJob (co s) i Finished) as Hom.
  pose proof (allJob_upd_other t ReduceJob (co s) i Finished) as Hor. simpl in Hom, Hor.
  set (c1 := upd t i Finished (co s)) in *. clearbody c1.
  assert (Hstate : mapJobFinish (check t c1) = (if decide (t = MapJob) then all_finished (mapJob c1) || mapJobFinish c1 else mapJobFinish c1)
    /\ reduceJobFinish (check t c1) = (if decide (t = ReduceJob) then all_finished (reduceJob c1) || reduceJobFinish c1 else reduceJobFinish c1)).
  { unfold check. destruct t; simpl; split; try done; by destruct (all_finished _). }
  destruct Hstate as [Sm Sr].
  destruct (allJob_phase _ _ _ _ Hj) as [->| ->]; simpl in Sm, Sr.
  - assert (Hm0 : mapJobFinish (co s) = false).
    { destruct (mapJobFinish (co s)) eqn:E; [|done]. by apply (i_map _ _ _ HI) in E. }
    assert (Hr0 : reduceJobFinish (co s) = false).
    { destruct (reduceJobFinish (co s)) eqn:E; [|done]. apply (i_red _ _ _ HI) in E as [? _]. congruence. }
    rewrite Hmf, Hm0, orb_false_r in Sm. rewrite Hrf, Hr0 in Sr.
    split; cbn [co timers]; rewrite ?En, ?Em, ?Er, ?Sm, ?Sr; try done.
    + intros u k j'. rewrite check_allJob. apply Hty.
    + apply all_finished_spec.
    + intros _. rewrite Hor by done. by apply (i_pend _ _ _ HI).
    + intros _. apply all_finished_spec.
    + rewrite Hor by done. intros Hne Hf. pose proof (i_redc _ _ _ HI Hne Hf). congruence.
    + intros u k j'. rewrite check_allJob. apply Htm.
  - specialize (Hred eq_refl). rewrite Hmf, Hred in Sm.
    assert (Hr0 : reduceJobFinish (co s) = false).
    { destruct (reduceJobFinish (co s)) eqn:E; [|done]. by apply (i_red _ _ _ HI) in E as [_ ?]. }
    rewrite Hrf, Hr0, orb_false_r in Sr.
    split; cbn [co timers]; rewrite ?En, ?Em, ?Er, ?Sm, ?Sr; try done.
    + intros u k j'. rewrite check_allJob. apply Hty.
    + intros _. rewrite Hom by done. by apply (i_map _ _ _ HI).
    + intros Hx. split; [done|]. by apply all_finished_spec.
    + intros _. apply all_finished_spec.
    + intros u k j'. rewrite check_allJob. apply Htm.
Qed.

(** The replies in the hands of workers play no part in it. *)
Lemma inv_held fs n s hs : Inv fs n s -> Inv fs n (mkSys (co s) (timers s) hs).
Proof. intros []. by split. Qed.

Lemma cstep_inv fs n s s' : Inv fs n s -> cstep s s' -> Inv fs n s'.
Proof.
  intros HI Hst. destruct Hst as [r' tm c' Hg|h1 r h2 b c' _ Hr|h1 r h2 _|l1 t z l2 c' Htm Hf].
  - destruct (run_GetJob zeroReply (co s)) as (c1 & r1 & tm1 & Hrun & Hout). rewrite Hg in Hrun.
    injection Hrun as <- <- <-. destruct Hout as [i j Hm Hj Hu _ _ _ _|i j Hm Hj Hu _ _|_ _].
    + destruct (i_type _ _ _ HI MapJob i j Hj) as [-> _].
      eapply (upd_inv fs n s MapJob i Doing j); try done; [by rewrite Hu|by left|simpl; set_solver|simpl; set_solver].
    + destruct (i_type _ _ _ HI ReduceJob i j Hj) as [-> _].
      eapply (upd_inv fs n s ReduceJob i Doing j); try done; [by rewrite Hu|by left|simpl; set_solver|simpl; set_solver].
    + by apply (inv_held _ _ _ _ HI).
  - apply report_inv in Hr as [|t i j Hj Hd|t i j Hj Hd].
    + by apply (inv_held _ _ _ _ HI).
    + eapply (upd_inv fs n s t i UnFinish j); try done; [by rewrite Hd|by right|].
      intros ->. eapply reduce_started; [done|exact Hj|by rewrite Hd].
    + by eapply done_inv.
  - by apply (inv_held _ _ _ _ HI).
  - apply fire_inv in Hf as (i & j & -> & Hj & [[Hnd ->]|[Hd ->]]).
    + destruct HI as [Hnr Hlm Hlr Hty Hnm Hm Hp Hr Hmc Hrc Ht]. split; try done.
      intros u k j' Hk Hdk. specialize (Ht u k j' Hk Hdk). simpl. rewrite Htm in Ht.
      apply elem_of_app in Ht as [?|Hin]; [apply elem_of_app; by left|].
      apply elem_of_cons in Hin as [[= -> E]|?]; [|apply elem_of_app; by right].
      assert (k = i) as -> by lia. simpl in Hk. rewrite Hj in Hk. injection Hk as <-. done.
    + eapply (upd_inv fs n s t i UnFinish j); try done; [by rewrite Hd|by right| |].
      * intros ->. eapply reduce_started; [done|exact Hj|by rewrite Hd].
      * intros p Hp Hne. rewrite Htm in Hp. rewrite elem_of_app, elem_of_cons in Hp. rewrite elem_of_app.
        destruct Hp as [?|[->|?]]; [by left|done|by right].
Qed.

Lemma crun_inv fs n s : 0 <= n -> rtc cstep (boot fs n) s -> Inv fs n s.
Proof.
  intros Hn Hr. pose proof (boot_inv fs n Hn) as HI. revert HI.
  induction Hr as [|x y z Hst _ IH]; [done|]. intros HI. apply IH. by eapply cstep_inv.
Qed.

(** ** Progress *)

Definition weight (x : MRJobState) : nat :=
  match x with Doing => 2 | UnFinish => 1 | _ => 0 end.
Definition load (l : list Job) : nat := sum_list ((fun j => weight (JobState j)) <$> l).

(** How much is left to do. *)
Definition total (c : Coordinator) : nat := (load (mapJob c) + load (reduceJob c))%nat.

Lemma load_alter l i j x :
  l !! i = Some j ->
  (load (alter (set_JobState x) i l) + weight (JobState j) = load l + weight x)%nat.
Proof.
  unfold load. revert i. induction l as [|y l IH]; intros [|i] Hj; simplify_eq/=; [lia|].
  specialize (IH i Hj). lia.
Qed.

Lemma total_upd t i x c j :
  allJob t c !! i = Some j ->
  (total (upd t i x c) + weight (JobState j) = total c + weight x)%nat.
Proof.
  intros Hj. unfold total. destruct (allJob_phase _ _ _ _ Hj) as [->| ->]; simpl in *;
    pose proof (load_alter _ _ _ x Hj); lia.
Qed.

Lemma total_check t c : total (check t c) = total c.
Proof. unfold total. by destruct (check_arrays t c) as (-> & -> & _). Qed.

Lemma run_report_done t i c j :
  allJob t c !! i = Some j -> JobState j = Doing ->
  ReportJobResult (mkJobFinishArgs t true (Z.of_nat i)) c = (check t (upd t i Finished c), Ret tt).
Proof.
  intros Hj Hd. unfold ReportJobResult. simpl.
  destruct (allJob_phase _ _ _ _ Hj) as [->| ->]; simpl; m_exec;
    (rewrite (proj2 (go_idx_lookup _ (Z.of_nat i) j)) by (split; [lia|by rewrite Nat2Z.id]));
    rewrite Hd; m_exec; rewrite (run_assign _ i Finished c j Hj); by rewrite run_CheckAllState.
Qed.

Lemma run_fire_doing t i c j :
  allJob t c !! i = Some j -> JobState j = Doing ->
  timerFired t (Z.of_nat i) c = (upd t i UnFinish c, Ret tt).
Proof.
  intros Hj Hd. unfold timerFired. m_exec.
  rewrite (proj2 (go_idx_lookup _ (Z.of_nat i) j)) by (split; [lia|by rewrite Nat2Z.id]).
  rewrite Hd. simpl. by rewrite (run_assign _ i UnFinish c j Hj).
Qed.

(** The jobs that can be handed out now. *)
Definition current (c : Coordinator) : MRJobType := if mapJobFinish c then ReduceJob else MapJob.

(** A job of the current phase is handed out and reported done by the worker that got it. *)
Lemma finish_one s i j r tm c' :
  allJob (current (co s)) (co s) !! i = Some j -> JobState j = UnFinish -> er_JobType r = current (co s) -> er_JobId r = Z.of_nat i ->
  GetJob zeroReply (co s) = (upd (current (co s)) i Doing (co s), Ret (r, tm)) ->
  c' = check (current (co s)) (upd (current (co s)) i Finished (upd (current (co s)) i Doing (co s))) ->
  rtc cstep s (mkSys c' (option_list tm ++ timers s)%list (held s)) /\ (total c' < total (co s))%nat.
Proof.
  intros Hj Hu Ht Hid Hg ->. set (t := current (co s)) in *. split.
  - eapply rtc_l; [by apply (cs_get s _ _ _ Hg)|]. apply rtc_once.
    apply (cs_report (mkSys _ _ _) [] r (held s) true); [done|]. simpl. unfold report_of. rewrite Ht, Hid.
    apply (run_report_done t i _ (set_JobState Doing j)); [by apply upd_present|done].
  - rewrite total_check. pose proof (total_upd t i Doing (co s) j Hj) as H1.
    pose proof (total_upd t i Finished _ _ (upd_present t i Doing _ _ Hj)) as H2.
    rewrite Hu in H1. simpl in *. lia.
Qed.

Lemma progress fs n s :
  Inv fs n s -> fs <> [] -> 0 < n -> reduceJobFinish (co s) = false ->
  exists s', rtc cstep s s' /\ (total (co s') < total (co s))%nat.
Proof.
  intros HI Hfs Hn Hr. pose proof (i_type _ _ _ HI) as Hty. set (t := current (co s)).
  assert (Hnf : ~ fin (allJob t (co s))).
  { unfold t, current. destruct (mapJobFinish (co s)) eqn:Hm; simpl; intros Hf.
    - rewrite (i_redc _ _ _ HI) in Hr; try done. intros E. pose proof (i_lenr _ _ _ HI) as Hl.
      rewrite E in Hl. simpl in Hl. lia.
    - rewrite (i_mapc _ _ _ HI) in Hm; try done. intros E. pose proof (i_lenm _ _ _ HI) as Hl.
      rewrite E in Hl. by destruct fs. }
  destruct (run_GetJob zeroReply (co s)) as (c' & r & tm & Hg & Hout).
  destruct Hout as [i j Hm Hj Hu Ht Hid _ _|i j Hm Hj Hu Ht Hid|Hnone _].
  - assert (Et : current (co s) = MapJob) by (unfold current; by rewrite Hm). destruct (Hty MapJob i j Hj) as [Ej _].
    edestruct (finish_one s i j r) as [? ?]; rewrite ?Et, ?Ht, ?Ej; eauto.
  - assert (Et : current (co s) = ReduceJob) by (unfold current; by rewrite Hm). destruct (Hty ReduceJob i j Hj) as [Ej _].
    edestruct (finish_one s i j r) as [? ?]; rewrite ?Et, ?Ht, ?Ej; eauto.
  - assert (Hd : exists i j, allJob t (co s) !! i = Some j /\ JobState j = Doing).
    { unfold fin in Hnf. apply not_Forall_Exists in Hnf; [|apply _].
      apply Exists_exists in Hnf as (j & Hin & Hj). apply list_elem_of_lookup in Hin as [i Hi].
      exists i, j. split; [done|]. destruct (i_type _ _ _ HI _ _ _ Hi) as [_ Hk].
      assert (Hu : JobState j <> UnFinish).
      { unfold t, current in Hi. destruct (mapJobFinish (co s)); rewrite Forall_lookup in Hnone; by apply (Hnone i). }
      simpl in Hj. by destruct (JobState j). }
    destruct Hd as (i & j & Hj & Hd). pose proof (i_timer _ _ _ HI _ _ _ Hj Hd) as Hin.
    apply list_elem_of_split in Hin as (l1 & l2 & Hl). eexists. split.
    + apply rtc_once. by apply (cs_fire s l1 t (Z.of_nat i) l2 _ Hl (run_fire_doing _ _ _ _ Hj Hd)).
    + simpl. pose proof (total_upd t i UnFinish (co s) j Hj) as H1. rewrite Hd in H1. simpl in H1. lia.
Qed.

Lemma completes fs n s :
  Inv fs n s -> fs <> [] -> 0 < n -> exists s', rtc cstep s s' /\ reduceJobFinish (co s') = true.
Proof.
  intros HI Hfs Hn. remember (total (co s)) as m eqn:Em. revert s HI Em.
  induction m as [m IH] using lt_wf_ind. intros s HI ->.
  destruct (reduceJobFinish (co s)) eqn:Hr; [by exists s|].
  destruct (progress fs n s HI Hfs Hn Hr) as (s1 & H1 & Hlt).
  assert (HI1 : Inv fs n s1) by (clear -HI H1; induction H1; eauto using cstep_inv).
  destruct (IH _ Hlt s1 HI1 eq_refl) as (s2 & H2 & ?). exists s2. split; [by etrans|done].
Qed.

(** ** Theorems *)

(** Phases: in every reachable state no reduce job has been handed out
    unless all map jobs are finished, and the coordinator reports completion only
    when all map and all reduce jobs are finished. *)
Theorem mr_phases (fs : list string) (n : Z) (s : Sys) :
  0 <= n -> rtc cstep (boot fs n) s ->
  (forall i j, reduceJob (co s) !! i = Some j -> JobState j <> UnFinish -> fin (mapJob (co s)))
  /\ (Done (co s) = (co s, Ret true) -> fin (mapJob (co s)) /\ fin (reduceJob (co s))).
Proof.
  intros Hn Hr. pose proof (crun_inv fs n s Hn Hr) as HI. split.
  - intros i j Hj Hs. apply (i_map _ _ _ HI). by eapply reduce_started.
  - intros [= Hd]. destruct (i_red _ _ _ HI Hd) as [Hm ?]. split; [by apply (i_map _ _ _ HI)|done].
Qed.

(** GetJob never fails: it hands out the first free job of the current phase
    (with its file and the number of partitions for a map job), marks it and
    starts a timer for it; or, when there is none, tells the worker to wait or
    to stop and changes nothing. *)
Theorem get_job_outcome (r : ExampleReply) (c : Coordinator) :
  exists c' r' tm, GetJob r c = (c', Ret (r', tm)) /\ get_outcome c r r' c' tm.
Proof. apply run_GetJob. Qed.

(** No job is lost: in every reachable state each job that is being worked on
    has a timer pending, and when that timer fires the job is free again. *)
Theorem doing_has_timer (fs : list string) (n : Z) (s : Sys) (t : MRJobType) (i : nat) (j : Job) :
  0 <= n -> rtc cstep (boot fs n) s -> allJob t (co s) !! i = Some j -> JobState j = Doing ->
  exists l1 l2 c', timers s = (l1 ++ (t, Z.of_nat i) :: l2)%list
    /\ timerFired t (Z.of_nat i) (co s) = (c', Ret tt)
    /\ allJob t c' !! i = Some (set_JobState UnFinish j).
Proof.
  intros Hn Hr Hj Hd. pose proof (crun_inv fs n s Hn Hr) as HI.
  pose proof (i_timer _ _ _ HI _ _ _ Hj Hd) as Hin. apply list_elem_of_split in Hin as (l1 & l2 & Hl).
  exists l1, l2, (upd t i UnFinish (co s)).
  split; [done|]. split; [by eapply run_fire_doing|by apply upd_present].
Qed.

(** Every worker that holds a job dies. *)
Definition abandoned (s : Sys) : Sys := mkSys (co s) (timers s) [].

(** C29.  The job can always be completed without the workers that have jobs now: with at
    least one input file and one partition, whatever workers and timers have done so far
    and even if every worker that holds a job dies without reporting it, there is a
    continuation, in which only jobs handed out after that are reported, after which the
    coordinator reports completion.  The lost jobs come back because their timers fire. *)
Theorem mr_can_complete (fs : list string) (n : Z) (s : Sys) :
  fs <> [] -> 0 < n -> rtc cstep (boot fs n) s ->
  exists s', rtc cstep (abandoned s) s' /\ Done (co s') = (co s', Ret true).
Proof.
  intros Hfs Hn Hr. destruct (completes fs n (abandoned s)) as (s' & ? & Hd); try done.
  { apply inv_held, crun_inv; [lia|done]. }
  exists s'. split; [done|]. unfold Done, gets. by rewrite Hd.
Qed.

Lemma stuck_without_files n s s' :
  Inv [] n s -> mapJobFinish (co s) = false -> cstep s s' -> mapJobFinish (co s') = false.
Proof.
  intros HI Hm Hst. assert (Hnil : mapJob (co s) = []) by (apply nil_length_inv, (i_lenm _ _ _ HI)).
  assert (Hred : forall i j, reduceJob (co s) !! i = Some j -> JobState j = UnFinish).
  { intros i j Hj. pose proof (i_pend _ _ _ HI Hm) as Hf. rewrite Forall_lookup in Hf. by eapply Hf. }
  assert (Hno : forall t i j, allJob t (co s) !! i = Some j -> JobState j = Doing -> False).
  { intros t i j Hj Hd. destruct t; simpl in Hj; try done; [by rewrite Hnil in Hj|].
    rewrite (Hred _ _ Hj) in Hd. done. }
  destruct Hst as [r' tm c' Hg|h1 r h2 b c' _ Hr|h1 r h2 _|l1 t z l2 c' Htm Hf].
  - destruct (run_GetJob zeroReply (co s)) as (c1 & r1 & tm1 & Hrun & Hout). rewrite Hg in Hrun.
    injection Hrun as <- <- <-. by destruct Hout.
  - apply report_inv in Hr as [|t i j Hj Hd|t i j Hj Hd]; [done|by exfalso; eauto|by exfalso; eauto].
  - done.
  - apply fire_inv in Hf as (i & j & -> & Hj & [[_ ->]|[Hd _]]); [done|by exfalso; eauto].
Qed.

(** Without input files the job never completes: the end of the map phase is
    only noticed when a map job is reported, so with no map job the reduce jobs
    are never handed out, workers wait forever and Done stays false. *)
Theorem no_files_never_done (n : Z) (s : Sys) :
  0 <= n -> rtc cstep (boot [] n) s ->
  Done (co s) = (co s, Ret false)
  /\ forall r, exists r', GetJob r (co s) = (co s, Ret (r', None)) /\ er_JobType r' = WaitJob.
Proof.
  intros Hn Hr. assert (Hm : Inv [] n s /\ mapJobFinish (co s) = false).
  { pose proof (boot_inv [] n Hn) as HI. assert (Hb : mapJobFinish (co (boot [] n)) = false) by done.
    revert HI Hb. induction Hr as [|x y z Hst _ IH]; [done|]. intros HI Hb.
    apply IH; [by eapply cstep_inv|by eapply stuck_without_files]. }
  destruct Hm as [HI Hm]. assert (Hrf : reduceJobFinish (co s) = false).
  { destruct (reduceJobFinish (co s)) eqn:E; [|done]. apply (i_red _ _ _ HI) in E as [? _]. congruence. }
  split; [unfold Done, gets; by rewrite Hrf|]. intros r.
  destruct (run_GetJob r (co s)) as (c' & r' & tm & Hg & Hout). exists r'.
  destruct Hout as [i j _ Hj|i j Hm' _|_ Ht]; [|congruence|by rewrite Hrf in Ht].
  assert (Hnil : mapJob (co s) = []) by (apply nil_length_inv, (i_lenm _ _ _ HI)).
  by rewrite Hnil in Hj.
Qed.

(** ReportJobResult panics on a report of an unknown job type, which is what a
    worker sends after a GetJob call that failed (it reports the zero reply). *)
Theorem unknown_report_panics (success : bool) (z : Z) (c : Coordinator) :
  snd (ReportJobResult (mkJobFinishArgs UnknownJob success z) c) = Panic.
Proof.
  unfold ReportJobResult. simpl. m_exec. unfold go_idx. destruct (z <? 0); [done|].
  by rewrite lookup_nil.
Qed.

(** A timer can revoke an assignment that is not its own: a job that was given
    up and handed out again is taken from its second worker by the timer of the
    first assignment, and that worker's report is then ignored. *)
Theorem stale_timer_revokes :
  exists s, rtc cstep (boot ["f"] 1) s
    /\ (JobState <$> mapJob (co s) !! 0%nat) = Some UnFinish
    /\ timers s = [(MapJob, 0)]
    /\ ReportJobResult (mkJobFinishArgs MapJob true 0) (co s) = (co s, Ret tt).
Proof.
  eexists. split.
  - eapply rtc_l; [by eapply cs_get|].
    eapply rtc_l; [by eapply (cs_report _ [] (mkExampleReply MapJob 0 "f" 0 1 0) [] false)|].
    eapply rtc_l; [by eapply cs_get|].
    eapply rtc_l; [|apply rtc_refl]. by eapply (cs_fire _ [(MapJob, 0)] MapJob 0 []).
  - by split_and!.
Qed.

(** ** Witnesses *)

Definition busy : Sys :=
  mkSys (upd MapJob 0 Doing (co (boot ["f"] 1))) [(MapJob, 0)] [mkExampleReply MapJob 0 "f" 0 1 0].

Lemma run_busy : rtc cstep (boot ["f"] 1) busy.
Proof. apply rtc_once. by apply (cs_get (boot ["f"] 1) (mkExampleReply MapJob 0 "f" 0 1 0) (Some (MapJob, 0))). Qed.

(** The map job reported, the reduce job handed out *)
Definition mapped : Sys :=
  mkSys (fst (ReportJobResult (mkJobFinishArgs MapJob true 0) (co busy))) [(MapJob, 0)] [].
Definition reducing : Sys :=
  mkSys (upd ReduceJob 0 Doing (co mapped)) [(ReduceJob, 0); (MapJob, 0)] [mkExampleReply ReduceJob 0 "" 0 0 0].

Lemma run_reducing : rtc cstep (boot ["f"] 1) reducing.
Proof.
  etrans; [exact run_busy|]. apply (rtc_l _ _ mapped).
  - apply (cs_report busy [] (mkExampleReply MapJob 0 "f" 0 1 0) [] true); reflexivity.
  - apply rtc_once.
    apply (cs_get mapped (mkExampleReply ReduceJob 0 "" 0 0 0) (Some (ReduceJob, 0)) (co reducing)).
    reflexivity.
Qed.

Lemma mr_phases_witness : fin (mapJob (co reducing)).
Proof.
  apply (proj1 (mr_phases ["f"] 1 reducing ltac:(lia) run_reducing) 0%nat (mkJob ReduceJob Doing 0 "")).
  - reflexivity.
  - discriminate.
Defined.

Lemma doing_has_timer_witness :
  exists l1 l2 c', timers busy = (l1 ++ (MapJob, 0) :: l2)%list
    /\ timerFired MapJob 0 (co busy) = (c', Ret tt)
    /\ allJob MapJob c' !! 0%nat = Some (mkJob MapJob UnFinish 0 "f").
Proof. exact (doing_has_timer ["f"] 1 busy MapJob 0 _ ltac:(lia) run_busy eq_refl eq_refl). Defined.

(** The worker with the only map job dies. *)
Lemma mr_can_complete_witness :
  exists s', rtc cstep (abandoned busy) s' /\ Done (co s') = (co s', Ret true).
Proof. apply (mr_can_complete ["f"] 1 busy); [discriminate|lia|exact run_busy]. Defined.

Lemma no_files_never_done_witness : Done (co (boot [] 3)) = (co (boot [] 3), Ret false).
Proof. exact (proj1 (no_files_never_done 3 (boot [] 3) ltac:(lia) (rtc_refl _ _))). Defined.

End MrProps.
