(* ===== verification/MrWorker.v ===== *)
(** The MapReduce worker of src/src/mr/worker.go and the sequential program of
    src/src/main/mrsequential.go.

    The application's [mapf] and [reducef], the order in which filepath.Glob
    lists files and the algorithm of sort.Sort (which is not stable) are
    parameters.  Pairs go through encoding/json, which replaces bytes that are not UTF-8
    ([json_string]).  The directory is the record [FS]: input files by name,
    intermediate files by (map job, partition), output files by partition.
    Files are written under a temporary name and renamed, so a file appears
    complete or not at all.  Disk failures are not modelled, except that an
    input file may be missing. *)
From Stdlib Require Import ZArith Lia Sorted.
From stdpp Require Import base list numbers strings gmap.
From S2P Require Import Prelude MrCoordinator.

#[local] Open Scope string_scope.
#[local] Open Scope Z_scope.

Module MrWorker.
Import Mr.

(** ** Keys and hashing *)

Record KeyValue := mkKeyValue { Key : string; Value : string }.

#[export] Instance KeyValue_eq_dec : EqDecision KeyValue.
Proof. solve_decision. Defined.

(** Less of ByKey: bytewise order of the keys. *)
Definition Less (a b : KeyValue) : bool := String.ltb (Key a) (Key b).

(** FNV-1a, 32 bits (hash/fnv, New32a) *)
Definition fnv_step (h : Z) (a : Ascii.ascii) : Z :=
  Z.lxor h (Z.of_nat (Ascii.nat_of_ascii a)) * 16777619 mod 2 ^ 32.

Fixpoint fnv32a (h : Z) (s : string) : Z :=
  match s with
  | EmptyString => h
  | String a s' => fnv32a (fnv_step h a) s'
  end.

Definition ihash (key : string) : Z := Z.land (fnv32a 2166136261 key) 2147483647.

(** ** Partitioning the output of a map job *)

(** [imap[index] = append(imap[index], pair)] for each pair *)
Definition add_pair (n : Z) (im : gmap Z (list KeyValue)) (p : KeyValue) : gmap Z (list KeyValue) :=
  let index := Z.rem (ihash (Key p)) n in
  <[index := (default [] (im !! index) ++ [p])%list]> im.

(** None: the integer division by zero of [ihash(pair.Key) % reply.NReduce]. *)
Definition imap (n : Z) (kva : list KeyValue) : option (gmap Z (list KeyValue)) :=
  if decide (n = 0 /\ kva <> []) then None else Some (foldl (add_pair n) ∅ kva).

(** ** Grouping by key *)

(** The inner loop: the pairs after the first that have its key, and the rest. *)
Fixpoint key_run (k : string) (l : list KeyValue) : list KeyValue * list KeyValue :=
  match l with
  | [] => ([], [])
  | p :: l' => if decide (Key p = k) then let '(a, b) := key_run k l' in (p :: a, b) else ([], l)
  end.

(** The outer loop, one line (key, output) per group; [fuel] bounds the number of
    groups, the callers pass the number of pairs. *)
Fixpoint reduce_loop (reducef : string -> list string -> string) (fuel : nat) (l : list KeyValue)
    : list (string * string) :=
  match fuel, l with
  | S fuel', p :: l' =>
      let '(same, rest) := key_run (Key p) l' in
      (Key p, reducef (Key p) (Value <$> (p :: same))) :: reduce_loop reducef fuel' rest
  | _, _ => []
  end.

Definition reduce_lines (reducef : string -> list string -> string) (l : list KeyValue)
    : list (string * string) := reduce_loop reducef (length l) l.

(** ** The directory *)

Record FS := mkFS
  { inputs : gmap string string;
    inter : gmap (Z * Z) (list KeyValue);
    outs : gmap Z (list (string * string)) }.

(** The files the pattern mr-*-<id> can match: mr-<map job>-<id>, and mr-out-<id>
    when an earlier execution of the reduce job left one. *)
Inductive File := InterFile (jobId i : Z) | OutFile (i : Z).

#[export] Instance File_eq_dec : EqDecision File.
Proof. solve_decision. Defined.

Definition exists_file (fs : FS) (f : File) : bool :=
  match f with
  | InterFile j i => bool_decide (is_Some (inter fs !! (j, i)))
  | OutFile i => bool_decide (is_Some (outs fs !! i))
  end.

Definition file_partition (f : File) : Z := match f with InterFile _ i => i | OutFile i => i end.

(** What filepath.Glob documents: each existing file that matches, once. *)
Definition glob_ok (glob : FS -> Z -> list File) : Prop :=
  forall fs i, NoDup (glob fs i)
    /\ forall f, f ∈ glob fs i <-> exists_file fs f = true /\ file_partition f = i.

(** ** Strings in intermediate files

    The encoder of encoding/json replaces every byte that is not part of a well-formed
    UTF-8 sequence by U+FFFD; all other strings come back from the decoder as they were. *)

Definition within (lo hi : nat) (a : Ascii.ascii) : bool :=
  let k := Ascii.nat_of_ascii a in ((lo <=? k) && (k <=? hi))%nat.

(** The length of the sequence that begins with [a]; 0: none does. *)
Definition rune_size (a : Ascii.ascii) : nat :=
  if within 0 127 a then 1 else if within 194 223 a then 2 else if within 224 239 a then 3
  else if within 240 244 a then 4 else 0.

Definition second_ok (a b : Ascii.ascii) : bool :=
  if within 224 224 a then within 160 191 b else if within 237 237 a then within 128 159 b
  else if within 240 240 a then within 144 191 b else if within 244 244 a then within 128 143 b
  else within 128 191 b.

Definition continues (c : Ascii.ascii) : bool := within 128 191 c.

(** U+FFFD, encoded. *)
Definition replacement (s : string) : string :=
  String (Ascii.ascii_of_nat 239) (String (Ascii.ascii_of_nat 191) (String (Ascii.ascii_of_nat 189) s)).

(** A string after it was encoded and decoded. *)
Fixpoint json_string (s : string) : string :=
  match s with
  | EmptyString => EmptyString
  | String a s1 =>
      match rune_size a, s1 with
      | 1%nat, _ => String a (json_string s1)
      | 2%nat, String b s2 =>
          if second_ok a b then String a (String b (json_string s2)) else replacement (json_string s1)
      | 3%nat, String b (String c s3) =>
          if second_ok a b && continues c then String a (String b (String c (json_string s3)))
          else replacement (json_string s1)
      | 4%nat, String b (String c (String d s4)) =>
          if second_ok a b && continues c && continues d then String a (String b (String c (String d (json_string s4))))
          else replacement (json_string s1)
      | _, _ => replacement (json_string s1)
      end
  end.

Definition json_pair (p : KeyValue) : KeyValue := mkKeyValue (json_string (Key p)) (json_string (Value p)).

(** One well-formed sequence. *)
Definition valid_rune (r : string) : bool :=
  match r with
  | String a EmptyString => (rune_size a =? 1)%nat
  | String a (String b EmptyString) => (rune_size a =? 2)%nat && second_ok a b
  | String a (String b (String c EmptyString)) => (rune_size a =? 3)%nat && second_ok a b && continues c
  | String a (String b (String c (String d EmptyString))) => (rune_size a =? 4)%nat && second_ok a b && continues c && continues d
  | _ => false
  end.

Lemma json_rune r s : valid_rune r = true -> json_string (r +:+ s) = r +:+ json_string s.
Proof.
  destruct r as [|a [|b [|c [|d [|]]]]]; try done; simpl; rewrite ?andb_true_iff, Nat.eqb_eq; intros Hr; destruct_and?;
    repeat match goal with E : _ = _ |- _ => rewrite E; clear E end; done.
Qed.

Lemma string_app_nil (s : string) : s +:+ EmptyString = s.
Proof. induction s as [|a s IH]; [done|]. change (String a (s +:+ EmptyString) = String a s). by rewrite IH. Qed.

(** A text of well-formed sequences comes back as it was. *)
Lemma json_runes (l : list string) : Forall (fun r => valid_rune r = true) l -> json_string (String.concat "" l) = String.concat "" l.
Proof.
  induction 1 as [|r l Hr _ IH]; [done|]. destruct l as [|r' l].
  - pose proof (json_rune r EmptyString Hr) as E. by cbn [json_string] in E; rewrite !string_app_nil in E.
  - change (String.concat "" (r :: r' :: l)) with (r +:+ String.concat "" (r' :: l)). by rewrite json_rune, IH.
Qed.

Section Worker.
Context (mapf : string -> string -> list KeyValue) (reducef : string -> list string -> string)
  (sort : list KeyValue -> list KeyValue) (glob : FS -> Z -> list File)
  (decode_out : list (string * string) -> list KeyValue).

(** processJob for a map job: the result is whether it succeeded. *)
Definition processMap (fileName : string) (jobId n : Z) (fs : FS) : option (FS * bool) :=
  match inputs fs !! fileName with
  | None => Some (fs, false)
  | Some content =>
      im ← imap n (mapf fileName content);
      Some (mkFS (inputs fs) (map_fold (fun i pairs m => <[(jobId, i) := pairs]> m) (inter fs) im) (outs fs),
            true)
  end.

(** The pairs the JSON decoder reads from a file until its first error. *)
Definition decode_file (fs : FS) (f : File) : list KeyValue :=
  match f with
  | InterFile j i => json_pair <$> default [] (inter fs !! (j, i))
  | OutFile i => decode_out (default [] (outs fs !! i))
  end.

Definition processReduce (jobId : Z) (fs : FS) : FS * bool :=
  let files := glob fs jobId in
  if decide (files = []) then (fs, true)
  else
    let tempPairs := files ≫= decode_file fs in
    (mkFS (inputs fs) (inter fs)
       (<[jobId := reduce_lines reducef (sort tempPairs)]> (outs fs)), true).

(** processJob; the second component is the new value of canTerminal.  None is a
    crash of the worker. *)
Definition processJob (reply : ExampleReply) (canTerminal : bool) (fs : FS) : option (FS * bool * bool) :=
  match er_JobType reply with
  | TerminalJob => Some (fs, true, true)
  | MapJob =>
      '(fs', ok) ← processMap (er_MapJobFileName reply) (er_JobId reply) (er_NReduce reply) fs;
      Some (fs', canTerminal, ok)
  | ReduceJob =>
      let '(fs', ok) := processReduce (er_JobId reply) fs in Some (fs', canTerminal, ok)
  | WaitJob | UnknownJob => Some (fs, canTerminal, true)
  end.

(** One iteration of the loop of Worker: [answer] is the coordinator's reply, None
    when the call failed and [reply] keeps its zero value. *)
Definition Worker_iteration (answer : option ExampleReply) (fs : FS) : option (FS * bool * JobFinishArgs) :=
  let reply := default zeroReply answer in
  '(fs', canTerminal, success) ← processJob reply false fs;
  Some (fs', canTerminal, report_of reply success).

(** ** mrsequential: None when an input file cannot be opened *)
Fixpoint seq_intermediate (names : list string) (fs : FS) : option (list KeyValue) :=
  match names with
  | [] => Some []
  | f :: names' =>
      content ← inputs fs !! f;
      rest ← seq_intermediate names' fs;
      Some (mapf f content ++ rest)%list
  end.

Definition mrsequential (names : list string) (fs : FS) : option (list (string * string)) :=
  l ← seq_intermediate names fs; Some (reduce_lines reducef (sort l)).

End Worker.

(** ** Hash *)

Lemma fnv32a_range s h : 0 <= h < 2 ^ 32 -> 0 <= fnv32a h s < 2 ^ 32.
Proof.
  revert h. induction s as [|a s IH]; intros h Hh; [done|]. simpl. apply IH. unfold fnv_step.
  apply Z.mod_pos_bound. lia.
Qed.

Lemma ihash_range key : 0 <= ihash key < 2 ^ 31.
Proof.
  unfold ihash. change 2147483647 with (Z.ones 31). rewrite Z.land_ones by lia.
  apply Z.mod_pos_bound. lia.
Qed.

Lemma ihash_rem key n : 0 < n -> 0 <= Z.rem (ihash key) n < n.
Proof. intros Hn. pose proof (ihash_range key). apply Z.rem_bound_pos; lia. Qed.

(** ** Partitions *)

(** Reference definition: the pairs of partition [i]. *)
Definition part (n i : Z) (l : list KeyValue) : list KeyValue :=
  filter (fun p => Z.rem (ihash (Key p)) n = i) l.

Lemma part_app n i l1 l2 : part n i (l1 ++ l2)%list = (part n i l1 ++ part n i l2)%list.
Proof. unfold part. by rewrite filter_app. Qed.

Lemma part_single n i p : part n i [p] = if decide (Z.rem (ihash (Key p)) n = i) then [p] else [].
Proof. unfold part. rewrite filter_cons. by case_decide. Qed.

Lemma imap_lookup n l i :
  foldl (add_pair n) ∅ l !! i = if decide (part n i l = []) then None else Some (part n i l).
Proof.
  induction l as [|p l IH] using rev_ind; [done|].
  rewrite foldl_app. cbn [foldl]. unfold add_pair at 1. rewrite part_app, part_single.
  destruct (decide (Z.rem (ihash (Key p)) n = i)) as [<-|Hne].
  - rewrite lookup_insert_eq, IH.
    rewrite (decide_False (P := (part _ _ l ++ [p])%list = [])) by (by intros [_ ?]%app_nil).
    f_equal. case_decide as E; simpl; [by rewrite E|done].
  - rewrite lookup_insert_ne by done. rewrite IH, app_nil_r. done.
Qed.

(** ** Grouping *)

(** Pairs in key order, as sort.Sort leaves them: no later pair is less. *)
Definition in_key_order (l : list KeyValue) : Prop := StronglySorted (fun a b => Less b a = false) l.

Lemma less_trichotomy a b : Less a b = false -> Less b a = false -> Key a = Key b.
Proof.
  unfold Less, String.ltb. pose proof (String.compare_antisym (Key b) (Key a)) as Ha.
  destruct (String.compare (Key a) (Key b)) eqn:E; [by apply String.compare_eq_iff in E|done|].
  by rewrite Ha.
Qed.

Definition values (k : string) (l : list KeyValue) : list string :=
  Value <$> filter (fun p => Key p = k) l.

Lemma key_run_spec k l same rest :
  key_run k l = (same, rest) ->
  l = (same ++ rest)%list /\ Forall (fun p => Key p = k) same
  /\ (forall p rest', rest = p :: rest' -> Key p <> k).
Proof.
  revert same rest. induction l as [|p l IH]; intros same rest; simpl; [by intros [= <- <-]|].
  case_decide as E.
  - destruct (key_run k l) as [a b]. intros [= <- <-]. destruct (IH a b eq_refl) as (-> & ? & ?).
    split_and!; [done|by constructor|done].
  - intros [= <- <-]. split_and!; [done|constructor|]. by intros ? ? [= <- <-].
Qed.

(** In a list in key order the keys after a run are different. *)
Lemma after_run p same rest :
  in_key_order (p :: same ++ rest)%list -> Forall (fun q => Key q = Key p) same ->
  (forall q rest', rest = q :: rest' -> Key q <> Key p) ->
  Forall (fun q => Key q <> Key p) rest.
Proof.
  intros Ho Hs Hne. destruct rest as [|q rest]; [constructor|]. specialize (Hne q rest eq_refl).
  apply StronglySorted_inv in Ho as [Ho Hp]. constructor; [done|]. apply Forall_forall. intros r Hr Hk.
  apply Hne. apply less_trichotomy.
  - rewrite Forall_forall in Hp. apply Hp. apply elem_of_app. right. left.
  - assert (Hq : in_key_order (q :: rest)).
    { clear Hp Hs Hne Hr Hk. induction same as [|x same IH]; [done|].
      apply IH. by apply StronglySorted_inv in Ho as [? _]. }
    apply StronglySorted_inv in Hq as [_ Hq]. rewrite Forall_forall in Hq.
    specialize (Hq r Hr). unfold Less in *. by rewrite <- Hk.
Qed.

Lemma in_key_order_app_r l1 l2 : in_key_order (l1 ++ l2)%list -> in_key_order l2.
Proof. induction l1 as [|x l1 IH]; [done|]. intros Ho. apply IH. by apply StronglySorted_inv in Ho as [? _]. Qed.

Lemma values_app k l1 l2 : values k (l1 ++ l2)%list = (values k l1 ++ values k l2)%list.
Proof. unfold values. by rewrite filter_app, fmap_app. Qed.

Lemma values_all k l : Forall (fun p => Key p = k) l -> values k l = Value <$> l.
Proof. unfold values. induction 1; [done|]. rewrite filter_cons_True by done. csimpl. by f_equal. Qed.

Lemma values_none k l : Forall (fun p => Key p <> k) l -> values k l = [].
Proof. unfold values. induction 1; [done|]. by rewrite filter_cons_False. Qed.

#[export] Instance values_perm k : Proper ((≡ₚ) ==> (≡ₚ)) (values k).
Proof. intros l1 l2 H. unfold values. by rewrite H. Qed.

(** Which lines the reduce loop prints for a list in key order: one for each key that
    occurs, with all the values of that key; the fuel is never exhausted. *)
Lemma reduce_loop_spec reducef fuel l :
  (length l <= fuel)%nat -> in_key_order l ->
  NoDup (reduce_loop reducef fuel l).*1
  /\ forall k o, (k, o) ∈ reduce_loop reducef fuel l <-> values k l <> [] /\ o = reducef k (values k l).
Proof.
  revert l. induction fuel as [|fuel IH]; intros [|p l] Hf Ho; simpl in Hf; try lia.
  1, 2: simpl; split; [constructor|]; intros k o; rewrite elem_of_nil; by intuition.
  cbn [reduce_loop]. destruct (key_run (Key p) l) as [same rest] eqn:E.
  destruct (key_run_spec _ _ _ _ E) as (-> & Hs & Hn).
  pose proof (after_run _ _ _ Ho Hs Hn) as Hr. rewrite length_app in Hf.
  destruct (IH rest) as [Hd Hm]; [lia|by eapply (in_key_order_app_r (p :: same))|].
  assert (Hvp : values (Key p) (p :: same ++ rest)%list = Value <$> (p :: same)).
  { change (p :: same ++ rest)%list with ((p :: same) ++ rest)%list.
    rewrite values_app, (values_none _ rest), app_nil_r by done. apply values_all. by constructor. }
  assert (Hvr : forall k, k <> Key p -> values k (p :: same ++ rest)%list = values k rest).
  { intros k Hk. change (p :: same ++ rest)%list with ((p :: same) ++ rest)%list.
    rewrite values_app, (values_none k (p :: same)); [done|]. constructor; [by apply not_eq_sym|].
    eapply Forall_impl; [done|]. cbn. congruence. }
  assert (Hnr : forall o, (Key p, o) ∉ reduce_loop reducef fuel rest).
  { intros o [Hv _]%Hm. by rewrite values_none in Hv. }
  split.
  - csimpl. constructor; [|done]. intros ([k o] & Hk & Hin)%list_elem_of_fmap. cbn in Hk. subst k. by eapply Hnr.
  - intros k o. rewrite elem_of_cons. destruct (decide (k = Key p)) as [->|Hk].
    + rewrite Hvp. split; [intros [[= ->]|Hx]; [done|by apply Hnr in Hx]|intros [_ ->]; by left].
    + rewrite (Hvr k Hk), <- Hm. naive_solver.
Qed.

End MrWorker.
