(* ===== verification/MrEquiv.v ===== *)
(** The distributed MapReduce computes what the sequential program computes.

    The jobs the coordinator hands out run on one directory: every map job in any
    order and any number of times, then every reduce job in any order.  The phases
    are separate because of [MrProps.MrProps.mr_phases]; a job may run again when its
    timer fired. *)
From Stdlib Require Import ZArith Lia.
From stdpp Require Import base list numbers strings gmap sorting pretty.
From S2P Require Import Prelude MrCoordinator MrWorker.

#[local] Open Scope string_scope.
#[local] Open Scope Z_scope.

Module MrEquiv.
Import Mr MrWorker.

(** What GetJob answers for map job [j] and reduce job [i]. *)
Definition map_reply (files : list string) (n j : Z) : ExampleReply :=
  mkExampleReply MapJob j (default "" (files !! Z.to_nat j)) 0 n 0.
Definition reduce_reply (i : Z) : ExampleReply := mkExampleReply ReduceJob i "" 0 0 0.

(** Contents of the output files of [n] reduce jobs, in the order of the jobs. *)
Definition output (n : Z) (fs : FS) : list (string * string) :=
  seqZ 0 n ≫= fun i => default [] (outs fs !! i).

Section Equivalence.
Context (mapf : string -> string -> list KeyValue) (reducef : string -> list string -> string)
  (sort : list KeyValue -> list KeyValue) (glob : FS -> Z -> list File)
  (decode_out : list (string * string) -> list KeyValue).

(** Jobs executed one after the other; None when a worker crashes or fails. *)
Fixpoint run_jobs (replies : list ExampleReply) (fs : FS) : option FS :=
  match replies with
  | [] => Some fs
  | r :: replies' =>
      '(fs', canTerminal, ok) ← processJob mapf reducef sort glob decode_out r false fs;
      if (ok : bool) then run_jobs replies' fs' else None
  end.

Context (files : list string) (n : Z) (fs0 : FS).
Context (Hn : 0 < n) (Hinput : Forall (fun f => is_Some (inputs fs0 !! f)) files)
  (Hinter : inter fs0 = ∅) (Houts : outs fs0 = ∅).

(** The pairs of one input file, and all of them *)
Definition file_pairs (f : string) : list KeyValue :=
  match inputs fs0 !! f with Some content => mapf f content | None => [] end.
Definition all_pairs : list KeyValue := files ≫= file_pairs.

(** The pairs of map job [j] for reduce job [i] *)
Definition chunk (j i : Z) : list KeyValue :=
  if decide (0 <= j < Z.of_nat (length files))
  then part n i (file_pairs (default "" (files !! Z.to_nat j))) else [].

Lemma seq_intermediate_all : seq_intermediate mapf files fs0 = Some all_pairs.
Proof.
  unfold all_pairs. clear - Hinput. induction files as [|f l IH]; [done|].
  apply Forall_cons in Hinput as [[c Hc] Hl]. csimpl. unfold file_pairs at 1. rewrite Hc. cbn. by rewrite IH.
Qed.

(** ** Map phase *)

Lemma write_chunks (j : Z) (im : gmap Z (list KeyValue)) (m : gmap (Z * Z) (list KeyValue)) a b :
  map_fold (fun i pairs m => <[(j, i) := pairs]> m) m im !! (a, b)
  = if decide (a = j) then match im !! b with Some x => Some x | None => m !! (a, b) end else m !! (a, b).
Proof.
  apply (map_fold_weak_ind (fun r im => r !! (a, b)
    = if decide (a = j) then match im !! b with Some x => Some x | None => m !! (a, b) end else m !! (a, b))).
  { rewrite lookup_empty. by case_decide. }
  clear im. intros i x im r Hi IH. destruct (decide ((j, i) = (a, b))) as [[= -> ->]|Hne].
  - rewrite !lookup_insert_eq. by rewrite decide_True.
  - rewrite lookup_insert_ne by done. rewrite IH. case_decide; [|done]. subst a.
    rewrite lookup_insert_ne by congruence. done.
Qed.

(** After the map jobs [js] the directory holds exactly their non-empty chunks. *)
Definition maps_done (js : list Z) (fs : FS) : Prop :=
  inputs fs = inputs fs0 /\ outs fs = ∅
  /\ forall j i, inter fs !! (j, i) = if decide (j ∈ js /\ chunk j i <> []) then Some (chunk j i) else None.

Lemma maps_done_nil : maps_done [] fs0.
Proof.
  split_and!; [done|done|]. intros j i. rewrite Hinter, lookup_empty, decide_False; [done|].
  by intros [?%elem_of_nil _].
Qed.

Lemma map_job_ok js fs j :
  maps_done js fs -> 0 <= j < Z.of_nat (length files) ->
  exists fs', processJob mapf reducef sort glob decode_out (map_reply files n j) false fs
              = Some (fs', false, true) /\ maps_done (j :: js) fs'.
Proof.
  intros (Hi & Ho & Hd) Hj. unfold processJob, processMap. cbn -[map_fold]. rewrite Hi.
  destruct (lookup_lt_is_Some_2 files (Z.to_nat j)) as [f Hf]; [lia|]. rewrite Hf. cbn -[map_fold].
  destruct (Forall_lookup_1 _ _ _ _ Hinput Hf) as [c Hc]. rewrite Hc. cbn -[map_fold].
  unfold imap. rewrite decide_False by lia. cbn -[map_fold]. eexists. split; [done|].
  split_and!; [done|done|]. intros a i. cbn -[map_fold]. rewrite write_chunks, imap_lookup, Hd.
  assert (Hch : chunk j i = part n i (mapf f c)).
  { unfold chunk, file_pairs. rewrite decide_True by done. by rewrite Hf; cbn; rewrite Hc. }
  destruct (decide (a = j)) as [->|Hne].
  - rewrite <- Hch. destruct (decide (chunk j i = [])) as [E|E].
    + rewrite !decide_False; naive_solver.
    + rewrite decide_True; [done|]. split; [left|done].
  - erewrite decide_ext; [done|]. rewrite elem_of_cons. naive_solver.
Qed.

Lemma map_phase js done fs replies :
  maps_done done fs -> Forall (fun j => 0 <= j < Z.of_nat (length files)) js ->
  exists fs', run_jobs ((map_reply files n <$> js) ++ replies)%list fs = run_jobs replies fs'
              /\ maps_done (reverse js ++ done)%list fs'.
Proof.
  intros Hd Hjs. revert done fs Hd. induction Hjs as [|j js Hj _ IH]; intros done fs Hd; [by eauto|].
  destruct (map_job_ok done fs j Hd Hj) as (fs1 & E & Hd1).
  rewrite fmap_cons, reverse_cons. cbn [app run_jobs]. rewrite E. cbn [mbind option_bind].
  destruct (IH (j :: done) fs1 Hd1) as (fs' & E' & Hd'). exists fs'. split; [done|].
  by rewrite <- (assoc_L (++)).
Qed.

(** ** Reduce phase *)

Lemma part_bind {A} (f : A -> list KeyValue) i (l : list A) :
  part n i (l ≫= f) = l ≫= fun x => part n i (f x).
Proof. induction l as [|x l IH]; [done|]. csimpl. by rewrite part_app, IH. Qed.

Lemma list_as_seqZ {A} (d : A) (l : list A) :
  l = (fun j => default d (l !! Z.to_nat j)) <$> seqZ 0 (Z.of_nat (length l)).
Proof.
  apply list_eq. intros k. rewrite list_lookup_fmap. destruct (l !! k) as [x|] eqn:E.
  - rewrite lookup_seqZ_lt by (apply lookup_lt_Some in E; lia). cbn [fmap option_fmap option_map]. by rewrite Z.add_0_l, Nat2Z.id, E.
  - rewrite lookup_seqZ_ge; [done|]. apply lookup_ge_None in E. lia.
Qed.

Lemma chunks_part i :
  (seqZ 0 (Z.of_nat (length files)) ≫= fun j => chunk j i) = part n i all_pairs.
Proof.
  unfold all_pairs. rewrite part_bind. rewrite (list_as_seqZ "" files) at 2. rewrite list_fmap_bind.
  apply Forall_bind_ext. apply Forall_forall. intros j Hj%elem_of_seqZ. unfold chunk. by rewrite decide_True by lia.
Qed.

Lemma bind_filter {A B} (f : A -> list B) (l : list A) :
  filter (fun x => f x <> []) l ≫= f = l ≫= f.
Proof.
  induction l as [|x l IH]; [done|]. rewrite filter_cons. case_decide as E; csimpl; rewrite IH; [done|].
  by rewrite E.
Qed.

(** Keys and values are UTF-8: they survive the intermediate files. *)
Context (Hutf8 : Forall (fun p => json_pair p = p) all_pairs).

Lemma chunk_pairs j i : json_pair <$> chunk j i = chunk j i.
Proof.
  unfold chunk. case_decide as Hj; [|done]. rewrite <- (list_fmap_id (part _ _ _)) at 2. apply list_fmap_ext. intros k p Hk.
  apply list_elem_of_lookup_2, list_elem_of_filter in Hk as [_ Hp].
  destruct (lookup_lt_is_Some_2 files (Z.to_nat j)) as [f Hf]; [lia|]. rewrite Hf in Hp. rewrite Forall_forall in Hutf8. apply Hutf8.
  unfold all_pairs. apply list_elem_of_bind. exists f. split; [done|by eapply list_elem_of_lookup_2].
Qed.

Context (Hsort : forall l, sort l ≡ₚ l /\ in_key_order (sort l)) (Hglob : glob_ok glob)
  (Hreduce : forall k vs vs', vs ≡ₚ vs' -> reducef k vs = reducef k vs').

(** Every map job has run. *)
Definition maps_complete (fs : FS) : Prop :=
  forall j i, inter fs !! (j, i) = if decide (chunk j i <> []) then Some (chunk j i) else None.

Lemma glob_pairs fs i :
  maps_complete fs -> outs fs !! i = None \/ (forall ls, decode_out ls = []) ->
  (glob fs i ≫= decode_file decode_out fs) ≡ₚ part n i all_pairs.
Proof.
  intros Hc Hout. destruct (Hglob fs i) as [Hnd Hin].
  set (js := filter (fun j => chunk j i <> []) (seqZ 0 (Z.of_nat (length files)))).
  set (os := if outs fs !! i then [OutFile i] else []).
  assert (Hp : glob fs i ≡ₚ ((fun j => InterFile j i) <$> js) ++ os).
  { apply NoDup_Permutation; [done| |].
    - apply NoDup_app. split_and!.
      + apply NoDup_fmap_2; [by intros ? ? [= ->]|]. apply NoDup_filter, NoDup_seqZ.
      + intros f (j & -> & _)%list_elem_of_fmap. unfold os. destruct (outs fs !! i); set_solver.
      + unfold os. destruct (outs fs !! i); [apply NoDup_singleton|constructor].
    - intros f. rewrite Hin, elem_of_app, list_elem_of_fmap. destruct f as [j a|a]; cbn.
      + rewrite bool_decide_eq_true, Hc. split.
        * intros [[x Hx] ->]. left. exists j. split; [done|]. case_decide as E; [|done].
          apply list_elem_of_filter. split; [done|]. apply elem_of_seqZ. unfold chunk in E.
          case_decide; [lia|done].
        * intros [(j' & [= -> ->] & [E _]%list_elem_of_filter)|Hx]; [by rewrite decide_True|].
          unfold os in Hx. destruct (outs fs !! i); set_solver.
      + rewrite bool_decide_eq_true. unfold os. split.
        * intros [[x Hx] ->]. right. rewrite Hx. set_solver.
        * intros [(? & ? & _)|Hx]; [done|]. destruct (outs fs !! i) eqn:E; set_solver. }
  rewrite Hp, bind_app, list_fmap_bind, <- chunks_part, <- (bind_filter (fun j => chunk j i)).
  fold js. assert (Hos : os ≫= decode_file decode_out fs = []).
  { unfold os. destruct (outs fs !! i) eqn:E; [|done]. destruct Hout as [|Hd]; [done|]. cbn. by rewrite Hd. }
  rewrite Hos, app_nil_r. apply Permutation_refl', Forall_bind_ext.
  apply Forall_forall. intros j [Hj _]%list_elem_of_filter. cbn. rewrite Hc, decide_True by done. apply chunk_pairs.
Qed.

(** [ls] are the lines for the pairs [l]: one per key, with all its values. *)
Definition lines_ok (l : list KeyValue) (ls : list (string * string)) : Prop :=
  NoDup ls.*1 /\ forall k o, (k, o) ∈ ls <-> values k l <> [] /\ o = reducef k (values k l).

Lemma reduce_lines_ok l l' : l' ≡ₚ l -> lines_ok l (reduce_lines reducef (sort l')).
Proof.
  intros Hl. destruct (Hsort l') as [Hp Ho].
  destruct (reduce_loop_spec reducef (length (sort l')) (sort l')) as [Hd Hm]; [done|done|].
  split; [done|]. intros k o. unfold reduce_lines. rewrite Hm.
  pose proof (values_perm k _ _ (Permutation_trans Hp Hl)) as Hv. rewrite (Hreduce k _ _ Hv).
  assert (values k (sort l') = [] <-> values k l = []) as ->; [|done].
  split; intros E; rewrite E in Hv; by apply Permutation_nil_r in Hv || apply Permutation_nil_l in Hv.
Qed.

Lemma lines_ok_perm l ls ls' : lines_ok l ls -> lines_ok l ls' -> ls ≡ₚ ls'.
Proof.
  intros [Hd Hm] [Hd' Hm']. apply NoDup_Permutation; [by eapply NoDup_fmap_1|by eapply NoDup_fmap_1|].
  intros [k o]. by rewrite Hm, Hm'.
Qed.

Definition reduces_done (dn : list Z) (fs : FS) : Prop :=
  maps_complete fs
  /\ (forall i, i ∈ dn -> lines_ok (part n i all_pairs) (default [] (outs fs !! i)))
  /\ forall i, i ∉ dn -> outs fs !! i = None.

Lemma reduce_job_ok dn fs i :
  reduces_done dn fs -> i ∉ dn \/ (forall ls, decode_out ls = []) ->
  exists fs', processJob mapf reducef sort glob decode_out (reduce_reply i) false fs
              = Some (fs', false, true) /\ reduces_done (i :: dn) fs'.
Proof.
  intros (Hc & Hl & Hno) Hi. unfold processJob, processReduce. cbn.
  assert (Hp : (glob fs i ≫= decode_file decode_out fs) ≡ₚ part n i all_pairs).
  { apply glob_pairs; [done|]. destruct Hi; [left; by apply Hno|by right]. }
  destruct (decide (glob fs i = [])) as [E|E]; eexists; (split; [done|]).
  - rewrite E in Hp. apply Permutation_nil_l in Hp.
    assert (Ho : outs fs !! i = None).
    { apply eq_None_not_Some. intros Hx. destruct (Hglob fs i) as [_ Hin].
      assert (Hf : OutFile i ∈ glob fs i) by (apply Hin; cbn; by rewrite bool_decide_eq_true).
      rewrite E in Hf. by apply elem_of_nil in Hf. }
    split_and!; [done| |].
    + intros a. rewrite elem_of_cons. intros [->|Ha]; [|by apply Hl].
      rewrite Ho, <- Hp. split; [constructor|]. intros k o. rewrite elem_of_nil. by intuition.
    + intros a Ha. apply Hno. set_solver.
  - split_and!; [done| |]; cbn; intros a; rewrite elem_of_cons; intros Ha.
    + destruct (decide (a = i)) as [->|Hne]; [rewrite lookup_insert_eq; by apply reduce_lines_ok|].
      rewrite lookup_insert_ne by done. apply Hl. naive_solver.
    + rewrite lookup_insert_ne by naive_solver. apply Hno. naive_solver.
Qed.

Lemma reduce_phase rs dn fs :
  reduces_done dn fs -> NoDup (rs ++ dn)%list \/ (forall ls, decode_out ls = []) ->
  exists fs', run_jobs (reduce_reply <$> rs) fs = Some fs' /\ reduces_done (reverse rs ++ dn)%list fs'.
Proof.
  revert dn fs. induction rs as [|i rs IH]; intros dn fs Hd Hr; [by eauto|].
  destruct (reduce_job_ok dn fs i Hd) as (fs1 & E & Hd1).
  { destruct Hr as [Hr|Hr]; [left|by right]. apply NoDup_cons in Hr as [Hr _]. set_solver. }
  rewrite fmap_cons, reverse_cons. cbn [run_jobs]. rewrite E. cbn [mbind option_bind].
  rewrite <- (assoc_L (++)). apply (IH (i :: dn) fs1 Hd1).
  destruct Hr as [Hr|Hr]; [left|by right]. by rewrite <- Permutation_middle.
Qed.

(** ** Both programs *)

Lemma values_part k i : values k (part n i all_pairs) = if decide (Z.rem (ihash k) n = i) then values k all_pairs else [].
Proof.
  unfold values, part. rewrite list_filter_filter. case_decide as E.
  - f_equal. apply list_filter_iff. naive_solver.
  - erewrite (list_filter_iff _ (fun _ => False)); [|naive_solver]. clear Hutf8. by induction all_pairs.
Qed.

Lemma output_ok dn fs :
  reduces_done dn fs -> Forall (fun i => i ∈ dn) (seqZ 0 n) -> lines_ok all_pairs (output n fs).
Proof.
  intros (_ & Hl & _) Hall. rewrite Forall_forall in Hall. unfold output.
  assert (Hm : forall i k o, i ∈ seqZ 0 n -> (k, o) ∈ default [] (outs fs !! i) <->
            Z.rem (ihash k) n = i /\ values k all_pairs <> [] /\ o = reducef k (values k all_pairs)).
  { intros i k o Hi. destruct (Hl i (Hall i Hi)) as [_ ->]. rewrite values_part. case_decide; naive_solver. }
  assert (Hm' : forall k o, (k, o) ∈ (seqZ 0 n ≫= fun i => default [] (outs fs !! i)) <->
            values k all_pairs <> [] /\ o = reducef k (values k all_pairs)).
  { intros k o. rewrite list_elem_of_bind. split.
    - intros (i & Hk & Hi). apply (Hm i k o Hi) in Hk. tauto.
    - intros Hk. exists (Z.rem (ihash k) n). pose proof (ihash_rem k n Hn).
      assert (Hi : Z.rem (ihash k) n ∈ seqZ 0 n) by (apply elem_of_seqZ; lia).
      split; [|done]. by apply Hm. }
  split; [|done]. apply NoDup_fmap_fst; [intros k o o' [_ ->]%Hm' [_ ->]%Hm'; done|].
  apply NoDup_bind; [| |apply NoDup_seqZ].
  - intros i i' [k o] Hi Hi' H H'. apply Hm in H as [<- _]; [|done]. by apply Hm in H' as [<- _].
  - intros i Hi. destruct (Hl i (Hall i Hi)) as [Hd _]. by eapply NoDup_fmap_1.
Qed.

(** All map jobs, then all reduce jobs: the lines of all mr-out files. *)
Lemma distributed_lines (js rs : list Z)
  (Hjs : Forall (fun j => 0 <= j < Z.of_nat (length files)) js)
  (Hjs_all : Forall (fun j => j ∈ js) (seqZ 0 (Z.of_nat (length files))))
  (Hrs_all : Forall (fun i => i ∈ rs) (seqZ 0 n))
  (Hrs : NoDup rs \/ forall ls, decode_out ls = []) :
  exists fs', run_jobs ((map_reply files n <$> js) ++ (reduce_reply <$> rs))%list fs0 = Some fs' /\ lines_ok all_pairs (output n fs').
Proof.
  destruct (map_phase js [] fs0 (reduce_reply <$> rs) maps_done_nil Hjs) as (fs1 & -> & _ & Ho & Hc).
  destruct (reduce_phase rs [] fs1) as (fs' & E & Hd).
  - split_and!; [|by intros ? ?%elem_of_nil|by intros ? _; rewrite Ho].
    intros j i. rewrite Hc. apply decide_ext. rewrite app_nil_r, elem_of_reverse. split; [tauto|].
    intros Hne. split; [|done]. rewrite Forall_forall in Hjs_all. apply Hjs_all, elem_of_seqZ.
    unfold chunk in Hne. case_decide; [lia|done].
  - by rewrite app_nil_r.
  - exists fs'. split; [done|]. eapply output_ok; [done|]. eapply Forall_impl; [done|]. intros i Hi.
    by rewrite app_nil_r, elem_of_reverse.
Qed.

(** C16.  Run every map job, in any order and any number of times, then every reduce
    job in any order, each once (or any number of times if the lines of mr-out files
    do not decode as JSON pairs).  If the keys and values that mapf makes of the inputs
    are UTF-8, so that the JSON of the intermediate files does not change them, and the
    result of reducef does not depend on the order of the values (sort.Sort is not
    stable), then no job fails, mrsequential on the same inputs does not fail, and the
    lines of all mr-out files together are exactly the lines of mrsequential. *)
Theorem mr_equals_sequential (js rs : list Z)
  (Hjs : Forall (fun j => 0 <= j < Z.of_nat (length files)) js)
  (Hjs_all : Forall (fun j => j ∈ js) (seqZ 0 (Z.of_nat (length files))))
  (Hrs_all : Forall (fun i => i ∈ rs) (seqZ 0 n))
  (Hrs : NoDup rs \/ forall ls, decode_out ls = []) :
  exists fs' lines,
    run_jobs ((map_reply files n <$> js) ++ (reduce_reply <$> rs))%list fs0 = Some fs'
    /\ mrsequential mapf reducef sort files fs0 = Some lines
    /\ output n fs' ≡ₚ lines.
Proof.
  destruct (distributed_lines js rs Hjs Hjs_all Hrs_all Hrs) as (fs' & E & Hl).
  exists fs', (reduce_lines reducef (sort all_pairs)). split_and!; [done| |].
  - unfold mrsequential. by rewrite seq_intermediate_all.
  - apply (lines_ok_perm all_pairs); [done|by apply reduce_lines_ok].
Qed.

End Equivalence.
End MrEquiv.

(** ** A word count on two files *)
Module WordCount.
Import Mr MrWorker MrEquiv.

Definition mapf (_ contents : string) : list KeyValue := (fun w => mkKeyValue w "1") <$> String.words contents.
Definition reducef (_ : string) (vs : list string) : string := pretty (length vs).

Definition key_le (a b : KeyValue) : Prop := String.le (Key a) (Key b).
#[export] Instance key_le_dec a b : Decision (key_le a b) := String.le_dec (Key a) (Key b).
#[export] Instance key_le_trans : Transitive key_le.
Proof. intros a b c. unfold key_le. by intros; etrans. Qed.
#[export] Instance key_le_total : Total key_le.
Proof. intros a b. unfold key_le. apply String.le_total. Qed.

Definition sort : list KeyValue -> list KeyValue := merge_sort key_le.

Definition glob (fs : FS) (i : Z) : list File :=
  ((fun k => InterFile k.1 k.2) <$> filter (fun k => k.2 = i) (map_to_list (inter fs)).*1)
  ++ (if outs fs !! i then [OutFile i] else []).

Lemma sort_correct l : sort l ≡ₚ l /\ in_key_order (sort l).
Proof.
  split; [apply merge_sort_Permutation|].
  assert (Hs : StronglySorted key_le (sort l)) by (apply StronglySorted_merge_sort; apply _).
  unfold in_key_order. induction Hs as [|a l' _ IH Hf]; constructor; [done|].
  eapply Forall_impl; [done|]. cbn. unfold key_le, String.le, Less, String.leb, String.ltb. intros b Hb.
  rewrite String.compare_antisym. by destruct (String.compare (Key a) (Key b)).
Qed.

Lemma glob_correct : glob_ok glob.
Proof.
  intros fs i. unfold glob. split.
  - apply NoDup_app. split_and!.
    + apply NoDup_fmap_2; [by intros [? ?] [? ?] [= -> ->]|]. apply NoDup_filter, NoDup_fst_map_to_list.
    + intros f (j & -> & _)%list_elem_of_fmap. destruct (outs fs !! i); set_solver.
    + destruct (outs fs !! i); [apply NoDup_singleton|constructor].
  - intros f. rewrite elem_of_app, list_elem_of_fmap. destruct f as [j a|a]; cbn; rewrite bool_decide_eq_true.
    + split.
      * intros [([j' a'] & [= -> ->] & [Ha Hin]%list_elem_of_filter)|Hx]; [|destruct (outs fs !! i); set_solver].
        apply list_elem_of_fmap in Hin as ([k v] & Hk & Hin%elem_of_map_to_list). cbn in *. subst k. by eauto.
      * intros [[v Hv] ->]. left. exists (j, i). split; [done|]. apply list_elem_of_filter. split; [done|].
        apply list_elem_of_fmap. exists (j, i, v). split; [done|]. by apply elem_of_map_to_list.
    + split.
      * intros [(? & ? & _)|Hx]; [done|]. destruct (outs fs !! i) eqn:E; set_solver.
      * intros [[v Hv] ->]. right. rewrite Hv. set_solver.
Qed.

Definition inputs0 : gmap string string := <["a" := "to be or not"]> (<["b" := "not to be"]> ∅).
Definition fs0 : FS := mkFS inputs0 ∅ ∅.

Lemma mr_equals_sequential_witness :
  exists fs' lines,
    run_jobs mapf reducef sort glob (fun _ => [])
      ((map_reply ["a"; "b"] 2 <$> [1; 0; 1]) ++ (reduce_reply <$> [1; 0]))%list fs0 = Some fs'
    /\ mrsequential mapf reducef sort ["a"; "b"] fs0 = Some lines
    /\ output 2 fs' ≡ₚ lines.
Proof.
  apply mr_equals_sequential.
  - lia.
  - repeat constructor; by eexists.
  - done.
  - done.
  - apply (bool_decide_unpack _). vm_compute. exact I.
  - apply sort_correct.
  - apply glob_correct.
  - intros k vs vs' Hp. unfold reducef. by rewrite Hp.
  - repeat constructor; cbn; lia.
  - vm_compute. repeat constructor.
  - vm_compute. repeat constructor.
  - left. by apply (bool_decide_unpack _).
Defined.

(** A key that is not UTF-8: the intermediate file has another key, and so has the output. *)
Definition latin1 : string := String (Ascii.ascii_of_nat 233) EmptyString.

Example json_changes_key : json_string latin1 = replacement EmptyString.
Proof. reflexivity. Qed.

Example latin1_output :
  let mapf (_ _ : string) := [mkKeyValue latin1 "1"] in
  mrsequential mapf reducef sort ["a"] fs0 = Some [(latin1, "1")]
  /\ (output 1 <$> run_jobs mapf reducef sort glob (fun _ => []) ((map_reply ["a"] 1 <$> [0]) ++ (reduce_reply <$> [0]))%list fs0)
     = Some [(replacement EmptyString, "1")].
Proof. split; vm_compute; reflexivity. Qed.

Example word_count_output :
  mrsequential mapf reducef sort ["a"; "b"] fs0 = Some [("be", "2"); ("not", "2"); ("or", "1"); ("to", "2")].
Proof. by vm_compute. Qed.

End WordCount.
