(* ===== verification/MrApps.v ===== *)
(** The MapReduce applications (src/src/mrapps): wc.go, indexer.go, crash.go, nocrash.go,
    early_exit.go, and mtiming.go, rtiming.go and jobcount.go, whose processes count each
    other's files in the working directory.

    A text is taken apart by strings.FieldsFunc: [runes] gives the encoded runes of a string,
    [letter] is unicode.IsLetter.  [pretty] prints a number as strconv.Itoa does.  Sleeping is
    left out; a worker that maybeCrash ends does not return. *)
From Stdlib Require Import ZArith Lia Ascii.
From stdpp Require Import base list numbers strings sorting pretty gmap relations.
From S2P Require Import Prelude KvModel MrCoordinator MrWorker MrEquiv.

#[local] Open Scope string_scope.
Import Mr MrWorker MrEquiv.

Section Apps.
Context (runes : string -> list string) (letter : string -> bool).

(** strings.FieldsFunc with the separators [!unicode.IsLetter]: [cur] is the word so far. *)
Fixpoint fields_from (cur : list string) (l : list string) : list (list string) :=
  match l with
  | [] => if decide (cur = []) then [] else [cur]
  | r :: l' =>
      if letter r then fields_from (cur ++ [r]) l'
      else if decide (cur = []) then fields_from [] l' else cur :: fields_from [] l'
  end.
Definition FieldsFunc (s : string) : list string := String.concat "" <$> fields_from [] (runes s).

(** ** wc.go *)
Definition wc_Map (filename contents : string) : list KeyValue := (fun w => mkKeyValue w "1") <$> FieldsFunc contents.
Definition wc_Reduce (key : string) (vs : list string) : string := pretty (length vs).

(** ** indexer.go; [iter] is the order in which Go ranges over the map *)
Context (iter : gset string -> list string).
Definition indexer_Map (document value : string) : list KeyValue :=
  (fun w => mkKeyValue w document) <$> iter (list_to_set (FieldsFunc value)).
Definition indexer_Reduce (key : string) (vs : list string) : string :=
  pretty (length vs) +:+ " " +:+ String.concat "," (sort_strings vs).

(** ** crash.go and nocrash.go; [rr] is the random number, None: the process exits *)
Definition crash_maybeCrash (rr : Z) : option unit := if (rr <? 330)%Z then None else Some tt.
Definition nocrash_maybeCrash (rr : Z) : option unit := if false && (rr <? 500)%Z then None else Some tt.

Definition crash_pairs (filename contents : string) : list KeyValue :=
  [mkKeyValue "a" filename; mkKeyValue "b" (pretty (String.length filename));
   mkKeyValue "c" (pretty (String.length contents)); mkKeyValue "d" "xyzzy"].
Definition crash_join (vs : list string) : string := String.concat " " (sort_strings vs).

Definition crash_Map (rr : Z) (filename contents : string) : option (list KeyValue) :=
  _ ← crash_maybeCrash rr; Some (crash_pairs filename contents).
Definition crash_Reduce (rr : Z) (key : string) (vs : list string) : option string := _ ← crash_maybeCrash rr; Some (crash_join vs).
Definition nocrash_Map (rr : Z) (filename contents : string) : option (list KeyValue) :=
  _ ← nocrash_maybeCrash rr; Some (crash_pairs filename contents).
Definition nocrash_Reduce (rr : Z) (key : string) (vs : list string) : option string := _ ← nocrash_maybeCrash rr; Some (crash_join vs).

(** ** early_exit.go *)
Definition early_exit_Map (filename contents : string) : list KeyValue := [mkKeyValue filename "1"].
Definition early_exit_Reduce (key : string) (vs : list string) : string := pretty (length vs).

(** ** mtiming.go and rtiming.go *)
Definition mtiming_Reduce (key : string) (vs : list string) : string := String.concat " " (sort_strings vs).
Definition rtiming_Map (filename contents : string) : list KeyValue :=
  (fun k => mkKeyValue k "1") <$> ["a"; "b"; "c"; "d"; "e"; "f"; "g"; "h"; "i"; "j"].

(** ** The order of the values does not matter *)

Lemma sort_strings_unique vs vs' : vs ≡ₚ vs' -> sort_strings vs = sort_strings vs'.
Proof.
  intros Hp. apply (StronglySorted_unique String.le); [apply StronglySorted_merge_sort; apply _..|].
  unfold sort_strings. by rewrite !merge_sort_Permutation.
Qed.

Definition order_free (reducef : string -> list string -> string) : Prop := forall k vs vs', vs ≡ₚ vs' -> reducef k vs = reducef k vs'.

Lemma apps_order_free :
  order_free wc_Reduce /\ order_free indexer_Reduce /\ order_free early_exit_Reduce /\ order_free mtiming_Reduce
  /\ order_free (fun _ => crash_join).
Proof.
  unfold wc_Reduce, indexer_Reduce, early_exit_Reduce, mtiming_Reduce, crash_join.
  split_and!; intros k vs vs' Hp; by rewrite ?(Permutation_length Hp), ?(sort_strings_unique _ _ Hp).
Qed.

(** ** Words *)

(** Every word is a non-empty run of letters. *)
Lemma fields_letters cur l w :
  Forall (fun r => letter r = true) cur -> w ∈ fields_from cur l -> w <> [] /\ Forall (fun r => letter r = true) w.
Proof.
  revert cur. induction l as [|r l IH]; intros cur Hc; simpl.
  { case_decide as E; [by intros ?%elem_of_nil|]. by intros ->%list_elem_of_singleton. }
  destruct (letter r) eqn:Hr; [apply IH; apply Forall_app; split; [done|by repeat constructor]|].
  case_decide as E; [by apply IH; constructor|]. intros [->|Hw]%elem_of_cons; [done|]. by eapply IH; [constructor|].
Qed.

(** No letter is lost or made up: the letters of a text are those of its words. *)
Lemma fields_concat cur l :
  Forall (fun r => letter r = true) cur -> concat (fields_from cur l) = (cur ++ filter (fun r => letter r = true) l)%list.
Proof.
  revert cur. induction l as [|r l IH]; intros cur Hc; simpl.
  { case_decide as E; [by subst|]. simpl. by rewrite !app_nil_r. }
  destruct (letter r) eqn:Hr.
  - rewrite IH by (apply Forall_app; split; [done|by repeat constructor]). rewrite filter_cons, decide_True by done. by rewrite <- app_assoc.
  - rewrite filter_cons, (decide_False (P := letter r = true)) by congruence. case_decide as E; [subst; by apply IH|]. simpl. by rewrite IH.
Qed.

Definition occurrences (w : string) (ws : list string) : nat := length (filter (fun x => x = w) ws).

Lemma values_wc w ws : values w ((fun w => mkKeyValue w "1") <$> ws) = replicate (occurrences w ws) "1".
Proof.
  unfold values, occurrences. induction ws as [|x ws IH]; [done|]. rewrite fmap_cons, !filter_cons. simpl.
  case_decide; csimpl; [by f_equal|done].
Qed.

(** The words of all input files. *)
Definition all_words (files : list string) (fs : FS) : list string := files ≫= fun f => FieldsFunc (default "" (inputs fs !! f)).

(** The pairs of wc are UTF-8 when letters are. *)
Lemma wc_pairs_utf8 (Hletter : forall r, letter r = true -> valid_rune r = true) files fs :
  Forall (fun p => json_pair p = p) (all_pairs wc_Map files fs).
Proof.
  apply Forall_forall. intros p (f & Hp & _)%list_elem_of_bind. unfold file_pairs in Hp. destruct (inputs fs !! f) as [c|]; [|by apply elem_of_nil in Hp].
  apply list_elem_of_fmap in Hp as (w & -> & (rs & -> & Hw)%list_elem_of_fmap). unfold json_pair. simpl. f_equal. apply json_runes.
  destruct (fields_letters [] (runes c) rs ltac:(constructor) Hw) as [_ Hl]. eapply Forall_impl; [exact Hl|]. intros r. apply Hletter.
Qed.

(** C26.  Distributed word count: run every map job of wc, in any order and any number of times,
    and then every reduce job; no job fails, and the mr-out files together have, for each word
    of the inputs and for nothing else, exactly one line with the number of its occurrences in
    all inputs.  Of unicode.IsLetter only this is used: what it accepts is a well-formed rune
    (it rejects the rune that stands for an invalid byte), so that the words pass unchanged
    through the JSON of the intermediate files. *)
Theorem wordcount_correct (sort : list KeyValue -> list KeyValue) (glob : FS -> Z -> list File)
    (decode_out : list (string * string) -> list KeyValue) (files : list string) (n : Z) (fs0 : FS) (js rs : list Z)
  (Hletter : forall r, letter r = true -> valid_rune r = true)
  (Hsort : forall l, sort l ≡ₚ l /\ in_key_order (sort l)) (Hglob : glob_ok glob) (Hn : (0 < n)%Z)
  (Hinput : Forall (fun f => is_Some (inputs fs0 !! f)) files) (Hinter : inter fs0 = ∅) (Houts : outs fs0 = ∅)
  (Hjs : Forall (fun j => (0 <= j < Z.of_nat (length files))%Z) js)
  (Hjs_all : Forall (fun j => j ∈ js) (seqZ 0 (Z.of_nat (length files))))
  (Hrs_all : Forall (fun i => i ∈ rs) (seqZ 0 n)) (Hrs : NoDup rs \/ forall ls, decode_out ls = []) :
  exists fs', run_jobs wc_Map wc_Reduce sort glob decode_out ((map_reply files n <$> js) ++ (reduce_reply <$> rs)) fs0 = Some fs'
    /\ NoDup (output n fs').*1
    /\ forall w d, (w, d) ∈ output n fs' <-> w ∈ all_words files fs0 /\ d = pretty (occurrences w (all_words files fs0)).
Proof.
  destruct (distributed_lines wc_Map wc_Reduce sort glob decode_out files n fs0 Hn Hinput Hinter Houts
    (wc_pairs_utf8 Hletter files fs0) Hsort Hglob (proj1 apps_order_free) js rs Hjs Hjs_all Hrs_all Hrs) as (fs' & Hrun & Hnd & Hlines).
  exists fs'. split; [done|]. split; [done|]. intros w d. rewrite Hlines.
  assert (Hp : all_pairs wc_Map files fs0 = (fun w => mkKeyValue w "1") <$> all_words files fs0).
  { unfold all_pairs, all_words. clear - Hinput. induction Hinput as [|f files [c Hc] _ IH]; [done|].
    csimpl. rewrite fmap_app, <- IH. unfold file_pairs at 1. by rewrite Hc. }
  rewrite Hp, values_wc. unfold wc_Reduce. rewrite length_replicate.
  assert (Hocc : replicate (occurrences w (all_words files fs0)) "1" <> [] <-> w ∈ all_words files fs0); [|by rewrite Hocc].
  unfold occurrences. split.
  - intros Hne. destruct (filter (fun x => x = w) (all_words files fs0)) as [|x l] eqn:E; [done|].
    assert (Hx : x ∈ filter (fun x => x = w) (all_words files fs0)) by (rewrite E; left). by apply list_elem_of_filter in Hx as [-> ?].
  - intros Hin E. assert (Hx : w ∈ filter (fun x => x = w) (all_words files fs0)) by (by apply list_elem_of_filter).
    destruct (filter _ _); [by apply elem_of_nil in Hx|done].
Qed.

End Apps.

(** ** mtiming.go, rtiming.go and jobcount.go: counting each other's files

    A process is its number.  The working directory is the set of the names in it (of ASCII
    characters); os.Remove of a name that is not there makes the process panic.  What Sscanf
    does with the format of nparallel is written out in [scan_worker]. *)
Section Timing.
#[local] Open Scope Z_scope.

Definition digit (a : ascii) : option Z :=
  let k := Z.of_nat (nat_of_ascii a) in if (48 <=? k) && (k <=? 57) then Some (k - 48) else None.

(** The number at the start of the text; [acc] has been read. *)
Fixpoint digits (acc : Z) (s : string) : Z :=
  match s with
  | EmptyString => acc
  | String a s' => match digit a with Some d => digits (10 * acc + d) s' | None => acc end
  end.

Definition unsigned (s : string) : option Z :=
  match s with
  | EmptyString => None
  | String a _ => if decide (is_Some (digit a)) then Some (digits 0 s) else None
  end.

(** A newline is not skipped and is an error. *)
Fixpoint skip_spaces (s : string) : string :=
  match s with
  | String a s' => if decide (nat_of_ascii a ∈ [9; 11; 12; 13; 32]%nat) then skip_spaces s' else s
  | EmptyString => s
  end.

(** %d: a sign and digits, within the range of int. *)
Definition scan_int (s : string) : option Z :=
  z ← match skip_spaces s with
      | String "-" s' => Z.opp <$> unsigned s'
      | String "+" s' => unsigned s'
      | s' => unsigned s'
      end;
  if (- 2 ^ 63 <=? z) && (z <? 2 ^ 63) then Some z else None.

Fixpoint strip_prefix (p s : string) : option string :=
  match p, s with
  | EmptyString, _ => Some s
  | String a p', String b s' => if decide (a = b) then strip_prefix p' s' else None
  | String _ _, EmptyString => None
  end.

Definition worker_prefix (phase : string) : string := "mr-worker-" +:+ phase +:+ "-".
Definition worker_file (phase : string) (pid : Z) : string := worker_prefix phase +:+ pretty pid.

(** [fmt.Sscanf(name, pat, &xpid)], when it reads one number without an error *)
Definition scan_worker (phase name : string) : option Z := rest ← strip_prefix (worker_prefix phase) name; scan_int rest.

(** Signal 0 can be sent to [pid]. *)
Definition count_alive (phase : string) (alive : gset Z) (names : list string) : nat :=
  length (filter (fun name => match scan_worker phase name with Some pid => bool_decide (pid ∈ alive) | None => false end = true) names).

(** nparallel up to its sleep, and after it. *)
Definition nparallel_enter (phase : string) (pid : Z) (alive : gset Z) (dir : gset string) : gset string * nat :=
  let dir' := {[worker_file phase pid]} ∪ dir in (dir', count_alive phase alive (elements dir')).
Definition nparallel_leave (phase : string) (pid : Z) (dir : gset string) : option (gset string) :=
  if decide (worker_file phase pid ∈ dir) then Some (dir ∖ {[worker_file phase pid]}) else None.

(** rtiming.go has the same function. *)
Definition rtiming_enter := nparallel_enter.
Definition rtiming_leave := nparallel_leave.

(** [ts] is the time of the call, printed *)
Definition mtiming_Map (pid : Z) (ts : string) (n : nat) : list KeyValue :=
  [mkKeyValue ("times-" +:+ pretty pid) ts; mkKeyValue ("parallel-" +:+ pretty pid) (pretty n)].
Definition rtiming_Reduce (n : nat) : string := pretty n.

(** *** Reading back what was printed *)

Lemma digit_char (x : N) : (x < 10)%N -> digit (pretty_N_char x) = Some (Z.of_N x).
Proof.
  intros Hx. assert (x = 0 \/ x = 1 \/ x = 2 \/ x = 3 \/ x = 4 \/ x = 5 \/ x = 6 \/ x = 7 \/ x = 8 \/ x = 9)%N as Hc by lia.
  by destruct_or! Hc; subst.
Qed.

Lemma digits_go (x : N) s : digits 0 (pretty_N_go x s) = digits (Z.of_N x) s.
Proof.
  revert s. induction (N.lt_wf_0 x) as [x _ IH]; intros s. destruct (decide (x = 0)%N) as [->|Hx]; [done|].
  rewrite pretty_N_go_step by lia. rewrite IH by (apply N.div_lt; lia). simpl.
  rewrite digit_char by (apply N.mod_lt; lia). f_equal. pose proof (N.div_mod' x 10). lia.
Qed.

Lemma strip_prefix_app p s : strip_prefix p (p +:+ s) = Some s.
Proof. induction p as [|a p IH]; [done|]. simpl. by rewrite decide_True. Qed.

Lemma first_digit (x : N) s : (exists a s', s = String a s' /\ is_Some (digit a)) -> exists a s', pretty_N_go x s = String a s' /\ is_Some (digit a).
Proof.
  revert s. induction (N.lt_wf_0 x) as [x _ IH]; intros s Hs. destruct (decide (x = 0)%N) as [->|Hx]; [done|].
  rewrite pretty_N_go_step by lia. apply IH; [apply N.div_lt; lia|]. eexists _, _. split; [done|]. rewrite digit_char by (apply N.mod_lt; lia). by eexists.
Qed.

Lemma scan_printed (s : string) a s' z :
  s = String a s' -> is_Some (digit a) -> digits 0 s = z -> 0 <= z < 2 ^ 63 -> scan_int s = Some z.
Proof.
  intros -> Ha Hd Hz. unfold scan_int.
  assert (Hk : skip_spaces (String a s') = String a s').
  { simpl. rewrite decide_False; [done|]. intros Hin. unfold digit in Ha. rewrite !elem_of_cons in Hin.
    destruct Ha as [d Ha]. destruct (_ && _) eqn:E; [|done]. apply andb_true_iff in E as [E1 E2]. apply Z.leb_le in E1. destruct_or! Hin; try (rewrite Hin in E1; done); try by apply elem_of_nil in Hin. }
  rewrite Hk. assert (Hu : unsigned (String a s') = Some z) by (unfold unsigned; rewrite decide_True by done; by rewrite Hd).
  assert (Hs : a <> "-"%char /\ a <> "+"%char) by (split; intros ->; by destruct Ha). destruct Hs as [Hm Hp].
  assert (E : match String a s' with String "-" s' => Z.opp <$> unsigned s' | String "+" s' => unsigned s' | s' => unsigned s' end = Some z).
  { rewrite <- Hu. destruct a as [[] [] [] [] [] [] [] []]; try done. }
  rewrite E. simpl. destruct (Z.leb_spec (- 2 ^ 63) z); [|lia]. destruct (Z.ltb_spec z (2 ^ 63)); [done|lia].
Qed.

Lemma scan_worker_file phase pid : 0 <= pid < 2 ^ 63 -> scan_worker phase (worker_file phase pid) = Some pid.
Proof.
  intros Hp. unfold scan_worker, worker_file. rewrite strip_prefix_app. simpl. destruct pid as [|p|p]; [done| |lia].
  change (pretty (Z.pos p)) with (pretty_N_go (N.pos p) "").
  rewrite pretty_N_go_step by lia. destruct (first_digit (N.pos p `div` 10) (String (pretty_N_char (N.pos p `mod` 10)) "")) as (a & s' & E & Ha).
  { eexists _, _. split; [done|]. rewrite digit_char by (apply N.mod_lt; lia). by eexists. }
  eapply scan_printed; [done|done| |done]. rewrite <- pretty_N_go_step by lia. by rewrite digits_go.
Qed.

(** *** Workers that come and go *)

Context (phase : string).
Abbreviation file := (worker_file phase).

(** [wk_used]: the numbers of all processes so far; a number is not used twice.
    [wk_inside]: the processes in nparallel, with what they have counted. *)
Record Workers := mkWorkers { wk_dir : gset string; wk_alive : gset Z; wk_used : gset Z; wk_inside : gmap Z nat }.

Inductive wstep (w : Workers) : Workers -> Prop :=
| w_spawn pid : pid ∉ wk_used w -> 0 <= pid < 2 ^ 63 ->
    wstep w (mkWorkers (wk_dir w) ({[pid]} ∪ wk_alive w) ({[pid]} ∪ wk_used w) (wk_inside w))
| w_enter pid dir' n : pid ∈ wk_alive w -> wk_inside w !! pid = None -> nparallel_enter phase pid (wk_alive w) (wk_dir w) = (dir', n) ->
    wstep w (mkWorkers dir' (wk_alive w) (wk_used w) (<[pid := n]> (wk_inside w)))
| w_leave pid dir' : is_Some (wk_inside w !! pid) -> nparallel_leave phase pid (wk_dir w) = Some dir' ->
    wstep w (mkWorkers dir' (wk_alive w) (wk_used w) (delete pid (wk_inside w)))
| w_crash pid : pid ∈ wk_alive w ->
    wstep w (mkWorkers (wk_dir w) (wk_alive w ∖ {[pid]}) (wk_used w) (delete pid (wk_inside w)))
| w_create name : scan_worker phase name = None -> wstep w (mkWorkers ({[name]} ∪ wk_dir w) (wk_alive w) (wk_used w) (wk_inside w))
| w_remove name : scan_worker phase name = None -> wstep w (mkWorkers (wk_dir w ∖ {[name]}) (wk_alive w) (wk_used w) (wk_inside w)).

Record workers_ok (w : Workers) : Prop :=
  { wo_inside : forall p, is_Some (wk_inside w !! p) -> p ∈ wk_alive w /\ file p ∈ wk_dir w;
    wo_files : forall name p, name ∈ wk_dir w -> scan_worker phase name = Some p ->
        name = file p /\ p ∈ wk_used w /\ (p ∈ wk_alive w -> is_Some (wk_inside w !! p));
    wo_alive : wk_alive w ⊆ wk_used w;
    wo_range : forall p, p ∈ wk_used w -> 0 <= p < 2 ^ 63 }.

Lemma file_inj p q : file p = file q -> p = q.
Proof. unfold worker_file. intros E%(inj (String.append _)). by apply (inj pretty). Qed.

Lemma wstep_ok w w' : workers_ok w -> wstep w w' -> workers_ok w'.
Proof.
  intros [W1 W2 W3 W4] [pid Hu Hr|pid dir' n Ha Hi [= <- <-]|pid dir' Hi Hl|pid Ha|name Hn|name Hn].
  - split; simpl; [set_solver| |set_solver|].
    + intros name p Hin Hs. destruct (W2 name p Hin Hs) as (-> & Hp & Hal). split; [done|]. split; [set_solver|].
      intros [->%elem_of_singleton|?]%elem_of_union; [done|by apply Hal].
    + intros p [->%elem_of_singleton|?]%elem_of_union; [done|by apply W4].
  - assert (Hp : 0 <= pid < 2 ^ 63) by (by apply W4, W3). split; simpl; [| |done|done].
    + intros p. rewrite lookup_insert_is_Some. intros [->|[Hne Hs]]; [set_solver|]. destruct (W1 p Hs). set_solver.
    + intros name p [->%elem_of_singleton|Hin]%elem_of_union Hs.
      * rewrite scan_worker_file in Hs by done. injection Hs as <-. split; [done|]. split; [by apply W3|]. intros _. rewrite lookup_insert_eq. by eexists.
      * destruct (W2 name p Hin Hs) as (-> & ? & Hal). split; [done|]. split; [done|]. intros Hx. rewrite lookup_insert_is_Some'. right. by apply Hal.
  - unfold nparallel_leave in Hl. case_decide as Hf; [|done]. injection Hl as <-. split; simpl; [| |done|done].
    + intros p. rewrite lookup_delete_is_Some. intros [Hne Hs]. destruct (W1 p Hs). split; [done|]. rewrite elem_of_difference, elem_of_singleton.
      split; [done|]. by intros ?%file_inj.
    + intros name p [Hin Hne]%elem_of_difference Hs. destruct (W2 name p Hin Hs) as (-> & ? & Hal). split; [done|]. split; [done|].
      intros Hx. rewrite lookup_delete_is_Some. split; [|by apply Hal]. intros ->. set_solver.
  - split; simpl; [| |set_solver|done].
    + intros p. rewrite lookup_delete_is_Some. intros [Hne Hs]. destruct (W1 p Hs). set_solver.
    + intros name p Hin Hs. destruct (W2 name p Hin Hs) as (-> & ? & Hal). split; [done|]. split; [done|].
      intros [Hx Hne]%elem_of_difference. rewrite lookup_delete_is_Some. split; [set_solver|by apply Hal].
  - split; simpl; [| |done|done].
    + intros p Hs. destruct (W1 p Hs). set_solver.
    + intros x p [->%elem_of_singleton|Hin]%elem_of_union Hs; [congruence|by apply W2].
  - split; simpl; [| |done|done].
    + intros p Hs. destruct (W1 p Hs) as [Hx Hf]. split; [done|]. rewrite elem_of_difference, elem_of_singleton. split; [done|].
      intros <-. rewrite scan_worker_file in Hn; [done|]. by apply W4, W3.
    + intros x p [Hin _]%elem_of_difference Hs. by apply W2.
Qed.

(** The files that are counted are those of the processes inside. *)
Lemma count_inside w : workers_ok w -> count_alive phase (wk_alive w) (elements (wk_dir w)) = size (wk_inside w).
Proof.
  intros [W1 W2 W3 W4]. unfold count_alive. rewrite <- size_dom.
  transitivity (length (file <$> elements (dom (wk_inside w)))); [|by rewrite length_fmap].
  apply Permutation_length, NoDup_Permutation; [apply NoDup_filter, NoDup_elements|apply NoDup_fmap_2; [exact file_inj|apply NoDup_elements]|].
  intros name. rewrite list_elem_of_filter, list_elem_of_fmap, elem_of_elements. split.
  - intros [Hc Hin]. destruct (scan_worker phase name) as [p|] eqn:Hs; [|done]. apply bool_decide_eq_true_1 in Hc.
    destruct (W2 name p Hin Hs) as (-> & _ & Hi). exists p. split; [done|]. apply elem_of_elements, elem_of_dom. by apply Hi.
  - intros (p & -> & Hp). apply elem_of_elements, elem_of_dom in Hp. destruct (W1 p Hp) as [Ha Hf]. split; [|done].
    rewrite scan_worker_file by (by apply W4, W3). by rewrite bool_decide_eq_true_2.
Qed.

(** The workers of mtiming and rtiming count exactly: while workers start, crash and leave
    their files behind, and other files come and go, nparallel returns the number of
    processes that are in it, its own included, and finds its file when it removes it. *)
Theorem nparallel_exact w0 w pid :
  wk_inside w0 = ∅ -> wk_alive w0 = ∅ -> wk_used w0 = ∅ -> (forall name, name ∈ wk_dir w0 -> scan_worker phase name = None) -> rtc wstep w0 w ->
  (pid ∈ wk_alive w -> wk_inside w !! pid = None -> snd (nparallel_enter phase pid (wk_alive w) (wk_dir w)) = S (size (wk_inside w)))
  /\ (is_Some (wk_inside w !! pid) -> is_Some (nparallel_leave phase pid (wk_dir w))).
Proof.
  intros E1 E2 E3 Hd Hr. assert (Hok : workers_ok w).
  { revert Hr. apply rtc_preserves; [intros x y; apply wstep_ok|]. split; rewrite ?E1, ?E2, ?E3.
    - intros p [? ?]. by rewrite lookup_empty in *.
    - intros name p Hin Hs. by rewrite Hd in Hs.
    - done.
    - intros p ?. set_solver. }
  split.
  - intros Ha Hi. pose proof (w_enter w pid _ _ Ha Hi eq_refl) as Hs. simpl in Hs.
    rewrite <- (map_size_insert_None pid (snd (nparallel_enter phase pid (wk_alive w) (wk_dir w))) (wk_inside w) Hi).
    exact (count_inside _ (wstep_ok _ _ Hok Hs)).
  - intros Hi. unfold nparallel_leave. destruct (wo_inside _ Hok _ Hi) as [_ Hf]. rewrite decide_True by done. by eexists.
Qed.

(** *** jobcount.go *)

Definition jobcount_file (pid : Z) (count : nat) : string := "mr-worker-jobcount-" +:+ pretty pid +:+ "-" +:+ pretty count.

(** The global variable [count] of each process, and the directory. *)
Definition jobcount_Map (pid : Z) (st : gmap Z nat * gset string) : gmap Z nat * gset string * list KeyValue :=
  let count := default 0%nat (fst st !! pid) in
  (<[pid := (count + 1)%nat]> (fst st), {[jobcount_file pid count]} ∪ snd st, [mkKeyValue "a" "x"]).

Definition is_jobcount (name : string) : bool := bool_decide (is_Some (strip_prefix "mr-worker-jobcount" name)).
Definition jobcount_Reduce (dir : gset string) : string := pretty (length (filter (fun name => is_jobcount name = true) (elements dir))).

Definition jobcount_maps (pids : list Z) (st : gmap Z nat * gset string) : gmap Z nat * gset string :=
  foldl (fun st pid => fst (jobcount_Map pid st)) st pids.

Lemma jobcount_file_inj p q j k : 0 <= p -> 0 <= q -> jobcount_file p j = jobcount_file q k -> p = q /\ j = k.
Proof.
  intros Hp Hq E. unfold jobcount_file in E. apply (inj (String.append _)) in E.
  destruct (split_at "-" (pretty p) (pretty q) (pretty j) (pretty k)) as [E1 E2]; [by apply pretty_free..|done|].
  split; [by apply (inj pretty)|by apply (inj pretty)].
Qed.

Lemma jobcount_is p k : is_jobcount (jobcount_file p k) = true.
Proof. unfold is_jobcount. apply bool_decide_eq_true_2. unfold jobcount_file. simpl. by eexists. Qed.

(** The job count is exact: however the Map jobs are spread over processes, Reduce prints
    how many there were. *)
Theorem jobcount_exact (pids : list Z) dir0 :
  Forall (fun p => 0 <= p) pids -> (forall name, name ∈ dir0 -> is_jobcount name = false) ->
  jobcount_Reduce (snd (jobcount_maps pids (∅, dir0))) = pretty (length pids).
Proof.
  intros Hp Hd. unfold jobcount_Reduce. f_equal.
  assert (Hinv : (forall name, name ∈ snd (jobcount_maps pids (∅, dir0)) -> is_jobcount name = true ->
              exists p k, 0 <= p /\ name = jobcount_file p k /\ (k < default 0%nat (fst (jobcount_maps pids (∅, dir0)) !! p))%nat)
          /\ length (filter (fun name => is_jobcount name = true) (elements (snd (jobcount_maps pids (∅, dir0))))) = length pids); [|by destruct Hinv].
  induction pids as [|pid pids IH] using rev_ind.
  - simpl. split; [intros name Hin Hj; by rewrite Hd in Hj|]. destruct (filter _ _) as [|x l] eqn:E; [done|].
    assert (Hx : x ∈ filter (fun name => is_jobcount name = true) (elements dir0)) by (rewrite E; left).
    apply list_elem_of_filter in Hx as [Hj Hin%elem_of_elements]. by rewrite Hd in Hj.
  - apply Forall_app in Hp as [Hp [Hpid _]%Forall_cons]. destruct (IH Hp) as [I1 I2]. unfold jobcount_maps in *. rewrite foldl_app. simpl.
    set (st := foldl _ (∅, dir0) pids) in *. set (k := default 0%nat (fst st !! pid)).
    assert (Hnew : jobcount_file pid k ∉ snd st).
    { intros Hin. destruct (I1 _ Hin (jobcount_is _ _)) as (p & j & Hp0 & E & Hj). apply jobcount_file_inj in E as [<- <-]; [|done..]. unfold k in Hj. lia. }
    split.
    + intros name [->%elem_of_singleton|Hin]%elem_of_union Hj.
      * exists pid, k. split; [done|]. split; [done|]. rewrite lookup_insert_eq. simpl. lia.
      * destruct (I1 _ Hin Hj) as (p & j & Hp0 & -> & Hlt). exists p, j. split; [done|]. split; [done|].
        destruct (decide (p = pid)) as [->|Hne]; [rewrite lookup_insert_eq; simpl; fold k in Hlt; lia|by rewrite lookup_insert_ne].
    + rewrite (elements_union_singleton _ _ Hnew), filter_cons, decide_True by apply jobcount_is. simpl. rewrite I2, length_app. simpl. lia.
Qed.

End Timing.

(** ** Two files of ASCII text *)
Module WcDemo.

Fixpoint bytes_of (s : string) : list string :=
  match s with EmptyString => [] | String a s' => String a EmptyString :: bytes_of s' end.
Definition ascii_letter (r : string) : bool :=
  match r with
  | String a EmptyString => within 65 90 a || within 97 122 a
  | _ => false
  end.

Lemma ascii_letters a : within 65 90 a || within 97 122 a = true -> (rune_size a =? 1)%nat = true.
Proof. by destruct a as [[] [] [] [] [] [] [] []]. Qed.

Lemma wordcount_correct_witness :
  all_words bytes_of ascii_letter ["a"; "b"] WordCount.fs0 = ["to"; "be"; "or"; "not"; "not"; "to"; "be"]
  /\ exists fs', run_jobs (wc_Map bytes_of ascii_letter) wc_Reduce WordCount.sort WordCount.glob (fun _ => [])
        ((map_reply ["a"; "b"] 2 <$> [1; 0; 1]%Z) ++ (reduce_reply <$> [1; 0]%Z)) WordCount.fs0 = Some fs'
    /\ NoDup (output 2 fs').*1
    /\ forall w d, (w, d) ∈ output 2 fs' <-> w ∈ all_words bytes_of ascii_letter ["a"; "b"] WordCount.fs0
         /\ d = pretty (occurrences w (all_words bytes_of ascii_letter ["a"; "b"] WordCount.fs0)).
Proof.
  split; [vm_compute; reflexivity|].
  apply (wordcount_correct bytes_of ascii_letter WordCount.sort WordCount.glob (fun _ => []) ["a"; "b"] 2 WordCount.fs0 [1; 0; 1]%Z [1; 0]%Z).
  - intros [|a [|b r]]; try done. apply ascii_letters.
  - apply WordCount.sort_correct.
  - apply WordCount.glob_correct.
  - lia.
  - repeat constructor; by eexists.
  - done.
  - done.
  - repeat constructor; cbn; lia.
  - vm_compute. repeat constructor.
  - vm_compute. repeat constructor.
  - right. done.
Defined.

End WcDemo.
