(* ===== verification/Labgob.v ===== *)
(** The checks of src/src/labgob/labgob.go around encoding/gob: the walk over a type that
    complains about fields that gob would not send, and the look at a value that is decoded
    into.

    A type is what reflection shows of it; types may refer to each other in circles, so a
    type is a name and [desc] is its description.  [IsUpper] is unicode.IsUpper of the first
    rune of a name.  The package variables are the state; a call is taken without other
    goroutines in between.  What is printed is kept in a list. *)
From Stdlib Require Import ZArith Lia.
From stdpp Require Import base list numbers strings gmap.
From S2P Require Import Prelude.

#[local] Open Scope Z_scope.

(** reflect.Type as far as checkType looks at it: structs with their fields, the element of
    slices, arrays and pointers, maps with their element and key. *)
Inductive Desc (T : Type) :=
| Struct (fields : list (string * T))
| Elem (e : T)
| Map (elem key : T)
| Basic.
Arguments Struct {T}.
Arguments Elem {T}.
Arguments Map {T}.
Arguments Basic {T}.

Inductive Notice (T : Type) := LowerCase (field : string) (t : T) | NonDefault (what : string).
Arguments LowerCase {T}.
Arguments NonDefault {T}.

Section Labgob.
Context {T : Type} `{Countable T} (desc : T -> Desc T) (typeName : T -> string) (IsUpper : string -> bool).

Record Lab := mkLab { errorCount : Z; checked : gset T; printed : list (Notice T) }.

Abbreviation LM := (M Lab).

Definition complain (n : Notice T) : LM unit :=
  modify (fun s => mkLab (errorCount s + 1) (checked s) (printed s ++ [n])).

(** The loop over the fields of a struct [t], with what checks a type. *)
Fixpoint checkFields (check : T -> LM bool) (t : T) (fields : list (string * T)) : LM bool :=
  match fields with
  | [] => mret true
  | (name, ft) :: fields' =>
      when (negb (IsUpper name)) (complain (LowerCase name t));;
      ok ← check ft;
      if ok : bool then checkFields check t fields' else mret false
  end.

(** false: the fuel ran out. *)
Fixpoint checkType (fuel : nat) (t : T) : LM bool :=
  match fuel with
  | O => mret false
  | S fuel' =>
      seen ← gets (fun s => bool_decide (t ∈ checked s));
      if seen : bool then mret true
      else
        modify (fun s => mkLab (errorCount s) ({[t]} ∪ checked s) (printed s));;
        match desc t with
        | Struct fields => checkFields (checkType fuel') t fields
        | Elem e => checkType fuel' e
        | Map elem key => ok ← checkType fuel' elem; if ok : bool then checkType fuel' key else mret false
        | Basic => mret true
        end
  end.

(** *** The value that is decoded into *)

(** reflect.Value as far as checkDefault1 looks at it; a pointer is followed in a heap. *)
Inductive Value :=
| VStruct (fields : list (string * Value))
| VPtr (p : option nat)
| VBasic (t : T) (zero : bool)
| VOther.

Context (deref : nat -> Value).

(** [k] is 4 - depth: how many levels are left. *)
Fixpoint checkDefault1 (k : nat) (name : string) (v : Value) : LM unit :=
  match k with
  | O => mret tt
  | S k' =>
      match v with
      | VStruct fields =>
          m_for fields (fun '(n, vv) => checkDefault1 k' (if decide (name = "") then n else (name +:+ "." +:+ n)%string) vv)
      | VPtr None => mret tt
      | VPtr (Some p) => checkDefault1 k' name (deref p)
      | VBasic t zero =>
          when (negb zero)
            (c ← gets errorCount;
             when (c <? 1) (modify (fun s => mkLab (errorCount s) (checked s) (printed s ++ [NonDefault (if decide (name = "") then typeName t else name)])));;
             modify (fun s => mkLab (errorCount s + 1) (checked s) (printed s)))
      | VOther => mret tt
      end
  end.

(** A nil interface has no value. *)
Definition checkDefault (value : option Value) : LM unit :=
  match value with None => mret tt | Some v => checkDefault1 3 "" v end.

(** *** The wrappers

    [t] is the dynamic type of the argument; a nil interface has none, and asking it for
    its kind panics.  [gob] is what encoding/gob does with the argument. *)
Definition checkValue (fuel : nat) (t : option T) : LM bool :=
  match t with Some t => checkType fuel t | None => lift Panic end.

Definition Encode {R : Type} (fuel : nat) (t : option T) (gob : R) : LM R := checkValue fuel t;; mret gob.
Definition EncodeValue {R : Type} (fuel : nat) (t : option T) (gob : R) : LM R := checkValue fuel t;; mret gob.
Definition Decode {R : Type} (fuel : nat) (t : option T) (v : option Value) (gob : R) : LM R :=
  checkValue fuel t;; checkDefault v;; mret gob.
Definition Register {R : Type} (fuel : nat) (t : option T) (gob : R) : LM R := checkValue fuel t;; mret gob.

(** ** What checkType does *)

Definition children (t : T) : list T :=
  match desc t with Struct fields => fields.*2 | Elem e => [e] | Map elem key => [elem; key] | Basic => [] end.

(** The complaints about a type itself. *)
Definition lowers (t : T) : list (Notice T) :=
  match desc t with
  | Struct fields => (fun f => LowerCase (fst f) t) <$> filter (fun f => IsUpper (fst f) = false) fields
  | _ => []
  end.

Inductive reaches : T -> T -> Prop :=
| re_refl t : reaches t t
| re_step t c u : c ∈ children t -> reaches c u -> reaches t u.

End Labgob.
Arguments Lab T {_ _}.
