(* ===== verification/LabgobProps.v ===== *)
(** checkType terminates on every type, also on recursive ones, marks exactly the types that
    are reachable, and complains exactly once about each field of each of them. *)
From Stdlib Require Import ZArith Lia.
From stdpp Require Import base list numbers strings gmap.
From S2P Require Import Prelude Labgob.

#[local] Open Scope Z_scope.

Section Walk.
Context {T : Type} `{Countable T} (desc : T -> Desc T) (IsUpper : string -> bool).
Implicit Types (s : Lab T) (t c u : T) (roots new : list T) (own : list (Notice T)).

Abbreviation kids := (children desc).
Abbreviation lows := (lowers desc IsUpper).

(** From [s] to [s'] the types [new] have been checked, which cover the [roots], and the
    complaints are [own] and those about the new types. *)
Record walk roots own s s' new : Prop :=
  { wk_nodup : NoDup new;
    wk_new : forall x, x ∈ new -> x ∉ checked s;
    wk_checked : checked s' = checked s ∪ list_to_set new;
    wk_roots : forall x, x ∈ roots -> x ∈ checked s';
    wk_children : forall x c, x ∈ new -> c ∈ kids x -> c ∈ checked s';
    wk_reached : forall x, x ∈ new -> exists r, r ∈ roots /\ reaches desc r x;
    wk_printed : exists extra, printed s' = printed s ++ extra /\ Permutation extra (own ++ (new ≫= lows))
                   /\ errorCount s' = errorCount s + Z.of_nat (length extra) }.

Lemma walk_nil s : walk [] [] s s [].
Proof.
  split; try (by intros ? ?%elem_of_nil); try (by intros ? ? ?%elem_of_nil); [constructor|set_solver|].
  exists []. rewrite app_nil_r. split_and!; [done|done|simpl; lia].
Qed.

Lemma walk_complain s n :
  walk [] [n] s (mkLab (errorCount s + 1) (checked s) (printed s ++ [n])) [].
Proof.
  split; try (by intros ? ?%elem_of_nil); try (by intros ? ? ?%elem_of_nil); [constructor|simpl; set_solver|]. by exists [n].
Qed.

Lemma walk_trans r1 o1 s s1 n1 r2 o2 s2 n2 :
  walk r1 o1 s s1 n1 -> walk r2 o2 s1 s2 n2 -> walk (r1 ++ r2) (o1 ++ o2) s s2 (n1 ++ n2).
Proof.
  intros [A1 A2 A3 A4 A5 A6 (e1 & A7 & A8 & A9)] [B1 B2 B3 B4 B5 B6 (e2 & B7 & B8 & B9)]. split.
  - apply NoDup_app. split; [done|]. split; [|done]. intros x Hx Hx2. apply (B2 _ Hx2). rewrite A3. set_solver.
  - intros x [Hx|Hx]%elem_of_app; [by apply A2|]. intros Hs. apply (B2 _ Hx). rewrite A3. set_solver.
  - rewrite B3, A3, list_to_set_app_L. set_solver.
  - intros x [Hx|Hx]%elem_of_app; [|by apply B4]. rewrite B3. apply elem_of_union. left. by apply A4.
  - intros x c [Hx|Hx]%elem_of_app Hc; [|by eapply B5]. rewrite B3. apply elem_of_union. left. by eapply A5.
  - intros x [Hx|Hx]%elem_of_app; [destruct (A6 x Hx) as (r & ? & ?)|destruct (B6 x Hx) as (r & ? & ?)]; exists r; set_solver.
  - exists (e1 ++ e2). split; [by rewrite B7, A7, app_assoc|]. rewrite length_app, bind_app. split; [|lia].
    rewrite A8, B8. rewrite <- !app_assoc. apply Permutation_app_head. rewrite !app_assoc. apply Permutation_app_tail, Permutation_app_comm.
Qed.

Definition enter t s : Lab T := mkLab (errorCount s) ({[t]} ∪ checked s) (printed s).

Lemma walk_enter t s s' new :
  t ∉ checked s -> walk (kids t) (lows t) (enter t s) s' new -> walk [t] [] s s' (t :: new).
Proof.
  intros Ht [A1 A2 A3 A4 A5 A6 (e1 & A7 & A8 & A9)]. simpl in *. split.
  - apply NoDup_cons. split; [|done]. intros Hin. apply (A2 _ Hin). set_solver.
  - intros x [->|Hx]%elem_of_cons; [done|]. intros Hs. apply (A2 _ Hx). set_solver.
  - rewrite A3. simpl. set_solver.
  - intros x ->%list_elem_of_singleton. rewrite A3. set_solver.
  - intros x c [->|Hx]%elem_of_cons Hc; [by apply A4|by eapply A5].
  - intros x [->|Hx]%elem_of_cons; exists t; (split; [left|]); [constructor|].
    destruct (A6 x Hx) as (r & Hr & Hre). by eapply re_step.
  - by exists e1.
Qed.

(** ** Termination *)

Context (dom : gset T) (Hdom : forall t c, t ∈ dom -> c ∈ kids t -> c ∈ dom).

(** How many types may still be checked. *)
Definition left_over s : nat := size (dom ∖ checked s).

Lemma left_over_mono s s' : checked s ⊆ checked s' -> (left_over s' <= left_over s)%nat.
Proof. intros Hs. unfold left_over. apply subseteq_size. set_solver. Qed.

Lemma left_over_enter t s : t ∈ dom -> t ∉ checked s -> (left_over (enter t s) < left_over s)%nat.
Proof. intros Hd Ht. unfold left_over. apply subset_size. simpl. set_solver. Qed.

Definition walks (fuel : nat) (check : T -> M (Lab T) bool) : Prop :=
  forall t s, t ∈ dom -> (left_over s < fuel)%nat -> exists s' new, check t s = (s', Ret true) /\ walk [t] [] s s' new.

Lemma run_checkFields fuel check t fields s :
  walks fuel check -> (forall f, f ∈ fields -> snd f ∈ dom) -> (left_over s < fuel)%nat ->
  exists s' new, checkFields IsUpper check t fields s = (s', Ret true)
    /\ walk fields.*2 ((fun f => LowerCase (fst f) t) <$> filter (fun f => IsUpper (fst f) = false) fields) s s' new.
Proof.
  intros Hw. revert s. induction fields as [|[name ft] fields IH]; intros s Hin Hleft; [by exists s, []; split; [|apply walk_nil]|].
  cbn [checkFields]. rewrite filter_cons. simpl.
  set (own := if decide (IsUpper name = false) then [LowerCase name t] else []).
  assert (Hc : exists s1, when (negb (IsUpper name)) (complain (LowerCase name t)) s = (s1, Ret tt) /\ walk [] own s s1 [] /\ checked s1 = checked s).
  { unfold own. destruct (IsUpper name); simpl; [exists s; split; [done|split; [apply walk_nil|done]]|].
    eexists. split; [done|]. split; [apply walk_complain|done]. }
  destruct Hc as (s1 & R1 & W1 & E1). rewrite (bind_run _ _ _ _ _ R1).
  destruct (Hw ft s1) as (s2 & n2 & R2 & W2); [apply (Hin (name, ft)); left|unfold left_over in *; by rewrite E1|].
  rewrite (bind_run _ _ _ _ _ R2).
  destruct (IH s2) as (s3 & n3 & R3 & W3); [intros f Hf; apply Hin; by right| |].
  { eapply Nat.le_lt_trans; [|exact Hleft]. apply left_over_mono. rewrite (wk_checked _ _ _ _ _ W2), E1. set_solver. }
  exists s3, ([] ++ (n2 ++ n3)). split; [done|]. pose proof (walk_trans _ _ _ _ _ _ _ _ _ W1 (walk_trans _ _ _ _ _ _ _ _ _ W2 W3)) as W.
  unfold own in W. by destruct (decide (IsUpper name = false)).
Qed.

Lemma run_checkType fuel : walks fuel (checkType desc IsUpper fuel).
Proof.
  induction fuel as [|fuel IH]; intros t s Hd Hleft; [lia|]. cbn [checkType].
  rewrite (bind_run _ _ s s (bool_decide (t ∈ checked s))) by done. case_bool_decide as Hs.
  { exists s, []. split; [done|]. pose proof (walk_nil s) as [A1 A2 A3 A4 A5 A6 A7]. split; try done; [|by intros ? ?%elem_of_nil].
    by intros x ->%list_elem_of_singleton. }
  rewrite (bind_run _ _ s (enter t s) tt) by done. pose proof (left_over_enter t s Hd Hs) as Hlt.
  assert (Hk : exists s' new, match desc t with
      | Struct fields => checkFields IsUpper (checkType desc IsUpper fuel) t fields
      | Elem e => checkType desc IsUpper fuel e
      | Map elem key => ok ← checkType desc IsUpper fuel elem; if ok : bool then checkType desc IsUpper fuel key else mret false
      | Basic => mret true end (enter t s) = (s', Ret true) /\ walk (kids t) (lows t) (enter t s) s' new).
  { pose proof (Hdom t) as Hch. unfold children, lowers in *. destruct (desc t) as [fields|e|elem key|].
    - apply (run_checkFields fuel); [done| |lia]. intros f Hf. apply Hch; [done|]. apply list_elem_of_fmap. by exists f.
    - apply IH; [apply Hch; [done|left]|lia].
    - destruct (IH elem (enter t s)) as (s1 & n1 & R1 & W1); [apply Hch; [done|left]|lia|].
      destruct (IH key s1) as (s2 & n2 & R2 & W2); [apply Hch; [done|right; left]| |].
      { eapply Nat.le_lt_trans; [apply (left_over_mono (enter t s))|lia]. rewrite (wk_checked _ _ _ _ _ W1). set_solver. }
      exists s2, (n1 ++ n2). rewrite (bind_run _ _ _ _ _ R1). split; [done|]. exact (walk_trans _ _ _ _ _ _ _ _ _ W1 W2).
    - eexists _, []. split; [done|apply walk_nil]. }
  destruct Hk as (s' & new & Hrun & Hwalk). exists s', (t :: new). split; [done|]. by apply walk_enter.
Qed.

(** ** What is checked *)

(** No type that has been checked has a field or element that has not. *)
Definition closed s : Prop := forall t c, t ∈ checked s -> c ∈ kids t -> c ∈ checked s.

Lemma closed_reaches s t u : closed s -> t ∈ checked s -> reaches desc t u -> u ∈ checked s.
Proof. intros Hc Ht Hr. induction Hr as [|t c u Hch _ IH]; [done|]. apply IH. by eapply Hc. Qed.

(** C28.  checkType terminates and is exact: for a type whose parts all lie in a finite set of
    types, as many levels of recursion as there are unchecked types are enough, also when
    types refer to each other in circles.  When nothing was left half done before, the types
    checked afterwards are those before and those reachable from the type, again with nothing
    half done; and exactly the lower-case fields of the newly checked structs are reported,
    each once, and counted. *)
Theorem checkType_exact t s fuel :
  t ∈ dom -> closed s -> (size (dom ∖ checked s) < fuel)%nat ->
  exists s' new extra, checkType desc IsUpper fuel t s = (s', Ret true) /\ closed s'
    /\ (forall u, u ∈ checked s' <-> u ∈ checked s \/ reaches desc t u)
    /\ NoDup new /\ (forall u, u ∈ new <-> u ∈ checked s' /\ u ∉ checked s)
    /\ printed s' = printed s ++ extra /\ Permutation extra (new ≫= lows)
    /\ errorCount s' = errorCount s + Z.of_nat (length extra).
Proof.
  intros Hd Hc Hf. destruct (run_checkType fuel t s Hd Hf) as (s' & new & Hrun & [A1 A2 A3 A4 A5 A6 (extra & A7 & A8 & A9)]).
  assert (Hcl : closed s').
  { intros u c Hu Hch. rewrite A3 in Hu. apply elem_of_union in Hu as [Hu|Hu%elem_of_list_to_set]; [|by eapply A5].
    rewrite A3. apply elem_of_union. left. by eapply Hc. }
  exists s', new, extra. split_and!; try done.
  - intros u. split.
    + rewrite A3. intros [Hu|Hu%elem_of_list_to_set]%elem_of_union; [by left|right].
      destruct (A6 u Hu) as (r & ->%list_elem_of_singleton & Hr). done.
    + intros [Hu|Hr]; [rewrite A3; set_solver|]. eapply closed_reaches; [done| |done]. apply A4. left.
  - intros u. rewrite A3. split; [intros Hu; split; [set_solver|by apply A2]|]. set_solver.
Qed.

End Walk.

(** ** checkDefault *)

Section Default.
Context {T : Type} `{Countable T} (typeName : T -> string) (deref : nat -> Value (T:=T)).
Implicit Types (s : Lab T).

(** At most one warning, and none once something has been counted. *)
Definition warned s s' : Prop :=
  exists extra, printed s' = printed s ++ extra /\ checked s' = checked s /\ errorCount s <= errorCount s'
    /\ (extra = [] \/ (errorCount s < 1 /\ 1 <= errorCount s' /\ length extra = 1%nat)).

Lemma warned_refl s : warned s s.
Proof. exists []. rewrite app_nil_r. split_and!; [done|done|lia|by left]. Qed.

Lemma warned_trans s s1 s2 : warned s s1 -> warned s1 s2 -> warned s s2.
Proof.
  intros (e1 & P1 & C1 & L1 & W1) (e2 & P2 & C2 & L2 & W2). exists (e1 ++ e2). rewrite P2, P1, C2, C1, app_assoc.
  split_and!; [done|done|lia|]. destruct W1 as [->|(? & ? & ?)], W2 as [->|(? & ? & ?)]; rewrite ?app_nil_r; try (by left); try lia; right; simpl; lia.
Qed.

Lemma run_checkDefault1 k name v s :
  0 <= errorCount s -> exists s', checkDefault1 typeName deref k name v s = (s', Ret tt) /\ warned s s'.
Proof.
  revert name v s. induction k as [|k IH]; intros name v s Hs; [exists s; split; [done|apply warned_refl]|].
  destruct v as [fields|[p|]|t zero|]; cbn [checkDefault1].
  - revert s Hs. induction fields as [|[n vv] fields IHf]; intros s Hs; [exists s; split; [done|apply warned_refl]|]. cbn [m_for].
    destruct (IH (if decide (name = "") then n else (name +:+ "." +:+ n)%string) vv s Hs) as (s1 & R1 & W1). rewrite (bind_run _ _ _ _ _ R1).
    destruct (IHf s1) as (s2 & R2 & W2); [destruct W1 as (? & _ & _ & ? & _); lia|]. exists s2. split; [done|by eapply warned_trans].
  - by apply IH.
  - exists s. split; [done|apply warned_refl].
  - destruct zero; simpl; [exists s; split; [done|apply warned_refl]|]. rewrite (bind_run _ _ s s (errorCount s)) by done.
    destruct (Z.ltb_spec (errorCount s) 1); simpl; eexists; (split; [done|]).
    + eexists [_]. simpl. split_and!; [done|done|lia|right; split_and!; [lia|lia|done]].
    + exists []. simpl. rewrite app_nil_r. split_and!; [done|done|lia|by left].
  - exists s. split; [done|apply warned_refl].
Qed.

(** Decoding into any value, also one with pointers in circles, returns; it warns at most
    once, only about the first thing that is wrong, and never changes what is checked. *)
Lemma checkDefault_warns v s : 0 <= errorCount s -> exists s', checkDefault typeName deref v s = (s', Ret tt) /\ warned s s'.
Proof. intros Hs. destruct v; [by apply run_checkDefault1|exists s; split; [done|apply warned_refl]]. Qed.

End Default.

(** ** A recursive type *)
Module ListType.

(** struct Node { Val int; next *Node } *)
Definition node_desc (t : string) : Desc string :=
  if decide (t = "Node")%string then Struct [("Val", "int"); ("next", "*Node")]%string
  else if decide (t = "*Node")%string then Elem "Node"%string
  else Basic.
Definition ascii_upper (name : string) : bool :=
  match name with String a _ => let n := Ascii.nat_of_ascii a in (65 <=? n)%nat && (n <=? 90)%nat | EmptyString => false end.

Definition start : Lab string := mkLab 0 ∅ [].
Definition node_dom : gset string := {["Node"; "*Node"; "int"]}%string.

Lemma node_closed (t c : string) : t ∈ node_dom -> c ∈ children node_desc t -> c ∈ node_dom.
Proof.
  intros Ht. assert (Hall : forall c, c ∈ children node_desc t -> c ∈ node_dom); [|apply Hall].
  unfold node_dom in Ht. rewrite !elem_of_union, !elem_of_singleton in Ht. apply Forall_forall.
  destruct Ht as [[->| ->]| ->]; refine (bool_decide_unpack _ _); vm_compute; exact I.
Qed.

Lemma checkType_exact_witness :
  fst (checkType node_desc ascii_upper 4 "*Node" start) = mkLab 1 node_dom [LowerCase "next" "Node"]%string
  /\ exists s' new extra, checkType node_desc ascii_upper 4 "*Node"%string start = (s', Ret true) /\ closed node_desc s'
    /\ (forall u, u ∈ checked s' <-> u ∈ checked start \/ reaches node_desc "*Node"%string u)
    /\ NoDup new /\ (forall u, u ∈ new <-> u ∈ checked s' /\ u ∉ checked start)
    /\ printed s' = printed start ++ extra /\ Permutation extra (new ≫= lowers node_desc ascii_upper)
    /\ errorCount s' = errorCount start + Z.of_nat (length extra).
Proof.
  split; [vm_compute; reflexivity|].
  apply (checkType_exact node_desc ascii_upper node_dom node_closed "*Node"%string start 4).
  - refine (bool_decide_unpack _ _). vm_compute. exact I.
  - intros t c Ht. simpl in Ht. by apply elem_of_empty in Ht.
  - refine (bool_decide_unpack _ _). vm_compute. exact I.
Defined.

End ListType.
